(* ===== verification/_CoqProject ===== *)
-Q . S2P
Prelude.v
Ssh.v
Nettle.v
Atoms.v
Alist.v
Queue.v
QueueSpec.v
QueueRun.v
Gc.v
GcSpec.v
LshString.v
Format.v
FormatSpec.v
Wire.v
Parse.v
ParseSpec.v
ParseAtoms.v
ParseUtf8.v
RoundTrip.v
StringUtil.v
Sys.v
SshWrite.v
SshRead.v
ServiceRead.v
Crypto.v
Hash.v
KexKeys.v
Keyexchange.v
KexSpec.v
DhExchange.v
Encrypt.v
TransportRead.v
TransportSpec.v
TransportSafe.v
TransportWrite.v
Io.v
Transport.v
TransportLogic.v
TransportSend.v
TransportKex.v
TransportProcess.v
TransportDh.v
TransportLoop.v
TransportRun.v
Forward.v
ForwardSafe.v
Lshd.v
LshdSafe.v
LshdExample.v
Charset.v
Service.v
Tokenize.v
ServerConfig.v
ServerConfigSpec.v
ServerConfigSafe.v
ServerConfigName.v
UserAuth.v
UserAuthSpec.v
UserAuthGrant.v
UserAuthRun.v
UserAuthExample.v
UserAuthConfig.v
UserAuthConfigSafe.v
UserAuthConfigExample.v
Connection.v
Channel.v
ChannelFormat.v
ChannelSpec.v
ChannelEnv.v
ChannelHandler.v
ChannelFlow.v
