(* ===== verification/Prelude.v ===== *)
(** * A verification of lsh

    lsh is an implementation of the Secure Shell protocol, version 2: a
    client, a server and their tools, written in C ([src/src]).  This library
    models the layers every byte of a connection passes through, as they are
    written, and proves that they do what the protocol and their own comments
    ask for.

    ** The program and its parts

    - Strings ([lsh_string.c]) are counted blocks with a terminating NUL.
      Queues ([queue.c]) are doubly linked lists.  Objects are collected: they
      are marked from a root set and swept along a chain ([gc.c]).
    - Messages are made by a formatter with its own conversions ([format.c])
      and taken apart by parsers over a cursor ([parse.c]).  Names of
      algorithms, channel types and requests are atoms ([atoms.c]), looked up
      in association lists ([alist.c], [list.c]).
    - Descriptors are read through a buffer ([ssh_read.c]) and written through
      a queue of octets ([ssh_write.c]).
    - The transport layer frames, authenticates, compresses and encrypts
      ([encrypt.c], [transport_write.c]) and undoes this ([transport_read.c]).
      Key exchange negotiates algorithms and derives keys ([keyexchange.c],
      with the hash objects of [crypto.c]), with Diffie-Hellman as method
      ([dh_exchange.c], [server_keyexchange.c], [client_keyexchange.c]).  A
      state machine driven by the event loop ([io.c]) ties these together:
      version lines, key exchange and rekeying, dispatch of packets, flow
      control towards the application, closing ([transport.c]).
    - The server [lshd] accepts connections, starts the requested service as a
      process and forwards packets to it over a socket pair ([lshd.c],
      [transport_forward.c], [service_read.c]).
    - The service [lshd-userauth] reads requests from that socket with blocking
      calls, looks up accounts, checks passwords and public keys, and on success
      becomes the user and executes the requested service ([lshd-userauth.c]),
      whose command line comes from a table ([server.c], [arglist.c]).  Names
      and passwords are converted to the local character set ([charset.c]).
      Its options come from the command line and from a configuration file,
      which is read through tables of options with handlers
      ([tokenize_config.c], [server_config.c], [server.c], [werror.c]).
    - The connection layer multiplexes channels: numbers ([connection.c]) and
      messages, flow control, requests, opening and closing ([channel.c]).

    ** Correspondence

    Constants and constructors keep the names of the source; a struct is a
    [Record] whose fields have a short prefix; a function is a [Definition] of
    the same name.  A loop is a [Fixpoint], and the branches of a long function
    are definitions of their own, composed as in the source.  A function
    returns in the monad [result]: a failed [assert], a call of [fatal], an
    access out of bounds, a variable argument of the wrong type, a null
    pointer, an uninitialised cell and non-termination are faults, so that
    "returns [Ok]" excludes all of these.  [uint32_t] and [uint8_t] are [Z]
    with explicit wrap-around ([u32], [u8]).  Log messages and releasing of
    memory are left out, except that a message about a configuration file reads
    the name of the file.

    - [Prelude]: outcomes, machine integers, lists indexed by [Z], tactics,
      hint databases.  [Ssh]: protocol constants ([ssh.h], [channel.h]).
    - [Nettle]: the macros and number conversions used from Nettle, as classes
      with laws and reference instances.
    - [Atoms]: [atoms.c]; the generated tables are a class, the table made
      from [atoms.in] an instance.  [Alist]: [list.c], [alist.c].
    - [Queue]: [queue.c], on a memory of words, as the header of a queue is two
      nodes that overlap; [QueueSpec]: each operation on the list of the nodes;
      [QueueRun]: a queue from its setup to its end, with any allocator.
    - [Gc]: [gc.c], on a heap of objects with the references that the generated
      mark functions visit; [GcSpec]: what marking, sweeping and killing do.
    - [LshString], [StringUtil]: [lsh_string.c].
    - [Format], [FormatSpec]: [format.c] and its reference encoding.  [Wire]:
      octets of formatted messages.
    - [Parse], [ParseSpec], [ParseAtoms], [ParseUtf8]: [parse.c]; parsers as
      codecs (classes [Codec], [Whole], [Denotes], [DenotesWhole]).
      [RoundTrip]: formatting and parsing together.
    - [Sys]: descriptors as the class [OS], which may deliver any answer a
      non-blocking descriptor can give.  [SshWrite], [SshRead], [ServiceRead]:
      the buffers.
    - [Crypto], [Hash]: ciphers, MACs, compression, randomness, hash functions
      as classes with laws and reference instances.
    - [Encrypt], [TransportRead], [TransportSpec], [TransportSafe],
      [TransportWrite]: the packet layer.
    - [KexKeys], [Keyexchange], [KexSpec]: [keyexchange.c].  [DhExchange]:
      [dh_exchange.c] and the handlers of both ends as functions of the packet.
    - [Io]: the registrations of [io.c] over the event loop, the class
      [OopSource].  [Transport]: [transport.c], as actions on a world made of
      the connection, the registrations, the descriptors and the application.
      The methods a program installs are the classes [Methods], [Events] and
      [Handlers]; their contracts, which the proofs use, are [AppSpec]
      ([TransportLogic], with weakest preconditions and the invariant),
      [EventsOk] ([TransportSend]) and [HandlersOk] ([TransportProcess]).
      [TransportSend], [TransportKex], [TransportProcess], [TransportLoop] and
      [TransportRun] go through the functions from sending to the callbacks;
      [TransportDh] adds the key exchange methods.
    - [Forward], [ForwardSafe]: [transport_forward.c].  [Lshd], [LshdSafe]: the
      connections of [lshd.c]; the methods are shown to keep the contracts.
      [LshdExample]: a concrete server.
    - [Charset]: [charset.c].  [Service]: [arglist.c] and the table of services
      of [server.c].
    - [Tokenize]: [tokenize_config.c] with a reference relation for tokens.
      [ServerConfig]: [server_config.c], over the objects of the program that the
      handlers work on; [ServerConfigSpec]: the values of lists;
      [ServerConfigSafe]: a contract for handlers under which every file can be
      read; [ServerConfigName]: files without a name.
    - [UserAuth]: [lshd-userauth.c], as actions on the state of the operating
      system that may also end the process, by a status or by executing a
      program.  The databases of users, the file system and the calls on the
      process are the class [Host], the verifiers of keys [UserKeys].
      [UserAuthSpec]: postconditions, packets, accounts; [UserAuthGrant]: when a
      request is granted; [UserAuthRun]: who the service runs as;
      [UserAuthExample]: a login.
    - [UserAuthConfig]: the options of [lshd-userauth.c], [server.c] and
      [werror.c] on the command line and in the file, up to the configuration
      that [UserAuth] works with; the environment and the files are the class
      [Files].  The library argp, bundled with lsh, is the sequence of calls it
      makes: options in any order, then the ends, children first.
      [UserAuthConfigSafe]: the handlers keep the contract and the configuration
      is good; [UserAuthConfigExample]: a configuration.
    - [Connection]: [connection.c].  [Channel]: [channel.c], over a world made
      of the connection, the heap of channel objects and the program around
      them, whose callbacks are the class [Methods].  [ChannelFormat],
      [ChannelSpec] (invariant and contract of the callbacks), [ChannelEnv]
      (instances of the contract), [ChannelHandler] and [ChannelFlow].

    ** What the theorems show

    - Formatting: both passes of [ssh_format] agree with a reference encoding;
      parsers are safe on every input and invert the formatter; the string
      utilities compute what their names say.
    - Memory: a queue of objects behaves as a double-ended list, passes the
      checks of a debugging build, leaks no node and writes no memory but its
      own; a collection frees exactly what is not reachable, and no program that
      keeps its reachable objects alive makes the collector fail.
    - Buffers: the write buffer is a FIFO under any interleaving and any
      behaviour of the descriptor; the pipe reader splits its stream into
      frames.
    - Transport: [encrypt_packet] builds the binary packets of RFC 4253 and
      [transport_read_packet] delivers their payload unchanged however the
      octets arrive; [transport_write_packet] and [transport_write_flush] put
      only sealed packets into the stream; the search for a write size ends.
    - Key exchange: negotiation is that of RFC 4253 on names, both ends agree,
      and the derived keys are those of the RFC.
      Both ends of a Diffie-Hellman exchange arrive at the same secret and at
      the exchange hash of the RFC.
    - State machine: the handshake establishes an invariant that no sequence
      of callbacks and calls breaks, provided the methods keep their contracts;
      receiving keys change only when [NEWKEYS] ends a key exchange.  Frames
      reach a service whole or not at all.  With the methods of lshd all
      contracts hold, and a connection is safe from the first octet to the last.
    - User authentication: character sets are converted as a reference says and
      back without loss; accounts are accepted by the rules written above
      [lookup_user]; a request is granted exactly if it is authorised, in terms
      of the octets of the packet and the databases of the host; whatever the
      client sends, a program is executed only for an authorised request, with
      the user id, arguments and environment of that request.
    - Configuration: the value of a list is the words of a balanced group;
      reading any file ends; whatever command line and file hold,
      [lshd-userauth] ends or has a configuration for which the theorems above
      hold, and the file does not change what the command line sets; the example
      that is printed is the example that is used.
    - Connection: channel numbers follow the discipline of file descriptors;
      every packet handler refines an abstract transition; no sequence of
      packets makes the layer fail an assertion, follow a null pointer or read
      an uninitialised cell; flow control loses no data.
    - A few theorems record behaviour at the edges that the code does not mean
      to have: assertions that a peer or a caller can make fail, a loop that
      need not end, and a null pointer for a mistake in a configuration file.

    ** Bounds and fuel

    Loops over data recurse on the data.  Where the source has no structural
    bound, fuel is given and shown to be enough: the mask of
    [select_write_size] is zero after 32 shifts, so 33 tests decide the loop
    (or it never ends); system calls are repeated after [EINTR] for as many
    interruptions as the descriptor has ahead of it; the loop over channels
    makes at most [max_channels] rounds; a token of a configuration file takes
    at least an octet of it; [kex_make_key] makes at most as many
    rounds as the key has octets; the loops over a queue make a round for
    each node; marking nests at most as deep as there are objects to mark, and
    sweeping makes a round for each object; the scan for the end of an atom is bounded
    by what is left in the buffer; each round of the loops over lines and
    packets in [oop_read_ssh], [oop_timer_retry] and [oop_read_service] consumes
    octets of a buffer of limited size ([READ_ROUNDS], [SERVICE_ROUNDS]); the
    blocking reads and writes of [lshd-userauth] move at least one octet each; a
    [PUSH] event during the handling of [PUSH] is a fault, too.  Running out of fuel is the fault
    [NonTermination], never a result.

    ** Not modelled

    In lshd, [socketpair], [fork] and the child up to [exec] (the class
    [ServiceProcess]), ports, options and the files with configuration and host
    keys; the client's transport program ([lsh-transport.c]); SRP; the users of
    channels (sessions, forwarding, X11, SOCKS), which appear only as callbacks;
    opening and reading of the configuration file, and the library argp; key files; the other programs; the event loop itself,
    the root set as a list of resources ([gc_global], [gc_final]) and the mark
    functions of the classes, the queues of strings, which repeat those of objects, logging, processes and terminals, which are effects on the
    operating system.  Nettle, GMP and zlib are outside the repository and
    appear as classes. *)

From Stdlib Require Ascii.
Export (notations) Ascii.
From stdpp Require Export base numbers gmap strings list.

#[global] Open Scope Z_scope.

(** ** Outcomes of C code

    A C function of lsh either returns, or stops the process through
    [assert] or [fatal], or does something the language leaves undefined:
    touching memory outside the object it was given, or fetching a variable
    argument of the wrong type, using a null pointer, reading a cell that was
    never written; or it does not return at all.  [ReaderStopped] is a
    failed assertion within a packet reader, told apart where its caller is
    studied. *)

Inductive fault : Set :=
  | AssertFailed
  | FatalError
  | OutOfBounds
  | BadVarArg
  | NullPointer
  | Uninitialised
  | NonTermination
  | ReaderStopped.

Inductive result (A : Type) : Type :=
  | Ok (a : A)
  | Fault (f : fault).
Arguments Ok {A} a.
Arguments Fault {A} f.

#[global] Instance fault_eq_dec : EqDecision fault.
Proof. solve_decision. Defined.

#[global] Instance result_ret : MRet result := λ A a, Ok a.
#[global] Instance result_bind : MBind result := λ A B k m,
  match m with
  | Ok a => k a
  | Fault f => Fault f
  end.
#[global] Instance result_fmap : FMap result := λ A B g m,
  match m with
  | Ok a => Ok (g a)
  | Fault f => Fault f
  end.

(** [assert (b)] of the source. *)
Definition c_assert (b : bool) : result () :=
  if b then Ok () else Fault AssertFailed.

(** A call of [fatal]. *)
Definition c_fatal {A} : result A := Fault FatalError.

(** Reading one element of a C array; out of range is undefined. *)
Definition rd {A} (l : list A) (i : Z) : result A :=
  if i <? 0 then Fault OutOfBounds
  else match l !! Z.to_nat i with
       | Some b => Ok b
       | None => Fault OutOfBounds
       end.

(** ** Machine integers

    [uint32_t] and [uint8_t] values are [Z]; arithmetic of the source that
    can leave the range is wrapped explicitly. *)

Definition u32 (z : Z) : Z := z `mod` 2 ^ 32.
Definition u8 (z : Z) : Z := z `mod` 2 ^ 8.
Definition is_u32 (z : Z) : Prop := 0 <= z < 2 ^ 32.
Definition is_byte (z : Z) : Prop := 0 <= z < 256.
Definition UINT32_MAX : Z := 2 ^ 32 - 1.

#[global] Instance is_u32_dec z : Decision (is_u32 z).
Proof. unfold is_u32. apply _. Defined.
#[global] Instance is_byte_dec z : Decision (is_byte z).
Proof. unfold is_byte. apply _. Defined.

(** C truth value of an integer. *)
Definition c_true (z : Z) : bool := negb (z =? 0).
Definition c_int (b : bool) : Z := if b then 1 else 0.

(** Dereferencing a pointer that may be null. *)
Definition deref {A} (p : option A) : result A :=
  match p with Some a => Ok a | None => Fault NullPointer end.

(** ** Lists indexed by [Z] *)

Definition lenZ {A} (l : list A) : Z := Z.of_nat (length l).

(** The [len] elements from position [pos] on. *)
Definition slice {A} (pos len : Z) (l : list A) : list A :=
  take (Z.to_nat len) (drop (Z.to_nat pos) l).

(** [dst] with the elements from [pos] on overwritten by [src]. *)
Definition splice {A} (pos : Z) (src dst : list A) : list A :=
  take (Z.to_nat pos) dst ++ src ++ drop (Z.to_nat pos + length src) dst.

#[global] Arguments lenZ {A} l : simpl never.
#[global] Arguments slice {A} pos len l : simpl never.
#[global] Arguments splice {A} pos src dst : simpl never.
#[global] Arguments u32 z : simpl never.
#[global] Arguments u8 z : simpl never.

(** The bytes of a C string literal, without the terminating NUL. *)
Definition char_code (c : Ascii.ascii) : Z := Z.of_N (Ascii.N_of_ascii c).
Fixpoint cstr (s : string) : list Z :=
  match s with
  | EmptyString => []
  | String c s => char_code c :: cstr s
  end.

(** ** Tactics *)

Create HintDb lsh.

Ltac case_bool :=
  match goal with
  | |- context [if ?b then _ else _] =>
      lazymatch type of b with bool => destruct b eqn:? end
  end.

Ltac case_bool_in H :=
  match type of H with
  | context [if ?b then _ else _] =>
      lazymatch type of b with bool => destruct b eqn:? end
  end.

Lemma bind_Ok {A B} (m : result A) (k : A → result B) b :
  (m ≫= k) = Ok b ↔ ∃ a, m = Ok a ∧ k a = Ok b.
Proof.
  destruct m as [a | f]; simpl; split.
  - eauto.
  - by intros (? & [= <-] & ?).
  - done.
  - by intros (? & ? & ?).
Qed.

Lemma bind_ok_l {A B} (a : A) (k : A → result B) : (Ok a ≫= k) = k a.
Proof. done. Qed.

Lemma bind_assoc {A B C} (m : result A) (k : A → result B) (h : B → result C) :
  ((m ≫= k) ≫= h) = (m ≫= λ a, k a ≫= h).
Proof. by destruct m. Qed.

Lemma c_assert_Ok b u : c_assert b = Ok u ↔ b = true.
Proof. by destruct b, u. Qed.

Lemma c_assert_true b : b = true → c_assert b = Ok ().
Proof. by intros ->. Qed.

(** Decompose the hypotheses that say a sequence of C statements returned. *)
Ltac ok_inv :=
  repeat match goal with
  | H : (_ ≫= _) = Ok _ |- _ =>
      apply bind_Ok in H; destruct H as (? & ? & H)
  | H : c_assert _ = Ok _ |- _ => apply c_assert_Ok in H
  | H : Ok _ = Ok _ |- _ => injection H as H
  | H : Fault _ = Ok _ |- _ => discriminate H
  | H : Ok _ = Fault _ |- _ => discriminate H
  | H : c_fatal = Ok _ |- _ => discriminate H
  | H : () = _ |- _ => clear H
  end; simplify_eq.

(** Discharge the assertions of the goal that arithmetic settles. *)
Ltac pass_assert_with t :=
  match goal with
  | |- context [c_assert ?b ≫= ?k] =>
      rewrite (c_assert_true b) by t; rewrite bind_ok_l
  end.
Ltac pass_assert := pass_assert_with ltac:(lia).

(** ** Postconditions

    [returns m Q]: the computation returns, with a value that satisfies
    [Q]. *)

Definition returns {A} (m : result A) (Q : A → Prop) : Prop := ∃ a, m = Ok a ∧ Q a.

Lemma returns_ok {A} (a : A) (Q : A → Prop) : Q a → returns (Ok a) Q.
Proof. by exists a. Qed.

Lemma returns_bind {A B} (m : result A) (k : A → result B) (P : A → Prop) (Q : B → Prop) :
  returns m P → (∀ a, P a → returns (k a) Q) → returns (m ≫= k) Q.
Proof. intros (a & -> & Ha) Hk. by apply Hk. Qed.

Lemma returns_weaken {A} (m : result A) (P Q : A → Prop) :
  returns m P → (∀ a, P a → Q a) → returns m Q.
Proof. intros (a & -> & Ha) HPQ. exists a. auto. Qed.

Lemma returns_assert {A} (b : bool) (k : () → result A) Q :
  b = true → returns (k ()) Q → returns (c_assert b ≫= k) Q.
Proof. by intros ->. Qed.

(** [ends m Q E]: the value satisfies [Q], or the fault satisfies [E]. *)
Definition ends {A} (m : result A) (Q : A → Prop) (E : fault → Prop) : Prop :=
  match m with Ok a => Q a | Fault f => E f end.

Lemma ends_bind {A B} (m : result A) (k : A → result B) (P : A → Prop) (Q : B → Prop) E :
  ends m P E → (∀ a, P a → ends (k a) Q E) → ends (m ≫= k) Q E.
Proof. destruct m as [a | f]; simpl; auto. Qed.

Lemma ends_weaken {A} (m : result A) (P Q : A → Prop) (E F : fault → Prop) :
  ends m P E → (∀ a, P a → Q a) → (∀ f, E f → F f) → ends m Q F.
Proof. destruct m; simpl; auto. Qed.

Lemma char_code_byte c : is_byte (char_code c).
Proof.
  unfold is_byte, char_code. pose proof (Ascii.N_ascii_bounded c). lia.
Qed.

Lemma cstr_bytes s : Forall is_byte (cstr s).
Proof. induction s; simpl; constructor; auto using char_code_byte. Qed.

(** ** Arithmetic lemmas *)

Lemma u32_id z : is_u32 z → u32 z = z.
Proof. unfold is_u32, u32. apply Z.mod_small. Qed.

Lemma u32_range z : is_u32 (u32 z).
Proof. unfold is_u32, u32. apply Z.mod_pos_bound. lia. Qed.

Lemma u8_id z : is_byte z → u8 z = z.
Proof. unfold is_byte, u8. intros. apply Z.mod_small. lia. Qed.

Lemma u8_range z : is_byte (u8 z).
Proof. unfold is_byte, u8. apply (Z.mod_pos_bound z (2 ^ 8)). lia. Qed.

Lemma u32_add_l a b : u32 (u32 a + b) = u32 (a + b).
Proof. unfold u32. apply Z.add_mod_idemp_l. lia. Qed.

Lemma u32_add_r a b : u32 (a + u32 b) = u32 (a + b).
Proof. unfold u32. apply Z.add_mod_idemp_r. lia. Qed.

(** Collapse nested wrap-around of sums. *)
Ltac u32_norm := repeat (rewrite u32_add_l || rewrite <- Z.add_assoc).

#[export] Hint Resolve u32_range u8_range : lsh.

(** ** List lemmas *)

Lemma lenZ_nonneg {A} (l : list A) : 0 <= lenZ l.
Proof. unfold lenZ. lia. Qed.

Lemma lenZ_nil {A} : lenZ (@nil A) = 0.
Proof. done. Qed.

Lemma lenZ_cons {A} (x : A) l : lenZ (x :: l) = 1 + lenZ l.
Proof. unfold lenZ. cbn [length]. lia. Qed.

Lemma lenZ_app {A} (l k : list A) : lenZ (l ++ k) = lenZ l + lenZ k.
Proof. unfold lenZ. rewrite length_app. lia. Qed.

Lemma lenZ_replicate {A} n (x : A) : lenZ (replicate n x) = Z.of_nat n.
Proof. unfold lenZ. by rewrite length_replicate. Qed.

Lemma lenZ_fmap {A B} (g : A → B) l : lenZ (g <$> l) = lenZ l.
Proof. unfold lenZ. by rewrite length_fmap. Qed.

Lemma lenZ_slice {A} pos len (l : list A) :
  0 <= pos → 0 <= len → pos + len <= lenZ l → lenZ (slice pos len l) = len.
Proof.
  unfold lenZ, slice. intros. rewrite length_take, length_drop. lia.
Qed.

Lemma lenZ_splice {A} pos (src dst : list A) :
  0 <= pos → pos + lenZ src <= lenZ dst → lenZ (splice pos src dst) = lenZ dst.
Proof.
  unfold lenZ, splice. intros.
  rewrite !length_app, length_take, length_drop. lia.
Qed.

Lemma slice_all {A} (l : list A) : slice 0 (lenZ l) l = l.
Proof. unfold slice, lenZ. rewrite Nat2Z.id. by rewrite take_ge. Qed.

Lemma slice_0 {A} pos (l : list A) : slice pos 0 l = [].
Proof. done. Qed.

Lemma slice_app_l {A} pos len (l k : list A) :
  0 <= pos → 0 <= len → pos + len <= lenZ l → slice pos len (l ++ k) = slice pos len l.
Proof.
  unfold lenZ, slice. intros.
  rewrite drop_app_le by lia. rewrite take_app_le; [done |].
  rewrite length_drop. lia.
Qed.

Lemma slice_app_r {A} pos len (l k : list A) :
  lenZ l <= pos → slice pos len (l ++ k) = slice (pos - lenZ l) len k.
Proof.
  unfold lenZ, slice. intros. rewrite drop_app_ge by lia. do 2 f_equal. lia.
Qed.

Lemma slice_slice {A} p1 l1 p2 l2 (l : list A) :
  0 <= p1 → 0 <= p2 → 0 <= l2 → p2 + l2 <= l1 →
  slice p2 l2 (slice p1 l1 l) = slice (p1 + p2) l2 l.
Proof.
  unfold slice. intros.
  rewrite skipn_firstn_comm, take_take, drop_drop. f_equal; [lia |]. f_equal. lia.
Qed.

Lemma slice_split {A} pos n m (l : list A) :
  0 <= pos → 0 <= n → 0 <= m →
  slice pos (n + m) l = slice pos n l ++ slice (pos + n) m l.
Proof.
  unfold slice. intros.
  replace (Z.to_nat (n + m)) with (Z.to_nat n + Z.to_nat m)%nat by lia.
  rewrite <- take_take_drop. rewrite drop_drop. do 3 f_equal. lia.
Qed.

(** What a splice leaves where it wrote, and elsewhere. *)
Lemma slice_splice_same {A} pos (src dst : list A) :
  0 <= pos → pos + lenZ src <= lenZ dst →
  slice pos (lenZ src) (splice pos src dst) = src.
Proof.
  unfold slice, splice, lenZ. intros.
  rewrite drop_app_ge by (rewrite length_take; lia).
  rewrite length_take.
  replace (_ - _)%nat with 0%nat by lia.
  rewrite drop_0, Nat2Z.id, take_app_le by lia. apply take_ge. lia.
Qed.

Lemma slice_splice_before {A} pos (src dst : list A) p n :
  0 <= p → 0 <= n → p + n <= pos → pos <= lenZ dst →
  slice p n (splice pos src dst) = slice p n dst.
Proof.
  unfold splice. intros.
  rewrite slice_app_l by (unfold lenZ in *; rewrite ?length_take; lia).
  unfold slice, lenZ in *. rewrite skipn_firstn_comm, take_take. f_equal. lia.
Qed.

Lemma slice_splice_after {A} pos (src dst : list A) p n :
  0 <= pos → pos + lenZ src <= p → pos + lenZ src <= lenZ dst →
  slice p n (splice pos src dst) = slice p n dst.
Proof.
  unfold splice. intros.
  rewrite slice_app_r by (unfold lenZ in *; rewrite length_take; lia).
  rewrite slice_app_r by (unfold lenZ in *; rewrite length_take; lia).
  unfold slice, lenZ in *. rewrite drop_drop, length_take. f_equal. f_equal. lia.
Qed.

(** A write inside a window is a write to the window. *)
Lemma slice_splice_inside {A} start len pos (src l : list A) :
  0 <= start → 0 <= pos → pos + lenZ src <= len → start + len <= lenZ l →
  slice start len (splice (start + pos) src l) = splice pos src (slice start len l).
Proof.
  intros Hs Hp Hl Hr. pose proof (lenZ_nonneg src).
  replace len with (pos + (lenZ src + (len - pos - lenZ src))) at 1 by lia.
  rewrite !slice_split by lia.
  rewrite slice_splice_before, slice_splice_same, slice_splice_after by lia.
  unfold splice, slice, lenZ in *. f_equal; [| f_equal].
  - rewrite take_take. f_equal. lia.
  - rewrite skipn_firstn_comm, drop_drop. f_equal; [lia |]. f_equal. lia.
Qed.

Lemma splice_nil {A} pos (dst : list A) : splice pos [] dst = dst.
Proof. unfold splice. simpl. rewrite Nat.add_0_r. apply take_drop. Qed.

(** Two adjacent writes are one. *)
Lemma splice_splice {A} pos (a b dst : list A) :
  0 <= pos → pos + lenZ a + lenZ b <= lenZ dst →
  splice (pos + lenZ a) b (splice pos a dst) = splice pos (a ++ b) dst.
Proof.
  unfold splice, lenZ. intros.
  assert (length (take (Z.to_nat pos) dst) = Z.to_nat pos) as Hl
    by (rewrite length_take; lia).
  replace (Z.to_nat (pos + Z.of_nat (length a)))
    with (Z.to_nat pos + length a)%nat by lia.
  rewrite take_app_ge by lia. rewrite Hl.
  rewrite take_app_ge by lia.
  replace (_ - _ - _)%nat with 0%nat by lia. rewrite take_0, app_nil_r.
  rewrite <- !app_assoc. f_equal. f_equal. f_equal.
  rewrite drop_app_ge by lia. rewrite Hl.
  rewrite drop_app_ge by lia. rewrite drop_drop, length_app. f_equal. lia.
Qed.

(** Replacing the middle of three parts. *)
Lemma splice_app {A} pos (src a m t : list A) :
  pos = lenZ a → lenZ m = lenZ src → splice pos src (a ++ m ++ t) = a ++ src ++ t.
Proof.
  unfold splice, lenZ. intros -> Hm. rewrite Nat2Z.id, take_app_length. f_equal. f_equal.
  rewrite drop_app_ge by lia. rewrite drop_app_ge by lia.
  replace (_ - _ - _)%nat with 0%nat by lia. apply drop_0.
Qed.

Lemma splice_whole {A} (src dst : list A) : lenZ src = lenZ dst → splice 0 src dst = src.
Proof. unfold splice, lenZ. intros. simpl. rewrite drop_ge by lia. apply app_nil_r. Qed.

Lemma slice_app_first {A} n (a t : list A) : n = lenZ a → slice 0 n (a ++ t) = a.
Proof. intros ->. rewrite slice_app_l by (pose proof (lenZ_nonneg a); lia). apply slice_all. Qed.

Lemma slice_app_second {A} pos n (a b t : list A) :
  pos = lenZ a → n = lenZ b → slice pos n (a ++ b ++ t) = b.
Proof. intros -> ->. rewrite slice_app_r, Z.sub_diag by lia. by apply slice_app_first. Qed.

(** Any list splits at any index. *)
Lemma split_at {A} n (l : list A) :
  0 <= n <= lenZ l → ∃ a b, l = a ++ b ∧ lenZ a = n ∧ lenZ b = lenZ l - n.
Proof.
  unfold lenZ. intros Hn. exists (take (Z.to_nat n) l), (drop (Z.to_nat n) l).
  rewrite take_drop, length_take, length_drop. split_and!; [done | lia | lia].
Qed.

Lemma rd_lookup {A} (l : list A) i x :
  rd l i = Ok x ↔ 0 <= i ∧ l !! Z.to_nat i = Some x.
Proof.
  unfold rd. destruct (i <? 0) eqn:?.
  - split; [done | lia].
  - destruct (l !! Z.to_nat i) as [y |]; split.
    + intros [= <-]. split; [lia | done].
    + by intros [_ [= ->]].
    + done.
    + by intros [_ ?].
Qed.

Lemma rd_ok {A} (l : list A) i : 0 <= i < lenZ l → ∃ x, rd l i = Ok x.
Proof.
  unfold lenZ. intros. destruct (lookup_lt_is_Some_2 l (Z.to_nat i)) as [x ?]; [lia |].
  exists x. apply rd_lookup. split; [lia | done].
Qed.

Lemma rd_app_r {A} (l k : list A) i :
  lenZ l <= i → rd (l ++ k) i = rd k (i - lenZ l).
Proof.
  intros. unfold rd. pose proof (lenZ_nonneg l). unfold lenZ in *.
  rewrite (proj2 (Z.ltb_ge i 0)) by lia.
  rewrite (proj2 (Z.ltb_ge (i - _) 0)) by lia.
  rewrite lookup_app_r by lia.
  by replace (Z.to_nat i - length l)%nat with (Z.to_nat (i - Z.of_nat (length l))) by lia.
Qed.

Lemma rd_0 {A} (x : A) l : rd (x :: l) 0 = Ok x.
Proof. done. Qed.

Lemma rd_1 {A} (x y : A) l : rd (x :: y :: l) 1 = Ok y.
Proof. done. Qed.

Lemma rd_drop {A} (l : list A) n i :
  0 <= n → 0 <= i → rd (drop (Z.to_nat n) l) i = rd l (n + i).
Proof.
  intros. unfold rd. rewrite (proj2 (Z.ltb_ge i 0)) by lia.
  rewrite (proj2 (Z.ltb_ge (n + i) 0)) by lia.
  rewrite lookup_drop. by replace (Z.to_nat (n + i)) with (Z.to_nat n + Z.to_nat i)%nat by lia.
Qed.

Lemma filter_ext_Forall {A} (P Q : A → Prop) `{∀ x, Decision (P x), ∀ x, Decision (Q x)} (l : list A) :
  Forall (λ x, P x ↔ Q x) l → filter P l = filter Q l.
Proof.
  induction 1 as [| x l Hx _ IH]; [done |]. rewrite !filter_cons, IH.
  destruct (decide (P x)), (decide (Q x)); tauto.
Qed.

Create Rewrite HintDb lsh.
#[export] Hint Rewrite @lenZ_nil @lenZ_cons @lenZ_app @lenZ_replicate @lenZ_fmap : lsh.

(** Normalise lengths, then arithmetic. *)
Ltac len_lia :=
  autorewrite with lsh in *;
  repeat match goal with
  | |- context [lenZ ?l] => lazymatch goal with
      | _ : 0 <= lenZ l |- _ => fail
      | _ => pose proof (lenZ_nonneg l) end
  | _ : context [lenZ ?l] |- _ => lazymatch goal with
      | _ : 0 <= lenZ l |- _ => fail
      | _ => pose proof (lenZ_nonneg l) end
  end; unfold is_u32, is_byte in *; lia.
