(* ===== verification/Ssh.v ===== *)
(** * Constants of the protocol ([src/src/ssh.h], [src/src/channel.h]) *)

From S2P Require Import Prelude.
Local Open Scope Z_scope.

(** ** Message numbers *)

Definition SSH_MSG_DISCONNECT := 1.
Definition SSH_MSG_IGNORE := 2.
Definition SSH_MSG_UNIMPLEMENTED := 3.
Definition SSH_MSG_DEBUG := 4.
Definition SSH_MSG_SERVICE_REQUEST := 5.
Definition SSH_MSG_SERVICE_ACCEPT := 6.
Definition SSH_MSG_KEXINIT := 20.
Definition SSH_MSG_NEWKEYS := 21.
Definition SSH_MSG_USERAUTH_REQUEST := 50.
Definition SSH_MSG_USERAUTH_FAILURE := 51.
Definition SSH_MSG_USERAUTH_SUCCESS := 52.
Definition SSH_MSG_USERAUTH_PK_OK := 60.
Definition SSH_MSG_GLOBAL_REQUEST := 80.
Definition SSH_MSG_REQUEST_SUCCESS := 81.
Definition SSH_MSG_REQUEST_FAILURE := 82.
Definition SSH_MSG_CHANNEL_OPEN := 90.
Definition SSH_MSG_CHANNEL_OPEN_CONFIRMATION := 91.
Definition SSH_MSG_CHANNEL_OPEN_FAILURE := 92.
Definition SSH_MSG_CHANNEL_WINDOW_ADJUST := 93.
Definition SSH_MSG_CHANNEL_DATA := 94.
Definition SSH_MSG_CHANNEL_EXTENDED_DATA := 95.
Definition SSH_MSG_CHANNEL_EOF := 96.
Definition SSH_MSG_CHANNEL_CLOSE := 97.
Definition SSH_MSG_CHANNEL_REQUEST := 98.
Definition SSH_MSG_CHANNEL_SUCCESS := 99.
Definition SSH_MSG_CHANNEL_FAILURE := 100.

(** ** Ranges of message numbers *)

Definition SSH_FIRST_KEYEXCHANGE_GENERIC := 20.
Definition SSH_FIRST_KEYEXCHANGE_SPECIFIC := 30.
Definition SSH_FIRST_USERAUTH_GENERIC := 50.
Definition SSH_FIRST_LOCAL := 192.

(** ** Reason codes *)

Definition SSH_DISCONNECT_PROTOCOL_ERROR := 2.
Definition SSH_DISCONNECT_KEY_EXCHANGE_FAILED := 3.
Definition SSH_DISCONNECT_MAC_ERROR := 5.
Definition SSH_DISCONNECT_SERVICE_NOT_AVAILABLE := 7.
Definition SSH_DISCONNECT_BY_APPLICATION := 11.

Definition SSH_OPEN_ADMINISTRATIVELY_PROHIBITED := 1.
Definition SSH_OPEN_UNKNOWN_CHANNEL_TYPE := 3.
Definition SSH_OPEN_RESOURCE_SHORTAGE := 4.

Definition SSH_EXTENDED_DATA_STDERR := 1.

(** ** Limits *)

Definition SSH_MAX_PACKET := 32768.
Definition SSH_MAX_TRANSPORT_RESPONSE := 20000.
Definition SSH_CHANNEL_MAX_PACKET_FUZZ := 100.
Definition SSH_MAX_DATA_SIZE := SSH_MAX_PACKET - SSH_CHANNEL_MAX_PACKET_FUZZ.

(** ** Kinds of channel data and channel flags *)

Definition CHANNEL_DATA := 0.
Definition CHANNEL_STDERR_DATA := 1.

Definition CHANNEL_SENT_CLOSE := 1.
Definition CHANNEL_RECEIVED_CLOSE := 2.
Definition CHANNEL_SENT_EOF := 4.
Definition CHANNEL_RECEIVED_EOF := 8.
Definition CHANNEL_NO_WAIT_FOR_EOF := 16.
