(* ===== verification/Nettle.v ===== *)
(** * What lsh relies on from the Nettle and GMP libraries

    Nettle is not part of the repository.  The macros of [nettle/macros.h]
    and the bignum conversions of [nettle/bignum.h] are operations of a
    class; the companion classes state their documented behaviour.  The
    instances at the end show that the documented behaviour can be met. *)

From S2P Require Import Prelude.
Local Open Scope Z_scope.

(** ** Reference encodings *)

(** Big-endian digits of [n], base 256, exactly [k] of them. *)
Fixpoint be_bytes (k : nat) (n : Z) : list Z :=
  match k with
  | O => []
  | S k => be_bytes k (n `div` 256) ++ [n `mod` 256]
  end.

(** The value of a big-endian digit string. *)
Definition be_value (l : list Z) : Z := foldl (λ acc b, acc * 256 + b) 0 l.

Definition be32 (n : Z) : list Z := be_bytes 4 n.
Definition be16 (n : Z) : list Z := be_bytes 2 n.

#[global] Arguments be32 n : simpl never.
#[global] Arguments be16 n : simpl never.

Lemma length_be_bytes k n : length (be_bytes k n) = k.
Proof. revert n. induction k; intros; simpl; [done |]. rewrite length_app, IHk. simpl. lia. Qed.

Lemma lenZ_be_bytes k n : lenZ (be_bytes k n) = Z.of_nat k.
Proof. unfold lenZ. by rewrite length_be_bytes. Qed.

Lemma be_bytes_bytes k n : Forall is_byte (be_bytes k n).
Proof.
  revert n. induction k; intros; simpl; [done |].
  apply Forall_app. split; [done |]. repeat constructor; apply Z.mod_pos_bound; lia.
Qed.

Lemma be_value_snoc l b : be_value (l ++ [b]) = be_value l * 256 + b.
Proof. unfold be_value. by rewrite foldl_app. Qed.

Lemma be_value_bytes k n : 0 <= n < 256 ^ Z.of_nat k → be_value (be_bytes k n) = n.
Proof.
  revert n. induction k; intros n Hn.
  - simpl in *. unfold be_value. simpl. lia.
  - cbn [be_bytes]. rewrite be_value_snoc, IHk.
    + rewrite Z.mul_comm. symmetry. apply Z.div_mod. lia.
    + rewrite Nat2Z.inj_succ, Z.pow_succ_r in Hn by lia.
      split; [apply Z.div_pos; lia | apply Z.div_lt_upper_bound; lia].
Qed.

Lemma be_value_range l :
  Forall is_byte l → 0 <= be_value l < 256 ^ lenZ l.
Proof.
  induction l as [| b l IH] using rev_ind; intros H.
  - unfold be_value, lenZ. simpl. lia.
  - apply Forall_app in H as [H Hb]. rewrite Forall_singleton in Hb.
    specialize (IH H). rewrite be_value_snoc, lenZ_app. unfold is_byte in Hb.
    change (lenZ [b]) with 1. pose proof (lenZ_nonneg l).
    rewrite Z.pow_add_r by lia. change (256 ^ 1) with 256. lia.
Qed.

Lemma be_bytes_value l :
  Forall is_byte l → be_bytes (length l) (be_value l) = l.
Proof.
  induction l as [| b l IH] using rev_ind; intros H; [done |].
  apply Forall_app in H as [H Hb]. rewrite Forall_singleton in Hb. unfold is_byte in Hb.
  rewrite length_app. simpl. rewrite Nat.add_1_r. cbn [be_bytes].
  rewrite be_value_snoc. rewrite Z.div_add_l, Z.div_small, Z.add_0_r by lia.
  rewrite IH by done. f_equal. f_equal.
  rewrite Z.add_comm, Z.mod_add, Z.mod_small by lia. done.
Qed.

Lemma lenZ_be32 n : lenZ (be32 n) = 4.
Proof. apply lenZ_be_bytes. Qed.

Lemma lenZ_be16 n : lenZ (be16 n) = 2.
Proof. apply lenZ_be_bytes. Qed.

#[export] Hint Rewrite lenZ_be32 lenZ_be16 lenZ_be_bytes : lsh.

(** ** [nettle/macros.h] *)

Class NettleMacros := {
  READ_UINT32 : Z → Z → Z → Z → Z;
  READ_UINT16 : Z → Z → Z;
  WRITE_UINT32 : Z → list Z;
}.

(** "Reads a 32-bit integer, in network, big-endian, byte order", and the
    converse. *)
Class NettleMacrosOk `{NettleMacros} : Prop := {
  READ_UINT32_spec b0 b1 b2 b3 :
    Forall is_byte [b0; b1; b2; b3] →
    READ_UINT32 b0 b1 b2 b3 = be_value [b0; b1; b2; b3];
  READ_UINT16_spec b0 b1 :
    Forall is_byte [b0; b1] → READ_UINT16 b0 b1 = be_value [b0; b1];
  WRITE_UINT32_spec n : is_u32 n → WRITE_UINT32 n = be32 n;
}.

(** ** [nettle/bignum.h] *)

Class NettleBignum := {
  nettle_mpz_sizeinbase_256_u : Z → Z;
  nettle_mpz_sizeinbase_256_s : Z → Z;
  nettle_mpz_get_str_256 : Z → Z → list Z;
  nettle_mpz_set_str_256_s : list Z → Z;
}.

(** The number of octets of the unsigned, resp. two's complement,
    representation, and the conversions in that many octets. *)
Class NettleBignumOk `{NettleBignum} : Prop := {
  sizeinbase_256_u_spec n l :
    0 < n → nettle_mpz_sizeinbase_256_u n = l ↔
      0 < l ∧ 256 ^ (l - 1) <= n < 256 ^ l;
  sizeinbase_256_s_spec n l :
    0 < n → nettle_mpz_sizeinbase_256_s n = l ↔
      0 < l ∧ 256 ^ (l - 1) <= 2 * n < 256 ^ l;
  get_str_256_spec l n :
    0 <= l → 0 <= n < 256 ^ l → nettle_mpz_get_str_256 l n = be_bytes (Z.to_nat l) n;
  set_str_256_s_spec bs :
    Forall is_byte bs →
    nettle_mpz_set_str_256_s bs =
      (if 2 * be_value bs <? 256 ^ lenZ bs then be_value bs
       else be_value bs - 256 ^ lenZ bs);
}.

(** ** The documented behaviour can be met *)

#[export] Instance ref_macros : NettleMacros := {
  READ_UINT32 b0 b1 b2 b3 := be_value [b0; b1; b2; b3];
  READ_UINT16 b0 b1 := be_value [b0; b1];
  WRITE_UINT32 := be32;
}.

#[export] Instance ref_macros_ok : NettleMacrosOk.
Proof. by split. Qed.

(** Least [l >= 1] with [n < 256 ^ l], by counting digits. *)
Definition size256 (n : Z) : Z := Z.log2 n `div` 8 + 1.

Lemma size256_spec n l :
  0 < n → size256 n = l ↔ 0 < l ∧ 256 ^ (l - 1) <= n < 256 ^ l.
Proof.
  intros Hn. unfold size256. change 256 with (2 ^ 8).
  pose proof (Z.log2_nonneg n) as Hlog.
  pose proof (Z.div_pos (Z.log2 n) 8) as Hdiv.
  assert (Hiff : ∀ k, 0 <= k → (2 ^ 8) ^ k <= n ↔ k <= Z.log2 n `div` 8).
  { intros k Hk. rewrite <- Z.pow_mul_r by lia.
    rewrite Z.log2_le_pow2 by lia. split; intros.
    - apply Z.div_le_lower_bound; lia.
    - pose proof (Z.mul_div_le (Z.log2 n) 8). lia. }
  split.
  - intros <-. split; [lia |]. split.
    + apply Hiff; lia.
    + apply Z.nle_gt. rewrite Hiff by lia. lia.
  - intros (Hl & Hlo & Hhi). rewrite Hiff in Hlo by lia.
    apply Z.lt_nge in Hhi. rewrite Hiff in Hhi by lia. lia.
Qed.

#[export] Instance ref_bignum : NettleBignum := {
  nettle_mpz_sizeinbase_256_u := size256;
  nettle_mpz_sizeinbase_256_s n := size256 (2 * n);
  nettle_mpz_get_str_256 l n := be_bytes (Z.to_nat l) n;
  nettle_mpz_set_str_256_s bs :=
    (if 2 * be_value bs <? 256 ^ lenZ bs then be_value bs
     else be_value bs - 256 ^ lenZ bs);
}.

#[export] Instance ref_bignum_ok : NettleBignumOk.
Proof.
  split; try done.
  - intros. by apply size256_spec.
  - intros. apply size256_spec. lia.
Qed.
