(* ===== verification/Atoms.v ===== *)
(** * Atoms ([src/src/atoms.c], [src/src/atoms.in])

    Algorithm, channel-type and request names are represented by small
    integers; zero stands for every unknown name.  [atoms_gperf.c] and
    [atoms_table.c] are generated at build time by [process_atoms] and
    [gperf] from [atoms.in]; they are the operations of [AtomTable], and
    [AtomTableOk] states what the generated code promises.  The instance
    [lsh_atoms] is the table [process_atoms] produces from [atoms.in]. *)

From S2P Require Import Prelude.
Local Open Scope Z_scope.

Class AtomTable := {
  atom_table : list (list Z * Z);
  gperf_atom : list Z → option Z;
}.

(** An atom name is a non-empty word of [atoms.in]: at most 64 octets, and
    no comma, which separates atoms in a name-list. *)
Definition atom_name_ok (name : list Z) : Prop :=
  Forall is_byte name ∧ Forall (λ c, c ≠ 44) name ∧ 1 <= lenZ name <= 64.

Class AtomTableOk `{AtomTable} : Prop := {
  atom_table_entry i name len :
    atom_table !! i = Some (name, len) → len = lenZ name ∧ atom_name_ok name;
  gperf_atom_spec name id :
    gperf_atom name = Some id ↔
      1 <= id ∧ atom_table !! Z.to_nat id = Some (name, lenZ name);
}.

Section atoms.
Context `{AtomTable}.

Definition get_atom_length (atom : Z) : result Z :=
  e ← rd atom_table atom; Ok (snd e).

Definition get_atom_name (atom : Z) : result (list Z) :=
  e ← rd atom_table atom; Ok (fst e).

Definition lookup_atom (name : list Z) : Z :=
  match gperf_atom name with
  | Some id => id
  | None => 0
  end.

(** The integers that denote a known name. *)
Definition valid_atom (a : Z) : Prop := 1 <= a < lenZ atom_table.

Context `{!AtomTableOk}.

Lemma get_atom_valid a :
  valid_atom a →
  ∃ name, get_atom_name a = Ok name ∧ get_atom_length a = Ok (lenZ name)
          ∧ atom_name_ok name ∧ lookup_atom name = a.
Proof.
  intros [Ha1 Ha2]. destruct (rd_ok atom_table a) as [[name len] Hrd]; [lia |].
  unfold get_atom_name, get_atom_length. rewrite Hrd. simpl.
  apply rd_lookup in Hrd as [_ Hl].
  destruct (atom_table_entry _ _ _ Hl) as [-> Hok].
  exists name. split_and!; [done | done | done |].
  unfold lookup_atom. by rewrite (proj2 (gperf_atom_spec name a)).
Qed.

Lemma lookup_atom_inv name :
  lookup_atom name ≠ 0 →
  valid_atom (lookup_atom name) ∧ get_atom_name (lookup_atom name) = Ok name.
Proof.
  unfold lookup_atom. destruct (gperf_atom name) as [id |] eqn:E; [intros _ | done].
  apply gperf_atom_spec in E as [Hid Hl]. split.
  - unfold valid_atom, lenZ. apply lookup_lt_Some in Hl. lia.
  - unfold get_atom_name. rewrite (proj2 (rd_lookup _ _ (name, lenZ name))); [done |].
    split; [lia | done].
Qed.

End atoms.

#[global] Arguments get_atom_length {_} atom : simpl never.
#[global] Arguments get_atom_name {_} atom : simpl never.

(** ** The table generated from [atoms.in] *)

Definition atom_words : list string :=
  ["none"; "zlib"; "3des-cbc";
   "3des-ctr"; "blowfish-cbc"; "blowfish-ctr";
   "twofish256-cbc"; "twofish-cbc"; "twofish128-cbc";
   "twofish192-cbc"; "twofish128-ctr"; "twofish192-ctr";
   "twofish256-ctr"; "aes256-cbc"; "aes192-cbc";
   "aes128-cbc"; "aes128-ctr"; "aes192-ctr";
   "aes256-ctr"; "serpent256-cbc"; "serpent192-cbc";
   "serpent128-cbc"; "serpent128-ctr"; "serpent192-ctr";
   "serpent256-ctr"; "arcfour"; "cast128-cbc";
   "cast128-ctr"; "hmac-sha1"; "hmac-sha1-96";
   "hmac-md5"; "diffie-hellman-group1-sha1"; "diffie-hellman-group14-sha1";
   "ssh-dss"; "ssh-rsa"; "ssh-dsa";
   "ssh-dsa-sha256@lysator.liu.se"; "spki-sign-rsa"; "spki-sign-dss";
   "spki"; "publickey"; "password";
   "hostbased"; "keyboard-interactive"; "gssapi";
   "session"; "pty-req"; "x11-req";
   "x11"; "auth-agent-req"; "auth-agent";
   "env"; "shell"; "exec";
   "subsystem"; "window-change"; "xon-xoff";
   "signal"; "exit-status"; "exit-signal";
   "tcpip-forward"; "cancel-tcpip-forward"; "forwarded-tcpip";
   "direct-tcpip"; "ABRT"; "ALRM";
   "FPE"; "HUP"; "ILL";
   "INT"; "KILL"; "PIPE";
   "QUIT"; "SEGV"; "TERM";
   "USR1"; "USR2"; "signal-unknown@lysator.liu.se";
   "dsa"; "dsa-sha256"; "rsa-pkcs1";
   "rsa-pkcs1-sha1"; "rsa-pkcs1-md5"; "Xpkcs5v2"].

Fixpoint find_atom (id : Z) (words : list string) (name : list Z) : option Z :=
  match words with
  | [] => None
  | w :: words =>
      if bool_decide (cstr w = name) then Some id else find_atom (id + 1) words name
  end.

#[export] Instance lsh_atoms : AtomTable := {
  atom_table := (λ w, (cstr w, lenZ (cstr w))) <$> "UNKNOWN" :: atom_words;
  gperf_atom := find_atom 1 atom_words;
}.

Lemma find_atom_spec words start name id :
  NoDup (cstr <$> words) →
  find_atom start words name = Some id ↔
    start <= id ∧ (cstr <$> words) !! Z.to_nat (id - start) = Some name.
Proof.
  revert start. induction words as [| w words IH]; intros start Hnd; simpl.
  - rewrite lookup_nil. split; [done | by intros []].
  - rewrite fmap_cons in Hnd. apply NoDup_cons in Hnd as [Hw Hnd].
    case_bool_decide as Hn.
    + subst name. split.
      * intros [= <-]. split; [lia |]. by replace (Z.to_nat (start - start)) with O by lia.
      * intros [Hle Hl]. destruct (Z.to_nat (id - start)) as [| k] eqn:Ek.
        -- f_equal. lia.
        -- simpl in Hl. contradict Hw. apply list_elem_of_lookup. eauto.
    + rewrite IH by done. split; intros [Hle Hl].
      * split; [lia |].
        by replace (Z.to_nat (id - start)) with (S (Z.to_nat (id - (start + 1)))) by lia.
      * destruct (Z.to_nat (id - start)) as [| k] eqn:Ek; simpl in Hl; [congruence |].
        split; [lia |]. by replace (Z.to_nat (id - (start + 1))) with k by lia.
Qed.

Lemma atom_words_nodup : NoDup (cstr <$> atom_words).
Proof. apply (bool_decide_unpack _). by vm_compute. Qed.

Definition atom_name_okb (name : list Z) : bool :=
  bool_decide (Forall is_byte name) && forallb (λ c, negb (c =? 44)) name
  && (1 <=? lenZ name) && (lenZ name <=? 64).

Lemma atom_name_okb_ok name : atom_name_okb name = true → atom_name_ok name.
Proof.
  unfold atom_name_okb, atom_name_ok. rewrite !andb_true_iff, forallb_forall, bool_decide_eq_true.
  intros [[[Hb Hc] H1] H2]. split_and!; [done | | lia | lia].
  apply Forall_forall. intros c Hin. apply list_elem_of_In in Hin. specialize (Hc c Hin). lia.
Qed.

#[export] Instance lsh_atoms_ok : AtomTableOk.
Proof.
  assert (Hall : forallb (λ w, atom_name_okb (cstr w)) ("UNKNOWN" :: atom_words) = true)
    by by vm_compute.
  rewrite forallb_forall in Hall. split.
  - intros i name len Hl.
    change atom_table with ((λ w, (cstr w, lenZ (cstr w))) <$> "UNKNOWN" :: atom_words) in Hl.
    rewrite list_lookup_fmap in Hl. apply fmap_Some in Hl as (w & Hw & [= -> ->]).
    split; [done |]. apply atom_name_okb_ok, Hall, list_elem_of_In, list_elem_of_lookup. eauto.
  - intros name id. change (gperf_atom name) with (find_atom 1 atom_words name).
    rewrite (find_atom_spec _ _ _ _ atom_words_nodup).
    change atom_table with ((λ w, (cstr w, lenZ (cstr w))) <$> "UNKNOWN" :: atom_words).
    split; intros [Hid Hl]; (split; [done |]).
    + rewrite list_lookup_fmap in Hl. apply fmap_Some in Hl as (w & Hw & ->).
      replace (Z.to_nat id) with (S (Z.to_nat (id - 1))) by lia.
      by rewrite fmap_cons, lookup_cons, list_lookup_fmap, Hw.
    + replace (Z.to_nat id) with (S (Z.to_nat (id - 1))) in Hl by lia.
      rewrite fmap_cons, lookup_cons, list_lookup_fmap in Hl.
      apply fmap_Some in Hl as (w & Hw & [= -> _]). by rewrite list_lookup_fmap, Hw.
Qed.
