(* ===== verification/Alist.v ===== *)
(** * Lists of atoms and association lists ([src/src/list.c], [alist.c])

    Tables from atoms to objects come in two representations behind one
    method table: an array with one entry per atom, and a chain of nodes.  An
    absent entry is the null pointer.  Both implement finite maps. *)

From S2P Require Import Prelude Atoms.
Local Open Scope Z_scope.

(** ** Lists of integers *)

(** [va_arg (args, int)] *)
Definition va_int (args : list Z) : result (Z * list Z) :=
  match args with
  | a :: args => Ok (a, args)
  | [] => Fault BadVarArg
  end.

Fixpoint make_int_loop (n : nat) (args : list Z) : result (list Z * list Z) :=
  match n with
  | O => Ok ([], args)
  | S n =>
      '(atom, args) ← va_int args;
      _ ← c_assert (0 <=? atom);
      '(l, args) ← make_int_loop n args;
      Ok (atom :: l, args)
  end.

Definition make_int_listv (n : nat) (args : list Z) : result (list Z) :=
  '(l, args) ← make_int_loop n args;
  '(e, _) ← va_int args;
  _ ← c_assert (e =? -1);
  Ok l.

Fixpoint int_list_member (l : list Z) (atom : Z) : bool :=
  match l with
  | [] => false
  | x :: l => if x =? atom then true else int_list_member l atom
  end.

Lemma int_list_member_spec l atom : int_list_member l atom = bool_decide (atom ∈ l).
Proof.
  induction l as [| x l IH]; cbn [int_list_member].
  - by rewrite bool_decide_eq_false_2 by set_solver.
  - destruct (Z.eqb_spec x atom) as [-> | Hx].
    + by rewrite bool_decide_eq_true_2 by set_solver.
    + rewrite IH. apply bool_decide_ext. set_solver.
Qed.

Lemma make_int_loop_spec l rest :
  Forall (λ a, 0 <= a) l → make_int_loop (length l) (l ++ rest) = Ok (l, rest).
Proof.
  induction 1 as [| a l Ha _ IH]; simpl; [done |]. pass_assert. by rewrite IH.
Qed.

(** The list is the arguments, in order. *)
Lemma make_int_listv_spec l rest :
  Forall (λ a, 0 <= a) l → make_int_listv (length l) (l ++ -1 :: rest) = Ok l.
Proof. intros Hl. unfold make_int_listv. by rewrite make_int_loop_spec. Qed.

(** ** Association lists *)

Section alist.
Context `{AtomTable} {A : Type}.

(** The generated header defines it as one more than the largest atom. *)
Definition NUMBER_OF_ATOMS : Z := lenZ atom_table.

Inductive alist :=
  | alist_linear (table : list (option A))
  | alist_linked (head : list (Z * A)).

Definition do_linear_get (table : list (option A)) (atom : Z) : result (option A) :=
  _ ← c_assert (0 <=? atom);
  _ ← c_assert (atom <? NUMBER_OF_ATOMS);
  rd table atom.

Definition do_linear_set (table : list (option A)) (atom : Z) (value : option A)
  : result (list (option A)) :=
  _ ← c_assert (0 <=? atom);
  _ ← c_assert (atom <? NUMBER_OF_ATOMS);
  _ ← rd table atom;
  Ok (<[Z.to_nat atom := value]> table).

Fixpoint linked_find (head : list (Z * A)) (atom : Z) : option A :=
  match head with
  | [] => None
  | (a, v) :: next => if a =? atom then Some v else linked_find next atom
  end.

Definition do_linked_get (head : list (Z * A)) (atom : Z) : result (option A) :=
  _ ← c_assert (0 <=? atom);
  Ok (linked_find head atom).

(** The first node with the atom gets the value; [None] if there is none. *)
Fixpoint linked_replace (head : list (Z * A)) (atom : Z) (value : A) : option (list (Z * A)) :=
  match head with
  | [] => None
  | (a, v) :: next =>
      if a =? atom then Some ((a, value) :: next)
      else match linked_replace next atom value with
           | Some next => Some ((a, v) :: next)
           | None => None
           end
  end.

Fixpoint linked_remove (head : list (Z * A)) (atom : Z) : list (Z * A) :=
  match head with
  | [] => []
  | (a, v) :: next => if a =? atom then next else (a, v) :: linked_remove next atom
  end.

Definition do_linked_set (head : list (Z * A)) (atom : Z) (value : option A)
  : result (list (Z * A)) :=
  _ ← c_assert (0 <=? atom);
  match value with
  | Some v =>
      match linked_replace head atom v with
      | Some head => Ok head
      | None => Ok ((atom, v) :: head)
      end
  | None => Ok (linked_remove head atom)
  end.

Definition ALIST_GET (a : alist) (atom : Z) : result (option A) :=
  match a with
  | alist_linear table => do_linear_get table atom
  | alist_linked head => do_linked_get head atom
  end.

Definition ALIST_SET (a : alist) (atom : Z) (value : option A) : result alist :=
  match a with
  | alist_linear table => table ← do_linear_set table atom value; Ok (alist_linear table)
  | alist_linked head => head ← do_linked_set head atom value; Ok (alist_linked head)
  end.

(** The variable arguments are pairs of an atom and a pointer, then -1. *)
Fixpoint alist_addv (a : alist) (args : list (Z * option A)) : result alist :=
  match args with
  | [] => Ok a
  | (atom, value) :: args =>
      if atom <? 0 then c_fatal
      else a ← ALIST_SET a atom value; alist_addv a args
  end.

Definition make_linear_alist (args : list (Z * option A)) : result alist :=
  alist_addv (alist_linear (replicate (Z.to_nat NUMBER_OF_ATOMS) None)) args.

Definition make_linked_alist (args : list (Z * option A)) : result alist :=
  alist_addv (alist_linked []) args.

Fixpoint select_loop (src dst : alist) (atoms : list Z) : result alist :=
  match atoms with
  | [] => Ok dst
  | atom :: atoms =>
      _ ← c_assert (0 <=? atom);
      o ← ALIST_GET src atom;
      dst ← match o with
            | Some _ => ALIST_SET dst atom o
            | None => Ok dst
            end;
      select_loop src dst atoms
  end.

(** [make_alist] is [make_linear_alist]. *)
Definition alist_select_l (src : alist) (atoms : list Z) : result alist :=
  dst ← make_linear_alist [];
  select_loop src dst atoms.

End alist.
#[global] Arguments alist A : clear implicits.

(** ** Finite maps as specification *)

Section refinement.
Context `{AtomTable} {A : Type}.
Implicit Types (m : gmap Z A) (a : alist A).

(** An atom a table accepts as a key. *)
Definition key_ok a (atom : Z) : Prop :=
  0 <= atom ∧ match a with alist_linear _ => atom < NUMBER_OF_ATOMS | alist_linked _ => True end.

Definition alist_map a m : Prop :=
  match a with
  | alist_linear table =>
      lenZ table = NUMBER_OF_ATOMS ∧ dom m ⊆ list_to_set (seqZ 0 NUMBER_OF_ATOMS)
      ∧ ∀ atom, 0 <= atom < NUMBER_OF_ATOMS → table !! Z.to_nat atom = Some (m !! atom)
  | alist_linked head => NoDup head.*1 ∧ m = list_to_map head
  end.

Definition update_map m (atom : Z) (value : option A) : gmap Z A :=
  match value with Some v => <[atom := v]> m | None => delete atom m end.

Lemma update_map_lookup m atom value k :
  update_map m atom value !! k = if decide (atom = k) then value else m !! k.
Proof.
  unfold update_map. destruct value; case_decide; simplify_map_eq; done.
Qed.

Lemma linked_find_spec (head : list (Z * A)) atom :
  linked_find head atom = (list_to_map head : gmap Z A) !! atom.
Proof.
  induction head as [| [k v] head IH]; simpl; [by rewrite lookup_empty |].
  destruct (Z.eqb_spec k atom) as [-> | Hk]; by simplify_map_eq.
Qed.

Lemma linked_replace_spec (head : list (Z * A)) atom v :
  match linked_replace head atom v with
  | Some head' => head'.*1 = head.*1 ∧ list_to_map head' =@{gmap Z A} <[atom := v]> (list_to_map head)
  | None => atom ∉ head.*1
  end.
Proof.
  induction head as [| [k w] head IH]; simpl; [set_solver |].
  destruct (Z.eqb_spec k atom) as [-> | Hk]; simpl; [by rewrite insert_insert_eq |].
  destruct (linked_replace head atom v) as [head' |]; simpl.
  - destruct IH as [Hf Hm]. split; [by f_equal |]. by rewrite Hm, insert_insert_ne.
  - set_solver.
Qed.

Lemma linked_remove_spec (head : list (Z * A)) atom :
  NoDup head.*1 →
  NoDup (linked_remove head atom).*1 ∧ (linked_remove head atom).*1 ⊆ head.*1
  ∧ list_to_map (linked_remove head atom) =@{gmap Z A} delete atom (list_to_map head).
Proof.
  induction head as [| [k w] head IH]; simpl; [by rewrite delete_empty |].
  intros [Hk Hnd]%NoDup_cons. destruct (IH Hnd) as (Hn & Hs & Hm).
  destruct (Z.eqb_spec k atom) as [-> | Hne]; simpl.
  - split_and!; [done | set_solver |].
    rewrite delete_insert_id; [done |]. by apply not_elem_of_list_to_map_1.
  - split_and!; [apply NoDup_cons; set_solver | set_solver |].
    by rewrite Hm, delete_insert_ne.
Qed.

Lemma alist_get_spec a m atom : alist_map a m → key_ok a atom → ALIST_GET a atom = Ok (m !! atom).
Proof.
  destruct a as [table | head]; simpl; intros Ha [Hk1 Hk2].
  - destruct Ha as (Hl & _ & Ht). unfold do_linear_get. do 2 pass_assert.
    apply rd_lookup. split; [done |]. by apply Ht.
  - destruct Ha as [_ ->]. unfold do_linked_get. pass_assert. by rewrite linked_find_spec.
Qed.

Lemma alist_set_spec a m atom value :
  alist_map a m → key_ok a atom →
  ∃ a', ALIST_SET a atom value = Ok a' ∧ alist_map a' (update_map m atom value)
        ∧ ∀ k, key_ok a' k ↔ key_ok a k.
Proof.
  destruct a as [table | head]; simpl; intros Ha [Hk1 Hk2].
  - destruct Ha as (Hl & Hd & Ht). unfold do_linear_set. do 2 pass_assert.
    destruct (rd_ok table atom) as [x ->]; [lia |]. simpl. eexists. split_and!; [done | | done].
    simpl. split_and!; [unfold lenZ; by rewrite length_insert | |].
    + intros k Hin%elem_of_dom. destruct Hin as [v Hv]. rewrite update_map_lookup in Hv.
      case_decide; subst; [apply elem_of_list_to_set, elem_of_seqZ; lia |].
      apply Hd, elem_of_dom. eauto.
    + intros k Hk. rewrite update_map_lookup. case_decide as Heq.
      * subst k. rewrite list_lookup_insert_eq; [done |]. unfold lenZ in Hl. lia.
      * rewrite list_lookup_insert_ne by lia. by apply Ht.
  - destruct Ha as [Hnd ->]. unfold do_linked_set. pass_assert. destruct value as [v |].
    + pose proof (linked_replace_spec head atom v) as Hr. destruct (linked_replace head atom v) as [head' |].
      * destruct Hr as [Hf Hm]. eexists. split_and!; [done | simpl; by rewrite Hf | done].
      * eexists. split_and!; [done | | done]. simpl. split; [by apply NoDup_cons | done].
    + destruct (linked_remove_spec head atom Hnd) as (Hn & _ & Hm). eexists. by split_and!.
Qed.

Lemma alist_addv_spec args a m :
  alist_map a m → Forall (key_ok a) args.*1 →
  ∃ a', alist_addv a args = Ok a'
    ∧ alist_map a' (foldl (λ m e, update_map m e.1 e.2) m args) ∧ ∀ k, key_ok a' k ↔ key_ok a k.
Proof.
  revert a m. induction args as [| [atom value] args IH]; intros a m Ha; simpl; [eauto |].
  intros [Hk Hks]%Forall_cons. rewrite (proj2 (Z.ltb_ge _ _)) by apply Hk.
  destruct (alist_set_spec a m atom value Ha Hk) as (a1 & -> & Ha1 & Hk1). simpl.
  destruct (IH a1 (update_map m atom value) Ha1) as (a2 & -> & Ha2 & Hk2).
  - eapply Forall_impl; [exact Hks |]. intros k. apply Hk1.
  - exists a2. split_and!; [done | done |]. intros k. by rewrite Hk2, Hk1.
Qed.

Lemma empty_linear_map : alist_map (alist_linear (replicate (Z.to_nat NUMBER_OF_ATOMS) None)) (∅ : gmap Z A).
Proof.
  pose proof (lenZ_nonneg atom_table). unfold NUMBER_OF_ATOMS. simpl.
  split_and!; [rewrite lenZ_replicate; unfold NUMBER_OF_ATOMS; lia | set_solver |].
  intros atom Hatom. rewrite lookup_empty. apply lookup_replicate_2. unfold NUMBER_OF_ATOMS in Hatom. lia.
Qed.

Lemma make_linear_alist_spec (args : list (Z * option A)) :
  Forall (λ k, 0 <= k < NUMBER_OF_ATOMS) args.*1 →
  ∃ a, make_linear_alist args = Ok a
    ∧ alist_map a (foldl (λ m e, update_map m e.1 e.2) ∅ args) ∧ ∀ k, key_ok a k ↔ 0 <= k < NUMBER_OF_ATOMS.
Proof. apply (alist_addv_spec args _ ∅ empty_linear_map). Qed.

Lemma make_linked_alist_spec (args : list (Z * option A)) :
  Forall (λ k, 0 <= k) args.*1 →
  ∃ a, make_linked_alist args = Ok a
    ∧ alist_map a (foldl (λ m e, update_map m e.1 e.2) ∅ args) ∧ ∀ k, key_ok a k ↔ 0 <= k.
Proof.
  intros Hk. destruct (alist_addv_spec args (alist_linked []) (∅ : gmap Z A)) as (a & Ha & Hm & Hks).
  - split; [constructor | done].
  - eapply Forall_impl; [exact Hk |]. simpl. by unfold key_ok.
  - exists a. split_and!; [done | done |]. intros k. rewrite Hks. unfold key_ok. tauto.
Qed.

(** The selected part of a map. *)
Definition select_map (atoms : list Z) m : gmap Z A := filter (λ e, e.1 ∈ atoms) m.

Lemma select_map_lookup atoms m k :
  select_map atoms m !! k = if decide (k ∈ atoms) then m !! k else None.
Proof.
  unfold select_map. rewrite map_lookup_filter. destruct (m !! k) as [v |]; simpl; [| by case_decide].
  case_decide; [by rewrite option_guard_True | by rewrite option_guard_False].
Qed.

Lemma select_loop_spec atoms src dst m d :
  alist_map src m → alist_map dst d → Forall (λ k, key_ok src k ∧ key_ok dst k) atoms →
  ∃ a, select_loop src dst atoms = Ok a ∧ alist_map a (select_map atoms m ∪ d).
Proof.
  intros Hs. revert dst d. induction atoms as [| atom atoms IH]; intros dst d Hd.
  - intros _. exists dst. split; [done |].
    assert (select_map [] m = ∅) as ->; [| by rewrite map_empty_union].
    apply map_eq. intros k. by rewrite select_map_lookup, lookup_empty.
  - intros [[Hk1 Hk2] Hks]%Forall_cons. simpl. pass_assert_with ltac:(apply Z.leb_le, Hk1).
    rewrite (alist_get_spec src m atom Hs Hk1). simpl.
    destruct (m !! atom) as [v |] eqn:Hv.
    + destruct (alist_set_spec dst d atom (Some v) Hd Hk2) as (dst' & -> & Hd' & Hk'). simpl.
      destruct (IH dst' _ Hd') as (a & -> & Ha).
      { eapply Forall_impl; [exact Hks |]. intros k [? ?]. split; [done | by apply Hk']. }
      exists a. split; [done |]. simpl in Ha.
      assert (select_map (atom :: atoms) m ∪ d = select_map atoms m ∪ <[atom := v]> d) as ->; [| done].
      apply map_eq. intros k. rewrite !lookup_union, !select_map_lookup.
      destruct (decide (k = atom)) as [-> | Hne].
      * rewrite lookup_insert_eq, Hv, decide_True by set_solver.
        case_decide; by destruct (d !! atom).
      * rewrite lookup_insert_ne by done.
        by rewrite (decide_ext (k ∈ atom :: atoms) (k ∈ atoms)) by set_solver.
    + simpl. destruct (IH dst d Hd) as (a & -> & Ha); [done |]. exists a. split; [done |].
      assert (select_map (atom :: atoms) m = select_map atoms m) as ->; [| done].
      apply map_eq. intros k. rewrite !select_map_lookup. destruct (decide (k = atom)) as [-> | Hne].
      * rewrite Hv. by repeat case_decide.
      * by rewrite (decide_ext (k ∈ atom :: atoms) (k ∈ atoms)) by set_solver.
Qed.

End refinement.

(** One operation of a client of a table. *)
Inductive alist_op {A} : Type :=
  | op_get (atom : Z)
  | op_set (atom : Z) (value : option A).
Arguments alist_op : clear implicits.

Section runs.
Context `{AtomTable} {A : Type}.

(** What the client observes. *)
Fixpoint run_alist (ops : list (alist_op A)) (a : alist A) : result (list (option A)) :=
  match ops with
  | [] => Ok []
  | op_get atom :: ops =>
      v ← ALIST_GET a atom; vs ← run_alist ops a; Ok (v :: vs)
  | op_set atom value :: ops => a ← ALIST_SET a atom value; run_alist ops a
  end.

Fixpoint run_map (ops : list (alist_op A)) (m : gmap Z A) : list (option A) :=
  match ops with
  | [] => []
  | op_get atom :: ops => m !! atom :: run_map ops m
  | op_set atom value :: ops => run_map ops (update_map m atom value)
  end.

Definition op_key (o : alist_op A) : Z :=
  match o with op_get atom => atom | op_set atom _ => atom end.

Lemma run_alist_spec ops a m :
  alist_map a m → Forall (λ o, key_ok a (op_key o)) ops → run_alist ops a = Ok (run_map ops m).
Proof.
  revert a m. induction ops as [| [atom | atom value] ops IH]; intros a m Ha; simpl; [done | |];
    intros [Hk Hks]%Forall_cons; simpl in Hk.
  - rewrite (alist_get_spec a m atom Ha Hk). simpl. by rewrite (IH a m).
  - destruct (alist_set_spec a m atom value Ha Hk) as (a' & -> & Ha' & Hk'). simpl.
    apply IH; [done |]. eapply Forall_impl; [exact Hks |]. intros o. apply Hk'.
Qed.

(** C37: the two representations of association lists are interchangeable and
    implement finite maps: from the same initial entries, any sequence of
    lookups, insertions and removals (insertions of null) of atoms observes
    the same values in the array and in the chain, those of the finite map;
    and [alist_select_l] keeps exactly the selected entries. *)
Theorem alists_refine_map (init : list (Z * option A)) ops atoms :
  Forall (λ k, 0 <= k < NUMBER_OF_ATOMS) (init.*1 ++ (op_key <$> ops) ++ atoms) →
  let m := foldl (λ m e, update_map m e.1 e.2) (∅ : gmap Z A) init in
  ∃ linear linked selected, make_linear_alist init = Ok linear ∧ make_linked_alist init = Ok linked
    ∧ run_alist ops linear = Ok (run_map ops m) ∧ run_alist ops linked = Ok (run_map ops m)
    ∧ alist_select_l linked atoms = Ok selected
    ∧ alist_map selected (select_map atoms m).
Proof.
  intros [Hi [Ho Hs]%Forall_app]%Forall_app m.
  destruct (make_linear_alist_spec init Hi) as (linear & Hl & Hlm & Hlk).
  destruct (make_linked_alist_spec init) as (linked & Hk & Hkm & Hkk); [eapply Forall_impl; [exact Hi | simpl; lia] |].
  destruct (select_loop_spec atoms linked (alist_linear (replicate (Z.to_nat NUMBER_OF_ATOMS) None)) m ∅)
    as (selected & Hsel & Hselm); [done | apply empty_linear_map | |].
  { eapply Forall_impl; [exact Hs |]. intros k [Hk1 Hk2]. split; [by apply Hkk | by split]. }
  exists linear, linked, selected. rewrite map_union_empty in Hselm.
  rewrite (Forall_fmap _ _) in Ho. split_and!; [done | done | | | done | done];
    apply run_alist_spec; try done; (eapply Forall_impl; [exact Ho |]); intros o Hor; simpl in Hor;
    [apply Hlk | apply Hkk]; lia.
Qed.

End runs.

Lemma alists_refine_map_witness :
  let init := [(3, Some 30); (5, Some 50); (3, Some 31)] in
  let ops := [op_get 3; op_set 3 None; op_get 3; op_get 5; op_get 7] in
  ∃ linear linked selected, make_linear_alist init = Ok linear ∧ make_linked_alist init = Ok linked
    ∧ run_alist ops linear = Ok [Some 31; None; Some 50; None]
    ∧ run_alist ops linked = Ok [Some 31; None; Some 50; None]
    ∧ alist_select_l linked [5; 7] = Ok selected ∧ ALIST_GET selected 5 = Ok (Some 50).
Proof.
  intros init ops.
  destruct (alists_refine_map init ops [5; 7]) as (linear & linked & selected & H1 & H2 & H3 & H4 & H5 & _).
  { repeat (apply Forall_cons; split; [vm_compute; split; discriminate || reflexivity |]). constructor. }
  exists linear, linked, selected. split_and!; [done | done | exact H3 | exact H4 | done |].
  vm_compute in H2. injection H2 as <-. vm_compute in H5. injection H5 as <-. reflexivity.
Defined.
