(* ===== verification/Queue.v ===== *)
(** * Queues ([src/src/queue.c], [src/src/queue.h])

    Doubly linked lists in the layout of AmigaOS: the header of a queue is two
    nodes that share a word, which is always null.  Memory is a map from word
    addresses to words, so that this sharing is visible. *)

From S2P Require Import Prelude.
Local Open Scope Z_scope.

Abbreviation memory := (gmap Z Z).

(** A word that is not allocated can be neither read nor written. *)
Definition load (m : memory) (a : Z) : result Z :=
  match m !! a with Some v => Ok v | None => Fault OutOfBounds end.
Definition store (m : memory) (a v : Z) : result memory := _ ← load m a; Ok (<[a := v]> m).

(** Offsets: [np_links] of a node; [ht_links] and [length] of a queue; the object
    of an [object_queue_node]. *)
Definition LSH_QUEUE_NEXT := 0.
Definition LSH_QUEUE_PREV := 1.
Definition LSH_QUEUE_HEAD := 0.
Definition LSH_QUEUE_TAIL := 1.
Definition LSH_QUEUE_TAILPREV := 2.
Definition QUEUE_LENGTH := 3.
Definition NODE_OBJECT := 2.

Definition lsh_queue_init (m : memory) (q : Z) : result memory :=
  m ← store m (q + LSH_QUEUE_HEAD) (q + LSH_QUEUE_TAIL);
  m ← store m (q + LSH_QUEUE_TAIL) 0;
  m ← store m (q + LSH_QUEUE_TAILPREV) (q + LSH_QUEUE_HEAD);
  store m (q + QUEUE_LENGTH) 0.

Definition EMPTYP (m : memory) (q : Z) : result bool := l ← load m (q + QUEUE_LENGTH); Ok (l =? 0).

Definition lsh_queue_is_empty := EMPTYP.

Definition EMPTYP_1 (m : memory) (q : Z) : result bool := t ← load m (q + LSH_QUEUE_TAILPREV); Ok (t =? q + LSH_QUEUE_HEAD).

(** The loop of [sanity_check_queue]: the node it ends at, and the count. *)
Fixpoint sanity_loop (fuel : nat) (m : memory) (n count : Z) : result (Z * Z) :=
  next ← load m (n + LSH_QUEUE_NEXT);
  if next =? 0 then Ok (n, count)
  else
    prev ← load m (n + LSH_QUEUE_PREV);
    prev_next ← load m (prev + LSH_QUEUE_NEXT);
    if negb (prev_next =? n) then c_fatal
    else match fuel with
    | O => Fault NonTermination
    | S fuel => sanity_loop fuel m next (u32 (count + 1))
    end.

(** With [DEBUG_ALLOC], every operation checks the queue before and after; a
    round for each node. *)
Definition sanity_check_queue (m : memory) (q : Z) : result () :=
  empty ← EMPTYP m q;
  empty_1 ← EMPTYP_1 m q;
  if negb (Bool.eqb empty empty_1) then c_fatal else
  tail ← load m (q + LSH_QUEUE_TAIL);
  if negb (tail =? 0) then c_fatal else
  n ← load m (q + LSH_QUEUE_HEAD);
  prev ← load m (n + LSH_QUEUE_PREV);
  if negb (prev =? q + LSH_QUEUE_HEAD) then c_fatal else
  length ← load m (q + QUEUE_LENGTH);
  '(n, count) ← sanity_loop (Z.to_nat length) m n 0;
  if negb (n =? q + LSH_QUEUE_TAIL) then c_fatal else
  if negb (count =? length) then c_fatal else
  Ok ().

(** [n->prev->next = n; n->next->prev = n] *)
Definition link_node (m : memory) (n : Z) : result memory :=
  prev ← load m (n + LSH_QUEUE_PREV);
  m ← store m (prev + LSH_QUEUE_NEXT) n;
  next ← load m (n + LSH_QUEUE_NEXT);
  store m (next + LSH_QUEUE_PREV) n.

Definition add_length (m : memory) (q d : Z) : result memory :=
  l ← load m (q + QUEUE_LENGTH);
  store m (q + QUEUE_LENGTH) (u32 (l + d)).

Definition lsh_queue_add_head (m : memory) (q n : Z) : result memory :=
  head ← load m (q + LSH_QUEUE_HEAD);
  m ← store m (n + LSH_QUEUE_NEXT) head;
  m ← store m (n + LSH_QUEUE_PREV) (q + LSH_QUEUE_HEAD);
  m ← link_node m n;
  add_length m q 1.

Definition lsh_queue_add_tail (m : memory) (q n : Z) : result memory :=
  m ← store m (n + LSH_QUEUE_NEXT) (q + LSH_QUEUE_TAIL);
  last ← load m (q + LSH_QUEUE_TAILPREV);
  m ← store m (n + LSH_QUEUE_PREV) last;
  m ← link_node m n;
  add_length m q 1.

Definition lsh_queue_remove (m : memory) (n : Z) : result memory :=
  next ← load m (n + LSH_QUEUE_NEXT);
  _ ← c_assert (negb (next =? 0));
  prev ← load m (n + LSH_QUEUE_PREV);
  _ ← c_assert (negb (prev =? 0));
  m ← store m (next + LSH_QUEUE_PREV) prev;
  next ← load m (n + LSH_QUEUE_NEXT);
  store m (prev + LSH_QUEUE_NEXT) next.

Definition remove_node (m : memory) (q n : Z) : result (memory * Z) :=
  empty ← EMPTYP m q;
  _ ← c_assert (negb empty);
  m ← lsh_queue_remove m n;
  m ← add_length m q (-1);
  Ok (m, n).

Definition lsh_queue_remove_head (m : memory) (q : Z) : result (memory * Z) :=
  n ← load m (q + LSH_QUEUE_HEAD); remove_node m q n.

Definition lsh_queue_remove_tail (m : memory) (q : Z) : result (memory * Z) :=
  n ← load m (q + LSH_QUEUE_TAILPREV); remove_node m q n.

(** Null for an empty queue. *)
Definition lsh_queue_peek_head (m : memory) (q : Z) : result Z :=
  empty ← EMPTYP m q; if empty : bool then Ok 0 else load m (q + LSH_QUEUE_HEAD).

Definition lsh_queue_peek_tail (m : memory) (q : Z) : result Z :=
  empty ← EMPTYP m q; if empty : bool then Ok 0 else load m (q + LSH_QUEUE_TAILPREV).

(** ** Queues of objects *)

(** A node at the address [n] that [malloc] gives; its links have no value yet,
    here [junk]. *)
Definition make_object_queue_node (junk : Z) (m : memory) (n o : Z) : memory :=
  <[n + LSH_QUEUE_NEXT := junk]> (<[n + LSH_QUEUE_PREV := junk]> (<[n + NODE_OBJECT := o]> m)).

Definition free_node (m : memory) (n : Z) : memory :=
  delete (n + LSH_QUEUE_NEXT) (delete (n + LSH_QUEUE_PREV) (delete (n + NODE_OBJECT) m)).

Definition object_queue_add_head (junk : Z) (m : memory) (q n o : Z) : result memory :=
  lsh_queue_add_head (make_object_queue_node junk m n o) q n.

Definition object_queue_add_tail (junk : Z) (m : memory) (q n o : Z) : result memory :=
  lsh_queue_add_tail (make_object_queue_node junk m n o) q n.

Definition object_queue_get_contents (m : memory) (n : Z) : result (memory * Z) :=
  o ← load m (n + NODE_OBJECT); Ok (free_node m n, o).

Definition object_queue_peek (m : memory) (n : Z) : result Z := load m (n + NODE_OBJECT).

Definition object_queue_remove_head (m : memory) (q : Z) : result (memory * Z) :=
  '(m, n) ← lsh_queue_remove_head m q; object_queue_get_contents m n.

Definition object_queue_remove_tail (m : memory) (q : Z) : result (memory * Z) :=
  '(m, n) ← lsh_queue_remove_tail m q; object_queue_get_contents m n.

Definition object_queue_peek_head (m : memory) (q : Z) : result Z :=
  empty ← EMPTYP m q; if empty : bool then Ok 0 else n ← load m (q + LSH_QUEUE_HEAD); object_queue_peek m n.

Definition object_queue_peek_tail (m : memory) (q : Z) : result Z :=
  empty ← EMPTYP m q; if empty : bool then Ok 0 else n ← load m (q + LSH_QUEUE_TAILPREV); object_queue_peek m n.

(** [FOR_OBJECT_QUEUE]: the objects up to a null one. *)
Fixpoint queue_objects (fuel : nat) (m : memory) (this : Z) : result (list Z) :=
  next ← load m (this + LSH_QUEUE_NEXT);
  if next =? 0 then Ok []
  else
    o ← object_queue_peek m this;
    if o =? 0 then Ok []
    else match fuel with
    | O => Fault NonTermination
    | S fuel => l ← queue_objects fuel m next; Ok (o :: l)
    end.

(** A round for each node. *)
Definition queue_to_list (m : memory) (q : Z) : result (list Z) :=
  length ← load m (q + QUEUE_LENGTH);
  this ← load m (q + LSH_QUEUE_HEAD);
  l ← queue_objects (Z.to_nat length) m this;
  _ ← c_assert (lenZ l =? length);
  Ok l.

(** [FOR_QUEUE]: the pointer to the next node is read before the node is freed. *)
Fixpoint free_nodes (fuel : nat) (m : memory) (this : Z) : result memory :=
  next ← load m (this + LSH_QUEUE_NEXT);
  if next =? 0 then Ok m
  else match fuel with
  | O => Fault NonTermination
  | S fuel => free_nodes fuel (free_node m this) next
  end.

Definition object_queue_kill (m : memory) (q : Z) : result memory :=
  length ← load m (q + QUEUE_LENGTH);
  this ← load m (q + LSH_QUEUE_HEAD);
  free_nodes (Z.to_nat length) m this.

Definition queue_to_list_and_kill (m : memory) (q : Z) : result (memory * list Z) :=
  l ← queue_to_list m q;
  m ← object_queue_kill m q;
  Ok (m, l).
