(* ===== verification/QueueSpec.v ===== *)
(** * Queues are lists

    The linked structure implements a double-ended list of objects: every
    operation does what the list operation does, and touches no other memory. *)

From S2P Require Import Prelude Queue.
Local Open Scope Z_scope.

(** ** Linked nodes *)

(** From [a] over these nodes to [b], by both pointers. *)
Fixpoint links (m : memory) (a : Z) (l : list Z) (b : Z) : Prop :=
  match l with
  | [] => m !! a = Some b ∧ m !! (b + 1) = Some a
  | n :: l => m !! a = Some n ∧ m !! (n + 1) = Some a ∧ links m n l b
  end.

Definition first_of (l : list Z) (b : Z) : Z := match l with [] => b | n :: _ => n end.

Fixpoint last_of (a : Z) (l : list Z) : Z := match l with [] => a | n :: l => last_of n l end.

Lemma links_app m a l1 n l2 b : links m a (l1 ++ n :: l2) b ↔ links m a l1 n ∧ links m n l2 b.
Proof. revert a. induction l1 as [| x l1 IH]; intros a; simpl; [tauto |]. rewrite IH. tauto. Qed.

Lemma links_first m a l b : links m a l b → m !! a = Some (first_of l b) ∧ m !! (first_of l b + 1) = Some a.
Proof. destruct l; simpl; tauto. Qed.

Lemma links_last m a l b : links m a l b → m !! last_of a l = Some b ∧ m !! (b + 1) = Some (last_of a l).
Proof. revert a. induction l as [| n l IH]; intros a; simpl; [done |]. intros (_ & _ & Hl). by apply IH. Qed.

Lemma last_of_in a l : last_of a l ∈ a :: l.
Proof. revert a. induction l as [| n l IH]; intros a; simpl; [left |]. right. apply IH. Qed.

Lemma last_of_snoc a l n : last_of a (l ++ [n]) = n.
Proof. revert a. induction l as [| x l IH]; intros a; simpl; [done | apply IH]. Qed.

(** The words that are used. *)
Definition words (a : Z) (l : list Z) (x : Z) : Prop := x = a ∨ ∃ n, n ∈ l ∧ (x = n ∨ x = n + 1).

Lemma links_frame m m' a l b :
  (∀ x, words a l x ∨ x = b + 1 → m' !! x = m !! x) → links m a l b → links m' a l b.
Proof.
  revert a. induction l as [| n l IH]; intros a He; simpl.
  - intros [H1 H2]. rewrite !He; [done | by right | left; by left].
  - intros (H1 & H2 & Hl). split; [rewrite He; [done | left; by left] |]. split.
    + rewrite He; [done |]. left. right. exists n. split; [left | by right].
    + apply IH; [| done]. intros x [[-> | (k & Hk & Hx)] | ->]; apply He; [left; right; exists n; split; [left | by left] | left; right; exists k; split; [by right | done] | by right].
Qed.

(** Another end. *)
Lemma links_end m m' a l b b' :
  (∀ x, words a l x → x ≠ last_of a l → m' !! x = m !! x) → NoDup (a :: l) → (∀ n, n ∈ l → n + 1 ∉ l) →
  m' !! last_of a l = Some b' → m' !! (b' + 1) = Some (last_of a l) → links m a l b → links m' a l b'.
Proof.
  revert a. induction l as [| n l IH]; intros a He Hnd Hgap H1 H2; simpl in *; [done |]. intros (Hl1 & Hl2 & Hl).
  apply NoDup_cons in Hnd as [Ha Hnd]. pose proof (last_of_in n l) as Hin. split; [| split].
  - rewrite He; [done | by left |]. intros Heq. apply Ha. by rewrite Heq.
  - rewrite He; [done | right; exists n; split; [left | by right] |]. intros Heq. apply (Hgap n); [left |]. by rewrite Heq.
  - apply IH; try done.
    + intros x Hx Hne. apply He; [| done]. destruct Hx as [-> | (k & Hk & Hx)]; right; [exists n; split; [left | by left] | exists k; split; [by right | done]].
    + intros k Hk Hk1. apply (Hgap k); by right.
Qed.

(** ** Queues *)

(** Nodes of three words that overlap neither each other nor the queue. *)
Record spread (q : Z) (l : list Z) : Prop := {
  sp_queue : 0 < q;
  sp_nodup : NoDup l;
  sp_apart n : n ∈ l → 0 < n ∧ (n + 2 < q ∨ q + 3 < n);
  sp_nodes n k : n ∈ l → k ∈ l → n ≠ k → n + 2 < k ∨ k + 2 < n;
}.

(** The queue links these objects, in these nodes. *)
Record linked (m : memory) (q : Z) (l : list (Z * Z)) : Prop := {
  qa_links : links m q l.*1 (q + 1);
  qa_tail : m !! (q + 1) = Some 0;
  qa_objects n o : (n, o) ∈ l → m !! (n + 2) = Some o;
  qa_spread : spread q l.*1;
}.

(** The queue holds these objects. *)
Record queue_at (m : memory) (q : Z) (l : list (Z * Z)) : Prop := {
  qa_linked : linked m q l;
  qa_length : m !! (q + 3) = Some (lenZ l);
  qa_small : lenZ l < 2 ^ 32;
}.

Lemma spread_gap q l n k : spread q l → n ∈ l → k ∈ l → n + 1 ≠ k.
Proof. intros Hs Hn Hk Heq. destruct (sp_nodes _ _ Hs n k Hn Hk); lia. Qed.

Lemma spread_nodup q l : spread q l → NoDup (q :: l).
Proof. intros Hs. constructor; [| apply Hs]. intros Hq. destruct (sp_apart _ _ Hs q Hq); lia. Qed.

Lemma spread_sub q l l' : l' `sublist_of` l → spread q l → spread q l'.
Proof.
  intros Hsub Hs. pose proof (sublist_NoDup _ _ (sp_nodup _ _ Hs) Hsub) as Hnd.
  assert (∀ n, n ∈ l' → n ∈ l) as Hin by (intros n Hn; by eapply elem_of_sublist).
  split; [apply Hs | done | intros n Hn; by apply (sp_apart _ _ Hs), Hin | intros n k Hn Hk; apply (sp_nodes _ _ Hs); by apply Hin].
Qed.

(** Where pointers point to. *)
Lemma first_of_cases q l : (first_of l (q + 1) = q + 1 ∧ l = []) ∨ first_of l (q + 1) ∈ l.
Proof. destruct l; [by left | right; left]. Qed.

Lemma last_of_cases q l : last_of q l = q ∨ last_of q l ∈ l.
Proof. pose proof (last_of_in q l) as Hin. apply elem_of_cons in Hin as [? | ?]; [by left | by right]. Qed.

(** *** Taking a node out *)

Lemma links_remove m m' q l1 n l2 :
  spread q (l1 ++ n :: l2) → links m q (l1 ++ n :: l2) (q + 1) →
  m' = <[last_of q l1 := first_of l2 (q + 1)]> (<[first_of l2 (q + 1) + 1 := last_of q l1]> m) →
  links m' q (l1 ++ l2) (q + 1).
Proof.
  intros Hs Hl ->. apply links_app in Hl as [Hl1 Hl2]. set (p := last_of q l1). set (y := first_of l2 (q + 1)).
  assert (∀ k, k ∈ l1 → k ∈ l1 ++ n :: l2) as Hin1 by (intros; apply elem_of_app; by left).
  assert (∀ k, k ∈ l2 → k ∈ l1 ++ n :: l2) as Hin2 by (intros; apply elem_of_app; right; by right).
  assert (NoDup (l1 ++ n :: l2)) as Hnd by apply Hs. apply NoDup_app in Hnd as (Hnd1 & Hdisj & Hnd2).
  assert (∀ a b, a ∈ l1 → b ∈ l2 → a ≠ b) as Hne by (intros a b Ha Hb ->; apply (Hdisj b Ha); by right).
  assert (∀ a b, a ∈ l1 → b ∈ l2 → a + 2 < b ∨ b + 2 < a) as Hfar by (intros a b Ha Hb; apply (sp_nodes _ _ Hs); auto).
  assert (p + 1 ≠ y + 1 ∧ p ≠ y + 1) as [Hpy1 Hpy2].
  { destruct (last_of_cases q l1) as [Hp | Hp]; destruct (first_of_cases q l2) as [[Hy _] | Hy]; fold p y in Hp, Hy.
    - lia.
    - destruct (sp_apart _ _ Hs y (Hin2 _ Hy)). lia.
    - destruct (sp_apart _ _ Hs p (Hin1 _ Hp)). lia.
    - destruct (Hfar p y Hp Hy); lia. }
  assert (links (<[p := y]> (<[y + 1 := p]> m)) q l1 y) as Hleft.
  { eapply (links_end m _ q l1 n y); [| | | | | exact Hl1].
    - intros x Hx Hxp. fold p in Hxp. rewrite lookup_insert_ne by done. rewrite lookup_insert_ne; [done |]. intros <-.
      destruct (first_of_cases q l2) as [[Hy _] | Hy]; fold y in Hy; destruct Hx as [Hx | (k & Hk & Hx)].
      + lia.
      + destruct (sp_apart _ _ Hs k (Hin1 _ Hk)). lia.
      + destruct (sp_apart _ _ Hs y (Hin2 _ Hy)). lia.
      + destruct (Hfar k y Hk Hy); lia.
    - eapply spread_nodup, (spread_sub _ _ l1), Hs. by apply sublist_inserts_r.
    - intros k Hk Hk1. by apply (spread_gap _ _ _ _ Hs (Hin1 _ Hk) (Hin1 _ Hk1)).
    - apply lookup_insert_eq.
    - rewrite lookup_insert_ne by done. apply lookup_insert_eq. }
  unfold y in Hleft at 2. destruct l2 as [| y' l2]; [by rewrite app_nil_r |]. cbn [first_of] in *. apply links_app. split; [done |].
  destruct Hl2 as (_ & _ & Hl2). eapply links_frame; [| exact Hl2]. intros x Hx.
  assert (y = y') as Hyy by done. assert (y' ∈ y' :: l2) as Hy' by left.
  destruct Hx as [[-> | (k & Hk & Hx)] | ->].
  - rewrite !lookup_insert_ne; [done | lia |]. destruct (last_of_cases q l1) as [Hp | Hp]; fold p in Hp.
    + destruct (sp_apart _ _ Hs y' (Hin2 _ Hy')). lia.
    + destruct (Hfar p y' Hp Hy'); lia.
  - assert (k ∈ y' :: l2) as Hk' by by right. apply NoDup_cons in Hnd2 as [_ Hnd2]. apply NoDup_cons in Hnd2 as [Hyn _].
    assert (k ≠ y') as Hky by by intros ->. destruct (sp_nodes _ _ Hs k y' (Hin2 _ Hk') (Hin2 _ Hy') Hky); rewrite !lookup_insert_ne; try done; try lia;
      (destruct (last_of_cases q l1) as [Hp | Hp]; fold p in Hp; [destruct (sp_apart _ _ Hs k (Hin2 _ Hk')); lia | destruct (Hfar p k Hp Hk'); lia]).
  - destruct (sp_apart _ _ Hs y' (Hin2 _ Hy')). rewrite !lookup_insert_ne; [done | lia |].
    destruct (last_of_cases q l1) as [Hp | Hp]; fold p in Hp; [lia |]. destruct (sp_apart _ _ Hs p (Hin1 _ Hp)). lia.
Qed.

(** *** Putting a node in *)

Lemma links_insert m m' q l1 n l2 :
  spread q (l1 ++ n :: l2) → links m q (l1 ++ l2) (q + 1) →
  m' !! last_of q l1 = Some n → m' !! (first_of l2 (q + 1) + 1) = Some n →
  m' !! n = Some (first_of l2 (q + 1)) → m' !! (n + 1) = Some (last_of q l1) →
  (∀ x, x ≠ last_of q l1 → x ≠ first_of l2 (q + 1) + 1 → x ≠ n → x ≠ n + 1 → m' !! x = m !! x) →
  links m' q (l1 ++ n :: l2) (q + 1).
Proof.
  intros Hs Hl Hp Hy Hn1 Hn2 He.
  assert (n ∈ l1 ++ n :: l2) as Hin by (apply elem_of_app; right; left).
  assert (∀ k, k ∈ l1 → k ∈ l1 ++ n :: l2) as Hin1 by (intros; apply elem_of_app; by left).
  assert (∀ k, k ∈ l2 → k ∈ l1 ++ n :: l2) as Hin2 by (intros; apply elem_of_app; right; by right).
  assert (NoDup (l1 ++ n :: l2)) as Hnd by apply Hs. apply NoDup_app in Hnd as (Hnd1 & Hdisj & Hnd2).
  apply NoDup_cons in Hnd2 as [Hn2' Hnd2].
  assert (∀ k, k ∈ l1 → k + 2 < n ∨ n + 2 < k) as Hfar1 by (intros k Hk; apply (sp_nodes _ _ Hs); auto; intros ->; apply (Hdisj n Hk); left).
  assert (∀ k, k ∈ l2 → k + 2 < n ∨ n + 2 < k) as Hfar2 by (intros k Hk; apply (sp_nodes _ _ Hs); auto; by intros ->).
  assert (∀ a b, a ∈ l1 → b ∈ l2 → a + 2 < b ∨ b + 2 < a) as Hfar.
  { intros a b Ha Hb. apply (sp_nodes _ _ Hs); auto. intros ->. apply (Hdisj b Ha). by right. }
  pose proof (sp_apart _ _ Hs n Hin) as Hnq.
  assert (links m q l1 (first_of l2 (q + 1))) as Hl1.
  { destruct l2 as [| y l2]; [by rewrite app_nil_r in Hl |]. by apply links_app in Hl as [Hl _]. }
  apply links_app. split.
  - eapply (links_end m m' q l1 _ n); [| | | done | done | exact Hl1].
    + intros x Hx Hxp. apply He; [done | | |];
        (destruct (first_of_cases q l2) as [[Hfe _] | Hfy]; destruct Hx as [-> | (k & Hk & Hx)];
         [| destruct (sp_apart _ _ Hs k (Hin1 _ Hk)); destruct (Hfar1 k Hk) | destruct (sp_apart _ _ Hs _ (Hin2 _ Hfy)) | destruct (Hfar k _ Hk Hfy); destruct (Hfar1 k Hk)]; lia).
    + eapply spread_nodup, (spread_sub _ _ l1), Hs. by apply sublist_inserts_r.
    + intros k Hk Hk1. by apply (spread_gap _ _ _ _ Hs (Hin1 _ Hk) (Hin1 _ Hk1)).
  - destruct l2 as [| y l2]; [done |]. cbn [first_of] in *. split; [done | split; [done |]].
    apply links_app in Hl as [_ Hl2]. assert (y ∈ y :: l2) as Hy' by left. apply NoDup_cons in Hnd2 as [Hyn _].
    eapply links_frame; [| exact Hl2]. intros x Hx. pose proof (sp_apart _ _ Hs y (Hin2 _ Hy')). pose proof (Hfar2 y Hy').
    assert (∀ k, k ∈ l2 → k + 2 < y ∨ y + 2 < k) as Hfary.
    { intros k Hk. apply (sp_nodes _ _ Hs); [apply Hin2; by right | by apply Hin2 | by intros ->]. }
    destruct Hx as [[-> | (k & Hk & Hx)] | ->]; apply He; try lia.
    + destruct (last_of_cases q l1) as [Hpe | Hp']; [lia |]. destruct (Hfar _ _ Hp' Hy'); lia.
    + assert (k ∈ y :: l2) as Hk' by by right. destruct (last_of_cases q l1) as [Hpe | Hp'];
        [destruct (sp_apart _ _ Hs k (Hin2 _ Hk')); lia | destruct (Hfar _ _ Hp' Hk'); lia].
    + destruct (Hfary k Hk); lia.
    + assert (k ∈ y :: l2) as Hk' by by right. destruct (Hfar2 k Hk'); lia.
    + assert (k ∈ y :: l2) as Hk' by by right. destruct (Hfar2 k Hk'); lia.
    + destruct (last_of_cases q l1) as [Hpe | Hp']; [lia |]. destruct (sp_apart _ _ Hs _ (Hin1 _ Hp')); lia.
Qed.

(** ** The memory of a queue *)

(** The words of these nodes, and of the queue. *)
Definition node_words (l : list Z) (x : Z) : Prop := ∃ n, n ∈ l ∧ n <= x <= n + 2.
Definition queue_words (q : Z) (x : Z) : Prop := q <= x <= q + 3.

Lemma node_words_app l1 l2 x : node_words (l1 ++ l2) x ↔ node_words l1 x ∨ node_words l2 x.
Proof.
  split.
  - intros (n & Hn & Hx). apply elem_of_app in Hn as [Hn | Hn]; [left | right]; by exists n.
  - intros [(n & Hn & Hx) | (n & Hn & Hx)]; exists n; (split; [apply elem_of_app; tauto | done]).
Qed.

Lemma node_words_cons n l x : node_words (n :: l) x ↔ n <= x <= n + 2 ∨ node_words l x.
Proof.
  rewrite (node_words_app [n] l). split; (intros [Hx | Hx]; [left | by right]).
  - destruct Hx as (k & Hk & Hx). apply list_elem_of_singleton in Hk as ->. done.
  - exists n. split; [left | done].
Qed.

Lemma linked_frame m m' q l :
  (∀ x, x ≠ q + 3 → queue_words q x ∨ node_words l.*1 x → m' !! x = m !! x) → linked m q l → linked m' q l.
Proof.
  intros He Hq. assert (∀ n, n ∈ l.*1 → n ≠ q + 3 ∧ n + 1 ≠ q + 3 ∧ n + 2 ≠ q + 3) as Hq3.
  { intros n Hn. destruct (sp_apart _ _ (qa_spread _ _ _ Hq) n Hn). lia. }
  split; [| | | apply Hq].
  - eapply links_frame; [| apply Hq]. intros x [[-> | (n & Hn & Hx)] | ->].
    + apply He; [lia | left; unfold queue_words; lia].
    + destruct (Hq3 n Hn). apply He; [lia |]. right. exists n. split; [done | lia].
    + apply He; [lia | left; unfold queue_words; lia].
  - rewrite He; [apply Hq | lia | left; unfold queue_words; lia].
  - intros n o Hn. assert (n ∈ l.*1) as Hn' by (apply list_elem_of_fmap; by exists (n, o)). destruct (Hq3 n Hn').
    rewrite He; [by apply (qa_objects _ _ _ Hq) | lia |]. right. exists n. split; [done | lia].
Qed.

(** The pointers to and from a node, and the words that hold them. *)
Lemma link_words q l1 n l2 k p y :
  p = last_of q l1 → y = first_of l2 (q + 1) → spread q (l1 ++ n :: l2) → k ∈ l1 ++ n :: l2 →
  (0 < p ∧ 0 < y ∧ p ≠ n ∧ y ≠ n ∧ p ≠ y + 1) ∧ (p ≠ k + 1 ∧ p ≠ k + 2 ∧ y + 1 ≠ k ∧ y + 1 ≠ k + 2) ∧
  (p ≠ q + 1 ∧ p ≠ q + 2 ∧ p ≠ q + 3) ∧ (y + 1 ≠ q ∧ y + 1 ≠ q + 1 ∧ y + 1 ≠ q + 3).
Proof.
  intros Ep Ey Hs Hk. pose proof (sp_queue _ _ Hs). pose proof (sp_apart _ _ Hs k Hk).
  assert (n ∈ l1 ++ n :: l2) as Hn by (apply elem_of_app; right; left). pose proof (sp_apart _ _ Hs n Hn).
  assert (NoDup (l1 ++ n :: l2)) as Hnd by apply Hs. apply NoDup_app in Hnd as (_ & Hdisj & Hnd2). apply NoDup_cons in Hnd2 as [Hnn _].
  assert (∀ a, a ∈ l1 ++ n :: l2 → a = k ∨ a + 2 < k ∨ k + 2 < a) as Hfar.
  { intros a Ha. destruct (decide (a = k)); [by left | right; by apply (sp_nodes _ _ Hs)]. }
  assert (p = q ∨ (p ∈ l1 ++ n :: l2 ∧ p ≠ n)) as Hp.
  { rewrite Ep. destruct (last_of_cases q l1) as [Hp | Hp]; [by left | right]. split; [apply elem_of_app; by left |]. intros Hpn. rewrite Hpn in Hp. apply (Hdisj n Hp). left. }
  assert (y = q + 1 ∨ (y ∈ l1 ++ n :: l2 ∧ y ≠ n)) as Hy.
  { rewrite Ey. destruct (first_of_cases q l2) as [[Hy _] | Hy]; [by left | right]. split; [apply elem_of_app; right; by right |]. intros Hyn. by rewrite Hyn in Hy. }
  destruct Hp as [Hp | [Hp Hpn]], Hy as [Hy | [Hy Hyn]].
  - lia.
  - destruct (sp_apart _ _ Hs y Hy), (Hfar y Hy); lia.
  - destruct (sp_apart _ _ Hs p Hp), (Hfar p Hp); lia.
  - destruct (sp_apart _ _ Hs y Hy), (Hfar y Hy), (sp_apart _ _ Hs p Hp), (Hfar p Hp); try lia;
      (destruct (decide (p = y)); [lia | destruct (sp_nodes _ _ Hs p y Hp Hy); lia]).
Qed.

(** The words that change are those of the queue and its nodes. *)
Lemma link_frame q l1 n l2 x :
  ¬ queue_words q x → ¬ node_words (l1 ++ n :: l2) x → x ≠ last_of q l1 ∧ x ≠ first_of l2 (q + 1) + 1.
Proof.
  unfold queue_words. intros Hx1 Hx2. assert (∀ k, k ∈ l1 ++ n :: l2 → ¬ (k <= x <= k + 2)) as Hfoot by (intros k Hk Hkx; apply Hx2; by exists k).
  split.
  - destruct (last_of_cases q l1) as [Hp | Hp]; [lia |].
    assert (last_of q l1 ∈ l1 ++ n :: l2) as Hin by (apply elem_of_app; by left). specialize (Hfoot _ Hin). lia.
  - destruct (first_of_cases q l2) as [[Hy _] | Hy]; [lia |].
    assert (first_of l2 (q + 1) ∈ l1 ++ n :: l2) as Hin by (apply elem_of_app; right; by right). specialize (Hfoot _ Hin). lia.
Qed.

(** ** The operations *)

Lemma load_ok m a v : m !! a = Some v → load m a = Ok v.
Proof. intros Ha. unfold load. by rewrite Ha. Qed.

Lemma store_ok m a v : is_Some (m !! a) → store m a v = Ok (<[a := v]> m).
Proof. intros [w Ha]. unfold store. by rewrite (load_ok m a w). Qed.

Lemma load_next m n v : m !! n = Some v → load m (n + LSH_QUEUE_NEXT) = Ok v.
Proof. unfold LSH_QUEUE_NEXT. rewrite Z.add_0_r. apply load_ok. Qed.

Lemma store_next m n v : is_Some (m !! n) → store m (n + LSH_QUEUE_NEXT) v = Ok (<[n := v]> m).
Proof. unfold LSH_QUEUE_NEXT. rewrite Z.add_0_r. apply store_ok. Qed.

(** Taking a node out changes the two words that pointed to it. *)
Lemma lsh_queue_remove_spec m q l1 n o l2 :
  linked m q (l1 ++ (n, o) :: l2) →
  ∃ m', lsh_queue_remove m n = Ok m' ∧ linked m' q (l1 ++ l2) ∧ m' !! (n + 2) = Some o ∧ m' !! (q + 3) = m !! (q + 3) ∧
    (∀ x, ¬ queue_words q x → ¬ node_words (l1 ++ (n, o) :: l2).*1 x → m' !! x = m !! x).
Proof.
  intros Hq. pose proof (qa_spread _ _ _ Hq) as Hs. pose proof (qa_links _ _ _ Hq) as Hl. rewrite fmap_app, fmap_cons in Hs, Hl. simpl in Hs, Hl.
  set (p := last_of q l1.*1). set (y := first_of l2.*1 (q + 1)).
  pose proof Hl as Hl'. apply links_app in Hl' as [Hl1 Hl2]. apply links_last in Hl1 as [Hp1 Hp2]. apply links_first in Hl2 as [Hy1 Hy2].
  fold p in Hp1, Hp2. fold y in Hy1, Hy2.
  assert (n ∈ l1.*1 ++ n :: l2.*1) as Hn by (apply elem_of_app; right; left).
  destruct (link_words q l1.*1 n l2.*1 n p y eq_refl eq_refl Hs Hn) as ((? & ? & ? & ? & ?) & (? & ? & ? & ?) & (? & ? & ?) & (? & ? & ?)).
  exists (<[p := y]> (<[y + 1 := p]> m)). split.
  { unfold lsh_queue_remove, LSH_QUEUE_PREV. rewrite (load_next m n y), bind_ok_l by done. pass_assert.
    rewrite (load_ok m (n + 1) p), bind_ok_l by done. pass_assert.
    rewrite store_ok, bind_ok_l by done. rewrite (load_next _ n y), bind_ok_l by (rewrite lookup_insert_ne; done).
    apply store_next. by rewrite lookup_insert_ne. }
  assert (∀ k o', (k, o') ∈ l1 ++ (n, o) :: l2 → (<[p := y]> (<[y + 1 := p]> m)) !! (k + 2) = Some o') as Hobj.
  { intros k o' Hk. assert (k ∈ l1.*1 ++ n :: l2.*1) as Hk'.
    { apply (list_elem_of_fmap_2 fst) in Hk. by rewrite fmap_app in Hk. }
    destruct (link_words q l1.*1 n l2.*1 k p y eq_refl eq_refl Hs Hk') as (_ & (? & ? & ? & ?) & _).
    rewrite !lookup_insert_ne by done. by apply (qa_objects _ _ _ Hq). }
  split; [split |].
  - rewrite fmap_app. by apply (links_remove m _ q l1.*1 n l2.*1).
  - rewrite !lookup_insert_ne by done. apply Hq.
  - intros k o' Hk. apply Hobj. apply elem_of_app. apply elem_of_app in Hk as [Hk | Hk]; [by left | right; by right].
  - rewrite fmap_app. eapply spread_sub; [| exact Hs]. apply sublist_app; [done | by apply sublist_cons].
  - split; [apply Hobj, elem_of_app; right; left |]. split; [by rewrite !lookup_insert_ne by done |]. intros x Hx1 Hx2.
    rewrite fmap_app in Hx2. destruct (link_frame q l1.*1 n l2.*1 x Hx1 Hx2). by rewrite !lookup_insert_ne by done.
Qed.

(** Pointing to a node from both sides puts it in. *)
Lemma link_node_spec m q l1 n o l2 :
  linked m q (l1 ++ l2) → spread q (l1.*1 ++ n :: l2.*1) →
  m !! n = Some (first_of l2.*1 (q + 1)) → m !! (n + 1) = Some (last_of q l1.*1) → m !! (n + 2) = Some o →
  ∃ m', link_node m n = Ok m' ∧ linked m' q (l1 ++ (n, o) :: l2) ∧ m' !! (q + 3) = m !! (q + 3) ∧
    (∀ x, ¬ queue_words q x → ¬ node_words (l1 ++ (n, o) :: l2).*1 x → m' !! x = m !! x).
Proof.
  intros Hq Hs Hn1 Hn2 Hno. pose proof (qa_links _ _ _ Hq) as Hl. rewrite fmap_app in Hl.
  set (p := last_of q l1.*1) in *. set (y := first_of l2.*1 (q + 1)) in *.
  assert (links m q l1.*1 y) as Hl1.
  { unfold y. destruct l2.*1 as [| y' l2']; [by rewrite app_nil_r in Hl |]. by apply links_app in Hl as [Hl _]. }
  apply links_last in Hl1 as [Hp Hy]. fold p in Hp, Hy.
  assert (n ∈ l1.*1 ++ n :: l2.*1) as Hn by (apply elem_of_app; right; left).
  destruct (link_words q l1.*1 n l2.*1 n p y eq_refl eq_refl Hs Hn) as ((? & ? & ? & ? & ?) & (? & ? & ? & ?) & (? & ? & ?) & (? & ? & ?)).
  exists (<[y + 1 := n]> (<[p := n]> m)). split.
  { unfold link_node, LSH_QUEUE_PREV. rewrite (load_ok m (n + 1) p), bind_ok_l by done. rewrite store_next, bind_ok_l by done.
    rewrite (load_next _ n y), bind_ok_l by (by rewrite lookup_insert_ne). apply store_ok. by rewrite lookup_insert_ne. }
  split; [split |].
  - rewrite fmap_app, fmap_cons. cbn [fst]. apply (links_insert m _ q l1.*1 n l2.*1); try done; fold p y.
    + rewrite lookup_insert_ne by done. apply lookup_insert_eq.
    + apply lookup_insert_eq.
    + by rewrite !lookup_insert_ne by lia.
    + rewrite !lookup_insert_ne; [done | lia | lia].
    + intros x Hx1 Hx2 _ _. by rewrite !lookup_insert_ne by done.
  - rewrite !lookup_insert_ne by done. apply Hq.
  - intros k o' Hk. assert (k ∈ l1.*1 ++ n :: l2.*1) as Hk'.
    { apply (list_elem_of_fmap_2 fst) in Hk. by rewrite fmap_app in Hk. }
    destruct (link_words q l1.*1 n l2.*1 k p y eq_refl eq_refl Hs Hk') as (_ & (? & ? & ? & ?) & _).
    rewrite !lookup_insert_ne by done. apply elem_of_app in Hk as [Hk | Hk]; [| apply elem_of_cons in Hk as [[= -> ->] | Hk]; [done |]];
      apply (qa_objects _ _ _ Hq), elem_of_app; [by left | by right].
  - by rewrite fmap_app, fmap_cons.
  - split; [by rewrite !lookup_insert_ne by done |]. intros x Hx1 Hx2.
    rewrite fmap_app in Hx2. destruct (link_frame q l1.*1 n l2.*1 x Hx1 Hx2). by rewrite !lookup_insert_ne by done.
Qed.

(** ** Allocation *)

(** Three words that are not in use. *)
Definition fresh (m : memory) (n : Z) : Prop := 0 < n ∧ ∀ x, n <= x <= n + 2 → m !! x = None.

Lemma links_alloc m a l b n : links m a l b → n ∈ l → is_Some (m !! n) ∧ is_Some (m !! (n + 1)).
Proof.
  revert a. induction l as [| k l IH]; intros a; simpl; [by intros _ Hn%elem_of_nil |]. intros (_ & Hk & Hl) Hn.
  apply elem_of_cons in Hn as [-> | Hn]; [| by apply (IH k)]. split; [| done]. destruct l; simpl in Hl; [by destruct Hl as [-> _] | by destruct Hl as (-> & _)].
Qed.

(** The words of a queue are allocated. *)
Lemma queue_alloc m q l x : queue_at m q l → queue_words q x ∨ node_words l.*1 x → is_Some (m !! x).
Proof.
  intros [Hq Hlen _] [Hx | (n & Hn & Hx)].
  - destruct (links_first _ _ _ _ (qa_links _ _ _ Hq)) as [Hh _]. destruct (links_last _ _ _ _ (qa_links _ _ _ Hq)) as [_ Ht].
    unfold queue_words in Hx. assert (x = q ∨ x = q + 1 ∨ x = q + 1 + 1 ∨ x = q + 3) as [-> | [-> | [-> | ->]]] by lia; [done | | done | done].
    by rewrite (qa_tail _ _ _ Hq).
  - destruct (links_alloc _ _ _ _ _ (qa_links _ _ _ Hq) Hn). assert (x = n ∨ x = n + 1 ∨ x = n + 2) as [-> | [-> | ->]] by lia; [done | done |].
    apply list_elem_of_fmap in Hn as ([k o] & -> & Hko). exists o. by apply (qa_objects _ _ _ Hq).
Qed.

Lemma fresh_apart m q l n x : queue_at m q l → fresh m n → queue_words q x ∨ node_words l.*1 x → ¬ (n <= x <= n + 2).
Proof. intros Hq [_ Hf] Hx Hnx. destruct (queue_alloc _ _ _ _ Hq Hx) as [v Hv]. rewrite Hf in Hv by done. done. Qed.

Lemma fresh_spread m q l1 l2 n : queue_at m q (l1 ++ l2) → fresh m n → spread q (l1.*1 ++ n :: l2.*1).
Proof.
  intros Hq Hf. pose proof (qa_spread _ _ _ (qa_linked _ _ _ Hq)) as Hs. rewrite fmap_app in Hs.
  assert (∀ k, k ∈ l1.*1 ++ n :: l2.*1 → k = n ∨ k ∈ l1.*1 ++ l2.*1) as Hin.
  { intros k Hk. apply elem_of_app in Hk as [Hk | Hk]; [right; apply elem_of_app; by left |].
    apply elem_of_cons in Hk as [-> | Hk]; [by left | right; apply elem_of_app; by right]. }
  assert (∀ k, k ∈ l1.*1 ++ l2.*1 → n + 2 < k ∨ k + 2 < n) as Hfar.
  { intros k Hk. assert (∀ i, 0 <= i <= 2 → ¬ (n <= k + i <= n + 2)) as Hi.
    { intros i Hi. apply (fresh_apart _ _ _ _ _ Hq Hf). right. rewrite fmap_app. exists k. split; [done | lia]. }
    pose proof (Hi 0). pose proof (Hi 1). pose proof (Hi 2). lia. }
  assert (n + 2 < q ∨ q + 3 < n) as Hnq.
  { assert (∀ i, 0 <= i <= 3 → ¬ (n <= q + i <= n + 2)) as Hi.
    { intros i Hi. apply (fresh_apart _ _ _ _ _ Hq Hf). left. unfold queue_words. lia. }
    pose proof (Hi 0). pose proof (Hi 1). pose proof (Hi 2). pose proof (Hi 3). lia. }
  split; [apply Hs | | |].
  - pose proof (sp_nodup _ _ Hs) as Hnd. rewrite <-Permutation_middle. constructor; [| done].
    intros Hn. destruct (Hfar n Hn); lia.
  - intros k Hk. destruct (Hin k Hk) as [-> | Hk']; [split; [apply Hf | lia] | by apply (sp_apart _ _ Hs)].
  - intros a b Ha Hb Hne. destruct (Hin a Ha) as [-> | Ha'], (Hin b Hb) as [-> | Hb']; [done | by apply Hfar | destruct (Hfar a Ha'); lia | by apply (sp_nodes _ _ Hs)].
Qed.

(** ** Adding and removing objects *)

Lemma add_length_ok m q v d : m !! (q + 3) = Some v → add_length m q d = Ok (<[q + 3 := u32 (v + d)]> m).
Proof. intros Hv. unfold add_length, QUEUE_LENGTH. rewrite (load_ok m _ v), bind_ok_l by done. by apply store_ok. Qed.

Lemma linked_length m q l v : linked m q l → linked (<[q + 3 := v]> m) q l.
Proof. apply linked_frame. intros x Hx _. by rewrite lookup_insert_ne. Qed.

(** Memory that the queue does not use is not touched. *)
Definition untouched (m m' : memory) (q : Z) (l : list Z) : Prop :=
  ∀ x, ¬ queue_words q x → ¬ node_words l x → m' !! x = m !! x.

(** A new node whose links are set, before its neighbours know. *)
Lemma new_node_spec m m1 q l1 n o l2 :
  queue_at m q (l1 ++ l2) → fresh m n → lenZ (l1 ++ l2) + 1 < 2 ^ 32 →
  m1 !! n = Some (first_of l2.*1 (q + 1)) → m1 !! (n + 1) = Some (last_of q l1.*1) → m1 !! (n + 2) = Some o →
  (∀ x, ¬ (n <= x <= n + 2) → m1 !! x = m !! x) →
  returns (m2 ← link_node m1 n; add_length m2 q 1) (λ m', queue_at m' q (l1 ++ (n, o) :: l2) ∧ untouched m m' q (l1 ++ (n, o) :: l2).*1).
Proof.
  intros Hq Hf Hlen H1 H2 H3 He. pose proof (fresh_spread _ _ _ _ _ Hq Hf) as Hs.
  assert (linked m1 q (l1 ++ l2)) as Hq1.
  { eapply linked_frame, (qa_linked _ _ _ Hq). intros x _ Hx. by apply He, (fresh_apart _ _ _ _ _ Hq Hf). }
  destruct (link_node_spec m1 q l1 n o l2 Hq1 Hs H1 H2 H3) as (m2 & -> & Hq2 & Hl2 & Hfr). rewrite bind_ok_l.
  assert (m2 !! (q + 3) = Some (lenZ (l1 ++ l2))) as Hm2.
  { rewrite Hl2, He; [apply Hq |]. apply (fresh_apart _ _ _ _ _ Hq Hf). left. unfold queue_words. lia. }
  rewrite (add_length_ok _ _ _ _ Hm2). apply returns_ok. pose proof (lenZ_nonneg (l1 ++ l2)).
  assert (lenZ (l1 ++ (n, o) :: l2) = lenZ (l1 ++ l2) + 1) as Hlen' by (unfold lenZ; rewrite !length_app; simpl; lia).
  split; [split |].
  - by apply linked_length.
  - rewrite lookup_insert_eq, u32_id; [by rewrite Hlen' | unfold is_u32; lia].
  - lia.
  - intros x Hx1 Hx2. rewrite lookup_insert_ne by (unfold queue_words in Hx1; lia). rewrite Hfr by done. apply He.
    intros Hnx. apply Hx2. rewrite fmap_app. apply node_words_app. right. apply node_words_cons. by left.
Qed.

(** The words of a node that was just made. *)
Lemma make_node_words junk m n o :
  is_Some (make_object_queue_node junk m n o !! n) ∧ is_Some (make_object_queue_node junk m n o !! (n + 1)) ∧
  make_object_queue_node junk m n o !! (n + 2) = Some o ∧
  (∀ x, ¬ (n <= x <= n + 2) → make_object_queue_node junk m n o !! x = m !! x).
Proof.
  unfold make_object_queue_node, LSH_QUEUE_NEXT, LSH_QUEUE_PREV, NODE_OBJECT. rewrite Z.add_0_r. split; [by rewrite lookup_insert_eq |].
  split; [rewrite lookup_insert_ne by lia; by rewrite lookup_insert_eq |]. split; [rewrite !lookup_insert_ne by lia; by rewrite lookup_insert_eq |].
  intros x Hx. by rewrite !lookup_insert_ne by lia.
Qed.

Lemma object_queue_add_head_spec junk m q l n o :
  queue_at m q l → fresh m n → lenZ l + 1 < 2 ^ 32 →
  returns (object_queue_add_head junk m q n o) (λ m', queue_at m' q ((n, o) :: l) ∧ untouched m m' q (n :: l.*1)).
Proof.
  intros Hq Hf Hlen. unfold object_queue_add_head, lsh_queue_add_head. destruct (make_node_words junk m n o) as (Hw0 & Hw1 & Hw2 & He).
  destruct (links_first _ _ _ _ (qa_links _ _ _ (qa_linked _ _ _ Hq))) as [Hh _].
  assert (make_object_queue_node junk m n o !! q = Some (first_of l.*1 (q + 1))) as Hh'.
  { rewrite He; [done |]. apply (fresh_apart _ _ _ _ _ Hq Hf). left. unfold queue_words. lia. }
  unfold LSH_QUEUE_HEAD, LSH_QUEUE_PREV. rewrite Z.add_0_r, (load_ok _ _ _ Hh'), bind_ok_l, store_next, bind_ok_l by done.
  rewrite store_ok, bind_ok_l by (by rewrite lookup_insert_ne by lia).
  apply (new_node_spec m _ q [] n o l); [done | done | done | | | |].
  - by rewrite lookup_insert_ne, lookup_insert_eq by lia.
  - by rewrite lookup_insert_eq.
  - by rewrite !lookup_insert_ne by lia.
  - intros x Hx. rewrite !lookup_insert_ne by lia. by apply He.
Qed.

Lemma object_queue_add_tail_spec junk m q l n o :
  queue_at m q l → fresh m n → lenZ l + 1 < 2 ^ 32 →
  returns (object_queue_add_tail junk m q n o) (λ m', queue_at m' q (l ++ [(n, o)]) ∧ untouched m m' q (l.*1 ++ [n])).
Proof.
  intros Hq Hf Hlen. unfold object_queue_add_tail, lsh_queue_add_tail. destruct (make_node_words junk m n o) as (Hw0 & Hw1 & Hw2 & He).
  destruct (links_last _ _ _ _ (qa_links _ _ _ (qa_linked _ _ _ Hq))) as [_ Ht]. replace (q + 1 + 1) with (q + 2) in Ht by lia.
  assert (¬ (n <= q + 2 <= n + 2)) as Hnq by (apply (fresh_apart _ _ _ _ _ Hq Hf); left; unfold queue_words; lia).
  unfold LSH_QUEUE_TAIL, LSH_QUEUE_TAILPREV, LSH_QUEUE_PREV. rewrite store_next, bind_ok_l by done.
  rewrite (load_ok _ _ (last_of q l.*1)), bind_ok_l by (rewrite lookup_insert_ne by lia; by rewrite He).
  rewrite store_ok, bind_ok_l by (by rewrite lookup_insert_ne by lia).
  pose proof (new_node_spec m (<[n + 1 := last_of q l.*1]> (<[n := q + 1]> (make_object_queue_node junk m n o))) q l n o []) as Hnew.
  rewrite app_nil_r in Hnew. rewrite (fmap_app _ l) in Hnew. apply Hnew; [done | done | done | | | |].
  - by rewrite lookup_insert_ne, lookup_insert_eq by lia.
  - by rewrite lookup_insert_eq.
  - by rewrite !lookup_insert_ne by lia.
  - intros x Hx. rewrite !lookup_insert_ne by lia. by apply He.
Qed.

Lemma free_node_words m n x : free_node m n !! x = if bool_decide (n <= x <= n + 2) then None else m !! x.
Proof.
  unfold free_node, LSH_QUEUE_NEXT, LSH_QUEUE_PREV, NODE_OBJECT. rewrite Z.add_0_r. case_bool_decide as Hx.
  - assert (x = n ∨ x = n + 1 ∨ x = n + 2) as [-> | [-> | ->]] by lia.
    + apply lookup_delete_eq.
    + rewrite lookup_delete_ne by lia. apply lookup_delete_eq.
    + rewrite !lookup_delete_ne by lia. apply lookup_delete_eq.
  - by rewrite !lookup_delete_ne by lia.
Qed.

(** A node that is not the queue's can be freed. *)
Lemma linked_free m q l1 n l2 : spread q (l1.*1 ++ n :: l2.*1) → linked m q (l1 ++ l2) → linked (free_node m n) q (l1 ++ l2).
Proof.
  intros Hs. apply linked_frame. intros x _ Hx. rewrite free_node_words, bool_decide_eq_false_2; [done |].
  assert (n ∈ l1.*1 ++ n :: l2.*1) as Hn by (apply elem_of_app; right; left). destruct (sp_apart _ _ Hs n Hn) as [_ Hnq].
  destruct Hx as [Hx | (k & Hk & Hx)]; [unfold queue_words in Hx; lia |]. rewrite fmap_app in Hk.
  assert (k ∈ l1.*1 ++ n :: l2.*1) as Hk' by (apply elem_of_app in Hk as [Hk | Hk]; apply elem_of_app; [by left | right; by right]).
  assert (k ≠ n) as Hkn. { intros ->. pose proof (sp_nodup _ _ Hs) as Hnd. rewrite <-Permutation_middle in Hnd. by apply NoDup_cons in Hnd as [? _]. }
  destruct (sp_nodes _ _ Hs k n Hk' Hn Hkn); lia.
Qed.

(** An object leaves, and its node is freed. *)
Definition released (m m' : memory) (q n : Z) (l : list Z) : Prop :=
  untouched m m' q l ∧ ∀ x, n <= x <= n + 2 → m' !! x = None.

Lemma remove_node_spec m q l1 n o l2 :
  queue_at m q (l1 ++ (n, o) :: l2) →
  returns ('(m, n) ← remove_node m q n; object_queue_get_contents m n)
    (λ '(m', o'), o' = o ∧ queue_at m' q (l1 ++ l2) ∧ released m m' q n (l1 ++ (n, o) :: l2).*1).
Proof.
  intros Hq. assert (lenZ (l1 ++ (n, o) :: l2) = lenZ (l1 ++ l2) + 1) as Hlen by (unfold lenZ; rewrite !length_app; simpl; lia).
  pose proof (qa_small _ _ _ Hq) as Hsm. pose proof (lenZ_nonneg (l1 ++ l2)).
  pose proof (qa_spread _ _ _ (qa_linked _ _ _ Hq)) as Hs. rewrite fmap_app, fmap_cons in Hs. cbn [fst] in Hs.
  unfold remove_node, EMPTYP, QUEUE_LENGTH. rewrite (load_ok _ _ _ (qa_length _ _ _ Hq)), bind_ok_l.
  rewrite bind_ok_l. rewrite (proj2 (Z.eqb_neq _ 0)) by lia. simpl negb. pass_assert.
  destruct (lsh_queue_remove_spec _ _ _ _ _ _ (qa_linked _ _ _ Hq)) as (m1 & -> & Hq1 & Ho & Hl & Hfr). rewrite bind_ok_l.
  rewrite (add_length_ok _ q (lenZ (l1 ++ (n, o) :: l2))) by (rewrite Hl; apply Hq). rewrite !bind_ok_l.
  assert (n ∈ l1.*1 ++ n :: l2.*1) as Hn by (apply elem_of_app; right; left). destruct (sp_apart _ _ Hs n Hn) as [_ Hnq].
  unfold object_queue_get_contents, NODE_OBJECT. rewrite (load_ok _ _ o), bind_ok_l by (rewrite lookup_insert_ne by lia; done).
  apply returns_ok. split; [done |]. split; [split |].
  - by apply linked_free, linked_length.
  - rewrite free_node_words, bool_decide_eq_false_2 by lia. rewrite lookup_insert_eq, u32_id; [f_equal; lia | unfold is_u32; lia].
  - lia.
  - split.
    + intros x Hx1 Hx2. rewrite free_node_words, bool_decide_eq_false_2.
      * rewrite lookup_insert_ne by (unfold queue_words in Hx1; lia). by apply Hfr.
      * intros Hx. apply Hx2. exists n. split; [rewrite fmap_app; apply elem_of_app; right; left | done].
    + intros x Hx. by rewrite free_node_words, bool_decide_eq_true_2.
Qed.

Lemma object_queue_remove_head_spec m q n o l :
  queue_at m q ((n, o) :: l) →
  returns (object_queue_remove_head m q) (λ '(m', o'), o' = o ∧ queue_at m' q l ∧ released m m' q n (n :: l.*1)).
Proof.
  intros Hq. unfold object_queue_remove_head, lsh_queue_remove_head, LSH_QUEUE_HEAD.
  destruct (links_first _ _ _ _ (qa_links _ _ _ (qa_linked _ _ _ Hq))) as [Hh _].
  rewrite Z.add_0_r, (load_ok _ _ _ Hh), bind_ok_l. by apply (remove_node_spec m q [] n o l).
Qed.

Lemma object_queue_remove_tail_spec m q n o l :
  queue_at m q (l ++ [(n, o)]) →
  returns (object_queue_remove_tail m q) (λ '(m', o'), o' = o ∧ queue_at m' q l ∧ released m m' q n (l.*1 ++ [n])).
Proof.
  intros Hq. unfold object_queue_remove_tail, lsh_queue_remove_tail, LSH_QUEUE_TAILPREV.
  destruct (links_last _ _ _ _ (qa_links _ _ _ (qa_linked _ _ _ Hq))) as [_ Ht]. rewrite fmap_app in Ht. simpl in Ht. rewrite last_of_snoc in Ht.
  replace (q + 1 + 1) with (q + 2) in Ht by lia. rewrite (load_ok _ _ _ Ht), bind_ok_l.
  pose proof (remove_node_spec m q l n o [] Hq) as Hr. by rewrite app_nil_r, (fmap_app _ l) in Hr.
Qed.

(** Nothing can be taken from an empty queue. *)
Lemma queue_empty m q l : queue_at m q l → EMPTYP m q = Ok (bool_decide (l = [])).
Proof.
  intros Hq. unfold EMPTYP, QUEUE_LENGTH. rewrite (load_ok _ _ _ (qa_length _ _ _ Hq)), bind_ok_l. f_equal.
  destruct l as [| x l]; [by rewrite bool_decide_eq_true_2 |]. rewrite bool_decide_eq_false_2 by done. apply Z.eqb_neq. unfold lenZ. simpl. lia.
Qed.

Lemma remove_empty m q : queue_at m q [] → object_queue_remove_head m q = Fault AssertFailed ∧ object_queue_remove_tail m q = Fault AssertFailed.
Proof.
  intros Hq. unfold object_queue_remove_head, lsh_queue_remove_head, object_queue_remove_tail, lsh_queue_remove_tail, LSH_QUEUE_HEAD, LSH_QUEUE_TAILPREV.
  destruct (links_first _ _ _ _ (qa_links _ _ _ (qa_linked _ _ _ Hq))) as [Hh _].
  destruct (links_last _ _ _ _ (qa_links _ _ _ (qa_linked _ _ _ Hq))) as [_ Ht]. replace (q + 1 + 1) with (q + 2) in Ht by lia.
  rewrite Z.add_0_r, (load_ok _ _ _ Hh), (load_ok _ _ _ Ht), !bind_ok_l. unfold remove_node. by rewrite (queue_empty _ _ _ Hq).
Qed.

(** ** Looking *)

Lemma object_queue_peek_head_spec m q l : queue_at m q l → object_queue_peek_head m q = Ok (default 0 (head l.*2)).
Proof.
  intros Hq. unfold object_queue_peek_head, LSH_QUEUE_HEAD. rewrite (queue_empty _ _ _ Hq), bind_ok_l, Z.add_0_r.
  destruct l as [| [n o] l]; [done |]. rewrite bool_decide_eq_false_2 by done.
  destruct (links_first _ _ _ _ (qa_links _ _ _ (qa_linked _ _ _ Hq))) as [Hh _]. rewrite (load_ok _ _ _ Hh), bind_ok_l.
  apply load_ok, (qa_objects _ _ _ (qa_linked _ _ _ Hq)). left.
Qed.

Lemma object_queue_peek_tail_spec m q l : queue_at m q l → object_queue_peek_tail m q = Ok (default 0 (last l.*2)).
Proof.
  intros Hq. unfold object_queue_peek_tail, LSH_QUEUE_TAILPREV. rewrite (queue_empty _ _ _ Hq), bind_ok_l.
  destruct l as [| [n o] l _] using rev_ind; [done |]. rewrite bool_decide_eq_false_2 by (by destruct l).
  destruct (links_last _ _ _ _ (qa_links _ _ _ (qa_linked _ _ _ Hq))) as [_ Ht]. replace (q + 1 + 1) with (q + 2) in Ht by lia.
  rewrite fmap_app in Ht. simpl in Ht. rewrite last_of_snoc in Ht. rewrite (load_ok _ _ _ Ht), bind_ok_l, fmap_app. simpl. rewrite last_snoc.
  apply load_ok, (qa_objects _ _ _ (qa_linked _ _ _ Hq)). apply elem_of_app. right. left.
Qed.

(** The loops follow the next pointers only. *)
Fixpoint forward (m : memory) (this : Z) (l : list Z) (b : Z) : Prop :=
  match l with
  | [] => this = b
  | n :: l => this = n ∧ ∃ next, m !! n = Some next ∧ next ≠ 0 ∧ forward m next l b
  end.

Lemma links_forward m a l b : b ≠ 0 → (∀ n, n ∈ l → n ≠ 0) → links m a l b → forward m (first_of l b) l b.
Proof.
  intros Hb. revert a. induction l as [| n l IH]; intros a Hl; simpl; [done |]. intros (_ & _ & Hn). split; [done |].
  exists (first_of l b). destruct (links_first _ _ _ _ Hn) as [Hf _]. split; [done |]. split.
  - destruct l as [| k l]; [done |]. apply Hl. right. left.
  - apply (IH n); [| done]. intros k Hk. apply Hl. by right.
Qed.

Lemma queue_forward m q l : queue_at m q l → m !! q = Some (first_of l.*1 (q + 1)) ∧ forward m (first_of l.*1 (q + 1)) l.*1 (q + 1).
Proof.
  intros Hq. pose proof (qa_linked _ _ _ Hq) as Hl. pose proof (qa_spread _ _ _ Hl) as Hs. pose proof (sp_queue _ _ Hs).
  split; [by apply (links_first _ _ _ _ (qa_links _ _ _ Hl)) |]. eapply links_forward; [lia | | apply Hl].
  intros n Hn. destruct (sp_apart _ _ Hs n Hn). lia.
Qed.

(** The objects before the first null one. *)
Fixpoint upto_null (l : list Z) : list Z :=
  match l with
  | [] => []
  | o :: l => if o =? 0 then [] else o :: upto_null l
  end.

Lemma queue_objects_spec l : ∀ fuel m this b,
  forward m this l.*1 b → m !! b = Some 0 → (∀ n o, (n, o) ∈ l → m !! (n + 2) = Some o) → (length l <= fuel)%nat →
  queue_objects fuel m this = Ok (upto_null l.*2).
Proof.
  induction l as [| [n o] l IH]; intros fuel m this b Hf Hb Ho Hlen; simpl in *.
  - subst this. destruct fuel; simpl; by rewrite (load_next _ _ _ Hb).
  - destruct Hf as (-> & next & Hn & Hne & Hf). destruct fuel as [| fuel]; [lia |]. cbn [queue_objects].
    rewrite (load_next _ _ _ Hn), bind_ok_l. rewrite (proj2 (Z.eqb_neq next 0)) by done.
    unfold object_queue_peek, NODE_OBJECT. rewrite (load_ok _ _ o), bind_ok_l by (apply Ho; left).
    destruct (o =? 0); [done |]. rewrite (IH fuel m next b); [done | done | done | intros k o' Hk; apply Ho; by right | lia].
Qed.

Lemma upto_null_length l : (lenZ (upto_null l) =? lenZ l) = bool_decide (0 ∉ l).
Proof.
  induction l as [| o l IH]; cbn [upto_null]; [done |]. destruct (o =? 0) eqn:Ho.
  - apply Z.eqb_eq in Ho as ->. rewrite bool_decide_eq_false_2 by (intros Hn; apply Hn; left). apply Z.eqb_neq. unfold lenZ. simpl. lia.
  - apply Z.eqb_neq in Ho. replace (lenZ (o :: upto_null l) =? lenZ (o :: l)) with (lenZ (upto_null l) =? lenZ l).
    + rewrite IH. apply bool_decide_ext. rewrite not_elem_of_cons. split; [done | tauto].
    + apply eq_bool_prop_intro. unfold lenZ. simpl length. split; intros Hx%Is_true_eq_true%Z.eqb_eq; apply Is_true_eq_left, Z.eqb_eq; lia.
Qed.

Lemma upto_null_all l : 0 ∉ l → upto_null l = l.
Proof.
  induction l as [| o l IH]; intros Hl; simpl; [done |]. apply not_elem_of_cons in Hl as [Ho Hl]. rewrite (proj2 (Z.eqb_neq o 0)) by done. by rewrite IH.
Qed.

(** A null object makes the assertion fail. *)
Lemma queue_to_list_spec m q l :
  queue_at m q l → queue_to_list m q = if bool_decide (0 ∈ l.*2) then Fault AssertFailed else Ok l.*2.
Proof.
  intros Hq. destruct (queue_forward _ _ _ Hq) as [Hh Hf]. pose proof (qa_linked _ _ _ Hq) as Hl.
  unfold queue_to_list, QUEUE_LENGTH, LSH_QUEUE_HEAD. rewrite (load_ok _ _ _ (qa_length _ _ _ Hq)), bind_ok_l, Z.add_0_r, (load_ok _ _ _ Hh), bind_ok_l.
  rewrite (queue_objects_spec l _ m _ (q + 1)), bind_ok_l; [| done | apply Hl | apply Hl | unfold lenZ; lia].
  replace (lenZ l) with (lenZ l.*2) by (unfold lenZ; by rewrite length_fmap). rewrite upto_null_length.
  destruct (decide (0 ∈ l.*2)) as [Hz | Hz].
  - rewrite (bool_decide_eq_true_2 (0 ∈ _)) by done. by rewrite bool_decide_eq_false_2 by (by intros ?).
  - rewrite (bool_decide_eq_false_2 (0 ∈ _)) by done. rewrite bool_decide_eq_true_2 by done. simpl. by rewrite upto_null_all.
Qed.

(** The checks of a debugging build find nothing. *)
Lemma sanity_loop_spec l : ∀ fuel m a b count,
  links m a l b → b ≠ 0 → (∀ n, n ∈ l → n ≠ 0) → m !! b = Some 0 → (length l <= fuel)%nat → 0 <= count → count + lenZ l < 2 ^ 32 →
  sanity_loop fuel m (first_of l b) count = Ok (b, count + lenZ l).
Proof.
  induction l as [| n l IH]; intros fuel m a b count Hl Hb Hne Hz Hlen Hc1 Hc2; cbn [first_of].
  - destruct fuel; cbn [sanity_loop]; rewrite (load_next _ _ _ Hz), bind_ok_l; simpl; by rewrite Z.add_0_r.
  - assert (lenZ (n :: l) = lenZ l + 1) as Hlen' by (unfold lenZ; simpl length; lia). pose proof (lenZ_nonneg l).
    destruct Hl as (Ha & Hn & Hl). destruct fuel as [| fuel]; [simpl in Hlen; lia |]. cbn [sanity_loop].
    destruct (links_first _ _ _ _ Hl) as [Hf _]. rewrite (load_next _ _ _ Hf), bind_ok_l.
    rewrite (proj2 (Z.eqb_neq _ 0)). 2: { destruct l as [| k l]; [done | apply Hne; right; left]. }
    unfold LSH_QUEUE_PREV. rewrite (load_ok _ _ _ Hn), bind_ok_l, (load_next _ _ _ Ha), bind_ok_l, Z.eqb_refl. simpl negb. cbv iota.
    rewrite (u32_id (count + 1)) by (unfold is_u32; lia). rewrite (IH fuel m n b (count + 1)); [f_equal; f_equal; lia | done | done | | done | simpl in Hlen; lia | lia | lia].
    intros k Hk. apply Hne. by right.
Qed.

Lemma sanity_check_ok m q l : queue_at m q l → sanity_check_queue m q = Ok ().
Proof.
  intros Hq. pose proof (qa_linked _ _ _ Hq) as Hl. pose proof (qa_spread _ _ _ Hl) as Hs. pose proof (sp_queue _ _ Hs).
  destruct (links_first _ _ _ _ (qa_links _ _ _ Hl)) as [Hh Hh'].
  destruct (links_last _ _ _ _ (qa_links _ _ _ Hl)) as [_ Ht]. replace (q + 1 + 1) with (q + 2) in Ht by lia.
  unfold sanity_check_queue, EMPTYP_1, LSH_QUEUE_HEAD, LSH_QUEUE_TAIL, LSH_QUEUE_TAILPREV, LSH_QUEUE_PREV, QUEUE_LENGTH.
  rewrite (queue_empty _ _ _ Hq), bind_ok_l, (load_ok _ _ _ Ht), !bind_ok_l, Z.add_0_r.
  assert ((last_of q l.*1 =? q) = bool_decide (l = [])) as ->.
  { destruct l as [| [n o] l]; [by rewrite Z.eqb_refl |]. rewrite bool_decide_eq_false_2 by done. apply Z.eqb_neq. change (last_of n l.*1 ≠ q).
    pose proof (last_of_in n l.*1) as Hin. destruct (sp_apart _ _ Hs _ Hin). lia. }
  rewrite eqb_reflx. simpl negb. cbv iota. rewrite (load_ok _ _ _ (qa_tail _ _ _ Hl)), bind_ok_l. simpl negb. cbv iota.
  rewrite (load_ok _ _ _ Hh), bind_ok_l, (load_ok _ _ _ Hh'), bind_ok_l, Z.eqb_refl. simpl negb. cbv iota.
  rewrite (load_ok _ _ _ (qa_length _ _ _ Hq)), bind_ok_l. assert (lenZ l.*1 = lenZ l) as Hlen by (unfold lenZ; by rewrite length_fmap).
  rewrite (sanity_loop_spec l.*1 _ m q (q + 1) 0), bind_ok_l; [| apply Hl | lia | | apply Hl | unfold lenZ; rewrite length_fmap; lia | lia |].
  - rewrite Z.eqb_refl, Hlen, Z.add_0_l, Z.eqb_refl. done.
  - intros n Hn. destruct (sp_apart _ _ Hs n Hn). lia.
  - rewrite Hlen. apply Hq.
Qed.

(** ** The end of a queue *)

Lemma free_nodes_spec l : ∀ fuel m this b q,
  forward m this l b → m !! b = Some 0 → (∀ n, n ∈ l → ¬ (n <= b <= n + 2)) → spread q l → (length l <= fuel)%nat →
  returns (free_nodes fuel m this) (λ m', ∀ x, (node_words l x → m' !! x = None) ∧ (¬ node_words l x → m' !! x = m !! x)).
Proof.
  induction l as [| n l IH]; intros fuel m this b q Hf Hb Hlb Hs Hlen.
  - simpl in Hf. subst this. assert (free_nodes fuel m b = Ok m) as -> by (destruct fuel; simpl; by rewrite (load_next _ _ _ Hb)).
    apply returns_ok. intros x. split; [by intros (n & Hn%elem_of_nil & _) | done].
  - destruct Hf as (-> & next & Hn & Hne & Hf). destruct fuel as [| fuel]; [simpl in Hlen; lia |]. cbn [free_nodes].
    rewrite (load_next _ _ _ Hn), bind_ok_l. rewrite (proj2 (Z.eqb_neq next 0)) by done.
    assert (∀ x, ¬ (n <= x <= n + 2) → free_node m n !! x = m !! x) as He.
    { intros x Hx. by rewrite free_node_words, bool_decide_eq_false_2. }
    assert (∀ k, k ∈ l → n + 2 < k ∨ k + 2 < n) as Hfar.
    { intros k Hk. apply (sp_nodes _ _ Hs); [left | by right |]. intros ->. pose proof (sp_nodup _ _ Hs) as Hnd. by apply NoDup_cons in Hnd as [? _]. }
    destruct (IH fuel (free_node m n) next b q) as (m' & -> & Hm').
    + clear IH Hlb Hn Hs Hlen. revert next Hne Hf. induction l as [| k l IHl]; intros next Hne Hf; [done |]. destruct Hf as (-> & k' & Hk & Hk' & Hf).
      split; [done |]. exists k'. split; [rewrite He; [done |]; destruct (Hfar k ltac:(left)); lia |]. split; [done |].
      apply IHl; [| done | done]. intros j Hj. apply Hfar. by right.
    + rewrite He; [done | apply Hlb; left].
    + intros k Hk. apply Hlb. by right.
    + eapply spread_sub; [| exact Hs]. by apply sublist_cons.
    + simpl in Hlen. lia.
    + apply returns_ok. intros x. destruct (Hm' x) as [H1 H2]. rewrite node_words_cons. split.
      * intros [Hx | Hx]; [| by apply H1]. rewrite H2; [by rewrite free_node_words, bool_decide_eq_true_2 |].
        intros (k & Hk & Hkx). destruct (Hfar k Hk); lia.
      * intros Hx. rewrite H2 by tauto. apply He. tauto.
Qed.

(** Killing a queue frees its nodes and nothing else. *)
Lemma object_queue_kill_spec m q l :
  queue_at m q l →
  returns (object_queue_kill m q) (λ m', ∀ x, (node_words l.*1 x → m' !! x = None) ∧ (¬ node_words l.*1 x → m' !! x = m !! x)).
Proof.
  intros Hq. destruct (queue_forward _ _ _ Hq) as [Hh Hf]. pose proof (qa_linked _ _ _ Hq) as Hl. pose proof (qa_spread _ _ _ Hl) as Hs.
  unfold object_queue_kill, QUEUE_LENGTH, LSH_QUEUE_HEAD. rewrite (load_ok _ _ _ (qa_length _ _ _ Hq)), bind_ok_l, Z.add_0_r, (load_ok _ _ _ Hh), bind_ok_l.
  apply (free_nodes_spec l.*1 _ m _ (q + 1) q); [done | apply Hl | | done | unfold lenZ; rewrite length_fmap; lia].
  intros n Hn. destruct (sp_apart _ _ Hs n Hn). lia.
Qed.

Lemma lsh_queue_init_spec m q :
  0 < q → (∀ x, queue_words q x → is_Some (m !! x)) →
  returns (lsh_queue_init m q) (λ m', queue_at m' q [] ∧ untouched m m' q []).
Proof.
  intros Hq Ha. assert (∀ i, 0 <= i <= 3 → is_Some (m !! (q + i))) as Hi by (intros i Hi; apply Ha; unfold queue_words; lia).
  unfold lsh_queue_init, LSH_QUEUE_HEAD, LSH_QUEUE_TAIL, LSH_QUEUE_TAILPREV, QUEUE_LENGTH.
  rewrite store_ok, bind_ok_l by (apply Hi; lia). rewrite store_ok, bind_ok_l by (rewrite lookup_insert_ne by lia; apply Hi; lia).
  rewrite store_ok, bind_ok_l by (rewrite !lookup_insert_ne by lia; apply Hi; lia). rewrite store_ok by (rewrite !lookup_insert_ne by lia; apply Hi; lia).
  apply returns_ok. rewrite Z.add_0_r. split; [split |].
  - split.
    + simpl. replace (q + 1 + 1) with (q + 2) by lia. split; [by rewrite !lookup_insert_ne, lookup_insert_eq by lia |].
      by rewrite lookup_insert_ne, lookup_insert_eq by lia.
    + by rewrite !lookup_insert_ne, lookup_insert_eq by lia.
    + intros n o Hn. by apply elem_of_nil in Hn.
    + split; [done | constructor | intros n Hn; by apply elem_of_nil in Hn | intros n k Hn; by apply elem_of_nil in Hn].
  - by rewrite lookup_insert_eq.
  - done.
  - intros x Hx _. unfold queue_words in Hx. by rewrite !lookup_insert_ne by lia.
Qed.
