(* ===== verification/QueueRun.v ===== *)
(** * Queues in use

    A queue of objects behaves as a double-ended list under any sequence of
    operations, with any allocator; once it is killed, all its nodes are freed. *)

From S2P Require Import Prelude Queue QueueSpec.
Local Open Scope Z_scope.

(** What [malloc] promises: words that nothing else uses. *)
Class NodeMalloc : Type := {
  malloc : memory → Z;
  malloc_fresh m : fresh m (malloc m);
}.

(** ** The abstract queue *)

Inductive deque_call : Set :=
  | AddHead (o : Z)
  | AddTail (o : Z)
  | RemoveHead
  | RemoveTail
  | PeekHead
  | PeekTail
  | IsEmpty
  | ToList.

(** What a call returns. *)
Inductive answer : Set := Done | Object (o : Z) | Empty (b : bool) | Objects (l : list Z).

Definition deque (l : list Z) (c : deque_call) : result (list Z * answer) :=
  match c with
  | AddHead o => Ok (o :: l, Done)
  | AddTail o => Ok (l ++ [o], Done)
  | RemoveHead => match l with o :: l => Ok (l, Object o) | [] => Fault AssertFailed end
  | RemoveTail => match last l with Some o => Ok (removelast l, Object o) | None => Fault AssertFailed end
  | PeekHead => Ok (l, Object (default 0 (head l)))
  | PeekTail => Ok (l, Object (default 0 (last l)))
  | IsEmpty => Ok (l, Empty (bool_decide (l = [])))
  | ToList => if bool_decide (0 ∈ l) then Fault AssertFailed else Ok (l, Objects l)
  end.

Section queue.
Context `{NodeMalloc} (junk : Z).

(** The same calls on a queue in memory. *)
Definition queue_call (m : memory) (q : Z) (c : deque_call) : result (memory * answer) :=
  match c with
  | AddHead o => m ← object_queue_add_head junk m q (malloc m) o; Ok (m, Done)
  | AddTail o => m ← object_queue_add_tail junk m q (malloc m) o; Ok (m, Done)
  | RemoveHead => '(m, o) ← object_queue_remove_head m q; Ok (m, Object o)
  | RemoveTail => '(m, o) ← object_queue_remove_tail m q; Ok (m, Object o)
  | PeekHead => o ← object_queue_peek_head m q; Ok (m, Object o)
  | PeekTail => o ← object_queue_peek_tail m q; Ok (m, Object o)
  | IsEmpty => b ← lsh_queue_is_empty m q; Ok (m, Empty b)
  | ToList => l ← queue_to_list m q; Ok (m, Objects l)
  end.

(** A call as in a debugging build, with the checks before and after. *)
Definition checked_call (m : memory) (q : Z) (c : deque_call) : result (memory * answer) :=
  _ ← sanity_check_queue m q;
  '(m, a) ← queue_call m q c;
  _ ← sanity_check_queue m q;
  Ok (m, a).

(** [q] holds [l], and what is not the queue's is as in [m0]. *)
Record owned (m0 m : memory) (q : Z) (l : list (Z * Z)) : Prop := {
  ow_queue : queue_at m q l;
  ow_new x : node_words l.*1 x → m0 !! x = None;
  ow_rest x : ¬ queue_words q x → ¬ node_words l.*1 x → m !! x = m0 !! x;
}.

Lemma owned_add m0 m m' q l1 n o l2 :
  owned m0 m q (l1 ++ l2) → fresh m n → queue_at m' q (l1 ++ (n, o) :: l2) → untouched m m' q (l1.*1 ++ n :: l2.*1) →
  owned m0 m' q (l1 ++ (n, o) :: l2).
Proof.
  intros [Hq Hnew Hrest] Hf Hq' Hu. rewrite fmap_app in Hnew, Hrest. split; [done | |].
  - intros x Hx. rewrite fmap_app in Hx. apply node_words_app in Hx as [Hx | Hx]; [apply Hnew, node_words_app; by left |].
    apply node_words_cons in Hx as [Hx | Hx]; [| apply Hnew, node_words_app; by right]. simpl in Hx.
    pose proof Hf as [_ Hnone]. rewrite <-Hrest; [by apply Hnone | |]; intros Hx'; apply (fresh_apart _ _ _ _ x Hq Hf); [by left | done | right; by rewrite fmap_app | done].
  - intros x Hx1 Hx2. rewrite fmap_app in Hx2. cbn [fst fmap list_fmap] in Hx2. rewrite (Hu x Hx1 Hx2). apply Hrest; [done |]. intros Hx. apply Hx2. rewrite node_words_app, node_words_cons.
    apply node_words_app in Hx. tauto.
Qed.

Lemma owned_remove m0 m m' q l1 n o l2 :
  owned m0 m q (l1 ++ (n, o) :: l2) → queue_at m' q (l1 ++ l2) → released m m' q n (l1.*1 ++ n :: l2.*1) → owned m0 m' q (l1 ++ l2).
Proof.
  intros [Hq Hnew Hrest] Hq' [Hu Hfree]. rewrite fmap_app, fmap_cons in Hnew, Hrest. cbn [fst] in Hnew, Hrest. split; [done | |].
  - intros x Hx. apply Hnew. rewrite fmap_app in Hx. rewrite node_words_app, node_words_cons. apply node_words_app in Hx. tauto.
  - intros x Hx1 Hx2. rewrite fmap_app, node_words_app in Hx2. destruct (decide (n <= x <= n + 2)) as [Hx | Hx].
    + rewrite Hfree by done. symmetry. apply Hnew. rewrite node_words_app, node_words_cons. tauto.
    + rewrite (Hu x Hx1), (Hrest x Hx1); [done | |]; rewrite node_words_app, node_words_cons; tauto.
Qed.

(** Each call on the memory is the call on the list. *)
Lemma queue_call_refines m0 m q l c :
  owned m0 m q l → lenZ l + 1 < 2 ^ 32 →
  match deque l.*2 c with
  | Ok (l', a) => ∃ m' l1, queue_call m q c = Ok (m', a) ∧ owned m0 m' q l1 ∧ l1.*2 = l'
  | Fault f => queue_call m q c = Fault f
  end.
Proof.
  intros Ho Hlen. pose proof (ow_queue _ _ _ _ Ho) as Hq. destruct c as [o | o | | | | | |]; simpl.
  - destruct (object_queue_add_head_spec junk m q l (malloc m) o Hq (malloc_fresh m) Hlen) as (m' & -> & Hq' & Hu).
    exists m', ((malloc m, o) :: l). split; [done |]. split; [| done]. by apply (owned_add m0 m m' q [] _ o l Ho (malloc_fresh m)).
  - destruct (object_queue_add_tail_spec junk m q l (malloc m) o Hq (malloc_fresh m) Hlen) as (m' & -> & Hq' & Hu).
    exists m', (l ++ [(malloc m, o)]). split; [done |]. split; [| by rewrite fmap_app].
    apply (owned_add m0 m m' q l _ o []); [by rewrite app_nil_r | apply malloc_fresh | done | done].
  - destruct l as [| [n o] l]; simpl; [by rewrite (proj1 (remove_empty _ _ Hq)) |].
    destruct (object_queue_remove_head_spec _ _ _ _ _ Hq) as ([m' o'] & -> & -> & Hq' & Hr). exists m', l. split; [done |]. split; [| done].
    by apply (owned_remove m0 m m' q [] n o l).
  - destruct l as [| [n o] l _] using rev_ind; simpl; [by rewrite (proj2 (remove_empty _ _ Hq)) |].
    rewrite fmap_app. simpl. rewrite last_snoc, removelast_last.
    destruct (object_queue_remove_tail_spec _ _ _ _ _ Hq) as ([m' o'] & -> & -> & Hq' & Hr). exists m', l. split; [done |]. split; [| done].
    rewrite <-(app_nil_r l). apply (owned_remove m0 m m' q l n o []); [done | by rewrite app_nil_r | done].
  - rewrite (object_queue_peek_head_spec _ _ _ Hq). by exists m, l.
  - rewrite (object_queue_peek_tail_spec _ _ _ Hq). by exists m, l.
  - unfold lsh_queue_is_empty. rewrite (queue_empty _ _ _ Hq). exists m, l. split; [| done]. simpl. do 3 f_equal. apply bool_decide_ext. by destruct l.
  - rewrite (queue_to_list_spec _ _ _ Hq). case_bool_decide; [done |]. by exists m, l.
Qed.

Lemma checked_call_refines m0 m q l c :
  owned m0 m q l → lenZ l + 1 < 2 ^ 32 →
  match deque l.*2 c with
  | Ok (l', a) => ∃ m' l1, checked_call m q c = Ok (m', a) ∧ owned m0 m' q l1 ∧ l1.*2 = l'
  | Fault f => checked_call m q c = Fault f
  end.
Proof.
  intros Ho Hlen. unfold checked_call. rewrite (sanity_check_ok _ _ _ (ow_queue _ _ _ _ Ho)), bind_ok_l.
  pose proof (queue_call_refines m0 m q l c Ho Hlen) as Hc. destruct (deque l.*2 c) as [[l' a] | f]; [| by rewrite Hc].
  destruct Hc as (m' & l1 & -> & Ho' & Hl). exists m', l1. rewrite bind_ok_l. by rewrite (sanity_check_ok _ _ _ (ow_queue _ _ _ _ Ho')).
Qed.

(** ** Sequences of calls *)

Fixpoint deque_calls (l : list Z) (cs : list deque_call) : result (list Z * list answer) :=
  match cs with
  | [] => Ok (l, [])
  | c :: cs => '(l, a) ← deque l c; '(l, rest) ← deque_calls l cs; Ok (l, a :: rest)
  end.

Fixpoint queue_calls (m : memory) (q : Z) (cs : list deque_call) : result (memory * list answer) :=
  match cs with
  | [] => Ok (m, [])
  | c :: cs => '(m, a) ← checked_call m q c; '(m, rest) ← queue_calls m q cs; Ok (m, a :: rest)
  end.

(** A queue is made, used and killed. *)
Definition queue_life (m : memory) (q : Z) (cs : list deque_call) : result (memory * list answer) :=
  m ← lsh_queue_init m q;
  '(m, answers) ← queue_calls m q cs;
  m ← object_queue_kill m q;
  Ok (m, answers).

Lemma deque_length l c l' a : deque l c = Ok (l', a) → lenZ l' <= lenZ l + 1.
Proof.
  unfold lenZ. destruct c; simpl; intros Hd; simplify_eq.
  - simpl. lia.
  - rewrite length_app. simpl. lia.
  - destruct l; simplify_eq. simpl. lia.
  - destruct l as [| x l _] using rev_ind; [done |]. rewrite last_snoc, removelast_last in Hd. simplify_eq. rewrite length_app. simpl. lia.
  - lia.
  - lia.
  - lia.
  - case_bool_decide; simplify_eq. lia.
Qed.

Lemma queue_calls_refine cs : ∀ m0 m q l,
  owned m0 m q l → lenZ l + lenZ cs < 2 ^ 32 →
  match deque_calls l.*2 cs with
  | Ok (l', answers) => ∃ m' l1, queue_calls m q cs = Ok (m', answers) ∧ owned m0 m' q l1
  | Fault f => queue_calls m q cs = Fault f
  end.
Proof.
  induction cs as [| c cs IH]; intros m0 m q l Ho Hlen; [by exists m, l |].
  assert (lenZ (c :: cs) = lenZ cs + 1) as Hcs by (unfold lenZ; simpl; lia). pose proof (lenZ_nonneg cs).
  cbn [deque_calls queue_calls]. pose proof (checked_call_refines m0 m q l c Ho ltac:(lia)) as Hc.
  destruct (deque l.*2 c) as [[l' a] | f] eqn:Hd; [| by rewrite Hc]. destruct Hc as (m' & l1 & -> & Ho' & Hl). rewrite !bind_ok_l. subst l'.
  apply deque_length in Hd. assert (∀ k : list (Z * Z), lenZ k.*2 = lenZ k) as Hk by (intros k; unfold lenZ; by rewrite length_fmap). rewrite !Hk in Hd.
  specialize (IH m0 m' q l1 Ho' ltac:(lia)). destruct (deque_calls l1.*2 cs) as [[l2 answers] | f]; [| by rewrite IH].
  destruct IH as (m2 & l3 & -> & Ho2). by exists m2, l3.
Qed.

Lemma deque_fault l c f : deque l c = Fault f → f = AssertFailed.
Proof. destruct c; simpl; intros Hd; simplify_eq; repeat case_match; by simplify_eq. Qed.

Lemma deque_calls_fault cs : ∀ l f, deque_calls l cs = Fault f → f = AssertFailed.
Proof.
  induction cs as [| c cs IH]; intros l f; simpl; [done |]. destruct (deque l c) as [[l' a] | g] eqn:Hd; simpl.
  - destruct (deque_calls l' cs) as [[l2 rest] | g] eqn:Hcs; simpl; [done |]. intros [= <-]. by apply (IH l').
  - intros [= <-]. by apply (deque_fault l c).
Qed.

Lemma node_words_dec l x : node_words l x ∨ ¬ node_words l x.
Proof.
  destruct (decide (Exists (λ n, n <= x <= n + 2) l)) as [He | He]; rewrite Exists_exists in He; [left | right].
  - done.
  - intros (n & Hn & Hx). apply He. by exists n.
Qed.

(** C27: A queue is a double-ended list.  From a new queue in any memory, any
    sequence of calls (adding and removing at either end, peeking, testing for
    emptiness, listing) gives the answers of the list of the objects, and stops
    at an assertion exactly where the list has nothing to remove, or a null
    object is listed; the checks of a debugging build never fail; and when the
    queue is killed, every word that is not the queue's own is as it was before:
    no node leaks and no other memory is written. *)
Theorem object_queue_refines_deque m q cs :
  0 < q → (∀ x, queue_words q x → is_Some (m !! x)) → lenZ cs < 2 ^ 32 →
  match deque_calls [] cs with
  | Ok (_, answers) => ∃ m', queue_life m q cs = Ok (m', answers) ∧ ∀ x, ¬ queue_words q x → m' !! x = m !! x
  | Fault f => f = AssertFailed ∧ queue_life m q cs = Fault f
  end.
Proof.
  intros Hq Ha Hcs. unfold queue_life. destruct (lsh_queue_init_spec m q Hq Ha) as (m1 & -> & Hq1 & Hu). rewrite bind_ok_l.
  assert (owned m m1 q []) as Ho by (split; [done | by intros x (n & Hn%elem_of_nil & _) | done]).
  pose proof (queue_calls_refine cs m m1 q [] Ho Hcs) as Hc. cbn [fmap list_fmap] in Hc.
  destruct (deque_calls [] cs) as [[l' answers] | f] eqn:Hd.
  - destruct Hc as (m2 & l & -> & Ho2). rewrite bind_ok_l. destruct (object_queue_kill_spec _ _ _ (ow_queue _ _ _ _ Ho2)) as (m3 & -> & Hk).
    exists m3. split; [done |]. intros x Hx. destruct (Hk x) as [H1 H2]. destruct (node_words_dec l.*1 x) as [Hin | Hin].
    + rewrite H1 by done. symmetry. by apply (ow_new _ _ _ _ Ho2).
    + rewrite H2 by done. by apply (ow_rest _ _ _ _ Ho2).
  - rewrite Hc. split; [| done]. by eapply deque_calls_fault.
Qed.

End queue.

(** ** An allocator *)

(** The words after all that are in use. *)
Definition above (m : memory) : Z := 1 + foldr Z.max 0 (elements (dom m)).

Lemma max_above l x : x ∈ l → x <= foldr Z.max 0 l.
Proof. induction l as [| y l IH]; intros Hx; [by apply elem_of_nil in Hx |]. simpl. apply elem_of_cons in Hx as [-> | Hx]; [lia |]. specialize (IH Hx). lia. Qed.

Lemma max_nonneg l : 0 <= foldr Z.max 0 l.
Proof. induction l; simpl; lia. Qed.

Lemma above_fresh m : fresh m (above m).
Proof.
  unfold above. pose proof (max_nonneg (elements (dom m))). split; [lia |]. intros x Hx. apply not_elem_of_dom. intros Hin.
  pose proof (max_above (elements (dom m)) x (proj2 (elem_of_elements _ _) Hin)). lia.
Qed.

#[export] Instance bump_malloc : NodeMalloc := { malloc := above; malloc_fresh := above_fresh }.

(** ** An example *)

(** A queue at the address 1, before it is set up, and something else. *)
Definition some_memory : memory := list_to_map [(1, 11); (2, 12); (3, 13); (4, 14); (9, 99)].

Definition some_calls : list deque_call := [IsEmpty; PeekHead; AddTail 70; AddHead 50; AddTail 90; PeekTail; ToList; RemoveTail; RemoveHead; PeekHead; IsEmpty].

Definition some_answers : list answer :=
  [Empty true; Object 0; Done; Done; Done; Object 90; Objects [50; 70; 90]; Object 90; Object 50; Object 70; Empty false].

Lemma some_memory_words x : queue_words 1 x → is_Some (some_memory !! x).
Proof. unfold queue_words. intros Hx. assert (x = 1 ∨ x = 2 ∨ x = 3 ∨ x = 4) as [-> | [-> | [-> | ->]]] by lia; vm_compute; eauto. Qed.

Lemma object_queue_refines_deque_witness :
  (∃ m', queue_life 77 some_memory 1 some_calls = Ok (m', some_answers) ∧ ∀ x, ¬ queue_words 1 x → m' !! x = some_memory !! x) ∧
  queue_life 77 some_memory 1 [AddHead 5; RemoveTail; RemoveHead] = Fault AssertFailed.
Proof.
  split.
  - exact (object_queue_refines_deque 77 some_memory 1 some_calls eq_refl some_memory_words eq_refl).
  - exact (proj2 (object_queue_refines_deque 77 some_memory 1 [AddHead 5; RemoveTail; RemoveHead] eq_refl some_memory_words eq_refl)).
Defined.
