(* ===== verification/Gc.v ===== *)
(** * The collector ([src/src/gc.c], [src/src/lsh.h])

    Objects are marked from a root set and swept along a chain of all objects.
    The collector runs from the event loop, when no callback holds a pointer. *)

From S2P Require Import Prelude.
Local Open Scope Z_scope.

Abbreviation oid := positive.

Inductive alloc_method : Set := LSH_ALLOC_HEAP | LSH_ALLOC_STATIC.

#[global] Instance alloc_method_eq_dec : EqDecision alloc_method.
Proof. solve_decision. Defined.

(** An object: its header, with the objects that the [mark_instance] functions
    of its classes visit in place of the class. *)
Record lsh_object := mk_object {
  ob_next : option oid;
  ob_refs : list (option oid);
  ob_alloc_method : alloc_method;
  ob_marked : bool;
  ob_dead : bool;
}.

Abbreviation heap := (gmap oid lsh_object).

(** The variables of [gc.c], and the memory. *)
Record gc_state := mk_gc_state {
  gc_heap : heap;
  all_objects : option oid;
  number_of_objects : Z;
  live_objects : Z;
  root_set : option oid;
  gc_scheduled : bool;
}.

Definition set_marked (b : bool) (o : lsh_object) : lsh_object := mk_object (ob_next o) (ob_refs o) (ob_alloc_method o) b (ob_dead o).
Definition set_next (n : option oid) (o : lsh_object) : lsh_object := mk_object n (ob_refs o) (ob_alloc_method o) (ob_marked o) (ob_dead o).
Definition set_dead (b : bool) (o : lsh_object) : lsh_object := mk_object (ob_next o) (ob_refs o) (ob_alloc_method o) (ob_marked o) b.
Definition set_refs (r : list (option oid)) (o : lsh_object) : lsh_object := mk_object (ob_next o) r (ob_alloc_method o) (ob_marked o) (ob_dead o).

(** Following a pointer; there is nothing behind it once the object is freed. *)
Definition object_at (h : heap) (p : oid) : result lsh_object := deref (h !! p).

(** ** Marking *)

(** [MARK_INSTANCE (class, o, gc_mark)] for the classes of the object. *)
Fixpoint mark_refs (mark : heap → option oid → result heap) (h : heap) (refs : list (option oid)) : result heap :=
  match refs with
  | [] => Ok h
  | r :: refs => h ← mark h r; mark_refs mark h refs
  end.

Fixpoint gc_mark (fuel : nat) (h : heap) (o : option oid) : result heap :=
  match o with
  | None => Ok h
  | Some p =>
      ob ← object_at h p;
      let trace h :=
        _ ← c_assert (negb (ob_dead ob));
        match fuel with
        | O => Fault NonTermination
        | S fuel => mark_refs (gc_mark fuel) h (ob_refs ob)
        end in
      match ob_alloc_method ob with
      | LSH_ALLOC_HEAP => if ob_marked ob then Ok h else trace (<[p := set_marked true ob]> h)
      | LSH_ALLOC_STATIC => trace h
      end
  end.

(** ** Sweeping *)

(** [o_p]: the variable, or the pointer in an object. *)
Inductive link : Type := AllObjects | NextOf (p : oid).

Definition read_link (st : gc_state) (l : link) : result (option oid) :=
  match l with
  | AllObjects => Ok (all_objects st)
  | NextOf p => o ← object_at (gc_heap st) p; Ok (ob_next o)
  end.

Definition with_heap (h : heap) (st : gc_state) : gc_state :=
  mk_gc_state h (all_objects st) (number_of_objects st) (live_objects st) (root_set st) (gc_scheduled st).
Definition with_all (o : option oid) (st : gc_state) : gc_state :=
  mk_gc_state (gc_heap st) o (number_of_objects st) (live_objects st) (root_set st) (gc_scheduled st).
Definition with_number (n : Z) (st : gc_state) : gc_state :=
  mk_gc_state (gc_heap st) (all_objects st) n (live_objects st) (root_set st) (gc_scheduled st).
Definition with_live (n : Z) (st : gc_state) : gc_state :=
  mk_gc_state (gc_heap st) (all_objects st) (number_of_objects st) n (root_set st) (gc_scheduled st).
Definition with_scheduled (b : bool) (st : gc_state) : gc_state :=
  mk_gc_state (gc_heap st) (all_objects st) (number_of_objects st) (live_objects st) (root_set st) b.

Definition write_link (st : gc_state) (l : link) (v : option oid) : result gc_state :=
  match l with
  | AllObjects => Ok (with_all v st)
  | NextOf p => o ← object_at (gc_heap st) p; Ok (with_heap (<[p := set_next v o]> (gc_heap st)) st)
  end.

(** The object is gone; [fatal] unless it was allocated. *)
Definition lsh_object_free (st : gc_state) (p : oid) : result gc_state :=
  ob ← object_at (gc_heap st) p;
  match ob_alloc_method ob with
  | LSH_ALLOC_STATIC => c_fatal
  | LSH_ALLOC_HEAP => Ok (with_heap (delete p (gc_heap st)) st)
  end.

(** [for (o_p = &all_objects; (o = *o_p); )].  What [free_instance] releases are
    no objects. *)
Fixpoint sweep_loop (fuel : nat) (st : gc_state) (o_p : link) : result gc_state :=
  o ← read_link st o_p;
  match o with
  | None => Ok st
  | Some p =>
      match fuel with
      | O => Fault NonTermination
      | S fuel =>
          ob ← object_at (gc_heap st) p;
          if ob_marked ob then
            let st := with_live (u32 (live_objects st + 1)) st in
            let st := with_heap (<[p := set_marked false ob]> (gc_heap st)) st in
            sweep_loop fuel st (NextOf p)
          else
            st ← write_link st o_p (ob_next ob);
            let st := with_number (u32 (number_of_objects st - 1)) st in
            st ← lsh_object_free st p;
            sweep_loop fuel st o_p
      end
  end.

(** One round for each object. *)
Definition gc_sweep (st : gc_state) : result gc_state :=
  st ← sweep_loop (size (gc_heap st)) (with_live 0 st) AllObjects;
  _ ← c_assert (live_objects st =? number_of_objects st);
  Ok st.

(** The recursion marks an object at each level. *)
Definition gc (st : gc_state) : result gc_state :=
  h ← gc_mark (S (size (gc_heap st))) (gc_heap st) (root_set st);
  gc_sweep (with_heap h st).

Definition do_gc (st : gc_state) : result gc_state :=
  _ ← c_assert (gc_scheduled st);
  gc (with_scheduled false st).

(** ** Objects come and go *)

(** A new object at [p], with these references. *)
Definition gc_register (st : gc_state) (p : oid) (refs : list (option oid)) : gc_state :=
  let st := with_heap (<[p := mk_object (all_objects st) refs LSH_ALLOC_HEAP false false]> (gc_heap st)) st in
  let st := with_all (Some p) st in
  let st := with_number (u32 (number_of_objects st + 1)) st in
  if negb (gc_scheduled st) && (u32 (100 + 2 * live_objects st) <? number_of_objects st) then with_scheduled true st else st.

Definition gc_kill (st : gc_state) (o : option oid) : result gc_state :=
  match o with
  | None => Ok st
  | Some p =>
      ob ← object_at (gc_heap st) p;
      _ ← c_assert (negb (ob_dead ob));
      let st := with_heap (<[p := set_dead true ob]> (gc_heap st)) st in
      if bool_decide (all_objects st = Some p) then
        let st := with_all (ob_next ob) st in
        let st := with_number (u32 (number_of_objects st - 1)) st in
        lsh_object_free st p
      else Ok st
  end.
