(* ===== verification/GcSpec.v ===== *)
(** * What the collector keeps

    Marking finds the reachable objects; a collection frees exactly the others,
    and no program that leaves the reachable objects alive can make the
    collector fail. *)

From S2P Require Import Prelude Gc.
Local Open Scope Z_scope.

(** ** Reachability *)

Definition edge (h : heap) (p q : oid) : Prop := ∃ ob, h !! p = Some ob ∧ Some q ∈ ob_refs ob.

Definition reach (h : heap) (r : option oid) (q : oid) : Prop := ∃ p, r = Some p ∧ rtc (edge h) p q.

(** What is reachable is there and alive. *)
Definition roots_alive (h : heap) (r : option oid) : Prop :=
  ∀ q, reach h r q → ∃ ob, h !! q = Some ob ∧ ob_dead ob = false.

(** Static objects have no class, and nothing to visit. *)
Definition static_plain (h : heap) : Prop :=
  ∀ p ob, h !! p = Some ob → ob_alloc_method ob = LSH_ALLOC_STATIC → ob_refs ob = [].

Definition is_marked (h : heap) (p : oid) : Prop := ∃ ob, h !! p = Some ob ∧ ob_marked ob = true.

(** Marked, if it can be. *)
Definition visited (h : heap) (p : oid) : Prop :=
  ∃ ob, h !! p = Some ob ∧ (ob_alloc_method ob = LSH_ALLOC_STATIC ∨ ob_marked ob = true).

(** Objects differ in the mark only, and marks are not lost. *)
Record marks_more (h h' : heap) : Prop := {
  mm_same p : set_marked false <$> h !! p = set_marked false <$> h' !! p;
  mm_more p : is_marked h p → is_marked h' p;
  mm_heap p : is_marked h' p → is_marked h p ∨ ∃ ob, h !! p = Some ob ∧ ob_alloc_method ob = LSH_ALLOC_HEAP;
}.

Lemma marks_more_refl h : marks_more h h.
Proof. split; auto. Qed.

(** The same object but for the mark. *)
Lemma marks_more_lookup h h' p ob :
  marks_more h h' → h !! p = Some ob → ∃ b, h' !! p = Some (set_marked b ob).
Proof.
  intros Hm Hp. pose proof (mm_same _ _ Hm p) as Hs. rewrite Hp in Hs. destruct (h' !! p) as [ob' |]; [| done].
  injection Hs as Hn Hr Ha Hd. exists (ob_marked ob'). f_equal. destruct ob, ob'. simpl in *. by subst.
Qed.

Lemma marks_more_sym_lookup h h' p ob :
  marks_more h h' → h' !! p = Some ob → ∃ b, h !! p = Some (set_marked b ob).
Proof.
  intros Hm Hp. pose proof (mm_same _ _ Hm p) as Hs. rewrite Hp in Hs. destruct (h !! p) as [ob' |]; [| done].
  injection Hs as Hn Hr Ha Hd. exists (ob_marked ob'). f_equal. destruct ob, ob'. simpl in *. by subst.
Qed.

Lemma marks_more_trans h1 h2 h3 : marks_more h1 h2 → marks_more h2 h3 → marks_more h1 h3.
Proof.
  intros H1 H2. split; intros p.
  - by rewrite (mm_same _ _ H1), (mm_same _ _ H2).
  - intros Hp. by apply (mm_more _ _ H2), (mm_more _ _ H1).
  - intros Hp. destruct (mm_heap _ _ H2 p Hp) as [Hq | (ob & Hob & Ha)]; [by apply (mm_heap _ _ H1) | right].
    destruct (marks_more_sym_lookup _ _ _ _ H1 Hob) as [b Hb]. by exists (set_marked b ob).
Qed.

Lemma marks_more_edge h h' p q : marks_more h h' → edge h p q ↔ edge h' p q.
Proof.
  intros Hm. split; intros (ob & Hp & Hq).
  - destruct (marks_more_lookup _ _ _ _ Hm Hp) as [b Hp']. by exists (set_marked b ob).
  - destruct (marks_more_sym_lookup _ _ _ _ Hm Hp) as [b Hp']. by exists (set_marked b ob).
Qed.

Lemma marks_more_reach h h' r q : marks_more h h' → reach h r q ↔ reach h' r q.
Proof.
  intros Hm. split; intros (p & -> & Hpath); exists p; (split; [done |]);
    (eapply rtc_subrel; [| exact Hpath]); intros x y; by rewrite (marks_more_edge h h').
Qed.

Lemma marks_more_alive h h' r : marks_more h h' → roots_alive h r → roots_alive h' r.
Proof.
  intros Hm Ha q Hq. rewrite <- (marks_more_reach h h') in Hq by done. destruct (Ha q Hq) as (ob & Hp & Hd).
  destruct (marks_more_lookup _ _ _ _ Hm Hp) as [b Hp']. by exists (set_marked b ob).
Qed.

Lemma marks_more_static h h' : marks_more h h' → static_plain h → static_plain h'.
Proof. intros Hm Hs p ob Hp Ha. destruct (marks_more_sym_lookup _ _ _ _ Hm Hp) as [b Hp']. by apply (Hs p (set_marked b ob)). Qed.

Lemma marks_more_visited h h' p : marks_more h h' → visited h p → visited h' p.
Proof.
  intros Hm (ob & Hp & Hv). destruct (marks_more_lookup _ _ _ _ Hm Hp) as [b Hp']. exists (set_marked b ob). split; [done |].
  destruct Hv as [Ha | Hmk]; [by left | right]. destruct (mm_more _ _ Hm p) as (ob' & Hp'' & Hmk'); [by exists ob |]. by simplify_eq.
Qed.

(** ** Marking *)

(** What is still to be marked. *)
Definition unmarked (h : heap) : gset oid := dom (filter (λ x : oid * lsh_object, ob_alloc_method x.2 = LSH_ALLOC_HEAP ∧ ob_marked x.2 = false) h).

Lemma elem_of_unmarked h p :
  p ∈ unmarked h ↔ ∃ ob, h !! p = Some ob ∧ ob_alloc_method ob = LSH_ALLOC_HEAP ∧ ob_marked ob = false.
Proof. unfold unmarked. rewrite elem_of_dom. unfold is_Some. setoid_rewrite map_lookup_filter_Some. done. Qed.

Lemma marks_more_unmarked h h' : marks_more h h' → (size (unmarked h') <= size (unmarked h))%nat.
Proof.
  intros Hm. apply subseteq_size. intros p Hp. apply elem_of_unmarked in Hp as (ob & Hp & Ha & Hu). apply elem_of_unmarked.
  destruct (marks_more_sym_lookup _ _ _ _ Hm Hp) as [b Hp']. exists (set_marked b ob). split; [done |]. split; [done |]. simpl.
  destruct b; [| done]. destruct (mm_more _ _ Hm p) as (ob' & Hp'' & Hmk); [by exists (set_marked true ob) |]. simplify_eq. congruence.
Qed.

(** The result of visiting these objects. *)
Record marked_from (h h' : heap) (refs : list (option oid)) : Prop := {
  mf_marks : marks_more h h';
  mf_visited q : Some q ∈ refs → visited h' q;
  mf_new q : is_marked h' q → is_marked h q ∨
    (∃ r, r ∈ refs ∧ reach h r q) ∧ (∀ c, edge h q c → visited h' c);
}.

Lemma marked_from_nil h : marked_from h h [].
Proof. split; [apply marks_more_refl | by intros q ?%not_elem_of_nil | by left]. Qed.

Lemma marked_from_cons h h1 h' r refs : marked_from h h1 [r] → marked_from h1 h' refs → marked_from h h' (r :: refs).
Proof.
  intros [Hm1 Hv1 Hn1] [Hm2 Hv2 Hn2]. split.
  - by eapply marks_more_trans.
  - intros q [<- | Hq]%elem_of_cons; [| by apply Hv2]. apply (marks_more_visited h1); [done |]. apply Hv1. by left.
  - intros q Hq. destruct (Hn2 q Hq) as [Hq1 | [(r2 & Hr2 & Hreach) Hc]].
    + destruct (Hn1 q Hq1) as [Hq0 | [(r1 & Hr1 & Hreach) Hc]]; [by left | right]. split.
      * exists r1. split; [| done]. apply list_elem_of_singleton in Hr1 as ->. by left.
      * intros c Hedge. apply (marks_more_visited h1); [done |]. by apply Hc.
    + right. split.
      * exists r2. split; [by right |]. by rewrite (marks_more_reach h h1).
      * intros c Hedge. apply Hc. by rewrite <- (marks_more_edge h h1).
Qed.

Lemma mark_refs_spec fuel :
  (∀ h r, static_plain h → roots_alive h r → (size (unmarked h) < fuel)%nat → ∃ h', gc_mark fuel h r = Ok h' ∧ marked_from h h' [r]) →
  ∀ refs h, static_plain h → (∀ r, r ∈ refs → roots_alive h r) → refs = [] ∨ (size (unmarked h) < fuel)%nat →
  ∃ h', mark_refs (gc_mark fuel) h refs = Ok h' ∧ marked_from h h' refs.
Proof.
  intros Hmark refs. induction refs as [| r refs IH]; intros h Hs Ha Hf; cbn [mark_refs]; [exists h; split; [done | apply marked_from_nil] |].
  destruct Hf as [? | Hf]; [done |]. destruct (Hmark h r Hs (Ha r ltac:(left)) Hf) as (h1 & -> & H1). rewrite bind_ok_l.
  pose proof (mf_marks _ _ _ H1) as Hm. pose proof (marks_more_unmarked _ _ Hm) as Hle.
  destruct (IH h1) as (h2 & -> & H2); [by eapply marks_more_static | | right; lia |].
  { intros r2 Hr2. eapply marks_more_alive; [done |]. apply Ha. by right. }
  exists h2. split; [done |]. by eapply marked_from_cons.
Qed.

(** References of a reachable object. *)
Lemma alive_refs h p ob r : roots_alive h (Some p) → h !! p = Some ob → r ∈ ob_refs ob → roots_alive h r.
Proof.
  intros Ha Hp Hr q (x & -> & Hpath). apply Ha. exists p. split; [done |]. eapply rtc_l; [| exact Hpath]. by exists ob.
Qed.

Lemma reach_refs h p ob r q : h !! p = Some ob → r ∈ ob_refs ob → reach h r q → reach h (Some p) q.
Proof. intros Hp Hr (x & -> & Hpath). exists p. split; [done |]. eapply rtc_l; [| exact Hpath]. by exists ob. Qed.

Lemma mark_one h p ob :
  h !! p = Some ob → ob_alloc_method ob = LSH_ALLOC_HEAP → ob_marked ob = false →
  marks_more h (<[p := set_marked true ob]> h) ∧ (size (unmarked (<[p := set_marked true ob]> h)) < size (unmarked h))%nat.
Proof.
  intros Hp Ha Hu. assert (marks_more h (<[p := set_marked true ob]> h)) as Hm.
  { split; intros q.
    - destruct (decide (q = p)) as [-> | Hne]; [by rewrite lookup_insert_eq, Hp | by rewrite lookup_insert_ne].
    - intros (o & Ho & Hmk). unfold is_marked. destruct (decide (q = p)) as [-> | Hne]; [by rewrite lookup_insert_eq; eexists | rewrite lookup_insert_ne by done; by exists o].
    - intros (o & Ho & Hmk). destruct (decide (q = p)) as [-> | Hne]; [right; by exists ob | left]. rewrite lookup_insert_ne in Ho by done. by exists o. }
  split; [done |]. apply subset_size. split.
  - intros q Hq. apply elem_of_unmarked in Hq as (o & Ho & Hao & Huo). apply elem_of_unmarked. destruct (decide (q = p)) as [-> | Hne].
    + rewrite lookup_insert_eq in Ho. injection Ho as <-. done.
    + rewrite lookup_insert_ne in Ho by done. by exists o.
  - intros Hsub. assert (p ∈ unmarked (<[p := set_marked true ob]> h)) as Hin by (apply Hsub, elem_of_unmarked; by exists ob).
    apply elem_of_unmarked in Hin as (o & Ho & _ & Huo). rewrite lookup_insert_eq in Ho. by injection Ho as <-.
Qed.

Lemma gc_mark_spec fuel : ∀ h r,
  static_plain h → roots_alive h r → (size (unmarked h) < fuel)%nat → ∃ h', gc_mark fuel h r = Ok h' ∧ marked_from h h' [r].
Proof.
  induction fuel as [| fuel IH]; intros h r Hs Ha Hf; [lia |]. destruct r as [p |]; cbn [gc_mark].
  2: { exists h. split; [done |]. split; [apply marks_more_refl | by intros q [? | ?%not_elem_of_nil]%elem_of_cons | by left]. }
  destruct (Ha p) as (ob & Hp & Hd); [by exists p |]. unfold object_at. rewrite Hp. cbn [deref]. rewrite bind_ok_l.
  destruct (ob_alloc_method ob) eqn:Hal.
  - destruct (ob_marked ob) eqn:Hmk.
    { exists h. split; [done |]. split; [apply marks_more_refl | | by left].
      intros q [[= ->] | ?%not_elem_of_nil]%elem_of_cons; [| done]. exists ob. split; [done | by right]. }
    rewrite Hd. cbn [negb c_assert]. rewrite bind_ok_l. destruct (mark_one h p ob Hp Hal Hmk) as [Hm Hlt]. set (h1 := <[p := _]> h) in *.
    assert (h1 !! p = Some (set_marked true ob)) as Hp1 by apply lookup_insert_eq.
    destruct (mark_refs_spec fuel IH (ob_refs ob) h1) as (h2 & -> & [Hm2 Hv2 Hn2]); [by eapply marks_more_static | | right; lia |].
    { intros r Hr. eapply marks_more_alive; [done |]. by eapply alive_refs. }
    exists h2. split; [done |]. split.
    + by eapply marks_more_trans.
    + intros q [[= ->] | ?%not_elem_of_nil]%elem_of_cons; [| done]. apply (marks_more_visited h1); [done |]. eexists. split; [exact Hp1 | by right].
    + intros q Hq. destruct (Hn2 q Hq) as [Hq1 | [(r & Hr & Hreach) Hc]].
      * destruct (decide (q = p)) as [-> | Hne].
        -- right. split; [exists (Some p); split; [left | by exists p] |]. intros c (o & Ho & Hc). simplify_eq. by apply Hv2.
        -- left. destruct Hq1 as (o & Ho & Hmo). unfold h1 in Ho. rewrite lookup_insert_ne in Ho by done. by exists o.
      * right. split; [exists (Some p); split; [left |] |].
        -- eapply (reach_refs h p ob r); [done | done |]. by rewrite (marks_more_reach h h1).
        -- intros c Hedge. apply Hc. by rewrite <- (marks_more_edge h h1).
  - rewrite Hd. cbn [negb c_assert]. rewrite bind_ok_l, (Hs p ob Hp Hal). cbn [mark_refs]. exists h. split; [done |].
    split; [apply marks_more_refl | | by left]. intros q [[= ->] | ?%not_elem_of_nil]%elem_of_cons; [| done]. exists ob. split; [done | by left].
Qed.

(** From unmarked objects, the reachable ones are marked. *)
Lemma marked_reachable h h' r p :
  static_plain h → (∀ q, ¬ is_marked h q) → marked_from h h' [r] →
  is_marked h' p ↔ reach h r p ∧ ∃ ob, h !! p = Some ob ∧ (ob_alloc_method ob = LSH_ALLOC_HEAP ∨ is_marked h' p).
Proof.
  intros Hs Hno Hmf. split.
  - intros Hp. destruct (mf_new _ _ _ Hmf p Hp) as [Hold | [(r' & Hr & Hreach) _]]; [by destruct (Hno p) |].
    apply list_elem_of_singleton in Hr as ->. split; [done |]. pose proof Hp as (ob & Hob & _).
    destruct (marks_more_sym_lookup _ _ _ _ (mf_marks _ _ _ Hmf) Hob) as [b Hb]. eexists. split; [exact Hb | by right].
  - intros ((x & -> & Hpath) & ob & Hob & Hor). destruct Hor as [Hal | ?]; [| done].
    assert (visited h' p) as (ob' & Hob' & Hv).
    { assert (∀ y z, rtc (edge h) y z → visited h' y → visited h' z) as Hgo; [| by eapply Hgo; [exact Hpath | apply (mf_visited _ _ _ Hmf); left]].
      clear ob Hob Hal Hpath. intros y0 z0 Hpath. induction Hpath as [| y y' z Hedge Hpath IH]; [done |]. intros (ox & Hox & [Hst | Hmk]); apply IH.
      - exfalso. destruct (marks_more_sym_lookup _ _ _ _ (mf_marks _ _ _ Hmf) Hox) as [b Hb]. destruct Hedge as (o & Ho & Hin). rewrite Hb in Ho. injection Ho as <-. simpl in Hin.
        change (ob_refs ox) with (ob_refs (set_marked b ox)) in Hin. rewrite (Hs y _ Hb Hst) in Hin. by apply not_elem_of_nil in Hin.
      - destruct (mf_new _ _ _ Hmf y) as [Hold | [_ Hc]]; [by exists ox | by destruct (Hno y) | by apply Hc]. }
    destruct (marks_more_lookup _ _ _ _ (mf_marks _ _ _ Hmf) Hob) as [b Hb]. simplify_eq. destruct Hv as [Hv | Hv]; [simpl in Hv; congruence |].
    by exists (set_marked b ob).
Qed.

(** ** Sweeping *)

(** The chain of these objects, all of them allocated. *)
Fixpoint chain (h : heap) (o : option oid) (l : list oid) : Prop :=
  match l with
  | [] => o = None
  | p :: l => o = Some p ∧ ∃ ob, h !! p = Some ob ∧ ob_alloc_method ob = LSH_ALLOC_HEAP ∧ chain h (ob_next ob) l
  end.

Lemma chain_ext h h' o l : (∀ p, p ∈ l → h' !! p = h !! p) → chain h o l → chain h' o l.
Proof.
  revert o. induction l as [| p l IH]; intros o He; simpl; [done |]. intros (-> & ob & Hp & Ha & Hc). split; [done |]. exists ob.
  split; [rewrite He; [done | left] |]. split; [done |]. apply IH; [| done]. intros q Hq. apply He. by right.
Qed.

Definition marked_at (h : heap) (p : oid) : bool := match h !! p with Some ob => ob_marked ob | None => false end.

Lemma marked_at_spec h p : marked_at h p = true ↔ is_marked h p.
Proof. unfold marked_at, is_marked. destruct (h !! p) as [ob |]; [| split; [done | by intros (? & ? & _)]]. split; [by exists ob | by intros (? & [= <-] & ?)]. Qed.

Definition survivors (h : heap) (l : list oid) : list oid := filter (λ p, marked_at h p = true) l.

Lemma survivors_cons h p l :
  survivors h (p :: l) = if marked_at h p then p :: survivors h l else survivors h l.
Proof. unfold survivors. rewrite filter_cons. by destruct (marked_at h p). Qed.

Lemma survivors_ext h h' l : (∀ p, p ∈ l → h' !! p = h !! p) → survivors h' l = survivors h l.
Proof.
  induction l as [| p l IH]; intros He; [done |]. rewrite !survivors_cons, IH by (intros q Hq; apply He; by right).
  unfold marked_at. rewrite He; [done | left].
Qed.

(** The pointer that is changed is not in these objects. *)
Definition apart (o_p : link) (l : list oid) : Prop := ∀ q, o_p = NextOf q → q ∉ l.

(** The objects of the list are unmarked or freed, others stay. *)
Record swept (h h' : heap) (o_p : link) (l : list oid) : Prop := {
  sw_in p : p ∈ l → set_next None <$> h' !! p = if marked_at h p then (λ ob, set_next None (set_marked false ob)) <$> h !! p else None;
  sw_owner p : p ∉ l → set_next None <$> h' !! p = set_next None <$> h !! p;
  sw_out p : p ∉ l → o_p ≠ NextOf p → h' !! p = h !! p;
}.

Definition counted (st st' : gc_state) (l : list oid) : Prop :=
  live_objects st' = live_objects st + lenZ (survivors (gc_heap st) l)
  ∧ number_of_objects st' = number_of_objects st - (lenZ l - lenZ (survivors (gc_heap st) l))
  ∧ root_set st' = root_set st ∧ gc_scheduled st' = gc_scheduled st.

Lemma survivors_length h l : lenZ (survivors h l) <= lenZ l.
Proof. unfold survivors, lenZ. pose proof (length_filter (λ p, marked_at h p = true) l). lia. Qed.

Lemma write_link_spec st o_p v :
  (∃ o, read_link st o_p = Ok o) →
  ∃ st', write_link st o_p v = Ok st' ∧ read_link st' o_p = Ok v
    ∧ (∀ p, o_p ≠ NextOf p → gc_heap st' !! p = gc_heap st !! p)
    ∧ (∀ p, set_next None <$> gc_heap st' !! p = set_next None <$> gc_heap st !! p)
    ∧ live_objects st' = live_objects st ∧ number_of_objects st' = number_of_objects st ∧ root_set st' = root_set st ∧ gc_scheduled st' = gc_scheduled st
    ∧ (o_p ≠ AllObjects → all_objects st' = all_objects st).
Proof.
  intros [o Hr]. destruct o_p as [| q]; cbn [write_link read_link] in *.
  - eexists. split; [done |]. by split_and!.
  - unfold object_at in *. destruct (gc_heap st !! q) as [ob |] eqn:Hq; [| done]. cbn [deref] in *. rewrite bind_ok_l. eexists. split; [done |]. simpl.
    rewrite lookup_insert_eq. split; [done |]. split.
    { intros p Hne. rewrite lookup_insert_ne; [done |]. congruence. }
    split; [| by split_and!]. intros p. destruct (decide (p = q)) as [-> | Hne]; [by rewrite lookup_insert_eq, Hq | by rewrite lookup_insert_ne].
Qed.

Lemma read_link_ext st st' o_p :
  (o_p = AllObjects → all_objects st' = all_objects st) → (∀ p, o_p = NextOf p → gc_heap st' !! p = gc_heap st !! p) →
  read_link st' o_p = read_link st o_p.
Proof. intros Ha Hh. destruct o_p as [| q]; simpl; [by rewrite Ha |]. unfold object_at. by rewrite Hh. Qed.

(** The rest of the list has been swept from this pointer on. *)
Record sweeps (st : gc_state) (o_p : link) (l : list oid) (st' : gc_state) : Prop := {
  ss_chain : ∃ o, read_link st' o_p = Ok o ∧ chain (gc_heap st') o (survivors (gc_heap st) l);
  ss_swept : swept (gc_heap st) (gc_heap st') o_p l;
  ss_counted : counted st st' l;
  ss_all : o_p ≠ AllObjects → all_objects st' = all_objects st;
}.

Lemma sweeps_nil st o_p : read_link st o_p = Ok None → sweeps st o_p [] st.
Proof.
  intros Hr. split; [by exists None | split; [by intros ? ?%not_elem_of_nil | done | done] | | done].
  unfold counted. change (survivors (gc_heap st) []) with (@nil oid). change (lenZ (@nil oid)) with 0. split_and!; [lia | lia | done | done].
Qed.

(** A marked object is unmarked and stays. *)
Definition unmark (st : gc_state) (p : oid) (ob : lsh_object) : gc_state :=
  with_heap (<[p := set_marked false ob]> (gc_heap st)) (with_live (u32 (live_objects st + 1)) st).

Lemma sweeps_kept st o_p p ob l st' :
  read_link st o_p = Ok (Some p) → gc_heap st !! p = Some ob → ob_alloc_method ob = LSH_ALLOC_HEAP → ob_marked ob = true →
  p ∉ l → apart o_p (p :: l) → 0 <= live_objects st < 2 ^ 32 - 1 →
  sweeps (unmark st p ob) (NextOf p) l st' → sweeps st o_p (p :: l) st'.
Proof.
  intros Hr Hp Hal Hmk Hpl Hap Hlive [(o & Hr' & Hc') [Hsi Hso Hsx] (Hlv & Hnm & Hrt & Hsc) Hall]. set (st1 := unmark st p ob) in *.
  assert (marked_at (gc_heap st) p = true) as Hmp by (unfold marked_at; by rewrite Hp).
  assert (∀ q, q ≠ p → gc_heap st1 !! q = gc_heap st !! q) as Hout by (intros q Hq; simpl; by rewrite lookup_insert_ne).
  assert (∀ q, q ∈ l → gc_heap st1 !! q = gc_heap st !! q) as Hin by (intros q Hq; apply Hout; by intros ->).
  rewrite (survivors_ext (gc_heap st)) in Hlv, Hnm, Hc' by done. pose proof (Hso p Hpl) as Hsp.
  cbn [read_link] in Hr'. unfold object_at in Hr'. destruct (gc_heap st' !! p) as [ob' |] eqn:Hp'; [| done]. injection Hr' as Hr'.
  simpl in Hsp. rewrite lookup_insert_eq in Hsp. injection Hsp as Hrefs Ha Hm Hd. split.
  - exists (Some p). split.
    + rewrite <- Hr. apply read_link_ext; [intros ->; by rewrite Hall |]. intros q ->. specialize (Hap q eq_refl). apply not_elem_of_cons in Hap as [Hqp Hql].
      rewrite Hsx, Hout; [done | done | done | congruence].
    + rewrite survivors_cons, Hmp. split; [done |]. exists ob'. split; [done |]. split; [by rewrite Ha | by rewrite Hr'].
  - split.
    + intros q [-> | Hq]%elem_of_cons; [| rewrite (Hsi q Hq); unfold marked_at; by rewrite (Hin q Hq)].
      rewrite Hmp, Hp, Hp'. simpl. f_equal. destruct ob, ob'. simpl in *. by subst.
    + intros q [Hqp Hql]%not_elem_of_cons. by rewrite (Hso q Hql), Hout.
    + intros q [Hqp Hql]%not_elem_of_cons Hx. rewrite Hsx; [by apply Hout | done | congruence].
  - unfold counted. rewrite survivors_cons, Hmp, !lenZ_cons. assert (live_objects st1 = live_objects st + 1) as Hl1 by (apply u32_id; unfold is_u32; lia).
    change (number_of_objects st1) with (number_of_objects st) in Hnm. split_and!; [lia | lia | done | done].
  - intros Hx. by rewrite Hall.
Qed.

(** An unmarked object is unlinked and freed. *)
Lemma sweeps_freed st o_p p ob l :
  read_link st o_p = Ok (Some p) → gc_heap st !! p = Some ob → ob_alloc_method ob = LSH_ALLOC_HEAP → ob_marked ob = false →
  p ∉ l → apart o_p (p :: l) → 0 < number_of_objects st < 2 ^ 32 →
  ∃ st1, (st ← write_link st o_p (ob_next ob); lsh_object_free (with_number (u32 (number_of_objects st - 1)) st) p) = Ok st1
    ∧ read_link st1 o_p = Ok (ob_next ob) ∧ (∀ q, q ∈ l → gc_heap st1 !! q = gc_heap st !! q)
    ∧ live_objects st1 = live_objects st ∧ number_of_objects st1 = number_of_objects st - 1
    ∧ ∀ st', sweeps st1 o_p l st' → sweeps st o_p (p :: l) st'.
Proof.
  intros Hr Hp Hal Hmk Hpl Hap Hnum.
  destruct (write_link_spec st o_p (ob_next ob)) as (st1 & -> & Hr1 & Hx1 & Hn1 & Hl1 & Hnum1 & Hroot1 & Hsch1 & Hall1); [by eexists |]. rewrite bind_ok_l.
  assert (o_p ≠ NextOf p) as Hop by (intros Hx; specialize (Hap p Hx); apply not_elem_of_cons in Hap as [? _]; done).
  assert (gc_heap st1 !! p = Some ob) as Hp1 by by rewrite Hx1.
  unfold lsh_object_free, object_at. cbn [gc_heap with_number]. rewrite Hp1. cbn [deref]. rewrite bind_ok_l, Hal. eexists. split; [done |].
  set (st3 := with_heap _ _). assert (gc_heap st3 = delete p (gc_heap st1)) as Hh3 by done.
  assert (∀ q, q ≠ p → o_p ≠ NextOf q → gc_heap st3 !! q = gc_heap st !! q) as Hout by (intros q Hq Hx; rewrite Hh3, lookup_delete_ne by done; by apply Hx1).
  assert (∀ q, q ∈ l → gc_heap st3 !! q = gc_heap st !! q) as Hin.
  { intros q Hq. apply Hout; [by intros -> |]. intros Hx. specialize (Hap q Hx). apply Hap. by right. }
  assert (number_of_objects st3 = number_of_objects st - 1) as Hnum3 by (simpl; rewrite Hnum1; apply u32_id; unfold is_u32; lia).
  assert (marked_at (gc_heap st) p = false) as Hmp by (unfold marked_at; by rewrite Hp).
  split. { rewrite <- Hr1. apply read_link_ext; [done |]. intros q ->. rewrite Hh3, lookup_delete_ne; [done | congruence]. }
  split; [done |]. split; [done |]. split; [done |]. intros st' [(o & Hr' & Hc') [Hsi Hso Hsx] (Hlv & Hnm & Hrt & Hsc) Hall].
  rewrite (survivors_ext (gc_heap st)) in Hlv, Hnm, Hc' by done. split.
  - exists o. split; [done |]. by rewrite survivors_cons, Hmp.
  - split.
    + intros q [-> | Hq]%elem_of_cons; [by rewrite Hmp, (Hso p Hpl), Hh3, lookup_delete_eq |]. rewrite (Hsi q Hq). unfold marked_at. by rewrite (Hin q Hq).
    + intros q [Hqp Hql]%not_elem_of_cons. rewrite (Hso q Hql), Hh3, lookup_delete_ne by done. apply Hn1.
    + intros q [Hqp Hql]%not_elem_of_cons Hx. rewrite Hsx by done. by apply Hout.
  - unfold counted. rewrite survivors_cons, Hmp, lenZ_cons. change (live_objects st3) with (live_objects st1) in Hlv.
    change (root_set st3) with (root_set st1) in Hrt. change (gc_scheduled st3) with (gc_scheduled st1) in Hsc. split_and!; [lia | lia | congruence | congruence].
  - intros Hx. rewrite Hall by done. by apply Hall1.
Qed.

Lemma sweep_loop_spec l : ∀ fuel st o_p o,
  read_link st o_p = Ok o → chain (gc_heap st) o l → NoDup l → apart o_p l → (length l <= fuel)%nat →
  0 <= live_objects st → live_objects st + lenZ l < 2 ^ 32 → lenZ l <= number_of_objects st < 2 ^ 32 →
  ∃ st', sweep_loop fuel st o_p = Ok st' ∧ sweeps st o_p l st'.
Proof.
  induction l as [| p l IH]; intros fuel st o_p o Hr Hc Hnd Hap Hf Hl0 Hl Hn.
  { simpl in Hc. subst o. exists st. split; [destruct fuel; simpl; by rewrite Hr | by apply sweeps_nil]. }
  destruct Hc as (-> & ob & Hp & Hal & Hc). apply NoDup_cons in Hnd as [Hpl Hnd]. rewrite lenZ_cons in *. pose proof (lenZ_nonneg l) as Hl1.
  destruct fuel as [| fuel]; [simpl in Hf; lia |]. simpl in Hf. cbn [sweep_loop]. rewrite Hr, bind_ok_l. unfold object_at at 1. rewrite Hp. cbn [deref].
  rewrite bind_ok_l. destruct (ob_marked ob) eqn:Hmk.
  - destruct (IH fuel (unmark st p ob) (NextOf p) (ob_next ob)) as (st' & Hrun & Hs).
    { cbn [read_link]. unfold object_at. simpl. by rewrite lookup_insert_eq. }
    { eapply chain_ext; [| exact Hc]. intros q Hq. simpl. rewrite lookup_insert_ne; [done | by intros ->]. }
    { done. } { by intros q [= <-]. } { lia. }
    { simpl. rewrite u32_id by (unfold is_u32; lia). lia. } { simpl. rewrite u32_id by (unfold is_u32; lia). lia. } { simpl. lia. }
    exists st'. split; [exact Hrun |]. eapply sweeps_kept; eauto. lia.
  - destruct (sweeps_freed st o_p p ob l Hr Hp Hal Hmk Hpl Hap) as (st1 & Hrun1 & Hr1 & Hin & Hl2 & Hn2 & Hback); [lia |].
    destruct (write_link st o_p (ob_next ob)) as [st0 |]; [| done]. rewrite bind_ok_l in Hrun1 |- *. rewrite Hrun1, bind_ok_l.
    destruct (IH fuel st1 o_p (ob_next ob) Hr1) as (st' & Hrun & Hs); [by eapply chain_ext | done | | lia | lia | lia | lia |].
    { intros q Hq Hx. apply (Hap q Hq). by right. }
    exists st'. split; [exact Hrun | by apply Hback].
Qed.

(** ** A collection *)

(** The chain holds all allocated objects, and nothing is marked. *)
Record gc_wf (st : gc_state) (l : list oid) : Prop := {
  gw_chain : chain (gc_heap st) (all_objects st) l;
  gw_nodup : NoDup l;
  gw_all p ob : gc_heap st !! p = Some ob → ob_alloc_method ob = LSH_ALLOC_HEAP → p ∈ l;
  gw_number : number_of_objects st = lenZ l;
  gw_small : lenZ l < 2 ^ 32;
  gw_unmarked p : ¬ is_marked (gc_heap st) p;
  gw_static : static_plain (gc_heap st);
}.

Lemma chain_objects h o l p : chain h o l → p ∈ l → ∃ ob, h !! p = Some ob ∧ ob_alloc_method ob = LSH_ALLOC_HEAP.
Proof.
  revert o. induction l as [| q l IH]; intros o Hc Hp; [by apply not_elem_of_nil in Hp |]. destruct Hc as (_ & ob & Hq & Ha & Hc).
  apply elem_of_cons in Hp as [-> | Hp]; [by exists ob | by eapply IH].
Qed.

Lemma chain_size h o l : chain h o l → NoDup l → (length l <= size h)%nat.
Proof.
  intros Hc Hnd. rewrite <- size_dom, <- (size_list_to_set (C := gset oid)) by done. apply subseteq_size. intros p Hp. apply elem_of_list_to_set in Hp.
  destruct (chain_objects _ _ _ _ Hc Hp) as (ob & Hob & _). by apply elem_of_dom.
Qed.

(** An object without its place in the chain. *)
Abbreviation same_object h h' p := (set_next None <$> h' !! p = set_next None <$> h !! p).

(** What a collection does. *)
Record collected (st st' : gc_state) (l l' : list oid) : Prop := {
  co_kept p : reach (gc_heap st) (root_set st) p → same_object (gc_heap st) (gc_heap st') p;
  co_static p ob : gc_heap st !! p = Some ob → ob_alloc_method ob = LSH_ALLOC_STATIC → same_object (gc_heap st) (gc_heap st') p;
  co_freed p ob : gc_heap st !! p = Some ob → ob_alloc_method ob = LSH_ALLOC_HEAP → ¬ reach (gc_heap st) (root_set st) p → gc_heap st' !! p = None;
  co_new p : gc_heap st !! p = None → gc_heap st' !! p = None;
  co_order : l' `sublist_of` l;
  co_list p : p ∈ l' ↔ p ∈ l ∧ reach (gc_heap st) (root_set st) p;
  co_live : live_objects st' = lenZ l';
  co_root : root_set st' = root_set st;
  co_scheduled : gc_scheduled st' = gc_scheduled st;
}.

Lemma static_apart st l p ob : gc_wf st l → gc_heap st !! p = Some ob → ob_alloc_method ob = LSH_ALLOC_STATIC → p ∉ l.
Proof. intros Hw Hp Ha Hin. destruct (chain_objects _ _ _ _ (gw_chain _ _ Hw) Hin) as (ob' & Hob & Ha'). congruence. Qed.

Lemma gc_mark_returns st l :
  gc_wf st l → roots_alive (gc_heap st) (root_set st) →
  ∃ h, gc_mark (S (size (gc_heap st))) (gc_heap st) (root_set st) = Ok h ∧ marks_more (gc_heap st) h
    ∧ ∀ p, p ∈ l → is_marked h p ↔ reach (gc_heap st) (root_set st) p.
Proof.
  intros Hw Ha. destruct (gc_mark_spec (S (size (gc_heap st))) (gc_heap st) (root_set st) (gw_static _ _ Hw) Ha) as (h & -> & Hmf).
  { unfold unmarked. rewrite size_dom. pose proof (map_size_filter (λ x : oid * lsh_object, ob_alloc_method x.2 = LSH_ALLOC_HEAP ∧ ob_marked x.2 = false) (gc_heap st)). lia. }
  exists h. split; [done |]. split; [apply Hmf |]. intros p Hp.
  rewrite (marked_reachable (gc_heap st) h (root_set st) p (gw_static _ _ Hw) (gw_unmarked _ _ Hw) Hmf). split; [by intros [? _] |]. intros Hr. split; [done |].
  destruct (chain_objects _ _ _ _ (gw_chain _ _ Hw) Hp) as (ob & Hob & Hal). exists ob. split; [done | by left].
Qed.

Lemma chain_marks h h' o l : marks_more h h' → chain h o l → chain h' o l.
Proof.
  intros Hm. revert o. induction l as [| p l IH]; intros o; [done |]. intros (-> & ob & Hp & Ha & Hc). split; [done |].
  destruct (marks_more_lookup _ _ _ _ Hm Hp) as [b Hp']. exists (set_marked b ob). split; [done |]. split; [done |]. by apply IH.
Qed.

Lemma marks_more_size h h' : marks_more h h' → size h' = size h.
Proof.
  intros Hm. rewrite <- !size_dom. f_equal. apply set_eq. intros p. rewrite !elem_of_dom. pose proof (mm_same _ _ Hm p) as Hs.
  destruct (h !! p), (h' !! p); try done; split; intros [? ?]; done.
Qed.

Lemma gc_sweep_spec st l h :
  gc_wf st l → marks_more (gc_heap st) h →
  ∃ st', gc_sweep (with_heap h st) = Ok st' ∧ sweeps (with_live 0 (with_heap h st)) AllObjects l st'.
Proof.
  intros Hw Hm. unfold gc_sweep. change (gc_heap (with_heap h st)) with h. rewrite (marks_more_size _ _ Hm).
  set (st1 := with_live 0 (with_heap h st)). pose proof (lenZ_nonneg l).
  destruct (sweep_loop_spec l (size (gc_heap st)) st1 AllObjects (all_objects st)) as (st' & -> & Hs).
  - done.
  - simpl. eapply chain_marks; [done | apply Hw].
  - apply Hw.
  - done.
  - eapply chain_size; [apply Hw | apply Hw].
  - simpl. lia.
  - simpl. pose proof (gw_small _ _ Hw). lia.
  - simpl. rewrite (gw_number _ _ Hw). pose proof (gw_small _ _ Hw). lia.
  - rewrite bind_ok_l. destruct (ss_counted _ _ _ _ Hs) as (Hlv & Hnm & _). simpl in Hlv, Hnm. rewrite (gw_number _ _ Hw) in Hnm.
    rewrite c_assert_true, bind_ok_l by lia. by exists st'.
Qed.

(** The objects after marking and sweeping. *)
Lemma swept_object st l h st' p ob :
  gc_wf st l → marks_more (gc_heap st) h → sweeps (with_live 0 (with_heap h st)) AllObjects l st' →
  gc_heap st !! p = Some ob → (p ∈ l → is_marked h p) → same_object (gc_heap st) (gc_heap st') p.
Proof.
  intros Hw Hm [_ [Hsi Hso _] _ _] Hp Hk. simpl in *. destruct (marks_more_lookup _ _ _ _ Hm Hp) as [b Hb]. pose proof (gw_unmarked _ _ Hw p) as Hun.
  assert (set_marked false ob = ob) as Hf.
  { destruct (ob_marked ob) eqn:Hmk; [by destruct Hun; exists ob |]. destruct ob. simpl in *. by subst. }
  destruct (decide (p ∈ l)) as [Hin | Hout].
  - rewrite (Hsi p Hin). rewrite (proj2 (marked_at_spec h p) (Hk Hin)), Hb, Hp. simpl. f_equal. rewrite <- Hf at 2. done.
  - rewrite (Hso p Hout), Hb, Hp. simpl. f_equal. f_equal. assert (¬ is_marked h p) as Hnm.
    { intros Hmk. destruct (mm_heap _ _ Hm p Hmk) as [? | (ob' & Hob' & Ha)]; [done |]. apply Hout. by eapply gw_all. }
    destruct b; [| done]. destruct Hnm. by exists (set_marked true ob).
Qed.

Lemma swept_gone st l h st' p :
  gc_wf st l → sweeps (with_live 0 (with_heap h st)) AllObjects l st' → p ∈ l → ¬ is_marked h p → gc_heap st' !! p = None.
Proof.
  intros Hw [_ [Hsi _ _] _ _] Hp Hk. simpl in *. specialize (Hsi p Hp). destruct (marked_at h p) eqn:Hm; [by apply marked_at_spec in Hm |].
  by destruct (gc_heap st' !! p).
Qed.

Lemma swept_new st h l st' p : gc_wf st l → marks_more (gc_heap st) h → sweeps (with_live 0 (with_heap h st)) AllObjects l st' → gc_heap st !! p = None → gc_heap st' !! p = None.
Proof.
  intros Hw Hm [_ [_ Hso _] _ _] Hp. simpl in *. assert (p ∉ l) as Hout.
  { intros Hin. destruct (chain_objects _ _ _ _ (gw_chain _ _ Hw) Hin) as (ob & Hob & _). congruence. }
  specialize (Hso p Hout). pose proof (mm_same _ _ Hm p) as Hs. rewrite Hp in Hs. destruct (h !! p); [done |]. by destruct (gc_heap st' !! p).
Qed.

(** Paths depend on the objects without the chain. *)
Lemma reach_same h h' r :
  (∀ p, reach h r p → same_object h h' p) → ∀ p, reach h r p ↔ reach h' r p.
Proof.
  intros Hsame. assert (∀ x, reach h r x → ∀ y, edge h x y ↔ edge h' x y) as Hedge.
  { intros x Hx y. specialize (Hsame x Hx). unfold edge. destruct (h !! x) as [ob |], (h' !! x) as [ob' |]; try done.
    injection Hsame as Hr _ _ _. split; intros (o & [= <-] & Hin); eexists; (split; [done |]); congruence. }
  assert (∀ x p, rtc (edge h) x p → reach h r x → rtc (edge h') x p) as Hto.
  { induction 1 as [| x y z He Hpath IH]; intros Hx; [done |]. eapply rtc_l; [by apply Hedge |]. apply IH.
    destruct Hx as (s & -> & Hs). exists s. split; [done |]. by eapply rtc_r. }
  assert (∀ x p, rtc (edge h') x p → reach h r x → rtc (edge h) x p) as Hfrom.
  { induction 1 as [| x y z He Hpath IH]; intros Hx; [done |]. apply (Hedge x Hx) in He. eapply rtc_l; [done |]. apply IH.
    destruct Hx as (s & -> & Hs). exists s. split; [done |]. by eapply rtc_r. }
  intros p. split; intros (s & -> & Hs); exists s; (split; [done |]); [apply Hto | apply Hfrom]; try done; by exists s.
Qed.

Lemma gc_collected st l h st' :
  gc_wf st l → roots_alive (gc_heap st) (root_set st) → marks_more (gc_heap st) h → (∀ p, p ∈ l → is_marked h p ↔ reach (gc_heap st) (root_set st) p) →
  sweeps (with_live 0 (with_heap h st)) AllObjects l st' → collected st st' l (survivors h l).
Proof.
  intros Hw Ha Hm Hk Hs. pose proof (ss_counted _ _ _ _ Hs) as (Hlv & _ & Hrt & Hsc). simpl in Hlv, Hrt, Hsc. split.
  - intros p Hp. destruct (Ha p Hp) as (ob & Hob & _). eapply swept_object; try done. intros Hin. by apply Hk.
  - intros p ob Hob Hst. eapply swept_object; try done. intros Hin. by destruct (static_apart _ _ _ _ Hw Hob Hst).
  - intros p ob Hob Hal Hno. assert (p ∈ l) as Hin by by eapply gw_all. eapply swept_gone; try done. by rewrite Hk.
  - intros p Hp. by eapply swept_new.
  - apply sublist_filter.
  - intros p. unfold survivors. rewrite list_elem_of_filter, marked_at_spec. split; [intros [Hmk Hin] | intros [Hin Hr]]; (split; [try done |]); try done; by apply Hk.
  - lia.
  - done.
  - done.
Qed.

(** Every object that is left is the same as before. *)
Lemma collected_same st st' l l' p ob' :
  gc_wf st l → collected st st' l l' → gc_heap st' !! p = Some ob' →
  same_object (gc_heap st) (gc_heap st') p ∧ (ob_alloc_method ob' = LSH_ALLOC_HEAP → p ∈ l').
Proof.
  intros Hw Hc Hp'. destruct (gc_heap st !! p) as [ob |] eqn:Hp; [| by rewrite (co_new _ _ _ _ Hc p Hp) in Hp'].
  destruct (ob_alloc_method ob) eqn:Hal.
  - assert (p ∈ l') as Hin.
    { destruct (decide (p ∈ l')) as [? | Hno]; [done |]. rewrite (co_freed _ _ _ _ Hc p ob Hp Hal) in Hp'; [done |]. intros Hr. apply Hno, (co_list _ _ _ _ Hc).
      split; [by eapply gw_all | done]. }
    split; [| done]. rewrite <- Hp. apply (co_kept _ _ _ _ Hc). by apply (co_list _ _ _ _ Hc).
  - pose proof (co_static _ _ _ _ Hc p ob Hp Hal) as Hsame. rewrite Hp in Hsame. split; [done |]. rewrite Hp' in Hsame. injection Hsame as _ Ha _ _. congruence.
Qed.

Lemma collected_wf st st' l l' :
  gc_wf st l → collected st st' l l' → chain (gc_heap st') (all_objects st') l' → number_of_objects st' = lenZ l' → gc_wf st' l'.
Proof.
  intros Hw Hc Hch Hn. split.
  - done.
  - eapply sublist_NoDup; [apply Hw | apply Hc].
  - intros p ob Hp Ha. by apply (collected_same st st' l l' p ob).
  - done.
  - pose proof (sublist_length _ _ (co_order _ _ _ _ Hc)). pose proof (gw_small _ _ Hw). unfold lenZ in *. lia.
  - intros p (ob' & Hp' & Hmk). destruct (collected_same _ _ _ _ _ _ Hw Hc Hp') as [Hsame _]. rewrite Hp' in Hsame.
    destruct (gc_heap st !! p) as [ob |] eqn:Hp; [| done]. injection Hsame as _ _ Hm _. apply (gw_unmarked _ _ Hw p). exists ob. split; [done | congruence].
  - intros p ob' Hp' Ha. destruct (collected_same _ _ _ _ _ _ Hw Hc Hp') as [Hsame _]. rewrite Hp' in Hsame.
    destruct (gc_heap st !! p) as [ob |] eqn:Hp; [| done]. injection Hsame as Hr Ha' _ _. rewrite Hr. apply (gw_static _ _ Hw p); [done | congruence].
Qed.

Lemma gc_spec st l :
  gc_wf st l → roots_alive (gc_heap st) (root_set st) →
  ∃ st' l', gc st = Ok st' ∧ gc_wf st' l' ∧ roots_alive (gc_heap st') (root_set st') ∧ collected st st' l l'.
Proof.
  intros Hw Ha. unfold gc. destruct (gc_mark_returns st l Hw Ha) as (h & -> & Hm & Hk). rewrite bind_ok_l.
  destruct (gc_sweep_spec st l h Hw Hm) as (st' & -> & Hs). pose proof (gc_collected st l h st' Hw Ha Hm Hk Hs) as Hc.
  exists st', (survivors h l). split; [done |]. split; [| split; [| done]].
  - destruct (ss_chain _ _ _ _ Hs) as (o & [= <-] & Hch). eapply collected_wf; [done | done | exact Hch |].
    pose proof (ss_counted _ _ _ _ Hs) as (_ & Hnm & _). simpl in Hnm. rewrite (gw_number _ _ Hw) in Hnm. lia.
  - rewrite (co_root _ _ _ _ Hc). intros p Hp. rewrite <- (reach_same (gc_heap st)) in Hp by apply Hc. pose proof (co_kept _ _ _ _ Hc p Hp) as Hsame.
    destruct (Ha p Hp) as (ob & Hob & Hd). rewrite Hob in Hsame. destruct (gc_heap st' !! p) as [ob' |]; [| done]. injection Hsame as _ _ _ Hd'.
    exists ob'. split; [done | congruence].
Qed.

(** C25: a collection frees exactly the garbage.  If what is reachable from the
    root set is there and alive, [gc] returns; every reachable object and every
    static object is as before but for its place in the chain; every allocated
    object that is not reachable is freed; the chain keeps its order and holds
    what is left, with nothing marked and both counters exact. *)
Theorem gc_correct st l :
  gc_wf st l → roots_alive (gc_heap st) (root_set st) →
  ∃ st' l', gc st = Ok st' ∧ gc_wf st' l' ∧ roots_alive (gc_heap st') (root_set st') ∧ collected st st' l l'.
Proof.
  intros Hw Ha. by apply gc_spec.
Qed.

(** ** The program and the collector *)

Definition gc_inv (st : gc_state) : Prop := (∃ l, gc_wf st l) ∧ roots_alive (gc_heap st) (root_set st).

Definition with_root (r : option oid) (st : gc_state) : gc_state :=
  mk_gc_state (gc_heap st) (all_objects st) (number_of_objects st) (live_objects st) r (gc_scheduled st).

(** What happens to the objects: one is made, killed when it is not reachable
    any more, or gets other references; the root set changes; the event loop
    calls the collector.  The program may store any pointers that leave the
    reachable objects alive. *)
Inductive gc_step (st : gc_state) : gc_state → Prop :=
  | step_register p refs :
      gc_heap st !! p = None → number_of_objects st < 2 ^ 32 - 1 → gc_step st (gc_register st p refs)
  | step_kill p ob st' :
      gc_heap st !! p = Some ob → ob_dead ob = false → ¬ reach (gc_heap st) (root_set st) p → gc_kill st (Some p) = Ok st' → gc_step st st'
  | step_store p ob refs :
      gc_heap st !! p = Some ob → ob_alloc_method ob = LSH_ALLOC_HEAP →
      roots_alive (<[p := set_refs refs ob]> (gc_heap st)) (root_set st) → gc_step st (with_heap (<[p := set_refs refs ob]> (gc_heap st)) st)
  | step_root r : roots_alive (gc_heap st) r → gc_step st (with_root r st)
  | step_collect st' : gc_scheduled st = true → do_gc st = Ok st' → gc_step st st'.

(** Objects that are not reachable do not matter. *)
Lemma alive_apart h h' r :
  (∀ p, reach h r p → h' !! p = h !! p) → roots_alive h r → roots_alive h' r.
Proof.
  intros Hsame Ha p Hp. rewrite <- (reach_same h h') in Hp by (intros q Hq; by rewrite Hsame). rewrite (Hsame p Hp). by apply Ha.
Qed.

Lemma chain_insert_apart h o l p ob : p ∉ l → chain h o l → chain (<[p := ob]> h) o l.
Proof. intros Hp. apply chain_ext. intros q Hq. rewrite lookup_insert_ne; [done | by intros ->]. Qed.

Lemma register_inv st p refs :
  gc_inv st → gc_heap st !! p = None → number_of_objects st < 2 ^ 32 - 1 → gc_inv (gc_register st p refs).
Proof.
  intros [[l Hw] Ha] Hp Hn. rewrite (gw_number _ _ Hw) in Hn. pose proof (lenZ_nonneg l).
  assert (p ∉ l) as Hpl by (intros Hin; destruct (chain_objects _ _ _ _ (gw_chain _ _ Hw) Hin) as (ob & Hob & _); congruence).
  set (ob := mk_object (all_objects st) refs LSH_ALLOC_HEAP false false). set (h := <[p := ob]> (gc_heap st)).
  assert (∃ b, gc_register st p refs = mk_gc_state h (Some p) (lenZ l + 1) (live_objects st) (root_set st) b) as [b ->].
  { unfold gc_register. fold ob h. simpl. rewrite (gw_number _ _ Hw), (u32_id (lenZ l + 1)) by (unfold is_u32; lia). destruct (_ && _); by eexists. }
  split; [exists (p :: l) |]; simpl.
  - split; simpl.
    + split; [done |]. exists ob. split; [apply lookup_insert_eq |]. split; [done |]. apply chain_insert_apart; [done | apply Hw].
    + constructor; [done | apply Hw].
    + intros q o Hq Hal. destruct (decide (q = p)) as [-> | Hne]; [left | right]. unfold h in Hq. rewrite lookup_insert_ne in Hq by done. by eapply gw_all.
    + rewrite lenZ_cons. lia.
    + rewrite lenZ_cons. lia.
    + intros q (o & Hq & Hm). destruct (decide (q = p)) as [-> | Hne]; [unfold h in Hq; rewrite lookup_insert_eq in Hq; by injection Hq as <- |].
      unfold h in Hq. rewrite lookup_insert_ne in Hq by done. apply (gw_unmarked _ _ Hw q). by exists o.
    + intros q o Hq Hal. destruct (decide (q = p)) as [-> | Hne]; [unfold h in Hq; rewrite lookup_insert_eq in Hq; by injection Hq as <- |].
      unfold h in Hq. rewrite lookup_insert_ne in Hq by done. by eapply gw_static.
  - eapply alive_apart; [| exact Ha]. intros q Hq. unfold h. rewrite lookup_insert_ne; [done |]. intros <-. destruct (Ha p Hq) as (o & Ho & _). congruence.
Qed.

(** Changing an object but for its header keeps the chain. *)
Lemma wf_insert st l p ob ob' :
  gc_wf st l → gc_heap st !! p = Some ob → ob_next ob' = ob_next ob → ob_alloc_method ob' = ob_alloc_method ob → ob_marked ob' = ob_marked ob →
  (ob_alloc_method ob = LSH_ALLOC_STATIC → ob_refs ob' = ob_refs ob) → gc_wf (with_heap (<[p := ob']> (gc_heap st)) st) l.
Proof.
  intros Hw Hp Hnx Hal Hmk Hst. assert (∀ q o, <[p := ob']> (gc_heap st) !! q = Some o → ∃ o0, gc_heap st !! q = Some o0
    ∧ ob_alloc_method o = ob_alloc_method o0 ∧ ob_marked o = ob_marked o0 ∧ (ob_alloc_method o = LSH_ALLOC_STATIC → ob_refs o = ob_refs o0)) as Hback.
  { intros q o Hq. destruct (decide (q = p)) as [-> | Hne].
    - rewrite lookup_insert_eq in Hq. injection Hq as <-. exists ob. split; [done |]. split; [done |]. split; [done |]. rewrite Hal. done.
    - rewrite lookup_insert_ne in Hq by done. by exists o. }
  split; simpl; try apply Hw.
  - pose proof (gw_chain _ _ Hw) as Hc. revert Hc. generalize (all_objects st). clear Hw Hback. induction l as [| q l IH]; intros o; [done |].
    intros (-> & oq & Hq & Haq & Hc). split; [done |]. destruct (decide (q = p)) as [-> | Hne].
    + exists ob'. simplify_eq. split; [apply lookup_insert_eq |]. split; [congruence |]. rewrite Hnx. by apply IH.
    + exists oq. rewrite lookup_insert_ne by done. split; [done |]. split; [done |]. by apply IH.
  - intros q o Hq Ha. destruct (Hback q o Hq) as (o0 & Hq0 & Ha0 & _). eapply (gw_all _ _ Hw); [done | congruence].
  - intros q (o & Hq & Hm). destruct (Hback q o Hq) as (o0 & Hq0 & _ & Hm0 & _). apply (gw_unmarked _ _ Hw q). exists o0. split; [done | congruence].
  - intros q o Hq Ha. destruct (Hback q o Hq) as (o0 & Hq0 & Ha0 & _ & Hr0). rewrite (Hr0 Ha). apply (gw_static _ _ Hw q); [done | congruence].
Qed.

Lemma wf_drop_head st l p ob :
  gc_wf st (p :: l) → gc_heap st !! p = Some ob →
  gc_wf (mk_gc_state (delete p (gc_heap st)) (ob_next ob) (lenZ l) (live_objects st) (root_set st) (gc_scheduled st)) l.
Proof.
  intros Hw Hp. destruct (gw_chain _ _ Hw) as (_ & ob0 & Hp0 & Hal & Hc). simplify_eq. pose proof (gw_nodup _ _ Hw) as Hnd. apply NoDup_cons in Hnd as [Hpl Hnd].
  assert (∀ q o, delete p (gc_heap st) !! q = Some o → q ≠ p ∧ gc_heap st !! q = Some o) as Hback by (intros q o Hq; by apply lookup_delete_Some in Hq as [Hne Hq]).
  split; simpl.
  - eapply chain_ext; [| exact Hc]. intros q Hq. rewrite lookup_delete_ne; [done | by intros ->].
  - done.
  - intros q o [Hne Hq]%Hback Ha. pose proof (gw_all _ _ Hw q o Hq Ha) as [? | ?]%elem_of_cons; done.
  - done.
  - pose proof (gw_small _ _ Hw) as Hs. rewrite lenZ_cons in Hs. lia.
  - intros q (o & [_ Hq]%Hback & Hm). apply (gw_unmarked _ _ Hw q). by exists o.
  - intros q o [_ Hq]%Hback. by apply (gw_static _ _ Hw q).
Qed.

Lemma kill_inv st p ob :
  gc_inv st → gc_heap st !! p = Some ob → ob_dead ob = false → ¬ reach (gc_heap st) (root_set st) p →
  ∃ st', gc_kill st (Some p) = Ok st' ∧ gc_inv st'.
Proof.
  intros [[l Hw] Ha] Hp Hd Hno. unfold gc_kill, object_at. rewrite Hp. cbn [deref]. rewrite bind_ok_l, Hd. cbn [negb c_assert]. rewrite bind_ok_l.
  set (st1 := with_heap _ st). assert (gc_wf st1 l) as Hw1 by (eapply wf_insert; eauto).
  assert (∀ h', (∀ q, q ≠ p → h' !! q = gc_heap st !! q) → roots_alive h' (root_set st)) as Halive.
  { intros h' Hh. eapply alive_apart; [| exact Ha]. intros q Hq. apply Hh. by intros ->. }
  change (all_objects st1) with (all_objects st). destruct (bool_decide_reflect (all_objects st = Some p)) as [Hall | Hall].
  - destruct l as [| q l]; [pose proof (gw_chain _ _ Hw) as Hc; simpl in Hc; congruence |].
    pose proof (gw_chain _ _ Hw) as (Hq & obq & Hobq & Halq & _). rewrite Hall in Hq. injection Hq as <-. simplify_eq.
    assert (gc_heap st1 !! p = Some (set_dead true ob)) as Hp1 by apply lookup_insert_eq.
    unfold lsh_object_free, object_at. cbn [gc_heap with_number with_all]. rewrite Hp1. cbn [deref]. rewrite bind_ok_l.
    change (ob_alloc_method (set_dead true ob)) with (ob_alloc_method ob). rewrite Halq. eexists. split; [done |]. pose proof (lenZ_nonneg l). pose proof (gw_small _ _ Hw) as Hsm.
    rewrite lenZ_cons in Hsm. split.
    + exists l. pose proof (wf_drop_head st1 l p _ Hw1 Hp1) as Hw2. simpl. unfold with_heap, with_number, with_all. simpl. rewrite (gw_number _ _ Hw), lenZ_cons.
      replace (1 + lenZ l - 1) with (lenZ l) by lia. rewrite u32_id by (unfold is_u32; lia). exact Hw2.
    + simpl. apply Halive. intros q Hq. by rewrite lookup_delete_ne, lookup_insert_ne.
  - eexists. split; [done |]. split; [by exists l |]. simpl. apply Halive. intros q Hq. by rewrite lookup_insert_ne.
Qed.

Lemma collect_inv st :
  gc_inv st → gc_scheduled st = true →
  ∃ st', do_gc st = Ok st' ∧ gc_inv st' ∧ gc_scheduled st' = false
    ∧ ∀ p, reach (gc_heap st) (root_set st) p → same_object (gc_heap st) (gc_heap st') p.
Proof.
  intros [[l Hw] Ha] Hs. unfold do_gc. rewrite Hs. cbn [c_assert]. rewrite bind_ok_l.
  assert (gc_wf (with_scheduled false st) l) as Hw1 by by destruct Hw.
  destruct (gc_spec _ l Hw1 Ha) as (st' & l' & -> & Hw' & Ha' & Hc). exists st'. split; [done |]. split; [split; [by exists l' | done] |].
  split; [by rewrite (co_scheduled _ _ _ _ Hc) |]. apply (co_kept _ _ _ _ Hc).
Qed.

Lemma step_inv st st' : gc_inv st → gc_step st st' → gc_inv st'.
Proof.
  intros Hinv Hs. destruct Hs as [p refs Hp Hn | p ob st' Hp Hd Hno Hk | p ob refs Hp Hal Hal' | r Hr | st' Hsc Hg].
  - by apply register_inv.
  - destruct (kill_inv st p ob Hinv Hp Hd Hno) as (st2 & Hk2 & Hinv2). congruence.
  - destruct Hinv as [[l Hw] Ha]. split; [exists l | done]. eapply wf_insert; eauto. intros Hst. congruence.
  - destruct Hinv as [[l Hw] Ha]. split; [exists l; by destruct Hw | done].
  - destruct (collect_inv st Hinv Hsc) as (st2 & Hg2 & Hinv2 & _). congruence.
Qed.

(** C26: no run of the program makes the collector fail.  As long as the program
    stores only pointers that leave the reachable objects alive and kills only
    objects that are not reachable, after any sequence of allocations, stores,
    kills and collections a collection that is due returns and keeps every
    reachable object, and killing an object returns. *)
Theorem gc_run_safe st st' :
  gc_inv st → rtc gc_step st st' →
  gc_inv st'
  ∧ (gc_scheduled st' = true → ∃ st2, do_gc st' = Ok st2 ∧ gc_inv st2
       ∧ ∀ p, reach (gc_heap st') (root_set st') p → same_object (gc_heap st') (gc_heap st2) p)
  ∧ (∀ p ob, gc_heap st' !! p = Some ob → ob_dead ob = false → ¬ reach (gc_heap st') (root_set st') p →
       ∃ st2, gc_kill st' (Some p) = Ok st2 ∧ gc_inv st2).
Proof.
  intros Hinv Hrun. assert (gc_inv st') as Hinv' by (induction Hrun as [| x y z Hs Hrun IH]; [done |]; apply IH; by eapply step_inv).
  split; [done |]. split.
  - intros Hs. destruct (collect_inv st' Hinv' Hs) as (st2 & Hg & Hi & _ & Hk). by exists st2.
  - intros p ob Hp Hd Hno. by eapply kill_inv.
Qed.

(** ** An example *)

(** Two objects that refer to each other, one of them in the root set, a third
    one that refers to them, and a static one. *)
Definition tiny : gc_state :=
  mk_gc_state
    (<[1%positive := mk_object None [Some 2%positive; None] LSH_ALLOC_HEAP false false]>
     (<[2%positive := mk_object (Some 1%positive) [Some 1%positive; Some 4%positive] LSH_ALLOC_HEAP false false]>
      (<[3%positive := mk_object (Some 2%positive) [Some 2%positive] LSH_ALLOC_HEAP false false]>
       (<[4%positive := mk_object None [] LSH_ALLOC_STATIC false false]> ∅))))
    (Some 3%positive) 3 0 (Some 1%positive) true.

Ltac tiny_cases Hp :=
  unfold tiny in Hp; cbn [gc_heap] in Hp;
  repeat (apply lookup_insert_Some in Hp as [[<- <-] | [_ Hp]]); [.. | by rewrite lookup_empty in Hp].

Lemma tiny_wf : gc_wf tiny [3%positive; 2%positive; 1%positive].
Proof.
  split.
  - repeat (split; [done |]; eexists; split; [reflexivity |]; split; [done |]). done.
  - apply (bool_decide_unpack _). by vm_compute.
  - intros p ob Hp Ha. tiny_cases Hp; try done; by repeat constructor.
  - done.
  - done.
  - intros p (ob & Hp & Hm). tiny_cases Hp; done.
  - intros p ob Hp Ha. tiny_cases Hp; done.
Qed.

Lemma tiny_alive : roots_alive (gc_heap tiny) (root_set tiny).
Proof.
  intros q (p & [= <-] & Hpath). assert (∀ x y, edge (gc_heap tiny) x y → y ∈ [1; 2; 4]%positive) as Hedge.
  { intros x y (ob & Hx & Hin). tiny_cases Hx; cbn [ob_refs] in Hin; set_solver. }
  assert (q ∈ [1; 2; 4]%positive) as Hq by (apply rtc_inv_r in Hpath as [<- | (x & _ & He)]; [by left | by eapply Hedge]).
  repeat (apply elem_of_cons in Hq as [-> | Hq]; [eexists; by split |]). by apply not_elem_of_nil in Hq.
Qed.

Example tiny_collected :
  ∃ st, gc tiny = Ok st ∧ gc_heap st !! 3%positive = None ∧ all_objects st = Some 2%positive ∧ number_of_objects st = 2 ∧ live_objects st = 2.
Proof. eexists. split; [vm_compute; reflexivity | by vm_compute]. Qed.

Lemma gc_correct_witness :
  ∃ st' l', gc tiny = Ok st' ∧ gc_wf st' l' ∧ roots_alive (gc_heap st') (root_set st') ∧ collected tiny st' [3; 2; 1]%positive l'.
Proof. apply (gc_correct tiny [3; 2; 1]%positive); [exact tiny_wf | exact tiny_alive]. Defined.

Lemma gc_run_safe_witness :
  let st := gc_register tiny 5%positive [Some 3%positive] in
  ∃ st2, do_gc st = Ok st2 ∧ gc_inv st2 ∧ ∀ p, reach (gc_heap st) (root_set st) p → same_object (gc_heap st) (gc_heap st2) p.
Proof.
  intros st. destruct (gc_run_safe tiny st) as (_ & Hgc & _).
  - split; [eexists; exact tiny_wf | exact tiny_alive].
  - apply rtc_once. apply step_register; reflexivity.
  - exact (Hgc eq_refl).
Defined.
