(* ===== verification/LshString.v ===== *)
(** * Counted strings ([src/src/lsh_string.c])

    [struct lsh_string] holds a length and a byte array that is always one
    byte longer than the length (the array may be larger still after
    [lsh_string_trunc]); the byte at index [length] is NUL.  Every writer
    checks its range with [ASSERT_ROOM] and re-checks the NUL afterwards.

    The bytes of a fresh block are arbitrary: they come from [Malloc].
    Freeing a string has no effect a caller can observe, so the model has
    no counterpart of [lsh_string_free]. *)

From S2P Require Import Prelude Nettle.
Local Open Scope Z_scope.

(** The indeterminate contents of memory returned by [malloc]. *)
Class Malloc := { fresh_byte : nat → Z }.
Class MallocOk `{Malloc} : Prop := { fresh_byte_ok i : is_byte (fresh_byte i) }.

#[export] Instance zero_malloc : Malloc := { fresh_byte _ := 0 }.
#[export] Instance zero_malloc_ok : MallocOk.
Proof. split. intros i. unfold is_byte. simpl. lia. Qed.

Definition fresh_block `{Malloc} (n : Z) : list Z := fresh_byte <$> seq 0 (Z.to_nat n).

Record lsh_string := mk_lsh_string {
  ls_length : Z;
  ls_data : list Z;
}.

(** [s->data[i]], as [lsh_string_data (s)[i]] reads it. *)
Definition ls_byte (s : lsh_string) (i : Z) : result Z := rd (ls_data s) i.

Definition lsh_string_length (s : lsh_string) : Z := ls_length s.
Definition lsh_string_data (s : lsh_string) : list Z := ls_data s.

(** The string proper: the first [length] bytes. *)
Definition contents (s : lsh_string) : list Z := slice 0 (ls_length s) (ls_data s).

Record lsh_string_wf (s : lsh_string) : Prop := {
  wf_length : is_u32 (ls_length s);
  wf_room : ls_length s < lenZ (ls_data s);
  wf_nul : ls_data s !! Z.to_nat (ls_length s) = Some 0;
  wf_bytes : Forall is_byte (ls_data s);
}.

(** ** Operations that depend on the representation *)

Section operations.
Context `{Malloc} `{NettleMacros} `{NettleBignum}.

Definition lsh_string_alloc (length : Z) : lsh_string :=
  {| ls_length := length;
     ls_data := <[Z.to_nat length := 0]> (fresh_block (length + 1)) |}.

Definition ASSERT_ROOM (s : lsh_string) (start l : Z) : result () :=
  _ ← c_assert (start <=? ls_length s);
  c_assert (l <=? ls_length s - start).

(** [assert(!s->data[s->length])] *)
Definition assert_nul (s : lsh_string) : result lsh_string :=
  c ← rd (ls_data s) (ls_length s);
  _ ← c_assert (c =? 0);
  Ok s.

Definition with_data (s : lsh_string) (d : list Z) : lsh_string :=
  {| ls_length := ls_length s; ls_data := d |}.

Definition lsh_string_putc (s : lsh_string) (i c : Z) : result lsh_string :=
  _ ← c_assert (i <? ls_length s);
  Ok (with_data s (<[Z.to_nat i := u8 c]> (ls_data s))).

Definition lsh_string_set (s : lsh_string) (start length c : Z) : result lsh_string :=
  _ ← ASSERT_ROOM s start length;
  assert_nul (with_data s (splice start (replicate (Z.to_nat length) (u8 c)) (ls_data s))).

(** [memcpy] of [length] bytes from [data]. *)
Definition lsh_string_write (s : lsh_string) (start length : Z) (data : list Z)
  : result lsh_string :=
  _ ← ASSERT_ROOM s start length;
  if lenZ data <? length then Fault OutOfBounds
  else assert_nul (with_data s (splice start (slice 0 length data) (ls_data s))).

Definition lsh_string_move (s : lsh_string) (start length from : Z) : result lsh_string :=
  _ ← ASSERT_ROOM s start length;
  _ ← c_assert (negb (start =? from));
  if lenZ (ls_data s) <? from + length then Fault OutOfBounds
  else Ok (with_data s (splice start (slice from length (ls_data s)) (ls_data s))).

Definition lsh_string_write_uint32 (s : lsh_string) (start n : Z) : result lsh_string :=
  _ ← ASSERT_ROOM s start 4;
  assert_nul (with_data s (splice start (WRITE_UINT32 n) (ls_data s))).

Definition lsh_string_trunc (s : lsh_string) (length : Z) : result lsh_string :=
  _ ← c_assert (length <=? ls_length s);
  Ok {| ls_length := length; ls_data := <[Z.to_nat length := 0]> (ls_data s) |}.

Definition lsh_string_write_bignum (s : lsh_string) (start length n : Z) : result lsh_string :=
  _ ← ASSERT_ROOM s start length;
  assert_nul (with_data s (splice start (nettle_mpz_get_str_256 length n) (ls_data s))).

(** The string as a C string, unless it holds a NUL. *)
Definition lsh_get_cstring (s : option lsh_string) : option (list Z) :=
  match s with
  | Some s =>
      if bool_decide (0 ∈ contents s) then None else Some (ls_data s)
  | None => None
  end.

(** ** Operations that do not depend on the representation *)

(** [!memcmp (a, b, length)] *)
Definition mem_equal (a b : list Z) (length : Z) : result bool :=
  if (lenZ a <? length) || (lenZ b <? length) then Fault OutOfBounds
  else Ok (bool_decide (slice 0 length a = slice 0 length b)).

Definition lsh_string_eq_l (a : lsh_string) (length : Z) (b : list Z) : result bool :=
  if lsh_string_length a =? length then mem_equal (lsh_string_data a) b length
  else Ok false.

Definition lsh_string_eq (a b : lsh_string) : result bool :=
  lsh_string_eq_l a (lsh_string_length b) (lsh_string_data b).

Definition lsh_string_prefixp (prefix s : lsh_string) : result bool :=
  let plength := lsh_string_length prefix in
  if plength <=? lsh_string_length s
  then mem_equal (lsh_string_data prefix) (lsh_string_data s) plength
  else Ok false.

Definition lsh_string_write_string (s : lsh_string) (pos : Z) (data : lsh_string)
  : result lsh_string :=
  lsh_string_write s pos (lsh_string_length data) (lsh_string_data data).

Definition lsh_string_realloc (s : lsh_string) (size : Z) : result lsh_string :=
  let length := lsh_string_length s in
  _ ← c_assert (length <? size);
  let n := lsh_string_alloc size in
  lsh_string_write_string n 0 s.

Definition lsh_string_dup (s : lsh_string) : result lsh_string :=
  let length := lsh_string_length s in
  let n := lsh_string_alloc length in
  lsh_string_write n 0 length (lsh_string_data s).

End operations.

(** ** Lemmas: the representation invariant and what each writer does *)

Lemma lenZ_contents s : lsh_string_wf s → lenZ (contents s) = ls_length s.
Proof. intros [[] ? _ _]. unfold contents. rewrite lenZ_slice; lia. Qed.

Lemma contents_bytes s : lsh_string_wf s → Forall is_byte (contents s).
Proof. intros [_ _ _ H]. unfold contents, slice. by apply Forall_take, Forall_drop. Qed.

Lemma ASSERT_ROOM_ok s start l :
  start + l <= ls_length s → 0 <= l → ASSERT_ROOM s start l = Ok ().
Proof. intros. unfold ASSERT_ROOM. pass_assert. by rewrite c_assert_true by lia. Qed.

Lemma ASSERT_ROOM_inv s start l u :
  ASSERT_ROOM s start l = Ok u → start <= ls_length s ∧ l <= ls_length s - start.
Proof. unfold ASSERT_ROOM. intros. ok_inv. lia. Qed.

Lemma fresh_block_length `{Malloc} n : 0 <= n → lenZ (fresh_block n) = n.
Proof. intros. unfold fresh_block. autorewrite with lsh. unfold lenZ. rewrite length_seq. lia. Qed.

Section lemmas.
Context `{MallocOk} `{NettleMacrosOk}.

Lemma lsh_string_alloc_wf length : is_u32 length → lsh_string_wf (lsh_string_alloc length).
Proof.
  intros [Hl1 Hl2]. pose proof (fresh_block_length (length + 1)) as Hf.
  split; simpl; [done | | |].
  - unfold lenZ in *. rewrite length_insert. lia.
  - apply list_lookup_insert_eq. unfold lenZ in *. lia.
  - apply Forall_insert; [| unfold is_byte; lia].
    unfold fresh_block. apply Forall_fmap, Forall_true. intros. simpl. apply fresh_byte_ok.
Qed.

(** Overwriting a range inside the string keeps the invariant and changes
    the contents exactly there. *)
Lemma splice_wf s start src :
  lsh_string_wf s → 0 <= start → start + lenZ src <= ls_length s → Forall is_byte src →
  lsh_string_wf (with_data s (splice start src (ls_data s))) ∧
  contents (with_data s (splice start src (ls_data s))) = splice start src (contents s).
Proof.
  intros [Hl Hr Hn Hb] Hs Hroom Hsrc. pose proof (lenZ_nonneg src). split; [split |]; simpl.
  - done.
  - rewrite lenZ_splice; lia.
  - unfold splice, lenZ in *. rewrite lookup_app_r by (rewrite length_take; lia).
    rewrite lookup_app_r by (rewrite length_take; lia).
    rewrite lookup_drop, length_take. rewrite <- Hn. f_equal. lia.
  - unfold splice. rewrite !Forall_app. split_and!; auto using Forall_take, Forall_drop.
  - unfold contents, slice, splice, with_data, lenZ in *. simpl.
    rewrite !drop_0. rewrite take_app_ge by (rewrite length_take; lia).
    rewrite take_app_ge by (rewrite length_take; lia).
    rewrite take_take, skipn_firstn_comm, length_take.
    do 3 f_equal; lia.
Qed.

Lemma assert_nul_wf s : lsh_string_wf s → assert_nul s = Ok s.
Proof.
  intros Hwf. unfold assert_nul.
  rewrite (proj2 (rd_lookup _ _ 0)); [done |].
  destruct Hwf as [[] ? ? ?]. split; [lia | done].
Qed.

Lemma lsh_string_write_spec s start length data :
  lsh_string_wf s → 0 <= start → 0 <= length → start + length <= ls_length s →
  length <= lenZ data → Forall is_byte data →
  ∃ s', lsh_string_write s start length data = Ok s' ∧ lsh_string_wf s'
        ∧ ls_length s' = ls_length s
        ∧ contents s' = splice start (slice 0 length data) (contents s).
Proof.
  intros Hwf Hs Hl Hroom Hd Hb. unfold lsh_string_write.
  rewrite ASSERT_ROOM_ok by lia. rewrite bind_ok_l.
  rewrite (proj2 (Z.ltb_ge _ _)) by lia.
  destruct (splice_wf s start (slice 0 length data)) as [Hw Hc]; [done | done | | |].
  - rewrite lenZ_slice; lia.
  - unfold slice. by apply Forall_take, Forall_drop.
  - rewrite assert_nul_wf by done. eexists. by split_and!.
Qed.

Lemma lsh_string_write_uint32_spec s start n :
  lsh_string_wf s → 0 <= start → start + 4 <= ls_length s → is_u32 n →
  ∃ s', lsh_string_write_uint32 s start n = Ok s' ∧ lsh_string_wf s'
        ∧ ls_length s' = ls_length s
        ∧ contents s' = splice start (be32 n) (contents s).
Proof.
  intros Hwf Hs Hroom Hn. unfold lsh_string_write_uint32.
  rewrite ASSERT_ROOM_ok by lia. rewrite bind_ok_l, WRITE_UINT32_spec by done.
  destruct (splice_wf s start (be32 n)) as [Hw Hc]; [done | done | | |].
  - rewrite lenZ_be32; lia.
  - apply be_bytes_bytes.
  - rewrite assert_nul_wf by done. eexists. by split_and!.
Qed.

Lemma lsh_string_set_spec s start length c :
  lsh_string_wf s → 0 <= start → 0 <= length → start + length <= ls_length s →
  ∃ s', lsh_string_set s start length c = Ok s' ∧ lsh_string_wf s'
        ∧ ls_length s' = ls_length s
        ∧ contents s' = splice start (replicate (Z.to_nat length) (u8 c)) (contents s).
Proof.
  intros Hwf Hs Hl Hroom. unfold lsh_string_set.
  rewrite ASSERT_ROOM_ok by lia. rewrite bind_ok_l.
  destruct (splice_wf s start (replicate (Z.to_nat length) (u8 c))) as [Hw Hc]; [done | done | | |].
  - rewrite lenZ_replicate; lia.
  - apply Forall_replicate, u8_range.
  - rewrite assert_nul_wf by done. eexists. by split_and!.
Qed.

Lemma insert_splice {A} (l : list A) i (x : A) :
  0 <= i < lenZ l → <[Z.to_nat i := x]> l = splice i [x] l.
Proof.
  unfold splice, lenZ. intros. rewrite insert_take_drop by lia. simpl.
  by rewrite Nat.add_1_r.
Qed.

Lemma lsh_string_putc_spec s i c :
  lsh_string_wf s → 0 <= i < ls_length s →
  ∃ s', lsh_string_putc s i c = Ok s' ∧ lsh_string_wf s'
        ∧ ls_length s' = ls_length s
        ∧ contents s' = splice i [u8 c] (contents s).
Proof.
  intros Hwf Hi. unfold lsh_string_putc. pass_assert.
  pose proof (wf_room _ Hwf). rewrite insert_splice by lia.
  destruct (splice_wf s i [u8 c]) as [Hw Hc]; [done | lia | | |].
  - autorewrite with lsh. lia.
  - repeat constructor; apply u8_range.
  - eexists. by split_and!.
Qed.

Lemma lsh_string_trunc_spec s length :
  lsh_string_wf s → 0 <= length <= ls_length s →
  ∃ s', lsh_string_trunc s length = Ok s' ∧ lsh_string_wf s'
        ∧ ls_length s' = length ∧ contents s' = slice 0 length (contents s).
Proof.
  intros [[Hl1 Hl2] Hr Hn Hb] Hlen. unfold lsh_string_trunc. pass_assert.
  eexists. split; [done |]. split; [split; simpl |split; [done |]].
  - unfold is_u32. lia.
  - unfold lenZ in *. rewrite length_insert. lia.
  - apply list_lookup_insert_eq. unfold lenZ in *. lia.
  - apply Forall_insert; [done | unfold is_byte; lia].
  - unfold contents, slice. simpl. rewrite !drop_0, take_take.
    rewrite take_insert. case_decide; [lia |]. f_equal. lia.
Qed.

Lemma lsh_string_move_spec s start length from :
  lsh_string_wf s → 0 <= start → 0 <= from → 0 <= length →
  start + length <= ls_length s → from + length <= ls_length s → start ≠ from →
  ∃ s', lsh_string_move s start length from = Ok s' ∧ lsh_string_wf s'
        ∧ ls_length s' = ls_length s
        ∧ contents s' = splice start (slice from length (contents s)) (contents s).
Proof.
  intros Hwf Hs Hf Hl Hroom Hfrom Hne. pose proof (wf_room _ Hwf). unfold lsh_string_move.
  rewrite ASSERT_ROOM_ok by lia. rewrite bind_ok_l. pass_assert.
  rewrite (proj2 (Z.ltb_ge _ _)) by lia.
  destruct (splice_wf s start (slice from length (ls_data s))) as [Hw Hc]; [done | done | | |].
  - rewrite lenZ_slice; lia.
  - unfold slice. apply Forall_take, Forall_drop, Hwf.
  - eexists. split; [done |]. split; [done |]. split; [done |]. rewrite Hc.
    f_equal. unfold contents. rewrite slice_slice by lia. by rewrite Z.add_0_l.
Qed.

Lemma mem_equal_contents a b n :
  lsh_string_wf a → 0 <= n <= ls_length a → n <= lenZ b →
  mem_equal (ls_data a) b n = Ok (bool_decide (slice 0 n (contents a) = slice 0 n b)).
Proof.
  intros [_ Hr _ _] Hn Hb. unfold mem_equal, contents.
  rewrite (proj2 (Z.ltb_ge _ _)) by lia. rewrite (proj2 (Z.ltb_ge _ _)) by lia.
  simpl. by rewrite slice_slice by lia.
Qed.

End lemmas.

(** ** Everything a program can do to a string *)

Section reachable.
Context `{Malloc} `{NettleMacros} `{NettleBignum}.

(** One call of a writer that returned, with arguments of the declared types. *)
Inductive string_step : lsh_string → lsh_string → Prop :=
  | step_putc s i c s' :
      is_u32 i → lsh_string_putc s i c = Ok s' → string_step s s'
  | step_set s start length c s' :
      is_u32 start → is_u32 length → lsh_string_set s start length c = Ok s' → string_step s s'
  | step_write s start length data s' :
      is_u32 start → is_u32 length → Forall is_byte data →
      lsh_string_write s start length data = Ok s' → string_step s s'
  | step_move s start length from s' :
      is_u32 start → is_u32 length → is_u32 from → from + length <= ls_length s →
      lsh_string_move s start length from = Ok s' → string_step s s'
  | step_write_uint32 s start n s' :
      is_u32 start → is_u32 n → lsh_string_write_uint32 s start n = Ok s' → string_step s s'
  | step_write_bignum s start length n s' :
      is_u32 start → is_u32 length → 0 <= n < 256 ^ length →
      lsh_string_write_bignum s start length n = Ok s' → string_step s s'
  | step_trunc s length s' :
      is_u32 length → lsh_string_trunc s length = Ok s' → string_step s s'.

Inductive string_reachable : lsh_string → Prop :=
  | reach_alloc length : is_u32 length → string_reachable (lsh_string_alloc length)
  | reach_step s s' : string_reachable s → string_step s s' → string_reachable s'.

Context `{!MallocOk} `{!NettleMacrosOk} `{!NettleBignumOk}.

Lemma string_step_wf s s' : lsh_string_wf s → string_step s s' → lsh_string_wf s'.
Proof.
  intros Hwf Hstep.
  destruct Hstep as [s i c s' Hi He | s start l c s' [Hs _] [Hl _] He | s start l d s' [Hs _] [Hl _] Hd He
    | s start l from s' [Hs _] [Hl _] [Hf _] Hfrom He | s start n s' [Hs _] Hn He
    | s start l n s' [Hs _] [Hl _] Hn He | s l s' Hl He].
  - destruct (lsh_string_putc_spec s i c) as (s1 & Hs1 & Hw & _); [done | | congruence].
    unfold lsh_string_putc in He. ok_inv. unfold is_u32 in Hi. lia.
  - destruct (lsh_string_set_spec s start l c) as (s1 & Hs1 & Hw & _); [done.. | | congruence].
    unfold lsh_string_set in He. ok_inv.
    match goal with H : ASSERT_ROOM _ _ _ = _ |- _ => apply ASSERT_ROOM_inv in H end. lia.
  - destruct (lsh_string_write_spec s start l d) as (s1 & Hs1 & Hw & _); [done.. | | | done | congruence];
      unfold lsh_string_write in He; ok_inv; case_bool_in He; try done;
      match goal with H : ASSERT_ROOM _ _ _ = _ |- _ => apply ASSERT_ROOM_inv in H end; lia.
  - unfold lsh_string_move in He. ok_inv. case_bool_in He; [done |].
    match goal with H : ASSERT_ROOM _ _ _ = _ |- _ => apply ASSERT_ROOM_inv in H end. ok_inv.
    destruct (splice_wf s start (slice from l (ls_data s))) as [Hw _]; [done | done | | | done].
    + rewrite lenZ_slice; lia.
    + unfold slice. apply Forall_take, Forall_drop, Hwf.
  - destruct (lsh_string_write_uint32_spec s start n) as (s1 & Hs1 & Hw & _); [done.. | | done | congruence].
    unfold lsh_string_write_uint32 in He. ok_inv.
    match goal with H : ASSERT_ROOM _ _ _ = _ |- _ => apply ASSERT_ROOM_inv in H end. lia.
  - unfold lsh_string_write_bignum in He. ok_inv.
    match goal with H : ASSERT_ROOM _ _ _ = _ |- _ => apply ASSERT_ROOM_inv in H end.
    rewrite get_str_256_spec in He by lia.
    destruct (splice_wf s start (be_bytes (Z.to_nat l) n)) as [Hw _];
      [done | done | rewrite lenZ_be_bytes; lia | apply be_bytes_bytes |].
    rewrite assert_nul_wf in He by done. by injection He as <-.
  - destruct (lsh_string_trunc_spec s l) as (s1 & Hs1 & Hw & _); [done | | congruence].
    unfold lsh_string_trunc in He. ok_inv. unfold is_u32 in Hl. lia.
Qed.


End reachable.

