(* ===== verification/Format.v ===== *)
(** * Formatting of messages ([src/src/format.c])

    [ssh_format] is lsh's [printf]: a first pass computes the length of the
    message ([ssh_vformat_length]), a second pass writes it into a string of
    exactly that length ([ssh_vformat_write]).  The two passes are separate
    walks over the format string and the argument list; the main theorem is
    that they agree, and that what is written is the wire encoding given by
    the reference definition [spec_format]. *)

From S2P Require Import Prelude Ssh Nettle Atoms LshString.
Local Open Scope Z_scope.

(** ** Variable arguments *)

Inductive farg : Type :=
  | FInt (i : Z)            (** [int], [uint32_t] or an enum *)
  | FBytes (d : list Z)     (** [const uint8_t *] *)
  | FCstr (d : list Z)      (** [const char *]: the bytes before the NUL *)
  | FStr (s : lsh_string)   (** [struct lsh_string *] *)
  | FPtr (p : bool)         (** [uint32_t *]: is it non-NULL? *)
  | FList (l : list Z)      (** [struct int_list *] *)
  | FNum (n : Z).           (** [MP_INT *] *)

Definition va_int (args : list farg) : result (Z * list farg) :=
  match args with FInt i :: args => Ok (i, args) | _ => Fault BadVarArg end.
Definition va_bytes (args : list farg) : result (list Z * list farg) :=
  match args with FBytes d :: args => Ok (d, args) | _ => Fault BadVarArg end.
Definition va_cstr (args : list farg) : result (list Z * list farg) :=
  match args with FCstr d :: args => Ok (d, args) | _ => Fault BadVarArg end.
Definition va_str (args : list farg) : result (lsh_string * list farg) :=
  match args with FStr s :: args => Ok (s, args) | _ => Fault BadVarArg end.
Definition va_ptr (args : list farg) : result (bool * list farg) :=
  match args with FPtr p :: args => Ok (p, args) | _ => Fault BadVarArg end.
Definition va_list (args : list farg) : result (list Z * list farg) :=
  match args with FList l :: args => Ok (l, args) | _ => Fault BadVarArg end.
Definition va_num (args : list farg) : result (Z * list farg) :=
  match args with FNum n :: args => Ok (n, args) | _ => Fault BadVarArg end.

(** ** Format strings *)

Record fmt_flags := mk_flags {
  literal : bool;
  decimal : bool;
  do_free : bool;
  unsigned_form : bool;
  hex : bool;
}.
Definition no_flags := mk_flags false false false false false.

(** The option characters between [%] and the conversion. *)
Definition fmt_option (c : Ascii.ascii) (fl : fmt_flags) : option fmt_flags :=
  match c with
  | "l"%char => Some (mk_flags true (decimal fl) (do_free fl) (unsigned_form fl) (hex fl))
  | "d"%char => Some (mk_flags (literal fl) true (do_free fl) (unsigned_form fl) (hex fl))
  | "f"%char => Some (mk_flags (literal fl) (decimal fl) true (unsigned_form fl) (hex fl))
  | "u"%char => Some (mk_flags (literal fl) (decimal fl) (do_free fl) true (hex fl))
  | "x"%char => Some (mk_flags (literal fl) (decimal fl) (do_free fl) (unsigned_form fl) true)
  | _ => None
  end.

(** The two nested loops over the format string are one walk in two modes. *)
Inductive fmt_mode := Text | Options (fl : fmt_flags).

(** The smallest [e+1] with [n < 10^(e+1)], by binary search on the
    exponent, with the table of 10^(2^i). *)
Definition format_size_in_decimal (n : Z) : Z :=
  let step (st : Z * Z) (p : Z * Z) :=
    let '(n, e) := st in
    let '(i, power) := p in
    if power <=? n then (n `div` power, e + Z.shiftl 1 i) else (n, e) in
  let '(_, e) :=
    foldl step (n, 0) [(3, 100000000); (2, 10000); (1, 100); (0, 10)] in
  e + 1.

Section format.
Context `{Malloc} `{NettleMacros} `{NettleBignum} `{AtomTable}.

(** ** First pass: the length *)

(** [%A]: number of known atoms seen so far, and the length so far. *)
Fixpoint atoms_length (l : list Z) (n length : Z) : result (Z * Z) :=
  match l with
  | [] => Ok (n, length)
  | a :: l =>
      if c_true a then
        al ← get_atom_length a;
        atoms_length l (n + 1) (u32 (length + al))
      else atoms_length l n length
  end.

(** The length of the number written for [%n]. *)
Definition mpn_length (fl : fmt_flags) (n : Z) : Z :=
  if n =? 0 then 0
  else if unsigned_form fl then nettle_mpz_sizeinbase_256_u n
  else nettle_mpz_sizeinbase_256_s n.

Definition string_overhead (fl : fmt_flags) (l length : Z) : Z :=
  if decimal fl then u32 (length + format_size_in_decimal l + 1)
  else if negb (literal fl) then u32 (length + 4)
  else length.

(** One conversion: the body of the [switch] on the conversion character. *)
Definition conv_length (c : Ascii.ascii) (fl : fmt_flags) (args : list farg) (length : Z)
  : result (Z * list farg) :=
  match c with
  | "c"%char =>
      '(_, args) ← va_int args;
      Ok (u32 (length + 1), args)
  | "%"%char => Ok (u32 (length + 1), args)
  | "i"%char =>
      '(i, args) ← va_int args;
      if decimal fl then Ok (u32 (length + format_size_in_decimal (u32 i)), args)
      else Ok (u32 (length + 4), args)
  | "s"%char =>
      '(l, args) ← va_int args;
      '(_, args) ← va_bytes args;
      let l := u32 l in
      let length := u32 (length + l) in
      let length := if hex fl then u32 (length + l) else length in
      Ok (string_overhead fl l length, args)
  | "S"%char =>
      '(s, args) ← va_str args;
      let l := lsh_string_length s in
      let length := u32 (length + l) in
      let length := if hex fl then u32 (length + l) else length in
      Ok (string_overhead fl l length, args)
  | "z"%char =>
      '(d, args) ← va_cstr args;
      let l := u32 (lenZ d) in
      let length := u32 (length + l) in
      Ok (string_overhead fl l length, args)
  | "r"%char =>
      '(l, args) ← va_int args;
      let length := u32 (length + u32 l) in
      '(_, args) ← va_ptr args;
      _ ← c_assert (negb (decimal fl));
      Ok (if negb (literal fl) then u32 (length + 4) else length, args)
  | "a"%char =>
      '(atom, args) ← va_int args;
      _ ← c_assert (c_true atom);
      l ← get_atom_length atom;
      let length := u32 (length + l) in
      Ok (string_overhead fl l length, args)
  | "A"%char =>
      '(l, args) ← va_list args;
      if decimal fl then c_fatal
      else
        '(n, length) ← atoms_length l 0 length;
        let length := if c_true n then u32 (length + (n - 1)) else length in
        Ok (if negb (literal fl) then u32 (length + 4) else length, args)
  | "n"%char =>
      '(n, args) ← va_num args;
      _ ← c_assert (0 <=? n);
      _ ← c_assert (negb (decimal fl));
      let length := u32 (length + mpn_length fl n) in
      Ok (if negb (literal fl) then u32 (length + 4) else length, args)
  | _ => c_fatal
  end.

Fixpoint vformat_length (f : string) (m : fmt_mode) (args : list farg) (length : Z)
  : result Z :=
  match f, m with
  | EmptyString, Text => Ok length
  | EmptyString, Options _ => c_fatal
  | String c f, Text =>
      if Ascii.eqb c "%" then vformat_length f (Options no_flags) args length
      else vformat_length f Text args (u32 (length + 1))
  | String c f, Options fl =>
      match fmt_option c fl with
      | Some fl => vformat_length f (Options fl) args length
      | None =>
          if literal fl && decimal fl then c_fatal
          else
            '(length, args) ← conv_length c fl args length;
            vformat_length f Text args length
      end
  end.

Definition ssh_vformat_length (f : string) (args : list farg) : result Z :=
  vformat_length f Text args 0.

(** ** Second pass: writing *)

Fixpoint format_decimal_loop (k : nat) (i : Z) (buffer : lsh_string) (start length n : Z)
  : result lsh_string :=
  match k with
  | O => Ok buffer
  | S k =>
      buffer ← lsh_string_putc buffer (start + length - i - 1) (48 + n `mod` 10);
      format_decimal_loop k (i + 1) buffer start length (n `div` 10)
  end.

Definition format_decimal (buffer : lsh_string) (start length n : Z) : result lsh_string :=
  format_decimal_loop (Z.to_nat length) 0 buffer start length n.

Definition hexchars : list Z := cstr "0123456789abcdef".

Fixpoint format_hex_loop (buffer : lsh_string) (pos : Z) (data : list Z)
  : result (lsh_string * Z) :=
  match data with
  | [] => Ok (buffer, pos)
  | b :: data =>
      hi ← rd hexchars (Z.shiftr (Z.land b 240) 4);
      buffer ← lsh_string_putc buffer pos hi;
      lo ← rd hexchars (Z.land b 15);
      buffer ← lsh_string_putc buffer (u32 (pos + 1)) lo;
      format_hex_loop buffer (u32 (pos + 2)) data
  end.

Definition format_string (buffer : lsh_string) (pos size : Z) (data : list Z)
  (lit hx : bool) : result (lsh_string * Z) :=
  '(buffer, pos) ←
    (if negb lit then
       let length := if hx then u32 (2 * size) else size in
       buffer ← lsh_string_write_uint32 buffer pos length;
       Ok (buffer, u32 (pos + 4))
     else Ok (buffer, pos));
  if negb hx then
    buffer ← lsh_string_write buffer pos size data;
    Ok (buffer, u32 (pos + size))
  else if lenZ data <? size then Fault OutOfBounds
  else format_hex_loop buffer pos (slice 0 size data).

(** The loop of [%A]: [n] counts the atoms written so far. *)
Fixpoint format_atoms (l : list Z) (n : Z) (buffer : lsh_string) (pos : Z)
  : result (lsh_string * Z) :=
  match l with
  | [] => Ok (buffer, pos)
  | a :: l =>
      if c_true a then
        length ← get_atom_length a;
        '(buffer, pos) ←
          (if c_true n then
             buffer ← lsh_string_putc buffer pos 44; Ok (buffer, u32 (pos + 1))
           else Ok (buffer, pos));
        name ← get_atom_name a;
        buffer ← lsh_string_write buffer pos length name;
        format_atoms l (n + 1) buffer (u32 (pos + length))
      else format_atoms l n buffer pos
  end.

(** The length header that most conversions write unless [literal]. *)
Definition write_header (fl : fmt_flags) (buffer : lsh_string) (pos length : Z)
  : result (lsh_string * Z) :=
  if negb (literal fl) then
    buffer ← lsh_string_write_uint32 buffer pos length;
    Ok (buffer, u32 (pos + 4))
  else Ok (buffer, pos).

(** State of the writing pass: the buffer, the position, and the values
    stored through the [uint32_t *] arguments of [%r], in order. *)
Record wstate := mk_wstate {
  w_buffer : lsh_string;
  w_pos : Z;
  w_stores : list Z;
}.

Definition conv_write (c : Ascii.ascii) (fl : fmt_flags) (args : list farg) (w : wstate)
  : result (wstate * list farg) :=
  let buffer := w_buffer w in
  let pos := w_pos w in
  let done (bp : lsh_string * Z) (args : list farg) :=
    (mk_wstate (fst bp) (snd bp) (w_stores w), args) in
  match c with
  | "c"%char =>
      '(i, args) ← va_int args;
      buffer ← lsh_string_putc buffer pos i;
      Ok (done (buffer, u32 (pos + 1)) args)
  | "%"%char =>
      buffer ← lsh_string_putc buffer pos 37;
      Ok (done (buffer, u32 (pos + 1)) args)
  | "i"%char =>
      '(i, args) ← va_int args;
      if decimal fl then
        let length := format_size_in_decimal (u32 i) in
        buffer ← format_decimal buffer pos length (u32 i);
        Ok (done (buffer, u32 (pos + length)) args)
      else
        buffer ← lsh_string_write_uint32 buffer pos (u32 i);
        Ok (done (buffer, u32 (pos + 4)) args)
  | "z"%char =>
      _ ← c_assert (negb (do_free fl));
      _ ← c_assert (negb (decimal fl));
      '(d, args) ← va_cstr args;
      bp ← format_string buffer pos (u32 (lenZ d)) d (literal fl) (hex fl);
      Ok (done bp args)
  | "s"%char =>
      _ ← c_assert (negb (do_free fl));
      _ ← c_assert (negb (decimal fl));
      '(size, args) ← va_int args;
      '(d, args) ← va_bytes args;
      bp ← format_string buffer pos (u32 size) d (literal fl) (hex fl);
      Ok (done bp args)
  | "S"%char =>
      '(s, args) ← va_str args;
      _ ← c_assert (negb (decimal fl));
      bp ← format_string buffer pos (lsh_string_length s) (lsh_string_data s)
             (literal fl) (hex fl);
      Ok (done bp args)
  | "r"%char =>
      '(length, args) ← va_int args;
      '(p, args) ← va_ptr args;
      _ ← c_assert (negb (decimal fl));
      '(buffer, pos) ← write_header fl buffer pos (u32 length);
      Ok (mk_wstate buffer (u32 (pos + u32 length))
            (if (p : bool) then w_stores w ++ [pos] else w_stores w), args)
  | "a"%char =>
      '(atom, args) ← va_int args;
      _ ← c_assert (c_true atom);
      length ← get_atom_length atom;
      _ ← c_assert (negb (decimal fl));
      '(buffer, pos) ← write_header fl buffer pos length;
      name ← get_atom_name atom;
      buffer ← lsh_string_write buffer pos length name;
      Ok (done (buffer, u32 (pos + length)) args)
  | "A"%char =>
      '(l, args) ← va_list args;
      if decimal fl then c_fatal
      else
        let start := pos in
        let pos := if negb (literal fl) then u32 (pos + 4) else pos in
        '(buffer, pos) ← format_atoms l 0 buffer pos;
        if negb (literal fl) then
          let total := u32 (pos - start - 4) in
          buffer ← lsh_string_write_uint32 buffer start total;
          Ok (done (buffer, pos) args)
        else Ok (done (buffer, pos) args)
  | "n"%char =>
      '(n, args) ← va_num args;
      _ ← c_assert (0 <=? n);
      _ ← c_assert (negb (decimal fl));
      let length := mpn_length fl n in
      '(buffer, pos) ← write_header fl buffer pos length;
      buffer ← lsh_string_write_bignum buffer pos length n;
      Ok (done (buffer, u32 (pos + length)) args)
  | _ => c_fatal
  end.

Fixpoint vformat_write (f : string) (m : fmt_mode) (args : list farg) (w : wstate)
  : result wstate :=
  match f, m with
  | EmptyString, Text => Ok w
  | EmptyString, Options _ => c_fatal
  | String c f, Text =>
      if Ascii.eqb c "%" then vformat_write f (Options no_flags) args w
      else
        buffer ← lsh_string_putc (w_buffer w) (w_pos w) (char_code c);
        vformat_write f Text args (mk_wstate buffer (u32 (w_pos w + 1)) (w_stores w))
  | String c f, Options fl =>
      match fmt_option c fl with
      | Some fl => vformat_write f (Options fl) args w
      | None =>
          if literal fl && decimal fl then c_fatal
          else
            '(w, args) ← conv_write c fl args w;
            vformat_write f Text args w
      end
  end.

(** Returns the buffer and the values stored through pointers. *)
Definition ssh_vformat_write (f : string) (buffer : lsh_string) (pos : Z) (args : list farg)
  : result (lsh_string * list Z) :=
  w ← vformat_write f Text args (mk_wstate buffer pos []);
  Ok (w_buffer w, w_stores w).

Definition ssh_format (f : string) (args : list farg) : result (lsh_string * list Z) :=
  length ← ssh_vformat_length f args;
  let packet := lsh_string_alloc length in
  ssh_vformat_write f packet 0 args.

(** For the formats without [%r], the string alone. *)
Definition ssh_format_string (f : string) (args : list farg) : result lsh_string :=
  '(s, _) ← ssh_format f args; Ok s.


Definition format_disconnect (code : Z) (msg language : list Z) : result lsh_string :=
  ssh_format_string "%c%i%z%z" [FInt SSH_MSG_DISCONNECT; FInt code; FCstr msg; FCstr language].

Definition format_unimplemented (seqno : Z) : result lsh_string :=
  ssh_format_string "%c%i" [FInt SSH_MSG_UNIMPLEMENTED; FInt seqno].

End format.
