(* ===== verification/FormatSpec.v ===== *)
(** * The wire encoding of [ssh_format], and its correctness

    [spec_format] gives, for a format string and its arguments, the pieces
    the message consists of: bytes that are written and, for [%r], holes that
    are left for the caller.  [ssh_format_correct] shows that both passes of
    [format.c] agree with it, so no assertion of the writer can fail. *)

From S2P Require Import Prelude Ssh Nettle Atoms LshString Format.
Local Open Scope Z_scope.

(** ** Reference encodings *)

Fixpoint dec_bytes (k : nat) (n : Z) : list Z :=
  match k with
  | O => []
  | S k => dec_bytes k (n `div` 10) ++ [48 + n `mod` 10]
  end.

Definition hex_digit (d : Z) : Z := if d <? 10 then 48 + d else 87 + d.
Definition hex_bytes (l : list Z) : list Z :=
  concat ((λ b, [hex_digit (b `div` 16); hex_digit (b `mod` 16)]) <$> l).

(** Names separated by commas. *)
Definition join_commas (names : list (list Z)) : list Z :=
  match names with
  | [] => []
  | n :: names => n ++ concat (cons 44 <$> names)
  end.

Inductive piece : Type :=
  | PBytes (b : list Z)
  | PHole (n : Z) (stored : bool).

Definition piece_size (p : piece) : Z :=
  match p with PBytes b => lenZ b | PHole n _ => n end.

Fixpoint psize (ps : list piece) : Z :=
  match ps with [] => 0 | p :: ps => piece_size p + psize ps end.

(** The buffer after the pieces are written from [pos] on. *)
Fixpoint fill (pos : Z) (ps : list piece) (l : list Z) : list Z :=
  match ps with
  | [] => l
  | PBytes b :: ps => fill (pos + lenZ b) ps (splice pos b l)
  | PHole n _ :: ps => fill (pos + n) ps l
  end.

(** The positions of the holes whose start is stored. *)
Fixpoint hole_starts (pos : Z) (ps : list piece) : list Z :=
  match ps with
  | [] => []
  | PBytes b :: ps => hole_starts (pos + lenZ b) ps
  | PHole n st :: ps => (if st then [pos] else []) ++ hole_starts (pos + n) ps
  end.

(** The written bytes, when there is no hole. *)
Fixpoint pbytes (ps : list piece) : option (list Z) :=
  match ps with
  | [] => Some []
  | PBytes b :: ps => (app b) <$> pbytes ps
  | PHole _ _ :: _ => None
  end.

Section spec.
Context `{NettleBignum} `{AtomTable}.

(** The names of the known atoms of a list. *)
Fixpoint known_names (l : list Z) : option (list (list Z)) :=
  match l with
  | [] => Some []
  | a :: l =>
      if a =? 0 then known_names l
      else match get_atom_name a with
           | Ok name => (cons name) <$> known_names l
           | Fault _ => None
           end
  end.

Definition with_header (fl : fmt_flags) (n : Z) (body : list Z) : list Z :=
  (if literal fl then [] else be32 n) ++ body.

(** Strings, possibly in hexadecimal. *)
Definition spec_string (fl : fmt_flags) (l : Z) (d : list Z) : list piece :=
  if hex fl then [PBytes (with_header fl (2 * l) (hex_bytes (slice 0 l d)))]
  else [PBytes (with_header fl l (slice 0 l d))].

Definition spec_conv (c : Ascii.ascii) (fl : fmt_flags) (args : list farg)
  : option (list piece * list farg) :=
  match c, args with
  | "%"%char, args => Some ([PBytes [37]], args)
  | "c"%char, FInt i :: args => Some ([PBytes [u8 i]], args)
  | "i"%char, FInt i :: args =>
      if decimal fl
      then Some ([PBytes (dec_bytes (Z.to_nat (format_size_in_decimal (u32 i))) (u32 i))], args)
      else Some ([PBytes (be32 (u32 i))], args)
  | "s"%char, FInt l :: FBytes d :: args =>
      if decimal fl || do_free fl || (lenZ d <? u32 l) then None
      else Some (spec_string fl (u32 l) d, args)
  | "S"%char, FStr s :: args =>
      if decimal fl then None
      else Some (spec_string fl (ls_length s) (contents s), args)
  | "z"%char, FCstr d :: args =>
      if decimal fl || do_free fl || hex fl || (UINT32_MAX <? lenZ d) then None
      else Some (spec_string fl (lenZ d) d, args)
  | "r"%char, FInt n :: FPtr p :: args =>
      if decimal fl then None
      else Some ([PBytes (with_header fl (u32 n) []); PHole (u32 n) p], args)
  | "a"%char, FInt a :: args =>
      if decimal fl || (a =? 0) then None
      else match get_atom_name a with
           | Ok name => Some ([PBytes (with_header fl (lenZ name) name)], args)
           | Fault _ => None
           end
  | "A"%char, FList l :: args =>
      if decimal fl then None
      else match known_names l with
           | Some names =>
               Some ([PBytes (with_header fl (lenZ (join_commas names)) (join_commas names))], args)
           | None => None
           end
  | "n"%char, FNum n :: args =>
      if decimal fl || (n <? 0) then None
      else let l := mpn_length fl n in
           Some ([PBytes (with_header fl l (be_bytes (Z.to_nat l) n))], args)
  | _, _ => None
  end.

Fixpoint spec_loop (f : string) (m : fmt_mode) (args : list farg) : option (list piece) :=
  match f, m with
  | EmptyString, Text => Some []
  | EmptyString, Options _ => None
  | String c f, Text =>
      if Ascii.eqb c "%" then spec_loop f (Options no_flags) args
      else (cons (PBytes [char_code c])) <$> spec_loop f Text args
  | String c f, Options fl =>
      match fmt_option c fl with
      | Some fl => spec_loop f (Options fl) args
      | None =>
          if literal fl && decimal fl then None
          else '(ps, args) ← spec_conv c fl args;
               (app ps) <$> spec_loop f Text args
      end
  end.

Definition spec_format (f : string) (args : list farg) : option (list piece) :=
  spec_loop f Text args.

End spec.

(** What the types of the arguments promise. *)
Definition farg_ok (a : farg) : Prop :=
  match a with
  | FBytes d => Forall is_byte d
  | FCstr d => Forall is_byte d
  | FStr s => lsh_string_wf s
  | _ => True
  end.

(** ** Lemmas on pieces *)

Lemma psize_app ps qs : psize (ps ++ qs) = psize ps + psize qs.
Proof. induction ps; simpl; lia. Qed.

Lemma fill_app pos ps qs l : fill pos (ps ++ qs) l = fill (pos + psize ps) qs (fill pos ps l).
Proof.
  revert pos l. induction ps as [| [b | n st] ps IH]; intros; simpl.
  - by rewrite Z.add_0_r.
  - rewrite IH. f_equal. lia.
  - rewrite IH. f_equal. lia.
Qed.

Lemma hole_starts_app pos ps qs :
  hole_starts pos (ps ++ qs) = hole_starts pos ps ++ hole_starts (pos + psize ps) qs.
Proof.
  revert pos. induction ps as [| [b | n st] ps IH]; intros; simpl.
  - by rewrite Z.add_0_r.
  - rewrite IH. do 2 f_equal. lia.
  - rewrite IH, <- app_assoc. do 3 f_equal. lia.
Qed.

(** A message without holes is the concatenation of its pieces. *)
Lemma fill_pbytes pos ps bs l :
  pbytes ps = Some bs → 0 <= pos → pos + psize ps <= lenZ l →
  psize ps = lenZ bs ∧ fill pos ps l = splice pos bs l.
Proof.
  revert pos bs l. induction ps as [| [b | n st] ps IH]; intros pos bs l Hp Hpos Hl; simpl in *.
  - injection Hp as <-. by rewrite splice_nil.
  - apply fmap_Some in Hp as (bs' & Hp & ->).
    assert (psize ps = lenZ bs') as Hs.
    { destruct (IH 0 bs' (replicate (Z.to_nat (psize ps)) 0)) as [? _]; auto; [lia |].
      rewrite lenZ_replicate. lia. }
    destruct (IH (pos + lenZ b) bs' (splice pos b l)) as [_ Hf]; auto.
    + len_lia.
    + rewrite lenZ_splice; len_lia.
    + split; [rewrite lenZ_app; lia |]. rewrite Hf. apply splice_splice; len_lia.
  - done.
Qed.

(** ** Writing into the buffer *)

(** [s'] is [s] with [bs] written at [pos]. *)
Definition wrote (s : lsh_string) (pos : Z) (bs : list Z) (s' : lsh_string) : Prop :=
  lsh_string_wf s' ∧ ls_length s' = ls_length s ∧ contents s' = splice pos bs (contents s).

Lemma wrote_nil s pos : lsh_string_wf s → wrote s pos [] s.
Proof. intros. split_and!; [done | done |]. by rewrite splice_nil. Qed.

Lemma wrote_app s pos a s1 b s2 :
  lsh_string_wf s → 0 <= pos → pos + lenZ a + lenZ b <= ls_length s →
  wrote s pos a s1 → wrote s1 (pos + lenZ a) b s2 → wrote s pos (a ++ b) s2.
Proof.
  intros Hwf Hpos Hroom (Hw1 & Hl1 & Hc1) (Hw2 & Hl2 & Hc2).
  split_and!; [done | congruence |].
  rewrite Hc2, Hc1. apply splice_splice; [done |]. by rewrite lenZ_contents.
Qed.

Lemma wrote_wf s pos bs s' : wrote s pos bs s' → lsh_string_wf s'.
Proof. by intros (? & _). Qed.

Lemma wrote_len s pos bs s' : wrote s pos bs s' → ls_length s' = ls_length s.
Proof. by intros (_ & ? & _). Qed.

Lemma wf_u32 s pos : lsh_string_wf s → 0 <= pos <= ls_length s → u32 pos = pos.
Proof. intros [[] _ _ _] ?. apply u32_id. unfold is_u32. lia. Qed.

#[export] Hint Resolve wrote_wf wrote_nil : lsh.

(** Writing a prefix after its suffix. *)
Lemma splice_swap {A} pos (a : list A) p (b l : list A) :
  0 <= pos → p = pos + lenZ a → p + lenZ b <= lenZ l →
  splice pos a (splice p b l) = splice pos (a ++ b) l.
Proof.
  intros Hp -> Hl. unfold splice, lenZ in *.
  assert (length (take (Z.to_nat (pos + Z.of_nat (length a))) l) = Z.to_nat pos + length a)%nat
    as Hlt by (rewrite length_take; lia).
  rewrite take_app_le by lia. rewrite take_take. rewrite <- !app_assoc.
  f_equal; [f_equal; lia |]. f_equal.
  rewrite drop_app_ge by lia. rewrite Hlt.
  replace (_ - _)%nat with 0%nat by lia. rewrite drop_0, length_app. f_equal. f_equal. lia.
Qed.

Section writers.
Context `{MallocOk} `{NettleMacrosOk} `{NettleBignumOk} `{AtomTableOk}.

Lemma putc_wrote s pos c :
  lsh_string_wf s → 0 <= pos < ls_length s →
  ∃ s', lsh_string_putc s pos c = Ok s' ∧ wrote s pos [u8 c] s'.
Proof. intros Hwf Hp. destruct (lsh_string_putc_spec s pos c) as (s' & -> & ? & ? & ?); eauto.
  exists s'. by split_and!. Qed.

Lemma uint32_wrote s pos n :
  lsh_string_wf s → 0 <= pos → pos + 4 <= ls_length s → is_u32 n →
  ∃ s', lsh_string_write_uint32 s pos n = Ok s' ∧ wrote s pos (be32 n) s'.
Proof. intros. destruct (lsh_string_write_uint32_spec s pos n) as (s' & -> & ? & ? & ?); eauto.
  exists s'. by split_and!. Qed.

Lemma write_wrote s pos l d :
  lsh_string_wf s → 0 <= pos → 0 <= l → pos + l <= ls_length s → l <= lenZ d → Forall is_byte d →
  ∃ s', lsh_string_write s pos l d = Ok s' ∧ wrote s pos (slice 0 l d) s'.
Proof. intros. destruct (lsh_string_write_spec s pos l d) as (s' & -> & ? & ? & ?); eauto.
  exists s'. by split_and!. Qed.

(** Decimal output, least significant digit first. *)
Lemma format_decimal_loop_wrote k i s start length n :
  lsh_string_wf s → 0 <= start → 0 <= i → length = i + Z.of_nat k → start + length <= ls_length s →
  0 <= n →
  ∃ s', format_decimal_loop k i s start length n = Ok s' ∧ wrote s start (dec_bytes k n) s'.
Proof.
  revert i s n. induction k as [| k IH]; intros i s n Hwf Hst Hi Hlen Hroom Hn; simpl.
  - exists s. split; [done | by apply wrote_nil].
  - destruct (putc_wrote s (start + length - i - 1) (48 + n `mod` 10)) as (s1 & -> & Hw1);
      [done | lia |]. rewrite bind_ok_l.
    destruct (IH (i + 1) s1 (n `div` 10)) as (s2 & -> & Hw2);
      [eauto with lsh | lia | lia | lia | by rewrite (wrote_len _ _ _ _ Hw1) | by apply Z.div_pos |].
    exists s2. split; [done |].
    pose proof (Z.mod_pos_bound n 10 ltac:(lia)).
    destruct Hw1 as (Hwf1 & Hl1 & Hc1), Hw2 as (Hwf2 & Hl2 & Hc2).
    split_and!; [done | congruence |].
    rewrite Hc2, Hc1. pose proof (lenZ_contents _ Hwf) as Hlc.
    rewrite u8_id by (unfold is_byte; lia).
    assert (lenZ (dec_bytes k (n `div` 10)) = Z.of_nat k) as Hdl.
    { clear. generalize (n `div` 10). induction k; intros; simpl; [done |].
      rewrite lenZ_app, IHk. autorewrite with lsh. lia. }
    apply (splice_swap start (dec_bytes k (n `div` 10)) (start + length - i - 1));
      autorewrite with lsh; lia.
Qed.

Lemma hexchars_digit d : 0 <= d < 16 → rd hexchars d = Ok (hex_digit d) ∧ is_byte (hex_digit d).
Proof.
  intros Hd. unfold is_byte, hex_digit.
  assert (d = 0 ∨ d = 1 ∨ d = 2 ∨ d = 3 ∨ d = 4 ∨ d = 5 ∨ d = 6 ∨ d = 7 ∨ d = 8 ∨ d = 9
          ∨ d = 10 ∨ d = 11 ∨ d = 12 ∨ d = 13 ∨ d = 14 ∨ d = 15) as Hc by lia.
  destruct_or! Hc; subst d; (split; [done | simpl; lia]).
Qed.

Lemma hi_nibble b : is_byte b → Z.shiftr (Z.land b 240) 4 = b `div` 16.
Proof.
  intros Hb. change 240 with (Z.shiftl (Z.ones 4) 4).
  rewrite Z.shiftr_land, Z.shiftr_shiftl_l, Z.sub_diag, Z.shiftl_0_r by lia.
  rewrite Z.land_ones, Z.shiftr_div_pow2 by lia. unfold is_byte in Hb.
  apply Z.mod_small. change (2 ^ 4) with 16. split; [apply Z.div_pos; lia |].
  apply Z.div_lt_upper_bound; lia.
Qed.

Lemma lo_nibble b : Z.land b 15 = b `mod` 16.
Proof. change 15 with (Z.ones 4). by rewrite Z.land_ones by lia. Qed.

Lemma lenZ_hex_bytes d : lenZ (hex_bytes d) = 2 * lenZ d.
Proof.
  induction d as [| b d IH]; [done |].
  change (hex_bytes (b :: d)) with ([hex_digit (b `div` 16); hex_digit (b `mod` 16)] ++ hex_bytes d).
  autorewrite with lsh. lia.
Qed.

Lemma format_hex_loop_wrote d s pos :
  lsh_string_wf s → 0 <= pos → pos + 2 * lenZ d <= ls_length s → Forall is_byte d →
  ∃ s', format_hex_loop s pos d = Ok (s', pos + 2 * lenZ d) ∧ wrote s pos (hex_bytes d) s'.
Proof.
  revert s pos. induction d as [| b d IH]; intros s pos Hwf Hp Hroom Hb; cbn [format_hex_loop].
  - exists s. split; [change (lenZ []) with 0; do 2 f_equal; lia | by apply wrote_nil].
  - apply Forall_cons in Hb as [Hb Hd]. pose proof (lenZ_nonneg d). rewrite lenZ_cons in *.
    rewrite hi_nibble, lo_nibble by done.
    destruct (hexchars_digit (b `div` 16)) as [-> Hh].
    { unfold is_byte in Hb. split; [apply Z.div_pos; lia | apply Z.div_lt_upper_bound; lia]. }
    destruct (hexchars_digit (b `mod` 16)) as [-> Hlo]; [by apply Z.mod_pos_bound |].
    rewrite !bind_ok_l.
    destruct (putc_wrote s pos (hex_digit (b `div` 16))) as (s1 & -> & Hw1); [done | lia |].
    rewrite !bind_ok_l. rewrite (wf_u32 s (pos + 1)), (wf_u32 s (pos + 2)) by (done || lia).
    pose proof (wrote_len _ _ _ _ Hw1) as Hl1.
    destruct (putc_wrote s1 (pos + 1) (hex_digit (b `mod` 16))) as (s2 & -> & Hw2);
      [eauto with lsh | lia |]. rewrite !bind_ok_l.
    pose proof (wrote_len _ _ _ _ Hw2) as Hl2.
    destruct (IH s2 (pos + 2)) as (s3 & -> & Hw3); [eauto with lsh | lia | lia | done |].
    exists s3. split; [do 2 f_equal; lia |].
    rewrite u8_id in Hw1, Hw2 by done.
    assert (wrote s pos ([hex_digit (b `div` 16)] ++ [hex_digit (b `mod` 16)]) s2) as Hw12.
    { apply (wrote_app _ _ _ s1); autorewrite with lsh; auto; lia. }
    apply (wrote_app s pos _ s2 (hex_bytes d)); [done | done | | done | done].
    rewrite lenZ_hex_bytes. autorewrite with lsh. lia.
Qed.

Lemma write_header_wrote fl s pos n :
  lsh_string_wf s → 0 <= pos → pos + lenZ (with_header fl n []) <= ls_length s → is_u32 n →
  ∃ s', write_header fl s pos n = Ok (s', pos + lenZ (with_header fl n []))
        ∧ wrote s pos (with_header fl n []) s'.
Proof.
  unfold write_header, with_header. intros Hwf Hp Hroom Hn. rewrite app_nil_r in *.
  destruct (literal fl); simpl.
  - exists s. split; [change (lenZ []) with 0; by rewrite Z.add_0_r | by apply wrote_nil].
  - rewrite lenZ_be32 in *. destruct (uint32_wrote s pos n) as (s1 & -> & Hw); [done | done | done | done |].
    rewrite bind_ok_l, (wf_u32 s) by (done || lia). eauto.
Qed.

Lemma with_header_split fl n body :
  with_header fl n body = with_header fl n [] ++ body.
Proof. unfold with_header. by rewrite app_nil_r. Qed.

Lemma format_string_header s pos size d fl :
  format_string s pos size d (literal fl) (hex fl) =
  ('(s, pos) ← write_header fl s pos (if hex fl then u32 (2 * size) else size);
   if negb (hex fl) then
     s ← lsh_string_write s pos size d; Ok (s, u32 (pos + size))
   else if lenZ d <? size then Fault OutOfBounds
   else format_hex_loop s pos (slice 0 size d)).
Proof. done. Qed.

Lemma format_string_wrote s pos l d fl :
  lsh_string_wf s → 0 <= pos → 0 <= l → l <= lenZ d → Forall is_byte d →
  pos + psize (spec_string fl l d) <= ls_length s →
  ∃ s' bs, spec_string fl l d = [PBytes bs]
        ∧ format_string s pos l d (literal fl) (hex fl) = Ok (s', pos + lenZ bs)
        ∧ wrote s pos bs s'.
Proof.
  intros Hwf Hp Hl Hd Hb Hroom. rewrite format_string_header. unfold spec_string in *.
  pose proof (wf_length _ Hwf) as [_ Hmax].
  assert (Forall is_byte (slice 0 l d)) as Hsb by (unfold slice; by apply Forall_take, Forall_drop).
  assert (lenZ (slice 0 l d) = l) as Hsl by (by apply lenZ_slice).
  destruct (hex fl); simpl in Hroom; rewrite with_header_split, lenZ_app in Hroom.
  - rewrite lenZ_hex_bytes, Hsl in Hroom. pose proof (lenZ_nonneg (with_header fl (2 * l) [])).
    rewrite u32_id by (unfold is_u32; lia).
    destruct (write_header_wrote fl s pos (2 * l)) as (s1 & -> & Hw1); [done | done | lia | unfold is_u32; lia |].
    simpl. rewrite (proj2 (Z.ltb_ge _ _)) by lia. pose proof (wrote_len _ _ _ _ Hw1).
    destruct (format_hex_loop_wrote (slice 0 l d) s1 (pos + lenZ (with_header fl (2 * l) [])))
      as (s2 & -> & Hw2); [eauto with lsh | lia | lia | done |].
    eexists s2, _. split; [done |]. rewrite (with_header_split _ _ (hex_bytes _)), lenZ_app, lenZ_hex_bytes.
    split; [do 2 f_equal; lia |].
    apply (wrote_app _ _ _ s1); auto. rewrite lenZ_hex_bytes. lia.
  - rewrite Hsl in Hroom. pose proof (lenZ_nonneg (with_header fl l [])).
    destruct (write_header_wrote fl s pos l) as (s1 & -> & Hw1); [done | done | lia | unfold is_u32; lia |].
    simpl. pose proof (wrote_len _ _ _ _ Hw1).
    destruct (write_wrote s1 (pos + lenZ (with_header fl l [])) l d) as (s2 & -> & Hw2);
      [eauto with lsh | lia | lia | lia | done | done |].
    simpl. rewrite (wf_u32 s) by (done || lia).
    eexists s2, _. split; [done |]. rewrite (with_header_split _ _ (slice 0 l d)), lenZ_app, Hsl.
    split; [do 2 f_equal; lia |]. apply (wrote_app _ _ _ s1); auto. lia.
Qed.

(** ** Name lists *)

Lemma get_atom_name_length a name :
  get_atom_name a = Ok name →
  get_atom_length a = Ok (lenZ name) ∧ Forall is_byte name.
Proof.
  unfold get_atom_name, get_atom_length. intros Hn. ok_inv.
  match goal with H : rd _ _ = Ok ?e |- _ => destruct e as [n len]; rewrite H; apply rd_lookup in H as [_ Hl] end.
  destruct (atom_table_entry _ _ _ Hl) as [-> (Hb & _)]. done.
Qed.

Definition names_tail (n : Z) (names : list (list Z)) : list Z :=
  if c_true n then concat (cons 44 <$> names) else join_commas names.

Lemma names_tail_cons n name names :
  0 <= n →
  names_tail n (name :: names) = (if c_true n then [44] else []) ++ name ++ names_tail (n + 1) names.
Proof.
  intros Hn. unfold names_tail. replace (c_true (n + 1)) with true by (unfold c_true; lia).
  by destruct (c_true n).
Qed.

Lemma atoms_length_spec l names n len :
  known_names l = Some names → 0 <= n → is_u32 len →
  atoms_length l n len = Ok (n + lenZ names, u32 (len + lenZ (concat names))).
Proof.
  revert names n len. induction l as [| a l IH]; intros names n len Hk Hn Hlen; simpl in *.
  - injection Hk as <-. simpl. change (lenZ []) with 0. change (lenZ []) with 0.
    rewrite !Z.add_0_r. by rewrite u32_id.
  - unfold c_true. destruct (a =? 0); simpl; [by apply IH |].
    destruct (get_atom_name a) as [name |] eqn:Ha; [| done].
    apply fmap_Some in Hk as (names' & Hk & ->).
    destruct (get_atom_name_length _ _ Ha) as [-> _]. rewrite bind_ok_l.
    rewrite (IH _ _ _ Hk) by (lia || apply u32_range).
    rewrite u32_add_l. simpl. autorewrite with lsh. do 2 f_equal; [lia |]. f_equal. lia.
Qed.

Lemma lenZ_commas names : lenZ (concat (cons 44 <$> names)) = lenZ names + lenZ (concat names).
Proof.
  induction names as [| n names IH]; [done |].
  rewrite fmap_cons. simpl. autorewrite with lsh. lia.
Qed.

Lemma lenZ_join names :
  lenZ (join_commas names) = lenZ (concat names) + (if c_true (lenZ names) then lenZ names - 1 else 0).
Proof.
  destruct names as [| n names]; [done |].
  replace (c_true (lenZ (n :: names))) with true
    by (unfold c_true; pose proof (lenZ_nonneg names); rewrite lenZ_cons; lia).
  simpl. autorewrite with lsh. rewrite lenZ_commas. lia.
Qed.

Lemma format_atoms_wrote l names n s pos :
  known_names l = Some names → 0 <= n → lsh_string_wf s → 0 <= pos →
  pos + lenZ (names_tail n names) <= ls_length s →
  ∃ s', format_atoms l n s pos = Ok (s', pos + lenZ (names_tail n names))
        ∧ wrote s pos (names_tail n names) s'.
Proof.
  revert names n s pos. induction l as [| a l IH]; intros names n s pos Hk Hn Hwf Hp Hroom; simpl in *.
  - injection Hk as <-. exists s.
    replace (names_tail n []) with (@nil Z) by (unfold names_tail; by destruct (c_true n)).
    change (lenZ []) with 0. rewrite Z.add_0_r. split; [done | by apply wrote_nil].
  - unfold c_true at 1. destruct (a =? 0); simpl; [by apply IH |].
    destruct (get_atom_name a) as [name |] eqn:Ha; [| done].
    apply fmap_Some in Hk as (names' & Hk & ->).
    destruct (get_atom_name_length _ _ Ha) as [-> Hb]. rewrite bind_ok_l.
    rewrite names_tail_cons in * by done. rewrite !lenZ_app in Hroom.
    set (sep := if c_true n then [44] else []) in *.
    pose proof (lenZ_nonneg sep). pose proof (lenZ_nonneg name).
    pose proof (lenZ_nonneg (names_tail (n + 1) names')).
    assert (∃ s1, (if c_true n then s ← lsh_string_putc s pos 44; Ok (s, u32 (pos + 1))
                   else Ok (s, pos)) = Ok (s1, pos + lenZ sep) ∧ wrote s pos sep s1)
      as (s1 & -> & Hw1).
    { unfold sep in *. destruct (c_true n).
      - destruct (putc_wrote s pos 44) as (s1 & -> & Hw); [done | autorewrite with lsh in *; lia |].
        exists s1. simpl. rewrite (wf_u32 s) by (done || (autorewrite with lsh in *; lia)). done.
      - exists s. change (lenZ []) with 0. rewrite Z.add_0_r. split; [done | by apply wrote_nil]. }
    pose proof (wrote_len _ _ _ _ Hw1) as Hl1. simpl.
    destruct (write_wrote s1 (pos + lenZ sep) (lenZ name) name) as (s2 & -> & Hw2);
      [eauto with lsh | lia | lia | lia | lia | done |].
    rewrite bind_ok_l, (wf_u32 s) by (done || lia).
    rewrite slice_all in Hw2. pose proof (wrote_len _ _ _ _ Hw2) as Hl2.
    destruct (IH names' (n + 1) s2 (pos + lenZ sep + lenZ name)) as (s3 & -> & Hw3);
      [done | lia | eauto with lsh | lia | lia |].
    exists s3. rewrite !lenZ_app. split; [do 2 f_equal; lia |].
    apply (wrote_app s pos sep s1); [done | done | rewrite lenZ_app; lia | done |].
    apply (wrote_app s1 _ name s2); [eauto with lsh | lia | lia | done | done].
Qed.


(** ** Both passes, conversion by conversion *)

Lemma spec_conv_char c fl args r :
  spec_conv c fl args = Some r →
  c ∈ (["%"; "c"; "i"; "s"; "S"; "z"; "r"; "a"; "A"; "n"]%char : list Ascii.ascii).
Proof.
  destruct c as [[] [] [] [] [] [] [] []]; intros Hs;
    first [exfalso; destruct args; discriminate Hs | by repeat constructor].
Qed.

Lemma psize_string_overhead fl l d len :
  decimal fl = false → 0 <= l <= lenZ d → is_u32 len → hex fl = false →
  string_overhead fl l (u32 (len + l)) = u32 (len + psize (spec_string fl l d)).
Proof.
  intros Hd Hl Hlen Hx. unfold string_overhead, spec_string. rewrite Hd, Hx. simpl.
  rewrite with_header_split, lenZ_app, lenZ_slice by lia.
  unfold with_header. destruct (literal fl); simpl.
  - f_equal. autorewrite with lsh. lia.
  - rewrite u32_add_l. f_equal. autorewrite with lsh. lia.
Qed.

Lemma psize_string_overhead_hex fl l d len :
  decimal fl = false → 0 <= l <= lenZ d → is_u32 len →
  string_overhead fl l (if hex fl then u32 (u32 (len + l) + l) else u32 (len + l))
  = u32 (len + psize (spec_string fl l d)).
Proof.
  intros Hd Hl Hlen. destruct (hex fl) eqn:Hx; [| by apply psize_string_overhead].
  unfold string_overhead, spec_string. rewrite Hd, Hx. simpl.
  rewrite with_header_split, lenZ_app, lenZ_hex_bytes, lenZ_slice by lia.
  unfold with_header. destruct (literal fl); simpl; rewrite ?u32_add_l; [| rewrite <- Z.add_assoc, u32_add_l];
    f_equal; autorewrite with lsh; lia.
Qed.

Lemma header_length fl n body len :
  u32 (len + lenZ (with_header fl n body)) =
  (if negb (literal fl) then u32 (u32 (len + lenZ body) + 4) else u32 (len + lenZ body)).
Proof.
  unfold with_header. destruct (literal fl); simpl; [done |].
  rewrite u32_add_l. autorewrite with lsh. f_equal. lia.
Qed.

Lemma mpn_length_nonneg fl n : 0 <= n → 0 <= mpn_length fl n ∧ n < 256 ^ mpn_length fl n.
Proof.
  intros Hn. unfold mpn_length. destruct (Z.eqb_spec n 0) as [-> |]; [simpl; lia |].
  destruct (unsigned_form fl).
  - destruct (proj1 (sizeinbase_256_u_spec n _ ltac:(lia)) eq_refl). lia.
  - destruct (proj1 (sizeinbase_256_s_spec n _ ltac:(lia)) eq_refl). lia.
Qed.

(** [format_size_in_decimal] is the number of decimal digits. *)
Lemma format_size_in_decimal_spec n :
  is_u32 n →
  1 <= format_size_in_decimal n <= 10
  ∧ n < 10 ^ format_size_in_decimal n
  ∧ (0 < n → 10 ^ (format_size_in_decimal n - 1) <= n).
Proof.
  intros [Hn1 Hn2]. unfold format_size_in_decimal. cbn [foldl].
  change (Z.shiftl 1 3) with 8. change (Z.shiftl 1 2) with 4.
  change (Z.shiftl 1 1) with 2. change (Z.shiftl 1 0) with 1.
  repeat (match goal with |- context [if ?a <=? ?b then _ else _] =>
            destruct (Z.leb_spec a b) end; cbn -[Z.pow Z.div]).
  all: repeat match goal with |- context [10 ^ ?k] =>
         let v := eval compute in (10 ^ k) in change (10 ^ k) with v end.
  all: Z.div_mod_to_equations; lia.
Qed.

Lemma lenZ_dec_bytes k n : lenZ (dec_bytes k n) = Z.of_nat k.
Proof. revert n. induction k; intros; simpl; [done |]. rewrite lenZ_app, IHk. autorewrite with lsh. lia. Qed.

(** Bring the argument list into the shape the reference definition expects. *)
Ltac conv_args Hs Hargs :=
  simpl in Hs;
  repeat match type of Hs with context [match ?a with [] => _ | _ :: _ => _ end] =>
    destruct a as [| [] ?]; try discriminate Hs end;
  repeat rewrite list.Forall_cons in Hargs; destruct_and? Hargs; simpl in *;
  repeat match type of Hs with
  | (if ?b then _ else _) = _ => destruct b eqn:?; try discriminate Hs
  | match ?m with _ => _ end = _ => destruct m eqn:?; try discriminate Hs
  end; injection Hs as <- <-.

(** Case analysis on the conversion character. *)
Ltac conv_cases Hs :=
  let Hc := fresh "Hc" in
  pose proof (spec_conv_char _ _ _ _ Hs) as Hc;
  repeat (apply elem_of_cons in Hc as [-> | Hc]); [.. | by apply not_elem_of_nil in Hc].

Lemma conv_length_spec c fl args ps args' len :
  Forall farg_ok args → is_u32 len →
  spec_conv c fl args = Some (ps, args') →
  conv_length c fl args len = Ok (u32 (len + psize ps), args') ∧ Forall farg_ok args'.
Proof.
  intros Hargs Hlen Hs. conv_cases Hs; conv_args Hs Hargs; (split; [| done]).
  - done.
  - done.
  - pose proof (format_size_in_decimal_spec (u32 i) (u32_range i)).
    simpl. rewrite lenZ_dec_bytes. do 3 f_equal. lia.
  - done.
  - pose proof (u32_range i). unfold is_u32 in *.
    rewrite psize_string_overhead_hex with (d := d); [done | | | done];
      destruct (decimal fl), (do_free fl); simpl in *; done || lia.
  - rewrite (psize_string_overhead_hex fl _ (contents s)); [done | done | | done].
    rewrite lenZ_contents by done. pose proof (wf_length s) as Hw. unfold is_u32 in Hw. 
    unfold lsh_string_length. intuition lia.
  - destruct (decimal fl) eqn:?, (do_free fl), (hex fl) eqn:?; simpl in *; try discriminate.
    unfold UINT32_MAX in *. pose proof (lenZ_nonneg d).
    rewrite (u32_id (lenZ d)) by (unfold is_u32; lia).
    rewrite (psize_string_overhead fl _ d); [done | done | lia | done | done].
  - simpl. do 2 f_equal. unfold with_header.
    destruct (literal fl); simpl; rewrite ?u32_add_l; f_equal; autorewrite with lsh; lia.
  - match goal with H : _ || _ = false |- _ => apply orb_false_iff in H as [Hd Hi] end.
    rewrite c_assert_true by (unfold c_true; by rewrite Hi).
    match goal with H : get_atom_name _ = Ok _ |- _ =>
      destruct (get_atom_name_length _ _ H) as [-> _] end.
    simpl. unfold string_overhead. by rewrite Z.add_0_r, header_length, Hd.
  - match goal with H : known_names _ = Some _ |- _ =>
      rewrite (atoms_length_spec _ _ _ _ H) by (done || lia) end.
    simpl. rewrite Z.add_0_r, header_length, lenZ_join, Z.add_0_l.
    destruct (literal fl), (c_true (lenZ _)); simpl; u32_norm; do 2 f_equal; f_equal; lia.
  - match goal with H : _ || _ = false |- _ => apply orb_false_iff in H as [Hd Hi] end.
    rewrite Hd. pass_assert. simpl. rewrite Z.add_0_r, header_length.
    destruct (mpn_length_nonneg fl n) as [? _]; [lia |].
    by rewrite lenZ_be_bytes, Z2Nat.id by lia.
Qed.

Lemma bignum_wrote s pos l n :
  lsh_string_wf s → 0 <= pos → 0 <= l → pos + l <= ls_length s → 0 <= n < 256 ^ l →
  ∃ s', lsh_string_write_bignum s pos l n = Ok s' ∧ wrote s pos (be_bytes (Z.to_nat l) n) s'.
Proof.
  intros Hwf Hp Hl Hroom Hn. unfold lsh_string_write_bignum.
  rewrite ASSERT_ROOM_ok, bind_ok_l, get_str_256_spec by lia.
  destruct (splice_wf s pos (be_bytes (Z.to_nat l) n)) as [Hw Hc]; [done | done | | |].
  - rewrite lenZ_be_bytes. lia.
  - apply be_bytes_bytes.
  - rewrite assert_nul_wf by done. eexists. by split_and!.
Qed.

(** The effect of a conversion on the writing state. *)
Definition conv_effect (w : wstate) (ps : list piece) (w' : wstate) : Prop :=
  lsh_string_wf (w_buffer w') ∧ ls_length (w_buffer w') = ls_length (w_buffer w)
  ∧ contents (w_buffer w') = fill (w_pos w) ps (contents (w_buffer w))
  ∧ w_pos w' = w_pos w + psize ps
  ∧ w_stores w' = w_stores w ++ hole_starts (w_pos w) ps.

Lemma bytes_effect w bs s' :
  wrote (w_buffer w) (w_pos w) bs s' →
  conv_effect w [PBytes bs] (mk_wstate s' (w_pos w + lenZ bs) (w_stores w)).
Proof.
  intros (? & ? & ?). split_and!; try done; simpl.
  - by rewrite Z.add_0_r.
  - by rewrite app_nil_r.
Qed.

(** A conversion writes its pieces. *)
Definition conv_written (c : Ascii.ascii) : Prop :=
  ∀ fl args ps args' s pos st,
    Forall farg_ok args → spec_conv c fl args = Some (ps, args') →
    lsh_string_wf s → 0 <= pos → pos + psize ps <= ls_length s →
    ∃ w', conv_write c fl args (mk_wstate s pos st) = Ok (w', args')
          ∧ conv_effect (mk_wstate s pos st) ps w'.

Ltac conv_start :=
  intros fl args ps args' s pos st Hargs Hs Hwf Hp Hroom; conv_args Hs Hargs;
  cbn [psize piece_size] in Hroom; rewrite ?Z.add_0_r in Hroom.

Lemma written_percent : conv_written "%".
Proof.
  conv_start.
  destruct (putc_wrote s pos 37) as (s' & -> & Hw); [done | autorewrite with lsh in *; lia |].
  simpl. rewrite (wf_u32 s) by (done || (autorewrite with lsh in *; lia)).
  eexists. split; [done |]. by apply (bytes_effect (mk_wstate s pos st) [37]).
Qed.

Lemma written_char : conv_written "c".
Proof.
  conv_start.
  destruct (putc_wrote s pos i) as (s' & -> & Hw); [done | autorewrite with lsh in *; lia |].
  simpl. rewrite (wf_u32 s) by (done || (autorewrite with lsh in *; lia)).
  eexists. split; [done |]. by apply (bytes_effect (mk_wstate s pos st) [u8 i]).
Qed.

Lemma written_int : conv_written "i".
Proof.
  conv_start.
  - rewrite lenZ_dec_bytes in Hroom.
    pose proof (format_size_in_decimal_spec (u32 i) (u32_range i)) as [? _].
    destruct (format_decimal_loop_wrote (Z.to_nat (format_size_in_decimal (u32 i))) 0 s pos
      (format_size_in_decimal (u32 i)) (u32 i)) as (s' & Heq & Hw);
      [done | done | lia | lia | lia | apply u32_range |].
    unfold format_decimal. rewrite Heq. simpl.
    rewrite (wf_u32 s) by (done || lia). eexists. split; [done |].
    apply (bytes_effect (mk_wstate s pos st)) in Hw. by rewrite lenZ_dec_bytes, Z2Nat.id in Hw by lia.
  - rewrite lenZ_be32 in Hroom.
    destruct (uint32_wrote s pos (u32 i)) as (s' & -> & Hw); [done | done | done | apply u32_range |].
    simpl. rewrite (wf_u32 s) by (done || lia).
    eexists. split; [done |]. by apply (bytes_effect (mk_wstate s pos st) (be32 (u32 i))).
Qed.

Lemma written_bytes : conv_written "s".
Proof.
  conv_start.
  destruct (decimal fl), (do_free fl); simpl in *; try discriminate.
  pose proof (u32_range i) as Hi. unfold is_u32 in Hi.
  destruct (format_string_wrote s pos (u32 i) d fl) as (s' & bs & -> & -> & Hw);
    [done | done | lia | lia | done | done |].
  eexists. split; [done |]. by apply (bytes_effect (mk_wstate s pos st)).
Qed.

Lemma written_string : conv_written "S".
Proof.
  conv_start.
  rename s0 into str. match goal with H : lsh_string_wf str |- _ => rename H into Hstr end.
  pose proof (wf_room _ Hstr). pose proof (wf_length _ Hstr) as Hi. unfold is_u32 in Hi.
  replace (spec_string fl (ls_length str) (contents str))
    with (spec_string fl (ls_length str) (ls_data str)) in *
    by (unfold spec_string, contents; by rewrite slice_slice by lia).
  destruct (format_string_wrote s pos (ls_length str) (ls_data str) fl) as (s' & bs & -> & Heq & Hw);
    [done | done | lia | lia | apply Hstr | done |].
  unfold lsh_string_length, lsh_string_data. rewrite Heq. simpl.
  eexists. split; [done |]. by apply (bytes_effect (mk_wstate s pos st)).
Qed.

Lemma written_cstring : conv_written "z".
Proof.
  conv_start.
  destruct (decimal fl), (do_free fl), (hex fl) eqn:Hx; simpl in *; try discriminate.
  unfold UINT32_MAX in *. pose proof (lenZ_nonneg d).
  rewrite (u32_id (lenZ d)) by (unfold is_u32; lia).
  destruct (format_string_wrote s pos (lenZ d) d fl) as (s' & bs & -> & Heq & Hw);
    [done | done | lia | lia | done | done |].
  rewrite <- Hx, Heq. simpl. eexists. split; [done |]. by apply (bytes_effect (mk_wstate s pos st)).
Qed.

Lemma written_hole : conv_written "r".
Proof.
  conv_start.
  pose proof (u32_range i) as Hi. unfold is_u32 in Hi. pose proof (lenZ_nonneg (with_header fl (u32 i) [])).
  destruct (write_header_wrote fl s pos (u32 i)) as (s' & -> & Hw); [done | done | lia | done |].
  simpl. rewrite (wf_u32 s) by (done || lia). eexists. split; [done |].
  destruct Hw as (Hw & Hl & Hc). split_and!; try done; simpl.
  + lia.
  + destruct p; [done |]. by rewrite app_nil_r.
Qed.

Lemma written_atom : conv_written "a".
Proof.
  conv_start.
  match goal with H : _ || _ = false |- _ => apply orb_false_iff in H as [Hd Hi] end.
  match goal with H : get_atom_name _ = Ok _ |- _ =>
    rename H into Ha; destruct (get_atom_name_length _ _ Ha) as [-> Hb] end.
  rewrite (c_assert_true (c_true i)) by (unfold c_true; by rewrite Hi). rewrite Hd. simpl.
  rewrite with_header_split, lenZ_app in Hroom. pose proof (lenZ_nonneg a).
  pose proof (wf_length _ Hwf) as [_ Hmax].
  pose proof (lenZ_nonneg (with_header fl (lenZ a) [])).
  destruct (write_header_wrote fl s pos (lenZ a)) as (s1 & -> & Hw1);
    [done | done | lia | unfold is_u32; lia |].
  simpl. pose proof (wrote_len _ _ _ _ Hw1).
  destruct (write_wrote s1 (pos + lenZ (with_header fl (lenZ a) [])) (lenZ a) a) as (s2 & -> & Hw2);
    [eauto with lsh | lia | lia | lia | lia | done |].
  simpl. rewrite slice_all in Hw2. rewrite (wf_u32 s) by (done || lia). eexists. split; [done |].
  rewrite with_header_split. rewrite <- Z.add_assoc, <- lenZ_app.
  apply (bytes_effect (mk_wstate s pos st)). simpl. apply (wrote_app _ _ _ s1); auto. lia.
Qed.

Lemma written_atoms : conv_written "A".
Proof.
  conv_start.
  match goal with H : known_names _ = Some ?x |- _ => rename H into Hk, x into names end.
  rewrite with_header_split, lenZ_app in Hroom.
  assert (names_tail 0 names = join_commas names) as Hnt by done.
  set (body := join_commas names) in *. pose proof (lenZ_nonneg body).
  pose proof (wf_length _ Hwf) as [_ Hmax]. unfold with_header in *.
  destruct (literal fl); simpl.
  + autorewrite with lsh in Hroom.
    destruct (format_atoms_wrote l names 0 s pos) as (s1 & -> & Hw1);
      [done | lia | done | done | rewrite Hnt; lia |].
    simpl. eexists. split; [done |]. by apply (bytes_effect (mk_wstate s pos st)).
  + autorewrite with lsh in Hroom. rewrite (wf_u32 s) by (done || lia).
    destruct (format_atoms_wrote l names 0 s (pos + 4)) as (s1 & -> & Hw1);
      [done | lia | done | lia | rewrite Hnt; lia |].
    simpl. rewrite Hnt in *. pose proof (wrote_len _ _ _ _ Hw1).
    replace (pos + 4 + lenZ body - pos - 4) with (lenZ body) by lia.
    rewrite u32_id by (unfold is_u32; lia).
    destruct (uint32_wrote s1 pos (lenZ body)) as (s2 & -> & Hw2);
      [eauto with lsh | done | lia | unfold is_u32; lia |].
    simpl. eexists. split; [done |].
    replace (pos + 4 + lenZ body) with (pos + lenZ (be32 (lenZ body) ++ body))
      by (rewrite lenZ_app, lenZ_be32; lia).
    apply (bytes_effect (mk_wstate s pos st)).
    destruct Hw1 as (? & ? & Hc1), Hw2 as (? & ? & Hc2). split_and!; [done | simpl; congruence |].
    rewrite Hc2, Hc1. cbn [w_buffer w_pos]. apply splice_swap; [done | by rewrite lenZ_be32 |].
    rewrite lenZ_contents by done. lia.
Qed.

Lemma written_bignum : conv_written "n".
Proof.
  conv_start.
  match goal with H : _ || _ = false |- _ => apply orb_false_iff in H as [Hd Hi] end.
  rewrite Hd. pass_assert. simpl. destruct (mpn_length_nonneg fl n) as [? ?]; [lia |].
  rewrite with_header_split, lenZ_app, lenZ_be_bytes, Z2Nat.id in Hroom by lia.
  pose proof (wf_length _ Hwf) as [_ Hmax].
  pose proof (lenZ_nonneg (with_header fl (mpn_length fl n) [])).
  destruct (write_header_wrote fl s pos (mpn_length fl n)) as (s1 & -> & Hw1);
    [done | done | lia | unfold is_u32; lia |].
  simpl. pose proof (wrote_len _ _ _ _ Hw1).
  destruct (bignum_wrote s1 (pos + lenZ (with_header fl (mpn_length fl n) [])) (mpn_length fl n) n)
    as (s2 & -> & Hw2); [eauto with lsh | lia | lia | lia | lia |].
  simpl. rewrite (wf_u32 s) by (done || lia). eexists. split; [done |].
  rewrite (with_header_split _ _ (be_bytes _ _)).
  replace (pos + _ + mpn_length fl n) with
    (pos + lenZ (with_header fl (mpn_length fl n) [] ++ be_bytes (Z.to_nat (mpn_length fl n)) n))
    by (rewrite lenZ_app, lenZ_be_bytes; lia).
  apply (bytes_effect (mk_wstate s pos st)). simpl. apply (wrote_app _ _ _ s1); auto.
  rewrite lenZ_be_bytes. lia.
Qed.

Lemma conv_write_spec c fl args ps args' w :
  Forall farg_ok args → spec_conv c fl args = Some (ps, args') →
  lsh_string_wf (w_buffer w) → 0 <= w_pos w → w_pos w + psize ps <= ls_length (w_buffer w) →
  ∃ w', conv_write c fl args w = Ok (w', args') ∧ conv_effect w ps w'.
Proof.
  destruct w as [s pos st]. simpl. intros Hargs Hs Hwf Hp Hroom.
  assert (conv_written c) as Hc; [| by apply Hc].
  conv_cases Hs; eauto using written_percent, written_char, written_int, written_bytes,
    written_string, written_cstring, written_hole, written_atom, written_atoms, written_bignum.
Qed.

(** ** The two passes *)

Lemma psize_nonneg_conv c fl args ps args' : spec_conv c fl args = Some (ps, args') → 0 <= psize ps.
Proof.
  intros Hs. assert (Forall (λ _ : farg, True) args) as Hargs by by apply Forall_true.
  conv_cases Hs; conv_args Hs Hargs; try (unfold spec_string; case_bool); simpl;
    try match goal with |- context [u32 ?x] => pose proof (u32_range x) end; len_lia.
Qed.

Lemma psize_nonneg_loop f m args ps : spec_loop f m args = Some ps → 0 <= psize ps.
Proof.
  revert m args ps. induction f as [| c f IH]; intros [| fl] args ps Hs; simpl in Hs.
  - by injection Hs as <-.
  - done.
  - destruct (Ascii.eqb c "%"); [eauto |]. apply fmap_Some in Hs as (ps' & Hs & ->).
    apply IH in Hs. simpl. len_lia.
  - destruct (fmt_option c fl); [eauto |]. destruct (literal fl && decimal fl); [done |].
    apply bind_Some in Hs as ([ps1 args1] & Hc & Hs). apply fmap_Some in Hs as (ps2 & Hs & ->).
    apply psize_nonneg_conv in Hc. apply IH in Hs. rewrite psize_app. lia.
Qed.

Lemma vformat_length_spec f m args ps len :
  spec_loop f m args = Some ps → Forall farg_ok args → is_u32 len →
  vformat_length f m args len = Ok (u32 (len + psize ps)).
Proof.
  revert m args ps len. induction f as [| c f IH]; intros [| fl] args ps len Hs Hargs Hlen; simpl in *.
  - injection Hs as <-. simpl. by rewrite Z.add_0_r, u32_id.
  - done.
  - destruct (Ascii.eqb c "%"); [eauto |]. apply fmap_Some in Hs as (ps' & Hs & ->).
    rewrite (IH _ _ _ _ Hs Hargs (u32_range _)), u32_add_l. simpl. autorewrite with lsh.
    do 2 f_equal. lia.
  - destruct (fmt_option c fl); [eauto |]. destruct (literal fl && decimal fl); [done |].
    apply bind_Some in Hs as ([ps1 args1] & Hc & Hs). apply fmap_Some in Hs as (ps2 & Hs & ->).
    destruct (conv_length_spec _ _ _ _ _ len Hargs Hlen Hc) as [-> Hargs1]. simpl.
    rewrite (IH _ _ _ _ Hs Hargs1 (u32_range _)), u32_add_l, psize_app. do 2 f_equal. lia.
Qed.

Lemma vformat_write_spec f m args ps w :
  spec_loop f m args = Some ps → Forall farg_ok args →
  lsh_string_wf (w_buffer w) → 0 <= w_pos w → w_pos w + psize ps <= ls_length (w_buffer w) →
  ∃ w', vformat_write f m args w = Ok w' ∧ conv_effect w ps w'.
Proof.
  revert m args ps w. induction f as [| c f IH]; intros [| fl] args ps w Hs Hargs Hwf Hp Hroom; simpl in *.
  - injection Hs as <-. exists w. split; [done |].
    split_and!; simpl; auto; [lia | by rewrite app_nil_r].
  - done.
  - destruct (Ascii.eqb c "%"); [eauto |]. apply fmap_Some in Hs as (ps' & Hs & ->).
    simpl in Hroom. pose proof (psize_nonneg_loop _ _ _ _ Hs). autorewrite with lsh in Hroom.
    destruct (putc_wrote (w_buffer w) (w_pos w) (char_code c)) as (s1 & -> & Hw1 & Hl1 & Hc1);
      [done | lia |].
    simpl. rewrite (wf_u32 (w_buffer w)) by (done || lia).
    rewrite u8_id in Hc1 by apply char_code_byte.
    destruct (IH Text args ps' (mk_wstate s1 (w_pos w + 1) (w_stores w)))
      as (w' & -> & Hw' & Hl' & Hc' & Hp' & Hst'); simpl in *; [done | done | done | lia | lia |].
    exists w'. split; [done |]. split_and!; simpl; [done | congruence | | | done].
    + by rewrite Hc', Hc1.
    + rewrite Hp'. autorewrite with lsh. lia.
  - destruct (fmt_option c fl); [eauto |]. destruct (literal fl && decimal fl); [done |].
    apply bind_Some in Hs as ([ps1 args1] & Hc & Hs). apply fmap_Some in Hs as (ps2 & Hs & ->).
    rewrite psize_app in Hroom. pose proof (psize_nonneg_loop _ _ _ _ Hs).
    pose proof (psize_nonneg_conv _ _ _ _ _ Hc).
    destruct (conv_length_spec _ _ _ _ _ 0 Hargs (u32_range 0) Hc) as [_ Hargs1].
    destruct (conv_write_spec c fl args ps1 args1 w) as (w1 & -> & Hw1 & Hl1 & Hc1 & Hp1 & Hst1);
      [done | done | done | done | lia |]. simpl.
    destruct (IH Text args1 ps2 w1) as (w2 & -> & Hw2 & Hl2 & Hc2 & Hp2 & Hst2);
      [done | done | done | lia | lia |].
    exists w2. split; [done |]. split_and!; [done | congruence | | |].
    + by rewrite Hc2, Hp1, Hc1, fill_app.
    + rewrite Hp2, psize_app. lia.
    + rewrite Hst2, Hp1, Hst1, hole_starts_app. by rewrite app_assoc.
Qed.

(** The writing pass, started at [pos] of a buffer with enough room. *)
Lemma ssh_vformat_write_spec f args ps s pos :
  spec_format f args = Some ps → Forall farg_ok args →
  lsh_string_wf s → 0 <= pos → pos + psize ps <= ls_length s →
  ∃ s', ssh_vformat_write f s pos args = Ok (s', hole_starts pos ps)
        ∧ lsh_string_wf s' ∧ ls_length s' = ls_length s
        ∧ contents s' = fill pos ps (contents s).
Proof.
  intros Hs Hargs Hwf Hp Hroom. unfold ssh_vformat_write.
  destruct (vformat_write_spec f Text args ps (mk_wstate s pos [])) as (w' & -> & ? & ? & ? & ? & Hst);
    [done | done | done | done | done |].
  eexists. simpl. by rewrite Hst.
Qed.

Lemma ssh_vformat_length_spec f args ps :
  spec_format f args = Some ps → Forall farg_ok args → psize ps < 2 ^ 32 →
  ssh_vformat_length f args = Ok (psize ps).
Proof.
  intros Hs Hargs Hsz. unfold ssh_vformat_length.
  rewrite (vformat_length_spec _ _ _ _ 0 Hs Hargs (u32_range 0)).
  rewrite u32_id; [done |]. pose proof (psize_nonneg_loop _ _ _ _ Hs). unfold is_u32. simpl. lia.
Qed.

Lemma ssh_format_spec f args ps :
  spec_format f args = Some ps → Forall farg_ok args → psize ps < 2 ^ 32 →
  ∃ s, ssh_format f args = Ok (s, hole_starts 0 ps)
       ∧ lsh_string_wf s ∧ ls_length s = psize ps
       ∧ contents s = fill 0 ps (contents (lsh_string_alloc (psize ps))).
Proof.
  intros Hs Hargs Hsz. pose proof (psize_nonneg_loop _ _ _ _ Hs).
  unfold ssh_format. rewrite (ssh_vformat_length_spec _ _ _ Hs Hargs Hsz), bind_ok_l.
  assert (lsh_string_wf (lsh_string_alloc (psize ps))) by (apply lsh_string_alloc_wf; unfold is_u32; lia).
  destruct (ssh_vformat_write_spec f args ps (lsh_string_alloc (psize ps)) 0) as (s & -> & ? & ? & ?);
    [done | done | done | lia | simpl; lia |].
  exists s. by split_and!.
Qed.

(** A format without holes yields exactly the bytes of the encoding. *)
Lemma ssh_format_string_spec f args ps bs :
  spec_format f args = Some ps → pbytes ps = Some bs → Forall farg_ok args → lenZ bs < 2 ^ 32 →
  ∃ s, ssh_format_string f args = Ok s ∧ lsh_string_wf s ∧ contents s = bs ∧ ls_length s = lenZ bs.
Proof.
  intros Hs Hb Hargs Hsz. pose proof (psize_nonneg_loop _ _ _ _ Hs).
  assert (psize ps = lenZ bs) as Hps.
  { destruct (fill_pbytes 0 ps bs (replicate (Z.to_nat (psize ps)) 0)) as [? _]; auto; [lia |].
    rewrite lenZ_replicate. lia. }
  destruct (ssh_format_spec f args ps) as (s & Hf & Hwf & Hl & Hc); [done | done | lia |].
  exists s. unfold ssh_format_string. rewrite Hf. split_and!; [done | done | | lia].
  assert (lsh_string_wf (lsh_string_alloc (psize ps))) as Hwa
    by (apply lsh_string_alloc_wf; unfold is_u32; lia).
  pose proof (lenZ_contents _ Hwa) as Hla. simpl in Hla.
  destruct (fill_pbytes 0 ps bs (contents (lsh_string_alloc (psize ps)))) as [_ Hf0]; [done | lia | lia |].
  rewrite Hc, Hf0. unfold splice. simpl.
  rewrite drop_ge; [by rewrite app_nil_r |]. unfold lenZ in *. lia.
Qed.

End writers.

(** ** The contract of [ssh_format] *)

Section contract.
Context `{MallocOk} `{NettleMacrosOk} `{NettleBignumOk} `{AtomTableOk}.

(** C22: for every format string and argument list that has a reference
    encoding shorter than 4 GiB, [ssh_format] returns (no assertion of either
    pass fails and nothing is written out of range), the length computed by
    the first pass is the length of the encoding, the string produced
    satisfies the representation invariant, its octets are those of the
    encoding with the holes of ["%r"] left as allocated, and the positions
    stored for the holes are their true positions. *)
Theorem ssh_format_correct f args ps :
  spec_format f args = Some ps → Forall farg_ok args → psize ps < 2 ^ 32 →
  ∃ s, ssh_vformat_length f args = Ok (psize ps)
       ∧ ssh_format f args = Ok (s, hole_starts 0 ps)
       ∧ lsh_string_wf s ∧ ls_length s = psize ps
       ∧ contents s = fill 0 ps (contents (lsh_string_alloc (psize ps))).
Proof.
  intros Hs Hargs Hsz. destruct (ssh_format_spec f args ps Hs Hargs Hsz) as (s & ? & ? & ? & ?).
  exists s. split_and!; [by apply ssh_vformat_length_spec | done..].
Qed.

(** C36: the binary search of [format_size_in_decimal] finds the number of
    decimal digits of every 32-bit number. *)
Theorem format_size_in_decimal_correct n :
  is_u32 n →
  1 <= format_size_in_decimal n <= 10
  ∧ n < 10 ^ format_size_in_decimal n
  ∧ (format_size_in_decimal n ≠ 1 → 10 ^ (format_size_in_decimal n - 1) <= n).
Proof.
  intros Hn. destruct (format_size_in_decimal_spec n Hn) as (Hs1 & Hs2 & Hs3). split_and!; [lia.. |].
  intros Hne. apply Hs3. destruct (Z.eq_dec n 0) as [-> |]; [done |]. unfold is_u32 in Hn. lia.
Qed.

(** Writing hexadecimal digits beyond the end stops at an assertion. *)
Lemma format_hex_loop_overflow d s pos :
  lsh_string_wf s → 0 <= pos <= ls_length s → ls_length s < pos + 2 * lenZ d → Forall is_byte d →
  format_hex_loop s pos d = Fault AssertFailed.
Proof.
  revert s pos. induction d as [| b d IH]; intros s pos Hwf Hp Hroom Hb; cbn [format_hex_loop].
  { change (lenZ []) with 0 in Hroom. lia. }
  apply Forall_cons in Hb as [Hb Hd]. rewrite hi_nibble, lo_nibble by done.
  destruct (hexchars_digit (b `div` 16)) as [-> _].
  { unfold is_byte in Hb. split; [apply Z.div_pos; lia | apply Z.div_lt_upper_bound; lia]. }
  destruct (hexchars_digit (b `mod` 16)) as [-> _]; [by apply Z.mod_pos_bound |].
  rewrite !bind_ok_l. destruct (Z.eq_dec pos (ls_length s)) as [He | Hne].
  { unfold lsh_string_putc. by rewrite (proj2 (Z.ltb_ge _ _)) by lia. }
  destruct (putc_wrote s pos (hex_digit (b `div` 16))) as (s1 & -> & Hw1); [done | lia |].
  rewrite !bind_ok_l. rewrite (wf_u32 s (pos + 1)) by (done || lia).
  pose proof (wrote_len _ _ _ _ Hw1) as Hl1.
  destruct (Z.eq_dec (pos + 1) (ls_length s)) as [He' | Hne'].
  { unfold lsh_string_putc. by rewrite (proj2 (Z.ltb_ge _ _)) by lia. }
  destruct (putc_wrote s1 (pos + 1) (hex_digit (b `mod` 16))) as (s2 & -> & Hw2);
    [eauto with lsh | lia |].
  rewrite !bind_ok_l, (wf_u32 s (pos + 2)) by (done || lia).
  pose proof (wrote_len _ _ _ _ Hw2) as Hl2. rewrite lenZ_cons in Hroom.
  apply IH; [eauto with lsh | lia | lia | done].
Qed.

(** The two passes disagree for a C string in hexadecimal: the length
    pass counts each octet once, the writing pass needs two, and the
    assertion in [lsh_string_putc] fails, whatever non-empty string is
    given. *)
Theorem format_hex_cstring_fails c d :
  Forall is_byte (c :: d) → lenZ (c :: d) < 2 ^ 32 →
  ssh_format_string "%lxz" [FCstr (c :: d)] = Fault AssertFailed.
Proof.
  intros Hb Hl. pose proof (lenZ_cons c d) as Hc. pose proof (lenZ_nonneg d).
  assert (u32 (lenZ (c :: d)) = lenZ (c :: d)) as Hu by (apply u32_id; unfold is_u32; lia).
  unfold ssh_format_string, ssh_format, ssh_vformat_length. simpl.
  unfold string_overhead. simpl. rewrite Z.add_0_l, !Hu.
  unfold ssh_vformat_write. simpl. unfold format_string. simpl. rewrite Hu, Z.ltb_irrefl, slice_all.
  rewrite format_hex_loop_overflow; [done | | simpl; lia | simpl; lia | done].
  apply lsh_string_alloc_wf. unfold is_u32. lia.
Qed.

End contract.

(** The message [format_unimplemented] sends, followed by a two-octet hole. *)
Lemma ssh_format_correct_witness :
  ∃ s, ssh_vformat_length "%c%i%r" [FInt 3; FInt 7; FInt 2; FPtr true] = Ok 11
       ∧ ssh_format "%c%i%r" [FInt 3; FInt 7; FInt 2; FPtr true] = Ok (s, [9])
       ∧ contents s = [3; 0; 0; 0; 7; 0; 0; 0; 2; 0; 0].
Proof.
  destruct (ssh_format_correct "%c%i%r" [FInt 3; FInt 7; FInt 2; FPtr true]
    [PBytes [3]; PBytes (be32 7); PBytes (be32 2); PHole 2 true]) as (s & Hl & Hf & _ & _ & Hc);
    [vm_compute; reflexivity | repeat constructor | vm_compute; reflexivity |].
  exists s. split; [exact Hl |]. split; [exact Hf |]. rewrite Hc. vm_compute. reflexivity.
Defined.

Lemma format_size_in_decimal_correct_witness :
  is_u32 4294967295 ∧ format_size_in_decimal 4294967295 = 10
  ∧ 4294967295 < 10 ^ format_size_in_decimal 4294967295.
Proof.
  assert (is_u32 4294967295) as Hn by (unfold is_u32; lia).
  split; [exact Hn |]. split; [reflexivity |].
  destruct (format_size_in_decimal_correct 4294967295 Hn) as (_ & H1 & _). exact H1.
Defined.

Lemma format_hex_cstring_fails_witness :
  ssh_format_string "%lxz" [FCstr (cstr "key")] = Fault AssertFailed.
Proof. apply (format_hex_cstring_fails 107 (cstr "ey")); [apply (cstr_bytes "key") | done]. Defined.
