(* ===== verification/Wire.v ===== *)
(** * Messages on the wire

    Octets of strings, and the statement that a formatting function makes a
    given sequence of octets; shared by the layouts of all messages. *)

From S2P Require Import Prelude Ssh Nettle Atoms LshString Format FormatSpec.
Local Open Scope Z_scope.

(** Arguments of a format are in order. *)
Ltac farg_list := repeat (apply Forall_cons; split; [assumption || exact I |]); constructor.

(** A length-prefixed string on the wire. *)
Definition wire_string (d : list Z) : list Z := be32 (lenZ d) ++ d.

(** The computation makes a well-formed string with these octets. *)
Definition formats (m : result lsh_string) (bs : list Z) : Prop :=
  returns m (λ s, lsh_string_wf s ∧ contents s = bs).

Section formats.
Context `{MallocOk} `{NettleMacrosOk} `{NettleBignumOk} `{AtomTableOk}.

Lemma formats_spec f args ps bs :
  spec_format f args = Some ps → pbytes ps = Some bs → Forall farg_ok args → lenZ bs < 2 ^ 32 →
  formats (ssh_format_string f args) bs.
Proof.
  intros Hs Hb Ha Hl. destruct (ssh_format_string_spec f args ps bs Hs Hb Ha Hl) as (s & -> & Hw & Hc & _).
  by exists s.
Qed.

Lemma lenZ_wire_string d : lenZ (wire_string d) = 4 + lenZ d.
Proof. unfold wire_string. by rewrite lenZ_app, lenZ_be32. Qed.

Lemma spec_string_bytes (d : list Z) : lenZ d < 2 ^ 32 → slice 0 (u32 (lenZ d)) d = d.
Proof. intros Hd. rewrite u32_id by len_lia. apply slice_all. Qed.

(** Formats made of an octet and numbers. *)
Lemma formats_byte c : is_byte c → formats (ssh_format_string "%c" [FInt c]) [c].
Proof.
  intros Hc. eapply formats_spec; [done | | by repeat constructor |]; simpl; [by rewrite u8_id | done].
Qed.

Lemma formats_number c n :
  is_byte c → is_u32 n → formats (ssh_format_string "%c%i" [FInt c; FInt n]) (c :: be32 n).
Proof.
  intros Hc Hn. eapply formats_spec; [done | | by repeat constructor |].
  - cbn -[be32]. by rewrite u8_id, u32_id, app_nil_r.
  - rewrite lenZ_cons, lenZ_be32. lia.
Qed.

Lemma formats_number2 c n m :
  is_byte c → is_u32 n → is_u32 m →
  formats (ssh_format_string "%c%i%i" [FInt c; FInt n; FInt m]) (c :: be32 n ++ be32 m).
Proof.
  intros Hc Hn Hm. eapply formats_spec; [done | | by repeat constructor |].
  - cbn -[be32]. by rewrite u8_id, !u32_id, app_nil_r.
  - rewrite lenZ_cons, lenZ_app, !lenZ_be32. lia.
Qed.

(** Messages of all layers. *)
Lemma formats_disconnect reason m :
  lenZ (cstr m) < 2 ^ 31 →
  formats (format_disconnect reason (cstr m) [])
    (SSH_MSG_DISCONNECT :: be32 (u32 reason) ++ wire_string (cstr m) ++ wire_string []).
Proof.
  intros Hm. pose proof (lenZ_nonneg (cstr m)). eapply formats_spec.
  - unfold spec_format. cbn -[be32 u32 u8 cstr UINT32_MAX]. unfold UINT32_MAX.
    rewrite (proj2 (Z.ltb_ge _ (lenZ (cstr m)))) by lia. cbn -[be32 u32 u8 cstr]. reflexivity.
  - cbn -[be32 u32 cstr]. unfold with_header. by rewrite !slice_all, !app_nil_r.
  - repeat constructor. apply cstr_bytes.
  - rewrite lenZ_cons, !lenZ_app, !lenZ_wire_string, lenZ_be32. change (lenZ []) with 0. lia.
Qed.

Lemma formats_unimplemented seqno : formats (format_unimplemented seqno) (SSH_MSG_UNIMPLEMENTED :: be32 (u32 seqno)).
Proof.
  eapply formats_spec; [reflexivity | | repeat constructor |].
  - cbn -[be32 u32]. by rewrite app_nil_r.
  - rewrite lenZ_cons, lenZ_be32. lia.
Qed.

End formats.
