(* ===== verification/Parse.v ===== *)
(** * Parsing of messages ([src/src/parse.c], [parse.h], [parse_macros.h])

    A [simple_buffer] is a cursor into a packet.  A parser either succeeds,
    or fails leaving the cursor where the code leaves it (which may be after
    a part it has already consumed).  Reading outside the packet is the fault
    [OutOfBounds]. *)

From S2P Require Import Prelude Nettle Atoms LshString Format FormatSpec.
Local Open Scope Z_scope.

Record simple_buffer := mk_buffer {
  sb_capacity : Z;
  sb_pos : Z;
  sb_data : list Z;
}.

Definition simple_buffer_init (capacity : Z) (data : list Z) : simple_buffer :=
  {| sb_capacity := capacity; sb_pos := 0; sb_data := data |}.

(** The macros of [parse_macros.h]. *)
Definition LEFT (b : simple_buffer) : Z := u32 (sb_capacity b - sb_pos b).
Definition HERE (b : simple_buffer) : list Z := drop (Z.to_nat (sb_pos b)) (sb_data b).
Definition ADVANCE (b : simple_buffer) (n : Z) : simple_buffer :=
  {| sb_capacity := sb_capacity b; sb_pos := u32 (sb_pos b + n); sb_data := sb_data b |}.

(** ** The parser monad: [p (buffer, &x) && q (buffer, &y) && ...] *)

Definition parser (A : Type) : Type := simple_buffer → result (simple_buffer * option A).

#[global] Instance parser_ret : MRet parser := λ A a b, Ok (b, Some a).
#[global] Instance parser_bind : MBind parser := λ A B k p b,
  '(b', r) ← p b;
  match r with
  | Some a => k a b'
  | None => Ok (b', None)
  end.

(** The value a pointer into the buffer denotes is the data it points to. *)
Definition pfail {A} : parser A := λ b, Ok (b, None).
Definition plift {A} (m : result A) : parser A := λ b, a ← m; Ok (b, Some a).

(** [p (buffer, &x) && q (buffer, &y)] *)
Definition parse_then {A B} (p : parser A) (q : parser B) : parser (A * B) :=
  x ← p; y ← q; mret (x, y).

Section parse.
Context `{Malloc} `{NettleMacros} `{NettleBignum} `{AtomTable}.

Definition read_uint32 (l : list Z) : result Z :=
  b0 ← rd l 0; b1 ← rd l 1; b2 ← rd l 2; b3 ← rd l 3;
  Ok (READ_UINT32 b0 b1 b2 b3).

Definition read_uint16 (l : list Z) : result Z :=
  b0 ← rd l 0; b1 ← rd l 1; Ok (READ_UINT16 b0 b1).

Definition parse_uint32 : parser Z := λ b,
  if LEFT b <? 4 then Ok (b, None)
  else
    v ← read_uint32 (HERE b);
    Ok (ADVANCE b 4, Some v).

(** Only records length and start pointer: the pointer denotes the [l]
    bytes from the current position. *)
Definition parse_string : parser (list Z) := λ b,
  '(b, r) ← parse_uint32 b;
  match r with
  | None => Ok (b, None)
  | Some l =>
      if LEFT b <? l then Ok (b, None)
      else Ok (ADVANCE b l, Some (slice 0 l (HERE b)))
  end.

Definition parse_octets (length : Z) : parser (list Z) := λ b,
  if LEFT b <? length then Ok (b, None)
  else if lenZ (HERE b) <? length then Fault OutOfBounds
  else Ok (ADVANCE b length, Some (slice 0 length (HERE b))).

Definition parse_string_copy : parser lsh_string := λ b,
  '(b, r) ← parse_string b;
  match r with
  | None => Ok (b, None)
  | Some d =>
      s ← ssh_format_string "%ls" [FInt (lenZ d); FBytes d];
      Ok (b, Some s)
  end.

Definition parse_sub_buffer : parser simple_buffer := λ b,
  '(b, r) ← parse_string b;
  match r with
  | None => Ok (b, None)
  | Some d => Ok (b, Some (simple_buffer_init (lenZ d) d))
  end.

Definition parse_uint8 : parser Z := λ b,
  if LEFT b =? 0 then Ok (b, None)
  else
    c ← rd (HERE b) 0;
    Ok (ADVANCE b 1, Some c).

(** [parse_utf8] reports through its return value, [*result] and
    [*utf8_length]; the latter two may be left unset. *)
Record utf8_out := mk_utf8 {
  u_ret : Z;
  u_result : option Z;
  u_length : option Z;
}.

Definition utf8_min_value : list Z := [0; 0; 128; 2048; 65536; 2097152; 67108864].

(** Length and initial value given by a lead byte [>= 0x80]; [inl None] is
    the branch that sets [*utf8_length] to 1, [inl (Some ())] the one that
    leaves it unset. *)
Definition utf8_lead (c : Z) : option () + (Z * Z) :=
  let h := Z.land c 240 in
  if (h =? 192) || (h =? 208) then inr (2, Z.land c 31)
  else if h =? 224 then inr (3, Z.land c 15)
  else if h =? 240 then
    let e := Z.land c 14 in
    if (e =? 0) || (e =? 2) || (e =? 4) || (e =? 6) then inr (4, Z.land c 7)
    else if (e =? 8) || (e =? 10) then inr (5, Z.land c 3)
    else if e =? 12 then inr (6, Z.land c 1)
    else inl (Some ())
  else inl None.

(** The loop over the continuation bytes [i], ..., [length - 1]. *)
Fixpoint utf8_tail (k : nat) (b : simple_buffer) (i value : Z) : result (Z + Z) :=
  match k with
  | O => Ok (inr value)
  | S k =>
      c ← rd (HERE b) i;
      if negb (Z.land c 192 =? 128) then Ok (inl i)
      else utf8_tail k b (i + 1) (Z.lor (u32 (Z.shiftl value 6)) (Z.land c 63))
  end.

Definition parse_utf8 (b : simple_buffer) : result (simple_buffer * utf8_out) :=
  if LEFT b =? 0 then Ok (b, mk_utf8 (-1) None None)
  else
    c ← rd (HERE b) 0;
    if c <? 128 then Ok (ADVANCE b 1, mk_utf8 1 (Some c) (Some 1))
    else
      match utf8_lead c with
      | inl None => Ok (ADVANCE b 1, mk_utf8 0 None (Some 1))
      | inl (Some _) => Ok (ADVANCE b 1, mk_utf8 0 None None)
      | inr (length, value) =>
          if LEFT b <? length then Ok (ADVANCE b (LEFT b), mk_utf8 0 None (Some 1))
          else
            c ← rd (HERE b) 1;
            if negb (Z.land c 192 =? 128) then Ok (ADVANCE b 1, mk_utf8 0 None (Some 1))
            else
              let value := Z.lor (u32 (Z.shiftl value 6)) (Z.land c 63) in
              t ← utf8_tail (Z.to_nat (length - 2)) b 2 value;
              match t with
              | inl i => Ok (ADVANCE b i, mk_utf8 0 None (Some i))
              | inr value =>
                  let b := ADVANCE b length in
                  m ← rd utf8_min_value length;
                  if value <? m then Ok (b, mk_utf8 0 None (Some length))
                  else if ((55296 <=? value) && (value <? 57344))
                          || (value =? 65534) || (value =? 65535)
                  then Ok (b, mk_utf8 0 None (Some length))
                  else Ok (b, mk_utf8 1 (Some value) (Some length))
              end
      end.

Definition parse_boolean : parser Z := λ b,
  if LEFT b =? 0 then Ok (b, None)
  else
    c ← rd (HERE b) 0;
    Ok (ADVANCE b 1, Some c).

Definition parse_bignum (limit : Z) : parser Z := λ b,
  '(b, r) ← parse_string b;
  match r with
  | None => Ok (b, None)
  | Some digits =>
      if c_true limit && (u32 (limit + 1) <? lenZ digits) then Ok (b, None)
      else Ok (b, Some (nettle_mpz_set_str_256_s digits))
  end.

Definition parse_atom : parser Z := λ b,
  '(b, r) ← parse_string b;
  match r with
  | None => Ok (b, None)
  | Some name =>
      if 64 <? lenZ name then Ok (b, None)
      else Ok (b, Some (lookup_atom name))
  end.

(** [for (i = 0; i < LEFT; i++)] of [parse_next_atom]: the index of the
    terminator, or [None] for an atom of more than 64 characters. *)
Fixpoint next_atom_end (fuel : nat) (b : simple_buffer) (i : Z) : result (option Z) :=
  match fuel with
  | O => Ok (Some i)
  | S fuel =>
      if LEFT b <=? i then Ok (Some i)
      else
        c ← rd (HERE b) i;
        if c =? 44 then Ok (Some i)
        else if i =? 64 then Ok None
        else next_atom_end fuel b (i + 1)
  end.

(** Leaves the position *beyond* the end after the last atom. *)
Definition parse_next_atom : parser Z := λ b,
  _ ← c_assert (sb_pos b <=? sb_capacity b);
  e ← next_atom_end (S (Z.to_nat (LEFT b))) b 0;
  match e with
  | None => Ok (b, None)
  | Some i =>
      let atom := if i =? 0 then 0 else lookup_atom (slice 0 i (HERE b)) in
      Ok (ADVANCE b (i + 1), Some atom)
  end.

(** The loop that counts commas; [None] when there are [limit] atoms or more
    already. *)
Fixpoint count_atoms (data : list Z) (count limit : Z) : option Z :=
  match data with
  | [] => Some count
  | c :: data =>
      if c =? 44 then
        if limit <=? count then None else count_atoms data (count + 1) limit
      else count_atoms data count limit
  end.

Fixpoint parse_n_atoms (n : nat) : parser (list Z) :=
  match n with
  | O => mret []
  | S n => a ← parse_next_atom; l ← parse_n_atoms n; mret (a :: l)
  end.

Definition parse_atoms (limit : Z) : parser (list Z) := λ b,
  _ ← c_assert (c_true limit);
  if LEFT b =? 0 then Ok (b, Some [])
  else if lenZ (sb_data b) <? sb_capacity b then Fault OutOfBounds
  else
    match count_atoms (slice (sb_pos b) (sb_capacity b - sb_pos b) (sb_data b)) 1 limit with
    | None => Ok (b, None)
    | Some count => parse_n_atoms (Z.to_nat count) b
    end.

Definition parse_atom_list (limit : Z) : parser (list Z) := λ b,
  '(b, r) ← parse_sub_buffer b;
  match r with
  | None => Ok (b, None)
  | Some sub =>
      '(_, l) ← parse_atoms limit sub;
      Ok (b, l)
  end.

Definition parse_uint16 : parser Z := λ b,
  if LEFT b <? 2 then Ok (b, None)
  else
    v ← read_uint16 (HERE b);
    Ok (ADVANCE b 2, Some v).

Definition parse_string16 : parser (list Z) := λ b,
  '(b, r) ← parse_uint16 b;
  match r with
  | None => Ok (b, None)
  | Some l =>
      if LEFT b <? l then Ok (b, None)
      else Ok (ADVANCE b l, Some (slice 0 l (HERE b)))
  end.

Definition parse_rest (b : simple_buffer) : simple_buffer * list Z :=
  (ADVANCE b (LEFT b), slice 0 (LEFT b) (HERE b)).

Definition parse_rest_copy (b : simple_buffer) : result (simple_buffer * lsh_string) :=
  let length := LEFT b in
  s ← ssh_format_string "%ls" [FInt length; FBytes (HERE b)];
  let b := ADVANCE b length in
  _ ← c_assert (LEFT b =? 0);
  Ok (b, s).

Definition parse_eod : parser () := λ b,
  if LEFT b =? 0 then Ok (b, Some ()) else Ok (b, None).

(** [p (buffer, &x) && parse_eod (buffer)] *)
Definition parse_last {A} (p : parser A) : parser A :=
  x ← p; _ ← parse_eod; mret x.

End parse.
