(* ===== verification/ParseSpec.v ===== *)
(** * Parsers as codecs

    The promise the message handlers rely on is the class [Codec]: a parser
    consumes exactly the encodings it is paired with, never leaves the
    packet, and accepts every encoding of a valid value.  The instances
    cover the parsers of [parse.c]; the round trips with [ssh_format] are
    proved from the class alone. *)

From S2P Require Import Prelude Nettle Atoms LshString Format FormatSpec Parse.
Local Open Scope Z_scope.

(** ** Well-formed buffers and what is left in them *)

Record buffer_wf (b : simple_buffer) : Prop := {
  bwf_pos : 0 <= sb_pos b <= sb_capacity b;
  bwf_cap : sb_capacity b < 2 ^ 32;
  bwf_data : sb_capacity b <= lenZ (sb_data b);
  bwf_bytes : Forall is_byte (sb_data b);
}.

Definition remaining (b : simple_buffer) : list Z :=
  slice (sb_pos b) (sb_capacity b - sb_pos b) (sb_data b).

Lemma LEFT_remaining b : buffer_wf b → LEFT b = lenZ (remaining b).
Proof.
  intros [Hp Hc Hd _]. unfold LEFT, remaining.
  rewrite lenZ_slice by lia. apply u32_id. unfold is_u32. lia.
Qed.

Lemma HERE_remaining b : buffer_wf b → HERE b = remaining b ++ drop (Z.to_nat (LEFT b)) (HERE b).
Proof.
  intros Hwf. rewrite (LEFT_remaining b) by done. destruct Hwf as [Hp Hc Hd _].
  unfold remaining at 2. rewrite lenZ_slice by lia.
  unfold remaining, slice, HERE. by rewrite take_drop.
Qed.

Lemma slice_HERE b l :
  buffer_wf b → 0 <= l <= LEFT b → slice 0 l (HERE b) = slice 0 l (remaining b).
Proof.
  intros Hwf Hl. rewrite HERE_remaining by done. apply slice_app_l; [lia.. |].
  rewrite <- LEFT_remaining by done. lia.
Qed.

Lemma rd_HERE b i : buffer_wf b → 0 <= i < LEFT b → rd (HERE b) i = rd (remaining b) i.
Proof.
  intros Hwf Hi. rewrite HERE_remaining by done. unfold rd.
  rewrite (proj2 (Z.ltb_ge _ _)) by lia. rewrite lookup_app_l; [done |].
  rewrite LEFT_remaining in Hi by done. unfold lenZ in Hi. lia.
Qed.

Lemma remaining_bytes b : buffer_wf b → Forall is_byte (remaining b).
Proof. intros [_ _ _ Hb]. unfold remaining, slice. by apply Forall_take, Forall_drop. Qed.

Lemma advance_wf b n :
  buffer_wf b → 0 <= n <= LEFT b →
  buffer_wf (ADVANCE b n) ∧ remaining (ADVANCE b n) = drop (Z.to_nat n) (remaining b).
Proof.
  intros Hwf Hn. pose proof (LEFT_remaining b Hwf) as HL. destruct Hwf as [Hp Hc Hd Hb].
  unfold remaining in HL. rewrite lenZ_slice in HL by lia.
  assert (u32 (sb_pos b + n) = sb_pos b + n) as Hu by (apply u32_id; unfold is_u32; lia).
  split; [split; simpl; rewrite ?Hu; done || lia |].
  unfold remaining, slice. simpl. rewrite Hu.
  rewrite skipn_firstn_comm, drop_drop. f_equal; [lia |]. f_equal. lia.
Qed.

(** After consuming a prefix. *)
Lemma advance_app b enc tl :
  buffer_wf b → remaining b = enc ++ tl →
  lenZ enc <= LEFT b ∧ buffer_wf (ADVANCE b (lenZ enc)) ∧ remaining (ADVANCE b (lenZ enc)) = tl.
Proof.
  intros Hwf Hr. assert (lenZ enc <= LEFT b) as Hle
    by (rewrite LEFT_remaining, Hr, lenZ_app by done; pose proof (lenZ_nonneg tl); lia).
  split; [done |]. destruct (advance_wf b (lenZ enc)) as [Hw ->];
    [done | pose proof (lenZ_nonneg enc); lia |].
  split; [done |]. rewrite Hr. unfold lenZ. by rewrite Nat2Z.id, drop_app_length.
Qed.

Lemma init_wf d : Forall is_byte d → lenZ d < 2 ^ 32 →
  buffer_wf (simple_buffer_init (lenZ d) d) ∧ remaining (simple_buffer_init (lenZ d) d) = d.
Proof.
  intros Hb Hl. pose proof (lenZ_nonneg d). split; [split; simpl; done || lia |].
  unfold remaining. simpl. rewrite Z.sub_0_r. apply slice_all.
Qed.

(** ** The interface *)

Class Codec {A} (p : parser A) (enc : A → list Z) (ok : A → Prop) : Prop := {
  (** Accepts every encoding of a valid value, whatever follows it. *)
  codec_reads v b tl :
    ok v → buffer_wf b → remaining b = enc v ++ tl →
    ∃ b', p b = Ok (b', Some v) ∧ buffer_wf b' ∧ remaining b' = tl;
  (** Never faults, never moves backwards or out of the packet, and what it
      accepts is the encoding of a valid value. *)
  codec_exact b :
    buffer_wf b →
    ∃ b' r, p b = Ok (b', r) ∧ buffer_wf b' ∧ remaining b' `suffix_of` remaining b
            ∧ (∀ v, r = Some v → ok v ∧ remaining b = enc v ++ remaining b');
}.

Section codecs.
Context `{MallocOk} `{NettleMacrosOk} `{NettleBignumOk} `{AtomTableOk}.

Lemma read_uint32_bytes bs tl :
  Forall is_byte bs → lenZ bs = 4 → read_uint32 (bs ++ tl) = Ok (be_value bs).
Proof.
  intros Hb Hl. destruct bs as [| b0 [| b1 [| b2 [| b3 [|]]]]];
    try (exfalso; clear Hb; unfold lenZ in Hl; cbn [length] in Hl; lia).
  unfold read_uint32. simpl. by rewrite READ_UINT32_spec.
Qed.

Lemma read_uint16_bytes bs tl :
  Forall is_byte bs → lenZ bs = 2 → read_uint16 (bs ++ tl) = Ok (be_value bs).
Proof.
  intros Hb Hl. destruct bs as [| b0 [| b1 [|]]];
    try (exfalso; clear Hb; unfold lenZ in Hl; cbn [length] in Hl; lia).
  unfold read_uint16. simpl. by rewrite READ_UINT16_spec.
Qed.

(** Splitting off the first [n] bytes. *)
Lemma split_remaining b n :
  buffer_wf b → 0 <= n <= LEFT b →
  ∃ hd tl, remaining b = hd ++ tl ∧ lenZ hd = n ∧ Forall is_byte hd ∧ slice 0 n (HERE b) = hd.
Proof.
  intros Hwf Hn. exists (slice 0 n (remaining b)), (drop (Z.to_nat n) (remaining b)).
  rewrite slice_HERE by done. rewrite LEFT_remaining in Hn by done. split_and!.
  - unfold slice. by rewrite drop_0, take_drop.
  - apply lenZ_slice; lia.
  - unfold slice. by apply Forall_take, Forall_drop, remaining_bytes.
  - done.
Qed.

#[export] Instance uint32_codec : Codec parse_uint32 be32 is_u32.
Proof.
  split.
  - intros n b tl Hn Hwf Hr. unfold parse_uint32.
    destruct (advance_app b (be32 n) tl Hwf Hr) as (Hle & Hw & Hrem).
    rewrite lenZ_be32 in *. rewrite (proj2 (Z.ltb_ge _ _)) by lia.
    rewrite HERE_remaining, Hr, <- app_assoc by done.
    rewrite read_uint32_bytes by (apply be_bytes_bytes || apply lenZ_be32).
    simpl. unfold be32. rewrite be_value_bytes by (unfold is_u32 in Hn; simpl; lia). eauto.
  - intros b Hwf. unfold parse_uint32. destruct (LEFT b <? 4) eqn:HL.
    + eexists b, None. by split_and!.
    + destruct (split_remaining b 4) as (hd & tl & Hr & Hl & Hb & _); [done | lia |].
      destruct (advance_app b hd tl Hwf Hr) as (_ & Hw & Hrem). rewrite Hl in *.
      rewrite HERE_remaining, Hr, <- app_assoc, read_uint32_bytes by done.
      eexists _, _. split; [done |]. split; [done |]. rewrite Hrem. split; [by exists hd |].
      intros v [= <-]. pose proof (be_value_range hd Hb) as Hrange. rewrite Hl in Hrange.
      split; [done |]. f_equal. unfold be32.
      replace 4%nat with (length hd) by (unfold lenZ in Hl; lia). by rewrite be_bytes_value.
Qed.

#[export] Instance uint16_codec : Codec parse_uint16 be16 (λ n, 0 <= n < 2 ^ 16).
Proof.
  split.
  - intros n b tl Hn Hwf Hr. unfold parse_uint16.
    destruct (advance_app b (be16 n) tl Hwf Hr) as (Hle & Hw & Hrem).
    rewrite lenZ_be16 in *. rewrite (proj2 (Z.ltb_ge _ _)) by lia.
    rewrite HERE_remaining, Hr, <- app_assoc by done.
    rewrite read_uint16_bytes by (apply be_bytes_bytes || apply lenZ_be16).
    simpl. unfold be16. rewrite be_value_bytes by (simpl; lia). eauto.
  - intros b Hwf. unfold parse_uint16. destruct (LEFT b <? 2) eqn:HL.
    + eexists b, None. by split_and!.
    + destruct (split_remaining b 2) as (hd & tl & Hr & Hl & Hb & _); [done | lia |].
      destruct (advance_app b hd tl Hwf Hr) as (_ & Hw & Hrem). rewrite Hl in *.
      rewrite HERE_remaining, Hr, <- app_assoc, read_uint16_bytes by done.
      eexists _, _. split; [done |]. split; [done |]. rewrite Hrem. split; [by exists hd |].
      intros v [= <-]. pose proof (be_value_range hd Hb) as Hrange. rewrite Hl in Hrange.
      split; [done |]. f_equal. unfold be16.
      replace 2%nat with (length hd) by (unfold lenZ in Hl; lia). by rewrite be_bytes_value.
Qed.

(** A length-prefixed block, shared by [parse_string] and [parse_string16]. *)
Definition parse_prefixed (plen : parser Z) : parser (list Z) := λ b,
  '(b, r) ← plen b;
  match r with
  | None => Ok (b, None)
  | Some l =>
      if LEFT b <? l then Ok (b, None)
      else Ok (ADVANCE b l, Some (slice 0 l (HERE b)))
  end.

Lemma prefixed_codec plen enc (ok : Z → Prop) :
  Codec plen enc ok → (∀ n, ok n → 0 <= n) →
  Codec (parse_prefixed plen) (λ d, enc (lenZ d) ++ d) (λ d, Forall is_byte d ∧ ok (lenZ d)).
Proof.
  intros Hc Hok. split.
  - intros d b tl [Hb Hl] Hwf Hr. unfold parse_prefixed. rewrite <- app_assoc in Hr.
    destruct (codec_reads (lenZ d) b _ Hl Hwf Hr) as (b1 & -> & Hw1 & Hr1). simpl.
    destruct (advance_app b1 d tl Hw1 Hr1) as (Hle & Hw & Hrem).
    rewrite (proj2 (Z.ltb_ge _ _)) by lia. pose proof (lenZ_nonneg d).
    rewrite slice_HERE, Hr1, slice_app_l, slice_all by (done || lia). eauto.
  - intros b Hwf. unfold parse_prefixed.
    destruct (codec_exact b Hwf) as (b1 & r & -> & Hw1 & Hsuf & Hv). simpl.
    destruct r as [l |]; [| eexists _, None; by split_and!].
    destruct (Hv l eq_refl) as [Hl Hr]. pose proof (Hok l Hl).
    destruct (LEFT b1 <? l) eqn:HL; [eexists _, None; by split_and! |].
    destruct (split_remaining b1 l) as (hd & tl & Hr1 & Hlh & Hb & Hs); [done | lia |].
    destruct (advance_app b1 hd tl Hw1 Hr1) as (_ & Hw & Hrem). rewrite Hlh in *.
    eexists _, _. split; [done |]. split; [done |]. rewrite Hs, Hrem. split.
    + transitivity (remaining b1); [| done]. rewrite Hr1. by exists hd.
    + intros v [= <-]. rewrite Hlh. split; [done |]. by rewrite Hr, Hr1, app_assoc.
Qed.

#[export] Instance string_codec :
  Codec parse_string (λ d, be32 (lenZ d) ++ d) (λ d, Forall is_byte d ∧ is_u32 (lenZ d)).
Proof. apply (prefixed_codec parse_uint32 be32 is_u32); [apply _ | unfold is_u32; lia]. Qed.

#[export] Instance string16_codec :
  Codec parse_string16 (λ d, be16 (lenZ d) ++ d) (λ d, Forall is_byte d ∧ 0 <= lenZ d < 2 ^ 16).
Proof. apply (prefixed_codec parse_uint16 be16 (λ n, 0 <= n < 2 ^ 16)); [apply _ | intros n Hn; lia]. Qed.

Lemma byte_codec (p : parser Z) :
  p = (λ b, if LEFT b =? 0 then Ok (b, None) else c ← rd (HERE b) 0; Ok (ADVANCE b 1, Some c)) →
  Codec p (λ c, [c]) is_byte.
Proof.
  intros ->. split.
  - intros c b tl Hc Hwf Hr. destruct (advance_app b [c] tl Hwf Hr) as (Hle & Hw & Hrem).
    change (lenZ [c]) with 1 in *. rewrite (proj2 (Z.eqb_neq _ _)) by lia.
    rewrite rd_HERE, Hr by (done || lia). simpl. eauto.
  - intros b Hwf. destruct (Z.eqb_spec (LEFT b) 0) as [HL | HL].
    + eexists b, None. by split_and!.
    + pose proof (LEFT_remaining b Hwf) as HLr.
      destruct (remaining b) as [| c tl] eqn:Hr; [done |].
      destruct (advance_app b [c] tl Hwf Hr) as (Hle & Hw & Hrem).
      change (lenZ [c]) with 1 in *. rewrite rd_HERE, Hr by (done || lia). simpl.
      eexists _, _. split; [done |]. split; [done |]. rewrite Hrem. split; [by exists [c] |].
      intros v [= <-]. split; [| done]. pose proof (remaining_bytes b Hwf) as Hb.
      rewrite Hr in Hb. by inversion Hb.
Qed.

#[export] Instance uint8_codec : Codec parse_uint8 (λ c, [c]) is_byte.
Proof. by apply byte_codec. Qed.

#[export] Instance boolean_codec : Codec parse_boolean (λ c, [c]) is_byte.
Proof. by apply byte_codec. Qed.

#[export] Instance octets_codec n :
  0 <= n → Codec (parse_octets n) (λ d, d) (λ d, Forall is_byte d ∧ lenZ d = n).
Proof.
  intros Hn. split.
  - intros d b tl [Hb Hl] Hwf Hr. unfold parse_octets.
    destruct (advance_app b d tl Hwf Hr) as (Hle & Hw & Hrem). rewrite Hl in *.
    rewrite (proj2 (Z.ltb_ge _ _)) by lia.
    rewrite (proj2 (Z.ltb_ge (lenZ _) _))
      by (rewrite HERE_remaining, Hr by done; rewrite !lenZ_app; len_lia).
    rewrite slice_HERE, Hr, slice_app_l by (done || lia). rewrite <- Hl, slice_all.
    rewrite Hl. eauto.
  - intros b Hwf. unfold parse_octets. destruct (LEFT b <? n) eqn:HL.
    + eexists b, None. by split_and!.
    + destruct (split_remaining b n) as (hd & tl & Hr & Hl & Hb & Hs); [done | lia |].
      destruct (advance_app b hd tl Hwf Hr) as (_ & Hw & Hrem). rewrite Hl in *.
      rewrite (proj2 (Z.ltb_ge (lenZ _) _))
        by (rewrite HERE_remaining, Hr by done; rewrite !lenZ_app; len_lia).
      eexists _, _. split; [done |]. split; [done |]. rewrite Hrem, Hs. split; [by exists hd |].
      by intros v [= <-].
Qed.

Lemma parse_eod_spec b :
  buffer_wf b → parse_eod b = Ok (b, if bool_decide (remaining b = []) then Some () else None).
Proof.
  intros Hwf. unfold parse_eod. rewrite LEFT_remaining by done.
  case_bool_decide as Hr.
  - by rewrite Hr.
  - destruct (Z.eqb_spec (lenZ (remaining b)) 0) as [Hl |]; [| done].
    destruct (remaining b); [done |]. rewrite lenZ_cons in Hl. len_lia.
Qed.

End codecs.

(** ** Sequences of parsers

    [p (buffer, &x) && q (buffer, &y) && ...] reads the concatenation of the
    encodings.  A sequence that ends with [parse_eod] reads whole packets:
    that is the class [Whole]. *)

Class Whole {A} (p : parser A) (enc : A → list Z) (ok : A → Prop) : Prop := {
  whole_reads v b :
    ok v → buffer_wf b → remaining b = enc v →
    ∃ b', p b = Ok (b', Some v) ∧ buffer_wf b' ∧ remaining b' = [];
  whole_exact b :
    buffer_wf b →
    ∃ b' r, p b = Ok (b', r) ∧ buffer_wf b' ∧ (∀ v, r = Some v → ok v ∧ remaining b = enc v);
}.

(** One field of a sequence read, or refused. *)
Lemma parse_then_some {A B} (p : parser A) (q : parser B) b b1 x b2 r :
  p b = Ok (b1, Some x) → q b1 = Ok (b2, r) →
  parse_then p q b = Ok (b2, match r with Some y => Some (x, y) | None => None end).
Proof.
  intros Hp Hq. unfold parse_then, mbind, parser_bind. rewrite Hp, bind_ok_l, Hq, bind_ok_l. by destruct r.
Qed.

Lemma parse_then_none {A B} (p : parser A) (q : parser B) b b1 :
  p b = Ok (b1, None) → parse_then p q b = Ok (b1, None).
Proof. intros Hp. unfold parse_then, mbind, parser_bind. by rewrite Hp. Qed.

Lemma parse_last_some {A} (p : parser A) b b1 x :
  p b = Ok (b1, Some x) → buffer_wf b1 →
  parse_last p b = Ok (b1, if bool_decide (remaining b1 = []) then Some x else None).
Proof.
  intros Hp Hwf. unfold parse_last, mbind, parser_bind. rewrite Hp, bind_ok_l, parse_eod_spec, bind_ok_l by done.
  by case_bool_decide.
Qed.

Lemma parse_last_none {A} (p : parser A) b b1 : p b = Ok (b1, None) → parse_last p b = Ok (b1, None).
Proof. intros Hp. unfold parse_last, mbind, parser_bind. by rewrite Hp. Qed.

#[export] Instance then_codec {A B} (p : parser A) (q : parser B) encp okp encq okq :
  Codec p encp okp → Codec q encq okq →
  Codec (parse_then p q) (λ v, encp v.1 ++ encq v.2) (λ v, okp v.1 ∧ okq v.2).
Proof.
  intros Hp Hq. split.
  - intros [x y] b tl [Hx Hy] Hwf Hr. simpl in *. rewrite <- app_assoc in Hr.
    destruct (codec_reads x b _ Hx Hwf Hr) as (b1 & Hb1 & Hw1 & Hr1).
    destruct (codec_reads y b1 _ Hy Hw1 Hr1) as (b2 & Hb2 & Hw2 & Hr2).
    exists b2. by rewrite (parse_then_some _ _ _ _ _ _ _ Hb1 Hb2).
  - intros b Hwf. destruct (codec_exact (p := p) b Hwf) as (b1 & r & Hb1 & Hw1 & Hs1 & Hv1).
    destruct r as [x |]; [| exists b1, None; by rewrite (parse_then_none _ _ _ _ Hb1)].
    destruct (Hv1 x eq_refl) as [Hx Hr1].
    destruct (codec_exact (p := q) b1 Hw1) as (b2 & r & Hb2 & Hw2 & Hs2 & Hv2).
    rewrite (parse_then_some _ _ _ _ _ _ _ Hb1 Hb2).
    eexists _, _. split_and!; [done | done | by transitivity (remaining b1) |].
    intros v Hv. destruct r as [y |]; [| done]. injection Hv as <-. destruct (Hv2 y eq_refl) as [Hy Hr2].
    split; [done |]. simpl. by rewrite Hr1, Hr2, app_assoc.
Qed.

#[export] Instance then_whole {A B} (p : parser A) (q : parser B) encp okp encq okq :
  Codec p encp okp → Whole q encq okq →
  Whole (parse_then p q) (λ v, encp v.1 ++ encq v.2) (λ v, okp v.1 ∧ okq v.2).
Proof.
  intros Hp Hq. split.
  - intros [x y] b [Hx Hy] Hwf Hr. simpl in *.
    destruct (codec_reads x b _ Hx Hwf Hr) as (b1 & Hb1 & Hw1 & Hr1).
    destruct (whole_reads y b1 Hy Hw1 Hr1) as (b2 & Hb2 & Hw2 & Hr2).
    exists b2. by rewrite (parse_then_some _ _ _ _ _ _ _ Hb1 Hb2).
  - intros b Hwf. destruct (codec_exact (p := p) b Hwf) as (b1 & r & Hb1 & Hw1 & Hs1 & Hv1).
    destruct r as [x |]; [| exists b1, None; by rewrite (parse_then_none _ _ _ _ Hb1)].
    destruct (Hv1 x eq_refl) as [Hx Hr1].
    destruct (whole_exact (p := q) b1 Hw1) as (b2 & r & Hb2 & Hw2 & Hv2).
    rewrite (parse_then_some _ _ _ _ _ _ _ Hb1 Hb2). eexists _, _. split_and!; [done | done |].
    intros v Hv. destruct r as [y |]; [| done]. injection Hv as <-. destruct (Hv2 y eq_refl) as [Hy Hr2].
    split; [done |]. simpl. by rewrite Hr1, Hr2.
Qed.

#[export] Instance last_whole {A} (p : parser A) enc ok : Codec p enc ok → Whole (parse_last p) enc ok.
Proof.
  intros Hp. split.
  - intros v b Hv Hwf Hr. rewrite <- (app_nil_r (enc v)) in Hr.
    destruct (codec_reads v b [] Hv Hwf Hr) as (b1 & Hb1 & Hw1 & Hr1).
    exists b1. by rewrite (parse_last_some _ _ _ _ Hb1 Hw1), bool_decide_eq_true_2.
  - intros b Hwf. destruct (codec_exact (p := p) b Hwf) as (b1 & r & Hb1 & Hw1 & Hs1 & Hv1).
    destruct r as [x |]; [| exists b1, None; by rewrite (parse_last_none _ _ _ Hb1)].
    rewrite (parse_last_some _ _ _ _ Hb1 Hw1). eexists _, _. split_and!; [done | done |].
    intros v. case_bool_decide as Hn; [| done]. intros [= <-].
    destruct (Hv1 x eq_refl) as [Hx Hr1]. by rewrite Hr1, Hn, app_nil_r.
Qed.

Lemma codec_weaken {A} (p : parser A) enc enc' (ok ok' : A → Prop) :
  Codec p enc ok → (∀ v, ok' v ↔ ok v) → (∀ v, ok v → enc' v = enc v) → Codec p enc' ok'.
Proof.
  intros [Hr He] Hok Henc. split.
  - intros v b tl Hv Hwf Hrem. apply Hok in Hv. apply (Hr v b tl Hv Hwf). by rewrite Hrem, Henc.
  - intros b Hwf. destruct (He b Hwf) as (b' & r & ? & ? & ? & Hv). exists b', r. split_and!; [done.. |].
    intros v Hrv. destruct (Hv v Hrv) as [Hov Heq]. by rewrite Hok, Henc.
Qed.

Lemma whole_weaken {A} (p : parser A) enc enc' (ok ok' : A → Prop) :
  Whole p enc ok → (∀ v, ok' v ↔ ok v) → (∀ v, ok v → enc' v = enc v) → Whole p enc' ok'.
Proof.
  intros [Hr He] Hok Henc. split.
  - intros v b Hv Hwf Hrem. apply Hok in Hv. apply (Hr v b Hv Hwf). by rewrite Hrem, Henc.
  - intros b Hwf. destruct (He b Hwf) as (b' & r & ? & ? & Hv). exists b', r. split_and!; [done.. |].
    intros v Hrv. destruct (Hv v Hrv) as [Hov Heq]. by rewrite Hok, Henc.
Qed.

(** What a parser refuses is no encoding. *)
Lemma codec_refuses {A} (p : parser A) enc ok b b' :
  Codec p enc ok → buffer_wf b → p b = Ok (b', None) → ∀ v tl, ok v → remaining b ≠ enc v ++ tl.
Proof.
  intros Hc Hwf Hp v tl Hv Hr. destruct (codec_reads v b tl Hv Hwf Hr) as (b2 & Hp2 & _). congruence.
Qed.

Lemma whole_refuses {A} (p : parser A) enc ok b b' :
  Whole p enc ok → buffer_wf b → p b = Ok (b', None) → ∀ v, ok v → remaining b ≠ enc v.
Proof.
  intros Hc Hwf Hp v Hv Hr. destruct (whole_reads v b Hv Hwf Hr) as (b2 & Hp2 & _). congruence.
Qed.

(** ** Parsers that deliver less than the octets say

    When a parser forgets part of what it reads, its values correspond to
    octets by a relation. *)

Class Denotes {A} (p : parser A) (R : A → list Z → Prop) : Prop :=
  denotes b :
    buffer_wf b →
    ∃ b' r, p b = Ok (b', r) ∧ buffer_wf b'
      ∧ (∀ v, r = Some v → ∃ e, R v e ∧ remaining b = e ++ remaining b')
      ∧ (∀ v e tl, R v e → remaining b = e ++ tl → r = Some v ∧ remaining b' = tl).

Class DenotesWhole {A} (p : parser A) (R : A → list Z → Prop) : Prop :=
  denotes_whole b :
    buffer_wf b → ∃ b' r, p b = Ok (b', r) ∧ buffer_wf b' ∧ ∀ v, r = Some v ↔ R v (remaining b).

(** Two fields in sequence. *)
Definition rel_then {A B} (R : A → list Z → Prop) (S : B → list Z → Prop) (v : A * B) (e : list Z) : Prop :=
  ∃ e1 e2, e = e1 ++ e2 ∧ R v.1 e1 ∧ S v.2 e2.

#[export] Instance codec_denotes {A} (p : parser A) enc ok :
  Codec p enc ok → Denotes p (λ v e, ok v ∧ e = enc v).
Proof.
  intros Hc b Hwf. destruct (codec_exact b Hwf) as (b' & r & Hp & Hw & _ & Hv).
  exists b', r. split_and!; [done | done | |].
  - intros v Hr. destruct (Hv v Hr) as [Hok Heq]. eauto.
  - intros v e tl [Hok ->] Hr. destruct (codec_reads v b tl Hok Hwf Hr) as (b2 & Hp2 & _ & Hr2).
    rewrite Hp in Hp2. by injection Hp2 as -> ->.
Qed.

#[export] Instance whole_denotes {A} (p : parser A) enc ok :
  Whole p enc ok → DenotesWhole p (λ v e, ok v ∧ e = enc v).
Proof.
  intros Hc b Hwf. destruct (whole_exact b Hwf) as (b' & r & Hp & Hw & Hv).
  exists b', r. split_and!; [done | done |]. intros v. split; [by intros Hr; apply Hv |].
  intros [Hok Hr]. destruct (whole_reads v b Hok Hwf Hr) as (b2 & Hp2 & _). rewrite Hp in Hp2. by injection Hp2.
Qed.

#[export] Instance then_denotes {A B} (p : parser A) (q : parser B) R S :
  Denotes p R → Denotes q S → Denotes (parse_then p q) (rel_then R S).
Proof.
  intros Hp Hq b Hwf. destruct (Hp b Hwf) as (b1 & r1 & Hp1 & Hw1 & Hex1 & Hrd1).
  destruct r1 as [x |].
  - destruct (Hq b1 Hw1) as (b2 & r2 & Hp2 & Hw2 & Hex2 & Hrd2).
    exists b2, (match r2 with Some y => Some (x, y) | None => None end).
    split_and!; [by eapply parse_then_some | done | |].
    + intros v Hv. destruct r2 as [y |]; [| done]. injection Hv as <-.
      destruct (Hex1 x eq_refl) as (e1 & HR & Hr1), (Hex2 y eq_refl) as (e2 & HS & Hr2).
      exists (e1 ++ e2). split; [by exists e1, e2 |]. by rewrite Hr1, Hr2, app_assoc.
    + intros [x' y'] e tl (e1 & e2 & -> & HR & HS) Hr. cbn [fst snd] in *. rewrite <- app_assoc in Hr.
      destruct (Hrd1 x' e1 _ HR Hr) as [[= ->] Hr1]. by destruct (Hrd2 y' e2 tl HS Hr1) as [-> ->].
  - exists b1, None. split_and!; [by eapply parse_then_none | done | done |].
    intros [x y] e tl (e1 & e2 & -> & HR & HS) Hr. rewrite <- app_assoc in Hr.
    by destruct (Hrd1 x e1 _ HR Hr).
Qed.

#[export] Instance then_denotes_whole {A B} (p : parser A) (q : parser B) R S :
  Denotes p R → DenotesWhole q S → DenotesWhole (parse_then p q) (rel_then R S).
Proof.
  intros Hp Hq b Hwf. destruct (Hp b Hwf) as (b1 & r1 & Hp1 & Hw1 & Hex1 & Hrd1).
  destruct r1 as [x |].
  - destruct (Hq b1 Hw1) as (b2 & r2 & Hp2 & Hw2 & Hv2).
    exists b2, (match r2 with Some y => Some (x, y) | None => None end).
    split_and!; [by eapply parse_then_some | done |]. intros v. split.
    + intros Hv. destruct r2 as [y |]; [| done]. injection Hv as <-.
      destruct (Hex1 x eq_refl) as (e1 & HR & Hr1). exists e1, (remaining b1).
      split_and!; [done | done |]. by apply Hv2.
    + destruct v as [x' y']. intros (e1 & e2 & Hr & HR & HS). cbn [fst snd] in *.
      destruct (Hrd1 x' e1 _ HR Hr) as [[= ->] <-]. apply Hv2 in HS as ->. done.
  - exists b1, None. split_and!; [by eapply parse_then_none | done |]. intros [x y]. split; [done |].
    intros (e1 & e2 & Hr & HR & HS). by destruct (Hrd1 x e1 _ HR Hr).
Qed.

(** Post-processing of the value. *)
Lemma denotes_fmap {A B} (p : parser A) (q : parser B) (g : A → B) R S :
  Denotes p R →
  (∀ b, q b = ('(b, r) ← p b; Ok (b, match r with Some x => Some (g x) | None => None end))) →
  (∀ w e, S w e ↔ ∃ v, w = g v ∧ R v e) → Denotes q S.
Proof.
  intros Hp Hq HS b Hwf. destruct (Hp b Hwf) as (b' & r & Hpb & Hw & Hex & Hrd). rewrite Hq, Hpb, bind_ok_l.
  eexists b', _. split_and!; [done | done | |].
  - intros w Hr. destruct r as [v |]; [| done]. injection Hr as <-.
    destruct (Hex v eq_refl) as (e & HR & Heq). exists e. split; [| done]. apply HS. eauto.
  - intros w e tl Hw' Heq. apply HS in Hw' as (v & -> & HR). by destruct (Hrd v e tl HR Heq) as [-> ->].
Qed.

