(* ===== verification/ParseAtoms.v ===== *)
(** * Atom lists ([parse_next_atom], [parse_atoms], [parse_atom_list])

    A name-list is parsed in two passes over the same octets: one that counts
    commas, one that reads atoms between them.  The last read leaves the
    cursor beyond the end of the sub-buffer, so the agreement of the two
    passes is what keeps the assertion of [parse_next_atom] from failing. *)

From S2P Require Import Prelude Nettle Atoms LshString Format FormatSpec Parse ParseSpec.
Local Open Scope Z_scope.

(** ** Reference: splitting at commas *)

Fixpoint split_commas (d : list Z) : list (list Z) :=
  match d with
  | [] => [[]]
  | c :: d =>
      if c =? 44 then [] :: split_commas d
      else match split_commas d with
           | [] => [[c]]
           | p :: ps => (c :: p) :: ps
           end
  end.

Definition first_name (d : list Z) : list Z := hd [] (split_commas d).

Lemma split_commas_nonempty d : split_commas d ≠ [].
Proof. destruct d as [| c d]; simpl; [done |]. case_bool; [done |]. by destruct (split_commas d). Qed.

(** Either one name, or a name, a comma and the rest. *)
Lemma split_commas_cases d :
  (split_commas d = [d] ∧ Forall (λ c, c ≠ 44) d)
  ∨ ∃ p d', d = p ++ 44 :: d' ∧ Forall (λ c, c ≠ 44) p ∧ split_commas d = p :: split_commas d'.
Proof.
  induction d as [| c d IH]; simpl; [left; done |].
  destruct (Z.eqb_spec c 44) as [-> | Hc].
  - right. exists [], d. split_and!; [done | constructor | done].
  - destruct IH as [[-> Hd] | (p & d' & -> & Hp & ->)].
    + left. split; [done | by constructor].
    + right. exists (c :: p), d'. split_and!; [done | by constructor | done].
Qed.

Lemma split_commas_app p d' :
  Forall (λ c, c ≠ 44) p → split_commas (p ++ 44 :: d') = p :: split_commas d'.
Proof.
  induction p as [| c p IH]; intros Hp; simpl; [done |].
  apply Forall_cons in Hp as [Hc Hp]. rewrite IH by done.
  by rewrite (proj2 (Z.eqb_neq _ _)) by done.
Qed.

Lemma split_commas_one p : Forall (λ c, c ≠ 44) p → split_commas p = [p].
Proof.
  intros Hp. destruct (split_commas_cases p) as [[? _] | (q & d' & -> & _ & _)]; [done |].
  apply Forall_app in Hp as [_ Hp]. by apply Forall_cons in Hp as [? _].
Qed.

(** Splitting undoes joining. *)
Lemma split_join names :
  names ≠ [] → Forall (Forall (λ c, c ≠ 44)) names → split_commas (join_commas names) = names.
Proof.
  destruct names as [| n names]; [done |]. intros _ Hall. simpl.
  revert n Hall. induction names as [| m names IH]; intros n Hall.
  - simpl. rewrite app_nil_r. apply split_commas_one. by apply Forall_cons in Hall as [? _].
  - apply Forall_cons in Hall as [Hn Hall]. simpl. rewrite split_commas_app by done.
    by rewrite IH.
Qed.

(** ** What the parsers compute *)

Section spec.
Context `{AtomTable}.

Definition atom_of (name : list Z) : Z := if lenZ name =? 0 then 0 else lookup_atom name.

(** The atoms of a name-list, at most [limit] of them, each at most 64 octets. *)
Definition atoms_spec (limit : Z) (d : list Z) : option (list Z) :=
  if bool_decide (d = []) then Some []
  else if limit <? lenZ (split_commas d) then None
  else if forallb (λ n, lenZ n <=? 64) (split_commas d) then Some (atom_of <$> split_commas d)
  else None.

End spec.

Section atom_lists.
Context `{MallocOk} `{NettleMacrosOk} `{NettleBignumOk} `{AtomTableOk}.

Lemma next_atom_end_spec rest b i pre fuel :
  buffer_wf b → remaining b = pre ++ rest → lenZ pre = i → i <= 64 →
  (length rest < fuel)%nat →
  next_atom_end fuel b i
  = Ok (if i + lenZ (first_name rest) <=? 64 then Some (i + lenZ (first_name rest)) else None).
Proof.
  intros Hwf. revert i pre fuel. induction rest as [| c rest IH]; intros i pre fuel Hr Hi H64 Hf.
  - destruct fuel as [| fuel]; [simpl in Hf; lia |]. cbn [next_atom_end].
    rewrite LEFT_remaining, Hr, app_nil_r, Hi, Z.leb_refl by done.
    unfold first_name. simpl. change (lenZ []) with 0. rewrite Z.add_0_r.
    by rewrite (proj2 (Z.leb_le _ _)).
  - destruct fuel as [| fuel]; [simpl in Hf; lia |]. cbn [next_atom_end]. pose proof (lenZ_nonneg pre).
    assert (0 <= i < LEFT b) as Hlt
      by (rewrite LEFT_remaining, Hr, lenZ_app, lenZ_cons by done; pose proof (lenZ_nonneg rest); lia).
    rewrite (proj2 (Z.leb_gt _ _)) by lia.
    rewrite rd_HERE, Hr, rd_app_r, Hi, Z.sub_diag, rd_0 by (done || lia). simpl.
    unfold first_name. cbn [split_commas]. destruct (Z.eqb_spec c 44) as [-> | Hc].
    + simpl. change (lenZ []) with 0. by rewrite Z.add_0_r, (proj2 (Z.leb_le _ _)).
    + assert (hd [] match split_commas rest with [] => [[c]] | p :: ps => (c :: p) :: ps end
              = c :: first_name rest) as ->.
      { unfold first_name. pose proof (split_commas_nonempty rest). by destruct (split_commas rest). }
      rewrite lenZ_cons. pose proof (lenZ_nonneg (first_name rest)).
      destruct (Z.eqb_spec i 64); [by rewrite (proj2 (Z.leb_gt _ _)) by lia |].
      rewrite (IH (i + 1) (pre ++ [c])).
      * by rewrite Z.add_assoc.
      * rewrite Hr, <- app_assoc. done.
      * rewrite lenZ_app, Hi. done.
      * lia.
      * simpl in Hf. lia.
Qed.

(** One step: a name and, unless it is the last one, its comma. *)
Lemma parse_next_atom_spec b :
  buffer_wf b →
  parse_next_atom b
  = Ok (if lenZ (first_name (remaining b)) <=? 64
        then (ADVANCE b (lenZ (first_name (remaining b)) + 1),
              Some (atom_of (first_name (remaining b))))
        else (b, None)).
Proof.
  intros Hwf. unfold parse_next_atom. pose proof (bwf_pos _ Hwf). pass_assert.
  rewrite (next_atom_end_spec (remaining b) b 0 []); [| done | done | done | lia |].
  2: { rewrite LEFT_remaining by done. unfold lenZ. lia. }
  simpl. rewrite Z.add_0_l.
  destruct (lenZ (first_name (remaining b)) <=? 64); [| done]. simpl.
  do 3 f_equal. unfold atom_of. case_bool; [done |]. f_equal.
  unfold first_name in *.
  destruct (split_commas_cases (remaining b)) as [[-> _] | (p & d' & Hr & _ & ->)]; simpl.
  - rewrite slice_HERE; [apply slice_all | done |]. rewrite LEFT_remaining by done. len_lia.
  - rewrite slice_HERE; [| done |].
    + rewrite Hr. rewrite slice_app_l; [apply slice_all | len_lia..].
    + rewrite LEFT_remaining, Hr by done. len_lia.
Qed.

(** Reading as many names as there are. *)
Lemma parse_n_atoms_spec n b :
  buffer_wf b → length (split_commas (remaining b)) = n →
  ∃ b', parse_n_atoms n b
        = Ok (b', if forallb (λ n, lenZ n <=? 64) (split_commas (remaining b))
                  then Some (atom_of <$> split_commas (remaining b)) else None).
Proof.
  revert b. induction n as [| n IH]; intros b Hwf Hn.
  { pose proof (split_commas_nonempty (remaining b)). by destruct (split_commas (remaining b)). }
  cbn [parse_n_atoms]. unfold mbind at 1, parser_bind at 1. rewrite parse_next_atom_spec by done.
  unfold first_name in *.
  destruct (split_commas_cases (remaining b)) as [[Hs Hd] | (p & d' & Hr & Hp & Hs)];
    rewrite Hs in *; simpl in *.
  - injection Hn as <-. destruct (lenZ (remaining b) <=? 64); simpl; eauto.
  - injection Hn as Hn. destruct (lenZ p <=? 64); simpl; [| eauto].
    destruct (advance_app b (p ++ [44]) d') as (_ & Hw & Hrem);
      [done | by rewrite Hr, <- app_assoc |].
    rewrite lenZ_app in Hw, Hrem. change (lenZ [44]) with 1 in *.
    destruct (IH (ADVANCE b (lenZ p + 1))) as [b' Hb']; [done | by rewrite Hrem |].
    unfold mbind, parser_bind. rewrite Hb', Hrem. simpl.
    clear Hb'. destruct (forallb _ (split_commas d')); simpl; eauto.
Qed.

Lemma count_atoms_spec d count limit :
  count <= limit →
  count_atoms d count limit
  = if limit <? count + lenZ (split_commas d) - 1 then None
    else Some (count + lenZ (split_commas d) - 1).
Proof.
  revert count. induction d as [| c d IH]; intros count Hc.
  - simpl. change (lenZ [[]]) with 1. rewrite (proj2 (Z.ltb_ge _ _)) by lia. f_equal. lia.
  - cbn [count_atoms split_commas]. destruct (c =? 44).
    + rewrite lenZ_cons. pose proof (split_commas_nonempty d).
      assert (1 <= lenZ (split_commas d)) by (destruct (split_commas d); [done | len_lia]).
      destruct (limit <=? count) eqn:Hl.
      * by rewrite (proj2 (Z.ltb_lt _ _)) by lia.
      * rewrite IH by lia. replace (count + 1 + lenZ (split_commas d) - 1)
          with (count + (1 + lenZ (split_commas d)) - 1) by lia. done.
    + rewrite IH by lia. pose proof (split_commas_nonempty d).
      destruct (split_commas d) as [| p ps]; [done |]. by rewrite !lenZ_cons.
Qed.

Lemma parse_atoms_spec limit b :
  buffer_wf b → 1 <= limit →
  ∃ b', parse_atoms limit b = Ok (b', atoms_spec limit (remaining b)).
Proof.
  intros Hwf Hl. unfold parse_atoms, atoms_spec. unfold c_true. pass_assert.
  rewrite LEFT_remaining by done. case_bool_decide as Hr.
  - rewrite Hr. simpl. eauto.
  - destruct (Z.eqb_spec (lenZ (remaining b)) 0) as [Hz |].
    { destruct (remaining b); [done |]. len_lia. }
    pose proof (bwf_data _ Hwf). rewrite (proj2 (Z.ltb_ge _ _)) by lia.
    change (slice _ _ _) with (remaining b). rewrite count_atoms_spec by lia.
    replace (1 + lenZ (split_commas (remaining b)) - 1)
      with (lenZ (split_commas (remaining b))) by lia.
    destruct (limit <? _); [eauto |]. apply parse_n_atoms_spec; [done |]. unfold lenZ. lia.
Qed.

Lemma sub_buffer_wf d : Forall is_byte d → is_u32 (lenZ d) →
  buffer_wf (simple_buffer_init (lenZ d) d) ∧ remaining (simple_buffer_init (lenZ d) d) = d.
Proof. intros Hb [_ Hl]. by apply init_wf. Qed.

(** A whole name-list: never faults, and delivers what the octets mean. *)
Lemma parse_atom_list_spec limit b :
  buffer_wf b → 1 <= limit →
  (∀ d tl, Forall is_byte d → is_u32 (lenZ d) → remaining b = be32 (lenZ d) ++ d ++ tl →
     ∃ b', parse_atom_list limit b = Ok (b', atoms_spec limit d) ∧ buffer_wf b' ∧ remaining b' = tl)
  ∧ ∃ b' r, parse_atom_list limit b = Ok (b', r) ∧ buffer_wf b'.
Proof.
  intros Hwf Hl. unfold parse_atom_list, parse_sub_buffer. split.
  - intros d tl Hb Hd Hr.
    destruct (codec_reads (p := parse_string) d b tl) as (b' & -> & Hw & Hrem);
      [done | done | by rewrite <- app_assoc |]. simpl.
    destruct (sub_buffer_wf d Hb Hd) as [Hsub Hsr].
    destruct (parse_atoms_spec limit _ Hsub Hl) as [sub ->]. rewrite Hsr. simpl. eauto.
  - destruct (codec_exact (p := parse_string) b Hwf) as (b' & r & -> & Hw & _ & Hv).
    destruct r as [d |]; simpl; [| eauto].
    destruct (Hv d eq_refl) as [[Hb Hd] _]. destruct (sub_buffer_wf d Hb Hd) as [Hsub Hsr].
    destruct (parse_atoms_spec limit _ Hsub Hl) as [sub ->]. simpl. eauto.
Qed.

(** ** Round trip of lists of known atoms *)

Lemma known_names_inv l names :
  known_names l = Some names →
  Forall atom_name_ok names ∧ atom_of <$> names = filter (λ a, a ≠ 0) l.
Proof.
  revert names. induction l as [| a l IH]; intros names Hk; simpl in Hk.
  - injection Hk as <-. by split.
  - destruct (Z.eqb_spec a 0) as [-> | Ha].
    + rewrite filter_cons_False by lia. by apply IH.
    + destruct (get_atom_name a) as [name |] eqn:Hn; [| done].
      apply fmap_Some in Hk as (names' & Hk & ->). destruct (IH _ Hk) as [Hok Hmap].
      rewrite filter_cons_True by done. rewrite fmap_cons, Hmap.
      assert (valid_atom a) as Hva.
      { unfold get_atom_name in Hn. apply bind_Ok in Hn as ([x y] & Hrd & _).
        apply rd_lookup in Hrd as [Hge Hlk]. apply lookup_lt_Some in Hlk.
        unfold valid_atom, lenZ. lia. }
      destruct (get_atom_valid a Hva) as (name' & Hn' & _ & Hok' & Hlook).
      assert (name' = name) as -> by congruence.
      split; [by constructor |]. f_equal. unfold atom_of.
      destruct Hok' as (_ & _ & Hlen). rewrite (proj2 (Z.eqb_neq _ _)) by lia. done.
Qed.

Lemma known_names_valid l :
  Forall (λ a, a = 0 ∨ valid_atom a) l → ∃ names, known_names l = Some names.
Proof.
  induction l as [| a l IH]; intros Hl; simpl; [eauto |].
  apply Forall_cons in Hl as [[-> | Ha] Hl]; [by apply IH |]. destruct (IH Hl) as [names Hk].
  destruct (get_atom_valid a Ha) as (name & -> & _). rewrite Hk.
  destruct Ha. rewrite (proj2 (Z.eqb_neq _ _)) by lia. simpl. eauto.
Qed.

Lemma join_commas_bytes names :
  Forall atom_name_ok names → Forall is_byte (join_commas names).
Proof.
  destruct names as [| n names]; intros Hn; [constructor |].
  apply Forall_cons in Hn as [[Hb _] Hn]. simpl. apply Forall_app. split; [done |].
  induction names as [| m names IH]; simpl; [constructor |].
  apply Forall_cons in Hn as [[Hm _] Hn]. constructor; [unfold is_byte; lia |].
  apply Forall_app. split; [done | by apply IH].
Qed.

Lemma lenZ_join_bound names :
  Forall atom_name_ok names → lenZ (join_commas names) <= 65 * lenZ names.
Proof.
  destruct names as [| n names]; intros Hn; [done |].
  apply Forall_cons in Hn as [(_ & _ & Hl) Hn]. simpl. autorewrite with lsh.
  assert (lenZ (concat (cons 44 <$> names)) <= 65 * lenZ names); [| lia].
  induction names as [| m names IH]; [done |].
  apply Forall_cons in Hn as [(_ & _ & Hm) Hn]. specialize (IH Hn).
  rewrite fmap_cons. cbn [concat app]. autorewrite with lsh. lia.
Qed.

(** The list of names of known atoms reads back as the same atoms, the
    unknown ones left out. *)
Lemma atoms_spec_join limit l names :
  known_names l = Some names → lenZ names <= limit →
  atoms_spec limit (join_commas names) = Some (filter (λ a, a ≠ 0) l).
Proof.
  intros Hk Hl. destruct (known_names_inv _ _ Hk) as [Hok Hmap]. unfold atoms_spec.
  destruct names as [| n names].
  { simpl in *. by rewrite <- Hmap. }
  rewrite bool_decide_eq_false_2.
  2: { apply Forall_cons in Hok as [(_ & _ & Hn) _]. destruct n; [| done].
       change (lenZ []) with 0 in Hn. lia. }
  rewrite split_join; [| done |].
  2: { eapply Forall_impl; [exact Hok |]. by intros x (_ & Hx & _). }
  rewrite (proj2 (Z.ltb_ge _ _)) by lia. rewrite Hmap.
  rewrite (proj2 (forallb_forall _ _)); [done |].
  intros x Hx. apply list_elem_of_In in Hx. rewrite Forall_forall in Hok.
  destruct (Hok x Hx) as (_ & _ & Hlen). lia.
Qed.

End atom_lists.
