(* ===== verification/ParseUtf8.v ===== *)
(** * UTF-8 decoding ([parse_utf8] of [src/src/parse.c])

    The decoder is compared with an encoder given by arithmetic: it accepts
    exactly the shortest encodings of the valid code points (up to six
    octets, as in RFC 2279), and on every other input it reports failure
    without leaving the buffer. *)

From S2P Require Import Prelude Nettle Atoms LshString Format FormatSpec Parse ParseSpec.
Local Open Scope Z_scope.

(** ** Reference encoder *)

(** The last [k] base-64 digits of [n], as continuation octets. *)
Fixpoint cont_bytes (k : nat) (n : Z) : list Z :=
  match k with
  | O => []
  | S k => cont_bytes k (n `div` 64) ++ [128 + n `mod` 64]
  end.

(** Lead octet marker and number of continuation octets. *)
Definition utf8_form (n : Z) : Z * nat :=
  if n <? 128 then (0, 0%nat)
  else if n <? 2048 then (192, 1%nat)
  else if n <? 65536 then (224, 2%nat)
  else if n <? 2097152 then (240, 3%nat)
  else if n <? 67108864 then (248, 4%nat)
  else (252, 5%nat).

Definition utf8_encode (n : Z) : list Z :=
  let '(lead, k) := utf8_form n in
  (lead + n `div` 64 ^ Z.of_nat k) :: cont_bytes k n.

(** Code points: neither surrogates nor the non-characters FFFE, FFFF. *)
Definition utf8_valid (n : Z) : Prop :=
  0 <= n < 2 ^ 31 ∧ ~ (55296 <= n < 57344) ∧ n ≠ 65534 ∧ n ≠ 65535.

(** ** Bit operations of the decoder as arithmetic *)

Definition is_cont (c : Z) : bool := (128 <=? c) && (c <? 192).

(** The value after reading continuation octets. *)
Definition cont_value (v : Z) (cs : list Z) : Z := foldl (λ v c, v * 64 + (c - 128)) v cs.

(** What the lead octets announce. *)
Definition lead_spec (c : Z) : option () + (Z * Z) :=
  if c <? 192 then inl None
  else if c <? 224 then inr (2, c - 192)
  else if c <? 240 then inr (3, c - 224)
  else if c <? 248 then inr (4, c - 240)
  else if c <? 252 then inr (5, c - 248)
  else if c <? 254 then inr (6, c - 252)
  else inl (Some ()).

#[local] Instance lead_eq_dec : EqDecision (option () + (Z * Z)).
Proof. solve_decision. Defined.

(** Facts about octets are decided by enumeration. *)
Lemma byte_cases (P : Z → bool) :
  forallb P (Z.of_nat <$> seq 0 256) = true → ∀ c, is_byte c → P c = true.
Proof.
  rewrite forallb_forall. intros HP c [Hc1 Hc2]. apply HP, list_elem_of_In, list_elem_of_fmap.
  exists (Z.to_nat c). split; [lia |]. apply elem_of_seq. lia.
Qed.

Lemma utf8_lead_spec c : is_byte c → 128 <= c → utf8_lead c = lead_spec c.
Proof.
  intros Hc Hge.
  pose proof (byte_cases (λ c, (c <? 128) || bool_decide (utf8_lead c = lead_spec c))) as Hall.
  specialize (Hall ltac:(by vm_compute) c Hc). simpl in Hall.
  apply orb_true_iff in Hall as [Hlt | Heq]; [lia | by apply bool_decide_eq_true in Heq].
Qed.

Lemma cont_test c : is_byte c → (Z.land c 192 =? 128) = is_cont c.
Proof.
  intros Hc. apply (byte_cases (λ c, bool_decide ((Z.land c 192 =? 128) = is_cont c))) in Hc;
    [by apply bool_decide_eq_true in Hc | by vm_compute].
Qed.

Lemma cont_payload c : is_byte c → is_cont c = true → Z.land c 63 = c - 128.
Proof.
  intros Hc Hcont.
  apply (byte_cases (λ c, negb (is_cont c) || (Z.land c 63 =? c - 128))) in Hc; [| by vm_compute].
  simpl in Hc. rewrite Hcont in Hc. simpl in Hc. lia.
Qed.

Lemma push_bits v x :
  0 <= v < 2 ^ 26 → 0 <= x < 64 → Z.lor (u32 (Z.shiftl v 6)) x = v * 64 + x.
Proof.
  intros Hv Hx. rewrite Z.shiftl_mul_pow2 by lia. change (2 ^ 6) with 64.
  rewrite u32_id by (unfold is_u32; lia).
  rewrite <- Z.lxor_lor, <- Z.add_nocarry_lxor; [done | |].
  all: apply Z.bits_inj'; intros i Hi; rewrite Z.land_spec, Z.bits_0.
  all: change 64 with (2 ^ 6); rewrite <- Z.shiftl_mul_pow2, Z.shiftl_spec by lia.
  all: destruct (Z.ltb_spec i 6);
    [rewrite Z.testbit_neg_r by lia; done |
     rewrite (Z.bits_above_log2 x i); [by rewrite andb_false_r | lia |]].
  all: destruct (Z.eq_dec x 0) as [-> |]; [simpl; lia |];
    apply Z.log2_lt_pow2; [lia |];
    apply (Z.lt_le_trans _ (2 ^ 6)); [lia | apply Z.pow_le_mono_r; lia].
Qed.

(** ** Digits *)

Lemma lenZ_cont_bytes k n : lenZ (cont_bytes k n) = Z.of_nat k.
Proof. revert n. induction k; intros; simpl; [done |]. rewrite lenZ_app, IHk. len_lia. Qed.

Lemma cont_bytes_cont k n : Forall (λ c, is_cont c = true) (cont_bytes k n).
Proof.
  revert n. induction k; intros; simpl; [done |]. apply Forall_app. split; [done |].
  repeat constructor. unfold is_cont. pose proof (Z.mod_pos_bound n 64). lia.
Qed.

Lemma cont_value_app v a b : cont_value v (a ++ b) = cont_value (cont_value v a) b.
Proof. apply foldl_app. Qed.

Lemma cont_value_bytes k n : cont_value (n `div` 64 ^ Z.of_nat k) (cont_bytes k n) = n.
Proof.
  revert n. induction k as [| k IH]; intros n.
  - simpl. unfold cont_value. simpl. by rewrite Z.div_1_r.
  - cbn [cont_bytes]. rewrite cont_value_app, Nat2Z.inj_succ, Z.pow_succ_r by lia.
    rewrite <- Z.div_div by lia. rewrite IH.
    unfold cont_value. simpl. pose proof (Z.div_mod n 64). lia.
Qed.

Lemma cont_bytes_value v cs :
  Forall (λ c, is_cont c = true) cs →
  cont_bytes (length cs) (cont_value v cs) = cs
  ∧ cont_value v cs `div` 64 ^ lenZ cs = v.
Proof.
  induction cs as [| c cs IH] using rev_ind; intros Hc.
  - split; [done |]. unfold cont_value. simpl. apply Z.div_1_r.
  - apply Forall_app in Hc as [Hcs Hc]. rewrite Forall_singleton in Hc. destruct (IH Hcs) as [H1 H2].
    unfold is_cont in Hc.
    assert (cont_value v (cs ++ [c]) = cont_value v cs * 64 + (c - 128)) as Hv
      by by rewrite cont_value_app.
    assert (cont_value v (cs ++ [c]) `div` 64 = cont_value v cs) as Hd
      by (rewrite Hv, Z.div_add_l, Z.div_small by lia; lia).
    split.
    + rewrite length_app. simpl. rewrite Nat.add_1_r. cbn [cont_bytes]. rewrite Hd, H1.
      do 2 f_equal. rewrite Hv.
      replace (_ * 64 + _) with ((c - 128) + cont_value v cs * 64) by lia.
      rewrite Z.mod_add, Z.mod_small by lia. lia.
    + rewrite lenZ_app. change (lenZ [c]) with 1. pose proof (lenZ_nonneg cs).
      rewrite Z.add_comm, Z.pow_add_r by lia. rewrite <- Z.div_div by lia.
      change (64 ^ 1) with 64. by rewrite Hd.
Qed.

Lemma cont_value_bound v cs :
  Forall (λ c, is_cont c = true) cs → 0 <= v →
  v * 64 ^ lenZ cs <= cont_value v cs < (v + 1) * 64 ^ lenZ cs.
Proof.
  induction cs as [| c cs IH] using rev_ind; intros Hc Hv.
  - unfold cont_value. simpl. change (lenZ []) with 0. lia.
  - apply Forall_app in Hc as [Hcs Hc]. rewrite Forall_singleton in Hc. unfold is_cont in Hc.
    specialize (IH Hcs Hv). rewrite cont_value_app, lenZ_app. change (lenZ [c]) with 1.
    set (w := cont_value v cs) in *. unfold cont_value. simpl. pose proof (lenZ_nonneg cs).
    rewrite Z.pow_add_r by lia. change (64 ^ 1) with 64. rewrite !Z.mul_assoc. lia.
Qed.

(** ** The loop over the continuation octets *)

Fixpoint tail_spec (cs : list Z) (i v : Z) : Z + Z :=
  match cs with
  | [] => inr v
  | c :: cs => if is_cont c then tail_spec cs (i + 1) (v * 64 + (c - 128)) else inl i
  end.

Lemma tail_spec_cases cs i v :
  (Forall (λ c, is_cont c = true) cs ∧ tail_spec cs i v = inr (cont_value v cs))
  ∨ ∃ j, i <= j < i + lenZ cs ∧ tail_spec cs i v = inl j.
Proof.
  revert i v. induction cs as [| c cs IH]; intros i v; simpl; [by left |].
  destruct (is_cont c) eqn:Hc.
  - destruct (IH (i + 1) (v * 64 + (c - 128))) as [[Hcs Ht] | (j & Hj & Ht)]; rewrite Ht.
    + left. split; [by constructor | done].
    + right. exists j. split; [len_lia | done].
  - right. exists i. split; [len_lia | done].
Qed.

Lemma utf8_tail_spec cs b i v tl :
  buffer_wf b → 0 <= i → drop (Z.to_nat i) (remaining b) = cs ++ tl →
  0 <= v → (v + 1) * 64 ^ lenZ cs <= 2 ^ 32 →
  utf8_tail (length cs) b i v = Ok (tail_spec cs i v).
Proof.
  intros Hwf. revert i v. induction cs as [| c cs IH]; intros i v Hi Hd Hv Hb; [done |].
  assert (remaining b !! Z.to_nat i = Some c) as Hc
    by (pose proof (lookup_drop (remaining b) (Z.to_nat i) 0) as Hx;
        rewrite Hd in Hx; simpl in Hx; by rewrite Nat.add_0_r in Hx).
  assert (is_byte c) as Hbyte
    by (apply (proj1 (Forall_lookup _ _) (remaining_bytes b Hwf) _ _ Hc)).
  assert (0 <= i < LEFT b) as Hlt
    by (rewrite LEFT_remaining by done; apply lookup_lt_Some in Hc; unfold lenZ; lia).
  cbn [utf8_tail length tail_spec]. rewrite rd_HERE by done.
  rewrite (proj2 (rd_lookup _ _ c)) by done. simpl. rewrite cont_test by done.
  destruct (is_cont c) eqn:Hcont; simpl; [| done].
  pose proof (lenZ_nonneg cs). rewrite lenZ_cons, Z.pow_add_r in Hb by lia.
  change (64 ^ 1) with 64 in Hb.
  assert (1 <= 64 ^ lenZ cs) by (apply (Z.pow_le_mono_r 64 0); lia).
  rewrite cont_payload, push_bits by (done || unfold is_cont in Hcont; nia).
  unfold is_cont in Hcont. apply IH; [lia | | nia | nia].
  replace (Z.to_nat (i + 1)) with (Z.to_nat i + 1)%nat by lia.
  by rewrite <- drop_drop, Hd.
Qed.

(** ** The decoder as a function of the remaining octets *)

Definition utf8_acceptb (v min : Z) : bool :=
  (min <=? v) && negb (((55296 <=? v) && (v <? 57344)) || (v =? 65534) || (v =? 65535)).

Definition utf8_min (len : Z) : Z := nth (Z.to_nat len) utf8_min_value 0.

(** The number of octets consumed, and what is reported. *)
Definition utf8_spec (l : list Z) : Z * utf8_out :=
  match l with
  | [] => (0, mk_utf8 (-1) None None)
  | c :: r =>
      if c <? 128 then (1, mk_utf8 1 (Some c) (Some 1))
      else match lead_spec c with
      | inl None => (1, mk_utf8 0 None (Some 1))
      | inl (Some _) => (1, mk_utf8 0 None None)
      | inr (len, v) =>
          if lenZ l <? len then (lenZ l, mk_utf8 0 None (Some 1))
          else match tail_spec (take (Z.to_nat (len - 1)) r) 1 v with
          | inl i => (i, mk_utf8 0 None (Some i))
          | inr v =>
              (len, if utf8_acceptb v (utf8_min len) then mk_utf8 1 (Some v) (Some len)
                    else mk_utf8 0 None (Some len))
          end
      end
  end.

Lemma lead_spec_inr c len v :
  is_byte c → lead_spec c = inr (len, v) →
  2 <= len <= 6 ∧ 0 <= v ∧ (v + 1) * 64 ^ (len - 1) <= 2 ^ 32.
Proof.
  unfold lead_spec. intros [_ Hc] Hl.
  repeat case_bool_in Hl; try done; injection Hl as <- <-; lia.
Qed.

Lemma utf8_min_rd len : 2 <= len <= 6 → rd utf8_min_value len = Ok (utf8_min len).
Proof.
  intros Hl. assert (len = 2 ∨ len = 3 ∨ len = 4 ∨ len = 5 ∨ len = 6) as Hc by lia.
  by destruct Hc as [-> | [-> | [-> | [-> | ->]]]].
Qed.

(** Reading the first continuation octet apart makes no difference. *)
Lemma parse_utf8_cont {A} b n v (k : Z + Z → result A) :
  2 <= n →
  (c ← rd (HERE b) 1;
   if negb (Z.land c 192 =? 128) then k (inl 1)
   else utf8_tail (Z.to_nat (n - 2)) b 2 (Z.lor (u32 (Z.shiftl v 6)) (Z.land c 63)) ≫= k)
  = (utf8_tail (Z.to_nat (n - 1)) b 1 v ≫= k).
Proof.
  intros Hn. replace (Z.to_nat (n - 1)) with (S (Z.to_nat (n - 2))) by lia.
  cbn [utf8_tail]. destruct (rd (HERE b) 1) as [c | f]; [| done]. simpl.
  by destruct (Z.land c 192 =? 128).
Qed.

Lemma parse_utf8_eq b :
  buffer_wf b →
  parse_utf8 b = Ok (ADVANCE b (fst (utf8_spec (remaining b))), snd (utf8_spec (remaining b))).
Proof.
  intros Hwf. pose proof (remaining_bytes b Hwf) as Hbytes.
  pose proof (LEFT_remaining b Hwf) as HL. unfold parse_utf8. rewrite HL.
  destruct (remaining b) as [| c r] eqn:Hr.
  { simpl. unfold ADVANCE. rewrite Z.add_0_r, u32_id; [by destruct b |].
    destruct Hwf as [Hp Hc _ _]. unfold is_u32. lia. }
  assert (is_byte c) as Hc by by inversion Hbytes.
  destruct (Z.eqb_spec (lenZ (c :: r)) 0); [len_lia |].
  rewrite (rd_HERE b 0), Hr, rd_0 by (done || len_lia). simpl.
  destruct (c <? 128) eqn:Hlow; [done |]. rewrite utf8_lead_spec by (done || lia).
  destruct (lead_spec c) as [[[] |] | [len v]] eqn:Hlead; [done | done |].
  destruct (lead_spec_inr c len v Hc Hlead) as (Hlen & Hv & Hb).
  destruct (lenZ (c :: r) <? len) eqn:Hshort; [done |].
  pose proof (parse_utf8_cont b len v (λ t, match t with
    | inl i => Ok (ADVANCE b i, mk_utf8 0 None (Some i))
    | inr value =>
        m ← rd utf8_min_value len;
        if value <? m then Ok (ADVANCE b len, mk_utf8 0 None (Some len))
        else if ((55296 <=? value) && (value <? 57344)) || (value =? 65534) || (value =? 65535)
        then Ok (ADVANCE b len, mk_utf8 0 None (Some len))
        else Ok (ADVANCE b len, mk_utf8 1 (Some value) (Some len))
    end)) as Hfold. simpl in Hfold. rewrite Hfold by lia. clear Hfold.
  set (cs := take (Z.to_nat (len - 1)) r).
  assert (length cs = Z.to_nat (len - 1)) as Hcs
    by (unfold cs; rewrite length_take; rewrite lenZ_cons in Hshort; unfold lenZ in Hshort; lia).
  assert (lenZ cs = len - 1) as Hcs' by (unfold lenZ; lia).
  rewrite <- Hcs, (utf8_tail_spec cs b 1 v (drop (Z.to_nat (len - 1)) r));
    [| done | lia | rewrite Hr; simpl; unfold cs; by rewrite drop_0, take_drop | done | by rewrite Hcs'].
  simpl. destruct (tail_spec cs 1 v) as [i | value]; [done |]. simpl.
  rewrite utf8_min_rd by done. simpl. unfold utf8_acceptb.
  destruct (Z.ltb_spec value (utf8_min len)); [by rewrite (proj2 (Z.leb_gt (utf8_min len) _)) by lia |].
  rewrite (proj2 (Z.leb_le (utf8_min len) _)) by lia. simpl. destruct (_ || _ || _); done.
Qed.

(** ** The two directions *)

Lemma lead_spec_form n :
  128 <= n < 2 ^ 31 →
  let '(lead, k) := utf8_form n in
  lead_spec (lead + n `div` 64 ^ Z.of_nat k) = inr (Z.of_nat k + 1, n `div` 64 ^ Z.of_nat k)
  ∧ 128 <= lead + n `div` 64 ^ Z.of_nat k ∧ utf8_min (Z.of_nat k + 1) <= n.
Proof.
  intros Hn. unfold utf8_form. rewrite (proj2 (Z.ltb_ge n 128)) by lia.
  repeat case_bool; cbn [Z.of_nat];
    match goal with |- context [n `div` ?d] =>
      pose proof (Z.div_mod n d ltac:(done)); pose proof (Z.mod_pos_bound n d ltac:(done));
      let q := fresh "q" in set (q := n `div` d) in *; clearbody q end;
    (split_and!; [unfold lead_spec; repeat case_bool; try (f_equal; f_equal; lia); exfalso; lia
      | lia
      | match goal with |- ?a <= _ => let v := eval vm_compute in a in change a with v end; lia]).
Qed.

Lemma acceptb_valid n m :
  0 <= n < 2 ^ 31 → utf8_acceptb n m = true ↔ m <= n ∧ utf8_valid n.
Proof. intros Hn. unfold utf8_acceptb, utf8_valid. lia. Qed.

(** A shortest encoding is decoded, whatever follows it. *)
Lemma utf8_spec_encode n tl :
  utf8_valid n →
  utf8_spec (utf8_encode n ++ tl)
  = (lenZ (utf8_encode n), mk_utf8 1 (Some n) (Some (lenZ (utf8_encode n)))).
Proof.
  intros Hv. destruct (Hv) as [Hn _]. unfold utf8_encode. destruct (Z.ltb_spec n 128) as [Hlow | Hhigh].
  - unfold utf8_form. rewrite (proj2 (Z.ltb_lt n 128)) by lia. cbn [utf8_spec app Z.of_nat].
    rewrite Z.pow_0_r, Z.div_1_r, Z.add_0_l. by rewrite (proj2 (Z.ltb_lt n 128)) by lia.
  - pose proof (lead_spec_form n ltac:(lia)) as Hform. destruct (utf8_form n) as [lead k].
    destruct Hform as (Hlead & Hge & Hmin). cbn [utf8_spec app].
    rewrite (proj2 (Z.ltb_ge _ _)), Hlead by lia.
    rewrite (proj2 (Z.ltb_ge _ _)) by (rewrite lenZ_cons, lenZ_app, lenZ_cont_bytes; len_lia).
    replace (Z.to_nat (Z.of_nat k + 1 - 1)) with (length (cont_bytes k n))
      by (pose proof (lenZ_cont_bytes k n) as Hl; unfold lenZ in Hl; lia).
    rewrite take_app_length.
    destruct (tail_spec_cases (cont_bytes k n) 1 (n `div` 64 ^ Z.of_nat k)) as [[_ ->] | (j & _ & Hj)].
    + rewrite cont_value_bytes, (proj2 (acceptb_valid n _ Hn)) by done.
      rewrite lenZ_cons, lenZ_cont_bytes. by rewrite Z.add_comm.
    + exfalso. revert Hj. generalize 1 (n `div` 64 ^ Z.of_nat k). clear.
      pose proof (cont_bytes_cont k n) as Hall. revert Hall. generalize (cont_bytes k n).
      induction l as [| c l IH]; intros Hall i v; simpl; [done |].
      apply Forall_cons in Hall as [-> Hall]. by apply IH.
Qed.

(** The lead octets, and the forms they announce. *)
Lemma form_of_lead c len v cs :
  is_byte c → 128 <= c → lead_spec c = inr (len, v) → lenZ cs = len - 1 →
  Forall (λ c, is_cont c = true) cs → utf8_min len <= cont_value v cs →
  0 <= cont_value v cs < 2 ^ 31 ∧ utf8_encode (cont_value v cs) = c :: cs.
Proof.
  intros [_ Hc] Hge Hl Hlen Hcs Hmin.
  pose proof (cont_value_bound v cs Hcs) as Hbound.
  destruct (cont_bytes_value v cs Hcs) as [Hb Hd]. rewrite Hlen in *.
  assert (length cs = Z.to_nat (len - 1)) as Hk by (unfold lenZ in Hlen; lia).
  set (n := cont_value v cs) in *.
  assert (∃ lead, utf8_form n = (lead, Z.to_nat (len - 1)) ∧ c = lead + v ∧ 0 <= n < 2 ^ 31)
    as (lead & Hform & Hcv & Hrange).
  { unfold lead_spec in Hl. repeat case_bool_in Hl; try done;
      injection Hl as <- <-; specialize (Hbound ltac:(lia)); cbv [utf8_min nth Z.to_nat utf8_min_value] in Hmin;
      simpl in Hmin, Hbound; unfold utf8_form; repeat case_bool; try lia;
      (eexists; split; [reflexivity | split; lia]). }
  split; [done |]. pose proof (lenZ_nonneg cs). unfold utf8_encode. rewrite Hform, Z2Nat.id by lia. rewrite Hd.
  rewrite Hk in Hb. rewrite Hb. by subst c.
Qed.

(** What is accepted is a shortest encoding of a valid code point. *)
Lemma utf8_spec_sound l :
  Forall is_byte l → u_ret (snd (utf8_spec l)) = 1 →
  ∃ n tl, utf8_valid n ∧ l = utf8_encode n ++ tl.
Proof.
  intros Hb. destruct l as [| c r]; [done |].
  apply Forall_cons in Hb as [Hc Hb]. cbn [utf8_spec].
  destruct (c <? 128) eqn:Hlow; simpl.
  - intros _. exists c, r. unfold is_byte in Hc. split; [unfold utf8_valid; lia |].
    unfold utf8_encode, utf8_form. rewrite Hlow. simpl. by rewrite Z.div_1_r.
  - destruct (lead_spec c) as [[[] |] | [len v]] eqn:Hlead; [done | done |].
    destruct (lead_spec_inr c len v Hc Hlead) as (Hlen & Hv & _).
    destruct (lenZ (c :: r) <? len) eqn:Hshort; [done |].
    set (cs := take (Z.to_nat (len - 1)) r).
    assert (lenZ cs = len - 1) as Hcs
      by (unfold cs; rewrite lenZ_cons in Hshort; unfold lenZ in *; rewrite length_take; lia).
    destruct (tail_spec_cases cs 1 v) as [[Hall ->] | (j & _ & ->)]; [| done].
    simpl. destruct (utf8_acceptb _ _) eqn:Hacc; [intros _ | done].
    destruct (form_of_lead c len v cs) as [Hrange Henc]; try done;
      [lia | unfold utf8_acceptb in Hacc; lia |].
    apply acceptb_valid in Hacc as [_ Hvalid]; [| done].
    exists (cont_value v cs), (drop (Z.to_nat (len - 1)) r). split; [done |].
    rewrite Henc. simpl. unfold cs. by rewrite take_drop.
Qed.

Lemma utf8_spec_bounds l :
  Forall is_byte l →
  0 <= fst (utf8_spec l) <= lenZ l ∧ (l ≠ [] → 0 < fst (utf8_spec l)).
Proof.
  intros Hb. destruct l as [| c r]; [done |]. cbn [utf8_spec]. pose proof (lenZ_nonneg r).
  apply Forall_cons in Hb as [Hc Hb].
  pose proof (lenZ_cons c r). destruct (c <? 128); [simpl; lia |].
  destruct (lead_spec c) as [[[] |] | [len v]] eqn:Hlead; [simpl; lia.. |].
  destruct (lead_spec_inr c len v Hc Hlead) as (Hlen & _ & _).
  destruct (lenZ (c :: r) <? len) eqn:Hshort; [simpl; lia |].
  destruct (tail_spec_cases (take (Z.to_nat (len - 1)) r) 1 v) as [[_ ->] | (j & Hj & ->)]; simpl.
  - lia.
  - unfold lenZ in Hj. rewrite length_take in Hj. lia.
Qed.

(** C29: for every well-formed buffer [parse_utf8] returns, stays inside the
    buffer and makes progress on a non-empty one; it reports a character
    exactly when the buffer starts with the shortest encoding of a valid code
    point, and then delivers that code point, its length, and a buffer that
    continues right after it.  Overlong forms, surrogates, FFFE and FFFF,
    stray and missing continuation octets are all refused. *)
Theorem parse_utf8_correct b :
  buffer_wf b →
  ∃ b' o, parse_utf8 b = Ok (b', o) ∧ buffer_wf b'
    ∧ remaining b' `suffix_of` remaining b
    ∧ (remaining b ≠ [] → LEFT b' < LEFT b)
    ∧ (u_ret o = -1 ↔ remaining b = [])
    ∧ (u_ret o = 1 ↔ ∃ n tl, utf8_valid n ∧ remaining b = utf8_encode n ++ tl)
    ∧ (∀ n tl, utf8_valid n → remaining b = utf8_encode n ++ tl →
         o = mk_utf8 1 (Some n) (Some (lenZ (utf8_encode n))) ∧ remaining b' = tl).
Proof.
  intros Hwf. pose proof (remaining_bytes b Hwf) as Hb.
  destruct (utf8_spec_bounds (remaining b) Hb) as [Hbound Hprog].
  rewrite parse_utf8_eq by done.
  destruct (advance_wf b (fst (utf8_spec (remaining b)))) as [Hw Hrem];
    [done | by rewrite LEFT_remaining |].
  eexists _, _. split; [done |]. split; [done |]. split_and!.
  - rewrite Hrem. eexists. symmetry. apply take_drop.
  - intros Hne. rewrite !LEFT_remaining, Hrem by done. unfold lenZ in *. rewrite length_drop.
    specialize (Hprog Hne). lia.
  - destruct (remaining b) as [| c r]; [done |]. split; [| done]. cbn [utf8_spec].
    intros Hret. repeat case_match; done.
  - split; [by apply utf8_spec_sound |].
    intros (n & tl & Hn & Hr). by rewrite Hr, utf8_spec_encode.
  - intros n tl Hn Hr. rewrite Hrem, Hr, utf8_spec_encode by done. split; [done |].
    simpl. unfold lenZ. by rewrite Nat2Z.id, drop_app_length.
Qed.

(** The euro sign followed by a letter. *)
Lemma parse_utf8_correct_witness :
  let b := simple_buffer_init 4 [226; 130; 172; 65] in
  buffer_wf b ∧ ∃ b' o, parse_utf8 b = Ok (b', o) ∧ o = mk_utf8 1 (Some 8364) (Some 3).
Proof.
  intros b. assert (buffer_wf b) as Hwf.
  { split; simpl; [lia | lia | done |]. repeat constructor; unfold is_byte; lia. }
  split; [done |]. destruct (parse_utf8_correct b Hwf) as (b' & o & Hp & _ & _ & _ & _ & _ & Hv).
  exists b', o. split; [done |]. destruct (Hv 8364 [65]) as [Ho _]; [| reflexivity | exact Ho].
  unfold utf8_valid. lia.
Defined.
