(* ===== verification/RoundTrip.v ===== *)
(** * What is formatted parses back, and parsing is safe

    Theorems about [format.c] and [parse.c] together, proved from the
    reference encoding of the one and the [Codec] instances of the other. *)

From S2P Require Import Prelude Nettle Atoms LshString Format FormatSpec Parse ParseSpec ParseAtoms.
Local Open Scope Z_scope.

(** [simple_buffer_init (&buffer, STRING_LD (s))] *)
Definition string_buffer (s : lsh_string) : simple_buffer :=
  simple_buffer_init (lsh_string_length s) (lsh_string_data s).

Lemma string_buffer_wf s :
  lsh_string_wf s → buffer_wf (string_buffer s) ∧ remaining (string_buffer s) = contents s.
Proof.
  intros [[Hl1 Hl2] Hr _ Hb]. split; [split; simpl; unfold lsh_string_length, lsh_string_data; done || lia |].
  unfold remaining, contents. simpl. by rewrite Z.sub_0_r.
Qed.

(** A parser that cannot fault, nor leave or move back in the packet. *)
Definition safe {A} (p : parser A) : Prop :=
  ∀ b, buffer_wf b →
  ∃ b' r, p b = Ok (b', r) ∧ buffer_wf b' ∧ remaining b' `suffix_of` remaining b.

Section round_trips.
Context `{MallocOk} `{NettleMacrosOk} `{NettleBignumOk} `{AtomTableOk}.

Lemma codec_safe {A} (p : parser A) enc ok : Codec p enc ok → safe p.
Proof. intros Hc b Hwf. destruct (codec_exact b Hwf) as (b' & r & ? & ? & ? & _). eauto. Qed.

(** Post-processing of a parsed string. *)
Lemma string_map_safe {A} (p : parser A) (k : simple_buffer → list Z → result (simple_buffer * option A)) :
  (∀ b, p b = ('(b, r) ← parse_string b; match r with None => Ok (b, None) | Some d => k b d end)) →
  (∀ b d, buffer_wf b → Forall is_byte d → is_u32 (lenZ d) → ∃ r, k b d = Ok (b, r)) → safe p.
Proof.
  intros Hp Hk b Hwf. rewrite Hp.
  destruct (codec_exact (p := parse_string) b Hwf) as (b' & r & -> & Hw & Hs & Hv). simpl.
  destruct r as [d |]; [| eauto]. destruct (Hv d eq_refl) as [[Hb Hd] _].
  destruct (Hk b' d Hw Hb Hd) as [r ->]. eauto.
Qed.

(** [ssh_format ("%ls", length, data)] copies. *)
Lemma format_copy l d :
  is_u32 l → l <= lenZ d → Forall is_byte d →
  ∃ s, ssh_format_string "%ls" [FInt l; FBytes d] = Ok s ∧ lsh_string_wf s ∧ contents s = slice 0 l d.
Proof.
  intros Hu Hl Hb.
  assert (lenZ (slice 0 l d) = l) as Hlen by (apply lenZ_slice; unfold is_u32 in Hu; lia).
  destruct (ssh_format_string_spec "%ls" [FInt l; FBytes d] [PBytes (slice 0 l d)] (slice 0 l d))
    as (s & Hs & Hwf & Hc & _); [| simpl; by rewrite app_nil_r | by repeat constructor | |].
  - unfold spec_format. simpl. rewrite u32_id by done.
    by rewrite (proj2 (Z.ltb_ge _ _)) by lia.
  - unfold is_u32 in Hu. lia.
  - eauto.
Qed.

Lemma parse_string_copy_safe : safe parse_string_copy.
Proof.
  eapply string_map_safe; [done |]. intros b d Hwf Hb Hd.
  destruct (format_copy (lenZ d) d) as (s & Hs & _); [done | done | done |].
  cbv beta. rewrite Hs. simpl. eauto.
Qed.

Lemma parse_atom_list_safe limit : 1 <= limit → safe (parse_atom_list limit).
Proof.
  intros Hl. apply (string_map_safe _ (λ b d,
    '(_, l) ← parse_atoms limit (simple_buffer_init (lenZ d) d); Ok (b, l))).
  - intros b. unfold parse_atom_list, parse_sub_buffer.
    destruct (parse_string b) as [[b' [d |]] |]; done.
  - intros b d _ Hb Hd. destruct (sub_buffer_wf d Hb Hd) as [Hsub _].
    destruct (parse_atoms_spec limit _ Hsub Hl) as [b' ->]. simpl. eauto.
Qed.

Lemma parse_rest_copy_spec b :
  buffer_wf b →
  ∃ b' s, parse_rest_copy b = Ok (b', s) ∧ buffer_wf b' ∧ remaining b' = []
          ∧ lsh_string_wf s ∧ contents s = remaining b.
Proof.
  intros Hwf. unfold parse_rest_copy. pose proof (LEFT_remaining b Hwf) as HL.
  pose proof (lenZ_nonneg (remaining b)).
  assert (Forall is_byte (HERE b)) as Hb by apply Forall_drop, Hwf.
  destruct (format_copy (LEFT b) (HERE b)) as (s & -> & Hs & Hc); [apply u32_range | | done |].
  { rewrite HERE_remaining by done. len_lia. }
  simpl. destruct (advance_wf b (LEFT b) Hwf) as [Hw Hr]; [lia |].
  assert (remaining (ADVANCE b (LEFT b)) = []) as Hnil
    by (rewrite Hr, HL; apply drop_ge; unfold lenZ; lia).
  rewrite (LEFT_remaining _ Hw), Hnil. simpl. eexists _, _. split_and!; [done.. |].
  rewrite Hc, slice_HERE by (done || lia). rewrite HL. apply slice_all.
Qed.


(** Every list of algorithm names [ssh_format] writes with ["%A"] is read
    back by [parse_atom_list] as the same list, without the zeros that stand
    for unknown names, and with nothing left over, as long as the list has no
    more entries than the limit. *)
Theorem atom_list_roundtrip l limit :
  Forall (λ a, a = 0 ∨ valid_atom a) l → lenZ l <= 2 ^ 20 → lenZ l <= limit → 1 <= limit →
  ∃ s b', ssh_format_string "%A" [FList l] = Ok s ∧ lsh_string_wf s
    ∧ parse_atom_list limit (string_buffer s) = Ok (b', Some (filter (λ a, a ≠ 0) l))
    ∧ remaining b' = [].
Proof.
  intros Hl Hlen Hlim Hlim1. destruct (known_names_valid l Hl) as [names Hk].
  destruct (known_names_inv l names Hk) as [Hok Hmap].
  assert (lenZ names <= lenZ l) as Hnl.
  { rewrite <- (lenZ_fmap atom_of names), Hmap. unfold lenZ. pose proof (length_filter (λ a, a ≠ 0) l). lia. }
  pose proof (lenZ_join_bound names Hok) as Hjb. pose proof (lenZ_nonneg (join_commas names)).
  destruct (ssh_format_string_spec "%A" [FList l] [PBytes (be32 (lenZ (join_commas names)) ++ join_commas names)]
    (be32 (lenZ (join_commas names)) ++ join_commas names)) as (s & Hs & Hwf & Hc & _).
  - unfold spec_format. simpl. by rewrite Hk.
  - simpl. by rewrite app_nil_r.
  - by repeat constructor.
  - autorewrite with lsh. lia.
  - destruct (string_buffer_wf s Hwf) as [Hbw Hbr].
    destruct (parse_atom_list_spec limit _ Hbw Hlim1) as [Hread _].
    destruct (Hread (join_commas names) []) as (b' & Hp & _ & Hrem).
    + by apply join_commas_bytes.
    + unfold is_u32. lia.
    + by rewrite Hbr, Hc, app_nil_r.
    + exists s, b'. split_and!; [done | done | | done].
      rewrite Hp. by rewrite (atoms_spec_join limit l names) by (done || lia).
Qed.

Lemma sizeinbase_s_fits n :
  0 <= n → 0 <= mpn_length no_flags n ∧ 2 * n < 256 ^ mpn_length no_flags n.
Proof.
  intros Hn. unfold mpn_length. destruct (Z.eqb_spec n 0) as [-> |]; [simpl; lia |]. simpl.
  destruct (proj1 (sizeinbase_256_s_spec n _ ltac:(lia)) eq_refl). lia.
Qed.

(** A non-negative number written with ["%n"] is read back by
    [parse_bignum] as the same number, when its representation is within the
    limit given to the parser. *)
Theorem bignum_roundtrip n limit :
  0 <= n → mpn_length no_flags n < 2 ^ 32 - 4 →
  limit = 0 ∨ 0 < limit < 2 ^ 32 - 1 ∧ mpn_length no_flags n <= limit + 1 →
  ∃ s b', ssh_format_string "%n" [FNum n] = Ok s ∧ lsh_string_wf s
    ∧ parse_bignum limit (string_buffer s) = Ok (b', Some n) ∧ remaining b' = [].
Proof.
  intros Hn Hsz Hlim. destruct (sizeinbase_s_fits n Hn) as [Hl0 Hfit].
  set (l := mpn_length no_flags n) in *. set (d := be_bytes (Z.to_nat l) n).
  assert (lenZ d = l) as Hd by (unfold d; rewrite lenZ_be_bytes; lia).
  destruct (ssh_format_string_spec "%n" [FNum n] [PBytes (be32 l ++ d)] (be32 l ++ d))
    as (s & Hs & Hwf & Hc & _).
  - unfold spec_format. simpl. by rewrite (proj2 (Z.ltb_ge _ _)) by lia.
  - simpl. by rewrite app_nil_r.
  - by repeat constructor.
  - autorewrite with lsh. lia.
  - destruct (string_buffer_wf s Hwf) as [Hbw Hbr].
    destruct (codec_reads (p := parse_string) d (string_buffer s) []) as (b' & Hp & _ & Hrem).
    + split; [apply be_bytes_bytes |]. unfold is_u32. lia.
    + done.
    + by rewrite Hbr, Hc, Hd, app_nil_r.
    + exists s, b'. split_and!; [done | done | | done].
      unfold parse_bignum. rewrite Hp. simpl.
      rewrite (proj2 (andb_false_iff _ _)).
      2: { unfold c_true. destruct Hlim as [-> | [Hlim Hle]]; [by left | right].
           rewrite u32_id by (unfold is_u32; lia). lia. }
      assert (n < 256 ^ l) by lia.
      assert (be_value d = n) as Hv
        by (apply be_value_bytes; rewrite Z2Nat.id by lia; lia).
      rewrite set_str_256_s_spec by apply be_bytes_bytes.
      by rewrite Hd, Hv, (proj2 (Z.ltb_lt _ _)).
Qed.

(** One step of a sequence of parsers. *)
Lemma parser_bind_reads {A B} (p : parser A) (k : A → parser B) enc ok v b tl r :
  Codec p enc ok → ok v → buffer_wf b → remaining b = enc v ++ tl →
  (∀ b', buffer_wf b' → remaining b' = tl → k v b' = r) → (p ≫= k) b = r.
Proof.
  intros Hc Hok Hwf Hr Hk. destruct (codec_reads v b tl Hok Hwf Hr) as (b' & Hp & Hw & Hrem).
  unfold mbind, parser_bind. rewrite Hp. simpl. by apply Hk.
Qed.

End round_trips.


(** zlib, an unknown name, none. *)
Lemma atom_list_roundtrip_witness :
  ∃ s b', ssh_format_string "%A" [FList [2; 0; 1]] = Ok s ∧ lsh_string_wf s
    ∧ parse_atom_list 3 (string_buffer s) = Ok (b', Some [2; 1]) ∧ remaining b' = [].
Proof.
  apply (atom_list_roundtrip [2; 0; 1] 3); [| done | done | lia].
  apply Forall_cons; split; [right; done |]. apply Forall_cons; split; [left; done |].
  apply Forall_cons; split; [right; done | constructor].
Defined.

(** The top bit of 200 is set, so a zero octet precedes it. *)
Lemma bignum_roundtrip_witness :
  ∃ s b', ssh_format_string "%n" [FNum 200] = Ok s ∧ lsh_string_wf s
    ∧ parse_bignum 1 (string_buffer s) = Ok (b', Some 200) ∧ remaining b' = [].
Proof. apply (bignum_roundtrip 200 1); [lia | done | right; split; [lia | done]]. Defined.
