(* ===== verification/StringUtil.v ===== *)
(** * Encodings of strings for people ([src/src/lsh_string.c])

    Hexadecimal decoding, colon-separated fingerprints and Bubble Babble.
    All three fill a string of a size computed in advance, one [putc] at a
    time; the theorems show that the size is right and the text is the one
    intended. *)

From S2P Require Import Prelude Nettle LshString Atoms Format FormatSpec.
Local Open Scope Z_scope.

(** ** Model *)

Section model.
Context `{Malloc} `{NettleMacros}.

(** [lsh_string_putc (p, r++, c)] *)
Definition put (st : lsh_string * Z) (c : Z) : result (lsh_string * Z) :=
  p ← lsh_string_putc (fst st) (snd st) c;
  Ok (p, u32 (snd st + 1)).

Definition hex_decode_table : list Z :=
  [-1; -1; -1; -1; -1; -1; -1; -1; -1; -2; -2; -1; -1; -2; -1; -1;
   -1; -1; -1; -1; -1; -1; -1; -1; -1; -1; -1; -1; -1; -1; -1; -1;
   -2; -1; -1; -1; -1; -1; -1; -1; -1; -1; -1; -1; -1; -1; -1; -1;
    0;  1;  2;  3;  4;  5;  6;  7;  8;  9; -1; -1; -1; -1; -1; -1;
   -1; 10; 11; 12; 13; 14; 15; -1; -1; -1; -1; -1; -1; -1; -1; -1;
   -1; -1; -1; -1; -1; -1; -1; -1; -1; -1; -1; -1; -1; -1; -1; -1;
   -1; 10; 11; 12; 13; 14; 15; -1; -1; -1; -1; -1; -1; -1; -1; -1;
   -1; -1; -1; -1; -1; -1; -1; -1; -1; -1; -1; -1; -1; -1; -1; -1].

(** The loop, for the pairs of digits from [i] on. *)
Fixpoint hex_decode_loop (pairs : nat) (hex : list Z) (i : Z) (s : lsh_string)
  : result (option lsh_string) :=
  match pairs with
  | O => Ok (Some s)
  | S pairs =>
      h1 ← rd hex i;
      h2 ← rd hex (i + 1);
      if (128 <=? h1) || (128 <=? h2) then Ok None
      else
        d1 ← rd hex_decode_table h1;
        if d1 <? 0 then Ok None
        else
          d2 ← rd hex_decode_table h2;
          if d2 <? 0 then Ok None
          else
            s ← lsh_string_putc s (i `div` 2) (Z.lor (Z.shiftl d1 4) d2);
            hex_decode_loop pairs hex (i + 2) s
  end.

Definition lsh_string_hex_decode (length : Z) (hex : list Z) : result (option lsh_string) :=
  if Z.testbit length 0 then Ok None
  else hex_decode_loop (Z.to_nat (length `div` 2)) hex 0 (lsh_string_alloc (length `div` 2)).

Fixpoint colonize_loop (data : list Z) (every i : Z) (st : lsh_string * Z)
  : result (lsh_string * Z) :=
  match data with
  | [] => Ok st
  | c :: data =>
      st ← (if c_true i && negb (c_true (i `mod` every)) then put st 58 else Ok st);
      st ← put st c;
      colonize_loop data every (i + 1) st
  end.

Definition lsh_string_colonize (s : lsh_string) (every : Z) : result lsh_string :=
  let length := lsh_string_length s in
  let colons := if c_true length then (length - 1) `div` every else 0 in
  let size := u32 (length + colons) in
  '(packet, j) ← colonize_loop (slice 0 length (lsh_string_data s)) every 0
                   (lsh_string_alloc size, 0);
  _ ← c_assert (j =? size);
  Ok packet.

(** The checksum, by the recursion of the source; the index is positive. *)
Fixpoint lsh_string_bubblebabble_c (s : lsh_string) (i : nat) : result Z :=
  match i with
  | O => Fault AssertFailed
  | S O => Ok 1
  | S i' =>
      let j := Z.of_nat i * 2 - 3 - 1 in
      let k := Z.of_nat i * 2 - 2 - 1 in
      _ ← c_assert ((j <? lsh_string_length s) && (k <? lsh_string_length s));
      c ← lsh_string_bubblebabble_c s i';
      dj ← ls_byte s j;
      dk ← ls_byte s k;
      Ok ((5 * c + (dj * 7 + dk)) `mod` 36)
  end.

Definition vowels : list Z := cstr "aeiouy".
Definition consonants : list Z := cstr "bcdfghklmnprstvzx".

Definition put_from (table : list Z) (i : Z) (st : lsh_string * Z) : result (lsh_string * Z) :=
  c ← rd table i; put st c.

Fixpoint bubblebabble_loop (k : nat) (s : lsh_string) (i : Z) (st : lsh_string * Z)
  : result (lsh_string * Z) :=
  match k with
  | O => Ok st
  | S k =>
      _ ← c_assert (i * 2 + 1 <? lsh_string_length s);
      q0 ← ls_byte s (i * 2);
      q1 ← ls_byte s (i * 2 + 1);
      chk ← lsh_string_bubblebabble_c s (Z.to_nat (i + 1));
      let a := (Z.land (Z.shiftr q0 6) 3 + chk) `mod` 6 in
      let b := Z.land (Z.shiftr q0 2) 15 in
      let c := (Z.land q0 3 + chk `div` 6) `mod` 6 in
      let d := Z.land (Z.shiftr q1 4) 15 in
      let e := Z.land q1 15 in
      st ← put_from vowels a st;
      st ← put_from consonants b st;
      st ← put_from vowels c st;
      st ← put_from consonants d st;
      st ← put st 45;
      st ← put_from consonants e st;
      bubblebabble_loop k s (i + 1) st
  end.

Definition lsh_string_bubblebabble (s : lsh_string) : result lsh_string :=
  let length := lsh_string_length s in
  let babblelen := u32 (2 + 6 * (length `div` 2) + 3) in
  st ← put (lsh_string_alloc babblelen, 0) 120;
  st ← bubblebabble_loop (Z.to_nat (length `div` 2)) s 0 st;
  let i := length `div` 2 in
  chk ← lsh_string_bubblebabble_c s (Z.to_nat (i + 1));
  '(a, b, c) ←
    (if c_true (length `mod` 2) then
       q ← ls_byte s (length - 1);
       Ok ((Z.land (Z.shiftr q 6) 3 + chk) `mod` 6, Z.land (Z.shiftr q 2) 15,
           (Z.land q 3 + chk `div` 6) `mod` 6)
     else Ok (chk `mod` 6, 16, chk `div` 6));
  st ← put_from vowels a st;
  st ← put_from consonants b st;
  st ← put_from vowels c st;
  st ← put st 120;
  _ ← c_assert (snd st =? lsh_string_length (fst st));
  Ok (fst st).

End model.

(** ** References *)

(** Pieces of [every] octets, the last one possibly shorter. *)
Fixpoint chunks (fuel : nat) (every : nat) (l : list Z) : list (list Z) :=
  match fuel, l with
  | _, [] => []
  | O, _ => []
  | S fuel, l => take every l :: chunks fuel every (drop every l)
  end.

Definition join_colons (pieces : list (list Z)) : list Z :=
  match pieces with
  | [] => []
  | p :: ps => p ++ concat ((λ q, 58 :: q) <$> ps)
  end.

Definition vowel (i : Z) : Z := nth (Z.to_nat i) vowels 0.
Definition consonant (i : Z) : Z := nth (Z.to_nat i) consonants 0.

(** Bubble Babble with the checksum carried along. *)
Fixpoint babble (fuel : nat) (chk : Z) (l : list Z) : list Z :=
  match fuel, l with
  | _, [] => [vowel (chk `mod` 6); consonant 16; vowel (chk `div` 6)]
  | _, [x] => [vowel ((x `div` 64 + chk) `mod` 6); consonant ((x `div` 4) `mod` 16);
               vowel ((x `mod` 4 + chk `div` 6) `mod` 6)]
  | O, _ => []
  | S fuel, x :: y :: l =>
      [vowel ((x `div` 64 + chk) `mod` 6); consonant ((x `div` 4) `mod` 16);
       vowel ((x `mod` 4 + chk `div` 6) `mod` 6); consonant (y `div` 16); 45;
       consonant (y `mod` 16)]
      ++ babble fuel ((5 * chk + (7 * x + y)) `mod` 36) l
  end.

(** The octets of the colon-separated form from source position [i] on. *)
Fixpoint colon_bytes (every i : Z) (l : list Z) : list Z :=
  match l with
  | [] => []
  | c :: l =>
      (if c_true i && negb (c_true (i `mod` every)) then [58] else [])
      ++ c :: colon_bytes every (i + 1) l
  end.

(** ** Emitting octets one by one *)

Section emit.
Context `{MallocOk} `{NettleMacrosOk}.

(** [out] has been written to the string [p0]. *)
Definition emitted (p0 : lsh_string) (out : list Z) (st : lsh_string * Z) : Prop :=
  wrote p0 0 out (fst st) ∧ snd st = lenZ out.

Lemma emitted_start p0 : lsh_string_wf p0 → emitted p0 [] (p0, 0).
Proof. intros Hwf. split; [by apply wrote_nil | done]. Qed.

Lemma put_emitted p0 out st c :
  lsh_string_wf p0 → emitted p0 out st → lenZ out < ls_length p0 → is_byte c →
  ∃ st', put st c = Ok st' ∧ emitted p0 (out ++ [c]) st'.
Proof.
  intros Hwf [Hw Hr] Hroom Hc. destruct st as [p r]. simpl in *. subst r.
  pose proof (lenZ_nonneg out). pose proof (wrote_len _ _ _ _ Hw) as Hlen.
  unfold put. simpl.
  destruct (putc_wrote p (lenZ out) c) as (p' & -> & Hw'); [by apply Hw | lia |].
  simpl. rewrite u8_id in Hw' by done. eexists. split; [done |]. split; simpl.
  - apply (wrote_app p0 0 out p); [done | lia | | done | by rewrite Z.add_0_l].
    autorewrite with lsh. lia.
  - rewrite (wf_u32 p0) by (done || lia). len_lia.
Qed.

Lemma put_from_emitted p0 out st table i :
  lsh_string_wf p0 → emitted p0 out st → lenZ out < ls_length p0 →
  Forall is_byte table → 0 <= i < lenZ table →
  ∃ st', put_from table i st = Ok st' ∧ emitted p0 (out ++ [nth (Z.to_nat i) table 0]) st'.
Proof.
  intros Hwf He Hroom Ht Hi. unfold put_from. destruct (rd_ok table i Hi) as [c Hc].
  rewrite Hc. simpl. apply rd_lookup in Hc as [_ Hc].
  erewrite (nth_lookup_Some table (Z.to_nat i) 0 c) by done.
  apply put_emitted; [done.. |]. by apply (proj1 (Forall_lookup _ _) Ht _ _ Hc).
Qed.

Lemma emitted_all p0 out st :
  lsh_string_wf p0 → emitted p0 out st → lenZ out = ls_length p0 →
  lsh_string_wf (fst st) ∧ contents (fst st) = out ∧ ls_length (fst st) = snd st.
Proof.
  intros Hwf [(Hw & Hl & Hc) Hr] Hlen. split_and!; [done | | lia].
  rewrite Hc. unfold splice. simpl. rewrite drop_ge, app_nil_r; [done |].
  pose proof (lenZ_contents p0 Hwf). unfold lenZ in *. lia.
Qed.

(** ** Colons *)

Lemma colonize_loop_emitted p0 every data i out st :
  lsh_string_wf p0 → emitted p0 out st → Forall is_byte data →
  lenZ out + lenZ (colon_bytes every i data) <= ls_length p0 →
  ∃ st', colonize_loop data every i st = Ok st'
         ∧ emitted p0 (out ++ colon_bytes every i data) st'.
Proof.
  intros Hwf. revert i out st. induction data as [| c data IH]; intros i out st He Hb Hroom.
  - exists st. by rewrite app_nil_r.
  - apply Forall_cons in Hb as [Hc Hb]. cbn [colonize_loop colon_bytes] in *.
    autorewrite with lsh in Hroom. pose proof (lenZ_nonneg (colon_bytes every (i + 1) data)).
    assert (∃ st1, (if c_true i && negb (c_true (i `mod` every)) then put st 58 else Ok st) = Ok st1
      ∧ emitted p0 (out ++ (if c_true i && negb (c_true (i `mod` every)) then [58] else [])) st1)
      as (st1 & -> & He1).
    { destruct (c_true i && _).
      - apply put_emitted; [done | done | | unfold is_byte; lia].
        change (lenZ [58]) with 1 in Hroom. lia.
      - exists st. by rewrite app_nil_r. }
    simpl. destruct (put_emitted p0 _ st1 c Hwf He1) as (st2 & -> & He2); [len_lia | done |].
    simpl. destruct (IH (i + 1) _ st2 He2 Hb) as (st3 & -> & He3); [len_lia |].
    exists st3. split; [done |]. by rewrite <- !app_assoc in *.
Qed.

Lemma div_step i every :
  0 < every → 0 < i →
  i `div` every = (i - 1) `div` every + (if c_true (i `mod` every) then 0 else 1).
Proof. intros. unfold c_true. destruct (Z.eqb_spec (i `mod` every) 0); simpl; Z.div_mod_to_equations; nia. Qed.

Definition colons_before (every i : Z) : Z := if c_true i then (i - 1) `div` every else 0.

Lemma colons_before_step every i :
  0 < every → 0 <= i →
  colons_before every (i + 1)
  = colons_before every i + (if c_true i && negb (c_true (i `mod` every)) then 1 else 0).
Proof.
  intros He Hi. unfold colons_before. replace (i + 1 - 1) with i by lia.
  destruct (Z.eq_dec i 0) as [-> | Hne]; [by rewrite Z.div_0_l by lia |].
  unfold c_true at 1 2 3. rewrite !(proj2 (Z.eqb_neq _ _)) by lia. simpl.
  rewrite div_step by lia. by destruct (c_true (i `mod` every)).
Qed.

Lemma lenZ_colon_bytes every l i :
  0 < every → 0 <= i →
  lenZ (colon_bytes every i l) = lenZ l + colons_before every (i + lenZ l) - colons_before every i.
Proof.
  intros He. revert i. induction l as [| c l IH]; intros i Hi.
  - simpl. change (lenZ []) with 0. rewrite Z.add_0_r. lia.
  - cbn [colon_bytes]. rewrite lenZ_app, !lenZ_cons, IH by lia.
    rewrite colons_before_step by done.
    replace (i + 1 + lenZ l) with (i + (1 + lenZ l)) by lia.
    destruct (c_true i && _); change (lenZ [58]) with 1 || change (lenZ []) with 0; lia.
Qed.

(** The loop's output is the pieces joined by colons. *)
Lemma colon_bytes_app every i a b :
  colon_bytes every i (a ++ b) = colon_bytes every i a ++ colon_bytes every (i + lenZ a) b.
Proof.
  revert i. induction a as [| c a IH]; intros i; simpl.
  - change (lenZ []) with 0. by rewrite Z.add_0_r.
  - rewrite IH, lenZ_cons, <- !app_assoc. simpl. by rewrite Z.add_assoc.
Qed.

Lemma colon_bytes_inner every i a :
  0 < every → 0 < i `mod` every → i `mod` every + lenZ a <= every → 0 <= i → colon_bytes every i a = a.
Proof.
  intros He. revert i. induction a as [| c a IH]; intros i Hm Hl Hi; simpl; [done |].
  assert (c_true (i `mod` every) = true) as -> by (unfold c_true; lia). rewrite andb_false_r. simpl.
  f_equal. rewrite lenZ_cons in Hl. pose proof (lenZ_nonneg a).
  destruct a as [| d a]; [done |].
  assert ((i + 1) `mod` every = i `mod` every + 1) as Hs.
  { rewrite <- Z.add_mod_idemp_l by lia.
    apply Z.mod_small. rewrite lenZ_cons in Hl. pose proof (lenZ_nonneg a). lia. }
  apply IH; lia.
Qed.

Lemma colon_bytes_piece every k a :
  0 < every → 0 <= k → lenZ a <= every → a ≠ [] →
  colon_bytes every (k * every) a = (if k =? 0 then [] else [58]) ++ a.
Proof.
  intros He Hk Hl Hne. destruct a as [| c a]; [done |]. cbn [colon_bytes].
  rewrite Z.mod_mul by lia. simpl. rewrite andb_true_r.
  assert (c_true (k * every) = negb (k =? 0)) as -> by (unfold c_true; f_equal; nia).
  rewrite lenZ_cons in Hl. pose proof (lenZ_nonneg a).
  assert (colon_bytes every (k * every + 1) a = a) as ->.
  { destruct a as [| d a]; [done |]. rewrite lenZ_cons in *. pose proof (lenZ_nonneg a).
    assert ((k * every + 1) `mod` every = 1) as Hm
      by (rewrite Z.add_comm, Z.mod_add by lia; apply Z.mod_small; lia).
    apply colon_bytes_inner; rewrite ?Hm, ?lenZ_cons; nia. }
  by destruct (k =? 0).
Qed.

Lemma colon_bytes_chunks every fuel k l :
  (0 < every)%nat → 0 <= k → (length l <= fuel)%nat →
  colon_bytes (Z.of_nat every) (k * Z.of_nat every) l
  = if k =? 0 then join_colons (chunks fuel every l)
    else concat ((λ q, 58 :: q) <$> chunks fuel every l).
Proof.
  intros He. revert k l. induction fuel as [| fuel IH]; intros k l Hk Hf.
  - destruct l; [| simpl in Hf; lia]. simpl. by destruct (k =? 0).
  - destruct l as [| c l']; [simpl; by destruct (k =? 0) |]. set (l := c :: l') in *.
    assert (chunks (S fuel) every l = take every l :: chunks fuel every (drop every l)) as -> by done.
    rewrite <- (take_drop every l) at 1. rewrite colon_bytes_app.
    assert (take every l ≠ []) by (destruct every; [lia | done]).
    rewrite colon_bytes_piece;
      [| lia | done | unfold lenZ; rewrite length_take; lia | done].
    assert (colon_bytes (Z.of_nat every) (k * Z.of_nat every + lenZ (take every l)) (drop every l)
      = concat ((λ q, 58 :: q) <$> chunks fuel every (drop every l))) as ->.
    { destruct (decide (length l <= every)%nat) as [Hle | Hgt].
      - rewrite !(drop_ge l) by lia. by destruct fuel.
      - replace (k * Z.of_nat every + lenZ (take every l)) with ((k + 1) * Z.of_nat every)
          by (unfold lenZ; rewrite length_take; lia).
        rewrite IH; [by rewrite (proj2 (Z.eqb_neq _ _)) by lia | lia |].
        rewrite length_drop. lia. }
    rewrite fmap_cons. cbn [concat join_colons]. by destruct (k =? 0).
Qed.

Lemma lsh_string_colonize_spec s every :
  lsh_string_wf s → 0 < every < 2 ^ 31 → 2 * ls_length s < 2 ^ 32 →
  ∃ p, lsh_string_colonize s every = Ok p ∧ lsh_string_wf p
       ∧ contents p = join_colons (chunks (length (contents s)) (Z.to_nat every) (contents s)).
Proof.
  intros Hwf He Hlen. pose proof (lenZ_contents s Hwf) as Hc. destruct (wf_length _ Hwf) as [Hl0 _].
  unfold lsh_string_colonize, lsh_string_length, lsh_string_data.
  change (slice 0 (ls_length s) (ls_data s)) with (contents s).
  change (if c_true (ls_length s) then (ls_length s - 1) `div` every else 0)
    with (colons_before every (ls_length s)).
  assert (0 <= colons_before every (ls_length s) <= ls_length s) as Hcb.
  { unfold colons_before. destruct (c_true (ls_length s)) eqn:Ht; [| lia]. unfold c_true in Ht.
    split; [apply Z.div_pos; lia |]. apply Z.div_le_upper_bound; nia. }
  rewrite u32_id by (unfold is_u32; lia).
  set (size := ls_length s + colons_before every (ls_length s)).
  assert (lsh_string_wf (lsh_string_alloc size)) as Hp0
    by (apply lsh_string_alloc_wf; unfold is_u32; lia).
  pose proof (lenZ_colon_bytes every (contents s) 0) as Hcl. rewrite Hc, Z.add_0_l in Hcl.
  change (colons_before every 0) with 0 in Hcl.
  destruct (colonize_loop_emitted (lsh_string_alloc size) every (contents s) 0 [] (lsh_string_alloc size, 0))
    as (st & -> & Hst); [done | by apply emitted_start | by apply contents_bytes | |].
  { simpl. change (lenZ []) with 0. lia. }
  rewrite app_nil_l in Hst.
  destruct (emitted_all _ _ _ Hp0 Hst) as (Hw & Hcont & Hlast); [simpl; lia |].
  assert (snd st = size) as Hend by (destruct Hst as [_ ->]; lia).
  destruct st as [p r]. simpl in *. rewrite Hend, Z.eqb_refl. simpl.
  exists p. split_and!; [done | done |]. rewrite Hcont.
  pose proof (colon_bytes_chunks (Z.to_nat every) (length (contents s)) 0 (contents s)) as Hch.
  rewrite Z2Nat.id in Hch by lia. apply Hch; lia.
Qed.

(** ** Hexadecimal *)

Lemma hex_digit_value d :
  0 <= d < 16 → is_byte (hex_digit d) ∧ hex_digit d < 128 ∧ rd hex_decode_table (hex_digit d) = Ok d.
Proof.
  intros Hd. unfold hex_digit, is_byte.
  assert (d ∈ (Z.of_nat <$> seq 0 16)) as Hin.
  { apply list_elem_of_fmap. exists (Z.to_nat d). split; [lia |]. apply elem_of_seq. lia. }
  assert (forallb (λ d, match rd hex_decode_table (if d <? 10 then 48 + d else 87 + d) with
    | Ok v => v =? d | Fault _ => false end) (Z.of_nat <$> seq 0 16) = true) as Hall by by vm_compute.
  rewrite forallb_forall in Hall. specialize (Hall d (proj1 (list_elem_of_In _ _) Hin)).
  destruct (rd _ _) as [v |]; [| done]. split_and!; [case_bool; lia.. | f_equal; lia].
Qed.

Lemma nibbles d1 d2 : 0 <= d1 < 16 → 0 <= d2 < 16 → Z.lor (Z.shiftl d1 4) d2 = d1 * 16 + d2.
Proof.
  intros H1' H2'.
  assert (forallb (λ a, forallb (λ b, Z.lor (Z.shiftl a 4) b =? a * 16 + b) (Z.of_nat <$> seq 0 16))
    (Z.of_nat <$> seq 0 16) = true) as Hall by by vm_compute.
  rewrite forallb_forall in Hall.
  assert (∀ d, 0 <= d < 16 → In d (Z.of_nat <$> seq 0 16)) as Hin.
  { intros d Hd. apply list_elem_of_In, list_elem_of_fmap. exists (Z.to_nat d). split; [lia |].
    apply elem_of_seq. lia. }
  specialize (Hall d1 (Hin d1 H1')). rewrite forallb_forall in Hall.
  specialize (Hall d2 (Hin d2 H2')). simpl in Hall. lia.
Qed.

Lemma hex_decode_loop_bytes p0 l out p hex i :
  lsh_string_wf p0 → wrote p0 0 out p → lenZ out + lenZ l <= ls_length p0 →
  Forall is_byte l → i = 2 * lenZ out → drop (Z.to_nat i) hex = hex_bytes l →
  ∃ p', hex_decode_loop (length l) hex i p = Ok (Some p') ∧ wrote p0 0 (out ++ l) p'.
Proof.
  intros Hwf. revert out p i. induction l as [| b l IH]; intros out p i Hw Hroom Hb Hi Hd.
  - exists p. by rewrite app_nil_r.
  - apply Forall_cons in Hb as [Hb Hl]. rewrite lenZ_cons in Hroom. pose proof (lenZ_nonneg out).
    pose proof (lenZ_nonneg l).
    change (hex_bytes (b :: l)) with
      ([hex_digit (b `div` 16); hex_digit (b `mod` 16)] ++ hex_bytes l) in Hd.
    assert (0 <= b `div` 16 < 16) as Hhi
      by (unfold is_byte in Hb; split; [apply Z.div_pos; lia | apply Z.div_lt_upper_bound; lia]).
    assert (0 <= b `mod` 16 < 16) as Hlo by (apply Z.mod_pos_bound; lia).
    cbn [hex_decode_loop length].
    replace (rd hex i) with (rd hex (i + 0)) by by rewrite Z.add_0_r.
    rewrite <- !rd_drop by lia. rewrite Hd.
    destruct (hex_digit_value _ Hhi) as (_ & Hh128 & Hh).
    destruct (hex_digit_value _ Hlo) as (_ & Hl128 & Hlv).
    change (rd _ 0) with (Ok (hex_digit (b `div` 16))).
    change (rd ([_; _] ++ _) 1) with (Ok (hex_digit (b `mod` 16))). simpl.
    rewrite !(proj2 (Z.leb_gt _ _)) by lia. simpl. rewrite Hh. simpl.
    rewrite (proj2 (Z.ltb_ge _ _)) by lia. rewrite Hlv. simpl.
    rewrite (proj2 (Z.ltb_ge _ _)) by lia. rewrite nibbles by done.
    replace (b `div` 16 * 16 + b `mod` 16) with b by (pose proof (Z.div_mod b 16); lia).
    replace (i `div` 2) with (lenZ out) by (subst i; rewrite Z.mul_comm, Z.div_mul; lia).
    pose proof (wrote_len _ _ _ _ Hw) as Hlen.
    destruct (putc_wrote p (lenZ out) b) as (p' & -> & Hw'); [by apply Hw | lia |]. simpl.
    rewrite u8_id in Hw' by done.
    destruct (IH (out ++ [b]) p' (i + 2)) as (p'' & -> & Hw'').
    + apply (wrote_app p0 0 out p); [done | lia | | done | by rewrite Z.add_0_l].
      autorewrite with lsh. lia.
    + autorewrite with lsh. lia.
    + done.
    + autorewrite with lsh. lia.
    + replace (Z.to_nat (i + 2)) with (Z.to_nat i + 2)%nat by lia. by rewrite <- drop_drop, Hd.
    + exists p''. split; [done |]. by rewrite <- app_assoc in Hw''.
Qed.

Lemma lsh_string_hex_decode_spec l :
  Forall is_byte l → 2 * lenZ l < 2 ^ 32 →
  ∃ s, lsh_string_hex_decode (lenZ (hex_bytes l)) (hex_bytes l) = Ok (Some s)
       ∧ lsh_string_wf s ∧ contents s = l.
Proof.
  intros Hb Hl. pose proof (lenZ_nonneg l). unfold lsh_string_hex_decode. rewrite lenZ_hex_bytes.
  rewrite Z.testbit_even_0.
  replace ((2 * lenZ l) `div` 2) with (lenZ l) by (rewrite Z.mul_comm, Z.div_mul; lia).
  assert (lsh_string_wf (lsh_string_alloc (lenZ l))) as Hp0
    by (apply lsh_string_alloc_wf; unfold is_u32; lia).
  replace (Z.to_nat (lenZ l)) with (length l) by (unfold lenZ; lia).
  destruct (hex_decode_loop_bytes (lsh_string_alloc (lenZ l)) l [] (lsh_string_alloc (lenZ l)) (hex_bytes l) 0)
    as (s & -> & Hw); [done | by apply wrote_nil | simpl; change (lenZ []) with 0; lia | done | done | done |].
  rewrite app_nil_l in Hw. exists s. split; [done |].
  destruct (emitted_all (lsh_string_alloc (lenZ l)) l (s, lenZ l)) as (Hws & Hc & _); done.
Qed.

(** ** Bubble Babble *)

(** The checksum after [n] pairs of octets. *)
Fixpoint checksum (n : nat) (chk : Z) (l : list Z) : Z :=
  match n, l with
  | S n, x :: y :: l => checksum n ((5 * chk + (7 * x + y)) `mod` 36) l
  | _, _ => chk
  end.

Lemma checksum_snoc n chk l x y :
  length l = (2 * n)%nat →
  checksum (S n) chk (l ++ [x; y]) = (5 * checksum n chk l + (7 * x + y)) `mod` 36.
Proof.
  revert chk l. induction n as [| n IH]; intros chk l Hl.
  - destruct l; [done | simpl in Hl; lia].
  - destruct l as [| a [| b l]]; [simpl in Hl; lia.. |]. simpl in Hl.
    cbn [app]. change (checksum (S (S n)) chk (a :: b :: l ++ [x; y]))
      with (checksum (S n) ((5 * chk + (7 * a + b)) `mod` 36) (l ++ [x; y])).
    rewrite IH by lia. done.
Qed.

Lemma checksum_take n chk l m :
  (2 * n <= m)%nat → checksum n chk (take m l) = checksum n chk l.
Proof.
  revert chk l m. induction n as [| n IH]; intros chk l m Hm; [done |].
  destruct m as [| [| m]]; [lia.. |].
  destruct l as [| a [| b l]]; [done.. |]. simpl. apply IH. lia.
Qed.

Lemma checksum_S n chk l x y :
  l !! (2 * n)%nat = Some x → l !! (2 * n + 1)%nat = Some y →
  checksum (S n) chk l = (5 * checksum n chk l + (7 * x + y)) `mod` 36.
Proof.
  intros Hx Hy. pose proof (lookup_lt_Some _ _ _ Hy).
  rewrite <- (checksum_take (S n) chk l (S (2 * n + 1))) by lia.
  rewrite (take_S_r _ _ y) by done. rewrite Nat.add_1_r, (take_S_r _ _ x), <- app_assoc by done.
  change ([x] ++ [y]) with [x; y].
  rewrite checksum_snoc by (rewrite length_take; lia). by rewrite checksum_take by lia.
Qed.

Lemma checksum_range n chk l : 0 <= chk < 36 → 0 <= checksum n chk l < 36.
Proof.
  revert chk l. induction n as [| n IH]; intros chk l Hc; [done |].
  destruct l as [| a [| b l]]; [done.. |]. simpl. apply IH. apply Z.mod_pos_bound. lia.
Qed.

Lemma ls_byte_contents s i c :
  lsh_string_wf s → contents s !! i = Some c → ls_byte s (Z.of_nat i) = Ok c.
Proof.
  intros Hwf Hc. apply rd_lookup. split; [lia |]. rewrite Nat2Z.id.
  unfold contents, slice in Hc. rewrite drop_0 in Hc. by apply lookup_take_Some in Hc as [? _].
Qed.

(** The recursion of the source computes the running checksum. *)
Lemma bubblebabble_c_spec s n :
  lsh_string_wf s → 2 * Z.of_nat n <= ls_length s →
  lsh_string_bubblebabble_c s (S n) = Ok (checksum n 1 (contents s)).
Proof.
  intros Hwf. induction n as [| n IH]; intros Hn; [done |].
  pose proof (lenZ_contents s Hwf) as Hlen. unfold lenZ in Hlen.
  destruct (lookup_lt_is_Some_2 (contents s) (2 * n)) as [x Hx]; [lia |].
  destruct (lookup_lt_is_Some_2 (contents s) (2 * n + 1)) as [y Hy]; [lia |].
  change (lsh_string_bubblebabble_c s (S (S n))) with
    (let j := Z.of_nat (S (S n)) * 2 - 3 - 1 in
     let k := Z.of_nat (S (S n)) * 2 - 2 - 1 in
     _ ← c_assert ((j <? ls_length s) && (k <? ls_length s));
     c ← lsh_string_bubblebabble_c s (S n);
     dj ← ls_byte s j; dk ← ls_byte s k; Ok ((5 * c + (dj * 7 + dk)) `mod` 36)).
  cbv zeta. rewrite c_assert_true by (clear IH; apply andb_true_intro; split; apply Z.ltb_lt; lia). rewrite bind_ok_l, IH, bind_ok_l by lia.
  replace (Z.of_nat (S (S n)) * 2 - 3 - 1) with (Z.of_nat (2 * n)) by lia.
  replace (Z.of_nat (S (S n)) * 2 - 2 - 1) with (Z.of_nat (2 * n + 1)) by lia.
  rewrite (ls_byte_contents s (2 * n)%nat x Hwf Hx), bind_ok_l.
  rewrite (ls_byte_contents s (2 * n + 1)%nat y Hwf Hy), bind_ok_l.
  f_equal. rewrite (checksum_S n 1 (contents s) x y) by done. f_equal. lia.
Qed.

(** Splitting an octet. *)
Lemma bb_bits x :
  is_byte x →
  Z.land (Z.shiftr x 6) 3 = x `div` 64 ∧ Z.land (Z.shiftr x 2) 15 = (x `div` 4) `mod` 16
  ∧ Z.land x 3 = x `mod` 4 ∧ Z.land (Z.shiftr x 4) 15 = x `div` 16 ∧ Z.land x 15 = x `mod` 16.
Proof.
  intros Hx. change 3 with (Z.ones 2). change 15 with (Z.ones 4).
  rewrite !Z.land_ones, !Z.shiftr_div_pow2 by lia. unfold is_byte in Hx.
  change (2 ^ 6) with 64. change (2 ^ 2) with 4. change (2 ^ 4) with 16.
  split_and!; try done; Z.div_mod_to_equations; lia.
Qed.

Lemma babble_syllable_range x chk :
  is_byte x → 0 <= chk < 36 →
  0 <= (x `div` 64 + chk) `mod` 6 < lenZ vowels ∧ 0 <= (x `div` 4) `mod` 16 < lenZ consonants
  ∧ 0 <= (x `mod` 4 + chk `div` 6) `mod` 6 < lenZ vowels.
Proof.
  intros Hx Hc. change (lenZ vowels) with 6. change (lenZ consonants) with 17.
  split_and!; try (apply Z.mod_pos_bound; lia).
  pose proof (Z.mod_pos_bound (x `div` 4) 16). lia.
Qed.

Lemma lenZ_babble fuel chk l :
  (length l <= fuel)%nat → lenZ (babble fuel chk l) = 6 * (lenZ l `div` 2) + 3.
Proof.
  revert chk l. induction fuel as [| fuel IH]; intros chk l Hf.
  - destruct l; [done | simpl in Hf; lia].
  - destruct l as [| x [| y l]]; [done.. |]. cbn [babble]. simpl in Hf.
    rewrite lenZ_app, IH by lia. autorewrite with lsh.
    replace (1 + (1 + lenZ l)) with (lenZ l + 1 * 2) by lia. rewrite Z.div_add by lia. lia.
Qed.

(** One letter after another. *)
Ltac put_step He :=
  match goal with
  | |- context [put_from ?t ?i ?st ≫= _] =>
      let st' := fresh "st" in let He' := fresh "He" in
      destruct (put_from_emitted _ _ st t i ltac:(eassumption) He) as (st' & -> & He');
      [autorewrite with lsh; lia | apply cstr_bytes | try lia |];
      rewrite bind_ok_l; clear He; rename He' into He
  | |- context [put ?st ?c ≫= _] =>
      let st' := fresh "st" in let He' := fresh "He" in
      destruct (put_emitted _ _ st c ltac:(eassumption) He) as (st' & -> & He');
      [autorewrite with lsh; lia | unfold is_byte; lia |];
      rewrite bind_ok_l; clear He; rename He' into He
  end.

(** The letters of a pair of octets. *)
Definition syllable (chk x y : Z) : list Z :=
  [vowel ((x `div` 64 + chk) `mod` 6); consonant ((x `div` 4) `mod` 16);
   vowel ((x `mod` 4 + chk `div` 6) `mod` 6); consonant (y `div` 16); 45;
   consonant (y `mod` 16)].

Fixpoint syllables (n : nat) (chk : Z) (l : list Z) : list Z :=
  match n, l with
  | S n, x :: y :: l => syllable chk x y ++ syllables n ((5 * chk + (7 * x + y)) `mod` 36) l
  | _, _ => []
  end.

Lemma bubblebabble_loop_emitted s p0 k i out st :
  lsh_string_wf s → lsh_string_wf p0 → emitted p0 out st →
  2 * (Z.of_nat i + Z.of_nat k) <= ls_length s → lenZ out + 6 * Z.of_nat k <= ls_length p0 →
  ∃ st', bubblebabble_loop k s (Z.of_nat i) st = Ok st'
    ∧ emitted p0 (out ++ syllables k (checksum i 1 (contents s)) (drop (2 * i) (contents s))) st'.
Proof.
  intros Hwf Hp0. revert i out st. induction k as [| k IH]; intros i out st He Hlen Hroom.
  - exists st. by rewrite app_nil_r.
  - pose proof (lenZ_contents s Hwf) as Hcl. unfold lenZ in Hcl.
    destruct (lookup_lt_is_Some_2 (contents s) (2 * i)) as [x Hx]; [lia |].
    destruct (lookup_lt_is_Some_2 (contents s) (2 * i + 1)) as [y Hy]; [lia |].
    pose proof (proj1 (Forall_lookup _ _) (contents_bytes s Hwf) _ _ Hx) as Hbx.
    pose proof (proj1 (Forall_lookup _ _) (contents_bytes s Hwf) _ _ Hy) as Hby. simpl in Hbx, Hby.
    cbn [bubblebabble_loop]. unfold lsh_string_length. rewrite c_assert_true by lia.
    rewrite bind_ok_l. replace (Z.of_nat i * 2) with (Z.of_nat (2 * i)) by lia.
    rewrite (ls_byte_contents s (2 * i)%nat x Hwf Hx), bind_ok_l.
    replace (Z.of_nat (2 * i) + 1) with (Z.of_nat (2 * i + 1)) by lia.
    rewrite (ls_byte_contents s (2 * i + 1)%nat y Hwf Hy), bind_ok_l.
    replace (Z.to_nat (Z.of_nat i + 1)) with (S i) by lia.
    rewrite (bubblebabble_c_spec s i Hwf), bind_ok_l by lia.
    pose proof (checksum_range i 1 (contents s) ltac:(lia)) as Hchk.
    set (chk := checksum i 1 (contents s)) in *. cbv zeta.
    destruct (bb_bits x Hbx) as (-> & -> & -> & _ & _).
    destruct (bb_bits y Hby) as (_ & _ & _ & -> & ->).
    destruct (babble_syllable_range x chk Hbx Hchk) as (Ha & Hb & Hc).
    assert (0 <= y `div` 16 < lenZ consonants ∧ 0 <= y `mod` 16 < lenZ consonants) as [Hd Hee].
    { change (lenZ consonants) with 17. unfold is_byte in Hby. Z.div_mod_to_equations; lia. }
    do 6 put_step He. rewrite <- !app_assoc in He. simpl in He.
    destruct (IH (S i) _ _ He) as (st' & Hloop & He'); [lia | autorewrite with lsh; lia |].
    replace (Z.of_nat i + 1) with (Z.of_nat (S i)) by lia. rewrite Hloop.
    exists st'. split; [done |].
    rewrite (drop_S _ x) by done. rewrite (drop_S _ y (S (2 * i))) by (by rewrite <- Nat.add_1_r).
    cbn [syllables]. rewrite app_assoc. replace (S (S (2 * i))) with (2 * S i)%nat by lia.
    rewrite (checksum_S i 1 (contents s) x y) in He' by done. exact He'.
Qed.

Lemma babble_split fuel chk l :
  (length l <= fuel)%nat →
  let n := Nat.div2 (length l) in
  babble fuel chk l = syllables n chk l ++ babble 0 (checksum n chk l) (drop (2 * n) l).
Proof.
  revert chk l. induction fuel as [| fuel IH]; intros chk l Hf; cbv zeta.
  - destruct l; [done | simpl in Hf; lia].
  - destruct l as [| x [| y l]]; [done.. |]. simpl in Hf.
    change (Nat.div2 (length (x :: y :: l))) with (S (Nat.div2 (length l))).
    replace (2 * S (Nat.div2 (length l)))%nat with (S (S (2 * Nat.div2 (length l)))) by lia.
    cbn [babble syllables checksum drop]. rewrite IH by lia. done.
Qed.

(** The letters chosen for the last octet, or for none. *)
Lemma babble_last s n chk :
  lsh_string_wf s → 0 <= chk < 36 → 2 * Z.of_nat n <= ls_length s < 2 * Z.of_nat n + 2 →
  ∃ a b c, (if c_true (ls_length s `mod` 2) then
       q ← ls_byte s (ls_length s - 1);
       Ok ((Z.land (Z.shiftr q 6) 3 + chk) `mod` 6, Z.land (Z.shiftr q 2) 15,
           (Z.land q 3 + chk `div` 6) `mod` 6)
     else Ok (chk `mod` 6, 16, chk `div` 6)) = Ok (a, b, c)
     ∧ 0 <= a < lenZ vowels ∧ 0 <= b < lenZ consonants ∧ 0 <= c < lenZ vowels
     ∧ babble 0 chk (drop (2 * n) (contents s)) = [vowel a; consonant b; vowel c].
Proof.
  intros Hwf Hchk Hn2. pose proof (lenZ_contents s Hwf) as Hcl. unfold lenZ in Hcl.
  destruct (Z.eq_dec (ls_length s) (2 * Z.of_nat n)) as [Heven | Hodd].
  - replace (ls_length s `mod` 2) with 0 by (rewrite Heven, Z.mul_comm, Z.mod_mul; lia).
    exists (chk `mod` 6), 16, (chk `div` 6). split; [done |].
    change (lenZ vowels) with 6. change (lenZ consonants) with 17.
    split_and!; try (apply Z.mod_pos_bound; lia); try lia; try (Z.div_mod_to_equations; lia).
    by rewrite drop_ge by lia.
  - assert (ls_length s = 1 + Z.of_nat n * 2) as Hs by lia.
    replace (ls_length s `mod` 2) with 1 by (rewrite Hs, Z.mod_add; [done | lia]).
    destruct (lookup_lt_is_Some_2 (contents s) (2 * n)) as [x Hx]; [lia |].
    replace (ls_length s - 1) with (Z.of_nat (2 * n)) by lia.
    rewrite (ls_byte_contents s _ x Hwf Hx), bind_ok_l.
    pose proof (proj1 (Forall_lookup _ _) (contents_bytes s Hwf) _ _ Hx) as Hbx.
    destruct (bb_bits x Hbx) as (-> & -> & -> & _ & _).
    destruct (babble_syllable_range x chk Hbx Hchk) as (Ha & Hb & Hc).
    eexists _, _, _. split; [done |]. split_and!; try lia.
    rewrite (drop_S _ x) by done. rewrite drop_ge by lia. done.
Qed.

Lemma lsh_string_bubblebabble_spec s :
  lsh_string_wf s → 3 * ls_length s + 5 < 2 ^ 32 →
  ∃ p, lsh_string_bubblebabble s = Ok p ∧ lsh_string_wf p
       ∧ contents p = [120] ++ babble (length (contents s)) 1 (contents s) ++ [120].
Proof.
  intros Hwf Hlen. pose proof (lenZ_contents s Hwf) as Hcl. destruct (wf_length _ Hwf) as [Hl0 _].
  unfold lsh_string_bubblebabble, lsh_string_length.
  set (n := Nat.div2 (length (contents s))).
  assert (ls_length s `div` 2 = Z.of_nat n) as Hn
    by (unfold n; rewrite <- Hcl, Nat.div2_div, Nat2Z.inj_div; done).
  assert (2 * Z.of_nat n <= ls_length s < 2 * Z.of_nat n + 2) as Hn2
    by (rewrite <- Hn; Z.div_mod_to_equations; lia).
  rewrite Hn. rewrite u32_id by (unfold is_u32; lia). cbv zeta.
  set (p0 := lsh_string_alloc (2 + 6 * Z.of_nat n + 3)).
  assert (lsh_string_wf p0) as Hp0 by (apply lsh_string_alloc_wf; unfold is_u32; lia).
  assert (ls_length p0 = 2 + 6 * Z.of_nat n + 3) as Hlp by done.
  pose proof (emitted_start p0 Hp0) as He. change (lenZ []) with 0 in *.
  destruct (put_emitted p0 [] (p0, 0) 120 Hp0 He) as (st & -> & He1);
    [change (lenZ []) with 0; lia | unfold is_byte; lia |]. rewrite bind_ok_l. clear He.
  destruct (bubblebabble_loop_emitted s p0 n 0 _ st Hwf Hp0 He1) as (st1 & Hloop & He2);
    [lia | autorewrite with lsh; lia |].
  rewrite Nat2Z.id. change (Z.of_nat 0) with 0 in Hloop. rewrite Hloop, bind_ok_l. clear Hloop He1.
  replace (Z.to_nat (Z.of_nat n + 1)) with (S n) by lia.
  rewrite (bubblebabble_c_spec s n Hwf), bind_ok_l by lia.
  pose proof (checksum_range n 1 (contents s) ltac:(lia)) as Hchk.
  pose proof (babble_split (length (contents s)) 1 (contents s) ltac:(done)) as Hsplit.
  pose proof (lenZ_babble (length (contents s)) 1 (contents s) ltac:(done)) as Hbl.
  cbv zeta in Hsplit. fold n in Hsplit. rewrite Hcl, Hn in Hbl.
  change (checksum 0 1 (contents s)) with 1 in He2. rewrite Nat.mul_0_r, drop_0 in He2.
  set (chk := checksum n 1 (contents s)) in *.
  destruct (babble_last s n chk Hwf Hchk Hn2) as (a & b & c & -> & Ha & Hb & Hc & Hlast).
  rewrite bind_ok_l. rewrite Hsplit in Hbl |- *. rewrite Hlast in Hbl |- *.
  autorewrite with lsh in Hbl. change (lenZ []) with 0 in Hbl.
  do 4 put_step He2. rewrite <- !app_assoc in He2. simpl in He2.
  destruct (emitted_all _ _ _ Hp0 He2) as (Hw & Hc' & Hl'); [autorewrite with lsh; lia |].
  rewrite c_assert_true by (apply Z.eqb_eq; done). rewrite bind_ok_l.
  eexists. split_and!; [done | done |]. rewrite Hc'. simpl. by rewrite <- app_assoc.
Qed.

(** A string written in hexadecimal by [ssh_format ("%xS")] is restored
    octet for octet by [lsh_string_hex_decode]. *)
Theorem hex_roundtrip `{NettleBignumOk} `{AtomTableOk} s :
  lsh_string_wf s → 2 * ls_length s < 2 ^ 32 →
  ∃ h s', ssh_format_string "%lxS" [FStr s] = Ok h
    ∧ lsh_string_hex_decode (lsh_string_length h) (contents h) = Ok (Some s')
    ∧ lsh_string_wf s' ∧ contents s' = contents s.
Proof.
  intros Hwf Hl. pose proof (lenZ_contents s Hwf) as Hc.
  destruct (ssh_format_string_spec "%lxS" [FStr s] [PBytes (hex_bytes (contents s))] (hex_bytes (contents s)))
    as (h & Hh & Hwh & Hch & Hlh).
  - unfold spec_format. simpl. unfold spec_string. simpl. by rewrite <- Hc, slice_all.
  - simpl. by rewrite app_nil_r.
  - constructor; [done | constructor].
  - rewrite lenZ_hex_bytes. lia.
  - destruct (lsh_string_hex_decode_spec (contents s)) as (s' & Hs' & Hws & Hcs);
      [by apply contents_bytes | lia |].
    exists h, s'. unfold lsh_string_length. rewrite Hlh, Hch. by split_and!.
Qed.

(** [lsh_string_colonize] returns, its size computation is exact (the
    final assertion holds), and the result is the pieces of [every] octets
    joined by colons. *)
Theorem lsh_string_colonize_correct s every :
  lsh_string_wf s → 0 < every < 2 ^ 31 → 2 * ls_length s < 2 ^ 32 →
  ∃ p, lsh_string_colonize s every = Ok p ∧ lsh_string_wf p
       ∧ contents p = join_colons (chunks (length (contents s)) (Z.to_nat every) (contents s)).
Proof. apply lsh_string_colonize_spec. Qed.

(** [lsh_string_bubblebabble], with its checksum recomputed by recursion
    for every syllable, returns and produces the Bubble Babble encoding with
    one running checksum; none of its assertions fails and the size computed
    in advance is exact. *)
Theorem lsh_string_bubblebabble_correct s :
  lsh_string_wf s → 3 * ls_length s + 5 < 2 ^ 32 →
  ∃ p, lsh_string_bubblebabble s = Ok p ∧ lsh_string_wf p
       ∧ contents p = [120] ++ babble (length (contents s)) 1 (contents s) ++ [120].
Proof. apply lsh_string_bubblebabble_spec. Qed.

End emit.

(** ** Instances *)

Definition sample (text : string) : lsh_string :=
  {| ls_length := lenZ (cstr text); ls_data := cstr text ++ [0] |}.

Lemma sample_wf text : lenZ (cstr text) < 2 ^ 32 → lsh_string_wf (sample text).
Proof.
  intros Hl. pose proof (lenZ_nonneg (cstr text)). split; simpl.
  - unfold is_u32. lia.
  - rewrite lenZ_app. change (lenZ [0]) with 1. lia.
  - unfold lenZ. rewrite Nat2Z.id. rewrite lookup_app_r by lia. by rewrite Nat.sub_diag.
  - apply Forall_app. split; [apply cstr_bytes |]. repeat constructor; unfold is_byte; lia.
Qed.

Lemma hex_roundtrip_witness :
  ∃ h s', ssh_format_string "%lxS" [FStr (sample "lsh")] = Ok h
    ∧ lsh_string_hex_decode (lsh_string_length h) (contents h) = Ok (Some s')
    ∧ lsh_string_wf s' ∧ contents s' = cstr "lsh".
Proof. apply (hex_roundtrip (sample "lsh")); [apply sample_wf; done | done]. Defined.

Lemma lsh_string_colonize_correct_witness :
  ∃ p, lsh_string_colonize (sample "abcde") 2 = Ok p ∧ lsh_string_wf p ∧ contents p = cstr "ab:cd:e".
Proof.
  apply (lsh_string_colonize_correct (sample "abcde") 2); [apply sample_wf; done | lia | done].
Defined.

(** The published test vector for the string of ten digits. *)
Lemma lsh_string_bubblebabble_correct_witness :
  ∃ p, lsh_string_bubblebabble (sample "1234567890") = Ok p ∧ lsh_string_wf p
       ∧ contents p = cstr "xesef-disof-gytuf-katof-movif-baxux".
Proof.
  apply (lsh_string_bubblebabble_correct (sample "1234567890")); [apply sample_wf; done | done].
Defined.
