(* ===== verification/Sys.v ===== *)
(** * The operating system

    The calls lsh makes on one descriptor: [write]/[writev], [read] and the
    readability test of [io_readable_p].  They are operations of a class; the
    companion class states what POSIX promises about them.  Two observations
    of the descriptor, the octets it has accepted and the octets it has
    delivered, occur only in specifications.  The instance [script_os], driven
    by a list of outcomes, shows that the promises can be met and serves as
    the environment of the concrete runs. *)

From S2P Require Import Prelude.
Local Open Scope Z_scope.

Inductive errno : Set := EINTR | EWOULDBLOCK | EOVERFLOW | EOTHER (code : Z).

#[global] Instance errno_eq_dec : EqDecision errno.
Proof. solve_decision. Defined.

Class OS := {
  os : Type;
  (** Write some of the octets: how many were taken, or an error. *)
  sys_write : os → list Z → os * (errno + Z);
  (** Read at most so many octets; none at end of file. *)
  sys_read : os → Z → os * (errno + list Z);
  io_readable_p : os → bool;
  (** Observations. *)
  accepted : os → list Z;
  delivered : os → list Z;
  interrupts : os → nat;
}.

Class OSOk `{OS} : Prop := {
  sys_write_ok k d k' n :
    sys_write k d = (k', inr n) → 0 < lenZ d →
    1 <= n <= lenZ d ∧ accepted k' = accepted k ++ slice 0 n d ∧ delivered k' = delivered k;
  sys_write_err k d k' e :
    sys_write k d = (k', inl e) →
    accepted k' = accepted k ∧ delivered k' = delivered k
    ∧ (e = EINTR → (interrupts k' < interrupts k)%nat) ∧ e ≠ EOVERFLOW;
  sys_read_ok k n k' d :
    sys_read k n = (k', inr d) → 0 < n →
    lenZ d <= n ∧ Forall is_byte d
    ∧ accepted k' = accepted k ∧ delivered k' = delivered k ++ d;
  sys_read_err k n k' e :
    sys_read k n = (k', inl e) →
    accepted k' = accepted k ∧ delivered k' = delivered k
    ∧ (e = EINTR → (interrupts k' < interrupts k)%nat);
}.

(** What is left of the errors of [write] when it is retried; lsh itself uses
    [EOVERFLOW] for a full buffer. *)
Definition write_errno (e : errno) : Prop := e ≠ EINTR ∧ e ≠ EOVERFLOW.

(** ** [do res = write (...); while (res < 0 && errno == EINTR);] *)

Section retry.
Context `{OS}.

Fixpoint write_loop (fuel : nat) (k : os) (d : list Z) : os * (errno + Z) :=
  let '(k, r) := sys_write k d in
  match fuel, r with
  | S fuel, inl EINTR => write_loop fuel k d
  | _, _ => (k, r)
  end.

(** The loop ends with the last of the pending interruptions. *)
Definition write_retry (k : os) (d : list Z) : os * (errno + Z) := write_loop (interrupts k) k d.

Fixpoint read_loop (fuel : nat) (k : os) (n : Z) : os * (errno + list Z) :=
  let '(k, r) := sys_read k n in
  match fuel, r with
  | S fuel, inl EINTR => read_loop fuel k n
  | _, _ => (k, r)
  end.

Definition read_retry (k : os) (n : Z) : os * (errno + list Z) := read_loop (interrupts k) k n.

Context `{!OSOk}.

(** The fuel suffices: the loops never give up on [EINTR]. *)
Lemma write_retry_spec k d :
  0 < lenZ d →
  ∃ k' r, write_retry k d = (k', r) ∧ delivered k' = delivered k
    ∧ match r with
      | inr n => 1 <= n <= lenZ d ∧ accepted k' = accepted k ++ slice 0 n d
      | inl e => write_errno e ∧ accepted k' = accepted k
      end.
Proof.
  intros Hd. unfold write_retry. remember (interrupts k) as fuel eqn:Hf.
  assert (interrupts k <= fuel)%nat as Hle by lia. clear Hf. revert k Hle.
  induction fuel as [| fuel IH]; intros k Hle; cbn [write_loop];
    destruct (sys_write k d) as [k' [e | n]] eqn:Hw.
  - destruct (sys_write_err _ _ _ _ Hw) as (Ha & Hdl & Hi & Ho). exists k', (inl e).
    split_and!; try done. split; [| done]. intros ->. specialize (Hi eq_refl). lia.
  - destruct (sys_write_ok _ _ _ _ Hw Hd) as (Hn & Ha & Hdl). exists k', (inr n). auto.
  - destruct (sys_write_err _ _ _ _ Hw) as (Ha & Hdl & Hi & Ho).
    destruct e; try (eexists _, _; split; [done |]; simpl; by split_and!).
    specialize (Hi eq_refl). destruct (IH k') as (k2 & r & -> & Hd2 & Hr); [lia |].
    exists k2, r. rewrite <- Ha, <- Hdl. by split_and!.
  - destruct (sys_write_ok _ _ _ _ Hw Hd) as (Hn & Ha & Hdl). exists k', (inr n). auto.
Qed.

Lemma read_retry_spec k n :
  0 < n →
  ∃ k' r, read_retry k n = (k', r) ∧ accepted k' = accepted k
    ∧ match r with
      | inr d => lenZ d <= n ∧ Forall is_byte d ∧ delivered k' = delivered k ++ d
      | inl e => e ≠ EINTR ∧ delivered k' = delivered k
      end.
Proof.
  intros Hn. unfold read_retry. remember (interrupts k) as fuel eqn:Hf.
  assert (interrupts k <= fuel)%nat as Hle by lia. clear Hf. revert k Hle.
  induction fuel as [| fuel IH]; intros k Hle; cbn [read_loop];
    destruct (sys_read k n) as [k' [e | d]] eqn:Hw.
  - destruct (sys_read_err _ _ _ _ Hw) as (Ha & Hdl & Hi). exists k', (inl e).
    split_and!; try done. intros ->. specialize (Hi eq_refl). lia.
  - destruct (sys_read_ok _ _ _ _ Hw Hn) as (Hd & Hb & Ha & Hdl). exists k', (inr d). auto.
  - destruct (sys_read_err _ _ _ _ Hw) as (Ha & Hdl & Hi).
    destruct e; try (eexists _, _; split; [done |]; simpl; by split_and!).
    specialize (Hi eq_refl). destruct (IH k') as (k2 & r & -> & Hd2 & Hr); [lia |].
    exists k2, r. rewrite <- Ha, <- Hdl. by split_and!.
  - destruct (sys_read_ok _ _ _ _ Hw Hn) as (Hd & Hb & Ha & Hdl). exists k', (inr d). auto.
Qed.

End retry.

(** ** A scripted environment *)

Inductive outcome : Type :=
  | Take (n : Z)            (** accept at most so many octets, at least one *)
  | Give (d : list Z)       (** deliver (a prefix of) these octets *)
  | Err (e : errno).

Record script := mk_script {
  sc_todo : list outcome;
  sc_accepted : list Z;
  sc_delivered : list Z;
}.

Definition is_intr (o : outcome) : bool := match o with Err EINTR => true | _ => false end.

(** Once the script is over, every call would block; [write] does not know
    [EOVERFLOW]. *)
Definition script_write (k : script) (d : list Z) : script * (errno + Z) :=
  match sc_todo k with
  | Take n :: todo =>
      let n := Z.max 1 (Z.min n (lenZ d)) in
      (mk_script todo (sc_accepted k ++ slice 0 n d) (sc_delivered k), inr n)
  | Give _ :: todo => (mk_script todo (sc_accepted k) (sc_delivered k), inl EWOULDBLOCK)
  | Err e :: todo => (mk_script todo (sc_accepted k) (sc_delivered k), inl (if decide (e = EOVERFLOW) then EOTHER 0 else e))
  | [] => (k, inl EWOULDBLOCK)
  end.

Definition script_read (k : script) (n : Z) : script * (errno + list Z) :=
  match sc_todo k with
  | Give d :: todo =>
      let d := slice 0 (Z.min n (lenZ d)) (u8 <$> d) in
      (mk_script todo (sc_accepted k) (sc_delivered k ++ d), inr d)
  | Take _ :: todo => (mk_script todo (sc_accepted k) (sc_delivered k), inl EWOULDBLOCK)
  | Err e :: todo => (mk_script todo (sc_accepted k) (sc_delivered k), inl e)
  | [] => (k, inl EWOULDBLOCK)
  end.

#[export] Instance script_os : OS := {
  os := script;
  sys_write := script_write;
  sys_read := script_read;
  io_readable_p k := match sc_todo k with Give _ :: _ => true | _ => false end;
  accepted := sc_accepted;
  delivered := sc_delivered;
  interrupts k := length (filter (λ o, is_intr o = true) (sc_todo k));
}.

#[export] Instance script_os_ok : OSOk.
Proof.
  split; simpl.
  - intros [todo a dl] d k' n. unfold script_write. simpl.
    destruct todo as [| [m | | e] todo]; try done. intros [= <- <-] Hd. simpl. split_and!; [lia.. | done | done].
  - intros [todo a dl] d k' e. unfold script_write. simpl.
    destruct todo as [| [m | | e'] todo]; intros [= <- <-]; simpl; split_and!; try done; case_decide; try done.
    intros ->. rewrite filter_cons_True by done. simpl. lia.
  - intros [todo a dl] n k' d. unfold script_read. simpl.
    destruct todo as [| [m | d0 | e] todo]; try done. intros [= <- <-] Hn. simpl.
    pose proof (lenZ_nonneg d0). split_and!; [| | done | done].
    + rewrite lenZ_slice; [lia.. | rewrite lenZ_fmap; lia].
    + unfold slice. apply Forall_take, Forall_drop, Forall_fmap, Forall_true.
      intros x. simpl. apply u8_range.
  - intros [todo a dl] n k' e. unfold script_read. simpl.
    destruct todo as [| [m | d0 | e'] todo]; intros [= <- <-]; simpl; split_and!; try done.
    intros ->. rewrite filter_cons_True by done. simpl. lia.
Qed.

(** The environment that behaves as listed, then blocks. *)
Definition scripted (todo : list outcome) : @os script_os := mk_script todo [] [].
