(* ===== verification/SshWrite.v ===== *)
(** * Buffered output ([src/src/ssh_write.c])

    A write buffer holds the octets that have been produced but not yet taken
    by the descriptor, at positions [start .. start + length) of a string.
    The contract is that of a FIFO: what the descriptor has accepted, followed
    by what is buffered, is what has been handed over, in order. *)

From S2P Require Import Prelude Nettle LshString Sys.
Local Open Scope Z_scope.

Record ssh_write_state := mk_write {
  sw_buffer : lsh_string;
  sw_start : Z;
  sw_length : Z;
}.

Definition WRITE_MAX := 16384.

Section model.
Context `{Malloc} `{OS}.

Definition init_ssh_write_state (buffer_size : Z) : ssh_write_state :=
  mk_write (lsh_string_alloc buffer_size) 0 0.

(** [write (fd, p, n)]: the [n] octets at [p] must exist. *)
Definition write_fd (k : os) (p : list Z) (n : Z) : result (os * (errno + Z)) :=
  if lenZ p <? n then Fault OutOfBounds else Ok (write_retry k (slice 0 n p)).

(** The octets from [self->start] on. *)
Definition sw_here (self : ssh_write_state) : list Z :=
  drop (Z.to_nat (sw_start self)) (lsh_string_data (sw_buffer self)).

(** [self->start += n; self->length -= n;] *)
Definition sw_consume (self : ssh_write_state) (n : Z) : ssh_write_state :=
  mk_write (sw_buffer self) (u32 (sw_start self + n)) (u32 (sw_length self - n)).

(** Zero with [errno] set is [inl]. *)
Definition ssh_write_flush (self : ssh_write_state) (k : os) (to_write : Z)
  : result (ssh_write_state * os * (errno + Z)) :=
  let to_write := if c_true to_write then to_write else Z.min (sw_length self) WRITE_MAX in
  _ ← c_assert (0 <? to_write);
  _ ← c_assert (to_write <=? sw_length self);
  '(k, res) ← write_fd k (sw_here self) to_write;
  match res with
  | inl e => Ok (self, k, inl e)
  | inr n => Ok (sw_consume self n, k, inr n)
  end.

Definition ssh_write_enqueue (self : ssh_write_state) (length : Z) (data : list Z)
  : result (ssh_write_state * bool) :=
  let size := lsh_string_length (sw_buffer self) in
  if size <? u32 (length + sw_length self) then Ok (self, false)
  else
    self ←
      (if size <? u32 (length + sw_length self + sw_start self) then
         b ← lsh_string_move (sw_buffer self) 0 (sw_length self) (sw_start self);
         Ok (mk_write b 0 (sw_length self))
       else Ok self);
    b ← lsh_string_write (sw_buffer self) (u32 (sw_start self + sw_length self)) length data;
    Ok (mk_write b (sw_start self) (u32 (sw_length self + length)), true).

(** The label [io_error] of [ssh_write_data]. *)
Definition write_io_error (self : ssh_write_state) (k : os) (e : errno) (length : Z) (data : list Z)
  : result (ssh_write_state * os * (errno + Z)) :=
  if 0 <? length then
    '(self, ok) ← ssh_write_enqueue self length data;
    Ok (self, k, inl (if (ok : bool) then e else EOVERFLOW))
  else Ok (self, k, inl e).

(** The common end of [ssh_write_data]. *)
Definition write_data_rest (self : ssh_write_state) (k : os) (done length : Z) (data : list Z)
  : result (ssh_write_state * os * (errno + Z)) :=
  _ ← c_assert (0 <? done);
  if 0 <? length then
    '(self, ok) ← ssh_write_enqueue self length data;
    Ok (self, k, if (ok : bool) then inr done else inl EOVERFLOW)
  else Ok (self, k, inr done).

(** The three branches: only buffered octets, only new ones, or both. *)
Definition write_buffered (self : ssh_write_state) (k : os) (to_write length : Z) (data : list Z)
  : result (ssh_write_state * os * (errno + Z)) :=
  '(k, res) ← write_fd k (sw_here self) to_write;
  match res with
  | inl e => write_io_error self k e length data
  | inr n => write_data_rest (sw_consume self n) k n length data
  end.

Definition write_direct (self : ssh_write_state) (k : os) (to_write length : Z) (data : list Z)
  : result (ssh_write_state * os * (errno + Z)) :=
  '(k, res) ← write_fd k data to_write;
  match res with
  | inl e => write_io_error self k e length data
  | inr n => write_data_rest self k n (u32 (length - n)) (drop (Z.to_nat n) data)
  end.

Definition write_vector (self : ssh_write_state) (k : os) (to_write length : Z) (data : list Z)
  : result (ssh_write_state * os * (errno + Z)) :=
  let l1 := to_write - sw_length self in
  if (lenZ (sw_here self) <? sw_length self) || (lenZ data <? l1) then Fault OutOfBounds
  else
    let '(k, res) := write_retry k (slice 0 (sw_length self) (sw_here self) ++ slice 0 l1 data) in
    match res with
    | inl e => write_io_error self k e length data
    | inr n =>
        if n <? sw_length self then write_data_rest (sw_consume self n) k n length data
        else
          let data_done := n - sw_length self in
          write_data_rest (mk_write (sw_buffer self) 0 0) k n
            (u32 (length - data_done)) (drop (Z.to_nat data_done) data)
    end.

Definition ssh_write_data (self : ssh_write_state) (k : os) (to_write length : Z) (data : list Z)
  : result (ssh_write_state * os * (errno + Z)) :=
  let to_write :=
    if c_true to_write then to_write
    else
      let t := u32 (sw_length self + length) in
      if WRITE_MAX <? t then WRITE_MAX else t in
  _ ← c_assert (0 <? to_write);
  if to_write <=? sw_length self then write_buffered self k to_write length data
  else if sw_length self =? 0 then write_direct self k to_write length data
  else write_vector self k to_write length data.

Definition ssh_write_available (self : ssh_write_state) : result Z :=
  let size := lsh_string_length (sw_buffer self) in
  _ ← c_assert (sw_length self <=? size);
  Ok (size - sw_length self).

End model.

(** ** Invariant and observation *)

Record write_wf (self : ssh_write_state) : Prop := {
  ww_buffer : lsh_string_wf (sw_buffer self);
  ww_start : 0 <= sw_start self;
  ww_length : 0 <= sw_length self;
  ww_room : sw_start self + sw_length self <= ls_length (sw_buffer self);
}.

Definition buffered (self : ssh_write_state) : list Z :=
  slice (sw_start self) (sw_length self) (contents (sw_buffer self)).

Definition sw_size (self : ssh_write_state) : Z := ls_length (sw_buffer self).

Lemma lenZ_buffered self : write_wf self → lenZ (buffered self) = sw_length self.
Proof. intros [Hb Hs Hl Hr]. apply lenZ_slice; rewrite ?lenZ_contents; done || lia. Qed.

Section proofs.
Context `{MallocOk} `{OSOk}.

Lemma init_ssh_write_state_wf size :
  is_u32 size → write_wf (init_ssh_write_state size) ∧ buffered (init_ssh_write_state size) = [].
Proof.
  intros Hs. split; [| apply slice_0]. unfold is_u32 in Hs.
  split; simpl; [by apply lsh_string_alloc_wf | lia..].
Qed.

(** The buffered octets are where [self->start] points. *)
Lemma sw_here_buffered self n :
  write_wf self → 0 <= n <= sw_length self →
  sw_length self <= lenZ (sw_here self) ∧ slice 0 n (sw_here self) = slice 0 n (buffered self).
Proof.
  intros [Hb Hs Hl Hr] Hn. destruct Hb as [_ Hroom _ _]. unfold sw_here, lsh_string_data, buffered, contents.
  split.
  - unfold lenZ in *. rewrite length_drop. lia.
  - rewrite !slice_slice by lia. unfold slice. rewrite drop_0. by rewrite Z.add_0_r, Z.add_0_l.
Qed.

Lemma sw_consume_spec self n :
  write_wf self → 0 <= n <= sw_length self →
  write_wf (sw_consume self n) ∧ sw_size (sw_consume self n) = sw_size self
  ∧ sw_length (sw_consume self n) = sw_length self - n
  ∧ buffered self = slice 0 n (buffered self) ++ buffered (sw_consume self n).
Proof.
  intros [Hb Hs Hl Hr] Hn. destruct (wf_length _ Hb) as [_ Hmax]. unfold sw_consume.
  rewrite !u32_id by (unfold is_u32; lia). split_and!; [split; simpl; done || lia | done | done |].
  unfold buffered. simpl. rewrite slice_slice by lia. rewrite Z.add_0_r.
  rewrite <- slice_split by lia. f_equal. lia.
Qed.

(** Queueing appends, or refuses and changes nothing. *)
Lemma ssh_write_enqueue_spec self length data :
  write_wf self → 0 <= length <= lenZ data → Forall is_byte data →
  length + 2 * sw_size self < 2 ^ 32 →
  ∃ self' ok, ssh_write_enqueue self length data = Ok (self', ok)
    ∧ write_wf self' ∧ sw_size self' = sw_size self
    ∧ ok = bool_decide (sw_length self + length <= sw_size self)
    ∧ buffered self' = buffered self ++ (if ok then slice 0 length data else [])
    ∧ (ok = false → self' = self).
Proof.
  intros Hwf Hlen Hd Hmax. pose proof Hwf as [Hb Hs Hl Hr]. unfold ssh_write_enqueue, sw_size, lsh_string_length in *.
  rewrite (u32_id (length + sw_length self)) by (unfold is_u32; lia).
  destruct (Z.ltb_spec (ls_length (sw_buffer self)) (length + sw_length self)) as [Hfull | Hfits].
  { eexists self, false. split; [done |]. rewrite bool_decide_eq_false_2 by lia.
    rewrite app_nil_r. by split_and!. }
  rewrite u32_id by (unfold is_u32; lia).
  assert (∃ self1, (if ls_length (sw_buffer self) <? length + sw_length self + sw_start self then
         b ← lsh_string_move (sw_buffer self) 0 (sw_length self) (sw_start self);
         Ok (mk_write b 0 (sw_length self))
       else Ok self) = Ok self1
    ∧ write_wf self1 ∧ sw_length self1 = sw_length self ∧ ls_length (sw_buffer self1) = ls_length (sw_buffer self)
    ∧ buffered self1 = buffered self ∧ sw_start self1 + sw_length self1 + length <= ls_length (sw_buffer self1))
    as (self1 & -> & Hwf1 & Hl1 & Hsz1 & Hbuf1 & Hroom1).
  { destruct (Z.ltb_spec (ls_length (sw_buffer self)) (length + sw_length self + sw_start self)).
    - destruct (lsh_string_move_spec (sw_buffer self) 0 (sw_length self) (sw_start self))
        as (b & -> & Hwb & Hlb & Hcb); [done | lia.. |].
      simpl. eexists. split; [done |]. split; [split; simpl; done || lia |].
      split_and!; [done | done | | simpl; lia].
      unfold buffered. simpl. rewrite Hcb.
      rewrite <- (lenZ_slice (sw_start self) (sw_length self) (contents (sw_buffer self))) at 1
        by (rewrite ?lenZ_contents; done || lia).
      apply slice_splice_same; [lia |].
      rewrite lenZ_slice by (rewrite ?lenZ_contents; done || lia). rewrite lenZ_contents by done. lia.
    - exists self. split_and!; done || lia. }
  rewrite bind_ok_l. rewrite bool_decide_eq_true_2 by lia.
  pose proof Hwf1 as [Hb1 Hs1 Hll1 Hr1]. destruct (wf_length _ Hb) as [_ Hszmax].
  rewrite (u32_id (sw_start self1 + sw_length self1)) by (unfold is_u32; lia).
  destruct (lsh_string_write_spec (sw_buffer self1) (sw_start self1 + sw_length self1) length data)
    as (b & -> & Hwb & Hlb & Hcb); [done | lia.. | done |].
  simpl. eexists _, true. split; [done |]. rewrite u32_id by (unfold is_u32; lia).
  split; [split; simpl; done || lia |]. split_and!; [simpl; lia | done | | done].
  rewrite <- Hbuf1. unfold buffered. simpl. rewrite slice_split by lia. rewrite Hcb. f_equal.
  - apply slice_splice_before; rewrite ?lenZ_contents; done || lia.
  - rewrite <- (lenZ_slice 0 length data) at 1 by lia.
    apply slice_splice_same; [lia |]. rewrite lenZ_slice, lenZ_contents by (done || lia). lia.
Qed.

(** Nothing is lost, reordered or duplicated. *)
Definition fifo (self : ssh_write_state) (k : os) (data : list Z)
  (self' : ssh_write_state) (k' : os) : Prop :=
  accepted k' ++ buffered self' = accepted k ++ buffered self ++ data
  ∧ delivered k' = delivered k.

Lemma ssh_write_flush_spec self k to_write :
  write_wf self → 0 <= to_write <= sw_length self → 0 < sw_length self →
  ∃ self' k' r, ssh_write_flush self k to_write = Ok (self', k', r)
    ∧ write_wf self' ∧ sw_size self' = sw_size self ∧ fifo self k [] self' k'
    ∧ match r with
      | inr n => 1 <= n ∧ sw_length self' = sw_length self - n
      | inl e => write_errno e ∧ self' = self
      end.
Proof.
  intros Hwf Htw Hlen. unfold ssh_write_flush.
  set (t := if c_true to_write then to_write else Z.min (sw_length self) WRITE_MAX).
  assert (0 < t <= sw_length self) as Ht.
  { unfold t, c_true, WRITE_MAX. destruct (Z.eqb_spec to_write 0); simpl; lia. }
  do 2 pass_assert. destruct (sw_here_buffered self t Hwf) as [Hhere Hsl]; [lia |].
  unfold write_fd. rewrite (proj2 (Z.ltb_ge _ _)) by lia. rewrite bind_ok_l, Hsl.
  pose proof (lenZ_buffered self Hwf) as Hlb.
  assert (lenZ (slice 0 t (buffered self)) = t) as Hlt by (apply lenZ_slice; lia).
  destruct (write_retry_spec k (slice 0 t (buffered self))) as (k' & [e | n] & -> & Hdl & Hr); [lia | |].
  - destruct Hr as [He Ha]. eexists self, k', (inl e).
    split; [done |]. split_and!; try done.
    split; [by rewrite Ha, app_nil_r | done].
  - destruct Hr as [Hn Ha]. destruct (sw_consume_spec self n Hwf) as (Hw & Hsz & Hl & Hb); [lia |].
    eexists _, k', (inr n). split; [done |]. split_and!; try done; [| lia].
    split; [| done]. rewrite Ha, app_nil_r, <- app_assoc. f_equal.
    rewrite slice_slice by lia. by rewrite Z.add_0_l, <- Hb.
Qed.

(** The outcome of [ssh_write_data]: at most a tail is lost, and only when
    the buffer is too small. *)
Record write_outcome (self : ssh_write_state) (k : os) (data : list Z)
  (self' : ssh_write_state) (k' : os) (r : errno + Z) (lost : list Z) : Prop := {
  wo_wf : write_wf self';
  wo_size : sw_size self' = sw_size self;
  wo_delivered : delivered k' = delivered k;
  wo_stream : accepted k' ++ buffered self' ++ lost = accepted k ++ buffered self ++ data;
  wo_lost : lost ≠ [] → r = inl EOVERFLOW ∧ sw_size self < sw_length self + lenZ data;
  wo_result : match r with inr n => 1 <= n | inl e => e ≠ EINTR end;
  wo_overflow : r = inl EOVERFLOW → lost ≠ [];
  wo_error : lost = [] → match r with inr _ => True | inl _ => accepted k' = accepted k end;
  wo_accepted : lenZ (accepted k) <= lenZ (accepted k');
}.

(** The queueing step that ends every path, after [k'] has taken its part. *)
Lemma enqueue_rest self k data self1 k1 rest :
  write_wf self → write_wf self1 → sw_size self1 = sw_size self → Forall is_byte rest →
  lenZ rest + 2 * sw_size self < 2 ^ 32 → delivered k1 = delivered k →
  accepted k1 ++ buffered self1 ++ rest = accepted k ++ buffered self ++ data →
  lenZ (accepted k) <= lenZ (accepted k1) → 0 < lenZ rest →
  ∃ self2 ok, ssh_write_enqueue self1 (lenZ rest) rest = Ok (self2, ok)
    ∧ ∀ r, (ok = false → r = inl EOVERFLOW) → (ok = true → r ≠ inl EOVERFLOW) →
           match r with inr n => 1 <= n | inl e => e ≠ EINTR end →
           (ok = true → match r with inr _ => True | inl _ => accepted k1 = accepted k end) →
           ∃ lost, write_outcome self k data self2 k1 r lost.
Proof.
  intros Hwf Hwf1 Hsz Hb Hmax Hdl Hstream Hacc Hpos. pose proof (lenZ_nonneg rest).
  destruct (ssh_write_enqueue_spec self1 (lenZ rest) rest) as (self2 & ok & He & Hwf2 & Hsz2 & Hok & Hbuf & Hsame);
    [done | lia | done | lia |].
  exists self2, ok. split; [done |]. intros r Hr Hno Hres Herr. exists (if ok then [] else rest).
  split; try done; [congruence | | | |].
  - rewrite Hbuf, slice_all, <- Hstream. by destruct ok; rewrite ?app_nil_r, <- ?app_assoc.
  - destruct ok; [done |]. intros Hne. split; [by apply Hr |].
    symmetry in Hok. apply bool_decide_eq_false in Hok.
    apply (f_equal lenZ) in Hstream. rewrite !lenZ_app, !lenZ_buffered in Hstream by done. lia.
  - intros Hro. destruct ok; [by destruct (Hno eq_refl) |]. intros ->. change (lenZ []) with 0 in Hpos. lia.
  - destruct ok; [intros _; by apply Herr |]. intros ->. change (lenZ []) with 0 in Hpos. lia.
Qed.

Lemma write_io_error_spec self k data k1 e :
  write_wf self → Forall is_byte data → lenZ data + 2 * sw_size self < 2 ^ 32 →
  delivered k1 = delivered k → accepted k1 = accepted k → write_errno e →
  ∃ self' k' r lost, write_io_error self k1 e (lenZ data) data = Ok (self', k', r)
    ∧ write_outcome self k data self' k' r lost.
Proof.
  intros Hwf Hb Hmax Hdl Ha [Hi He]. unfold write_io_error.
  destruct (Z.ltb_spec 0 (lenZ data)) as [Hpos | Hzero].
  - destruct (enqueue_rest self k data self k1 data) as (self2 & ok & -> & Hout);
      try done; [by rewrite Ha | by rewrite Ha |].
    simpl. destruct (Hout (inl (if ok then e else EOVERFLOW))) as [lost Hl].
    + by intros ->.
    + intros ->. congruence.
    + by destruct ok.
    + done.
    + eexists _, _, _, lost. by split.
  - destruct data; [| rewrite lenZ_cons in Hzero; pose proof (lenZ_nonneg data); lia].
    eexists _, _, _, []. split; [done |]. split; try done; [by rewrite Ha | congruence | by rewrite Ha].
Qed.

Lemma write_data_rest_spec self k data self1 k1 n rest :
  write_wf self → write_wf self1 → sw_size self1 = sw_size self → Forall is_byte rest →
  lenZ rest + 2 * sw_size self < 2 ^ 32 → delivered k1 = delivered k →
  accepted k1 ++ buffered self1 ++ rest = accepted k ++ buffered self ++ data →
  lenZ (accepted k) <= lenZ (accepted k1) → 1 <= n →
  ∃ self' k' r lost, write_data_rest self1 k1 n (lenZ rest) rest = Ok (self', k', r)
    ∧ write_outcome self k data self' k' r lost.
Proof.
  intros Hwf Hwf1 Hsz Hb Hmax Hdl Hstream Hacc Hn. unfold write_data_rest. pass_assert.
  destruct (Z.ltb_spec 0 (lenZ rest)) as [Hpos | Hzero].
  - destruct (enqueue_rest self k data self1 k1 rest) as (self2 & ok & -> & Hout); try done.
    simpl. destruct (Hout (if ok then inr n else inl EOVERFLOW)) as [lost Hl].
    + by intros ->.
    + by intros ->.
    + by destruct ok.
    + by intros ->.
    + eexists _, _, _, lost. by split.
  - destruct rest; [| rewrite lenZ_cons in Hzero; pose proof (lenZ_nonneg rest); lia].
    eexists _, _, _, []. split; [done |]. by split.
Qed.

Lemma drop_rest (data : list Z) n :
  0 <= n <= lenZ data →
  slice 0 n data ++ drop (Z.to_nat n) data = data ∧ lenZ (drop (Z.to_nat n) data) = lenZ data - n.
Proof.
  intros Hn. split; [unfold slice; by rewrite drop_0, take_drop |].
  unfold lenZ in *. rewrite length_drop. lia.
Qed.

Lemma lenZ_accepted k1 k (d : list Z) :
  accepted k1 = accepted k ++ d → lenZ (accepted k) <= lenZ (accepted k1).
Proof. intros ->. rewrite lenZ_app. pose proof (lenZ_nonneg d). lia. Qed.

Lemma write_buffered_spec self k t data :
  write_wf self → Forall is_byte data → lenZ data + 2 * sw_size self < 2 ^ 32 →
  0 < t <= sw_length self →
  ∃ self' k' r lost, write_buffered self k t (lenZ data) data = Ok (self', k', r)
    ∧ write_outcome self k data self' k' r lost.
Proof.
  intros Hwf Hb Hmax Ht. pose proof (lenZ_buffered self Hwf) as Hlb. unfold write_buffered.
  destruct (sw_here_buffered self t Hwf) as [Hhere Hsl]; [lia |].
  unfold write_fd. rewrite (proj2 (Z.ltb_ge _ _)) by lia. rewrite bind_ok_l, Hsl.
  assert (lenZ (slice 0 t (buffered self)) = t) as Hlt by (apply lenZ_slice; lia).
  destruct (write_retry_spec k (slice 0 t (buffered self))) as (k1 & [e | n] & -> & Hdl & Hres); [lia | |].
  - destruct Hres as [He Ha]. by apply write_io_error_spec.
  - destruct Hres as [Hn Ha]. destruct (sw_consume_spec self n Hwf) as (Hw & Hsz & _ & Hbn); [lia |].
    apply write_data_rest_spec; try done; [| by eapply lenZ_accepted | lia].
    rewrite Ha, slice_slice, Z.add_0_l by lia. rewrite <- app_assoc. f_equal.
    by rewrite app_assoc, <- Hbn.
Qed.

Lemma write_direct_spec self k t data :
  write_wf self → Forall is_byte data → lenZ data + 2 * sw_size self < 2 ^ 32 →
  sw_length self = 0 → 0 < t <= lenZ data →
  ∃ self' k' r lost, write_direct self k t (lenZ data) data = Ok (self', k', r)
    ∧ write_outcome self k data self' k' r lost.
Proof.
  intros Hwf Hb Hmax Hempty Ht. destruct (wf_length _ (ww_buffer _ Hwf)) as [Hsz0 _].
  unfold sw_size in Hmax. unfold write_direct, write_fd.
  rewrite (proj2 (Z.ltb_ge _ _)) by lia. rewrite bind_ok_l.
  assert (lenZ (slice 0 t data) = t) as Hlt by (apply lenZ_slice; lia).
  assert (buffered self = []) as Hnil by (unfold buffered; rewrite Hempty; apply slice_0).
  destruct (write_retry_spec k (slice 0 t data)) as (k1 & [e | n] & -> & Hdl & Hres); [lia | |].
  - destruct Hres as [He Ha]. by apply write_io_error_spec.
  - destruct Hres as [Hn Ha]. destruct (drop_rest data n) as [Hsplit Hrl]; [lia |].
    rewrite u32_id, <- Hrl by (unfold is_u32; lia).
    apply write_data_rest_spec; try done;
      [by apply Forall_drop | unfold sw_size; lia | | by eapply lenZ_accepted | lia].
    rewrite Ha, slice_slice, Z.add_0_l, Hnil, <- app_assoc by lia. simpl. by rewrite Hsplit.
Qed.

Lemma write_vector_spec self k t data :
  write_wf self → Forall is_byte data → lenZ data + 2 * sw_size self < 2 ^ 32 →
  sw_length self < t <= sw_length self + lenZ data →
  ∃ self' k' r lost, write_vector self k t (lenZ data) data = Ok (self', k', r)
    ∧ write_outcome self k data self' k' r lost.
Proof.
  intros Hwf Hb Hmax Ht. pose proof Hwf as [Hbuf Hs Hl Hr]. pose proof (lenZ_buffered self Hwf) as Hlb.
  unfold sw_size in Hmax. destruct (wf_length _ Hbuf) as [Hsz0 _].
  unfold write_vector. destruct (sw_here_buffered self (sw_length self) Hwf) as [Hhere Hsl]; [lia |].
  rewrite (proj2 (Z.ltb_ge _ _)) by lia. rewrite (proj2 (Z.ltb_ge _ _)) by lia. simpl.
  assert (slice 0 (sw_length self) (buffered self) = buffered self) as Hall
    by (rewrite <- Hlb; apply slice_all).
  rewrite Hsl, Hall. set (l1 := t - sw_length self).
  assert (lenZ (slice 0 l1 data) = l1) as Hl1 by (apply lenZ_slice; lia).
  destruct (write_retry_spec k (buffered self ++ slice 0 l1 data)) as (k1 & [e | n] & -> & Hdl & Hres);
    [rewrite lenZ_app; lia | |].
  - destruct Hres as [He Ha]. by apply write_io_error_spec.
  - destruct Hres as [Hn Ha]. rewrite lenZ_app, Hlb, Hl1 in Hn.
    destruct (Z.ltb_spec n (sw_length self)) as [Hpart | Hwhole].
    + destruct (sw_consume_spec self n Hwf) as (Hw & Hsz & _ & Hbn); [lia |].
      apply write_data_rest_spec; try done; [| by eapply lenZ_accepted | lia].
      rewrite Ha, slice_app_l, <- app_assoc by lia. f_equal. by rewrite app_assoc, <- Hbn.
    + destruct (drop_rest data (n - sw_length self)) as [Hsplit Hrl]; [lia |].
      rewrite u32_id, <- Hrl by (unfold is_u32; lia).
      apply write_data_rest_spec; try done;
        [by apply Forall_drop | unfold sw_size; lia | | by eapply lenZ_accepted | lia].
      assert (buffered (mk_write (sw_buffer self) 0 0) = []) as -> by apply slice_0.
      rewrite app_nil_l, Ha, <- app_assoc. f_equal.
      replace n with (lenZ (buffered self) + (n - sw_length self)) at 1 by lia.
      rewrite slice_split, slice_app_l, slice_all, slice_app_r by lia.
      rewrite Z.add_0_l, Z.sub_diag, slice_slice, Z.add_0_l, <- app_assoc by lia. by rewrite Hsplit.
Qed.

Lemma ssh_write_data_spec self k to_write data :
  write_wf self → Forall is_byte data → lenZ data + 2 * sw_size self < 2 ^ 32 →
  0 <= to_write <= sw_length self + lenZ data → 0 < sw_length self + lenZ data →
  ∃ self' k' r lost, ssh_write_data self k to_write (lenZ data) data = Ok (self', k', r)
    ∧ write_outcome self k data self' k' r lost.
Proof.
  intros Hwf Hb Hmax Htw Hpos. pose proof Hwf as [Hbuf Hs Hl Hr]. pose proof (lenZ_nonneg data).
  unfold ssh_write_data. rewrite u32_id by (unfold is_u32, sw_size in *; lia).
  set (t := if c_true to_write then to_write else _).
  assert (0 < t <= sw_length self + lenZ data) as Ht.
  { unfold t, c_true, WRITE_MAX. destruct (Z.eqb_spec to_write 0); simpl; [case_bool; lia | lia]. }
  pass_assert. destruct (Z.leb_spec t (sw_length self)) as [Hsmall | Hbig].
  - apply write_buffered_spec; done || lia.
  - destruct (Z.eqb_spec (sw_length self) 0) as [Hempty | Hsome].
    + apply write_direct_spec; done || lia.
    + apply write_vector_spec; done || lia.
Qed.

(** ** Any sequence of calls *)

(** [write_run self k handed self' k']: a sequence of calls that returned
    without reporting an overflow, and the octets handed over by them. *)
Inductive write_run : ssh_write_state → os → list Z → ssh_write_state → os → Prop :=
  | run_start size k :
      is_u32 size → size < 2 ^ 30 → write_run (init_ssh_write_state size) k [] (init_ssh_write_state size) k
  | run_enqueue self0 k0 handed self k data self' :
      write_run self0 k0 handed self k → Forall is_byte data → lenZ data < 2 ^ 30 →
      ssh_write_enqueue self (lenZ data) data = Ok (self', true) →
      write_run self0 k0 (handed ++ data) self' k
  | run_data self0 k0 handed self k to_write data self' k' r :
      write_run self0 k0 handed self k → Forall is_byte data → lenZ data < 2 ^ 30 →
      0 <= to_write <= sw_length self + lenZ data → 0 < sw_length self + lenZ data →
      ssh_write_data self k to_write (lenZ data) data = Ok (self', k', r) → r ≠ inl EOVERFLOW →
      write_run self0 k0 (handed ++ data) self' k'
  | run_flush self0 k0 handed self k to_write self' k' r :
      write_run self0 k0 handed self k → 0 <= to_write <= sw_length self → 0 < sw_length self →
      ssh_write_flush self k to_write = Ok (self', k', r) →
      write_run self0 k0 handed self' k'.

(** [ssh_write_data] always returns, whatever the descriptor does (short
    writes, interruptions, errors); afterwards the octets accepted by the
    descriptor followed by the octets buffered are the old ones followed by
    the new data, except for a tail that is lost only when the call reports
    EOVERFLOW and the buffer is really too small for the old and new data. *)
Theorem ssh_write_data_correct self k to_write data :
  write_wf self → Forall is_byte data → lenZ data + 2 * sw_size self < 2 ^ 32 →
  0 <= to_write <= sw_length self + lenZ data → 0 < sw_length self + lenZ data →
  ∃ self' k' r lost, ssh_write_data self k to_write (lenZ data) data = Ok (self', k', r)
    ∧ write_outcome self k data self' k' r lost.
Proof. apply ssh_write_data_spec. Qed.

(** C24: however enqueueing, writing and flushing are interleaved, as long as
    no call reports an overflow the write buffer behaves as a FIFO: the
    octets the descriptor has accepted since the start, followed by those
    still buffered, are exactly the octets handed over, in order. *)
Theorem write_run_fifo self0 k0 handed self k :
  write_run self0 k0 handed self k →
  write_wf self ∧ sw_size self < 2 ^ 30 ∧ accepted k ++ buffered self = accepted k0 ++ handed.
Proof.
  induction 1 as [size k Hs Hsz | self0 k0 handed self k data self' _ (Hwf & Hsz & IH) Hb Hl He
    | self0 k0 handed self k tw data self' k' r _ (Hwf & Hsz & IH) Hb Hl Htw Hpos He Hr
    | self0 k0 handed self k tw self' k' r _ (Hwf & Hsz & IH) Htw Hpos He].
  - destruct (init_ssh_write_state_wf size Hs) as [Hwf ->]. done.
  - pose proof (lenZ_nonneg data).
    destruct (ssh_write_enqueue_spec self (lenZ data) data) as (s1 & ok & He1 & Hw & Hsz1 & _ & Hbuf & _);
      [done | lia | done | lia |]. rewrite He in He1. injection He1 as <- <-.
    split_and!; [done | lia |]. by rewrite Hbuf, slice_all, app_assoc, IH, app_assoc.
  - destruct (ssh_write_data_spec self k tw data) as (s1 & k1 & r1 & lost & He1 & [Hw Hsz1 _ Hst Hlost _ _]);
      [done | done | lia | done | done |]. rewrite He in He1. injection He1 as <- <- <-.
    assert (lost = []) as ->.
    { destruct (decide (lost = [])) as [| Hne]; [done |]. by destruct (Hlost Hne) as [? _]. }
    split_and!; [done | lia |]. rewrite app_nil_r in Hst. by rewrite Hst, app_assoc, IH, app_assoc.
  - destruct (ssh_write_flush_spec self k tw) as (s1 & k1 & r1 & He1 & Hw & Hsz1 & [Hst _] & _);
      [done | done | done |]. rewrite He in He1. injection He1 as <- <- <-.
    split_and!; [done | lia |]. by rewrite Hst, app_nil_r.
Qed.

End proofs.

(** A short write of three octets, then an interruption and two more. *)
Lemma ssh_write_data_correct_witness :
  ∃ self' k' r lost,
    ssh_write_data (init_ssh_write_state 10) (scripted [Err EINTR; Take 3]) 0 5 (cstr "hello")
    = Ok (self', k', r)
    ∧ write_outcome (init_ssh_write_state 10) (scripted [Err EINTR; Take 3]) (cstr "hello") self' k' r lost.
Proof.
  apply (ssh_write_data_correct (init_ssh_write_state 10) (scripted [Err EINTR; Take 3]) 0 (cstr "hello"));
    [apply (init_ssh_write_state_wf 10); unfold is_u32; lia | apply cstr_bytes | done
    | simpl; change (lenZ _) with 5; lia | simpl; change (lenZ _) with 5; lia].
Defined.

Lemma write_run_fifo_witness :
  ∃ self k, write_run (init_ssh_write_state 10) (scripted [Take 3; Err EINTR; Take 9])
              (([] ++ cstr "hello") ++ cstr "!") self k
    ∧ accepted k ++ buffered self = cstr "hello!" ∧ sc_accepted k = cstr "hello!".
Proof.
  assert (∃ self k, write_run (init_ssh_write_state 10) (scripted [Take 3; Err EINTR; Take 9])
    (([] ++ cstr "hello") ++ cstr "!") self k ∧ sc_accepted k = cstr "hello!") as (self & k & Hrun & Hacc).
  { eexists _, _. split.
    - eapply (run_data _ _ _ _ _ 0 (cstr "!")).
      + eapply (run_data _ _ _ _ _ 0 (cstr "hello")).
        * apply (run_start 10); [unfold is_u32; lia | lia].
        * apply cstr_bytes.
        * reflexivity.
        * split; vm_compute; discriminate.
        * reflexivity.
        * reflexivity.
        * discriminate.
      + apply cstr_bytes.
      + reflexivity.
      + split; vm_compute; discriminate.
      + reflexivity.
      + reflexivity.
      + discriminate.
    - reflexivity. }
  exists self, k. split; [exact Hrun |].
  destruct (write_run_fifo _ _ _ _ _ Hrun) as (_ & _ & Hf). split; [exact Hf | exact Hacc].
Defined.
