(* ===== verification/SshRead.v ===== *)
(** * Buffered input ([src/src/ssh_read.c], [lsh_string_read])

    A read buffer holds the octets that have arrived but have not been
    consumed, at positions [start .. start + length) of a string.
    [ssh_read_some] makes room if necessary and reads once. *)

From S2P Require Import Prelude Nettle LshString Sys.
Local Open Scope Z_scope.

Inductive ssh_read_status : Set :=
  | SSH_READ_IO_ERROR
  | SSH_READ_PROTOCOL_ERROR
  | SSH_READ_EOF
  | SSH_READ_COMPLETE
  | SSH_READ_PENDING
  | SSH_READ_PUSH.

Record ssh_read_state := mk_read {
  sr_buffer : lsh_string;
  sr_start : Z;
  sr_length : Z;
  sr_status : ssh_read_status;
}.

(** The three return values: -1 with [errno], 0 and 1. *)
Inductive read_ret : Set := ReadError (e : errno) | ReadEof | ReadSome.

Section model.
Context `{Malloc} `{OS}.

Definition init_ssh_read_state (buffer_size : Z) : ssh_read_state :=
  mk_read (lsh_string_alloc buffer_size) 0 0 SSH_READ_PUSH.

Definition lsh_string_read (s : lsh_string) (start : Z) (k : os) (length : Z)
  : result (lsh_string * os * (errno + Z)) :=
  _ ← c_assert (c_true length);
  _ ← ASSERT_ROOM s start length;
  let '(k, res) := read_retry k length in
  match res with
  | inl e => s ← assert_nul s; Ok (s, k, inl e)
  | inr d => s ← assert_nul (with_data s (splice start d (ls_data s))); Ok (s, k, inr (lenZ d))
  end.

Definition ssh_read_some (self : ssh_read_state) (k : os) (limit : Z)
  : result (ssh_read_state * os * read_ret) :=
  _ ← c_assert (limit <? lsh_string_length (sr_buffer self));
  _ ← c_assert (sr_length self <? limit);
  self ←
    (if lsh_string_length (sr_buffer self) <? u32 (sr_start self + limit) then
       _ ← c_assert (0 <? sr_start self);
       b ← lsh_string_move (sr_buffer self) 0 (sr_length self) (sr_start self);
       Ok (mk_read b 0 (sr_length self) (sr_status self))
     else Ok self);
  let left := limit - sr_length self in
  '(b, k, res) ← lsh_string_read (sr_buffer self) (u32 (sr_start self + sr_length self)) k left;
  match res with
  | inl e => Ok (mk_read b (sr_start self) (sr_length self) (sr_status self), k, ReadError e)
  | inr n =>
      if n =? 0 then Ok (mk_read b (sr_start self) (sr_length self) (sr_status self), k, ReadEof)
      else
        let status := if (n <? left) || negb (io_readable_p k) then SSH_READ_PUSH else SSH_READ_PENDING in
        Ok (mk_read b (sr_start self) (u32 (sr_length self + n)) status, k, ReadSome)
  end.

End model.

(** ** Invariant and observation *)

Record read_wf (self : ssh_read_state) : Prop := {
  rw_buffer : lsh_string_wf (sr_buffer self);
  rw_start : 0 <= sr_start self;
  rw_length : 0 <= sr_length self;
  rw_room : sr_start self + sr_length self <= ls_length (sr_buffer self);
}.

Definition unread (self : ssh_read_state) : list Z :=
  slice (sr_start self) (sr_length self) (contents (sr_buffer self)).

Definition sr_size (self : ssh_read_state) : Z := ls_length (sr_buffer self).

(** [self->start += n; self->length -= n;] *)
Definition sr_consume (self : ssh_read_state) (n : Z) : ssh_read_state :=
  mk_read (sr_buffer self) (u32 (sr_start self + n)) (u32 (sr_length self - n)) (sr_status self).

(** The octets from [self->start] on. *)
Definition sr_here (self : ssh_read_state) : list Z :=
  drop (Z.to_nat (sr_start self)) (lsh_string_data (sr_buffer self)).

Lemma lenZ_unread self : read_wf self → lenZ (unread self) = sr_length self.
Proof. intros [Hb Hs Hl Hr]. apply lenZ_slice; rewrite ?lenZ_contents; done || lia. Qed.

Lemma unread_bytes self : read_wf self → Forall is_byte (unread self).
Proof.
  intros [Hb _ _ _]. unfold unread, slice. apply Forall_take, Forall_drop. by apply contents_bytes.
Qed.

Lemma sr_here_unread self n :
  read_wf self → 0 <= n <= sr_length self →
  sr_length self <= lenZ (sr_here self) ∧ slice 0 n (sr_here self) = slice 0 n (unread self).
Proof.
  intros [Hb Hs Hl Hr] Hn. destruct Hb as [_ Hroom _ _]. unfold sr_here, lsh_string_data, unread, contents.
  split.
  - unfold lenZ in *. rewrite length_drop. lia.
  - rewrite !slice_slice by lia. unfold slice. rewrite drop_0. by rewrite Z.add_0_r, Z.add_0_l.
Qed.

Lemma sr_here_split self : read_wf self → ∃ junk, sr_here self = unread self ++ junk.
Proof.
  intros Hwf. pose proof (lenZ_unread self Hwf) as Hl. pose proof (rw_length _ Hwf).
  destruct (sr_here_unread self (sr_length self) Hwf) as [_ Hs]; [lia |].
  rewrite <- Hl in Hs at 2. rewrite slice_all in Hs.
  exists (drop (Z.to_nat (sr_length self)) (sr_here self)). rewrite <- Hs.
  unfold slice. by rewrite drop_0, take_drop.
Qed.

Lemma sr_consume_spec self n :
  read_wf self → 0 <= n <= sr_length self →
  read_wf (sr_consume self n) ∧ sr_size (sr_consume self n) = sr_size self
  ∧ sr_length (sr_consume self n) = sr_length self - n
  ∧ unread self = slice 0 n (unread self) ++ unread (sr_consume self n).
Proof.
  intros [Hb Hs Hl Hr] Hn. destruct (wf_length _ Hb) as [_ Hmax]. unfold sr_consume.
  rewrite !u32_id by (unfold is_u32; lia). split_and!; [split; simpl; done || lia | done | done |].
  unfold unread. simpl. rewrite slice_slice by lia. rewrite Z.add_0_r.
  rewrite <- slice_split by lia. f_equal. lia.
Qed.

Section proofs.
Context `{MallocOk} `{OSOk}.

Lemma init_ssh_read_state_wf size :
  is_u32 size → read_wf (init_ssh_read_state size) ∧ unread (init_ssh_read_state size) = [].
Proof.
  intros Hs. split; [| apply slice_0]. unfold is_u32 in Hs.
  split; simpl; [by apply lsh_string_alloc_wf | lia..].
Qed.

(** Reading into the string changes just the octets that were read. *)
Lemma lsh_string_read_spec s start k length :
  lsh_string_wf s → 0 <= start → 0 < length → start + length <= ls_length s →
  ∃ s' k' r d, lsh_string_read s start k length = Ok (s', k', r)
    ∧ lsh_string_wf s' ∧ ls_length s' = ls_length s
    ∧ accepted k' = accepted k ∧ delivered k' = delivered k ++ d
    ∧ contents s' = splice start d (contents s) ∧ lenZ d <= length
    ∧ match r with inl e => d = [] ∧ e ≠ EINTR | inr n => n = lenZ d end.
Proof.
  intros Hwf Hs Hl Hroom. unfold lsh_string_read, c_true. pass_assert.
  rewrite ASSERT_ROOM_ok by lia. rewrite bind_ok_l.
  destruct (read_retry_spec k length Hl) as (k' & [e | d] & -> & Ha & Hr).
  - destruct Hr as [He Hd]. rewrite assert_nul_wf by done. simpl.
    exists s, k', (inl e), []. rewrite splice_nil, app_nil_r. change (lenZ []) with 0. split_and!; done || lia.
  - destruct Hr as (Hlen & Hb & Hd). pose proof (lenZ_nonneg d).
    destruct (splice_wf s start d) as [Hw Hc]; [done | done | lia | done |].
    rewrite assert_nul_wf by done. simpl. eexists _, k', (inr (lenZ d)), d. split_and!; done || lia.
Qed.

(** One read: what was unread stays, what arrives is appended. *)
Lemma ssh_read_some_spec self k limit :
  read_wf self → sr_length self < limit < sr_size self → sr_size self < 2 ^ 31 →
  ∃ self' k' r d, ssh_read_some self k limit = Ok (self', k', r)
    ∧ read_wf self' ∧ sr_size self' = sr_size self
    ∧ accepted k' = accepted k ∧ delivered k' = delivered k ++ d
    ∧ unread self' = unread self ++ d ∧ sr_length self' = sr_length self + lenZ d
    ∧ sr_length self' <= limit
    ∧ match r with
      | ReadSome => 0 < lenZ d ∧ (sr_status self' = SSH_READ_PUSH ∨ sr_status self' = SSH_READ_PENDING)
      | ReadEof => d = [] ∧ sr_status self' = sr_status self
      | ReadError e => d = [] ∧ e ≠ EINTR ∧ sr_status self' = sr_status self
      end.
Proof.
  intros Hwf Hlim Hsize. pose proof Hwf as [Hb Hs Hl Hr]. unfold sr_size in *.
  unfold ssh_read_some, lsh_string_length. do 2 pass_assert.
  rewrite u32_id by (unfold is_u32; lia).
  assert (∃ self1, (if ls_length (sr_buffer self) <? sr_start self + limit then
       _ ← c_assert (0 <? sr_start self);
       b ← lsh_string_move (sr_buffer self) 0 (sr_length self) (sr_start self);
       Ok (mk_read b 0 (sr_length self) (sr_status self))
     else Ok self) = Ok self1 ∧ read_wf self1 ∧ ls_length (sr_buffer self1) = ls_length (sr_buffer self)
     ∧ sr_length self1 = sr_length self ∧ sr_status self1 = sr_status self
     ∧ unread self1 = unread self ∧ sr_start self1 + limit <= ls_length (sr_buffer self1))
    as (self1 & -> & Hwf1 & Hsz1 & Hl1 & Hst1 & Hu1 & Hroom1).
  { destruct (Z.ltb_spec (ls_length (sr_buffer self)) (sr_start self + limit)).
    - pass_assert.
      destruct (lsh_string_move_spec (sr_buffer self) 0 (sr_length self) (sr_start self))
        as (b & -> & Hwb & Hlb & Hcb); [done | lia.. |].
      simpl. eexists. split; [done |]. split; [split; simpl; done || lia |].
      split_and!; [done | done | done | | simpl; lia].
      unfold unread. simpl. rewrite Hcb.
      rewrite <- (lenZ_slice (sr_start self) (sr_length self) (contents (sr_buffer self))) at 1
        by (rewrite ?lenZ_contents; done || lia).
      apply slice_splice_same; [lia |].
      rewrite lenZ_slice by (rewrite ?lenZ_contents; done || lia). rewrite lenZ_contents by done. lia.
    - exists self. split_and!; done || lia. }
  rewrite bind_ok_l. pose proof Hwf1 as [Hb1 Hs1 Hll1 Hr1].
  rewrite u32_id by (unfold is_u32; lia).
  destruct (lsh_string_read_spec (sr_buffer self1) (sr_start self1 + sr_length self1) k (limit - sr_length self1))
    as (b & k' & r & d & -> & Hwb & Hlb & Ha & Hd & Hcb & Hld & Hres); [done | lia.. |].
  simpl. pose proof (lenZ_nonneg d).
  assert (slice (sr_start self1) (sr_length self1 + lenZ d) (contents b) = unread self ++ d) as Hun.
  { rewrite slice_split by lia. rewrite <- Hu1. unfold unread. rewrite Hcb. f_equal.
    - apply slice_splice_before; rewrite ?lenZ_contents; done || lia.
    - apply slice_splice_same; [lia |]. rewrite lenZ_contents by done. lia. }
  destruct r as [e | n].
  - destruct Hres as [-> He]. rewrite Z.add_0_r in Hun. eexists _, k', _, []. split; [done |].
    split; [split; simpl; done || lia |]. simpl. unfold unread at 1. simpl.
    change (lenZ []) with 0. split_and!; done || lia.
  - subst n. destruct (Z.eqb_spec (lenZ d) 0) as [Hz | Hz].
    + destruct d; [| rewrite lenZ_cons in Hz; pose proof (lenZ_nonneg d); lia].
      rewrite Z.add_0_r in Hun. eexists _, k', _, []. split; [done |].
      split; [split; simpl; done || lia |]. simpl. unfold unread at 1. simpl.
      change (lenZ []) with 0. split_and!; done || lia.
    + rewrite u32_id by (unfold is_u32; lia). eexists _, k', _, d. split; [done |].
      split; [split; simpl; done || lia |]. simpl. unfold unread at 1. simpl.
      split_and!; try (done || lia). case_bool; auto.
Qed.

(** The descriptor is read once, with the retry loop. *)
Lemma ssh_read_some_os self k limit self' k' r :
  ssh_read_some self k limit = Ok (self', k', r) → ∃ n, 0 < n ∧ k' = fst (read_retry k n).
Proof.
  intros Hok. unfold ssh_read_some in Hok. apply bind_Ok in Hok as ([] & _ & Hok).
  apply bind_Ok in Hok as ([] & Hlt & Hok). apply c_assert_Ok in Hlt.
  apply bind_Ok in Hok as (self1 & Hself & Hok).
  apply bind_Ok in Hok as ([[b k1] res] & Hread & Hok).
  assert (sr_length self1 = sr_length self) as Hl.
  { case_bool_in Hself; ok_inv; done. }
  assert (k1 = fst (read_retry k (limit - sr_length self1))) as Hk.
  { unfold lsh_string_read in Hread. apply bind_Ok in Hread as ([] & _ & Hread).
    apply bind_Ok in Hread as ([] & _ & Hread).
    destruct (read_retry k (limit - sr_length self1)) as [k2 [e | d]]; ok_inv; done. }
  exists (limit - sr_length self1). split; [lia |].
  destruct res as [e | n]; [by ok_inv |]. case_bool_in Hok; by ok_inv.
Qed.

End proofs.
