(* ===== verification/ServiceRead.v ===== *)
(** * Packets between the transport process and its services
      ([src/src/service_read.c])

    Locally a packet travels as a sequence number, a length and the payload.
    [service_read_packet] delivers at most one packet per call, reads the
    descriptor at most once, and keeps a partly received packet between
    calls. *)

From S2P Require Import Prelude Ssh Nettle LshString Sys SshRead Atoms Format FormatSpec Parse ParseSpec.
Local Open Scope Z_scope.

Definition SERVICE_READ_AHEAD := 1000.
Definition SERVICE_HEADER_SIZE := 8.

Record service_read_state := mk_service_read {
  sv_super : ssh_read_state;
  sv_packet_length : Z;
  sv_seqno : Z;
}.

(** The return value, with what is stored through the pointers. *)
Inductive service_ret : Type :=
  | SvStatus (s : ssh_read_status)
  | SvProtocolError (msg : string)
  | SvComplete (seqno length : Z) (packet : list Z).

Section model.
Context `{Malloc} `{OS} `{NettleMacros}.

Definition make_service_read_state : service_read_state :=
  mk_service_read (init_ssh_read_state (SSH_MAX_PACKET + SERVICE_READ_AHEAD)) 0 0.

(** [ssh_read_some] and the treatment of its result, up to the status to
    return at once. *)
Definition service_fill (super : ssh_read_state) (k : os) (limit : Z) (eof_ok : bool)
  : result (ssh_read_state * os * option service_ret) :=
  '(super, k, res) ← ssh_read_some super k limit;
  Ok (super, k,
      match res with
      | ReadEof =>
          if eof_ok && (sr_length super =? 0) then Some (SvStatus SSH_READ_EOF)
          else Some (SvProtocolError "Unexpected EOF")
      | ReadError e =>
          if bool_decide (e = EWOULDBLOCK) then Some (SvStatus SSH_READ_PUSH)
          else Some (SvStatus SSH_READ_IO_ERROR)
      | ReadSome => None
      end).

(** The body of a packet whose header has been processed. *)
Definition service_read_body (self : service_read_state) (fd : bool) (k : os)
  : result (service_read_state * os * service_ret) :=
  let deliver (super : ssh_read_state) (k : os) :=
    let n := sv_packet_length self in
    Ok (mk_service_read (sr_consume super n) 0 (sv_seqno self), k,
        SvComplete (sv_seqno self) n (slice 0 n (sr_here super))) in
  let with_super (s : ssh_read_state) := mk_service_read s (sv_packet_length self) (sv_seqno self) in
  let super := sv_super self in
  if sr_length super <? sv_packet_length self then
    if negb fd then Ok (self, k, SvStatus (sr_status super))
    else
      '(super, k, stop) ← service_fill super k (u32 (sv_packet_length self + SERVICE_READ_AHEAD)) false;
      match stop with
      | Some r => Ok (with_super super, k, r)
      | None =>
          if sr_length super <? sv_packet_length self
          then Ok (with_super super, k, SvStatus (sr_status super))
          else deliver super k
      end
  else deliver super k.

(** The header, once its eight octets are there. *)
Definition service_read_header (super : ssh_read_state) (fd : bool) (k : os)
  : result (service_read_state * os * service_ret) :=
  _ ← c_assert (SERVICE_HEADER_SIZE <=? sr_length super);
  let header := sr_here super in
  seqno ← read_uint32 header;
  packet_length ← read_uint32 (drop 4 header);
  let self := mk_service_read super packet_length seqno in
  if packet_length =? 0 then Ok (self, k, SvProtocolError "Received empty packet")
  else if SSH_MAX_PACKET <? packet_length then Ok (self, k, SvProtocolError "Packet too large")
  else
    service_read_body
      (mk_service_read (sr_consume super SERVICE_HEADER_SIZE) packet_length seqno) fd k.

(** [fd] says whether a descriptor was passed ([fd >= 0]). *)
Definition service_read_packet (self : service_read_state) (fd : bool) (k : os)
  : result (service_read_state * os * service_ret) :=
  if sv_packet_length self =? 0 then
    let super := sv_super self in
    if sr_length super <? SERVICE_HEADER_SIZE then
      if negb fd then Ok (self, k, SvStatus (sr_status super))
      else
        '(super, k, stop) ← service_fill super k SERVICE_READ_AHEAD true;
        let self := mk_service_read super 0 (sv_seqno self) in
        match stop with
        | Some r => Ok (self, k, r)
        | None =>
            if sr_length super <? SERVICE_HEADER_SIZE then Ok (self, k, SvStatus (sr_status super))
            else service_read_header super false k
        end
    else service_read_header super fd k
  else service_read_body self fd k.

End model.

(** ** Contract *)

(** The wire format. *)
Definition service_frame (seqno : Z) (payload : list Z) : list Z :=
  be32 seqno ++ be32 (lenZ payload) ++ payload.

(** What has arrived and not been delivered, the processed header included. *)
Definition service_pending (self : service_read_state) : list Z :=
  (if sv_packet_length self =? 0 then []
   else be32 (sv_seqno self) ++ be32 (sv_packet_length self))
  ++ unread (sv_super self).

(** The status of the last read. *)
Definition read_status_ok (super : ssh_read_state) : Prop :=
  sr_status super = SSH_READ_PUSH ∨ sr_status super = SSH_READ_PENDING.

Record service_wf (self : service_read_state) : Prop := {
  sv_super_wf : read_wf (sv_super self);
  sv_size : sr_size (sv_super self) = SSH_MAX_PACKET + SERVICE_READ_AHEAD;
  sv_length_ok : 0 <= sv_packet_length self <= SSH_MAX_PACKET;
  sv_seqno_ok : is_u32 (sv_seqno self);
  sv_status_ok : read_status_ok (sv_super self);
}.

Definition service_outcome `{OS} (self : service_read_state) (k : os) (arrived : list Z)
  (self' : service_read_state) (k' : os) (r : service_ret) : Prop :=
  accepted k' = accepted k ∧ delivered k' = delivered k ++ arrived
  ∧ match r with
    | SvProtocolError _ => True
    | SvStatus st => service_wf self' ∧ service_pending self' = service_pending self ++ arrived
        ∧ st ≠ SSH_READ_COMPLETE ∧ st ≠ SSH_READ_PROTOCOL_ERROR
    | SvComplete seqno length packet =>
        service_wf self' ∧ is_u32 seqno ∧ length = lenZ packet ∧ 0 < length <= SSH_MAX_PACKET ∧ Forall is_byte packet
        ∧ service_pending self ++ arrived = service_frame seqno packet ++ service_pending self'
    end.

(** The pending octets start with the header of a packet of maximal length. *)
Definition service_maximal (pending : list Z) : Prop :=
  ∃ seqno tl, pending = be32 seqno ++ be32 SSH_MAX_PACKET ++ tl.

(** A call returns as described, or it stops at the assertion of
    [ssh_read_some] on a packet of maximal length. *)
Definition service_result `{OS} (self : service_read_state) (k : os)
  (c : result (service_read_state * os * service_ret)) : Prop :=
  (∃ self' k' r d, c = Ok (self', k', r) ∧ service_outcome self k d self' k' r)
  ∨ c = Fault AssertFailed ∧ ∃ d, service_maximal (service_pending self ++ d).

Section proofs.
Context `{MallocOk} `{OSOk} `{NettleMacrosOk}.

Lemma make_service_read_state_wf :
  service_wf make_service_read_state ∧ service_pending make_service_read_state = [].
Proof.
  destruct (init_ssh_read_state_wf (SSH_MAX_PACKET + SERVICE_READ_AHEAD)) as [Hw Hu];
    [unfold is_u32, SSH_MAX_PACKET, SERVICE_READ_AHEAD; lia |].
  split; [| unfold service_pending; simpl; exact Hu].
  split; simpl; [done | done | unfold SSH_MAX_PACKET; lia | unfold is_u32; lia | by left].
Qed.

Lemma read_status_waits super :
  read_status_ok super → sr_status super ≠ SSH_READ_COMPLETE ∧ sr_status super ≠ SSH_READ_PROTOCOL_ERROR.
Proof. by intros [-> | ->]. Qed.

Lemma service_fill_spec super k limit eof_ok :
  read_wf super → sr_length super < limit < sr_size super → sr_size super < 2 ^ 31 →
  ∃ super' k' stop d, service_fill super k limit eof_ok = Ok (super', k', stop)
    ∧ read_wf super' ∧ sr_size super' = sr_size super
    ∧ accepted k' = accepted k ∧ delivered k' = delivered k ++ d
    ∧ unread super' = unread super ++ d ∧ sr_length super' = sr_length super + lenZ d
    ∧ (read_status_ok super → read_status_ok super')
    ∧ match stop with
      | None => 0 < lenZ d
      | Some (SvComplete _ _ _) => False
      | Some (SvProtocolError _) => d = []
      | Some (SvStatus st) => d = [] ∧ st ≠ SSH_READ_COMPLETE ∧ st ≠ SSH_READ_PROTOCOL_ERROR
      end.
Proof.
  intros Hwf Hlim Hsz. unfold service_fill.
  destruct (ssh_read_some_spec super k limit Hwf Hlim Hsz)
    as (s' & k' & r & d & -> & Hw & Hs & Ha & Hd & Hu & Hl & _ & Hr). simpl.
  eexists s', k', _, d. split; [done |]. split_and!; try done.
  { unfold read_status_ok. destruct r; [destruct Hr as (_ & _ & ->) | destruct Hr as (_ & ->) | destruct Hr]; tauto. }
  destruct r as [e | |]; simpl.
  - destruct Hr as (-> & _ & _). by case_bool_decide.
  - destruct Hr as [-> _]. by case_bool.
  - by destruct Hr.
Qed.

(** Eight octets, decoded. *)
Lemma header_fields super :
  read_wf super → SERVICE_HEADER_SIZE <= sr_length super →
  ∃ seqno len, read_uint32 (sr_here super) = Ok seqno ∧ read_uint32 (drop 4 (sr_here super)) = Ok len
    ∧ is_u32 seqno ∧ is_u32 len
    ∧ slice 0 8 (unread super) = be32 seqno ++ be32 len.
Proof.
  intros Hwf Hlen. unfold SERVICE_HEADER_SIZE in Hlen.
  destruct (sr_here_unread super 8 Hwf) as [Hhere Hsl]; [lia |].
  pose proof (lenZ_unread super Hwf) as Hlu. pose proof (unread_bytes super Hwf) as Hb.
  set (h := slice 0 8 (unread super)) in *.
  assert (lenZ h = 8) as Hlh by (apply lenZ_slice; lia).
  assert (Forall is_byte h) as Hbh by (unfold h, slice; by apply Forall_take, Forall_drop).
  assert (sr_here super = h ++ drop 8 (sr_here super)) as Hsplit
    by (rewrite <- Hsl; unfold slice; by rewrite drop_0, take_drop).
  assert (h = slice 0 4 h ++ slice 4 4 h) as Hh by (rewrite <- slice_split by lia; replace (4 + 4) with (lenZ h) by lia; by rewrite slice_all).
  assert (lenZ (slice 0 4 h) = 4) as Hl0 by (apply lenZ_slice; lia).
  assert (lenZ (slice 4 4 h) = 4) as Hl4 by (apply lenZ_slice; lia).
  assert (∀ p, Forall is_byte (slice p 4 h)) as Hbs by (intros p; unfold slice; by apply Forall_take, Forall_drop).
  assert (∀ l, Forall is_byte l → lenZ l = 4 → is_u32 (be_value l) ∧ be32 (be_value l) = l) as Hbe.
  { intros l Hbl Hll. pose proof (be_value_range l Hbl) as Hr. rewrite Hll in Hr. split; [done |].
    unfold be32. replace 4%nat with (length l) by (unfold lenZ in Hll; lia). by apply be_bytes_value. }
  destruct (Hbe (slice 0 4 h)) as [Hu0 He0]; [done | done |].
  destruct (Hbe (slice 4 4 h)) as [Hu4 He4]; [done | done |].
  exists (be_value (slice 0 4 h)), (be_value (slice 4 4 h)). split_and!; try done.
  - rewrite Hsplit, Hh at 1. rewrite <- app_assoc. by apply read_uint32_bytes.
  - rewrite Hsplit, Hh at 1. rewrite <- app_assoc.
    rewrite drop_app_ge by (unfold lenZ in Hl0; lia).
    replace (4 - length (slice 0 4 h))%nat with 0%nat by (unfold lenZ in Hl0; lia).
    rewrite drop_0. by apply read_uint32_bytes.
  - by rewrite He0, He4.
Qed.

Lemma service_read_body_spec self fd k :
  service_wf self → 0 < sv_packet_length self →
  service_result self k (service_read_body self fd k).
Proof.
  intros Hwf Hpos. pose proof Hwf as [Hs Hsz Hl Hq Hrs].
  assert (∀ super k1 d, read_wf super → sr_size super = sr_size (sv_super self) → read_status_ok super →
    accepted k1 = accepted k → delivered k1 = delivered k ++ d →
    unread super = unread (sv_super self) ++ d → sv_packet_length self <= sr_length super →
    service_outcome self k d
      (mk_service_read (sr_consume super (sv_packet_length self)) 0 (sv_seqno self)) k1
      (SvComplete (sv_seqno self) (sv_packet_length self) (slice 0 (sv_packet_length self) (sr_here super))))
    as Hdeliver.
  { intros super k1 d Hw Hsize Hst Ha Hd Hu Hle.
    destruct (sr_consume_spec super (sv_packet_length self) Hw) as (Hw' & Hsz' & Hl' & Hu'); [lia |].
    destruct (sr_here_unread super (sv_packet_length self) Hw) as [_ ->]; [lia |].
    pose proof (lenZ_unread super Hw) as Hlu.
    assert (lenZ (slice 0 (sv_packet_length self) (unread super)) = sv_packet_length self) as Hlp
      by (apply lenZ_slice; lia).
    split_and!; [done | done | split; simpl; done || lia | done | lia | lia | lia
      | unfold slice; by apply Forall_take, Forall_drop, unread_bytes |].
    unfold service_pending, service_frame. rewrite (proj2 (Z.eqb_neq _ _)) by lia.
    cbn [sv_packet_length sv_seqno sv_super]. rewrite Z.eqb_refl, app_nil_l, Hlp, <- !app_assoc, <- Hu. do 2 f_equal. exact Hu'. }
  unfold service_read_body. destruct (Z.ltb_spec (sr_length (sv_super self)) (sv_packet_length self)).
  - destruct fd; simpl.
    + rewrite u32_id by (unfold is_u32, SSH_MAX_PACKET, SERVICE_READ_AHEAD in *; lia).
      destruct (decide (sv_packet_length self = SSH_MAX_PACKET)) as [Hmax | Hmax].
      { right. split.
        - unfold service_fill, ssh_read_some, lsh_string_length, sr_size in *. by rewrite Hsz, Hmax.
        - exists []. unfold service_maximal, service_pending. rewrite (proj2 (Z.eqb_neq _ _)) by lia.
          rewrite Hmax, app_nil_r, <- app_assoc. eauto. }
      left. destruct (service_fill_spec (sv_super self) k (sv_packet_length self + SERVICE_READ_AHEAD) false)
        as (super' & k' & stop & d & -> & Hw & Hsize & Ha & Hd & Hu & Hlen & Hst & Hstop);
        [done | unfold SERVICE_READ_AHEAD in *; lia | unfold SSH_MAX_PACKET, SERVICE_READ_AHEAD in *; lia |].
      simpl. assert (service_outcome self k d (mk_service_read super' (sv_packet_length self) (sv_seqno self)) k'
        (SvStatus (sr_status super'))) as Hstay.
      { split_and!; [done | done | split; simpl; auto; congruence | | by apply read_status_waits, Hst..].
        unfold service_pending. cbn [sv_packet_length sv_seqno sv_super]. by rewrite Hu, app_assoc. }
      destruct stop as [r |].
      * eexists _, k', r, d. split; [done |]. destruct r; [| done | done]. destruct Hstop as (_ & ? & ?).
        destruct Hstay as (? & ? & ? & ? & _). by split_and!.
      * destruct (Z.ltb_spec (sr_length super') (sv_packet_length self)).
        -- by eexists _, k', _, d.
        -- eexists _, k', _, d. split; [done |]. by apply Hdeliver; auto.
    + left. eexists self, k, _, []. split; [done |].
      split_and!; [done | by rewrite app_nil_r | done | by rewrite app_nil_r | by apply read_status_waits..].
  - left. eexists _, k, _, []. split; [done |].
    apply Hdeliver; try done; by rewrite app_nil_r.
Qed.

(** Octets that arrive before a part of the work are seen by the whole. *)
Lemma service_result_pending self0 k self1 k1 arrived c :
  accepted k1 = accepted k → delivered k1 = delivered k ++ arrived →
  service_pending self1 = service_pending self0 ++ arrived →
  service_result self1 k1 c → service_result self0 k c.
Proof.
  intros Ha Hd Hp [(self' & k' & r & d & -> & Ha' & Hd' & Hr) | [-> [d Hm]]].
  - left. exists self', k', r, (arrived ++ d). split; [done |].
    split_and!; [congruence | by rewrite Hd', Hd, app_assoc |].
    destruct r as [s | msg | seqno len packet]; [| done |].
    + destruct Hr as (Hw & Hpend & Hst). split; [done |]. by rewrite Hpend, Hp, app_assoc.
    + destruct Hr as (Hw & Hq & Hl & Hm & Hby & Hpend). split_and!; try done; try lia.
      by rewrite app_assoc, <- Hp.
  - right. split; [done |]. exists (arrived ++ d). by rewrite app_assoc, <- Hp.
Qed.

Lemma service_read_header_spec super fd k seqno0 :
  read_wf super → sr_size super = SSH_MAX_PACKET + SERVICE_READ_AHEAD →
  SERVICE_HEADER_SIZE <= sr_length super → read_status_ok super →
  service_result (mk_service_read super 0 seqno0) k (service_read_header super fd k).
Proof.
  intros Hwf Hsz Hlen Hst. unfold service_read_header. pass_assert.
  destruct (header_fields super Hwf Hlen) as (seqno & len & -> & -> & Hq & Hl & Hh). rewrite !bind_ok_l.
  unfold is_u32 in Hl. destruct (Z.eqb_spec len 0) as [-> | Hnz].
  { left. eexists _, k, _, []. split; [done |]. split_and!; [done | by rewrite app_nil_r | done]. }
  destruct (Z.ltb_spec SSH_MAX_PACKET len) as [Hbig | Hsmall].
  { left. eexists _, k, _, []. split; [done |]. split_and!; [done | by rewrite app_nil_r | done]. }
  destruct (sr_consume_spec super SERVICE_HEADER_SIZE Hwf) as (Hw' & Hsz' & Hl' & Hu');
    [unfold SERVICE_HEADER_SIZE in *; lia |].
  set (self1 := mk_service_read (sr_consume super SERVICE_HEADER_SIZE) len seqno).
  assert (service_wf self1) as Hwf1 by (split; simpl; done || lia).
  apply (service_result_pending _ k self1 k []); [done | by rewrite app_nil_r | |].
  - unfold service_pending, self1. cbn [sv_packet_length sv_seqno sv_super].
    rewrite (proj2 (Z.eqb_neq _ _)) by lia.
    rewrite Z.eqb_refl, app_nil_l, app_nil_r, Hu', <- Hh. done.
  - apply service_read_body_spec; [done | simpl; lia].
Qed.

Lemma service_read_packet_spec self fd k :
  service_wf self → service_result self k (service_read_packet self fd k).
Proof.
  intros Hwf. pose proof Hwf as [Hs Hsz Hl Hq Hrs]. unfold service_read_packet.
  destruct (Z.eqb_spec (sv_packet_length self) 0) as [Hz | Hnz];
    [| apply service_read_body_spec; [done | lia]].
  destruct self as [super len seqno]. simpl in *. subst len.
  destruct (Z.ltb_spec (sr_length super) SERVICE_HEADER_SIZE) as [Hshort | Hlong];
    [| by apply service_read_header_spec].
  destruct fd; simpl.
  - destruct (service_fill_spec super k SERVICE_READ_AHEAD true)
      as (super' & k1 & stop & d & -> & Hw & Hsize & Ha & Hd & Hu & Hlen & Hst & Hstop);
      [done | unfold SERVICE_READ_AHEAD, SERVICE_HEADER_SIZE, SSH_MAX_PACKET in *; lia
      | unfold SSH_MAX_PACKET, SERVICE_READ_AHEAD in *; lia |]. simpl.
    set (self1 := mk_service_read super' 0 seqno).
    specialize (Hst Hrs).
    assert (service_wf self1) as Hwf1 by (split; simpl; done || (unfold SSH_MAX_PACKET; lia) || lia).
    pose proof (read_status_waits super' Hst) as [Hn1 Hn2].
    assert (service_outcome (mk_service_read super 0 seqno) k d self1 k1 (SvStatus (sr_status super')))
      as Hstay by by split_and!.
    destruct stop as [r |].
    { left; eexists _, k1, r, d; split; [done |]. destruct r; [| done | done]. destruct Hstop as (_ & ? & ?).
      destruct Hstay as (? & ? & ? & ? & _). by split_and!. }
    destruct (Z.ltb_spec (sr_length super') SERVICE_HEADER_SIZE); [left; by eexists _, k1, _, d |].
    apply (service_result_pending _ k self1 k1 d); [done | done | done |].
    apply service_read_header_spec; [done | congruence | done | done].
  - left. eexists _, k, _, []. split; [done |].
    split_and!; [done | by rewrite app_nil_r | done | by rewrite app_nil_r | by apply read_status_waits..].
Qed.

(** Without a descriptor nothing is read. *)
Lemma service_read_packet_nofd self k self' k' r :
  service_read_packet self false k = Ok (self', k', r) → k' = k.
Proof.
  unfold service_read_packet, service_read_header, service_read_body. intros Hr.
  repeat (case_match; simplify_eq; ok_inv; simpl in *); by simplify_eq.
Qed.


(** A packet of exactly [SSH_MAX_PACKET] octets passes the length check,
    but reading its body asks [ssh_read_some] for as many octets as the
    buffer has, and its first assertion fails. *)
Theorem service_read_maximal_fails self k :
  service_wf self → sv_packet_length self = SSH_MAX_PACKET →
  sr_length (sv_super self) < SSH_MAX_PACKET →
  service_read_packet self true k = Fault AssertFailed.
Proof.
  intros [Hs Hsz Hl Hq _] Hmax Hlen. unfold service_read_packet, service_read_body.
  rewrite Hmax. rewrite (proj2 (Z.eqb_neq _ _)) by done. rewrite (proj2 (Z.ltb_lt _ _)) by done.
  simpl. unfold service_fill, ssh_read_some, lsh_string_length, sr_size in *.
  by rewrite Hsz.
Qed.

End proofs.


Lemma service_read_maximal_fails_witness :
  service_read_packet (mk_service_read (sv_super make_service_read_state) SSH_MAX_PACKET 7)
    true (scripted []) = Fault AssertFailed.
Proof.
  destruct make_service_read_state_wf as [[Hs Hsz _ _ Hst] _].
  apply service_read_maximal_fails; [| reflexivity | reflexivity].
  split; [exact Hs | exact Hsz | simpl; unfold SSH_MAX_PACKET; lia | unfold is_u32; simpl; lia | exact Hst].
Defined.
