(* ===== verification/Crypto.v ===== *)
(** * Ciphers, MACs, compression and randomness as interfaces

    [crypto.h] and [compress.h] define these as objects with methods; behind
    the methods is the code of Nettle and zlib.  The transport layer is
    proved against the classes below.  The reference instances, a shift cipher
    with a one-octet checksum and no compression, show that the laws are
    satisfiable. *)

From S2P Require Import Prelude Nettle LshString.
Local Open Scope Z_scope.

Definition SSH_MAX_BLOCK_SIZE := 16.
Definition SSH_MAX_MAC_SIZE := 20.

Class Crypto := {
  (** [struct crypto_instance]: its state includes key and chaining value. *)
  crypto_instance : Type;
  block_size : crypto_instance → Z;
  crypt : crypto_instance → list Z → crypto_instance * list Z;
  (** The keyed function behind [struct mac_instance]. *)
  mac_key : Type;
  mac_size : mac_key → Z;
  mac_digest : mac_key → list Z → list Z;
  (** [struct compress_instance]: room, input; no output means an error. *)
  compress_instance : Type;
  codec : compress_instance → Z → list Z → compress_instance * list Z;
  (** [random_generate] *)
  rng : Type;
  random_generate : rng → Z → rng * list Z;
  (** Two instances made from the same keys, for opposite directions. *)
  crypt_sync : crypto_instance → crypto_instance → Prop;
  compress_sync : compress_instance → compress_instance → Prop;
}.

Class CryptoOk `{Crypto} : Prop := {
  (** The block sizes of the ciphers of [crypto.c]; 8 for the stream cipher. *)
  block_size_ok c : block_size c = 8 ∨ block_size c = SSH_MAX_BLOCK_SIZE;
  mac_size_ok m : 0 <= mac_size m <= SSH_MAX_MAC_SIZE;
  (** Whole blocks are mapped to as many octets. *)
  crypt_ok c x :
    Forall is_byte x → lenZ x `mod` block_size c = 0 →
    Forall is_byte (snd (crypt c x)) ∧ lenZ (snd (crypt c x)) = lenZ x
    ∧ block_size (fst (crypt c x)) = block_size c;
  crypt_nil c : crypt c [] = (c, []);
  (** Encrypting in several calls is encrypting at once. *)
  crypt_app c x y :
    lenZ x `mod` block_size c = 0 → lenZ y `mod` block_size c = 0 →
    crypt c (x ++ y)
    = (let '(c1, x') := crypt c x in let '(c2, y') := crypt c1 y in (c2, x' ++ y'));
  (** Decryption inverts encryption, and stays in step. *)
  crypt_sync_ok e d x :
    crypt_sync e d → Forall is_byte x → lenZ x `mod` block_size e = 0 →
    block_size d = block_size e
    ∧ snd (crypt d (snd (crypt e x))) = x
    ∧ crypt_sync (fst (crypt e x)) (fst (crypt d (snd (crypt e x))));
  mac_digest_ok m x : Forall is_byte (mac_digest m x) ∧ lenZ (mac_digest m x) = mac_size m;
  codec_ok z room x :
    Forall is_byte x → 0 <= room →
    Forall is_byte (snd (codec z room x)) ∧ lenZ (snd (codec z room x)) <= room;
  compress_sync_ok d i room room' x :
    compress_sync d i → Forall is_byte x → snd (codec d room x) ≠ [] → lenZ x <= room' →
    snd (codec i room' (snd (codec d room x))) = x
    ∧ compress_sync (fst (codec d room x)) (fst (codec i room' (snd (codec d room x))));
  (** Deflating needs little more room than the input has. *)
  deflate_fits d i room x :
    compress_sync d i → Forall is_byte x → 0 < lenZ x → lenZ x + lenZ x `div` 16 + 100 <= room →
    snd (codec d room x) ≠ [];
  random_generate_ok g n :
    0 <= n → Forall is_byte (snd (random_generate g n)) ∧ lenZ (snd (random_generate g n)) = n;
}.

(** A MAC in the course of a computation: what it has been fed. *)
Record mac_instance `{Crypto} := mk_mac {
  mi_key : mac_key;
  mi_fed : list Z;
}.

Section objects.
Context `{Crypto}.

Definition MAC_UPDATE (m : mac_instance) (data : list Z) : mac_instance :=
  mk_mac _ (mi_key m) (mi_fed m ++ data).

(** Writes the digest and starts afresh. *)
Definition MAC_DIGEST (m : mac_instance) (s : lsh_string) (pos : Z)
  : result (mac_instance * lsh_string) :=
  s ← lsh_string_write s pos (mac_size (mi_key m)) (mac_digest (mi_key m) (mi_fed m));
  Ok (mk_mac _ (mi_key m) [], s).

(** [CRYPT (c, length, s, pos, s, pos)]: in place. *)
Definition CRYPT (c : crypto_instance) (length : Z) (s : lsh_string) (pos : Z)
  : result (crypto_instance * lsh_string) :=
  _ ← ASSERT_ROOM s pos length;
  let '(c, out) := crypt c (slice pos length (ls_data s)) in
  s ← assert_nul (with_data s (splice pos out (ls_data s)));
  Ok (c, s).

(** [CODEC (z, output, 0, length, input)]: the length of the output, zero for
    an error or when there is no octet of [output] to spare ([do_zlib]). *)
Definition CODEC (z : compress_instance) (output : lsh_string) (input : list Z)
  : result (compress_instance * lsh_string * Z) :=
  _ ← c_assert (0 <? lenZ input);
  let '(z, out) := codec z (lsh_string_length output - 1) input in
  output ← lsh_string_write output 0 (lenZ out) out;
  Ok (z, output, lenZ out).

Definition lsh_string_write_random (g : rng) (s : lsh_string) (start length : Z)
  : result (rng * lsh_string) :=
  _ ← ASSERT_ROOM s start length;
  let '(g, out) := random_generate g length in
  s ← assert_nul (with_data s (splice start out (ls_data s)));
  Ok (g, s).

Context `{!CryptoOk}.

Lemma CRYPT_spec c length s pos :
  lsh_string_wf s → 0 <= pos → 0 <= length → pos + length <= ls_length s →
  length `mod` block_size c = 0 →
  ∃ s', CRYPT c length s pos = Ok (fst (crypt c (slice pos length (contents s))), s')
    ∧ lsh_string_wf s' ∧ ls_length s' = ls_length s
    ∧ contents s' = splice pos (snd (crypt c (slice pos length (contents s)))) (contents s).
Proof.
  intros Hwf Hp Hl Hroom Hmod. unfold CRYPT. rewrite ASSERT_ROOM_ok by lia. rewrite bind_ok_l.
  pose proof (lenZ_contents s Hwf) as Hc.
  assert (slice pos length (ls_data s) = slice pos length (contents s)) as ->
    by (unfold contents; rewrite slice_slice by lia; by rewrite Z.add_0_l).
  assert (lenZ (slice pos length (contents s)) = length) as Hls by (apply lenZ_slice; lia).
  destruct (crypt_ok c (slice pos length (contents s))) as (Hb & Hlen & _).
  { unfold slice. apply Forall_take, Forall_drop. by apply contents_bytes. }
  { by rewrite Hls. }
  destruct (crypt c (slice pos length (contents s))) as [c' out]. simpl in *.
  destruct (splice_wf s pos out) as [Hw Hcs]; [done | done | lia | done |].
  rewrite assert_nul_wf by done. simpl. eexists. by split_and!.
Qed.

Lemma MAC_DIGEST_spec m s pos :
  lsh_string_wf s → 0 <= pos → pos + mac_size (mi_key m) <= ls_length s →
  ∃ s', MAC_DIGEST m s pos = Ok (mk_mac _ (mi_key m) [], s')
    ∧ lsh_string_wf s' ∧ ls_length s' = ls_length s
    ∧ contents s' = splice pos (mac_digest (mi_key m) (mi_fed m)) (contents s).
Proof.
  intros Hwf Hp Hroom. unfold MAC_DIGEST. destruct (mac_digest_ok (mi_key m) (mi_fed m)) as [Hb Hl].
  pose proof (mac_size_ok (mi_key m)).
  destruct (lsh_string_write_spec s pos (mac_size (mi_key m)) (mac_digest (mi_key m) (mi_fed m)))
    as (s' & -> & Hw & Hls & Hc); [done | lia.. | done |].
  simpl. eexists. split_and!; [done | done | done |]. rewrite Hc. f_equal. rewrite <- Hl. apply slice_all.
Qed.

Lemma lsh_string_write_random_spec g s start length :
  lsh_string_wf s → 0 <= start → 0 <= length → start + length <= ls_length s →
  ∃ s' , lsh_string_write_random g s start length = Ok (fst (random_generate g length), s')
    ∧ lsh_string_wf s' ∧ ls_length s' = ls_length s
    ∧ contents s' = splice start (snd (random_generate g length)) (contents s).
Proof.
  intros Hwf Hs Hl Hroom. unfold lsh_string_write_random. rewrite ASSERT_ROOM_ok by lia. rewrite bind_ok_l.
  destruct (random_generate_ok g length Hl) as [Hb Hlen].
  destruct (random_generate g length) as [g' out]. simpl in *.
  destruct (splice_wf s start out) as [Hw Hc]; [done | done | lia | done |].
  rewrite assert_nul_wf by done. simpl. eexists. by split_and!.
Qed.

Lemma CODEC_spec z output input :
  lsh_string_wf output → 1 <= ls_length output → Forall is_byte input → 0 < lenZ input →
  let out := snd (codec z (ls_length output - 1) input) in
  ∃ s', CODEC z output input = Ok (fst (codec z (ls_length output - 1) input), s', lenZ out)
    ∧ lsh_string_wf s' ∧ ls_length s' = ls_length output
    ∧ contents s' = splice 0 out (contents output) ∧ Forall is_byte out ∧ lenZ out < ls_length output.
Proof.
  intros Hwf Hl Hb Hn. unfold CODEC, lsh_string_length. pass_assert. cbv zeta.
  destruct (codec_ok z (ls_length output - 1) input Hb) as [Hob Hol]; [lia |].
  destruct (codec z (ls_length output - 1) input) as [z' out]. simpl in *. pose proof (lenZ_nonneg out).
  destruct (lsh_string_write_spec output 0 (lenZ out) out) as (s' & -> & Hw & Hls & Hc);
    [done | lia.. | done |].
  simpl. eexists. split_and!; [done | done | done | | done | lia]. by rewrite Hc, slice_all.
Qed.

End objects.

(** ** Reference instance *)

Definition shift_bytes (s : Z) (x : list Z) : list Z := (λ b, u8 (b + s)) <$> x.

Lemma shift_shift e d x :
  (e + d) `mod` 256 = 0 → Forall is_byte x → shift_bytes d (shift_bytes e x) = x.
Proof.
  intros Hs Hb. unfold shift_bytes. induction Hb as [| b x Hb _ IH]; [done |]. rewrite !fmap_cons.
  f_equal; [| exact IH]. unfold u8, is_byte in *. change (2 ^ 8) with 256.
  rewrite Z.add_mod_idemp_l by lia. replace (b + e + d) with (b + (e + d)) by lia.
  rewrite <- Z.add_mod_idemp_r by lia. rewrite Hs, Z.add_0_r. apply Z.mod_small. lia.
Qed.

Lemma shift_bytes_ok s x : Forall is_byte (shift_bytes s x) ∧ lenZ (shift_bytes s x) = lenZ x.
Proof.
  split; [| apply lenZ_fmap]. apply Forall_fmap, Forall_true. intros b. simpl. apply u8_range.
Qed.

#[export] Instance ref_crypto : Crypto := {
  crypto_instance := Z;
  block_size _ := 8;
  crypt s x := (s, shift_bytes s x);
  mac_key := Z;
  mac_size _ := 1;
  mac_digest k m := [u8 (k + foldr Z.add 0 m)];
  compress_instance := ();
  codec _ room x := ((), if lenZ x <=? room then x else []);
  rng := Z;
  random_generate g n := (g + 1, replicate (Z.to_nat n) (u8 g));
  crypt_sync e d := (e + d) `mod` 256 = 0;
  compress_sync _ _ := True;
}.

#[export] Instance ref_crypto_ok : CryptoOk.
Proof.
  split; simpl.
  - by left.
  - unfold SSH_MAX_MAC_SIZE. lia.
  - intros s x Hb _. by destruct (shift_bytes_ok s x).
  - done.
  - intros s x y _ _. unfold shift_bytes. by rewrite fmap_app.
  - intros e d x Hs Hb _. by rewrite shift_shift.
  - intros k m. split; [repeat constructor; apply u8_range | done].
  - intros _ room x Hb Hr. case_bool; [split; [done | lia] | done].
  - intros _ _ room room' x _ Hb. destruct (lenZ x <=? room); [| done].
    intros _ Hl. by rewrite (proj2 (Z.leb_le _ _)) by lia.
  - intros _ _ room x _ _ Hl Hr. pose proof (Z.div_pos (lenZ x) 16).
    rewrite (proj2 (Z.leb_le _ _)) by lia. by destruct x.
  - intros g n Hn. split; [apply Forall_replicate, u8_range | rewrite lenZ_replicate; lia].
Qed.
