(* ===== verification/Hash.v ===== *)
(** * Hash objects ([src/src/crypto.c], with [lsh_string_write_hash])

    The hash functions themselves are Nettle's [struct nettle_hash]: a digest
    size and a function of the octets hashed so far, however they were
    presented. *)

From S2P Require Import Prelude LshString.
Local Open Scope Z_scope.

Class HashFunctions := {
  nettle_hash : Type;
  digest_size : nettle_hash → Z;
  hash_of : nettle_hash → list Z → list Z;
}.

Class HashFunctionsOk `{HashFunctions} : Prop := {
  (** MD5 has the smallest, SHA512 the largest digest. *)
  digest_size_ok h : 16 <= digest_size h <= 64;
  hash_of_ok h d : Forall is_byte (hash_of h d) ∧ lenZ (hash_of h d) = digest_size h;
}.

Section hash.
Context `{Malloc} `{HashFunctions}.

(** The context is what has been fed to it. *)
Record hash_instance := mk_hash {
  hi_type : nettle_hash;
  hi_fed : list Z;
}.

Definition HASH_SIZE (h : hash_instance) : Z := digest_size (hi_type h).

Definition make_hash (algorithm : nettle_hash) : hash_instance := mk_hash algorithm [].

(** The pointer stands for the octets from there on. *)
Definition hash_update (self : hash_instance) (length : Z) (data : list Z) : result hash_instance :=
  if lenZ data <? length then Fault OutOfBounds
  else Ok (mk_hash (hi_type self) (hi_fed self ++ slice 0 length data)).

(** [type->digest] also resets the context. *)
Definition lsh_string_write_hash (s : lsh_string) (start : Z) (self : hash_instance)
  : result (lsh_string * hash_instance) :=
  _ ← ASSERT_ROOM s start (HASH_SIZE self);
  s ← assert_nul (with_data s (splice start (hash_of (hi_type self) (hi_fed self)) (ls_data s)));
  Ok (s, mk_hash (hi_type self) []).

Definition hash_digest_string (self : hash_instance) : result (lsh_string * hash_instance) :=
  lsh_string_write_hash (lsh_string_alloc (HASH_SIZE self)) 0 self.

Definition hash_copy (self : hash_instance) : hash_instance := self.

Definition hash_string_l (a : nettle_hash) (length : Z) (data : list Z) : result lsh_string :=
  hash ← hash_update (make_hash a) length data;
  '(out, _) ← hash_digest_string hash;
  Ok out.

Context `{!MallocOk} `{!HashFunctionsOk}.

Lemma hash_update_spec h d :
  hash_update h (lenZ d) d = Ok (mk_hash (hi_type h) (hi_fed h ++ d)).
Proof. unfold hash_update. rewrite (proj2 (Z.ltb_ge _ _)) by lia. by rewrite slice_all. Qed.

(** [hash_update (h, STRING_LD (s))] *)
Lemma hash_update_string h s :
  lsh_string_wf s →
  hash_update h (lsh_string_length s) (lsh_string_data s) = Ok (mk_hash (hi_type h) (hi_fed h ++ contents s)).
Proof.
  intros Hwf. pose proof (wf_room s Hwf) as Hr. unfold hash_update, lsh_string_length, lsh_string_data.
  by rewrite (proj2 (Z.ltb_ge _ _)) by lia.
Qed.

Lemma hash_digest_string_spec h :
  ∃ s, hash_digest_string h = Ok (s, mk_hash (hi_type h) []) ∧ lsh_string_wf s
       ∧ ls_length s = HASH_SIZE h ∧ contents s = hash_of (hi_type h) (hi_fed h).
Proof.
  pose proof (digest_size_ok (hi_type h)) as Hd. destruct (hash_of_ok (hi_type h) (hi_fed h)) as [Hb Hl].
  assert (lsh_string_wf (lsh_string_alloc (HASH_SIZE h))) as Hw
    by (apply lsh_string_alloc_wf; unfold is_u32, HASH_SIZE; lia).
  unfold hash_digest_string, lsh_string_write_hash. rewrite ASSERT_ROOM_ok by (simpl; unfold HASH_SIZE; lia).
  rewrite bind_ok_l.
  destruct (splice_wf (lsh_string_alloc (HASH_SIZE h)) 0 (hash_of (hi_type h) (hi_fed h))) as [Hsw Hsc];
    [done | lia | simpl; unfold HASH_SIZE; lia | done |].
  rewrite assert_nul_wf by done. rewrite bind_ok_l. eexists. split_and!; [done | done | done |].
  rewrite Hsc. apply splice_whole. rewrite lenZ_contents by done. done.
Qed.

End hash.
#[global] Arguments hash_instance {_}.

(** ** Reference instance: octets of the length and a checksum *)

Definition ref_hash_of (d : list Z) : list Z :=
  (λ i : nat, u8 (Z.of_nat i + lenZ d + foldr Z.add 0 d)) <$> seq 0 16.

#[export] Instance ref_hash : HashFunctions := {
  nettle_hash := ();
  digest_size _ := 16;
  hash_of _ := ref_hash_of;
}.

#[export] Instance ref_hash_ok : HashFunctionsOk.
Proof.
  split; simpl; [lia |]. intros _ d. split; [| unfold ref_hash_of; by rewrite lenZ_fmap].
  apply Forall_fmap, Forall_true. intros i. apply u8_range.
Qed.

Definition ref_md : @nettle_hash ref_hash := ().
