(* ===== verification/KexKeys.v ===== *)
(** * Session keys ([src/src/keyexchange.c], from [kex_build_secret] on)

    After key exchange both ends know a shared secret, the exchange hash and
    the session identifier.  From these they derive the keys and initial
    vectors of both directions.  The algorithm objects ([crypto.h],
    [compress.h]) are an interface; the derivation itself is proved equal to
    the one of RFC 4253, section 7.2. *)

From S2P Require Import Prelude Ssh Nettle Atoms LshString Format FormatSpec Crypto Hash.
Local Open Scope Z_scope.

(** ** Algorithm objects *)

Inductive crypt_mode : Set := CRYPTO_ENCRYPT | CRYPTO_DECRYPT.

Class Algorithms `{Crypto} := {
  crypto_algorithm : Type;
  crypto_key_size : crypto_algorithm → Z;
  crypto_iv_size : crypto_algorithm → Z;
  (** Key and initial vector; null for a weak key. *)
  make_crypt : crypto_algorithm → crypt_mode → list Z → option (list Z) → option crypto_instance;
  mac_algorithm : Type;
  mac_key_size : mac_algorithm → Z;
  make_mac : mac_algorithm → Z → list Z → mac_key;
  compress_algorithm : Type;
  make_deflate : compress_algorithm → compress_instance;
  make_inflate : compress_algorithm → compress_instance;
  keyexchange_algorithm : Type;
}.

Class AlgorithmsOk `{Algorithms} : Prop := {
  crypto_key_size_ok a : is_u32 (crypto_key_size a);
  crypto_iv_size_ok a : is_u32 (crypto_iv_size a);
  mac_key_size_ok a : is_u32 (mac_key_size a);
  (** Both modes refuse the same keys, and decryption undoes encryption. *)
  make_crypt_ok a key iv :
    match make_crypt a CRYPTO_ENCRYPT key iv, make_crypt a CRYPTO_DECRYPT key iv with
    | Some e, Some d => crypt_sync e d
    | None, None => True
    | _, _ => False
    end;
  make_compress_ok a : compress_sync (make_deflate a) (make_inflate a);
}.

(** The objects the table of algorithms refers to. *)
Inductive algorithm `{Algorithms} : Type :=
  | AlgCrypto (a : crypto_algorithm)
  | AlgMac (a : mac_algorithm)
  | AlgCompress (a : compress_algorithm)
  | AlgKex (a : keyexchange_algorithm).

Definition KEX_ENCRYPTION_CLIENT_TO_SERVER := 0.
Definition KEX_ENCRYPTION_SERVER_TO_CLIENT := 1.
Definition KEX_MAC_CLIENT_TO_SERVER := 2.
Definition KEX_MAC_SERVER_TO_CLIENT := 3.
Definition KEX_COMPRESSION_CLIENT_TO_SERVER := 4.
Definition KEX_COMPRESSION_SERVER_TO_CLIENT := 5.
Definition KEX_PARAMETERS := 6.
Definition KEX_KEY_EXCHANGE := 6.
Definition KEX_LIST_LENGTH := 7.
Definition IV_TYPE (t : Z) : Z := t + 4.

(** Reference instance over the shift cipher. *)
#[export] Instance ref_algorithms : Algorithms := {
  crypto_algorithm := ();
  crypto_key_size _ := 1;
  crypto_iv_size _ := 1;
  make_crypt _ mode key _ :=
    Some (match mode with CRYPTO_ENCRYPT => hd 0 key | CRYPTO_DECRYPT => - hd 0 key end);
  mac_algorithm := ();
  mac_key_size _ := 2;
  make_mac _ _ key := foldr Z.add 0 key;
  compress_algorithm := ();
  make_deflate _ := ();
  make_inflate _ := ();
  keyexchange_algorithm := ();
}.

#[export] Instance ref_algorithms_ok : AlgorithmsOk.
Proof.
  split; try (intros; unfold is_u32; simpl; lia); simpl.
  intros _ key iv. by rewrite Z.add_opp_diag_r.
Qed.

Section model.
Context `{Malloc} `{NettleMacros} `{NettleBignum} `{AtomTable} `{Crypto} `{!Algorithms} `{HashFunctions}.

(** [CAST_SUBTYPE]: the null pointer has every type, a wrong class is
    fatal. *)
Definition cast_crypto (o : option algorithm) : result (option crypto_algorithm) :=
  match o with
  | None => Ok None
  | Some (AlgCrypto a) => Ok (Some a)
  | Some _ => c_fatal
  end.
Definition cast_mac (o : option algorithm) : result (option mac_algorithm) :=
  match o with
  | None => Ok None
  | Some (AlgMac a) => Ok (Some a)
  | Some _ => c_fatal
  end.
Definition cast_compress (o : option algorithm) : result (option compress_algorithm) :=
  match o with
  | None => Ok None
  | Some (AlgCompress a) => Ok (Some a)
  | Some _ => c_fatal
  end.

(** ** Deriving keys *)

Definition kex_build_secret (h : nettle_hash) (exchange_hash K : lsh_string) : result hash_instance :=
  s ← ssh_format_string "%fS%lS" [FStr K; FStr exchange_hash];
  hash_update (make_hash h) (lsh_string_length s) (lsh_string_data s).

Definition tags : list Z := cstr "CDEFAB".

(** [for (;;)]: key, hash, position and what is left when the loop ends. *)
Fixpoint make_key_loop (fuel : nat) (key_length : Z) (key : lsh_string) (hash : hash_instance)
  (digest : lsh_string) (pos left : Z) : result (lsh_string * hash_instance * Z * Z) :=
  match fuel with
  | O => Fault NonTermination
  | S fuel =>
      _ ← c_assert (u32 (pos + left) =? key_length);
      key ← lsh_string_write_string key pos digest;
      let pos := u32 (pos + HASH_SIZE hash) in
      let left := u32 (left - HASH_SIZE hash) in
      hash ← hash_update hash (HASH_SIZE hash) (lsh_string_data digest);
      if left <=? HASH_SIZE hash then Ok (key, hash, pos, left)
      else
        '(digest, _) ← hash_digest_string (hash_copy hash);
        make_key_loop fuel key_length key hash digest pos left
  end.

Definition kex_make_key (secret : hash_instance) (key_length type : Z) (session_id : lsh_string)
  : result lsh_string :=
  let key := lsh_string_alloc key_length in
  if negb (c_true key_length) then Ok key
  else
    let hash := hash_copy secret in
    tag ← rd tags type;
    hash ← hash_update hash 1 [tag];
    hash ← hash_update hash (lsh_string_length session_id) (lsh_string_data session_id);
    '(digest, hash) ← hash_digest_string hash;
    if key_length <=? HASH_SIZE hash then
      lsh_string_write key 0 key_length (lsh_string_data digest)
    else
      let hash := hash_copy secret in
      '(key, hash, pos, rest) ← make_key_loop (Z.to_nat key_length) key_length key hash digest 0 key_length;
      '(digest, _) ← hash_digest_string hash;
      lsh_string_write key pos rest (lsh_string_data digest).

(** Zero and a null pointer for a weak key. *)
Definition kex_make_crypt (mode : crypt_mode) (secret : hash_instance)
  (algorithms : list (option algorithm)) (type : Z) (session_id : lsh_string)
  : result (bool * option crypto_instance) :=
  o ← rd algorithms type;
  algorithm ← cast_crypto o;
  _ ← c_assert (lenZ algorithms =? KEX_LIST_LENGTH);
  match algorithm with
  | None => Ok (true, None)
  | Some a =>
      key ← kex_make_key secret (crypto_key_size a) type session_id;
      iv ← (if c_true (crypto_iv_size a) then
              iv ← kex_make_key secret (crypto_iv_size a) (IV_TYPE type) session_id;
              Ok (Some (contents iv))
            else Ok None);
      let c := make_crypt a mode (contents key) iv in
      Ok (bool_decide (is_Some c), c)
  end.

Definition kex_make_encrypt := kex_make_crypt CRYPTO_ENCRYPT.
Definition kex_make_decrypt := kex_make_crypt CRYPTO_DECRYPT.

Definition kex_make_mac (secret : hash_instance) (algorithms : list (option algorithm)) (type : Z)
  (session_id : lsh_string) : result (option mac_instance) :=
  o ← rd algorithms type;
  algorithm ← cast_mac o;
  _ ← c_assert (lenZ algorithms =? KEX_LIST_LENGTH);
  match algorithm with
  | None => Ok None
  | Some a =>
      key ← kex_make_key secret (mac_key_size a) type session_id;
      Ok (Some (mk_mac _ (make_mac a (mac_key_size a) (contents key)) []))
  end.

Definition kex_make_deflate (algorithms : list (option algorithm)) (type : Z)
  : result (option compress_instance) :=
  o ← rd algorithms type;
  algorithm ← cast_compress o;
  Ok (match algorithm with Some a => Some (make_deflate a) | None => None end).

Definition kex_make_inflate (algorithms : list (option algorithm)) (type : Z)
  : result (option compress_instance) :=
  o ← rd algorithms type;
  algorithm ← cast_compress o;
  Ok (match algorithm with Some a => Some (make_inflate a) | None => None end).

End model.

(** ** The derivation of RFC 4253 *)

Section spec.
Context `{HashFunctions}.

(** [K1 || K2 || ... || K_{n+1}], where [K_{i+1} = HASH (secret || K1 || ... || K_i)]. *)
Fixpoint key_blocks (h : nettle_hash) (secret k1 : list Z) (n : nat) : list Z :=
  match n with
  | O => k1
  | S n => key_blocks h secret k1 n ++ hash_of h (secret ++ key_blocks h secret k1 n)
  end.

(** The six keys and their letters. *)
Inductive key_purpose : Set :=
  | InitialIV (server_to_client : bool)
  | EncryptionKey (server_to_client : bool)
  | IntegrityKey (server_to_client : bool).

Definition rfc4253_letter (p : key_purpose) : string :=
  match p with
  | InitialIV false => "A" | InitialIV true => "B"
  | EncryptionKey false => "C" | EncryptionKey true => "D"
  | IntegrityKey false => "E" | IntegrityKey true => "F"
  end.

(** The first [length] octets of the key with letter [tag]. *)
Definition rfc4253_key (h : nettle_hash) (secret session_id : list Z) (tag length : Z) : list Z :=
  slice 0 length
    (key_blocks h secret (hash_of h (secret ++ [tag] ++ session_id)) (Z.to_nat (length `div` digest_size h))).

Context `{!HashFunctionsOk}.

Lemma lenZ_key_blocks h secret k1 n :
  lenZ k1 = digest_size h → lenZ (key_blocks h secret k1 n) = (Z.of_nat n + 1) * digest_size h.
Proof.
  intros Hk. induction n as [| n IH]; simpl; [lia |]. rewrite lenZ_app, IH.
  destruct (hash_of_ok h (secret ++ key_blocks h secret k1 n)) as [_ ->]. lia.
Qed.

Lemma key_blocks_prefix h secret k1 n m :
  (n <= m)%nat → key_blocks h secret k1 n `prefix_of` key_blocks h secret k1 m.
Proof.
  induction 1 as [| m _ IH]; [done |]. simpl. by apply prefix_app_r.
Qed.

Lemma slice_prefix {A} len (l k : list A) :
  l `prefix_of` k → 0 <= len <= lenZ l → slice 0 len k = slice 0 len l.
Proof. intros [t ->] Hl. apply slice_app_l; lia. Qed.

(** The number of blocks does not matter once there are enough. *)
Lemma rfc4253_key_blocks h secret sid tag length n :
  0 <= length <= (Z.of_nat n + 1) * digest_size h →
  rfc4253_key h secret sid tag length
  = slice 0 length (key_blocks h secret (hash_of h (secret ++ [tag] ++ sid)) n).
Proof.
  intros Hl. unfold rfc4253_key. set (k1 := hash_of h (secret ++ [tag] ++ sid)).
  pose proof (digest_size_ok h) as Hd.
  assert (lenZ k1 = digest_size h) as Hk by apply hash_of_ok.
  set (q := Z.to_nat (length `div` digest_size h)).
  assert (0 <= length <= (Z.of_nat q + 1) * digest_size h) as Hq.
  { unfold q. pose proof (Z.div_mod length (digest_size h) ltac:(lia)).
    pose proof (Z.mod_pos_bound length (digest_size h) ltac:(lia)).
    pose proof (Z.div_pos length (digest_size h) ltac:(lia) ltac:(lia)). nia. }
  destruct (Nat.le_ge_cases q n) as [Hle | Hle]; [symmetry |];
    (apply slice_prefix; [by apply key_blocks_prefix |]; rewrite lenZ_key_blocks by done; lia).
Qed.

End spec.

Section correctness.
Context `{MallocOk} `{NettleMacrosOk} `{NettleBignumOk} `{AtomTableOk} `{HashFunctionsOk}.

Lemma lsh_string_write_string_spec s pos d :
  lsh_string_wf s → lsh_string_wf d → 0 <= pos → pos + ls_length d <= ls_length s →
  ∃ s', lsh_string_write_string s pos d = Ok s' ∧ lsh_string_wf s' ∧ ls_length s' = ls_length s
        ∧ contents s' = splice pos (contents d) (contents s).
Proof.
  intros Hs Hd Hp Hr. destruct Hd as [[Hl1 Hl2] Hroom _ Hb].
  destruct (lsh_string_write_spec s pos (ls_length d) (ls_data d)) as (s' & Hw & Hws & Hls & Hc);
    [done | lia.. | done |].
  by exists s'.
Qed.

(** The state of the loop: [pos] octets of the key are in place, and the
    digest at hand continues them. *)
Record key_state (h : nettle_hash) (secret k1 : list Z) (i : nat) (key_length : Z) (key : lsh_string)
  (hash : hash_instance) (digest : lsh_string) (pos left : Z) : Prop := {
  ks_key : lsh_string_wf key;
  ks_length : ls_length key = key_length;
  ks_digest : lsh_string_wf digest;
  ks_digest_length : ls_length digest = digest_size h;
  ks_pos : pos = Z.of_nat i * digest_size h;
  ks_left : pos + left = key_length;
  ks_more : digest_size h < left;
  ks_hash : hash = mk_hash h (secret ++ slice 0 pos (contents key));
  ks_blocks : slice 0 pos (contents key) ++ contents digest = key_blocks h secret k1 i;
}.

Lemma make_key_loop_spec fuel h secret k1 i key_length key hash digest pos left :
  key_state h secret k1 i key_length key hash digest pos left → left <= Z.of_nat fuel →
  ∃ n key' pos' left',
    make_key_loop fuel key_length key hash digest pos left
    = Ok (key', mk_hash h (secret ++ key_blocks h secret k1 n), pos', left')
    ∧ lsh_string_wf key' ∧ ls_length key' = key_length ∧ pos' + left' = key_length
    ∧ 0 <= left' <= digest_size h ∧ 0 <= pos' ∧ slice 0 pos' (contents key') = key_blocks h secret k1 n.
Proof.
  revert i key hash digest pos left. induction fuel as [| fuel IH]; intros i key hash digest pos left
    [Hkw Hkl Hdw Hdl Hpos Hsum Hmore Hhash Hblk] Hfuel; pose proof (digest_size_ok h) as Hd; [lia |].
  pose proof (wf_length key Hkw) as Hu. rewrite Hkl in Hu. unfold is_u32 in Hu.
  assert (0 <= pos) as Hp0 by nia.
  pose proof (lenZ_contents digest Hdw) as Hdc. pose proof (lenZ_contents key Hkw) as Hkc.
  cbn [make_key_loop]. rewrite (u32_id (pos + left)) by (unfold is_u32; lia). pass_assert.
  destruct (lsh_string_write_string_spec key pos digest) as (key1 & -> & Hk1w & Hk1l & Hk1c); [done | done | lia | lia |].
  rewrite bind_ok_l. assert (HASH_SIZE hash = digest_size h) as Hs by by rewrite Hhash. rewrite Hs.
  rewrite !u32_id by (unfold is_u32; nia).
  assert (slice 0 (pos + digest_size h) (contents key1) = key_blocks h secret k1 i) as Hpre.
  { rewrite slice_split by nia. rewrite Hk1c, slice_splice_before by nia. rewrite <- Hblk. f_equal.
    rewrite <- Hdl, <- Hdc. rewrite Z.add_0_l. apply slice_splice_same; nia. }
  assert (slice 0 (digest_size h) (lsh_string_data digest) = contents digest) as Hsd by by rewrite <- Hdl.
  unfold hash_update. rewrite (proj2 (Z.ltb_ge _ _)) by (pose proof (wf_room digest Hdw); unfold lsh_string_data; lia).
  rewrite bind_ok_l, Hsd, Hhash. cbn [hi_type hi_fed]. rewrite <- app_assoc, Hblk.
  unfold HASH_SIZE at 1. cbn [hi_type].
  destruct (Z.leb_spec (left - digest_size h) (digest_size h)) as [Hend | Hgo].
  - exists i, key1, (pos + digest_size h), (left - digest_size h).
    split_and!; [done | done | lia.. | nia | done].
  - destruct (hash_digest_string_spec (mk_hash h (secret ++ key_blocks h secret k1 i))) as (d' & Hdig & Hd'w & Hd'l & Hd'c).
    unfold hash_copy. rewrite Hdig, bind_ok_l.
    apply (IH (S i)); [| lia]. split; try done; try lia.
    + by rewrite Hpre.
    + rewrite Hpre, Hd'c. done.
Qed.

(** The digest that completes the key. *)
Lemma last_block_spec h secret k1 n key pos rest :
  lenZ k1 = digest_size h → lsh_string_wf key → 0 <= pos → 0 <= rest <= digest_size h → pos + rest = ls_length key →
  slice 0 pos (contents key) = key_blocks h secret k1 n →
  ∃ key', ('(digest, _) ← hash_digest_string (mk_hash h (secret ++ key_blocks h secret k1 n));
           lsh_string_write key pos rest (lsh_string_data digest)) = Ok key'
    ∧ lsh_string_wf key' ∧ ls_length key' = ls_length key
    ∧ contents key' = slice 0 (ls_length key) (key_blocks h secret k1 (S n)).
Proof.
  intros Hk1 Hw Hpos Hrest Hsum Hpre. pose proof (digest_size_ok h) as Hd.
  destruct (hash_digest_string_spec (mk_hash h (secret ++ key_blocks h secret k1 n))) as (f & -> & Hfw & Hfl & Hfc).
  rewrite bind_ok_l. unfold HASH_SIZE in Hfl. cbn [hi_type hi_fed] in *. pose proof (wf_room f Hfw) as Hfroom.
  destruct (lsh_string_write_spec key pos rest (lsh_string_data f)) as (key' & -> & Hw' & Hkl' & Hc');
    [done | lia | lia | lia | unfold lsh_string_data; lia | apply wf_bytes, Hfw |].
  exists key'. split_and!; [done | done | done |].
  pose proof (lenZ_contents key Hw) as Hkc. pose proof (lenZ_key_blocks h secret k1 n Hk1) as Hbl.
  assert (lenZ (slice 0 pos (contents key)) = pos) as Hlp by (apply lenZ_slice; lia). rewrite Hpre in Hlp.
  cbn [key_blocks]. rewrite <- Hfc.
  assert (lenZ (slice 0 rest (lsh_string_data f)) = rest) as Hlr by (apply lenZ_slice; unfold lsh_string_data; lia).
  rewrite <- (slice_all (contents key')), lenZ_contents, Hkl', <- Hsum, !slice_split by done || lia.
  rewrite !Z.add_0_l. f_equal.
  - rewrite Hc', slice_splice_before, Hpre by lia. symmetry. apply slice_app_first. lia.
  - rewrite slice_app_r, Hlp, Z.sub_diag by lia. rewrite Hc'. rewrite <- Hlr at 1. rewrite slice_splice_same by lia.
    unfold contents. rewrite slice_slice; [done | lia..].
Qed.

(** The letters of RFC 4253 for the six purposes. *)
Lemma tags_rd type : 0 <= type < 6 → ∃ tag, rd tags type = Ok tag ∧ is_byte tag.
Proof.
  intros Ht. destruct (rd_ok tags type) as [tag Htag]; [done |]. exists tag. split; [done |].
  apply rd_lookup in Htag as [_ Htag]. eapply Forall_lookup_1; [apply (cstr_bytes "CDEFAB") | exact Htag].
Qed.

Lemma kex_make_key_spec h secret key_length type sid :
  is_u32 key_length → 0 <= type < 6 → lsh_string_wf sid →
  ∃ tag key, rd tags type = Ok tag ∧ kex_make_key (mk_hash h secret) key_length type sid = Ok key
    ∧ lsh_string_wf key ∧ ls_length key = key_length
    ∧ contents key = rfc4253_key h secret (contents sid) tag key_length.
Proof.
  intros Hl Ht Hsid. destruct (tags_rd type Ht) as (tag & Htag & _).
  pose proof (lsh_string_alloc_wf key_length Hl) as Hkw. pose proof (digest_size_ok h) as Hd.
  unfold is_u32 in Hl. exists tag.
  set (k1 := hash_of h (secret ++ [tag] ++ contents sid)).
  assert (lenZ k1 = digest_size h) as Hk1 by apply hash_of_ok.
  unfold kex_make_key. cbv zeta. destruct (c_true key_length) eqn:Hz; cbn [negb].
  2: { unfold c_true in Hz. assert (key_length = 0) as -> by lia. eexists. split_and!; [done | done | done | done |].
       done. }
  assert (0 < key_length) by (unfold c_true in Hz; lia).
  rewrite Htag, bind_ok_l. unfold hash_copy. rewrite (hash_update_spec _ [tag]), bind_ok_l.
  rewrite hash_update_string by done. rewrite bind_ok_l. cbn [hi_type hi_fed]. rewrite <- app_assoc.
  destruct (hash_digest_string_spec (mk_hash h (secret ++ [tag] ++ contents sid))) as (d & Hdig & Hdw & Hdl & Hdc).
  rewrite Hdig, bind_ok_l. unfold HASH_SIZE in *. cbn [hi_type hi_fed] in *. fold k1 in Hdc.
  pose proof (wf_room d Hdw) as Hdroom. pose proof (wf_bytes d Hdw) as Hdb.
  destruct (Z.leb_spec key_length (digest_size h)) as [Hone | Hmany].
  - destruct (lsh_string_write_spec (lsh_string_alloc key_length) 0 key_length (lsh_string_data d))
      as (key & -> & Hw & Hkl & Hc); [done | lia | lia | simpl; lia | unfold lsh_string_data; lia | done |].
    exists key. split_and!; [done | done | done | done |].
    rewrite (rfc4253_key_blocks _ _ _ _ _ 0) by lia. cbn [key_blocks]. fold k1. rewrite <- Hdc, Hc.
    unfold contents at 2. rewrite slice_slice by lia. cbn [Z.add].
    apply splice_whole. rewrite lenZ_contents by done. change (ls_length (lsh_string_alloc key_length)) with key_length. apply lenZ_slice; unfold lsh_string_data; lia.
  - destruct (make_key_loop_spec (Z.to_nat key_length) h secret k1 0 key_length (lsh_string_alloc key_length)
      (mk_hash h secret) d 0 key_length) as (n & key & pos & rest & Hloop & Hw & Hkl & Hsum & Hrest & Hpos & Hpre);
      [| lia |].
    { split; try done; try lia. by rewrite slice_0, app_nil_r. }
    rewrite Hloop, bind_ok_l.
    destruct (last_block_spec h secret k1 n key pos rest) as (key' & -> & Hw' & Hl' & Hc'); [done | done | lia.. | done |].
    exists key'. split_and!; [done | done | done | lia |].
    rewrite (rfc4253_key_blocks _ _ _ _ _ (S n)).
    + by rewrite Hc', Hkl.
    + assert (lenZ (slice 0 pos (contents key)) = pos) as Hlp by (apply lenZ_slice; rewrite ?lenZ_contents by done; lia).
      rewrite Hpre, lenZ_key_blocks in Hlp by done. lia.
Qed.

(** The secret part of all hashes: the shared secret as a string, then the
    exchange hash as it is. *)
Definition kex_secret (exchange_hash K : list Z) : list Z := be32 (lenZ K) ++ K ++ exchange_hash.

Lemma kex_build_secret_spec h exchange_hash K :
  lsh_string_wf exchange_hash → lsh_string_wf K → ls_length K + ls_length exchange_hash < 2 ^ 32 - 4 →
  kex_build_secret h exchange_hash K = Ok (mk_hash h (kex_secret (contents exchange_hash) (contents K))).
Proof.
  intros Hx HK Hl. pose proof (lenZ_contents K HK) as HlK. pose proof (lenZ_contents exchange_hash Hx) as Hlx.
  destruct (ssh_format_string_spec "%fS%lS" [FStr K; FStr exchange_hash]
    [PBytes (be32 (lenZ (contents K)) ++ contents K); PBytes (contents exchange_hash)]
    (kex_secret (contents exchange_hash) (contents K))) as (s & Hs & Hw & Hc & _).
  - unfold spec_format. cbn -[be32 contents]. by rewrite <- HlK, <- Hlx, !slice_all.
  - unfold kex_secret. cbn -[be32]. by rewrite app_nil_r, <- app_assoc.
  - constructor; [exact HK |]. constructor; [exact Hx | constructor].
  - unfold kex_secret. rewrite !lenZ_app, lenZ_be32. lia.
  - unfold kex_build_secret. rewrite Hs, bind_ok_l, hash_update_string, Hc by done. done.
Qed.

(** The type argument the code uses for each purpose. *)
Definition key_type (p : key_purpose) : Z :=
  match p with
  | InitialIV s2c => IV_TYPE (Z.lxor KEX_ENCRYPTION_CLIENT_TO_SERVER (c_int s2c))
  | EncryptionKey s2c => Z.lxor KEX_ENCRYPTION_CLIENT_TO_SERVER (c_int s2c)
  | IntegrityKey s2c => Z.lxor KEX_MAC_CLIENT_TO_SERVER (c_int s2c)
  end.

Lemma key_type_letter p :
  0 <= key_type p < 6 ∧ ∃ tag, cstr (rfc4253_letter p) = [tag] ∧ rd tags (key_type p) = Ok tag.
Proof. destruct p as [[] | [] | []]; (split; [vm_compute; by split | by eexists]). Qed.

(** C18: key derivation is that of RFC 4253: from the shared secret [K] and the
    exchange hash, [kex_build_secret] and [kex_make_key] compute, for each of
    the six purposes and every length, the first octets of
    [K1 || K2 || ...], with [K1 = HASH (K || H || letter || session id)] and
    [K_{i+1} = HASH (K || H || K1 || ... || K_i)].  The loop ends and its
    assertion holds. *)
Theorem kex_make_key_correct h exchange_hash K sid p length :
  lsh_string_wf exchange_hash → lsh_string_wf K → ls_length K + ls_length exchange_hash < 2 ^ 32 - 4 →
  lsh_string_wf sid → is_u32 length →
  ∃ secret tag key, kex_build_secret h exchange_hash K = Ok secret
    ∧ kex_make_key secret length (key_type p) sid = Ok key ∧ lsh_string_wf key
    ∧ cstr (rfc4253_letter p) = [tag]
    ∧ contents key = rfc4253_key h (be32 (ls_length K) ++ contents K ++ contents exchange_hash) (contents sid) tag length.
Proof.
  intros Hx HK Hl Hs Hlen. destruct (key_type_letter p) as (Ht & tag & Hc & Hrd).
  destruct (kex_make_key_spec h (kex_secret (contents exchange_hash) (contents K)) length (key_type p) sid Hlen Ht Hs)
    as (tag' & key & Hrd' & Hk & Hw & _ & Hkc).
  assert (tag' = tag) as -> by congruence.
  eexists _, tag, key. split_and!; [by apply kex_build_secret_spec | done | done | done |].
  rewrite Hkc. unfold kex_secret. by rewrite lenZ_contents.
Qed.

End correctness.

(** The encryption key from client to server, 40 octets from a hash with 16. *)
Lemma kex_make_key_correct_witness :
  let x := mk_lsh_string 2 [7; 8; 0] in
  let k := mk_lsh_string 1 [5; 0] in
  ∃ secret tag key, kex_build_secret ref_md x k = Ok secret
    ∧ kex_make_key secret 40 0 x = Ok key ∧ lsh_string_wf key ∧ [67] = [tag]
    ∧ contents key = rfc4253_key ref_md [0; 0; 0; 1; 5; 7; 8] [7; 8] tag 40.
Proof.
  intros x k. apply (kex_make_key_correct ref_md x k x (EncryptionKey false) 40).
  - split; [unfold is_u32; simpl; lia | reflexivity | reflexivity |].
    repeat (apply Forall_cons; split; [unfold is_byte; lia |]). constructor.
  - split; [unfold is_u32; simpl; lia | reflexivity | reflexivity |].
    repeat (apply Forall_cons; split; [unfold is_byte; lia |]). constructor.
  - reflexivity.
  - split; [unfold is_u32; simpl; lia | reflexivity | reflexivity |].
    repeat (apply Forall_cons; split; [unfold is_byte; lia |]). constructor.
  - unfold is_u32. lia.
Defined.
