(* ===== verification/Keyexchange.v ===== *)
(** * Negotiation of algorithms ([src/src/keyexchange.c], [keyexchange.h])

    Each end sends a [KEXINIT] message with lists of names; from its own and
    the peer's message each end selects the algorithms.  The second part of
    [keyexchange.c], the derivation of keys, is in [KexKeys]. *)

From S2P Require Import Prelude Ssh Nettle Atoms Alist LshString Format FormatSpec Parse Crypto KexKeys.
Local Open Scope Z_scope.

Inductive kex_state : Set :=
  | KEX_STATE_INIT
  | KEX_STATE_IGNORE
  | KEX_STATE_IN_PROGRESS
  | KEX_STATE_NEWKEYS.

#[global] Instance kex_state_eq_dec : EqDecision kex_state.
Proof. solve_decision. Defined.

(** An array of two, the client's entry first. *)
Record pair_of (A : Type) := mk_two { at_client : A; at_server : A }.
Arguments mk_two {A} _ _.
Arguments at_client {A} _.
Arguments at_server {A} _.

Definition entry {A} (a : pair_of A) (server : bool) : A :=
  if server then at_server a else at_client a.
Definition set_entry {A} (a : pair_of A) (server : bool) (x : A) : pair_of A :=
  if server then mk_two (at_client a) x else mk_two x (at_server a).

Record kexinit := mk_kexinit {
  kx_cookie : list Z;
  kx_kex_algorithms : list Z;
  kx_server_hostkey_algorithms : list Z;
  kx_parameters : list (list Z);
  kx_languages_client_to_server : list Z;
  kx_languages_server_to_client : list Z;
  kx_first_kex_packet_follows : Z;
  kx_first_kex_packet : option lsh_string;
}.

Section model.
Context `{Malloc} `{NettleMacros} `{NettleBignum} `{AtomTable} `{Crypto} `{!Algorithms}.

Record kexinit_state := mk_kexinit_state {
  ks_read_state : kex_state;
  ks_write_state : Z;
  ks_version : pair_of (option lsh_string);
  ks_kexinit : pair_of (option kexinit);
  ks_literal_kexinit : pair_of (option lsh_string);
  ks_hostkey_algorithm : Z;
  ks_algorithm_list : option (list (option algorithm));
}.

Definition init_kexinit_state : kexinit_state :=
  mk_kexinit_state KEX_STATE_INIT 0 (mk_two None None) (mk_two None None) (mk_two None None) 0 None.

Definition reset_kexinit_state (self : kexinit_state) : kexinit_state :=
  mk_kexinit_state KEX_STATE_INIT (ks_write_state self) (ks_version self)
    (mk_two None None) (mk_two None None) 0 None.

Definition set_read_state (self : kexinit_state) (s : kex_state) : kexinit_state :=
  mk_kexinit_state s (ks_write_state self) (ks_version self) (ks_kexinit self)
    (ks_literal_kexinit self) (ks_hostkey_algorithm self) (ks_algorithm_list self).
Definition set_write_state (self : kexinit_state) (s : Z) : kexinit_state :=
  mk_kexinit_state (ks_read_state self) s (ks_version self) (ks_kexinit self)
    (ks_literal_kexinit self) (ks_hostkey_algorithm self) (ks_algorithm_list self).
Definition set_kexinit (self : kexinit_state) (server : bool) (msg : kexinit) (literal : lsh_string)
  : kexinit_state :=
  mk_kexinit_state (ks_read_state self) (ks_write_state self) (ks_version self)
    (set_entry (ks_kexinit self) server (Some msg))
    (set_entry (ks_literal_kexinit self) server (Some literal))
    (ks_hostkey_algorithm self) (ks_algorithm_list self).
Definition set_version (self : kexinit_state) (server : bool) (v : lsh_string) : kexinit_state :=
  mk_kexinit_state (ks_read_state self) (ks_write_state self)
    (set_entry (ks_version self) server (Some v)) (ks_kexinit self)
    (ks_literal_kexinit self) (ks_hostkey_algorithm self) (ks_algorithm_list self).
Definition set_hostkey (self : kexinit_state) (a : Z) : kexinit_state :=
  mk_kexinit_state (ks_read_state self) (ks_write_state self) (ks_version self) (ks_kexinit self)
    (ks_literal_kexinit self) a (ks_algorithm_list self).
Definition set_algorithm_list (self : kexinit_state) (l : list (option algorithm)) : kexinit_state :=
  mk_kexinit_state (ks_read_state self) (ks_write_state self) (ks_version self) (ks_kexinit self)
    (ks_literal_kexinit self) (ks_hostkey_algorithm self) (Some l).

(** ** Messages *)

Definition format_newkeys : result lsh_string := ssh_format_string "%c" [FInt SSH_MSG_NEWKEYS].

Definition NLISTS : nat := 10.
Definition COOKIE_SIZE : Z := 16.
Definition KEXINIT_MAX_ALGORITMS : Z := 500.

Fixpoint parse_lists (n : nat) : parser (list (list Z)) :=
  match n with
  | O => mret []
  | S n => l ← parse_atom_list KEXINIT_MAX_ALGORITMS; ls ← parse_lists n; mret (l :: ls)
  end.

(** The fields after the ten lists. *)
Definition parse_kexinit_tail : parser Z :=
  follows ← parse_boolean;
  reserved ← parse_uint32;
  if c_true reserved then pfail else _ ← parse_eod; mret follows.

Definition parse_kexinit_fields : parser (list Z * (list (list Z) * Z)) :=
  msg_number ← parse_uint8;
  if negb (msg_number =? SSH_MSG_KEXINIT) then pfail
  else parse_then (parse_octets COOKIE_SIZE) (parse_then (parse_lists NLISTS) parse_kexinit_tail).

(** [first_kex_packet] is only used in messages to be sent. *)
Definition kexinit_of (cookie : list Z) (lists : list (list Z)) (follows : Z) : kexinit :=
  {| kx_cookie := cookie;
     kx_kex_algorithms := nth 0 lists [];
     kx_server_hostkey_algorithms := nth 1 lists [];
     kx_parameters := slice 2 KEX_PARAMETERS lists;
     kx_languages_client_to_server := nth 8 lists [];
     kx_languages_server_to_client := nth 9 lists [];
     kx_first_kex_packet_follows := follows;
     kx_first_kex_packet := None |}.

Definition parse_kexinit (length : Z) (packet : list Z) : result (option kexinit) :=
  '(_, r) ← parse_kexinit_fields (simple_buffer_init length packet);
  Ok (match r with
      | Some (cookie, (lists, follows)) => Some (kexinit_of cookie lists follows)
      | None => None
      end).

Definition kex_parameter (kex : kexinit) (i : Z) : result (list Z) := rd (kx_parameters kex) i.

Definition format_kexinit (kex : kexinit) : result lsh_string :=
  p0 ← kex_parameter kex KEX_ENCRYPTION_CLIENT_TO_SERVER;
  p1 ← kex_parameter kex KEX_ENCRYPTION_SERVER_TO_CLIENT;
  p2 ← kex_parameter kex KEX_MAC_CLIENT_TO_SERVER;
  p3 ← kex_parameter kex KEX_MAC_SERVER_TO_CLIENT;
  p4 ← kex_parameter kex KEX_COMPRESSION_CLIENT_TO_SERVER;
  p5 ← kex_parameter kex KEX_COMPRESSION_SERVER_TO_CLIENT;
  ssh_format_string "%c%ls%A%A%A%A%A%A%A%A%A%A%c%i"
    [FInt SSH_MSG_KEXINIT; FInt COOKIE_SIZE; FBytes (kx_cookie kex);
     FList (kx_kex_algorithms kex); FList (kx_server_hostkey_algorithms kex);
     FList p0; FList p1; FList p2; FList p3; FList p4; FList p5;
     FList (kx_languages_client_to_server kex); FList (kx_languages_server_to_client kex);
     FInt (kx_first_kex_packet_follows kex); FInt 0].

(** ** Selection *)

(** Zero stands for no algorithm. *)
Fixpoint select_algorithm (client_list server_list : list Z) : Z :=
  match client_list with
  | [] => 0
  | a :: client_list =>
      if a =? 0 then select_algorithm client_list server_list
      else if int_list_member server_list a then a
      else select_algorithm client_list server_list
  end.

(** The loop over the six parameters; [None] when one has no common
    algorithm. *)
Fixpoint select_parameters (n : nat) (i : Z) (client server : kexinit) : result (option (list Z)) :=
  match n with
  | O => Ok (Some [])
  | S n =>
      c ← kex_parameter client i;
      s ← kex_parameter server i;
      let a := select_algorithm c s in
      if a =? 0 then Ok None
      else
        r ← select_parameters n (i + 1) client server;
        Ok (match r with Some l => Some (a :: l) | None => None end)
  end.

(** [LIST (algorithm_list)[i] = ALIST_GET (algorithms, parameter[i])] *)
Fixpoint get_algorithms (algorithms : alist algorithm) (atoms : list Z)
  : result (list (option algorithm)) :=
  match atoms with
  | [] => Ok []
  | a :: atoms =>
      o ← ALIST_GET algorithms a;
      os ← get_algorithms algorithms atoms;
      Ok (o :: os)
  end.

(** From both messages on.  An error message, or null. *)
Definition select_algorithms (self : kexinit_state) (msg client server : kexinit)
  (algorithms : alist algorithm) : result (kexinit_state * option string) :=
  c0 ← rd (kx_kex_algorithms client) 0;
  s0 ← rd (kx_kex_algorithms server) 0;
  let guess := c0 =? s0 in
  let self :=
    if negb guess && c_true (kx_first_kex_packet_follows msg)
    then set_read_state self KEX_STATE_IGNORE else self in
  let kex_algorithm_atom :=
    if guess then c0 else select_algorithm (kx_kex_algorithms client) (kx_kex_algorithms server) in
  if negb guess && negb (c_true kex_algorithm_atom) then Ok (self, Some "No common key exchange method")
  else
    let self := set_hostkey self
      (select_algorithm (kx_server_hostkey_algorithms client) (kx_server_hostkey_algorithms server)) in
    if negb (c_true (ks_hostkey_algorithm self)) then Ok (self, Some "No common hostkey algorithm")
    else
      r ← select_parameters (Z.to_nat KEX_PARAMETERS) 0 client server;
      match r with
      | None => Ok (self, Some "Algorithm negotiation failed")
      | Some parameter =>
          l ← get_algorithms algorithms (parameter ++ [kex_algorithm_atom]);
          Ok (set_algorithm_list self l, None)
      end.

Definition handle_kexinit (self : kexinit_state) (length : Z) (packet : list Z)
  (algorithms : alist algorithm) (is_server : bool) : result (kexinit_state * option string) :=
  _ ← c_assert (bool_decide (ks_read_state self = KEX_STATE_INIT));
  let self := set_read_state self KEX_STATE_IN_PROGRESS in
  msg ← parse_kexinit length packet;
  match msg with
  | None => Ok (self, Some "Invalid KEXINIT message")
  | Some msg =>
      if negb (c_true (lenZ (kx_kex_algorithms msg))) then Ok (self, Some "No keyexchange method")
      else
        literal ← ssh_format_string "%ls" [FInt length; FBytes packet];
        let self := set_kexinit self (negb is_server) msg literal in
        match entry (ks_kexinit self) is_server, at_client (ks_kexinit self), at_server (ks_kexinit self) with
        | Some _, Some client, Some server => select_algorithms self msg client server algorithms
        | _, _, _ => Fault AssertFailed
        end
  end.

(** ** Our own message *)

Record kexinit_info := mk_kexinit_info {
  ki_kex_algorithms : list Z;
  ki_hostkey_algorithms : list Z;
  ki_crypto_algorithms : list Z;
  ki_mac_algorithms : list Z;
  ki_compression_algorithms : list Z;
  ki_languages : list Z;
}.

Definition make_kexinit (g : rng) (self : kexinit_info) : rng * kexinit :=
  let '(g, cookie) := random_generate g COOKIE_SIZE in
  (g,
   {| kx_cookie := cookie;
      kx_kex_algorithms := ki_kex_algorithms self;
      kx_server_hostkey_algorithms := ki_hostkey_algorithms self;
      kx_parameters :=
        [ki_crypto_algorithms self; ki_crypto_algorithms self;
         ki_mac_algorithms self; ki_mac_algorithms self;
         ki_compression_algorithms self; ki_compression_algorithms self];
      kx_languages_client_to_server := ki_languages self;
      kx_languages_server_to_client := ki_languages self;
      kx_first_kex_packet_follows := 0;
      kx_first_kex_packet := None |}).

End model.
