(* ===== verification/KexSpec.v ===== *)
(** * Negotiation is that of RFC 4253, section 7.1

    The octets of [KEXINIT] messages, and the selection of algorithms as a
    function of the lists of names that both ends propose. *)

From S2P Require Import Prelude Ssh Nettle Atoms Alist LshString Format FormatSpec Wire Parse ParseSpec ParseAtoms RoundTrip Crypto KexKeys Keyexchange.
Local Open Scope Z_scope.

(** ** Messages *)

(** The ten name-lists are kept as octets. *)
Record proposal := mk_proposal {
  p_cookie : list Z;
  p_lists : list (list Z);
  p_follows : Z;
}.

Definition encode_kexinit (p : proposal) : list Z :=
  SSH_MSG_KEXINIT :: p_cookie p ++ concat (wire_string <$> p_lists p) ++ [p_follows p] ++ be32 0.

(** The names in a name-list. *)
Definition names_of (d : list Z) : list (list Z) := if bool_decide (d = []) then [] else split_commas d.

(** The limits [parse_kexinit] imposes on a list. *)
Definition name_list_ok (d : list Z) : Prop :=
  Forall is_byte d ∧ is_u32 (lenZ d)
  ∧ lenZ (names_of d) <= KEXINIT_MAX_ALGORITMS ∧ Forall (λ n, lenZ n <= 64) (names_of d).

Record proposal_ok (p : proposal) : Prop := {
  po_cookie : Forall is_byte (p_cookie p) ∧ lenZ (p_cookie p) = COOKIE_SIZE;
  po_lists : length (p_lists p) = NLISTS ∧ Forall name_list_ok (p_lists p);
  po_follows : is_byte (p_follows p);
}.

Section parsing.
Context `{MallocOk} `{NettleMacrosOk} `{NettleBignumOk} `{AtomTableOk} `{Crypto} `{!Algorithms}.

Definition atoms_of (d : list Z) : list Z := atom_of <$> names_of d.

Definition kexinit_of_proposal (p : proposal) : kexinit :=
  kexinit_of (p_cookie p) (atoms_of <$> p_lists p) (p_follows p).

Lemma atoms_spec_names d l :
  atoms_spec KEXINIT_MAX_ALGORITMS d = Some l ↔
  (lenZ (names_of d) <= KEXINIT_MAX_ALGORITMS ∧ Forall (λ n, lenZ n <= 64) (names_of d)) ∧ l = atoms_of d.
Proof.
  unfold atoms_spec, atoms_of, names_of. case_bool_decide as Hd.
  { subst d. unfold KEXINIT_MAX_ALGORITMS. split; [| naive_solver].
    intros [= <-]. split; [split; [len_lia | constructor] | done]. }
  destruct (Z.ltb_spec KEXINIT_MAX_ALGORITMS (lenZ (split_commas d))) as [Hl | Hl]; [naive_solver lia |].
  destruct (forallb _ _) eqn:Hf.
  - rewrite forallb_forall in Hf. split; [| naive_solver].
    intros [= <-]. split_and!; [done | | done]. apply Forall_forall. intros n Hn.
    apply list_elem_of_In, Hf in Hn. lia.
  - split; [done |]. intros [[_ Hall] _]. exfalso.
    apply Bool.not_true_iff_false in Hf. apply Hf, forallb_forall. intros n Hn.
    apply list_elem_of_In in Hn. rewrite Forall_forall in Hall. apply Hall in Hn. lia.
Qed.

(** One list: what is accepted are the lists within the limits. *)
Definition denotes_list (l : list Z) (e : list Z) : Prop :=
  ∃ d, name_list_ok d ∧ l = atoms_of d ∧ e = wire_string d.

#[local] Instance parse_atom_list_denotes : Denotes (parse_atom_list KEXINIT_MAX_ALGORITMS) denotes_list.
Proof.
  intros b Hwf. destruct (parse_atom_list_spec KEXINIT_MAX_ALGORITMS b Hwf ltac:(done)) as [Hread (b' & r & Hp & Hw)].
  exists b', r. split_and!; [done | done | |].
  - intros l ->. pose proof Hp as Hp'. unfold parse_atom_list, parse_sub_buffer in Hp'.
    destruct (codec_exact (p := parse_string) b Hwf) as (b1 & r1 & Hs & Hw1 & _ & Hv).
    rewrite Hs in Hp'. destruct r1 as [d |]; [| discriminate Hp'].
    destruct (Hv d eq_refl) as [[Hb Hd] Hrem].
    destruct (Hread d (remaining b1) Hb Hd) as (b2 & Hp2 & _ & Hr2); [by rewrite Hrem, <- app_assoc |].
    rewrite Hp2 in Hp. injection Hp as -> Hl. apply atoms_spec_names in Hl as [[? ?] ->].
    exists (wire_string d). split; [by exists d |]. by rewrite Hr2.
  - intros l e tl (d & (Hb & Hd & Hlen & Hn) & -> & ->) Hr. unfold wire_string in Hr. rewrite <- app_assoc in Hr.
    destruct (Hread d tl Hb Hd Hr) as (b2 & Hp2 & _ & Hr2). rewrite Hp in Hp2. injection Hp2 as -> ->.
    split; [| done]. by apply atoms_spec_names.
Qed.

Definition denotes_lists (n : nat) (ls : list (list Z)) (e : list Z) : Prop :=
  ∃ ds, length ds = n ∧ Forall name_list_ok ds ∧ ls = atoms_of <$> ds ∧ e = concat (wire_string <$> ds).

#[local] Instance parse_lists_denotes n : Denotes (parse_lists n) (denotes_lists n).
Proof.
  induction n as [| n IH].
  - intros b Hwf. exists b, (Some []). split_and!; [done | done | |].
    + intros ls [= <-]. exists []. split; [by exists [] | done].
    + intros ls e tl ([| d ds] & ? & _ & -> & ->) Hr; by simplify_eq.
  - apply (denotes_fmap (parse_then (parse_atom_list KEXINIT_MAX_ALGORITMS) (parse_lists n)) _
      (λ v, v.1 :: v.2) (rel_then denotes_list (denotes_lists n))); [apply _ | |].
    + intros b. cbn [parse_lists]. unfold parse_then, mbind, parser_bind.
      destruct (parse_atom_list _ b) as [[b1 [l |]] |]; [| done..]. simpl.
      by destruct (parse_lists n b1) as [[b2 [ls |]] |].
    + intros ls e. split.
      * intros ([| d ds] & Hlen & Hok & -> & ->); [done |]. apply Forall_cons in Hok as [Hd Hok].
        exists (atoms_of d, atoms_of <$> ds). split; [done |].
        exists (wire_string d), (concat (wire_string <$> ds)). split_and!; [done | by exists d |].
        exists ds. split_and!; [by injection Hlen | done | done | done].
      * intros ([l ls'] & -> & e1 & e2 & -> & (d & Hd & Hl & ->) & (ds & Hlen & Hok & Hls & ->)). cbn [fst snd] in *.
        subst l ls'. exists (d :: ds). split_and!; [simpl; by rewrite Hlen | by constructor | done | done].
Qed.

#[local] Instance parse_kexinit_tail_denotes :
  DenotesWhole parse_kexinit_tail (λ f e, is_byte f ∧ e = [f] ++ be32 0).
Proof.
  intros b Hwf. unfold parse_kexinit_tail, mbind, parser_bind.
  destruct (denotes (p := parse_boolean) b Hwf) as (b1 & r1 & -> & Hw1 & Hex1 & Hrd1). rewrite bind_ok_l.
  destruct r1 as [f |].
  2: { exists b1, None. split_and!; [done | done |]. intros f. split; [done |]. intros [Hf Hr].
       by destruct (Hrd1 f [f] _ (conj Hf eq_refl) Hr). }
  destruct (Hex1 f eq_refl) as (e1 & [Hf ->] & Hr1).
  destruct (denotes (p := parse_uint32) b1 Hw1) as (b2 & r2 & -> & Hw2 & Hex2 & Hrd2). rewrite bind_ok_l.
  assert (∀ f', is_byte f' ∧ remaining b = [f'] ++ be32 0 → f' = f ∧ r2 = Some 0 ∧ remaining b2 = []) as Hall.
  { intros f' [Hf' Hr]. destruct (Hrd1 f' [f'] _ (conj Hf' eq_refl) Hr) as [[= ->] Hb1].
    destruct (Hrd2 0 (be32 0) []) as [-> ?]; [by split; [unfold is_u32; lia |] | by rewrite app_nil_r | done]. }
  destruct r2 as [reserved |].
  2: { exists b2, None. split_and!; [done | done |]. intros f'. split; [done |]. intros Hx. by destruct (Hall f' Hx) as (_ & ? & _). }
  destruct (Hex2 reserved eq_refl) as (e2 & [_ ->] & Hr2).
  destruct (c_true reserved) eqn:Hz.
  { exists b2, None. split_and!; [done | done |]. intros f'. split; [done |]. intros Hx.
    destruct (Hall f' Hx) as (_ & [= ->] & _). done. }
  rewrite parse_eod_spec, bind_ok_l by done. unfold c_true in Hz. assert (reserved = 0) as -> by lia.
  case_bool_decide as Hnil.
  - exists b2, (Some f). split_and!; [done | done |]. intros f'. split; [| intros Hx; by destruct (Hall f' Hx) as (-> & _)].
    intros [= <-]. split; [done |]. by rewrite Hr1, Hr2, Hnil, app_nil_r.
  - exists b2, None. split_and!; [done | done |]. intros f'. split; [done |]. intros Hx. by destruct (Hall f' Hx) as (_ & _ & ?).
Qed.

(** Every packet is parsed without a fault, and what is accepted are the
    messages within the limits. *)
Lemma parse_kexinit_spec packet :
  Forall is_byte packet → lenZ packet < 2 ^ 32 →
  ∃ r, parse_kexinit (lenZ packet) packet = Ok r
    ∧ ∀ k, r = Some k ↔ ∃ p, proposal_ok p ∧ packet = encode_kexinit p ∧ k = kexinit_of_proposal p.
Proof.
  intros Hb Hl. destruct (init_wf packet Hb Hl) as [Hwf Hrem]. unfold parse_kexinit, parse_kexinit_fields.
  destruct (denotes (p := parse_uint8) _ Hwf) as (b1 & r1 & Hp1 & Hw1 & Hex1 & Hrd1). rewrite Hrem in *.
  unfold mbind at 2, parser_bind. rewrite Hp1, !bind_ok_l.
  assert (∀ p, packet = encode_kexinit p → r1 = Some SSH_MSG_KEXINIT ∧ packet = [SSH_MSG_KEXINIT] ++ remaining b1) as Hhd.
  { intros p Hp. destruct (Hrd1 SSH_MSG_KEXINIT [SSH_MSG_KEXINIT] (tl packet)) as [-> ->]; by subst. }
  destruct r1 as [msg |].
  2: { exists None. split; [done |]. intros k. split; [done |]. intros (p & _ & Hp & _). by destruct (Hhd p Hp). }
  destruct (Hex1 msg eq_refl) as (e & [_ ->] & Hpk).
  destruct (Z.eqb_spec msg SSH_MSG_KEXINIT) as [-> | Hne]; cbn [negb].
  2: { exists None. split; [done |]. intros k. split; [done |]. intros (p & _ & Hp & _). destruct (Hhd p Hp). congruence. }
  pose proof (octets_codec COOKIE_SIZE ltac:(done)) as Hoct.
  destruct (denotes_whole (p := parse_then (parse_octets COOKIE_SIZE) (parse_then (parse_lists NLISTS) parse_kexinit_tail))
    b1 Hw1) as (b2 & r2 & -> & _ & Hv). rewrite bind_ok_l. eexists. split; [done |].
  intros k. split.
  - intros Hk. destruct r2 as [[cookie [lists follows]] |]; [| done]. injection Hk as <-.
    destruct (proj1 (Hv _) eq_refl) as (e1 & e2 & Hr & [[Hcb Hcl] ->] & e3 & e4 & -> & (ds & Hlen & Hok & Hls & ->) & Hf & ->).
    cbn [fst snd] in *. subst lists. exists (mk_proposal cookie ds follows).
    split_and!; [by split | | done]. rewrite Hpk, Hr. done.
  - intros (p & [[Hcb Hcl] [Hlen Hok] Hf] & Hp & ->). destruct (Hhd p Hp) as [_ Hpk'].
    unfold encode_kexinit in Hp. rewrite Hpk' in Hp. injection Hp as Hr.
    rewrite (proj2 (Hv (p_cookie p, (atoms_of <$> p_lists p, p_follows p)))); [done |].
    exists (p_cookie p), (concat (wire_string <$> p_lists p) ++ [p_follows p] ++ be32 0).
    split_and!; [done.. |]. exists (concat (wire_string <$> p_lists p)), ([p_follows p] ++ be32 0).
    split_and!; [done | | done | done]. by exists (p_lists p).
Qed.

End parsing.

(** ** Our own messages *)

Section formatting.
Context `{MallocOk} `{NettleMacrosOk} `{NettleBignumOk} `{AtomTableOk} `{Crypto} `{!Algorithms}.

Definition kx_lists (k : kexinit) : list (list Z) :=
  kx_kex_algorithms k :: kx_server_hostkey_algorithms k :: kx_parameters k
  ++ [kx_languages_client_to_server k; kx_languages_server_to_client k].

Definition atom_list_ok (l : list Z) : Prop := Forall valid_atom l ∧ lenZ l <= KEXINIT_MAX_ALGORITMS.

(** Messages we make: lists of known atoms. *)
Record kexinit_ok (k : kexinit) : Prop := {
  ko_cookie : Forall is_byte (kx_cookie k) ∧ lenZ (kx_cookie k) = COOKIE_SIZE;
  ko_parameters : length (kx_parameters k) = 6%nat;
  ko_lists : Forall atom_list_ok (kx_lists k);
  ko_follows : is_byte (kx_first_kex_packet_follows k);
}.

Definition atom_names (l : list Z) : list (list Z) := default [] (known_names l).

Definition proposal_of (k : kexinit) : proposal :=
  mk_proposal (kx_cookie k) ((join_commas ∘ atom_names) <$> kx_lists k) (kx_first_kex_packet_follows k).

Lemma atom_names_spec l :
  Forall valid_atom l →
  known_names l = Some (atom_names l) ∧ Forall atom_name_ok (atom_names l) ∧ atom_of <$> atom_names l = l.
Proof.
  intros Hl. destruct (known_names_valid l) as [names Hk].
  { eapply Forall_impl; [exact Hl |]. by right. }
  unfold atom_names. rewrite Hk. cbn [from_option id]. destruct (known_names_inv l names Hk) as [Hok Hmap].
  split_and!; [done | done |]. rewrite Hmap. clear -Hl. induction Hl as [| a l Ha _ IH]; [done |].
  rewrite filter_cons_True by (destruct Ha; lia). by f_equal.
Qed.

Lemma names_of_join names : Forall atom_name_ok names → names_of (join_commas names) = names.
Proof.
  intros Hok. unfold names_of. destruct names as [| n names]; [done |].
  rewrite bool_decide_eq_false_2.
  - apply split_join; [done |]. eapply Forall_impl; [exact Hok |]. by intros x (_ & Hx & _).
  - apply Forall_cons in Hok as [(_ & _ & Hn) _]. destruct n; [| done]. rewrite lenZ_nil in Hn. lia.
Qed.

Lemma own_list_ok l :
  atom_list_ok l →
  name_list_ok (join_commas (atom_names l)) ∧ names_of (join_commas (atom_names l)) = atom_names l
  ∧ atoms_of (join_commas (atom_names l)) = l ∧ lenZ (join_commas (atom_names l)) <= 32500.
Proof.
  intros [Hv Hlen]. destruct (atom_names_spec l Hv) as (Hk & Hok & Hmap).
  pose proof (names_of_join _ Hok) as Hn. pose proof (lenZ_join_bound _ Hok) as Hj.
  assert (lenZ (atom_names l) = lenZ l) as Hll by (rewrite <- (lenZ_fmap atom_of), Hmap; done).
  unfold KEXINIT_MAX_ALGORITMS in Hlen.
  split_and!; [split_and!; [by apply join_commas_bytes | len_lia | rewrite Hn, Hll; done | rewrite Hn] | done | | lia].
  - eapply Forall_impl; [exact Hok |]. intros x (_ & _ & Hx). lia.
  - unfold atoms_of. by rewrite Hn.
Qed.

Lemma proposal_of_ok k :
  kexinit_ok k → proposal_ok (proposal_of k) ∧ names_of <$> p_lists (proposal_of k) = atom_names <$> kx_lists k
    ∧ atoms_of <$> p_lists (proposal_of k) = kx_lists k.
Proof.
  intros [Hc Hp Hl Hf]. split_and!.
  - split; [done | | done]. split; [| apply Forall_fmap; eapply Forall_impl; [exact Hl |]; intros l Hok; by apply own_list_ok].
    cbn [proposal_of p_lists]. rewrite length_fmap. unfold kx_lists. cbn [length]. rewrite length_app, Hp. done.
  - cbn [proposal_of p_lists]. rewrite <- list_fmap_compose. apply list_fmap_ext. intros i l Hil.
    eapply Forall_lookup_1 in Hil; [| exact Hl]. by apply own_list_ok.
  - cbn [proposal_of p_lists]. rewrite <- list_fmap_compose. rewrite <- (list_fmap_id (kx_lists k)) at 2.
    apply list_fmap_ext. intros i l Hil. eapply Forall_lookup_1 in Hil; [| exact Hl]. by apply own_list_ok.
Qed.

(** What is read back: everything but the packet to follow. *)
Lemma kexinit_of_proposal_of k :
  kexinit_ok k → kx_first_kex_packet k = None → kexinit_of_proposal (proposal_of k) = k.
Proof.
  intros Hk Hn. destruct (proposal_of_ok k Hk) as (_ & _ & Ha). unfold kexinit_of_proposal. rewrite Ha.
  destruct Hk as [_ Hp _ _]. destruct k as [cookie kex hk params l1 l2 f first]. cbn in *. subst first.
  destruct params as [| p0 [| p1 [| p2 [| p3 [| p4 [| p5 [|]]]]]]]; try discriminate Hp. done.
Qed.

Lemma format_kexinit_spec k :
  kexinit_ok k → formats (format_kexinit k) (encode_kexinit (proposal_of k)).
Proof.
  intros [[Hcb Hcl] Hp Hl Hf]. unfold proposal_of, encode_kexinit, kx_lists in *.
  destruct k as [cookie kex hk params l1 l2 f first]. cbn in Hcb, Hcl, Hp, Hl, Hf.
  destruct params as [| p0 [| p1 [| p2 [| p3 [| p4 [| p5 [|]]]]]]]; try discriminate Hp. clear Hp.
  change (format_kexinit _) with (ssh_format_string "%c%ls%A%A%A%A%A%A%A%A%A%A%c%i"
    [FInt SSH_MSG_KEXINIT; FInt COOKIE_SIZE; FBytes cookie; FList kex; FList hk; FList p0; FList p1; FList p2;
     FList p3; FList p4; FList p5; FList l1; FList l2; FInt f; FInt 0]).
  cbn [kx_parameters kx_cookie kx_kex_algorithms kx_server_hostkey_algorithms kx_languages_client_to_server
    kx_languages_server_to_client kx_first_kex_packet_follows p_cookie p_lists p_follows app].
  repeat (rewrite fmap_cons). cbn [concat fmap list_fmap compose].
  cbn [app] in Hl. repeat match goal with Hx : Forall atom_list_ok (_ :: _) |- _ =>
    let Hy := fresh "Hok" in let Hz := fresh "Hkn" in let Hb := fresh "Hbd" in
    apply Forall_cons in Hx as [Hy Hx]; pose proof (proj1 (atom_names_spec _ (proj1 Hy))) as Hz;
    destruct (own_list_ok _ Hy) as (_ & _ & _ & Hb) end.
  eapply formats_spec.
  - unfold spec_format. cbn -[be32 u32 u8 known_names join_commas].
    change (u32 COOKIE_SIZE) with COOKIE_SIZE. rewrite Hcl, Z.ltb_irrefl.
    cbn -[be32 u32 u8 known_names join_commas].
    repeat (match goal with Hz : known_names ?l = Some _ |- context [known_names ?l] => rewrite Hz end;
            cbn -[be32 u32 u8 known_names join_commas]).
    reflexivity.
  - cbn -[be32 u32 u8 known_names join_commas COOKIE_SIZE]. unfold with_header. cbn [literal].
    rewrite <- Hcl, slice_all, (u8_id f), (u32_id 0) by done. change (u8 SSH_MSG_KEXINIT) with SSH_MSG_KEXINIT.
    unfold wire_string. rewrite app_nil_r. f_equal. cbn [app]. f_equal. f_equal. by rewrite <- !app_assoc.
  - repeat constructor; done.
  - unfold wire_string. rewrite lenZ_cons, !lenZ_app, Hcl, !lenZ_be32. unfold COOKIE_SIZE.
    change (lenZ (f :: be32 0)) with 5. rewrite lenZ_nil. lia.
Qed.

End formatting.

(** ** Selection by name *)

(** The first name of the client's list that is on the server's list. *)
Fixpoint choose (client server : list (list Z)) : option (list Z) :=
  match client with
  | [] => None
  | n :: client => if bool_decide (n ∈ server) then Some n else choose client server
  end.

(** From the ten lists of names of each end: the key exchange method, the
    host key algorithm and the six parameters. *)
Definition negotiate (client server : list (list (list Z)))
  : string + list Z * list Z * list (list Z) :=
  match choose (nth 0 client []) (nth 0 server []) with
  | None => inl "No common key exchange method"
  | Some kex =>
      match choose (nth 1 client []) (nth 1 server []) with
      | None => inl "No common hostkey algorithm"
      | Some hostkey =>
          match mapM (λ i, choose (nth i client []) (nth i server [])) (seq 2 6) with
          | None => inl "Algorithm negotiation failed"
          | Some parameters => inr (kex, hostkey, parameters)
          end
      end
  end.

Lemma choose_elem c s n : choose c s = Some n → n ∈ c ∧ n ∈ s.
Proof.
  induction c as [| m c IH]; simpl; [done |]. case_bool_decide as Hm.
  - intros [= <-]. split; [constructor | done].
  - intros Hn. destruct (IH Hn). split; [by constructor | done].
Qed.

Section selection.
Context `{MallocOk} `{NettleMacrosOk} `{NettleBignumOk} `{AtomTableOk} `{Crypto} `{!Algorithms}.

(** All names of the list are known. *)
Definition all_known (l : list (list Z)) : Prop := Forall (λ n, valid_atom (atom_of n)) l.

Definition choice_atom (o : option (list Z)) : Z := match o with Some n => atom_of n | None => 0 end.

Lemma valid_atom_nonzero a : valid_atom a → a ≠ 0.
Proof. unfold valid_atom. lia. Qed.

(** Different known names have different atoms. *)
Lemma atom_of_inj n m : atom_of n ≠ 0 → atom_of n = atom_of m → n = m.
Proof.
  unfold atom_of. destruct (Z.eqb_spec (lenZ n) 0), (Z.eqb_spec (lenZ m) 0); try congruence.
  intros Hn Heq. assert (lookup_atom m ≠ 0) as Hm by congruence.
  destruct (lookup_atom_inv n Hn) as [_ Hgn], (lookup_atom_inv m Hm) as [_ Hgm]. congruence.
Qed.

Lemma atom_in_names n (s : list (list Z)) : atom_of n ≠ 0 → atom_of n ∈ atom_of <$> s ↔ n ∈ s.
Proof.
  intros Hn. rewrite list_elem_of_fmap. split.
  - intros (m & Heq & Hm). by rewrite (atom_of_inj n m Hn Heq).
  - eauto.
Qed.

Lemma select_algorithm_names (c s : list (list Z)) :
  all_known c ∨ all_known s → select_algorithm (atom_of <$> c) (atom_of <$> s) = choice_atom (choose c s).
Proof.
  induction c as [| n c IH]; intros Hk; [done |]. rewrite fmap_cons. cbn [select_algorithm choose].
  assert (all_known c ∨ all_known s) as Hk'.
  { destruct Hk as [Hc | Hs]; [left | by right]. by apply Forall_cons in Hc as [_ Hc]. }
  destruct (Z.eqb_spec (atom_of n) 0) as [Hz | Hz].
  - assert (n ∉ s) as Hn.
    { intros Hin. destruct Hk as [Hc | Hs].
      - apply Forall_cons in Hc as [Hc _]. by apply valid_atom_nonzero in Hc.
      - unfold all_known in Hs. rewrite Forall_forall in Hs. apply Hs, valid_atom_nonzero in Hin. done. }
    rewrite bool_decide_eq_false_2 by done. by apply IH.
  - rewrite int_list_member_spec, (bool_decide_ext _ _ (atom_in_names n s Hz)).
    case_bool_decide; [done | by apply IH].
Qed.

(** The atoms of the proposals at one index. *)
Definition atoms_at (names : list (list (list Z))) (i : nat) : list Z := atom_of <$> nth i names [].

Lemma select_parameters_spec n i client server cn sn :
  (∀ j, (j < n)%nat →
     kex_parameter client (i + Z.of_nat j) = Ok (atoms_at cn (Z.to_nat i + 2 + j))
     ∧ kex_parameter server (i + Z.of_nat j) = Ok (atoms_at sn (Z.to_nat i + 2 + j))
     ∧ (all_known (nth (Z.to_nat i + 2 + j) cn []) ∨ all_known (nth (Z.to_nat i + 2 + j) sn []))) →
  0 <= i →
  select_parameters n i client server
  = Ok ((λ l, atom_of <$> l) <$> mapM (λ i, choose (nth i cn []) (nth i sn [])) (seq (Z.to_nat i + 2) n)).
Proof.
  revert i. induction n as [| n IH]; intros i Hp Hi; [done |].
  destruct (Hp 0%nat ltac:(lia)) as (Hc & Hs & Hk). rewrite Z.add_0_r, Nat.add_0_r in *.
  cbn [select_parameters seq mapM]. rewrite Hc, Hs, !bind_ok_l. unfold atoms_at.
  rewrite select_algorithm_names by done.
  destruct (choose (nth (Z.to_nat i + 2) cn []) (nth (Z.to_nat i + 2) sn [])) as [name |] eqn:Hch; [| done].
  cbn [choice_atom].
  assert (valid_atom (atom_of name)) as Hv.
  { destruct (choose_elem _ _ _ Hch). destruct Hk as [Hk | Hk]; unfold all_known in Hk; rewrite Forall_forall in Hk; auto. }
  rewrite (proj2 (Z.eqb_neq _ _)) by by apply valid_atom_nonzero.
  rewrite (IH (i + 1)); [| | lia].
  - replace (Z.to_nat (i + 1) + 2)%nat with (S (Z.to_nat i + 2)) by lia. rewrite bind_ok_l.
    cbn [mbind option_bind]. by destruct (mapM _ _).
  - intros j Hj. destruct (Hp (S j) ltac:(lia)) as (Hc' & Hs' & Hk').
    replace (i + 1 + Z.of_nat j) with (i + Z.of_nat (S j)) by lia.
    replace (Z.to_nat (i + 1) + 2 + j)%nat with (Z.to_nat i + 2 + S j)%nat by lia. done.
Qed.

Lemma get_algorithms_spec algorithms m atoms :
  alist_map algorithms m → Forall (key_ok algorithms) atoms →
  get_algorithms algorithms atoms = Ok ((λ a, m !! a) <$> atoms).
Proof.
  intros Hm. induction 1 as [| a atoms Ha _ IH]; [done |]. cbn [get_algorithms].
  rewrite (alist_get_spec algorithms m a Hm Ha), bind_ok_l, IH. done.
Qed.

(** The message proposes these ten lists of names. *)
Definition proposes (k : kexinit) (names : list (list (list Z))) : Prop :=
  length names = NLISTS ∧ length (kx_parameters k) = 6%nat ∧ kx_lists k = (λ l : list (list Z), atom_of <$> l) <$> names.

Lemma proposes_own k : kexinit_ok k → proposes k (atom_names <$> kx_lists k) ∧ Forall all_known (atom_names <$> kx_lists k).
Proof.
  intros [_ Hp Hl _]. split; [split_and!; [| done |] |].
  - rewrite length_fmap. unfold kx_lists. cbn [length]. by rewrite length_app, Hp.
  - rewrite <- list_fmap_compose, <- (list_fmap_id (kx_lists k)) at 1. apply list_fmap_ext. intros i l Hil.
    destruct (Forall_lookup_1 _ _ _ _ Hl Hil) as [Hv _]. symmetry. by apply atom_names_spec.
  - apply Forall_fmap. eapply Forall_impl; [exact Hl |]. intros l [Hv _]. unfold all_known, compose.
    destruct (atom_names_spec l Hv) as (_ & _ & Hmap). 
    assert (Forall valid_atom (atom_of <$> atom_names l)) as Hf by by rewrite Hmap. by rewrite Forall_fmap in Hf.
Qed.

Lemma proposes_peer p : proposal_ok p → proposes (kexinit_of_proposal p) (names_of <$> p_lists p).
Proof.
  intros [_ [Hlen _] _]. unfold kexinit_of_proposal. destruct p as [cookie ds f]. cbn [p_cookie p_lists p_follows] in *.
  do 10 (destruct ds as [| ? ds]; [discriminate Hlen |]). destruct ds; [| discriminate Hlen]. done.
Qed.

Lemma proposes_at k names :
  proposes k names →
  kx_kex_algorithms k = atoms_at names 0 ∧ kx_server_hostkey_algorithms k = atoms_at names 1
  ∧ ∀ j, (j < 6)%nat → kex_parameter k (Z.of_nat j) = Ok (atoms_at names (2 + j)).
Proof.
  intros (Hn & Hp & Hl). unfold kx_lists, kex_parameter, atoms_at in *.
  destruct k as [cookie kex hk params l1 l2 f first]. cbn [kx_kex_algorithms kx_server_hostkey_algorithms kx_parameters
    kx_languages_client_to_server kx_languages_server_to_client] in *.
  do 6 (destruct params as [| ? params]; [discriminate Hp |]). destruct params; [| discriminate Hp].
  do 10 (destruct names as [| ? names]; [discriminate Hn |]). destruct names; [| discriminate Hn].
  cbn in Hl. simplify_eq. split_and!; [done | done |]. intros j Hj.
  do 6 (destruct j as [| j]; [done |]). lia.
Qed.

Definition wrong_guess (client server : list (list (list Z))) : bool :=
  bool_decide (head (nth 0 client []) ≠ head (nth 0 server [])).

(** What a negotiation does not concern. *)
Definition same_sent (self self' : kexinit_state) : Prop :=
  ks_write_state self' = ks_write_state self ∧ ks_version self' = ks_version self
  ∧ ks_literal_kexinit self' = ks_literal_kexinit self.

(** What a state and an error message say about a negotiation that started
    in [self]. *)
Definition negotiated (client server : list (list (list Z))) (follows : Z) (m : gmap Z algorithm)
  (self self' : kexinit_state) (err : option string) : Prop :=
  ks_kexinit self' = ks_kexinit self ∧ same_sent self self'
  ∧ ks_read_state self'
    = (if wrong_guess client server && c_true follows then KEX_STATE_IGNORE else ks_read_state self)
  ∧ match negotiate client server with
    | inl e => err = Some e
    | inr (kex, hostkey, parameters) =>
        err = None ∧ ks_hostkey_algorithm self' = atom_of hostkey
        ∧ ks_algorithm_list self' = Some ((λ n, m !! atom_of n) <$> parameters ++ [kex])
    end.

(** Names chosen are names of both ends, so they are known. *)
Lemma choose_valid c s n : all_known c ∨ all_known s → choose c s = Some n → valid_atom (atom_of n).
Proof.
  intros Hk Hn. destruct (choose_elem _ _ _ Hn).
  destruct Hk as [Hk | Hk]; unfold all_known in Hk; rewrite Forall_forall in Hk; auto.
Qed.

Lemma known_at names i : Forall all_known names → all_known (nth i names []).
Proof.
  intros Hall. destruct (nth_in_or_default i names []) as [Hin | ->]; [| constructor].
  rewrite Forall_forall in Hall. by apply Hall, list_elem_of_In.
Qed.

(** The shortcut for equal first choices is what the general rule gives. *)
Lemma guess_choice c s :
  all_known c ∨ all_known s → c ≠ [] → s ≠ [] →
  ∃ a b, rd (atom_of <$> c) 0 = Ok a ∧ rd (atom_of <$> s) 0 = Ok b
    ∧ (a =? b) = negb (bool_decide (head c ≠ head s))
    ∧ ((a =? b) = true → a = choice_atom (choose c s) ∧ a ≠ 0).
Proof.
  intros Hk Hc Hs. destruct c as [| n c]; [done |]. destruct s as [| n' s]; [done |].
  exists (atom_of n), (atom_of n'). split_and!; [done | done | |].
  - cbn [head]. case_bool_decide as Hne; cbn [negb].
    + apply Z.eqb_neq. intros Heq. apply Hne. f_equal. destruct Hk as [Hk | Hk]; apply Forall_cons in Hk as [Hk _];
        apply valid_atom_nonzero in Hk; [by apply atom_of_inj | symmetry; by apply atom_of_inj].
    + apply Z.eqb_eq. congruence.
  - rewrite Z.eqb_eq. intros Heq.
    assert (atom_of n ≠ 0) as Hnz.
    { destruct Hk as [Hk | Hk]; apply Forall_cons in Hk as [Hk _]; apply valid_atom_nonzero in Hk; congruence. }
    split; [| done]. rewrite (atom_of_inj n n' Hnz Heq). cbn [choose].
    rewrite bool_decide_eq_true_2 by constructor. done.
Qed.

Lemma six_parameters_spec client server cn sn :
  proposes client cn → proposes server sn → (∀ i, all_known (nth i cn []) ∨ all_known (nth i sn [])) →
  let chosen := mapM (λ i, choose (nth i cn []) (nth i sn [])) (seq 2 6) in
  select_parameters (Z.to_nat KEX_PARAMETERS) 0 client server = Ok ((λ l, atom_of <$> l) <$> chosen)
  ∧ ∀ ps, chosen = Some ps → Forall (λ n, valid_atom (atom_of n)) ps.
Proof.
  intros Hc Hs Hk chosen. destruct (proposes_at client cn Hc) as (_ & _ & Hcp), (proposes_at server sn Hs) as (_ & _ & Hsp).
  split.
  - apply (select_parameters_spec (Z.to_nat KEX_PARAMETERS) 0); [| done]. intros j Hj.
    change (Z.to_nat KEX_PARAMETERS) with 6%nat in Hj. rewrite Z.add_0_l. by split_and!; [apply Hcp | apply Hsp |].
  - intros ps Hps. apply mapM_Some in Hps. clear -Hps Hk.
    induction Hps as [| i n l1 l2 Hi _ IH]; constructor; [by eapply choose_valid | done].
Qed.

Lemma select_algorithms_spec self msg client server algorithms m cn sn :
  proposes client cn → proposes server sn → Forall all_known cn ∨ Forall all_known sn →
  nth 0 cn [] ≠ [] → nth 0 sn [] ≠ [] →
  alist_map algorithms m → (∀ a, valid_atom a → key_ok algorithms a) →
  ∃ self' err, select_algorithms self msg client server algorithms = Ok (self', err)
    ∧ negotiated cn sn (kx_first_kex_packet_follows msg) m self self' err.
Proof.
  intros Hc Hs Hk Hc0 Hs0 Hm Hkeys.
  assert (∀ i, all_known (nth i cn []) ∨ all_known (nth i sn [])) as Hki.
  { intros i. destruct Hk; [left | right]; by apply known_at. }
  destruct (proposes_at client cn Hc) as (Hck & Hch & _), (proposes_at server sn Hs) as (Hsk & Hsh & _).
  destruct (guess_choice _ _ (Hki 0%nat) Hc0 Hs0) as (a & b & Ha & Hb & Hab & Hguess).
  unfold select_algorithms. rewrite Hck, Hsk, Hch, Hsh. unfold atoms_at. rewrite Ha, Hb, !bind_ok_l.
  cbv zeta. rewrite !select_algorithm_names by done.
  set (kex := if a =? b then a else choice_atom (choose (nth 0 cn []) (nth 0 sn []))).
  assert (kex = choice_atom (choose (nth 0 cn []) (nth 0 sn []))) as Hkex.
  { unfold kex. destruct (a =? b) eqn:E; [by apply Hguess | done]. }
  assert (negb (a =? b) && negb (c_true kex) = negb (c_true kex)) as ->.
  { destruct (a =? b) eqn:E; cbn [negb andb]; [| done]. unfold c_true. destruct (Hguess eq_refl) as [_ Hz].
    unfold kex. by rewrite (proj2 (Z.eqb_neq a 0)). }
  rewrite Hab, negb_involutive.
  set (self1 := if bool_decide _ && c_true _ then set_read_state self KEX_STATE_IGNORE else self).
  assert (ks_kexinit self1 = ks_kexinit self ∧ same_sent self self1
    ∧ ks_read_state self1 = if wrong_guess cn sn && c_true (kx_first_kex_packet_follows msg)
                            then KEX_STATE_IGNORE else ks_read_state self) as (Hsk1 & Hsk2 & Hsk3).
  { unfold self1, wrong_guess. by case_bool. }
  unfold negotiated, negotiate. rewrite Hkex. clear Hkex kex.
  destruct (choose (nth 0 cn []) (nth 0 sn [])) as [kex |] eqn:Ekex; cbn [choice_atom].
  2: { cbn. eexists _, _. split; [done |]. done. }
  pose proof (choose_valid _ _ _ (Hki 0%nat) Ekex) as Hkv. unfold c_true at 1.
  rewrite (proj2 (Z.eqb_neq (atom_of kex) 0)) by by apply valid_atom_nonzero.
  cbn [negb]. cbn [ks_hostkey_algorithm set_hostkey].
  destruct (choose (nth 1 cn []) (nth 1 sn [])) as [hk |] eqn:Ehk; cbn [choice_atom].
  2: { cbn. eexists _, _. split; [done |]. done. }
  pose proof (choose_valid _ _ _ (Hki 1%nat) Ehk) as Hhv. unfold c_true at 1.
  rewrite (proj2 (Z.eqb_neq (atom_of hk) 0)) by by apply valid_atom_nonzero. cbn [negb].
  destruct (six_parameters_spec client server cn sn Hc Hs Hki) as [-> Hpv]. rewrite bind_ok_l.
  destruct (mapM _ (seq 2 6)) as [ps |]; cbn [fmap option_fmap option_map].
  2: { eexists _, _. split; [done |]. done. }
  specialize (Hpv ps eq_refl).
  rewrite (get_algorithms_spec algorithms m) ; [| done |].
  2: { apply Forall_app. split; [apply Forall_fmap | repeat constructor; by apply Hkeys].
       eapply Forall_impl; [exact Hpv |]. intros n Hn. by apply Hkeys. }
  rewrite bind_ok_l. eexists _, _. split; [done |]. split_and!; [done.. |].
  cbn [ks_algorithm_list set_algorithm_list]. rewrite !fmap_app, <- list_fmap_compose. done.
Qed.

(** ** The handler *)

Section handler.
Context (algorithms : alist algorithm) (m : gmap Z algorithm).
Hypothesis Halg : alist_map algorithms m.
Hypothesis Hkeys : ∀ a, valid_atom a → key_ok algorithms a.

(** The names of client and server, when [own] is ours. *)
Definition ordered {A} (is_server : bool) (own peer : A) : A * A :=
  if is_server then (peer, own) else (own, peer).

(** The state once the peer's message is recorded. *)
Definition received (self : kexinit_state) (is_server : bool) (p : proposal) (literal : lsh_string)
  : kexinit_state :=
  set_kexinit (set_read_state self KEX_STATE_IN_PROGRESS) (negb is_server) (kexinit_of_proposal p) literal.

(** What [handle_kexinit] makes of a valid message. *)
Definition handled (self : kexinit_state) (is_server : bool) (own : kexinit) (p : proposal)
  (self' : kexinit_state) (err : option string) : Prop :=
  if bool_decide (nth 0 (p_lists p) [] = []) then
    self' = set_read_state self KEX_STATE_IN_PROGRESS ∧ err = Some "No keyexchange method"
  else
    ∃ literal, lsh_string_wf literal ∧ contents literal = encode_kexinit p
    ∧ let '(client, server) := ordered is_server (atom_names <$> kx_lists own) (names_of <$> p_lists p) in
      negotiated client server (p_follows p) m (received self is_server p literal) self' err.

Lemma names_of_nil d : names_of d = [] ↔ d = [].
Proof.
  unfold names_of. case_bool_decide as Hd; [done |]. split; [| done]. intros Hs. by apply split_commas_nonempty in Hs.
Qed.

Lemma nth_names p i : proposal_ok p → nth i (names_of <$> p_lists p) [] = names_of (nth i (p_lists p) []).
Proof. intros _. apply (map_nth names_of (p_lists p) [] i). Qed.

Lemma handle_kexinit_valid self is_server own p packet :
  ks_read_state self = KEX_STATE_INIT → entry (ks_kexinit self) is_server = Some own →
  kexinit_ok own → kx_kex_algorithms own ≠ [] →
  proposal_ok p → packet = encode_kexinit p → Forall is_byte packet → lenZ packet < 2 ^ 32 →
  ∃ self' err, handle_kexinit self (lenZ packet) packet algorithms is_server = Ok (self', err)
    ∧ handled self is_server own p self' err.
Proof.
  intros Hinit Hown Hok Hne Hp Hpk Hb Hl. unfold handle_kexinit. rewrite Hinit. pass_assert_with ltac:(done).
  destruct (parse_kexinit_spec packet Hb Hl) as (r & -> & Hr). rewrite bind_ok_l.
  rewrite (proj2 (Hr (kexinit_of_proposal p))) by eauto. unfold handled.
  destruct (proposes_own own Hok) as [Hpo Hko]. pose proof (proposes_peer p Hp) as Hpp.
  destruct (proposes_at _ _ Hpp) as (Hk0 & _ & _). rewrite Hk0. unfold atoms_at. rewrite lenZ_fmap, nth_names by done.
  case_bool_decide as Hnil; [| assert (names_of (nth 0 (p_lists p) []) ≠ []) as Hnn by by rewrite names_of_nil].
  { rewrite (proj2 (names_of_nil _) Hnil). cbn. eauto. }
  destruct (names_of (nth 0 (p_lists p) [])) as [| n0 ns] eqn:Hns; [done |]. rewrite lenZ_cons.
  pose proof (lenZ_nonneg ns). unfold c_true at 1. rewrite (proj2 (Z.eqb_neq _ _)) by lia. cbn [negb].
  destruct (format_copy (lenZ packet) packet) as (literal & -> & Hlw & Hlc); [len_lia | lia | done |].
  rewrite slice_all in Hlc. rewrite bind_ok_l. fold (received self is_server p literal).
  assert (nth 0 (atom_names <$> kx_lists own) [] ≠ []) as Hown0.
  { destruct (proposes_at _ _ Hpo) as (Hk & _ & _). intros Hz. apply Hne. rewrite Hk. unfold atoms_at. by rewrite Hz. }
  assert (nth 0 (names_of <$> p_lists p) [] ≠ []) as Hpeer0 by by rewrite nth_names, Hns.
  destruct is_server; cbn [received set_kexinit set_read_state ks_kexinit set_entry negb entry at_client at_server] in *;
    rewrite Hown; cbn beta iota.
  - destruct (select_algorithms_spec (received self true p literal) (kexinit_of_proposal p) (kexinit_of_proposal p) own
      algorithms m _ _ Hpp Hpo (or_intror Hko) Hpeer0 Hown0 Halg Hkeys) as (self' & err & Hsel & Hn).
    exists self', err. split; [exact Hsel |]. exists literal. by subst packet.
  - destruct (select_algorithms_spec (received self false p literal) (kexinit_of_proposal p) own (kexinit_of_proposal p)
      algorithms m _ _ Hpo Hpp (or_introl Hko) Hown0 Hpeer0 Halg Hkeys) as (self' & err & Hsel & Hn).
    exists self', err. split; [exact Hsel |]. exists literal. by subst packet.
Qed.

Lemma handle_kexinit_invalid self is_server packet :
  ks_read_state self = KEX_STATE_INIT → Forall is_byte packet → lenZ packet < 2 ^ 32 →
  ¬ (∃ p, proposal_ok p ∧ packet = encode_kexinit p) →
  handle_kexinit self (lenZ packet) packet algorithms is_server
  = Ok (set_read_state self KEX_STATE_IN_PROGRESS, Some "Invalid KEXINIT message").
Proof.
  intros Hinit Hb Hl Hno. unfold handle_kexinit. rewrite Hinit. pass_assert_with ltac:(done).
  destruct (parse_kexinit_spec packet Hb Hl) as ([k |] & -> & Hr); [| done]. exfalso.
  destruct (proj1 (Hr k) eq_refl) as (p & Hp & Hpk & _). eauto.
Qed.

End handler.

(** What one end sends as [KEXINIT], the other end reads: for every message
    of known atoms within the limits, [format_kexinit] makes a packet that
    [parse_kexinit] turns back into the message, apart from the packet to
    follow, which is not part of it. *)
Theorem kexinit_roundtrip k :
  kexinit_ok k → kx_first_kex_packet k = None →
  ∃ s, format_kexinit k = Ok s ∧ lsh_string_wf s ∧ parse_kexinit (ls_length s) (contents s) = Ok (Some k).
Proof.
  intros Hk Hn. destruct (format_kexinit_spec k Hk) as (s & Hs & Hw & Hc).
  exists s. split_and!; [done | done |]. rewrite <- lenZ_contents by done.
  destruct (parse_kexinit_spec (contents s)) as (r & -> & Hr); [by apply contents_bytes | |].
  { rewrite lenZ_contents by done. apply Hw. }
  destruct (proposal_of_ok k Hk) as (Hp & _ & _). f_equal. apply Hr.
  exists (proposal_of k). split_and!; [done | done |]. by rewrite kexinit_of_proposal_of.
Qed.

Lemma handle_kexinit_spec algorithms m self is_server own packet :
  alist_map algorithms m → (∀ a, valid_atom a → key_ok algorithms a) →
  ks_read_state self = KEX_STATE_INIT → entry (ks_kexinit self) is_server = Some own →
  kexinit_ok own → kx_kex_algorithms own ≠ [] → Forall is_byte packet → lenZ packet < 2 ^ 32 →
  ∃ self' err, handle_kexinit self (lenZ packet) packet algorithms is_server = Ok (self', err)
    ∧ ((∃ p, proposal_ok p ∧ packet = encode_kexinit p ∧ handled m self is_server own p self' err)
       ∨ (¬ (∃ p, proposal_ok p ∧ packet = encode_kexinit p)) ∧ err = Some "Invalid KEXINIT message").
Proof.
  intros Ha Hkeys Hinit Hown Hok Hne Hb Hl. destruct (parse_kexinit_spec packet Hb Hl) as (r & _ & Hr).
  destruct r as [k |].
  - destruct (proj1 (Hr k) eq_refl) as (p & Hp & Hpk & _).
    destruct (handle_kexinit_valid algorithms m Ha Hkeys self is_server own p packet) as (self' & err & Hh & Hd); try done.
    exists self', err. split; [done |]. left. eauto.
  - assert (¬ ∃ p, proposal_ok p ∧ packet = encode_kexinit p) as Hno.
    { intros (p & Hp & Hpk). assert (None = Some (kexinit_of_proposal p)) as Hx by (apply Hr; eauto). discriminate Hx. }
    eexists _, _. split; [by apply handle_kexinit_invalid |]. right. done.
Qed.


(** The same choice seen from both ends. *)
Lemma negotiated_same client server f f' m sc sc' ec ss ss' es :
  negotiated client server f m sc sc' ec → negotiated client server f' m ss ss' es →
  ec = es ∧ (ec = None → ks_algorithm_list sc' = ks_algorithm_list ss' ∧ is_Some (ks_algorithm_list sc')
                         ∧ ks_hostkey_algorithm sc' = ks_hostkey_algorithm ss').
Proof.
  intros (_ & _ & _ & Hc) (_ & _ & _ & Hs). destruct (negotiate client server) as [e | [[kex hk] ps]]; [by subst |].
  destruct Hc as (-> & -> & ->), Hs as (-> & -> & ->). by split_and!.
Qed.

(** C17: both ends agree: when client and server send each other their own
    messages, and each hands what it receives to [handle_kexinit], either both
    report the same error or both succeed with the same list of algorithms
    and the same host key algorithm. *)
Theorem negotiation_agrees algorithms m client server kc ks :
  alist_map algorithms m → (∀ a, valid_atom a → key_ok algorithms a) →
  ks_read_state client = KEX_STATE_INIT → entry (ks_kexinit client) false = Some kc →
  ks_read_state server = KEX_STATE_INIT → entry (ks_kexinit server) true = Some ks →
  kexinit_ok kc → kexinit_ok ks → kx_kex_algorithms kc ≠ [] → kx_kex_algorithms ks ≠ [] →
  ∃ pc ps client' server' ec es, format_kexinit kc = Ok pc ∧ format_kexinit ks = Ok ps
    ∧ handle_kexinit client (ls_length ps) (contents ps) algorithms false = Ok (client', ec)
    ∧ handle_kexinit server (ls_length pc) (contents pc) algorithms true = Ok (server', es)
    ∧ ec = es
    ∧ (ec = None → ks_algorithm_list client' = ks_algorithm_list server' ∧ is_Some (ks_algorithm_list client')
                   ∧ ks_hostkey_algorithm client' = ks_hostkey_algorithm server').
Proof.
  intros Ha Hkeys Hci Hce Hsi Hse Hkc Hks Hnc Hns.
  destruct (format_kexinit_spec kc Hkc) as (pc & Hpc & Hpcw & Hpcc), (format_kexinit_spec ks Hks) as (ps & Hps & Hpsw & Hpsc).
  destruct (proposal_of_ok kc Hkc) as (Hok1 & Hn1 & _), (proposal_of_ok ks Hks) as (Hok2 & Hn2 & _).
  assert (∀ k, kexinit_ok k → kx_kex_algorithms k ≠ [] → nth 0 (p_lists (proposal_of k)) [] ≠ []) as Hfirst.
  { intros k Hk Hne Hz. apply Hne. destruct (proposal_of_ok k Hk) as (Hp & Hn & Hat).
    destruct (proposes_at k _ (proj1 (proposes_own k Hk))) as (-> & _). rewrite <- Hn. unfold atoms_at.
    by rewrite nth_names, Hz. }
  pose proof (Hfirst kc Hkc Hnc) as Hf1. pose proof (Hfirst ks Hks Hns) as Hf2.
  pose proof (lenZ_contents pc Hpcw) as Hl1. pose proof (lenZ_contents ps Hpsw) as Hl2.
  destruct (handle_kexinit_valid algorithms m Ha Hkeys client false kc (proposal_of ks) (contents ps))
    as (client' & ec & Hc & Hhc); try done; [by apply contents_bytes | rewrite Hl2; apply Hpsw |].
  destruct (handle_kexinit_valid algorithms m Ha Hkeys server true ks (proposal_of kc) (contents pc))
    as (server' & es & Hs & Hhs); try done; [by apply contents_bytes | rewrite Hl1; apply Hpcw |].
  exists pc, ps, client', server', ec, es. rewrite <- Hl1, <- Hl2.
  unfold handled in Hhc, Hhs. rewrite bool_decide_eq_false_2 in Hhc, Hhs by done.
  destruct Hhc as (lit1 & _ & _ & Hneg1), Hhs as (lit2 & _ & _ & Hneg2). cbn [ordered] in Hneg1, Hneg2.
  rewrite Hn2 in Hneg1. rewrite Hn1 in Hneg2. split_and!; [done.. | |]; by eapply negotiated_same.
Qed.

End selection.

(** ** Examples *)

(** zlib or none, in this order or the other. *)
Definition sample_kexinit (compression : list Z) : kexinit :=
  {| kx_cookie := replicate 16 7;
     kx_kex_algorithms := [5]; kx_server_hostkey_algorithms := [6];
     kx_parameters := [[3]; [3]; [4]; [4]; compression; compression];
     kx_languages_client_to_server := []; kx_languages_server_to_client := [];
     kx_first_kex_packet_follows := 0; kx_first_kex_packet := None |}.

Lemma atom_list_okb l :
  forallb (λ a, (1 <=? a) && (a <? lenZ atom_table)) l && (lenZ l <=? KEXINIT_MAX_ALGORITMS) = true → atom_list_ok l.
Proof.
  intros [Ha Hl]%andb_prop. split; [| lia]. apply Forall_forall. intros a Hin. rewrite forallb_forall in Ha.
  apply list_elem_of_In, Ha in Hin. unfold valid_atom. lia.
Qed.

Lemma sample_kexinit_ok compression :
  atom_list_ok compression → kexinit_ok (sample_kexinit compression).
Proof.
  intros Hc. split; cbn [sample_kexinit kx_cookie kx_parameters kx_first_kex_packet_follows].
  - split; [repeat (apply Forall_cons; split; [unfold is_byte; lia |]); constructor | done].
  - done.
  - change (kx_lists _) with [[5]; [6]; [3]; [3]; [4]; [4]; compression; compression; []; []].
    repeat (apply Forall_cons; split; [first [exact Hc | by apply atom_list_okb] |]). constructor.
  - unfold is_byte. lia.
Qed.

Lemma sample_list_ok (l : list Z) : l = [2; 1] ∨ l = [1; 2] → atom_list_ok l.
Proof. by intros [-> | ->]; apply atom_list_okb. Qed.

Lemma kexinit_roundtrip_witness :
  ∃ s, format_kexinit (sample_kexinit [2; 1]) = Ok s ∧ lsh_string_wf s
    ∧ parse_kexinit (ls_length s) (contents s) = Ok (Some (sample_kexinit [2; 1])).
Proof. apply (kexinit_roundtrip (sample_kexinit [2; 1])); [apply sample_kexinit_ok, sample_list_ok; by left | reflexivity]. Defined.

Definition sample_state (server : bool) (k : kexinit) : kexinit_state :=
  mk_kexinit_state KEX_STATE_INIT 1 (mk_two None None) (set_entry (mk_two None None) server (Some k))
    (mk_two None None) 0 None.

(** Compression by zlib (atom 2), a cipher (3) and a MAC (4). *)
Definition sample_algorithms : list (Z * option algorithm) :=
  [(2, Some (AlgCompress ())); (3, Some (AlgCrypto ())); (4, Some (AlgMac ())); (5, Some (AlgKex ()))].

Lemma sample_algorithms_ok :
  ∃ a, make_linear_alist sample_algorithms = Ok a
    ∧ alist_map a (foldl (λ m e, update_map m e.1 e.2) ∅ sample_algorithms) ∧ ∀ k, valid_atom k → key_ok a k.
Proof.
  destruct (make_linear_alist_spec sample_algorithms) as (a & Ha & Hm & Hk).
  { repeat (apply Forall_cons; split; [vm_compute; split; discriminate || done |]). constructor. }
  exists a. split_and!; [done | done |]. intros k [Hk1 Hk2]. apply Hk. split; [lia | exact Hk2].
Qed.


Lemma negotiation_agrees_witness :
  ∃ a pc ps client' server' ec es, make_linear_alist sample_algorithms = Ok a
    ∧ format_kexinit (sample_kexinit [2; 1]) = Ok pc ∧ format_kexinit (sample_kexinit [1; 2]) = Ok ps
    ∧ handle_kexinit (sample_state false (sample_kexinit [2; 1])) (ls_length ps) (contents ps) a false = Ok (client', ec)
    ∧ handle_kexinit (sample_state true (sample_kexinit [1; 2])) (ls_length pc) (contents pc) a true = Ok (server', es)
    ∧ ec = es.
Proof.
  destruct sample_algorithms_ok as (a & Ha & Hm & Hk).
  destruct (negotiation_agrees a _ (sample_state false (sample_kexinit [2; 1])) (sample_state true (sample_kexinit [1; 2]))
    (sample_kexinit [2; 1]) (sample_kexinit [1; 2]) Hm Hk) as (pc & ps & c' & s' & ec & es & H1 & H2 & H3 & H4 & H5 & _);
    [reflexivity.. | apply sample_kexinit_ok, sample_list_ok; by left | apply sample_kexinit_ok, sample_list_ok; by right
     | discriminate | discriminate |].
  exists a, pc, ps, c', s', ec, es. split_and!; assumption.
Defined.
