(* ===== verification/DhExchange.v ===== *)
(** * Diffie-Hellman key exchange

    [src/src/dh_exchange.c], [server_keyexchange.c] and [client_keyexchange.c]:
    the messages [KEXDH_INIT] and [KEXDH_REPLY], the shared secret and the
    exchange hash.  Signatures, their verification and the choice of random
    numbers are interfaces.  Both ends compute the same secret and the same
    exchange hash, that of RFC 4253, section 8. *)

From Stdlib Require Import Zpow_facts.
From S2P Require Import Prelude Ssh Nettle Atoms Alist LshString Format FormatSpec Wire Parse ParseSpec Crypto Hash KexKeys Keyexchange.
Local Open Scope Z_scope.

Definition SSH_MSG_KEXDH_INIT := 30.
Definition SSH_MSG_KEXDH_REPLY := 31.

(** ** Interfaces *)

Class Signatures := {
  (** [struct signer] and its [SIGN] method: algorithm and data. *)
  signer : Type;
  SIGN : signer → Z → list Z → option lsh_string;
  (** [struct lookup_verifier], [struct verifier]. *)
  lookup_verifier : Type;
  verifier : Type;
  LOOKUP_VERIFIER : lookup_verifier → Z → list Z → option verifier;
  VERIFY : verifier → Z → list Z → list Z → bool;
}.

Class SignaturesOk `{Signatures} : Prop := {
  SIGN_ok s a d sig : SIGN s a d = Some sig → lsh_string_wf sig ∧ ls_length sig <= 10000;
}.

(** [nettle_mpz_random (x, ctx, random, n)]: uniform, [0 <= x < n]. *)
Class MpzRandom `{Crypto} := nettle_mpz_random : rng → Z → rng * Z.
Class MpzRandomOk `{MpzRandom} : Prop :=
  nettle_mpz_random_ok g n : 0 < n → 0 <= snd (nettle_mpz_random g n) < n.

(** GMP's [mpz_powm] for non-negative exponents. *)
Definition mpz_powm (b e m : Z) : Z := Zpow_mod b e m.

Section dh.
Context `{Malloc} `{NettleMacros} `{NettleBignum} `{AtomTable} `{Crypto} `{HashFunctions} `{!Algorithms}.

(** ** [dh_exchange.c] *)

Record dh_params := mk_dh_params {
  dp_modulo : Z;
  dp_generator : Z;
  dp_H : nettle_hash;
  dp_limit : Z;
}.

(** The modulus as a number; the source has its hexadecimal digits. *)
Definition make_dh_params (modulo generator : Z) (h : nettle_hash) : dh_params :=
  mk_dh_params modulo generator h (nettle_mpz_sizeinbase_256_u modulo).

Definition make_dh_group1 (h : nettle_hash) : dh_params :=
  make_dh_params
    0xFFFFFFFFFFFFFFFFC90FDAA22168C234C4C6628B80DC1CD129024E088A67CC74020BBEA63B139B22514A08798E3404DDEF9519B3CD3A431B302B0A6DF25F14374FE1356D6D51C245E485B576625E7EC6F44C42E9A637ED6B0BFF5CB6F406B7EDEE386BFB5A899FA5AE9F24117C4B1FE649286651ECE65381FFFFFFFFFFFFFFFF
    2 h.

Definition make_dh_group14 (h : nettle_hash) : dh_params :=
  make_dh_params
    0xFFFFFFFFFFFFFFFFC90FDAA22168C234C4C6628B80DC1CD129024E088A67CC74020BBEA63B139B22514A08798E3404DDEF9519B3CD3A431B302B0A6DF25F14374FE1356D6D51C245E485B576625E7EC6F44C42E9A637ED6B0BFF5CB6F406B7EDEE386BFB5A899FA5AE9F24117C4B1FE649286651ECE45B3DC2007CB8A163BF0598DA48361C55D39A69163FA8FD24CF5F83655D23DCA3AD961C62F356208552BB9ED529077096966D670C354E4ABC9804F1746C08CA18217C32905E462E36CE3BE39E772C180E86039B2783A2EC07A28FB5C55DF06F4C52C9DE2BCBF6955817183995497CEA956AE515D2261898FA051015728E5A8AACAA68FFFFFFFFFFFFFFFF
    2 h.

Record dh_state := mk_dh_state {
  dh_the_params : dh_params;
  dh_e : Z;
  dh_f : Z;
  dh_secret : Z;
  dh_K : option lsh_string;
  dh_hash : hash_instance;
  dh_exchange_hash : option lsh_string;
}.

Definition dh_hash_update (self : dh_state) (s : lsh_string) : result dh_state :=
  hash ← hash_update (dh_hash self) (lsh_string_length s) (lsh_string_data s);
  Ok (mk_dh_state (dh_the_params self) (dh_e self) (dh_f self) (dh_secret self) (dh_K self) hash (dh_exchange_hash self)).

Definition dh_hash_digest (self : dh_state) : result dh_state :=
  k ← deref (dh_K self);
  s ← ssh_format_string "%n%n%S" [FNum (dh_e self); FNum (dh_f self); FStr k];
  self ← dh_hash_update self s;
  '(d, hash) ← hash_digest_string (dh_hash self);
  Ok (mk_dh_state (dh_the_params self) (dh_e self) (dh_f self) (dh_secret self) (dh_K self) hash (Some d)).

(** [mpz_init] makes zero. *)
Definition init_dh_state (params : dh_params) (kex : kexinit_state) : result dh_state :=
  v0 ← deref (entry (ks_version kex) false);
  v1 ← deref (entry (ks_version kex) true);
  i0 ← deref (entry (ks_literal_kexinit kex) false);
  i1 ← deref (entry (ks_literal_kexinit kex) true);
  s ← ssh_format_string "%S%S%S%S" [FStr v0; FStr v1; FStr i0; FStr i1];
  dh_hash_update (mk_dh_state params 0 0 0 None (make_hash (dp_H params)) None) s.

Definition set_e (self : dh_state) (e : Z) : dh_state :=
  mk_dh_state (dh_the_params self) e (dh_f self) (dh_secret self) (dh_K self) (dh_hash self) (dh_exchange_hash self).
Definition set_f (self : dh_state) (f : Z) : dh_state :=
  mk_dh_state (dh_the_params self) (dh_e self) f (dh_secret self) (dh_K self) (dh_hash self) (dh_exchange_hash self).
Definition set_secret (self : dh_state) (r : Z) : dh_state :=
  mk_dh_state (dh_the_params self) (dh_e self) (dh_f self) r (dh_K self) (dh_hash self) (dh_exchange_hash self).
Definition set_K (self : dh_state) (k : lsh_string) : dh_state :=
  mk_dh_state (dh_the_params self) (dh_e self) (dh_f self) (dh_secret self) (Some k) (dh_hash self) (dh_exchange_hash self).

(** The secret exponent and its power of the generator. *)
Definition dh_generate_secret `{!MpzRandom} (self : dh_params) (g : rng) : rng * Z * Z :=
  let tmp := dp_modulo self - 2 in
  let '(g, r) := nettle_mpz_random g tmp in
  let r := r + 1 in
  (g, r, mpz_powm (dp_generator self) r (dp_modulo self)).

(** The shared secret, from the other end's public number. *)
Definition dh_make_key (self : dh_state) (other : Z) : result dh_state :=
  k ← ssh_format_string "%ln" [FNum (mpz_powm other (dh_secret self) (dp_modulo (dh_the_params self)))];
  Ok (set_K self k).

(** ** Messages *)

(** A public number within the group. *)
Definition parse_public (params : dh_params) : parser Z :=
  n ← parse_bignum (dp_limit params);
  if (1 <? n) && (n <? dp_modulo params) then mret n else pfail.

Definition parse_kexdh_init (params : dh_params) : parser Z :=
  e ← parse_public params;
  _ ← parse_eod;
  mret e.

Definition parse_kexdh_reply (params : dh_params) : parser (list Z * Z * list Z) :=
  key ← parse_string;
  f ← parse_public params;
  signature ← parse_string;
  _ ← parse_eod;
  mret (key, f, signature).

(** What a handler does with a message: give up, or finish the exchange, the
    server after sending its reply. *)
Inductive dh_outcome : Type :=
  | DhFailed (msg : string)
  | DhDone (reply : option lsh_string) (exchange_hash K : lsh_string).

Context `{Signatures}.

(** [struct keypair] *)
Record keypair := mk_keypair {
  pair_type : Z;
  pair_public : lsh_string;
  pair_private : signer;
}.

(** ** [server_keyexchange.c] *)

Definition server_dh_process (dh : dh_state) (key : keypair) (length : Z) (packet : list Z) : result dh_outcome :=
  _ ← c_assert (0 <? length);
  msg ← rd packet 0;
  if negb (msg =? SSH_MSG_KEXDH_INIT) then Ok (DhFailed "No KEXDH_INIT message.")
  else
    '(_, r) ← parse_kexdh_init (dh_the_params dh) (simple_buffer_init (length - 1) (drop 1 packet));
    match r with
    | None => Ok (DhFailed "Invalid KEXDH_INIT message.")
    | Some e =>
        dh ← dh_make_key (set_e dh e) e;
        s ← ssh_format_string "%S" [FStr (pair_public key)];
        dh ← dh_hash_update dh s;
        dh ← dh_hash_digest dh;
        h ← deref (dh_exchange_hash dh);
        k ← deref (dh_K dh);
        match SIGN (pair_private key) (pair_type key) (contents h) with
        | Some signature =>
            reply ← ssh_format_string "%c%S%n%fS"
                      [FInt SSH_MSG_KEXDH_REPLY; FStr (pair_public key); FNum (dh_f dh); FStr signature];
            Ok (DhDone (Some reply) h k)
        | None => Ok (DhFailed "Configuration error.")
        end
    end.

(** ** [client_keyexchange.c] *)

Definition format_kexdh_init (e : Z) : result lsh_string :=
  ssh_format_string "%c%n" [FInt SSH_MSG_KEXDH_INIT; FNum e].

Definition client_dh_process (dh : dh_state) (db : lookup_verifier) (hostkey_algorithm : Z) (length : Z)
  (packet : list Z) : result dh_outcome :=
  _ ← c_assert (0 <? length);
  msg ← rd packet 0;
  if negb (msg =? SSH_MSG_KEXDH_REPLY) then Ok (DhFailed "No KEXDH_REPLY message.")
  else
    '(_, r) ← parse_kexdh_reply (dh_the_params dh) (simple_buffer_init (length - 1) (drop 1 packet));
    match r with
    | None => Ok (DhFailed "Invalid KEXDH_REPLY message")
    | Some (key, f, signature) =>
        match LOOKUP_VERIFIER db hostkey_algorithm key with
        | None => Ok (DhFailed "Unknown server host key")
        | Some v =>
            dh ← dh_make_key (set_f dh f) f;
            s ← ssh_format_string "%s" [FInt (lenZ key); FBytes key];
            dh ← dh_hash_update dh s;
            dh ← dh_hash_digest dh;
            h ← deref (dh_exchange_hash dh);
            k ← deref (dh_K dh);
            if VERIFY v hostkey_algorithm (contents h) signature then Ok (DhDone None h k)
            else Ok (DhFailed "Invalid server signature")
        end
    end.

End dh.

(** ** The exchange hash of RFC 4253 *)

Section spec.
Context `{NettleBignum} `{HashFunctions}.

(** Two's complement digits of a number that is not negative. *)
Definition mpint_digits (n : Z) : list Z := be_bytes (Z.to_nat (mpn_length no_flags n)) n.
Definition wire_mpint (n : Z) : list Z := wire_string (mpint_digits n).

(** [V_C || V_S || I_C || I_S] *)
Definition greeting_octets (v_c v_s i_c i_s : list Z) : list Z :=
  wire_string v_c ++ wire_string v_s ++ wire_string i_c ++ wire_string i_s.

Definition rfc4253_exchange_hash (h : nettle_hash) (v_c v_s i_c i_s k_s : list Z) (e f k : Z) : list Z :=
  hash_of h (greeting_octets v_c v_s i_c i_s ++ wire_string k_s ++ wire_mpint e ++ wire_mpint f ++ wire_mpint k).

End spec.

Section proofs.
Context `{MallocOk} `{NettleMacrosOk} `{NettleBignumOk} `{AtomTableOk} `{Crypto} `{HashFunctionsOk} `{!Algorithms}.

(** ** Numbers of a group *)

Record params_ok (p : dh_params) : Prop := {
  po_modulo : 3 <= dp_modulo p;
  po_limit : dp_limit p = nettle_mpz_sizeinbase_256_u (dp_modulo p);
  po_small : dp_limit p <= 4000;
}.

Lemma make_dh_params_ok m g h :
  3 <= m → nettle_mpz_sizeinbase_256_u m <= 4000 → params_ok (make_dh_params m g h).
Proof. intros. by split. Qed.

Lemma powm_spec b e m : 3 <= m → mpz_powm b e m = b ^ e `mod` m.
Proof. intros Hm. apply Zpow_mod_correct. lia. Qed.

Lemma powm_range b e m : 3 <= m → 0 <= mpz_powm b e m < m.
Proof. intros Hm. rewrite powm_spec by done. apply Z.mod_pos_bound. lia. Qed.

(** The shared secret. *)
Lemma powm_agree g x y m :
  3 <= m → 0 <= x → 0 <= y → mpz_powm (mpz_powm g x m) y m = mpz_powm (mpz_powm g y m) x m.
Proof.
  intros Hm Hx Hy. rewrite !powm_spec by done. rewrite <- !Zpower_mod by lia.
  by rewrite <- !Z.pow_mul_r, Z.mul_comm by lia.
Qed.

(** The digits of a number of the group take one octet more than the modulus
    at most. *)
Lemma mpn_length_fits n : 0 <= n → 0 <= mpn_length no_flags n ∧ 2 * n < 256 ^ mpn_length no_flags n.
Proof.
  intros Hn. unfold mpn_length. destruct (Z.eqb_spec n 0) as [-> |]; [simpl; lia |]. simpl.
  destruct (proj1 (sizeinbase_256_s_spec n _ ltac:(lia)) eq_refl). lia.
Qed.

Lemma mpn_length_limit p n : params_ok p → 0 <= n < dp_modulo p → 0 <= mpn_length no_flags n <= dp_limit p + 1.
Proof.
  intros [Hm Hl Hs] Hn. destruct (mpn_length_fits n) as [H0' _]; [lia |]. split; [done |].
  unfold mpn_length. destruct (Z.eqb_spec n 0) as [-> | Hnz].
  - destruct (proj1 (sizeinbase_256_u_spec (dp_modulo p) _ ltac:(lia)) eq_refl). rewrite Hl. lia.
  - simpl. destruct (proj1 (sizeinbase_256_s_spec n _ ltac:(lia)) eq_refl) as (Hp & Hlo & _).
    destruct (proj1 (sizeinbase_256_u_spec (dp_modulo p) _ ltac:(lia)) eq_refl) as (Hq & _ & Hhi). rewrite Hl.
    set (a := nettle_mpz_sizeinbase_256_s n) in *. set (b := nettle_mpz_sizeinbase_256_u (dp_modulo p)) in *.
    assert (256 ^ (a - 1) < 256 ^ (b + 1)) as Hlt by (rewrite Z.pow_add_r by lia; change (256 ^ 1) with 256; lia).
    apply Z.pow_lt_mono_r_iff in Hlt; lia.
Qed.

Lemma lenZ_mpint_digits n : 0 <= n → lenZ (mpint_digits n) = mpn_length no_flags n.
Proof. intros Hn. unfold mpint_digits. rewrite lenZ_be_bytes. destruct (mpn_length_fits n Hn). lia. Qed.

Lemma mpint_digits_bytes n : Forall is_byte (mpint_digits n).
Proof. apply be_bytes_bytes. Qed.

(** ** Reading numbers *)

Lemma parse_bignum_reads limit n b tl :
  0 <= n → 0 < limit < 2 ^ 32 - 1 → mpn_length no_flags n <= limit + 1 →
  buffer_wf b → remaining b = wire_mpint n ++ tl →
  ∃ b', parse_bignum limit b = Ok (b', Some n) ∧ buffer_wf b' ∧ remaining b' = tl.
Proof.
  intros Hn Hlim Hle Hb Hr. destruct (mpn_length_fits n Hn) as [Hl0 Hfit].
  pose proof (lenZ_mpint_digits n Hn) as Hd.
  destruct (codec_reads (p := parse_string) (mpint_digits n) b tl) as (b' & Hp & Hw & Hrem); [| done | done |].
  { split; [apply be_bytes_bytes |]. unfold is_u32. lia. }
  exists b'. split_and!; try done. unfold parse_bignum. rewrite Hp, bind_ok_l. unfold c_true.
  rewrite u32_id by (unfold is_u32; lia). rewrite (proj2 (Z.ltb_ge _ _)) by lia. rewrite andb_false_r.
  assert (be_value (mpint_digits n) = n) as Hv
    by (apply be_value_bytes; rewrite Z2Nat.id by lia; lia).
  rewrite set_str_256_s_spec by apply be_bytes_bytes. by rewrite Hd, Hv, (proj2 (Z.ltb_lt _ _)).
Qed.

Lemma parse_public_reads p n b tl :
  params_ok p → 1 < n < dp_modulo p → buffer_wf b → remaining b = wire_mpint n ++ tl →
  ∃ b', parse_public p b = Ok (b', Some n) ∧ buffer_wf b' ∧ remaining b' = tl.
Proof.
  intros Hp Hn Hb Hr. pose proof (mpn_length_limit p n Hp) as Hl. pose proof Hp as [Hm Hlim Hs].
  destruct (proj1 (sizeinbase_256_u_spec (dp_modulo p) _ ltac:(lia)) eq_refl) as (Hq & _).
  destruct (parse_bignum_reads (dp_limit p) n b tl) as (b' & Hpb & Hw & Hrem); [lia | lia | lia | done | done |].
  exists b'. split_and!; try done. unfold parse_public, mbind, parser_bind. rewrite Hpb, bind_ok_l.
  by rewrite !(proj2 (Z.ltb_lt _ _)) by lia.
Qed.

Lemma parse_public_total p b :
  buffer_wf b → ∃ b' r, parse_public p b = Ok (b', r) ∧ buffer_wf b'
    ∧ match r with Some n => 1 < n < dp_modulo p | None => True end.
Proof.
  intros Hb. unfold parse_public, parse_bignum, mbind, parser_bind.
  destruct (codec_exact (p := parse_string) b Hb) as (b1 & r1 & -> & Hb1 & _). rewrite bind_ok_l.
  destruct r1 as [d |]; [| by eexists _, None]. destruct (c_true _ && _); [by eexists _, None |]. rewrite bind_ok_l.
  destruct (_ && _) eqn:Hc; [| by eexists _, None]. apply andb_true_iff in Hc as [? ?].
  eexists _, (Some _). split_and!; [done | done | lia..].
Qed.

(** ** The steps *)

Definition fed (h : nettle_hash) (d : list Z) : hash_instance := mk_hash h d.

(** A message consisting of strings is short enough to be formatted. *)
Lemma dh_hash_update_spec dh s input :
  lsh_string_wf s → dh_hash dh = fed (dp_H (dh_the_params dh)) input →
  dh_hash_update dh s
  = Ok (mk_dh_state (dh_the_params dh) (dh_e dh) (dh_f dh) (dh_secret dh) (dh_K dh)
          (fed (dp_H (dh_the_params dh)) (input ++ contents s)) (dh_exchange_hash dh)).
Proof.
  intros Hs Hh. unfold dh_hash_update. rewrite Hh, hash_update_string by done. done.
Qed.

Lemma dh_make_key_spec dh other :
  params_ok (dh_the_params dh) →
  let n := mpz_powm other (dh_secret dh) (dp_modulo (dh_the_params dh)) in
  ∃ k, dh_make_key dh other = Ok (set_K dh k) ∧ lsh_string_wf k ∧ contents k = mpint_digits n.
Proof.
  intros Hp n. destruct (powm_range other (dh_secret dh) (dp_modulo (dh_the_params dh))) as [Hn0 Hn1]; [apply Hp |].
  fold n in Hn0, Hn1. pose proof (mpn_length_limit _ n Hp (conj Hn0 Hn1)) as Hl. pose proof (po_small _ Hp).
  destruct (formats_spec "%ln" [FNum n] [PBytes (mpint_digits n)] (mpint_digits n)) as (k & Hk & Hw & Hc).
  - unfold spec_format. cbn -[mpint_digits]. by rewrite (proj2 (Z.ltb_ge _ _)) by lia.
  - simpl. by rewrite app_nil_r.
  - by repeat constructor.
  - rewrite lenZ_mpint_digits by done. lia.
  - exists k. unfold dh_make_key. fold n. rewrite Hk, bind_ok_l. done.
Qed.

Lemma dh_hash_digest_spec dh k input :
  params_ok (dh_the_params dh) → 0 <= dh_e dh < dp_modulo (dh_the_params dh) →
  0 <= dh_f dh < dp_modulo (dh_the_params dh) → dh_K dh = Some k → lsh_string_wf k → ls_length k <= 5000 →
  dh_hash dh = fed (dp_H (dh_the_params dh)) input →
  ∃ d hash, dh_hash_digest dh
    = Ok (mk_dh_state (dh_the_params dh) (dh_e dh) (dh_f dh) (dh_secret dh) (dh_K dh) hash (Some d))
    ∧ lsh_string_wf d ∧ ls_length d <= 64
    ∧ contents d = hash_of (dp_H (dh_the_params dh))
        (input ++ wire_mpint (dh_e dh) ++ wire_mpint (dh_f dh) ++ wire_string (contents k)).
Proof.
  intros Hp He Hf Hk Hkw Hkl Hh. unfold dh_hash_digest. rewrite Hk. cbn [deref]. rewrite bind_ok_l.
  pose proof (mpn_length_limit _ _ Hp He) as Hle. pose proof (mpn_length_limit _ _ Hp Hf) as Hlf. pose proof (po_small _ Hp).
  pose proof (lenZ_mpint_digits (dh_e dh) ltac:(lia)) as Hde. pose proof (lenZ_mpint_digits (dh_f dh) ltac:(lia)) as Hdf.
  pose proof (lenZ_contents k Hkw) as Hlc.
  destruct (formats_spec "%n%n%S" [FNum (dh_e dh); FNum (dh_f dh); FStr k]
    [PBytes (wire_mpint (dh_e dh)); PBytes (wire_mpint (dh_f dh)); PBytes (wire_string (contents k))]
    (wire_mpint (dh_e dh) ++ wire_mpint (dh_f dh) ++ wire_string (contents k))) as (s & -> & Hw & Hc).
  - unfold spec_format. cbn -[be32 be_bytes wire_mpint]. rewrite (proj2 (Z.ltb_ge (dh_e dh) 0)) by lia.
    cbn -[be32 be_bytes wire_mpint]. rewrite (proj2 (Z.ltb_ge (dh_f dh) 0)) by lia.
    cbn -[be32 be_bytes]. unfold wire_mpint, wire_string, with_header. cbn -[be32 be_bytes].
    unfold mpint_digits in *. by rewrite Hde, Hdf, Hlc, <- Hlc, slice_all.
  - simpl. by rewrite app_nil_r.
  - farg_list.
  - unfold wire_mpint. rewrite !lenZ_app, !lenZ_wire_string, Hde, Hdf, Hlc. lia.
  - rewrite bind_ok_l, (dh_hash_update_spec dh s input Hw Hh), bind_ok_l. cbn [dh_hash].
    destruct (hash_digest_string_spec (fed (dp_H (dh_the_params dh)) (input ++ contents s))) as (d & -> & Hdw & Hdl & Hdc).
    rewrite bind_ok_l. eexists d, _. split_and!; [by rewrite <- Hk | done | | by rewrite Hdc, Hc].
    rewrite Hdl. pose proof (digest_size_ok (dp_H (dh_the_params dh))). simpl. unfold HASH_SIZE. simpl. lia.
Qed.

(** The strings a key exchange starts from. *)
Record kex_strings (kex : kexinit_state) (v_c v_s i_c i_s : lsh_string) : Prop := {
  kt_v_c : entry (ks_version kex) false = Some v_c;
  kt_v_s : entry (ks_version kex) true = Some v_s;
  kt_i_c : entry (ks_literal_kexinit kex) false = Some i_c;
  kt_i_s : entry (ks_literal_kexinit kex) true = Some i_s;
  kt_wf : Forall (λ s, lsh_string_wf s ∧ ls_length s <= 100000) [v_c; v_s; i_c; i_s];
}.

Definition dh_initial (params : dh_params) (input : list Z) : dh_state :=
  mk_dh_state params 0 0 0 None (fed (dp_H params) input) None.

Lemma init_dh_state_spec params kex v_c v_s i_c i_s :
  kex_strings kex v_c v_s i_c i_s →
  init_dh_state params kex
  = Ok (dh_initial params (greeting_octets (contents v_c) (contents v_s) (contents i_c) (contents i_s))).
Proof.
  intros [H1' H2' H3' H4' Hwf]. unfold init_dh_state. rewrite H1', H2', H3', H4'. cbn [deref]. rewrite !bind_ok_l.
  rewrite !Forall_cons in Hwf. destruct Hwf as ([Hw1 Hl1] & [Hw2 Hl2] & [Hw3 Hl3] & [Hw4 Hl4] & _).
  pose proof (lenZ_contents v_c Hw1) as E1. pose proof (lenZ_contents v_s Hw2) as E2.
  pose proof (lenZ_contents i_c Hw3) as E3. pose proof (lenZ_contents i_s Hw4) as E4.
  destruct (formats_spec "%S%S%S%S" [FStr v_c; FStr v_s; FStr i_c; FStr i_s]
    [PBytes (wire_string (contents v_c)); PBytes (wire_string (contents v_s));
     PBytes (wire_string (contents i_c)); PBytes (wire_string (contents i_s))]
    (greeting_octets (contents v_c) (contents v_s) (contents i_c) (contents i_s))) as (s & -> & Hw & Hc).
  - unfold spec_format. cbn -[be32 contents wire_string]. unfold wire_string, with_header. simpl.
    by rewrite <- E1, <- E2, <- E3, <- E4, !slice_all.
  - unfold greeting_octets. simpl. by rewrite app_nil_r.
  - farg_list.
  - unfold greeting_octets. rewrite !lenZ_app, !lenZ_wire_string. lia.
  - rewrite bind_ok_l. rewrite (dh_hash_update_spec _ s []) by done. by rewrite Hc.
Qed.

(** A state that waits for the other end's number. *)
Record dh_waiting (dh : dh_state) (input : list Z) : Prop := {
  dw_params : params_ok (dh_the_params dh);
  dw_hash : dh_hash dh = fed (dp_H (dh_the_params dh)) input;
  dw_e : 0 <= dh_e dh < dp_modulo (dh_the_params dh);
  dw_f : 0 <= dh_f dh < dp_modulo (dh_the_params dh);
}.

(** Secret and exchange hash that the numbers lead to. *)
Definition dh_number (dh : dh_state) (other : Z) : Z :=
  mpz_powm other (dh_secret dh) (dp_modulo (dh_the_params dh)).

Record dh_result (dh : dh_state) (input k_s : list Z) (other : Z) (h k : lsh_string) : Prop := {
  dr_h : lsh_string_wf h;
  dr_k : lsh_string_wf k;
  dr_h_length : ls_length h <= 64;
  dr_k_length : ls_length k <= 4001;
  dr_k_contents : contents k = mpint_digits (dh_number dh other);
  dr_h_contents : contents h = hash_of (dp_H (dh_the_params dh))
      (input ++ wire_string k_s ++ wire_mpint (dh_e dh) ++ wire_mpint (dh_f dh) ++ wire_mpint (dh_number dh other));
}.

Lemma dh_complete dh input k_s other s :
  dh_waiting dh input → lsh_string_wf s → contents s = wire_string k_s →
  ∃ k h dh2 dh3, dh_make_key dh other = Ok (set_K dh k) ∧ dh_hash_update (set_K dh k) s = Ok dh2
    ∧ dh_hash_digest dh2 = Ok dh3 ∧ dh_exchange_hash dh3 = Some h ∧ dh_K dh3 = Some k ∧ dh_f dh3 = dh_f dh
    ∧ dh_result dh input k_s other h k.
Proof.
  intros [Hp Hh He Hf] Hs Hsc. destruct (dh_make_key_spec dh other Hp) as (k & Hk & Hkw & Hkc).
  fold (dh_number dh other) in Hkc.
  destruct (powm_range other (dh_secret dh) (dp_modulo (dh_the_params dh))) as [Hn0 Hn1]; [apply Hp |].
  fold (dh_number dh other) in Hn0, Hn1.
  assert (ls_length k <= 4001) as Hkl.
  { rewrite <- (lenZ_contents k Hkw), Hkc, lenZ_mpint_digits by done.
    pose proof (mpn_length_limit _ _ Hp (conj Hn0 Hn1)). pose proof (po_small _ Hp). lia. }
  pose proof (dh_hash_update_spec (set_K dh k) s input Hs Hh) as Hu. cbn [set_K dh_the_params dh_e dh_f dh_secret dh_K dh_exchange_hash] in Hu.
  destruct (dh_hash_digest_spec (mk_dh_state (dh_the_params dh) (dh_e dh) (dh_f dh) (dh_secret dh) (Some k)
    (fed (dp_H (dh_the_params dh)) (input ++ contents s)) (dh_exchange_hash dh)) k (input ++ contents s))
    as (d & hash & Hd & Hdw & Hdl & Hdc); try done; [lia |].
  eexists k, d, _, _. refine (conj Hk (conj Hu (conj Hd (conj eq_refl (conj eq_refl (conj eq_refl _)))))).
  split; try done. rewrite Hdc, Hsc, <- app_assoc. cbn [dh_the_params dh_e dh_f]. unfold wire_mpint. by rewrite Hkc.
Qed.

Lemma format_public_spec ks :
  lsh_string_wf ks → ls_length ks <= 10000 → formats (ssh_format_string "%S" [FStr ks]) (wire_string (contents ks)).
Proof.
  intros Hw Hl. pose proof (lenZ_contents ks Hw) as E. eapply formats_spec; [reflexivity | | farg_list |].
  - cbn -[be32 contents]. unfold wire_string. by rewrite <- E, slice_all, app_nil_r.
  - rewrite lenZ_wire_string. lia.
Qed.

Lemma format_key_spec key :
  Forall is_byte key → lenZ key < 2 ^ 31 → formats (ssh_format_string "%s" [FInt (lenZ key); FBytes key]) (wire_string key).
Proof.
  intros Hb Hl. pose proof (lenZ_nonneg key). eapply formats_spec.
  - unfold spec_format. cbn -[be32 u32]. rewrite u32_id by (unfold is_u32; lia).
    rewrite (proj2 (Z.ltb_ge _ _)) by lia. cbn -[be32]. reflexivity.
  - cbn -[be32]. unfold with_header. simpl. by rewrite slice_all, !app_nil_r.
  - by repeat constructor.
  - rewrite lenZ_wire_string. lia.
Qed.

(** [KEXDH_REPLY] *)
Definition reply_octets (k_s : list Z) (f : Z) (signature : list Z) : list Z :=
  SSH_MSG_KEXDH_REPLY :: wire_string k_s ++ wire_mpint f ++ wire_string signature.

Lemma format_reply_spec p ks f sig :
  params_ok p → 0 <= f < dp_modulo p → lsh_string_wf ks → ls_length ks <= 10000 →
  lsh_string_wf sig → ls_length sig <= 10000 →
  formats (ssh_format_string "%c%S%n%fS" [FInt SSH_MSG_KEXDH_REPLY; FStr ks; FNum f; FStr sig])
    (reply_octets (contents ks) f (contents sig))
  ∧ lenZ (reply_octets (contents ks) f (contents sig)) <= SSH_MAX_PACKET.
Proof.
  intros Hp Hf Hkw Hkl Hsw Hsl. pose proof (lenZ_contents ks Hkw) as Ek. pose proof (lenZ_contents sig Hsw) as Es.
  pose proof (mpn_length_limit _ _ Hp Hf). pose proof (po_small _ Hp).
  pose proof (lenZ_mpint_digits f ltac:(lia)) as Hd.
  assert (lenZ (reply_octets (contents ks) f (contents sig)) <= SSH_MAX_PACKET) as Hlen.
  { unfold reply_octets, wire_mpint, SSH_MAX_PACKET. rewrite lenZ_cons, !lenZ_app, !lenZ_wire_string. lia. }
  split; [| done]. eapply formats_spec.
  - unfold spec_format. cbn -[be32 be_bytes contents u8]. rewrite (proj2 (Z.ltb_ge f 0)) by lia.
    cbn -[be32 be_bytes contents u8]. reflexivity.
  - cbn -[be32 be_bytes contents u8]. unfold reply_octets, wire_mpint, wire_string, with_header. cbn -[be32 be_bytes contents].
    rewrite <- Ek, <- Es, !slice_all, Hd, app_nil_r, <- !app_assoc. done.
  - farg_list.
  - unfold SSH_MAX_PACKET in Hlen. lia.
Qed.

(** ** The handlers *)

Context `{Signatures} `{!SignaturesOk}.

Record keypair_ok (key : keypair) : Prop := {
  kk_public : lsh_string_wf (pair_public key);
  kk_length : ls_length (pair_public key) <= 10000;
}.

(** The server's answer to [e]. *)
Definition server_answers (dh : dh_state) (key : keypair) (input : list Z) (e : Z) (o : dh_outcome) : Prop :=
  ∃ h k, dh_result (set_e dh e) input (contents (pair_public key)) e h k
    ∧ match SIGN (pair_private key) (pair_type key) (contents h) with
      | None => o = DhFailed "Configuration error."
      | Some sig => lsh_string_wf sig ∧ ∃ reply, o = DhDone (Some reply) h k ∧ lsh_string_wf reply
          ∧ contents reply = reply_octets (contents (pair_public key)) (dh_f dh) (contents sig)
          ∧ ls_length reply <= SSH_MAX_PACKET
      end.

Lemma server_answer dh key input e :
  dh_waiting dh input → keypair_ok key → 1 < e < dp_modulo (dh_the_params dh) →
  ∃ o, (dh ← dh_make_key (set_e dh e) e;
        s ← ssh_format_string "%S" [FStr (pair_public key)];
        dh ← dh_hash_update dh s;
        dh ← dh_hash_digest dh;
        h ← deref (dh_exchange_hash dh);
        k ← deref (dh_K dh);
        match SIGN (pair_private key) (pair_type key) (contents h) with
        | Some signature =>
            reply ← ssh_format_string "%c%S%n%fS"
                      [FInt SSH_MSG_KEXDH_REPLY; FStr (pair_public key); FNum (dh_f dh); FStr signature];
            Ok (DhDone (Some reply) h k)
        | None => Ok (DhFailed "Configuration error.")
        end) = Ok o ∧ server_answers dh key input e o.
Proof.
  intros [Hp Hh _ Hf] [Hkw Hkl] He.
  assert (dh_waiting (set_e dh e) input) as Hw by (split; try done; simpl; lia).
  destruct (format_public_spec _ Hkw Hkl) as (s & Hs & Hsw & Hsc).
  destruct (dh_complete (set_e dh e) input (contents (pair_public key)) e s Hw Hsw Hsc)
    as (k & h & dh2 & dh3 & -> & Hu & Hd & Hhash & HK & Hf3 & Hres).
  rewrite bind_ok_l, Hs, bind_ok_l, Hu, bind_ok_l, Hd, bind_ok_l, Hhash, HK. cbn [deref]. rewrite !bind_ok_l, Hf3. cbn [set_e dh_f].
  destruct (SIGN _ _ _) as [sig |] eqn:Hsig.
  - destruct (SIGN_ok _ _ _ _ Hsig) as [Hgw Hgl].
    destruct (format_reply_spec (dh_the_params dh) (pair_public key) (dh_f dh) sig) as [(r & -> & Hrw & Hrc) Hlen]; try done.
    rewrite bind_ok_l. eexists. split; [done |]. exists h, k. split; [done |]. rewrite Hsig. split; [done |].
    exists r. split_and!; try done. by rewrite <- (lenZ_contents r Hrw), Hrc.
  - eexists. split; [done |]. exists h, k. split; [done |]. by rewrite Hsig.
Qed.

Lemma packet_buffer c body :
  Forall is_byte (c :: body) → lenZ (c :: body) < 2 ^ 32 →
  buffer_wf (simple_buffer_init (lenZ (c :: body) - 1) (drop 1 (c :: body)))
  ∧ remaining (simple_buffer_init (lenZ (c :: body) - 1) (drop 1 (c :: body))) = body.
Proof.
  intros Hb Hl. rewrite lenZ_cons in *. replace (1 + lenZ body - 1) with (lenZ body) by lia.
  change (drop 1 (c :: body)) with body. apply Forall_cons in Hb as [_ Hb]. apply init_wf; [done | lia].
Qed.

Lemma parse_kexdh_init_total p b :
  buffer_wf b → ∃ b' r, parse_kexdh_init p b = Ok (b', r)
    ∧ match r with Some e => 1 < e < dp_modulo p | None => True end.
Proof.
  intros Hb. unfold parse_kexdh_init, mbind, parser_bind.
  destruct (parse_public_total p b Hb) as (b1 & r1 & -> & Hb1 & Hr1). rewrite bind_ok_l.
  destruct r1 as [e |]; [| by eexists _, None]. rewrite parse_eod_spec by done. rewrite bind_ok_l.
  case_bool_decide; [by eexists _, (Some _) | by eexists _, None].
Qed.

(** Any message: the server fails with a message, or answers. *)
Lemma server_dh_process_total dh key input data :
  dh_waiting dh input → keypair_ok key → Forall is_byte data → 0 < lenZ data < 2 ^ 32 →
  ∃ o, server_dh_process dh key (lenZ data) data = Ok o
    ∧ (o = DhFailed "No KEXDH_INIT message." ∨ o = DhFailed "Invalid KEXDH_INIT message."
       ∨ ∃ e, 1 < e < dp_modulo (dh_the_params dh) ∧ server_answers dh key input e o).
Proof.
  intros Hw Hk Hb Hl. unfold server_dh_process. pass_assert. destruct data as [| c body]; [by destruct Hl|].
  rewrite rd_0, bind_ok_l. destruct (negb _); [eexists; auto |].
  destruct (packet_buffer c body Hb) as [Hbw _]; [lia |].
  destruct (parse_kexdh_init_total (dh_the_params dh) _ Hbw) as (b' & r & -> & Hr). rewrite bind_ok_l.
  destruct r as [e |]; [| eexists; auto].
  destruct (server_answer dh key input e Hw Hk Hr) as (o & -> & Ho). exists o. split; [done |]. right. right. by exists e.
Qed.

(** The message of a client. *)
Lemma server_dh_process_accepts dh key input e :
  dh_waiting dh input → keypair_ok key → 1 < e < dp_modulo (dh_the_params dh) →
  let data := SSH_MSG_KEXDH_INIT :: wire_mpint e in
  ∃ o, server_dh_process dh key (lenZ data) data = Ok o ∧ server_answers dh key input e o.
Proof.
  intros Hw Hk He data. pose proof (dw_params _ _ Hw) as Hp.
  pose proof (mpn_length_limit _ e Hp ltac:(lia)) as Hlim. pose proof (po_small _ Hp).
  pose proof (lenZ_mpint_digits e ltac:(lia)) as Hd.
  assert (lenZ data = 5 + mpn_length no_flags e) as Hl.
  { unfold data, wire_mpint. rewrite lenZ_cons, lenZ_wire_string. lia. }
  unfold server_dh_process. pass_assert. assert (rd data 0 = Ok SSH_MSG_KEXDH_INIT) as -> by apply rd_0. rewrite bind_ok_l. rewrite Z.eqb_refl. cbn [negb].
  destruct (packet_buffer SSH_MSG_KEXDH_INIT (wire_mpint e)) as [Hbw Hbr].
  { constructor; [done |]. unfold wire_mpint, wire_string. apply Forall_app. split; apply be_bytes_bytes. }
  { fold data. lia. }
  destruct (parse_public_reads (dh_the_params dh) e _ [] Hp He Hbw) as (b1 & Hpp & Hb1 & Hr1); [by rewrite Hbr, app_nil_r |].
  unfold parse_kexdh_init, mbind, parser_bind. fold data in Hpp. rewrite Hpp, bind_ok_l, parse_eod_spec by done.
  rewrite bind_ok_l, Hr1, bool_decide_true by done. cbn. by apply server_answer.
Qed.

(** The client's use of [KEXDH_REPLY]. *)
Definition client_answers (dh : dh_state) (db : lookup_verifier) (alg : Z) (input key : list Z) (f : Z) (sig : list Z)
  (o : dh_outcome) : Prop :=
  match LOOKUP_VERIFIER db alg key with
  | None => o = DhFailed "Unknown server host key"
  | Some v => ∃ h k, dh_result (set_f dh f) input key f h k
      ∧ o = if VERIFY v alg (contents h) sig then DhDone None h k else DhFailed "Invalid server signature"
  end.

Lemma client_answer dh db alg input key f sig :
  dh_waiting dh input → Forall is_byte key → lenZ key < 2 ^ 31 → 1 < f < dp_modulo (dh_the_params dh) →
  ∃ o, match LOOKUP_VERIFIER db alg key with
       | None => Ok (DhFailed "Unknown server host key")
       | Some v =>
           dh ← dh_make_key (set_f dh f) f;
           s ← ssh_format_string "%s" [FInt (lenZ key); FBytes key];
           dh ← dh_hash_update dh s;
           dh ← dh_hash_digest dh;
           h ← deref (dh_exchange_hash dh);
           k ← deref (dh_K dh);
           if VERIFY v alg (contents h) sig then Ok (DhDone None h k)
           else Ok (DhFailed "Invalid server signature")
       end = Ok o ∧ client_answers dh db alg input key f sig o.
Proof.
  intros [Hp Hh He _] Hkb Hkl Hf. unfold client_answers. destruct (LOOKUP_VERIFIER db alg key) as [v |]; [| by eexists].
  assert (dh_waiting (set_f dh f) input) as Hw by (split; try done; simpl; lia).
  destruct (format_key_spec key Hkb Hkl) as (s & Hs & Hsw & Hsc).
  destruct (dh_complete (set_f dh f) input key f s Hw Hsw Hsc)
    as (k & h & dh2 & dh3 & -> & Hu & Hd & Hhash & HK & Hf3 & Hres).
  rewrite bind_ok_l, Hs, bind_ok_l, Hu, bind_ok_l, Hd, bind_ok_l, Hhash, HK. cbn [deref]. rewrite !bind_ok_l.
  eexists (if VERIFY v alg (contents h) sig then _ else _). split; [by destruct (VERIFY _ _ _ _) |].
  exists h, k. split; [done |]. by destruct (VERIFY _ _ _ _).
Qed.

Lemma parse_kexdh_reply_total p b :
  buffer_wf b → ∃ b' r, parse_kexdh_reply p b = Ok (b', r)
    ∧ match r with Some (key, f, sig) => Forall is_byte key ∧ lenZ key < lenZ (remaining b) ∧ 1 < f < dp_modulo p | None => True end.
Proof.
  intros Hb. unfold parse_kexdh_reply, mbind, parser_bind.
  destruct (codec_exact (p := parse_string) b Hb) as (b1 & r1 & -> & Hb1 & _ & Hr1). rewrite bind_ok_l.
  destruct r1 as [key |]; [| by eexists _, None]. destruct (Hr1 key eq_refl) as [[Hkb _] Hrem].
  destruct (parse_public_total p b1 Hb1) as (b2 & r2 & -> & Hb2 & Hr2). rewrite bind_ok_l.
  destruct r2 as [f |]; [| by eexists _, None].
  destruct (codec_exact (p := parse_string) b2 Hb2) as (b3 & r3 & -> & Hb3 & _). rewrite bind_ok_l.
  destruct r3 as [sig |]; [| by eexists _, None]. rewrite parse_eod_spec by done. rewrite bind_ok_l.
  case_bool_decide; [| by eexists _, None]. eexists _, (Some _). split; [done |]. split_and!; try done; try lia.
  rewrite Hrem, !lenZ_app, lenZ_be32. pose proof (lenZ_nonneg (remaining b1)). lia.
Qed.

Lemma client_dh_process_total dh db alg input data :
  dh_waiting dh input → Forall is_byte data → 0 < lenZ data < 2 ^ 31 →
  ∃ o, client_dh_process dh db alg (lenZ data) data = Ok o
    ∧ (o = DhFailed "No KEXDH_REPLY message." ∨ o = DhFailed "Invalid KEXDH_REPLY message"
       ∨ ∃ key f sig, 1 < f < dp_modulo (dh_the_params dh) ∧ client_answers dh db alg input key f sig o).
Proof.
  intros Hw Hb Hl. unfold client_dh_process. pass_assert. destruct data as [| c body]; [by destruct Hl|].
  rewrite rd_0, bind_ok_l. destruct (negb _); [eexists; auto |].
  destruct (packet_buffer c body Hb) as [Hbw Hbr]; [lia |].
  destruct (parse_kexdh_reply_total (dh_the_params dh) _ Hbw) as (b' & r & -> & Hr). rewrite bind_ok_l.
  destruct r as [[[key f] sig] |]; [| eexists; auto]. rewrite Hbr in Hr. destruct Hr as (Hkb & Hkl & Hf).
  rewrite lenZ_cons in Hl.
  destruct (client_answer dh db alg input key f sig Hw Hkb ltac:(lia) Hf) as (o & -> & Ho).
  exists o. split; [done |]. right. right. by exists key, f, sig.
Qed.

(** The reply of a server. *)
Lemma client_dh_process_accepts dh db alg input key f sig :
  dh_waiting dh input → Forall is_byte key → Forall is_byte sig → lenZ key <= 10000 → lenZ sig <= 10000 →
  1 < f < dp_modulo (dh_the_params dh) →
  let data := reply_octets key f sig in
  ∃ o, client_dh_process dh db alg (lenZ data) data = Ok o ∧ client_answers dh db alg input key f sig o.
Proof.
  intros Hw Hkb Hsb Hkl Hsl Hf data. pose proof (dw_params _ _ Hw) as Hp.
  pose proof (mpn_length_limit _ f Hp ltac:(lia)) as Hlim. pose proof (po_small _ Hp).
  pose proof (lenZ_mpint_digits f ltac:(lia)) as Hd. pose proof (lenZ_nonneg key). pose proof (lenZ_nonneg sig).
  assert (0 < lenZ data < 2 ^ 31) as Hl.
  { unfold data, reply_octets, wire_mpint. rewrite lenZ_cons, !lenZ_app, !lenZ_wire_string. lia. }
  unfold client_dh_process. pass_assert. assert (rd data 0 = Ok SSH_MSG_KEXDH_REPLY) as -> by apply rd_0.
  rewrite bind_ok_l, Z.eqb_refl. cbn [negb].
  set (body := wire_string key ++ wire_mpint f ++ wire_string sig).
  destruct (packet_buffer SSH_MSG_KEXDH_REPLY body) as [Hbw Hbr].
  { constructor; [done |]. unfold body, wire_mpint, wire_string.
    rewrite !Forall_app. split_and!; first [apply be_bytes_bytes | assumption]. }
  { change (lenZ data < 2 ^ 32). lia. }
  change (SSH_MSG_KEXDH_REPLY :: body) with data in Hbw, Hbr.
  destruct (codec_reads (p := parse_string) key (simple_buffer_init (lenZ data - 1) (drop 1 data))
    (wire_mpint f ++ wire_string sig)) as (b1 & Hp1 & Hb1 & Hr1).
  { split; [done |]. unfold is_u32. lia. }
  { done. }
  { exact Hbr. }
  destruct (parse_public_reads (dh_the_params dh) f b1 (wire_string sig) Hp Hf Hb1 Hr1) as (b2 & Hp2 & Hb2 & Hr2).
  destruct (codec_reads (p := parse_string) sig b2 []) as (b3 & Hp3 & Hb3 & Hr3).
  { split; [done |]. unfold is_u32. lia. }
  { done. }
  { by rewrite Hr2, app_nil_r. }
  unfold parse_kexdh_reply, mbind, parser_bind. rewrite Hp1, bind_ok_l, Hp2, bind_ok_l, Hp3, bind_ok_l.
  rewrite parse_eod_spec by done. rewrite bind_ok_l, Hr3, bool_decide_true by done. cbn.
  apply client_answer; try done. lia.
Qed.

(** ** Agreement *)

Context `{!MpzRandom} `{!MpzRandomOk}.

(** The state a handler is created with: the server sends [f], the client [e]. *)
Definition client_state (dh : dh_state) (x e : Z) : dh_state := set_e (set_secret dh x) e.
Definition server_state (dh : dh_state) (y f : Z) : dh_state := set_f (set_secret dh y) f.

Lemma dh_generate_secret_spec params g :
  params_ok params →
  ∃ g' x, dh_generate_secret params g = (g', x, mpz_powm (dp_generator params) x (dp_modulo params)) ∧ 1 <= x.
Proof.
  intros [Hm _ _]. unfold dh_generate_secret. pose proof (nettle_mpz_random_ok g (dp_modulo params - 2) ltac:(lia)) as Hr.
  destruct (nettle_mpz_random g (dp_modulo params - 2)) as [g' r]. simpl in *. exists g', (r + 1). split; [done | lia].
Qed.

Lemma initial_waiting params input :
  params_ok params → dh_waiting (dh_initial params input) input.
Proof. intros Hp. pose proof (po_modulo _ Hp). split; simpl; done || lia. Qed.

Lemma client_waiting params input x e :
  params_ok params → 0 <= e < dp_modulo params → dh_waiting (client_state (dh_initial params input) x e) input.
Proof. intros Hp He. pose proof (po_modulo _ Hp). split; simpl; done || lia. Qed.

Lemma server_waiting params input y f :
  params_ok params → 0 <= f < dp_modulo params → dh_waiting (server_state (dh_initial params input) y f) input.
Proof. intros Hp Hf. pose proof (po_modulo _ Hp). split; simpl; done || lia. Qed.

Lemma format_kexdh_init_spec p e :
  params_ok p → 0 <= e < dp_modulo p →
  formats (format_kexdh_init e) (SSH_MSG_KEXDH_INIT :: wire_mpint e)
  ∧ lenZ (SSH_MSG_KEXDH_INIT :: wire_mpint e) <= SSH_MAX_PACKET.
Proof.
  intros Hp He. pose proof (mpn_length_limit _ _ Hp He). pose proof (po_small _ Hp).
  pose proof (lenZ_mpint_digits e ltac:(lia)) as Hd.
  assert (lenZ (SSH_MSG_KEXDH_INIT :: wire_mpint e) <= SSH_MAX_PACKET) as Hlen.
  { unfold wire_mpint, SSH_MAX_PACKET. rewrite lenZ_cons, lenZ_wire_string. lia. }
  split; [| done]. eapply formats_spec.
  - unfold spec_format. cbn -[be32 be_bytes u8]. rewrite (proj2 (Z.ltb_ge e 0)) by lia.
    cbn -[be32 be_bytes u8]. reflexivity.
  - cbn -[be32 be_bytes u8]. unfold wire_mpint, wire_string, with_header. cbn -[be32 be_bytes].
    by rewrite Hd, app_nil_r.
  - farg_list.
  - unfold SSH_MAX_PACKET in Hlen. lia.
Qed.

(** Two strings with the same octets. *)
Definition same_octets (s t : lsh_string) : Prop := contents s = contents t.

(** C3: Diffie-Hellman: a server that processes the client's [KEXDH_INIT] and a
    client that processes the server's [KEXDH_REPLY] end up with the same
    shared secret [g ^ (x y) mod p] and the same exchange hash, which is the
    one of RFC 4253, section 8, if the public numbers are acceptable and the
    client accepts the server's host key and signature. *)
Theorem dh_exchange_agrees params kex_c kex_s v_c v_s i_c i_s key db alg v gc gs gc' gs' x y e f :
  params_ok params → kex_strings kex_c v_c v_s i_c i_s → kex_strings kex_s v_c v_s i_c i_s → keypair_ok key →
  dh_generate_secret params gc = (gc', x, e) → dh_generate_secret params gs = (gs', y, f) → 1 < e → 1 < f →
  LOOKUP_VERIFIER db alg (contents (pair_public key)) = Some v →
  (∀ d, ∃ sig, SIGN (pair_private key) (pair_type key) d = Some sig ∧ VERIFY v alg d (contents sig) = true) →
  ∃ dc ds init reply h k h' k',
    init_dh_state params kex_c = Ok dc ∧ init_dh_state params kex_s = Ok ds ∧ format_kexdh_init e = Ok init
    ∧ server_dh_process (server_state ds y f) key (ls_length init) (contents init) = Ok (DhDone (Some reply) h k)
    ∧ client_dh_process (client_state dc x e) db alg (ls_length reply) (contents reply) = Ok (DhDone None h' k')
    ∧ same_octets h h' ∧ same_octets k k'
    ∧ contents k = mpint_digits (dp_generator params ^ (x * y) `mod` dp_modulo params)
    ∧ contents h = rfc4253_exchange_hash (dp_H params) (contents v_c) (contents v_s) (contents i_c) (contents i_s)
        (contents (pair_public key)) e f (dp_generator params ^ (x * y) `mod` dp_modulo params).
Proof.
  intros Hp Hkc Hks Hkey Hgc Hgs He Hf Hv Hsig. pose proof (po_modulo _ Hp) as Hm.
  destruct (dh_generate_secret_spec params gc Hp) as (g1 & x' & Hx & Hx1). rewrite Hgc in Hx. simplify_eq.
  destruct (dh_generate_secret_spec params gs Hp) as (g2 & y' & Hy & Hy1). rewrite Hgs in Hy. simplify_eq.
  rename x' into x, y' into y. set (e := mpz_powm (dp_generator params) x (dp_modulo params)) in *.
  set (f := mpz_powm (dp_generator params) y (dp_modulo params)) in *.
  destruct (powm_range (dp_generator params) x (dp_modulo params) Hm) as [_ He1]. fold e in He1.
  destruct (powm_range (dp_generator params) y (dp_modulo params) Hm) as [_ Hf1]. fold f in Hf1.
  set (input := greeting_octets (contents v_c) (contents v_s) (contents i_c) (contents i_s)).
  destruct (format_kexdh_init_spec params e Hp ltac:(lia)) as [(init & Hinit & Hiw & Hic) _].
  assert (dh_waiting (server_state (dh_initial params input) y f) input) as Hws by (apply server_waiting; [done | lia]).
  assert (dh_waiting (client_state (dh_initial params input) x e) input) as Hwc by (apply client_waiting; [done | lia]).
  destruct (server_dh_process_accepts _ key input e Hws Hkey (conj He He1)) as (o & Ho & h & k & Hres & Hans).
  destruct (Hsig (contents h)) as (sig & Hsign & Hver). rewrite Hsign in Hans.
  destruct Hans as (Hsw & reply & -> & Hrw & Hrc & Hrl). destruct (SIGN_ok _ _ _ _ Hsign) as [_ Hsl].
  destruct (client_dh_process_accepts _ db alg input (contents (pair_public key)) f (contents sig) Hwc)
    as (o & Hoc & Hcl); try lia; try (by apply contents_bytes; apply Hkey || done).
  { rewrite lenZ_contents by apply Hkey. apply Hkey. }
  { by rewrite lenZ_contents. }
  { split; [done | exact Hf1]. }
  unfold client_answers in Hcl. rewrite Hv in Hcl. destruct Hcl as (h' & k' & Hres' & ->).
  pose proof (dr_h_contents _ _ _ _ _ _ Hres) as Hhc. pose proof (dr_h_contents _ _ _ _ _ _ Hres') as Hhc'.
  pose proof (dr_k_contents _ _ _ _ _ _ Hres) as Hkc1. pose proof (dr_k_contents _ _ _ _ _ _ Hres') as Hkc'.
  assert (dh_number (set_e (server_state (dh_initial params input) y f) e) e
          = dp_generator params ^ (x * y) `mod` dp_modulo params) as Hn.
  { unfold dh_number, e. simpl. rewrite !powm_spec by done. rewrite <- Zpower_mod by lia. by rewrite <- Z.pow_mul_r by lia. }
  assert (dh_number (set_f (client_state (dh_initial params input) x e) f) f
          = dp_generator params ^ (x * y) `mod` dp_modulo params) as Hn'.
  { rewrite <- Hn. unfold dh_number. simpl. symmetry. apply powm_agree; lia. }
  rewrite Hn in Hhc, Hkc1. rewrite Hn' in Hhc', Hkc'.
  assert (contents h' = contents h) as Heq by (by rewrite Hhc, Hhc'). rewrite Heq, Hver in Hoc.
  exists (dh_initial params input), (dh_initial params input), init, reply, h, k, h', k'.
  split_and!; [by apply init_dh_state_spec | by apply init_dh_state_spec | done | | | done | by unfold same_octets; rewrite Hkc1, Hkc' | done | done].
  - rewrite Hic, <- Hic, <- (lenZ_contents init Hiw), Hic. exact Ho.
  - rewrite <- (lenZ_contents reply Hrw), Hrc. exact Hoc.
Qed.

End proofs.

(** ** Instances *)

(** Signatures that are checksums; one known host key. *)
#[export] Instance ref_signatures : Signatures := {
  signer := Z;
  SIGN s _ d := Some (mk_lsh_string 1 [u8 (s + foldr Z.add 0 d); 0]);
  lookup_verifier := list Z * Z;
  verifier := Z;
  LOOKUP_VERIFIER db _ key := if bool_decide (db.1 = key) then Some db.2 else None;
  VERIFY v _ d sig := bool_decide (sig = [u8 (v + foldr Z.add 0 d)]);
}.

#[export] Instance ref_signatures_ok : SignaturesOk.
Proof.
  split. intros s a d sig [= <-]. split; [| simpl; lia]. split; [unfold is_u32; simpl; lia | done | done |].
  simpl. repeat constructor; try apply u8_range; done.
Qed.

#[export] Instance ref_mpz_random : MpzRandom := λ g n, (g + 1, g `mod` n).

#[export] Instance ref_mpz_random_ok : MpzRandomOk.
Proof. intros g n Hn. apply Z.mod_pos_bound. lia. Qed.

(** A small group. *)
Definition small_group : dh_params := make_dh_params 23 5 ref_md.

Definition ref_kex_state (n : Z) : kexinit_state :=
  mk_kexinit_state KEX_STATE_IN_PROGRESS n
    (mk_two (Some (mk_lsh_string 1 [67; 0])) (Some (mk_lsh_string 1 [83; 0])))
    (mk_two None None) (mk_two (Some (mk_lsh_string 1 [1; 0])) (Some (mk_lsh_string 1 [2; 0]))) 0 None.

Lemma short_string_wf c : is_byte c → lsh_string_wf (mk_lsh_string 1 [c; 0]).
Proof.
  intros Hc. split; [unfold is_u32; simpl; lia | reflexivity | reflexivity |].
  apply Forall_cons; split; [exact Hc |]. apply Forall_cons; split; [unfold is_byte; lia | constructor].
Qed.

Lemma ref_kex_strings n :
  kex_strings (ref_kex_state n) (mk_lsh_string 1 [67; 0]) (mk_lsh_string 1 [83; 0]) (mk_lsh_string 1 [1; 0])
    (mk_lsh_string 1 [2; 0]).
Proof.
  split; try reflexivity.
  repeat (apply Forall_cons; split; [split; [apply short_string_wf; unfold is_byte; lia | simpl; lia] |]). constructor.
Qed.

Definition ref_keypair : @keypair ref_signatures := @mk_keypair ref_signatures 0 (mk_lsh_string 1 [9; 0]) 7.
Definition ref_host_keys : @lookup_verifier ref_signatures := ([9], 7).

Lemma dh_exchange_agrees_witness :
  ∃ dc ds init reply h k h' k',
    init_dh_state small_group (ref_kex_state 0) = Ok dc ∧ init_dh_state small_group (ref_kex_state 1) = Ok ds
    ∧ format_kexdh_init 8 = Ok init
    ∧ server_dh_process (server_state ds 15 19) ref_keypair (ls_length init) (contents init)
      = Ok (DhDone (Some reply) h k)
    ∧ client_dh_process (client_state dc 6 8) ref_host_keys 0 (ls_length reply) (contents reply) = Ok (DhDone None h' k')
    ∧ same_octets h h' ∧ same_octets k k'
    ∧ contents k = mpint_digits (5 ^ (6 * 15) `mod` 23)
    ∧ contents h = rfc4253_exchange_hash ref_md [67] [83] [1] [2] [9] 8 19 (5 ^ (6 * 15) `mod` 23).
Proof.
  apply (dh_exchange_agrees small_group (ref_kex_state 0) (ref_kex_state 1) (mk_lsh_string 1 [67; 0])
    (mk_lsh_string 1 [83; 0]) (mk_lsh_string 1 [1; 0]) (mk_lsh_string 1 [2; 0])
    ref_keypair ref_host_keys 0 (7 : @verifier ref_signatures) 5 14 6 15 6 15 8 19).
  - apply make_dh_params_ok; vm_compute; discriminate.
  - apply ref_kex_strings.
  - apply ref_kex_strings.
  - split; [apply short_string_wf; unfold is_byte; lia | simpl; lia].
  - vm_compute. reflexivity.
  - vm_compute. reflexivity.
  - lia.
  - lia.
  - reflexivity.
  - intros d. eexists. split; [reflexivity |]. cbn -[u8]. by rewrite bool_decide_true.
Defined.
