(* ===== verification/Encrypt.v ===== *)
(** * The outgoing packet transform ([src/src/encrypt.c])

    Compress, pad to whole blocks, compute the MAC over sequence number and
    cleartext, encrypt everything but the MAC. *)

From S2P Require Import Prelude Nettle Atoms LshString Format FormatSpec Crypto.
Local Open Scope Z_scope.

(** [SSH_MAX_PACKET + SSH_MAX_PACKET_FUZZ] *)
Definition SSH_MAX_TOTAL := 35000.

Section model.
Context `{Malloc} `{NettleMacros} `{NettleBignum} `{AtomTable} `{Crypto}.

(** The objects whose state a packet changes. *)
Record keys := mk_keys {
  k_compress : option compress_instance;
  k_crypt : option crypto_instance;
  k_mac : option mac_instance;
  k_rng : rng;
}.

Definition cipher_block (c : option crypto_instance) : Z :=
  match c with Some c => block_size c | None => 8 end.

Definition mac_length (m : option mac_instance) : Z :=
  match m with Some m => mac_size (mi_key m) | None => 0 end.

(** The payload after compression. *)
Definition compress_packet (z : option compress_instance) (packet : lsh_string)
  : result (option compress_instance * lsh_string) :=
  match z with
  | None => Ok (None, packet)
  | Some z =>
      let n := lsh_string_alloc SSH_MAX_TOTAL in
      if lenZ (lsh_string_data packet) <? lsh_string_length packet then Fault OutOfBounds
      else
        '(z, n, length) ← CODEC z n (slice 0 (lsh_string_length packet) (lsh_string_data packet));
        _ ← c_assert (0 <? length);
        n ← lsh_string_trunc n length;
        Ok (Some z, n)
  end.

(** [if (mac) ...] *)
Definition mac_packet (m : option mac_instance) (new_size mac_start seqno : Z) (packet : lsh_string)
  : result (option mac_instance * lsh_string) :=
  match m with
  | None => Ok (None, packet)
  | Some m =>
      _ ← c_assert (new_size =? mac_start);
      let m := MAC_UPDATE m (WRITE_UINT32 seqno) in
      let m := MAC_UPDATE m (slice 0 new_size (lsh_string_data packet)) in
      '(m, packet) ← MAC_DIGEST m packet mac_start;
      Ok (Some m, packet)
  end.

(** [if (crypt) ...] *)
Definition crypt_packet (c : option crypto_instance) (new_size : Z) (packet : lsh_string)
  : result (option crypto_instance * lsh_string) :=
  match c with
  | None => Ok (None, packet)
  | Some c => '(c, packet) ← CRYPT c new_size packet 0; Ok (Some c, packet)
  end.

Definition encrypt_packet (packet : lsh_string) (k : keys) (seqno : Z)
  : result (keys * lsh_string) :=
  _ ← c_assert (c_true (lsh_string_length packet));
  '(z, packet) ← compress_packet (k_compress k) packet;
  let length := lsh_string_length packet in
  let bs := cipher_block (k_crypt k) in
  let mac_len := mac_length (k_mac k) in
  let new_size := u32 (bs * (1 + u32 (8 + length) `div` bs)) in
  let padding_length := u8 (new_size - length - 5) in
  _ ← c_assert (4 <=? padding_length);
  '(packet, holes) ←
    ssh_format "%i%c%lfS%lr%lr"
      [FInt (u32 (length + padding_length + 1)); FInt padding_length; FStr packet;
       FInt padding_length; FPtr true; FInt mac_len; FPtr true];
  padding ← rd holes 0;
  mac_start ← rd holes 1;
  _ ← c_assert (u32 (new_size + mac_len) =? lsh_string_length packet);
  '(g, packet) ← lsh_string_write_random (k_rng k) packet padding padding_length;
  '(mac, packet) ← mac_packet (k_mac k) new_size mac_start seqno packet;
  '(c, packet) ← crypt_packet (k_crypt k) new_size packet;
  Ok (mk_keys z c mac g, packet).

End model.

(** ** The binary packet format *)

Definition ssh_frame (payload padding : list Z) : list Z :=
  be32 (lenZ payload + lenZ padding + 1) ++ [lenZ padding] ++ payload ++ padding.

Section format.
Context `{Crypto}.

(** What goes over the wire, and the ciphers afterwards. *)
Definition wire_crypt (c : option crypto_instance) (frame : list Z) : list Z :=
  match c with Some c => snd (crypt c frame) | None => frame end.
Definition next_crypt (c : option crypto_instance) (frame : list Z) : option crypto_instance :=
  match c with Some c => Some (fst (crypt c frame)) | None => None end.
Definition wire_mac (m : option mac_instance) (seqno : Z) (frame : list Z) : list Z :=
  match m with Some m => mac_digest (mi_key m) (be32 seqno ++ frame) | None => [] end.

End format.

(** The payload that is framed: compressed if compression is on. *)
Definition packed `{Crypto} (z : option compress_instance) (payload : list Z) : list Z :=
  match z with Some z => snd (codec z (SSH_MAX_TOTAL - 1) payload) | None => payload end.
Definition next_compress `{Crypto} (z : option compress_instance) (payload : list Z)
  : option compress_instance :=
  match z with Some z => Some (fst (codec z (SSH_MAX_TOTAL - 1) payload)) | None => None end.

(** A MAC that has not been fed. *)
Definition mac_fresh `{Crypto} (m : option mac_instance) : Prop :=
  match m with Some m => mi_fed m = [] | None => True end.

Section proofs.
Context `{MallocOk} `{NettleMacrosOk} `{NettleBignumOk} `{AtomTableOk} `{CryptoOk}.

Lemma cipher_block_cases c : cipher_block c = 8 ∨ cipher_block c = 16.
Proof. destruct c as [c |]; simpl; [apply block_size_ok | by left]. Qed.

Lemma cipher_block_range c : 8 <= cipher_block c <= SSH_MAX_BLOCK_SIZE.
Proof. unfold SSH_MAX_BLOCK_SIZE. destruct (cipher_block_cases c) as [-> | ->]; lia. Qed.

Lemma mac_length_range m : 0 <= mac_length m <= SSH_MAX_MAC_SIZE.
Proof. destruct m as [m |]; simpl; [apply mac_size_ok | unfold SSH_MAX_MAC_SIZE; lia]. Qed.

(** Rounding up to whole blocks leaves room for at least four octets. *)
Lemma padding_range bs length :
  8 <= bs <= SSH_MAX_BLOCK_SIZE → 0 <= length < 2 ^ 31 →
  let new_size := bs * (1 + (8 + length) `div` bs) in
  new_size `mod` bs = 0 ∧ 4 <= new_size - length - 5 <= bs + 3 ∧ new_size < 2 ^ 32.
Proof.
  intros Hbs Hl. unfold SSH_MAX_BLOCK_SIZE in Hbs. cbv zeta.
  pose proof (Z.div_mod (8 + length) bs). pose proof (Z.mod_pos_bound (8 + length) bs).
  split_and!; [rewrite Z.mul_comm; apply Z.mod_mul; lia | lia | lia | lia].
Qed.

Lemma lenZ_ssh_frame payload padding :
  lenZ (ssh_frame payload padding) = 5 + lenZ payload + lenZ padding.
Proof. unfold ssh_frame. autorewrite with lsh. lia. Qed.

Lemma ssh_frame_bytes payload padding :
  Forall is_byte payload → Forall is_byte padding → lenZ padding < 256 →
  Forall is_byte (ssh_frame payload padding).
Proof.
  intros Hp Hd Hl. unfold ssh_frame. pose proof (lenZ_nonneg padding).
  rewrite !Forall_app. split_and!; [apply be_bytes_bytes | | done | done].
  repeat constructor; unfold is_byte; lia.
Qed.

(** Three pieces at the front, then two holes. *)
Lemma fill_two_holes (a b c : list Z) n m l :
  lenZ a + lenZ b + lenZ c <= lenZ l →
  fill 0 [PBytes a; PBytes b; PBytes c; PBytes []; PHole n true; PBytes []; PHole m true] l
  = a ++ b ++ c ++ drop (length (a ++ b ++ c)) l.
Proof.
  intros Hl. pose proof (lenZ_nonneg a). pose proof (lenZ_nonneg b). pose proof (lenZ_nonneg c).
  cbn [fill]. rewrite !splice_nil. rewrite splice_splice by (rewrite ?lenZ_splice; lia).
  rewrite splice_splice by (rewrite ?lenZ_app; lia).
  unfold splice. simpl. by rewrite <- !app_assoc.
Qed.

(** The call of [ssh_format]: header and payload, then room for padding and MAC. *)
Lemma format_packet packet pad mac_len :
  lsh_string_wf packet → 4 <= pad < 256 → 0 <= mac_len <= 20 → ls_length packet < 2 ^ 31 →
  ∃ s junk, ssh_format "%i%c%lfS%lr%lr"
      [FInt (u32 (ls_length packet + pad + 1)); FInt pad; FStr packet;
       FInt pad; FPtr true; FInt mac_len; FPtr true]
    = Ok (s, [5 + ls_length packet; 5 + ls_length packet + pad])
    ∧ lsh_string_wf s ∧ ls_length s = 5 + ls_length packet + pad + mac_len
    ∧ lenZ junk = pad + mac_len
    ∧ contents s = be32 (ls_length packet + pad + 1) ++ [pad] ++ contents packet ++ junk.
Proof.
  intros Hwf Hpad Hmac Hlen. pose proof (lenZ_contents packet Hwf) as Hc.
  destruct (wf_length _ Hwf) as [Hl0 _].
  rewrite (u32_id (ls_length packet + pad + 1)) by (unfold is_u32; lia).
  set (hd := be32 (ls_length packet + pad + 1)).
  assert (lenZ hd = 4) as Hhd by apply lenZ_be32. assert (lenZ [pad] = 1) as Hlp by done.
  set (ps := [PBytes hd; PBytes [pad]; PBytes (contents packet);
       PBytes []; PHole pad true; PBytes []; PHole mac_len true]).
  assert (psize ps = 5 + ls_length packet + pad + mac_len) as Hps
    by (unfold ps; cbn [psize piece_size]; change (lenZ []) with 0; lia).
  assert (hole_starts 0 ps = [5 + ls_length packet; 5 + ls_length packet + pad]) as Hholes.
  { unfold ps. cbn [hole_starts app]. change (lenZ []) with 0. rewrite Hhd, Hlp, Hc.
    f_equal; [lia | f_equal; lia]. }
  destruct (ssh_format_spec "%i%c%lfS%lr%lr"
      [FInt (ls_length packet + pad + 1); FInt pad; FStr packet;
       FInt pad; FPtr true; FInt mac_len; FPtr true] ps) as (s & Hs & Hws & Hls & Hcs).
  - unfold spec_format, ps, hd. cbn -[be32 u32 u8]. unfold spec_string. cbn -[be32 u32 u8].
    rewrite !u32_id by (unfold is_u32; lia). rewrite u8_id by (unfold is_byte; lia).
    by rewrite <- Hc, slice_all.
  - repeat (apply Forall_cons; split; [exact I || exact Hwf |]). constructor.
  - lia.
  - rewrite Hholes in Hs. rewrite Hps in Hcs, Hls.
    set (l0 := contents (lsh_string_alloc _)) in Hcs.
    assert (lenZ l0 = 5 + ls_length packet + pad + mac_len) as Hl
      by (apply (lenZ_contents (lsh_string_alloc _)), lsh_string_alloc_wf; unfold is_u32; lia).
    unfold ps in Hcs. rewrite fill_two_holes in Hcs by lia.
    eexists s, _. split_and!; [exact Hs | done | done | | exact Hcs].
    unfold lenZ in *. rewrite length_drop, !length_app. lia.
Qed.

Lemma compress_packet_spec z packet :
  lsh_string_wf packet → 0 < ls_length packet → ls_length packet < 2 ^ 31 →
  packed z (contents packet) ≠ [] →
  ∃ p, compress_packet z packet = Ok (next_compress z (contents packet), p) ∧ lsh_string_wf p
    ∧ contents p = packed z (contents packet) ∧ 0 < ls_length p < 2 ^ 31.
Proof.
  intros Hwf Hl Hmax Hne. unfold compress_packet, packed, next_compress in *.
  destruct z as [z |]; [| by exists packet]. unfold lsh_string_length, lsh_string_data.
  pose proof (wf_room _ Hwf). rewrite (proj2 (Z.ltb_ge _ _)) by lia.
  change (slice 0 (ls_length packet) (ls_data packet)) with (contents packet).
  assert (lsh_string_wf (lsh_string_alloc SSH_MAX_TOTAL)) as Ha
    by (apply lsh_string_alloc_wf; unfold is_u32, SSH_MAX_TOTAL; lia).
  destruct (CODEC_spec z (lsh_string_alloc SSH_MAX_TOTAL) (contents packet)) as (s & -> & Hw & Hls & Hc & Hb & Hlt);
    [done | done | by apply contents_bytes | by rewrite lenZ_contents |].
  cbn [ls_length lsh_string_alloc] in *. rewrite bind_ok_l.
  set (out := snd (codec z (SSH_MAX_TOTAL - 1) (contents packet))) in *.
  assert (0 < lenZ out) as Hpos by (destruct out; [done | len_lia]).
  pass_assert. destruct (lsh_string_trunc_spec s (lenZ out) Hw) as (s' & -> & Hw' & Hl' & Hc'); [lia |].
  simpl. exists s'. split_and!; [done | done | | lia | unfold SSH_MAX_TOTAL in *; lia].
  rewrite Hc', Hc. unfold splice. simpl. by apply slice_app_first.
Qed.

Lemma mac_packet_spec m frame junk seqno packet :
  lsh_string_wf packet → contents packet = frame ++ junk →
  lenZ junk = mac_length m → mac_fresh m → is_u32 seqno →
  ∃ p, mac_packet m (lenZ frame) (lenZ frame) seqno packet = Ok (m, p)
    ∧ lsh_string_wf p ∧ contents p = frame ++ wire_mac m seqno frame.
Proof.
  intros Hwf Hc Hj Hm Hq. pose proof (lenZ_contents packet Hwf) as Hlen.
  pose proof (lenZ_nonneg frame). rewrite Hc, lenZ_app in Hlen.
  destruct m as [m |]; simpl in *; [| exists packet; split_and!; [done | done |]; destruct junk; [done | len_lia]].
  rewrite Z.eqb_refl. simpl. unfold lsh_string_data. pose proof (mac_size_ok (mi_key m)).
  assert (slice 0 (lenZ frame) (ls_data packet) = frame) as ->.
  { transitivity (slice 0 (lenZ frame) (contents packet)).
    - unfold contents. by rewrite slice_slice by lia.
    - rewrite Hc. by apply slice_app_first. }
  rewrite WRITE_UINT32_spec by done. unfold MAC_UPDATE. cbn [mi_key mi_fed]. rewrite Hm, app_nil_l.
  destruct (MAC_DIGEST_spec (mk_mac _ (mi_key m) (be32 seqno ++ frame)) packet (lenZ frame))
    as (p & -> & Hwp & _ & Hcp); [done | lia | simpl; lia |].
  cbn [mi_key mi_fed] in *. rewrite bind_ok_l. exists p. split_and!; [| done |].
  - destruct m as [mk fed]. simpl in *. by subst fed.
  - rewrite Hcp, Hc. rewrite <- (app_nil_r junk), splice_app; [by rewrite app_nil_r | done |].
    destruct (mac_digest_ok (mi_key m) (be32 seqno ++ frame)). lia.
Qed.

Lemma crypt_packet_spec c frame tl p :
  lsh_string_wf p → contents p = frame ++ tl → lenZ frame `mod` cipher_block c = 0 →
  ∃ out, crypt_packet c (lenZ frame) p = Ok (next_crypt c frame, out)
    ∧ lsh_string_wf out ∧ contents out = wire_crypt c frame ++ tl.
Proof.
  intros Hwp Hcp Hmod. destruct c as [c |]; simpl in *; [| by eexists].
  pose proof (lenZ_contents p Hwp) as Hlp. rewrite Hcp, lenZ_app in Hlp.
  pose proof (lenZ_nonneg tl). pose proof (lenZ_nonneg frame).
  destruct (CRYPT_spec c (lenZ frame) p 0 Hwp) as (out & -> & Hwo & _ & Hco); [lia.. | done |].
  rewrite Hcp, slice_app_first in * by done. simpl. exists out. split_and!; [done | done |].
  destruct (crypt_ok c frame) as (_ & Hlc & _); [| done |].
  { pose proof (contents_bytes p Hwp) as Hb. rewrite Hcp in Hb. by apply Forall_app in Hb as [? _]. }
  rewrite Hco. by apply (splice_app 0 _ [] frame).
Qed.

(** What [encrypt_packet] puts on the wire. *)
Lemma encrypt_packet_spec packet k seqno :
  lsh_string_wf packet → 0 < ls_length packet < 2 ^ 31 → mac_fresh (k_mac k) → is_u32 seqno →
  packed (k_compress k) (contents packet) ≠ [] →
  ∃ k' out padding, encrypt_packet packet k seqno = Ok (k', out)
    ∧ lsh_string_wf out ∧ Forall is_byte padding ∧ 4 <= lenZ padding < 256
    ∧ (let frame := ssh_frame (packed (k_compress k) (contents packet)) padding in
       lenZ frame `mod` cipher_block (k_crypt k) = 0
       ∧ contents out = wire_crypt (k_crypt k) frame ++ wire_mac (k_mac k) seqno frame
       ∧ k_crypt k' = next_crypt (k_crypt k) frame ∧ k_mac k' = k_mac k
       ∧ k_compress k' = next_compress (k_compress k) (contents packet)).
Proof.
  intros Hwf Hl Hm Hq Hne. unfold encrypt_packet, lsh_string_length, c_true. pass_assert.
  destruct (compress_packet_spec (k_compress k) packet) as (p & -> & Hwp & Hcp & Hlp); [done | lia.. | done |].
  rewrite bind_ok_l. cbv zeta. set (bs := cipher_block (k_crypt k)).
  pose proof (cipher_block_range (k_crypt k)) as Hbs. fold bs in Hbs.
  pose proof (mac_length_range (k_mac k)) as Hml. unfold SSH_MAX_MAC_SIZE in Hml.
  destruct (padding_range bs (ls_length p) Hbs) as (Hmod & Hpad & Hsz); [lia |].
  unfold SSH_MAX_BLOCK_SIZE in Hbs.
  rewrite (u32_id (8 + ls_length p)) by (unfold is_u32; lia).
  set (new_size := bs * (1 + (8 + ls_length p) `div` bs)) in *.
  rewrite (u32_id new_size) by (unfold is_u32; lia).
  rewrite u8_id by (unfold is_byte; lia). set (pad := new_size - ls_length p - 5) in *. pass_assert.
  destruct (format_packet p pad (mac_length (k_mac k)) Hwp) as (s & junk & -> & Hws & Hls & Hlj & Hcs); [lia.. |].
  rewrite bind_ok_l, rd_0, bind_ok_l, rd_1, bind_ok_l.
  rewrite u32_id by (unfold is_u32; lia). pass_assert.
  destruct (lsh_string_write_random_spec (k_rng k) s (5 + ls_length p) pad Hws) as (s1 & -> & Hw1 & Hl1 & Hc1); [lia.. |].
  rewrite bind_ok_l. destruct (random_generate_ok (k_rng k) pad) as [Hbp Hlpad]; [lia |].
  set (padding := snd (random_generate (k_rng k) pad)) in *.
  destruct (split_at pad junk) as (j1 & j2 & -> & Hj1 & Hj2); [lia |].
  set (frame := ssh_frame (contents p) padding).
  pose proof (lenZ_contents p Hwp) as Hlcp.
  assert (contents s1 = frame ++ j2) as Hframe.
  { rewrite Hc1, Hcs. unfold frame, ssh_frame. rewrite Hlpad, Hlcp, !app_assoc.
    rewrite <- (app_assoc _ j1 j2), splice_app; [by rewrite <- !app_assoc | | lia].
    autorewrite with lsh. lia. }
  assert (lenZ frame = new_size) as Hlf by (unfold frame; rewrite lenZ_ssh_frame; lia).
  replace (5 + ls_length p + pad) with (lenZ frame) by lia. rewrite <- Hlf.
  destruct (mac_packet_spec (k_mac k) frame j2 seqno s1) as (s2 & -> & Hw2 & Hc2); [done | done | lia | done | done |].
  rewrite bind_ok_l.
  destruct (crypt_packet_spec (k_crypt k) frame _ s2 Hw2 Hc2) as (out & -> & Hwo & Hco); [by rewrite Hlf |].
  eexists _, out, padding. split; [done |]. rewrite <- Hcp. cbv zeta. fold frame. fold bs. rewrite Hlf.
  split_and!; done || lia.
Qed.

(** C21: for every non-empty payload [encrypt_packet] returns (no assertion
    fails); the packet it builds is the encrypted binary packet (length,
    padding length, payload, padding) followed by the MAC over the sequence
    number and the cleartext; the padding is at least four octets and makes
    the packet a whole number of cipher blocks; and the cipher and compression
    states advance by exactly this packet. *)
Theorem encrypt_packet_correct packet k seqno :
  lsh_string_wf packet → 0 < ls_length packet < 2 ^ 31 → mac_fresh (k_mac k) → is_u32 seqno →
  packed (k_compress k) (contents packet) ≠ [] →
  ∃ k' out padding, encrypt_packet packet k seqno = Ok (k', out)
    ∧ lsh_string_wf out ∧ Forall is_byte padding ∧ 4 <= lenZ padding < 256
    ∧ (let frame := ssh_frame (packed (k_compress k) (contents packet)) padding in
       lenZ frame `mod` cipher_block (k_crypt k) = 0
       ∧ contents out = wire_crypt (k_crypt k) frame ++ wire_mac (k_mac k) seqno frame
       ∧ k_crypt k' = next_crypt (k_crypt k) frame ∧ k_mac k' = k_mac k
       ∧ k_compress k' = next_compress (k_compress k) (contents packet)).
Proof. apply encrypt_packet_spec. Qed.

End proofs.

(** One octet, with the reference cipher and MAC. *)
Definition sample_keys : keys := mk_keys None (Some (3 : @crypto_instance ref_crypto)) (Some (mk_mac ref_crypto 5 [])) 7.
Definition sample_packet : lsh_string := mk_lsh_string 1 [21; 0].

Lemma sample_packet_wf : lsh_string_wf sample_packet.
Proof. split; simpl; [unfold is_u32; lia | done | done | repeat constructor; unfold is_byte; lia]. Qed.

Lemma encrypt_packet_correct_witness :
  ∃ k' out padding, encrypt_packet sample_packet sample_keys 0 = Ok (k', out)
    ∧ lsh_string_wf out ∧ Forall is_byte padding ∧ 4 <= lenZ padding < 256
    ∧ (let frame := ssh_frame [21] padding in
       lenZ frame `mod` 8 = 0
       ∧ contents out = shift_bytes 3 frame ++ mac_digest (5 : @mac_key ref_crypto) (be32 0 ++ frame)
       ∧ k_crypt k' = Some 3 ∧ k_mac k' = k_mac sample_keys ∧ k_compress k' = None).
Proof.
  apply (encrypt_packet_correct sample_packet sample_keys 0);
    [apply sample_packet_wf | simpl; lia | reflexivity | unfold is_u32; lia | discriminate].
Defined.
