(* ===== verification/TransportRead.v ===== *)
(** * Incoming lines and packets ([src/src/transport_read.c])

    Before key exchange, lines; afterwards, packets.  A packet is processed in
    two steps: the first cipher block gives the length, then the rest is
    decrypted in place, the MAC is checked and the payload delivered.  Either
    step may have to wait for more octets; each call reads the descriptor at
    most once. *)

From S2P Require Import Prelude Ssh Nettle Atoms LshString Format FormatSpec Parse Sys SshRead Crypto Encrypt.
Local Open Scope Z_scope.

Definition TRANSPORT_READ_AHEAD := 1000.
Definition SSH_MAX_LINE := 255.


(** The return value, and what is stored through the pointers. *)
Inductive transport_ret : Type :=
  | TrStatus (s : ssh_read_status)
  | TrIoError (e : errno)
  | TrProtocolError (error : Z) (msg : option string)
  | TrLine (line : list Z)
  | TrPacket (seqno length : Z).

Section model.
Context `{Malloc} `{NettleMacros} `{OS} `{Crypto}.

Record transport_read_state := mk_tread {
  tr_super : ssh_read_state;
  tr_mac : option mac_instance;
  tr_crypto : option crypto_instance;
  tr_inflate : option compress_instance;
  tr_seqno : Z;
  tr_padding : Z;
  tr_total_length : Z;
  tr_mac_buffer : lsh_string;
}.

Definition make_transport_read_state : transport_read_state :=
  mk_tread (init_ssh_read_state SSH_MAX_TOTAL) None None None 0 0 0
    (lsh_string_alloc SSH_MAX_MAC_SIZE).

Definition with_super (self : transport_read_state) (s : ssh_read_state) : transport_read_state :=
  mk_tread s (tr_mac self) (tr_crypto self) (tr_inflate self) (tr_seqno self) (tr_padding self)
    (tr_total_length self) (tr_mac_buffer self).

(** The index of the first newline: [memchr (data, 0xa, length)]. *)
Fixpoint find_newline (data : list Z) (i : Z) : option Z :=
  match data with
  | [] => None
  | c :: data => if c =? 10 then Some i else find_newline data (i + 1)
  end.

Definition find_line (self : ssh_read_state) : result (ssh_read_state * transport_ret) :=
  let data := sr_here self in
  if lenZ data <? sr_length self then Fault OutOfBounds
  else
    match find_newline (slice 0 (sr_length self) data) 0 with
    | Some line_length =>
        if SSH_MAX_LINE <=? line_length then Ok (self, TrProtocolError 0 (Some "Line too long"))
        else
          cr ← (if 0 <? line_length then c ← rd data (line_length - 1); Ok (c =? 13) else Ok false);
          Ok (sr_consume self (line_length + 1),
              TrLine (slice 0 (line_length - c_int cr) data))
    | None =>
        if SSH_MAX_LINE <=? sr_length self then Ok (self, TrProtocolError 0 (Some "Line too long"))
        else Ok (self, TrStatus (sr_status self))
    end.

(** [status <= SSH_READ_COMPLETE] *)
Definition line_settled (r : transport_ret) : bool :=
  match r with
  | TrStatus SSH_READ_PENDING | TrStatus SSH_READ_PUSH => false
  | _ => true
  end.

Definition transport_read_line (self : transport_read_state) (fd : bool) (k : os)
  : result (transport_read_state * os * transport_ret) :=
  let super := tr_super self in
  '(super, settled) ←
    (if sr_length super =? 0 then
       Ok (mk_read (sr_buffer super) 0 (sr_length super) (sr_status super), None)
     else
       '(super, r) ← find_line super;
       Ok (super, if line_settled r then Some r else None));
  match settled with
  | Some r => Ok (with_super self super, k, r)
  | None =>
      if negb fd then Ok (with_super self super, k, TrStatus (sr_status super))
      else
        '(super, k, res) ← ssh_read_some super k TRANSPORT_READ_AHEAD;
        match res with
        | ReadEof =>
            if sr_length super =? 0 then Ok (with_super self super, k, TrStatus SSH_READ_EOF)
            else Ok (with_super self super, k, TrProtocolError 0 None)
        | ReadError EWOULDBLOCK => Ok (with_super self super, k, TrStatus SSH_READ_PUSH)
        | ReadError e => Ok (with_super self super, k, TrIoError e)
        | ReadSome =>
            '(super, r) ← find_line super;
            Ok (with_super self super, k, r)
        end
  end.

(** [CRYPT] on the input buffer, if there is a cipher. *)
Definition crypt_input (self : transport_read_state) (length pos : Z)
  : result transport_read_state :=
  match tr_crypto self with
  | None => Ok self
  | Some c =>
      let super := tr_super self in
      '(c, b) ← CRYPT c length (sr_buffer super) (u32 (sr_start super + pos));
      Ok (mk_tread (mk_read b (sr_start super) (sr_length super) (sr_status super))
            (tr_mac self) (Some c) (tr_inflate self) (tr_seqno self) (tr_padding self)
            (tr_total_length self) (tr_mac_buffer self))
  end.

Definition with_mac (self : transport_read_state) (m : option mac_instance) (b : lsh_string)
  : transport_read_state :=
  mk_tread (tr_super self) m (tr_crypto self) (tr_inflate self) (tr_seqno self) (tr_padding self)
    (tr_total_length self) b.

(** The MAC over the rest of the packet, compared with the received one. *)
Definition check_mac (self : transport_read_state) (crypt_done crypt_left mac_len : Z)
  : result (transport_read_state * bool) :=
  match tr_mac self with
  | None => Ok (self, true)
  | Some m =>
      let data := sr_here (tr_super self) in
      let m := if 0 <? crypt_left then MAC_UPDATE m (slice crypt_done crypt_left data) else m in
      '(m, b) ← MAC_DIGEST m (tr_mac_buffer self) 0;
      eq ← mem_equal (lsh_string_data b)
             (drop (Z.to_nat (tr_total_length self - mac_len)) data) mac_len;
      Ok (with_mac self (Some m) b, eq)
  end.

(** The payload goes to [output]. *)
Definition deliver_packet (self : transport_read_state) (length : Z) (data : list Z) (output : lsh_string)
  : result (option compress_instance * lsh_string * Z) :=
  match tr_inflate self with
  | Some z =>
      if lenZ data <? length then Fault OutOfBounds
      else
        '(z, output, length) ← CODEC z output (slice 0 length data);
        Ok (Some z, output, length)
  | None =>
      output ← lsh_string_write output 0 length data;
      Ok (None, output, length)
  end.

Definition decode_packet (self : transport_read_state) (output : lsh_string)
  : result (transport_read_state * lsh_string * transport_ret) :=
  let bs := cipher_block (tr_crypto self) in
  let mac_len := mac_length (tr_mac self) in
  let crypt_done := bs - 5 in
  let crypt_left := u32 (tr_total_length self - (crypt_done + mac_len)) in
  self ← (if 0 <? crypt_left then crypt_input self crypt_left crypt_done else Ok self);
  '(self, good) ← check_mac self crypt_done crypt_left mac_len;
  if negb (good : bool) then
    Ok (self, output, TrProtocolError SSH_DISCONNECT_MAC_ERROR (Some "Invalid MAC"))
  else
    let length := u32 (tr_total_length self - mac_len - tr_padding self) in
    let data := sr_here (tr_super self) in
    let super := sr_consume (tr_super self) (tr_total_length self) in
    '(z, output, length) ← deliver_packet self length data output;
    Ok (mk_tread super (tr_mac self) (tr_crypto self) z (u32 (tr_seqno self + 1)) (tr_padding self)
          0 (tr_mac_buffer self), output,
        TrPacket (tr_seqno self) length).

(** The first block: decrypt, feed the MAC, check padding and length.
    [inr] is the error to report. *)
Definition read_header (self : transport_read_state)
  : result (transport_read_state * option transport_ret) :=
  let bs := cipher_block (tr_crypto self) in
  self ← crypt_input self bs 0;
  let super := tr_super self in
  let header := sr_here super in
  let m := match tr_mac self with
           | None => None
           | Some m =>
               Some (MAC_UPDATE (MAC_UPDATE m (WRITE_UINT32 (tr_seqno self))) (slice 0 bs header))
           end in
  packet_length ← read_uint32 header;
  padding ← rd header 4;
  let upd (super : ssh_read_state) (total : Z) :=
    mk_tread super m (tr_crypto self) (tr_inflate self) (tr_seqno self) padding total (tr_mac_buffer self) in
  let bad (total : Z) (msg : string) :=
    Ok (upd super total, Some (TrProtocolError SSH_DISCONNECT_PROTOCOL_ERROR (Some msg))) in
  if (padding <? 4) || (packet_length <=? padding) then bad (tr_total_length self) "Bogus padding length"
  else if (packet_length <? 12) || (packet_length <? bs - 4) || c_true (u32 (packet_length + 4) `mod` bs)
  then bad (tr_total_length self) "Invalid packet length"
  else if SSH_MAX_TOTAL <? packet_length then bad (tr_total_length self) "Packet too large"
  else
    let total := packet_length - 1 + mac_length (tr_mac self) in
    if lsh_string_length (sr_buffer super) <? total then bad total "Packet too large"
    else Ok (upd (sr_consume super 5) total, None).

(** The rest of the packet, once the header is known. *)
Definition read_body (self : transport_read_state) (fd : bool) (k : os) (packet : lsh_string)
  : result (transport_read_state * os * lsh_string * transport_ret) :=
  let decode (self : transport_read_state) (k : os) :=
    '(self, packet, r) ← decode_packet self packet; Ok (self, k, packet, r) in
  let super := tr_super self in
  if sr_length super <? tr_total_length self then
    if negb fd then Ok (self, k, packet, TrStatus (sr_status super))
    else
      '(super, k, res) ← ssh_read_some super k (u32 (tr_total_length self + TRANSPORT_READ_AHEAD));
      let self := with_super self super in
      match res with
      | ReadEof => Ok (self, k, packet, TrProtocolError 0 (Some "Unexpected EOF"))
      | ReadError EWOULDBLOCK => Ok (self, k, packet, TrStatus SSH_READ_PUSH)
      | ReadError e => Ok (self, k, packet, TrIoError e)
      | ReadSome =>
          if sr_length super <? tr_total_length self
          then Ok (self, k, packet, TrStatus (sr_status super))
          else decode self k
      end
  else decode self k.

Definition read_packet_tail (self : transport_read_state) (fd : bool) (k : os) (packet : lsh_string)
  : result (transport_read_state * os * lsh_string * transport_ret) :=
  _ ← c_assert (cipher_block (tr_crypto self) <=? sr_length (tr_super self));
  if tr_total_length self =? 0 then
    '(self, err) ← read_header self;
    match err with
    | Some r => Ok (self, k, packet, r)
    | None => read_body self fd k packet
    end
  else read_body self fd k packet.

Definition transport_read_packet (self : transport_read_state) (fd : bool) (k : os) (packet : lsh_string)
  : result (transport_read_state * os * lsh_string * transport_ret) :=
  let bs := cipher_block (tr_crypto self) in
  let super := tr_super self in
  if sr_length super <? bs then
    if negb fd then Ok (self, k, packet, TrStatus (sr_status super))
    else
      '(super, k, res) ← ssh_read_some super k TRANSPORT_READ_AHEAD;
      let self := with_super self super in
      match res with
      | ReadEof =>
          if sr_length super =? 0 then Ok (self, k, packet, TrStatus SSH_READ_EOF)
          else Ok (self, k, packet, TrProtocolError 0 (Some "Unexpected EOF"))
      | ReadError EWOULDBLOCK => Ok (self, k, packet, TrStatus SSH_READ_PUSH)
      | ReadError e => Ok (self, k, packet, TrIoError e)
      | ReadSome =>
          if sr_length super <? bs then Ok (self, k, packet, TrStatus (sr_status super))
          else read_packet_tail self false k packet
      end
  else read_packet_tail self fd k packet.

Definition transport_read_new_keys (self : transport_read_state) (mac : option mac_instance)
  (crypto : option crypto_instance) (inflate : option compress_instance) : transport_read_state :=
  mk_tread (tr_super self) mac crypto inflate (tr_seqno self) (tr_padding self)
    (tr_total_length self) (tr_mac_buffer self).

End model.
