(* ===== verification/TransportSpec.v ===== *)
(** * What one side encrypts, the other side reads

    The receiver of [transport_read.c] is compared with the sender of
    [encrypt.c]: however the octets of a packet arrive, no call reports an
    error before the end of the stream, and the payload that is delivered is
    the one that was sent. *)

From S2P Require Import Prelude Ssh Nettle Atoms LshString Format FormatSpec Parse ParseSpec Sys SshRead Crypto Encrypt TransportRead.
Local Open Scope Z_scope.

Section spec.
Context `{MallocOk} `{NettleMacrosOk} `{NettleBignumOk} `{AtomTableOk} `{OSOk} `{CryptoOk}.

(** ** Matching keys *)

Definition crypt_match (e d : option crypto_instance) : Prop :=
  match e, d with
  | Some e, Some d => crypt_sync e d
  | None, None => True
  | _, _ => False
  end.

Definition compress_match (d i : option compress_instance) : Prop :=
  match d, i with
  | Some d, Some i => compress_sync d i
  | None, None => True
  | _, _ => False
  end.

Lemma wire_crypt_ok c x :
  Forall is_byte x → lenZ x `mod` cipher_block c = 0 →
  Forall is_byte (wire_crypt c x) ∧ lenZ (wire_crypt c x) = lenZ x
  ∧ cipher_block (next_crypt c x) = cipher_block c.
Proof. destruct c as [c |]; simpl; [apply crypt_ok | done]. Qed.

Lemma wire_crypt_app c x y :
  lenZ x `mod` cipher_block c = 0 → lenZ y `mod` cipher_block c = 0 →
  wire_crypt c (x ++ y) = wire_crypt c x ++ wire_crypt (next_crypt c x) y
  ∧ next_crypt c (x ++ y) = next_crypt (next_crypt c x) y.
Proof.
  destruct c as [c |]; simpl; [| done]. intros Hx Hy. rewrite (crypt_app c x y Hx Hy).
  destruct (crypt c x) as [c1 x']. simpl. by destruct (crypt c1 y).
Qed.

Lemma crypt_match_ok e d x :
  crypt_match e d → Forall is_byte x → lenZ x `mod` cipher_block e = 0 →
  cipher_block d = cipher_block e ∧ wire_crypt d (wire_crypt e x) = x
  ∧ crypt_match (next_crypt e x) (next_crypt d (wire_crypt e x)).
Proof.
  destruct e as [e |], d as [d |]; simpl; try done. intros Hs Hb Hm.
  by apply crypt_sync_ok.
Qed.

(** Decryption of the first block, then of the rest. *)
Lemma decrypt_two e d frame :
  crypt_match e d → Forall is_byte frame → lenZ frame `mod` cipher_block e = 0 →
  cipher_block e <= lenZ frame →
  ∃ c1 c2 p1 p2, wire_crypt e frame = c1 ++ c2 ∧ frame = p1 ++ p2
    ∧ cipher_block d = cipher_block e
    ∧ lenZ c1 = cipher_block d ∧ lenZ p1 = cipher_block d ∧ lenZ c2 = lenZ p2
    ∧ lenZ p2 `mod` cipher_block d = 0
    ∧ wire_crypt d c1 = p1 ∧ cipher_block (next_crypt d c1) = cipher_block d
    ∧ wire_crypt (next_crypt d c1) c2 = p2
    ∧ crypt_match (next_crypt e frame) (next_crypt (next_crypt d c1) c2).
Proof.
  intros Hm Hb Hmod Hlen. pose proof (cipher_block_range e) as Hbs.
  destruct (crypt_match_ok e d frame Hm Hb Hmod) as (Hblk & Hinv & Hnext).
  destruct (wire_crypt_ok e frame Hb Hmod) as (Hbw & Hlw & _).
  destruct (split_at (cipher_block d) (wire_crypt e frame)) as (c1 & c2 & Hc & Hl1 & Hl2); [lia |].
  destruct (split_at (cipher_block d) frame) as (p1 & p2 & Hp & Hp1 & Hp2); [lia |].
  assert (lenZ c1 `mod` cipher_block d = 0) as Hm1 by (rewrite Hl1; apply Z.mod_same; lia).
  assert (lenZ c2 `mod` cipher_block d = 0) as Hm2.
  { rewrite Hl2, Hlw, Hblk. rewrite <- (Z.mul_1_l (cipher_block e)) at 1.
    rewrite <- (Z.mod_add _ 1) by lia. replace (lenZ frame - 1 * cipher_block e + 1 * cipher_block e)
      with (lenZ frame) by lia. done. }
  rewrite Hc in Hbw. apply Forall_app in Hbw as [Hb1 Hb2].
  destruct (wire_crypt_app d c1 c2 Hm1 Hm2) as [Hw Hn].
  destruct (wire_crypt_ok d c1 Hb1 Hm1) as (_ & Hlw1 & Hblk1).
  rewrite Hc, Hw in Hinv. rewrite Hc, Hn in Hnext. rewrite Hp in Hinv.
  apply app_inj_1 in Hinv as [Hi1 Hi2]; [| unfold lenZ in *; lia].
  exists c1, c2, p1, p2. split_and!; try done; try lia.
  by rewrite Hp2, <- Hlw, <- Hl2.
Qed.

(** ** Decryption in place *)

Definition same_but_input (self self' : transport_read_state) : Prop :=
  tr_mac self' = tr_mac self ∧ tr_inflate self' = tr_inflate self ∧ tr_seqno self' = tr_seqno self
  ∧ tr_padding self' = tr_padding self ∧ tr_total_length self' = tr_total_length self
  ∧ tr_mac_buffer self' = tr_mac_buffer self
  ∧ sr_status (tr_super self') = sr_status (tr_super self).

Lemma crypt_input_spec self length pos :
  read_wf (tr_super self) → 0 <= pos → 0 <= length → pos + length <= sr_length (tr_super self) →
  length `mod` cipher_block (tr_crypto self) = 0 →
  ∃ self', crypt_input self length pos = Ok self'
    ∧ same_but_input self self' ∧ read_wf (tr_super self')
    ∧ sr_size (tr_super self') = sr_size (tr_super self)
    ∧ sr_length (tr_super self') = sr_length (tr_super self)
    ∧ tr_crypto self' = next_crypt (tr_crypto self) (slice pos length (unread (tr_super self)))
    ∧ unread (tr_super self')
      = splice pos (wire_crypt (tr_crypto self) (slice pos length (unread (tr_super self))))
          (unread (tr_super self)).
Proof.
  intros Hwf Hp Hl Hroom Hmod. pose proof Hwf as [Hb Hs Hlen Hr]. unfold crypt_input.
  destruct (wf_length _ Hb) as [_ Hmax]. set (super := tr_super self) in *.
  assert (slice pos length (unread super) = slice (sr_start super + pos) length (contents (sr_buffer super))) as Hsl
    by (unfold unread; rewrite slice_slice by lia; done).
  pose proof (lenZ_contents _ Hb) as Hlc.
  destruct (tr_crypto self) as [c |] eqn:Hc; simpl in *.
  - rewrite u32_id by (unfold is_u32; lia).
    destruct (CRYPT_spec c length (sr_buffer super) (sr_start super + pos)) as (b & -> & Hwb & Hlb & Hcb);
      [done | lia.. | done |].
    simpl. rewrite <- Hsl in *.
    destruct (crypt_ok c (slice pos length (unread super))) as (_ & Hlo & _).
    { unfold slice. apply Forall_take, Forall_drop. by apply unread_bytes. }
    { rewrite lenZ_slice by (rewrite ?lenZ_unread; done || lia). done. }
    rewrite lenZ_slice in Hlo by (rewrite ?lenZ_unread; done || lia).
    eexists. split; [done |]. split; [by split_and! |]. split; [split; simpl; done || lia |].
    split_and!; [unfold sr_size; simpl; done | done | done |].
    unfold unread at 1. simpl. rewrite Hcb. by apply slice_splice_inside; rewrite ?Hlo; lia.
  - exists self. fold super. rewrite Hc. split_and!; try done; try by split_and!.
    assert (lenZ (slice pos length (unread super)) = length) as Hll
      by (rewrite lenZ_slice; rewrite ?lenZ_unread; done || lia).
    destruct (split_at pos (unread super)) as (a & t & Hu & Ha & Ht);
      [rewrite lenZ_unread by done; lia |].
    destruct (split_at length t) as (x & t' & -> & Hx & _); [rewrite lenZ_unread in Ht by done; lia |].
    rewrite Hu, slice_app_second by done. by rewrite splice_app.
Qed.

(** ** A packet under way *)

Record sent := mk_sent {
  s_payload : list Z;
  s_padding : list Z;
  s_seqno : Z;
  s_crypt : option crypto_instance;
  s_mac : option mac_instance;
}.

Definition s_frame (s : sent) : list Z := ssh_frame (s_payload s) (s_padding s).
Definition s_wire (s : sent) : list Z :=
  wire_crypt (s_crypt s) (s_frame s) ++ wire_mac (s_mac s) (s_seqno s) (s_frame s).

(** What [encrypt_packet] guarantees, and the size the reader can handle. *)
Record sent_ok (s : sent) : Prop := {
  so_payload : Forall is_byte (s_payload s);
  so_nonempty : 0 < lenZ (s_payload s);
  so_padding : Forall is_byte (s_padding s);
  so_padding_len : 4 <= lenZ (s_padding s) < 256;
  so_blocks : lenZ (s_frame s) `mod` cipher_block (s_crypt s) = 0;
  so_mac : mac_fresh (s_mac s);
  so_seqno : is_u32 (s_seqno s);
  so_size : lenZ (s_wire s) - 5 + TRANSPORT_READ_AHEAD < SSH_MAX_TOTAL;
}.

Record tread_wf (self : transport_read_state) : Prop := {
  tw_super : read_wf (tr_super self);
  tw_size : sr_size (tr_super self) = SSH_MAX_TOTAL;
  tw_mac_buffer : lsh_string_wf (tr_mac_buffer self);
  tw_mac_room : ls_length (tr_mac_buffer self) = SSH_MAX_MAC_SIZE;
  tw_status : sr_status (tr_super self) = SSH_READ_PUSH ∨ sr_status (tr_super self) = SSH_READ_PENDING;
}.

(** The reader has not looked at the packet yet; [stream] is what is unread
    and what is still to come. *)
Record at_start (s : sent) (rest : list Z) (self : transport_read_state) (todo : list Z) : Prop := {
  as_wf : tread_wf self;
  as_total : tr_total_length self = 0;
  as_seqno : tr_seqno self = s_seqno s;
  as_mac : tr_mac self = s_mac s;
  as_crypto : crypt_match (s_crypt s) (tr_crypto self);
  as_stream : unread (tr_super self) ++ todo = s_wire s ++ rest;
}.

(** The header has been processed: the first block is clear, except that its
    five first octets are gone. *)
Record in_body (s : sent) (rest : list Z) (self : transport_read_state) (todo : list Z) : Prop := {
  ib_wf : tread_wf self;
  ib_total : tr_total_length self = lenZ (s_wire s) - 5;
  ib_padding : tr_padding self = lenZ (s_padding s);
  ib_seqno : tr_seqno self = s_seqno s;
  ib_parts : ∃ p1 c2 p2,
    s_frame s = p1 ++ p2 ∧ lenZ p1 = cipher_block (tr_crypto self) ∧ lenZ c2 = lenZ p2
    ∧ lenZ p2 `mod` cipher_block (tr_crypto self) = 0
    ∧ wire_crypt (tr_crypto self) c2 = p2
    ∧ crypt_match (next_crypt (s_crypt s) (s_frame s)) (next_crypt (tr_crypto self) c2)
    ∧ (match s_mac s, tr_mac self with
       | Some m, Some m' => m' = mk_mac _ (mi_key m) (be32 (s_seqno s) ++ p1)
       | None, None => True
       | _, _ => False
       end)
    ∧ unread (tr_super self) ++ todo
      = drop 5 p1 ++ c2 ++ wire_mac (s_mac s) (s_seqno s) (s_frame s) ++ rest;
}.

Lemma s_frame_bytes s : sent_ok s → Forall is_byte (s_frame s).
Proof. intros [Hp _ Hd Hl _ _ _ _]. apply ssh_frame_bytes; done || lia. Qed.

Lemma lenZ_wire_mac m seqno frame : lenZ (wire_mac m seqno frame) = mac_length m.
Proof. destruct m as [m |]; simpl; [apply mac_digest_ok | done]. Qed.

Lemma lenZ_s_wire s :
  sent_ok s → lenZ (s_wire s) = 5 + lenZ (s_payload s) + lenZ (s_padding s) + mac_length (s_mac s).
Proof.
  intros Hok. unfold s_wire. rewrite lenZ_app, lenZ_wire_mac.
  destruct (wire_crypt_ok (s_crypt s) (s_frame s)) as (_ & -> & _); [by apply s_frame_bytes | apply Hok |].
  unfold s_frame. rewrite lenZ_ssh_frame. lia.
Qed.

(** At least two small blocks, and at least one block. *)
Lemma s_frame_min s :
  sent_ok s → 16 <= lenZ (s_frame s) ∧ cipher_block (s_crypt s) <= lenZ (s_frame s).
Proof.
  intros [_ Hn _ Hd Hb _ _ _]. pose proof (lenZ_ssh_frame (s_payload s) (s_padding s)) as Hl.
  unfold s_frame in *. destruct (cipher_block_cases (s_crypt s)) as [Hc | Hc]; rewrite Hc in *;
    Z.div_mod_to_equations; lia.
Qed.

(** The fields of the header. *)
Lemma s_frame_fields s p1 p2 :
  sent_ok s → s_frame s = p1 ++ p2 → 8 <= lenZ p1 →
  let n := lenZ (s_payload s) + lenZ (s_padding s) + 1 in
  ∃ tl, p1 = be32 n ++ lenZ (s_padding s) :: tl ∧ n < 2 ^ 32.
Proof.
  intros Hok Hf Hp1 n. pose proof (lenZ_s_wire s Hok) as Hw. pose proof (so_size _ Hok) as Hsz.
  pose proof (mac_length_range (s_mac s)). pose proof (so_padding_len _ Hok).
  unfold TRANSPORT_READ_AHEAD, SSH_MAX_TOTAL in Hsz.
  unfold s_frame, ssh_frame in Hf. fold n in Hf.
  exists (drop 5 p1). split; [| lia].
  assert (take 5 (be32 n ++ [lenZ (s_padding s)] ++ s_payload s ++ s_padding s) = take 5 p1) as Ht
    by (rewrite Hf, take_app_le; [done |]; unfold lenZ in Hp1; lia).
  rewrite <- (take_drop 5 p1) at 1. rewrite <- Ht. done.
Qed.

Lemma mac_size_stable s self :
  tr_mac self = s_mac s → mac_length (tr_mac self) = mac_length (s_mac s).
Proof. by intros ->. Qed.

(** The header step. *)
Lemma read_header_spec s rest self todo :
  sent_ok s → at_start s rest self todo →
  cipher_block (tr_crypto self) <= sr_length (tr_super self) →
  ∃ self', read_header self = Ok (self', None)
    ∧ in_body s rest self' todo ∧ tr_inflate self' = tr_inflate self.
Proof.
  intros Hok [[Hwf Hsize Hmb Hmr Hstat] Htot Hseq Hmac Hcr Hst] Hlen.
  destruct (s_frame_min s Hok) as [Hmin Hmin2].
  destruct (decrypt_two (s_crypt s) (tr_crypto self) (s_frame s) Hcr (s_frame_bytes s Hok))
    as (c1 & c2 & p1 & p2 & Hw & Hf & Hblk & Hl1 & Hp1 & Hl2 & Hmod & Hd1 & Hblk1 & Hd2 & Hnext);
    [apply Hok | done |].
  pose proof (cipher_block_range (tr_crypto self)) as Hbs.
  unfold s_wire in Hst. rewrite Hw, <- !app_assoc in Hst.
  set (tail := c2 ++ wire_mac (s_mac s) (s_seqno s) (s_frame s) ++ rest) in *.
  destruct (split_at (cipher_block (tr_crypto self)) (unread (tr_super self))) as (u1 & u2 & Hu & Hu1 & _);
    [rewrite lenZ_unread by done; lia |].
  rewrite Hu, <- app_assoc in Hst. apply app_inj_1 in Hst as [-> Htail]; [| unfold lenZ in *; lia].
  unfold read_header.
  destruct (crypt_input_spec self (cipher_block (tr_crypto self)) 0) as (self1 & -> & Hsame & Hwf1 & Hsz1 & Hln1 & Hcr1 & Hun1);
    [done | lia | lia | lia | apply Z.mod_same; lia |].
  rewrite Hu, slice_app_first in Hcr1, Hun1 by lia. rewrite Hd1 in Hun1.
  pose proof (splice_app 0 p1 [] c1 u2) as Hsp. simpl in Hsp. rewrite Hsp in Hun1 by (done || lia). clear Hsp.
  destruct Hsame as (Hs1 & Hs2 & Hs3 & Hs4 & Hs5 & Hs6 & Hs7). rewrite bind_ok_l. cbv zeta.
  set (super1 := tr_super self1) in *. pose proof (lenZ_unread super1 Hwf1) as Hlu1.
  destruct (s_frame_fields s p1 p2 Hok Hf) as (tl & Hp1eq & Hn); [lia |].
  set (n := lenZ (s_payload s) + lenZ (s_padding s) + 1) in *.
  destruct (sr_here_split super1 Hwf1) as [junk Hhere]. rewrite Hhere, Hun1.
  assert (slice 0 (cipher_block (tr_crypto self)) ((p1 ++ u2) ++ junk) = p1) as ->
    by (rewrite <- app_assoc; by apply slice_app_first).
  pose proof (lenZ_nonneg (s_payload s)). pose proof (so_padding_len _ Hok) as Hpl.
  assert (read_uint32 ((p1 ++ u2) ++ junk) = Ok n) as ->.
  { rewrite Hp1eq, <- !app_assoc. rewrite read_uint32_bytes by (apply be_bytes_bytes || apply lenZ_be32).
    unfold be32. by rewrite be_value_bytes by (simpl; lia). }
  assert (rd ((p1 ++ u2) ++ junk) 4 = Ok (lenZ (s_padding s))) as ->.
  { rewrite Hp1eq, <- !app_assoc. rewrite rd_app_r by (rewrite lenZ_be32; lia).
    by rewrite lenZ_be32. }
  rewrite !bind_ok_l.
  assert (lenZ (s_frame s) = n + 4) as Hfl by (unfold s_frame; rewrite lenZ_ssh_frame; lia).
  pose proof (lenZ_s_wire s Hok) as Hwl. pose proof (so_size _ Hok) as Hsz.
  unfold TRANSPORT_READ_AHEAD, SSH_MAX_TOTAL in Hsz. pose proof (mac_length_range (s_mac s)) as Hml.
  pose proof (so_nonempty _ Hok). rewrite Hs1, Hmac.
  rewrite (proj2 (Z.ltb_ge (lenZ (s_padding s)) 4)) by lia.
  rewrite (proj2 (Z.leb_gt n (lenZ (s_padding s)))) by lia. simpl orb.
  rewrite (proj2 (Z.ltb_ge n 12)) by lia.
  rewrite (proj2 (Z.ltb_ge n (cipher_block (tr_crypto self) - 4))) by lia. simpl orb.
  rewrite (u32_id (n + 4)) by (unfold is_u32; lia).
  pose proof (so_blocks _ Hok) as Hblocks. rewrite Hfl, <- Hblk in Hblocks. rewrite Hblocks.
  change (c_true 0) with false. cbv iota.
  unfold SSH_MAX_TOTAL at 1. rewrite (proj2 (Z.ltb_ge 35000 n)) by lia.
  unfold lsh_string_length. change (ls_length (sr_buffer super1)) with (sr_size super1).
  rewrite Hsz1, Hsize. unfold SSH_MAX_TOTAL. rewrite (proj2 (Z.ltb_ge 35000 _)) by lia.
  eexists. split; [done |]. split; [| done].
  destruct (sr_consume_spec super1 5 Hwf1) as (Hwc & Hszc & Hlc & Huc); [lia |].
  assert (unread (sr_consume super1 5) = drop 5 p1 ++ u2) as Hbody.
  { rewrite Hun1 in Huc. rewrite <- (take_drop 5 p1) in Huc at 1 2. rewrite <- !app_assoc in Huc.
    rewrite slice_app_first in Huc by (unfold lenZ in *; rewrite length_take; lia).
    apply app_inv_head in Huc. by rewrite <- Huc. }
  split; simpl.
  - split; simpl; [done | unfold SSH_MAX_TOTAL in *; congruence | by rewrite Hs6 | by rewrite Hs6 |].
    by rewrite Hs7.
  - lia.
  - done.
  - congruence.
  - exists p1, c2, p2. rewrite Hcr1, Hblk1, Hs3, Hseq. split_and!; try done.
    + destruct (s_mac s) as [m |] eqn:Em; [| done]. pose proof (so_mac _ Hok) as Hfresh. rewrite Em in Hfresh.
      simpl in Hfresh. rewrite WRITE_UINT32_spec by (apply Hok). unfold MAC_UPDATE. simpl.
      by rewrite Hfresh.
    + rewrite Hbody, <- app_assoc. f_equal. exact Htail.
Qed.

(** ** Delivery *)

(** The decompressor after a payload. *)
Definition next_inflate (i : option compress_instance) (room : Z) (payload : list Z)
  : option compress_instance :=
  match i with Some i => Some (fst (codec i (room - 1) payload)) | None => None end.

(** The payload as the application handed it over: [original] is what the
    framed payload was made from, and [room] what the output can take. *)
Definition unpacks (z i : option compress_instance) (original : list Z) (s : sent) : Prop :=
  compress_match z i ∧ s_payload s = packed z original ∧ Forall is_byte original.

Lemma deliver_packet_spec self z original s data output :
  unpacks z (tr_inflate self) original s → sent_ok s →
  lsh_string_wf output → lenZ original < ls_length output →
  (∃ tl, data = s_payload s ++ tl) → Forall is_byte data →
  ∃ output', deliver_packet self (lenZ (s_payload s)) data output
      = Ok (next_inflate (tr_inflate self) (ls_length output) (s_payload s), output', lenZ original)
    ∧ lsh_string_wf output' ∧ ls_length output' = ls_length output
    ∧ slice 0 (lenZ original) (contents output') = original
    ∧ compress_match (next_compress z original)
        (next_inflate (tr_inflate self) (ls_length output) (s_payload s)).
Proof.
  intros (Hm & Hp & Ho) Hok Hwf Hroom [tl ->] Hb. pose proof (lenZ_nonneg original).
  pose proof (so_nonempty _ Hok) as Hne. pose proof (lenZ_contents output Hwf) as Hlc.
  unfold deliver_packet, next_inflate, next_compress, packed in *.
  destruct (tr_inflate self) as [i |], z as [z |]; try done; simpl in Hm.
  - rewrite (proj2 (Z.ltb_ge _ _)) by (rewrite lenZ_app; pose proof (lenZ_nonneg tl); lia).
    rewrite slice_app_first by done.
    destruct (CODEC_spec i output (s_payload s)) as (o & -> & Hwo & Hlo & Hco & _ & _); [done | lia | apply Hok | done |].
    simpl. rewrite Hp in *.
    destruct (compress_sync_ok z i (SSH_MAX_TOTAL - 1) (ls_length output - 1) original) as [Hinv Hs];
      [done | done | by intros Hnil; rewrite Hnil in Hne | lia |].
    rewrite Hinv in *. exists o. split_and!; try done.
    rewrite Hco. apply slice_splice_same; lia.
  - subst original. destruct (lsh_string_write_spec output 0 (lenZ (s_payload s)) (s_payload s ++ tl))
      as (o & -> & Hwo & Hlo & Hco); [done | lia | lia | lia | rewrite lenZ_app; pose proof (lenZ_nonneg tl); lia | done |].
    simpl. exists o. split_and!; try done. rewrite slice_app_first in Hco by done.
    rewrite Hco. apply slice_splice_same; lia.
Qed.

(** The remaining blocks, decrypted in place. *)
Lemma decrypt_rest s rest self todo :
  sent_ok s → in_body s rest self todo → tr_total_length self <= sr_length (tr_super self) →
  ∃ self1 p1 p2 u, (let left := u32 (tr_total_length self - (cipher_block (tr_crypto self) - 5 + mac_length (tr_mac self))) in
      left = lenZ p2 ∧
      (if 0 <? left then crypt_input self left (cipher_block (tr_crypto self) - 5) else Ok self) = Ok self1)
    ∧ same_but_input self self1 ∧ tread_wf self1 ∧ sr_length (tr_super self1) = sr_length (tr_super self)
    ∧ s_frame s = p1 ++ p2 ∧ lenZ p1 = cipher_block (tr_crypto self)
    ∧ crypt_match (next_crypt (s_crypt s) (s_frame s)) (tr_crypto self1)
    ∧ (match s_mac s, tr_mac self with
       | Some m, Some m' => m' = mk_mac _ (mi_key m) (be32 (s_seqno s) ++ p1)
       | None, None => True
       | _, _ => False
       end)
    ∧ unread (tr_super self1)
      = drop 5 p1 ++ p2 ++ wire_mac (s_mac s) (s_seqno s) (s_frame s) ++ u
    ∧ u ++ todo = rest.
Proof.
  intros Hok [[Hwf Hsize Hmb Hmr Hstat] Htot Hpad Hseq (p1 & c2 & p2 & Hf & Hp1 & Hl2 & Hmod & Hd & Hnext & Hmac & Hst)] Hlen.
  assert (mac_length (tr_mac self) = mac_length (s_mac s)) as Hml
    by (destruct (s_mac s), (tr_mac self); try done; by subst).
  pose proof (cipher_block_range (tr_crypto self)) as Hbs. pose proof (lenZ_nonneg p2) as Hp2.
  pose proof (lenZ_s_wire s Hok) as Hwl. pose proof (so_size _ Hok) as Hsz.
  unfold SSH_MAX_BLOCK_SIZE, TRANSPORT_READ_AHEAD, SSH_MAX_TOTAL in *.
  assert (lenZ (s_frame s) = 5 + lenZ (s_payload s) + lenZ (s_padding s)) as Hfl by apply lenZ_ssh_frame.
  rewrite Hf, lenZ_app in Hfl. pose proof (mac_length_range (s_mac s)) as Hmr'.
  assert (u32 (tr_total_length self - (cipher_block (tr_crypto self) - 5 + mac_length (tr_mac self))) = lenZ p2) as Hleft
    by (rewrite u32_id by (unfold is_u32; lia); lia).
  rewrite Hleft. set (wm := wire_mac (s_mac s) (s_seqno s) (s_frame s)) in *.
  assert (lenZ wm = mac_length (s_mac s)) as Hlwm by apply lenZ_wire_mac.
  assert (lenZ (drop 5 p1) = cipher_block (tr_crypto self) - 5) as Hd5
    by (unfold lenZ in *; rewrite length_drop; lia).
  destruct (split_at (tr_total_length self) (unread (tr_super self))) as (a & u & Hu & Hla & _);
    [rewrite lenZ_unread by done; lia |].
  assert (a = drop 5 p1 ++ c2 ++ wm ∧ u ++ todo = rest) as [-> Hrest].
  { rewrite Hu, <- app_assoc in Hst. rewrite !app_assoc in Hst. rewrite <- app_assoc in Hst.
    rewrite <- (app_assoc _ _ wm) in Hst.
    apply app_inj_1 in Hst as [? ?]; [done |].
    assert (lenZ a = lenZ (drop 5 p1 ++ c2 ++ wm)) as He by (rewrite !lenZ_app; lia). unfold lenZ in He. lia. }
  rewrite <- !app_assoc in Hu.
  assert (∃ self1, (if 0 <? lenZ p2 then crypt_input self (lenZ p2) (cipher_block (tr_crypto self) - 5) else Ok self) = Ok self1
    ∧ same_but_input self self1 ∧ read_wf (tr_super self1) ∧ sr_size (tr_super self1) = sr_size (tr_super self)
    ∧ sr_length (tr_super self1) = sr_length (tr_super self)
    ∧ tr_crypto self1 = next_crypt (tr_crypto self) c2
    ∧ unread (tr_super self1) = drop 5 p1 ++ p2 ++ wm ++ u) as (self1 & Hc & Hsame & Hw1 & Hsz1 & Hl1 & Hcr1 & Hu1).
  { destruct (Z.ltb_spec 0 (lenZ p2)) as [Hpos | Hzero].
    - destruct (crypt_input_spec self (lenZ p2) (cipher_block (tr_crypto self) - 5))
        as (self1 & Hc & Hsame & Hw1 & Hsz1 & Hl1 & Hcr1 & Hu1); [done | lia | lia | lia | done |].
      rewrite Hu, slice_app_second in Hcr1, Hu1 by (done || lia). rewrite Hd in Hu1.
      rewrite splice_app in Hu1 by (done || lia). by exists self1.
    - destruct p2; [| len_lia]. destruct c2; [| len_lia]. exists self.
      assert (next_crypt (tr_crypto self) [] = tr_crypto self) as Hnil.
      { destruct (tr_crypto self) as [c |]; simpl; [by rewrite crypt_nil | done]. }
      split_and!; try done; by split_and!. }
  exists self1, p1, p2, u. split; [by split |].
  destruct Hsame as (Hs1 & Hs2 & Hs3 & Hs4 & Hs5 & Hs6 & Hs7).
  split_and!; try done; [split; [done | unfold SSH_MAX_TOTAL; congruence | by rewrite Hs6 | by rewrite Hs6 | by rewrite Hs7] | by rewrite Hcr1].
Qed.

Lemma check_mac_spec s self self1 p1 p2 u :
  sent_ok s → tread_wf self1 → tr_mac self1 = tr_mac self →
  s_frame s = p1 ++ p2 → 5 <= lenZ p1 → tr_total_length self1 = lenZ (s_wire s) - 5 →
  (match s_mac s, tr_mac self with
   | Some m, Some m' => m' = mk_mac _ (mi_key m) (be32 (s_seqno s) ++ p1)
   | None, None => True
   | _, _ => False
   end) →
  unread (tr_super self1) = drop 5 p1 ++ p2 ++ wire_mac (s_mac s) (s_seqno s) (s_frame s) ++ u →
  ∃ b, check_mac self1 (lenZ p1 - 5) (lenZ p2) (mac_length (s_mac s)) = Ok (with_mac self1 (s_mac s) b, true)
    ∧ lsh_string_wf b ∧ ls_length b = SSH_MAX_MAC_SIZE.
Proof.
  intros Hok [Hwf Hsize Hmb Hmr Hstat] Hm Hf Hp1 Htot Hmac Hu. unfold check_mac. rewrite Hm.
  destruct (s_mac s) as [m |] eqn:Em, (tr_mac self) as [m' |] eqn:Em'; try done.
  2: { exists (tr_mac_buffer self1). split_and!; try done. do 2 f_equal. unfold with_mac. rewrite <- Hm.
       by destruct self1. }
  subst m'. destruct (sr_here_split (tr_super self1) Hwf) as [junk Hhere].
  assert (lenZ (drop 5 p1) = lenZ p1 - 5) as Hd5 by (unfold lenZ in *; rewrite length_drop; lia).
  rewrite Hhere, Hu, <- !app_assoc. rewrite slice_app_second by done.
  assert ((if 0 <? lenZ p2 then MAC_UPDATE (mk_mac _ (mi_key m) (be32 (s_seqno s) ++ p1)) p2
           else mk_mac _ (mi_key m) (be32 (s_seqno s) ++ p1))
          = mk_mac _ (mi_key m) (be32 (s_seqno s) ++ s_frame s)) as ->.
  { rewrite Hf. unfold MAC_UPDATE. cbn [mi_key mi_fed]. destruct (Z.ltb_spec 0 (lenZ p2)).
    - by rewrite <- app_assoc.
    - destruct p2; [by rewrite app_nil_r | len_lia]. }
  pose proof (mac_size_ok (mi_key m)) as Hms.
  destruct (MAC_DIGEST_spec (mk_mac _ (mi_key m) (be32 (s_seqno s) ++ s_frame s)) (tr_mac_buffer self1) 0)
    as (b & -> & Hwb & Hlb & Hcb); [done | lia | simpl; lia |].
  cbn [mi_key mi_fed] in *. rewrite bind_ok_l. unfold lsh_string_data.
  set (wm := mac_digest (mi_key m) (be32 (s_seqno s) ++ s_frame s)) in *.
  assert (lenZ wm = mac_size (mi_key m)) as Hlwm by apply mac_digest_ok.
  pose proof (lenZ_s_wire s Hok) as Hwl. rewrite Em in Hwl. simpl in Hwl.
  pose proof (lenZ_ssh_frame (s_payload s) (s_padding s)) as Hfl. unfold s_frame in Hf. rewrite Hf, lenZ_app in Hfl.
  change (wire_mac (Some m) (s_seqno s) (s_frame s)) with wm. simpl mac_length.
  assert (drop (Z.to_nat (tr_total_length self1 - mac_size (mi_key m))) (drop 5 p1 ++ p2 ++ wm ++ u ++ junk)
          = wm ++ u ++ junk) as ->.
  { rewrite app_assoc, drop_app_ge; rewrite length_app; unfold lenZ in *; [| lia].
    replace (_ - _)%nat with 0%nat by lia. apply drop_0. }
  pose proof (lenZ_nonneg (u ++ junk)).
  rewrite mem_equal_contents; [| done | lia | rewrite lenZ_app; lia].
  rewrite bool_decide_eq_true_2.
  2: { rewrite slice_app_first by lia. rewrite Hcb. pose proof (lenZ_contents _ Hmb).
       rewrite <- Hlwm. apply slice_splice_same; lia. }
  simpl. exists b. split_and!; [| done | congruence]. do 3 f_equal.
  pose proof (so_mac _ Hok) as Hfresh. rewrite Em in Hfresh. simpl in Hfresh.
  destruct m as [mk fed]. simpl in *. by subst fed.
Qed.

(** The reader is back at the start, in step with the sender's next packet. *)
Record delivered_state (s : sent) (z : option compress_instance) (original rest : list Z)
  (self : transport_read_state) (todo : list Z) : Prop := {
  ds_wf : tread_wf self;
  ds_total : tr_total_length self = 0;
  ds_seqno : tr_seqno self = u32 (s_seqno s + 1);
  ds_mac : tr_mac self = s_mac s;
  ds_crypto : crypt_match (next_crypt (s_crypt s) (s_frame s)) (tr_crypto self);
  ds_inflate : compress_match (next_compress z original) (tr_inflate self);
  ds_stream : unread (tr_super self) ++ todo = rest;
}.

Lemma decode_packet_spec s rest self todo z original output :
  sent_ok s → in_body s rest self todo → tr_total_length self <= sr_length (tr_super self) →
  unpacks z (tr_inflate self) original s → lsh_string_wf output → lenZ original < ls_length output →
  ∃ self' output', decode_packet self output = Ok (self', output', TrPacket (s_seqno s) (lenZ original))
    ∧ delivered_state s z original rest self' todo
    ∧ lsh_string_wf output' ∧ ls_length output' = ls_length output
    ∧ slice 0 (lenZ original) (contents output') = original.
Proof.
  intros Hok Hib Hlen Hunp Hwo Hroom. pose proof Hib as [_ Htot Hpad Hseq _].
  destruct (decrypt_rest s rest self todo Hok Hib Hlen)
    as (self1 & p1 & p2 & u & [Hleft Hcrypt] & (Hs1 & Hs2 & Hs3 & Hs4 & Hs5 & Hs6 & Hs7) & Hwf1 & Hl1 & Hf & Hp1 & Hnext & Hmac & Hu & Hrest).
  assert (mac_length (tr_mac self) = mac_length (s_mac s)) as Hml
    by (destruct (s_mac s), (tr_mac self); try done; by subst).
  pose proof (cipher_block_range (tr_crypto self)) as Hbs.
  unfold decode_packet. cbv zeta in Hleft, Hcrypt |- *. rewrite Hleft in *. rewrite Hcrypt, bind_ok_l, Hml, <- Hp1.
  destruct (check_mac_spec s self self1 p1 p2 u) as (b & -> & Hwb & Hlb); try done; [lia | congruence |].
  rewrite bind_ok_l. cbn [negb with_mac tr_super tr_mac tr_crypto tr_inflate tr_seqno tr_padding tr_total_length tr_mac_buffer].
  pose proof (lenZ_s_wire s Hok) as Hwl. pose proof (so_size _ Hok) as Hsz. pose proof (so_nonempty _ Hok).
  pose proof (so_padding_len _ Hok). pose proof (mac_length_range (s_mac s)).
  unfold TRANSPORT_READ_AHEAD, SSH_MAX_TOTAL in Hsz.
  replace (u32 (tr_total_length self1 - mac_length (s_mac s) - tr_padding self1)) with (lenZ (s_payload s))
    by (rewrite Hs4, Hs5, u32_id by (unfold is_u32; lia); lia).
  destruct (tw_super _ Hwf1) as [Hwb1 _ _ _].
  destruct (sr_here_split (tr_super self1) (tw_super _ Hwf1)) as [junk Hhere].
  destruct (deliver_packet_spec (with_mac self1 (s_mac s) b) z original s (sr_here (tr_super self1)) output)
    as (o & -> & Hwo' & Hlo & Hco & Hz); try done.
  { simpl. by rewrite Hs2. }
  { exists (s_padding s ++ wire_mac (s_mac s) (s_seqno s) (s_frame s) ++ u ++ junk).
    rewrite Hhere, Hu, <- !app_assoc, app_assoc.
    assert (drop 5 p1 ++ p2 = s_payload s ++ s_padding s) as ->; [| by rewrite <- !app_assoc].
    rewrite <- drop_app_le by (unfold lenZ, SSH_MAX_BLOCK_SIZE in *; lia). rewrite <- Hf. done. }
  { unfold sr_here. apply Forall_drop, Hwb1. }
  rewrite bind_ok_l. destruct (sr_consume_spec (tr_super self1) (tr_total_length self1) (tw_super _ Hwf1))
    as (Hwc & Hszc & Hlc & Huc); [lia |].
  eexists _, o. split; [by rewrite Hs3, Hseq |]. split_and!; try done.
  split; simpl; try done.
  - split; simpl; [done | rewrite Hszc; apply Hwf1 | done | done | apply Hwf1].
  - rewrite <- Hrest. f_equal.
    pose proof (lenZ_ssh_frame (s_payload s) (s_padding s)) as Hfl. unfold s_frame in Hf. rewrite Hf, lenZ_app in Hfl.
    rewrite Hu, !app_assoc in Huc. rewrite slice_app_first in Huc.
    + by apply app_inv_head in Huc.
    + assert (lenZ (drop 5 p1) = lenZ p1 - 5) as Hd5 by (unfold lenZ in *; rewrite length_drop; lia).
      rewrite Hs5, Htot, Hwl, !lenZ_app, lenZ_wire_mac. lia.
Qed.

(** ** One call *)

(** The next read, if it delivers octets, delivers octets of the stream. *)
Definition promises (k : os) (todo : list Z) : Prop :=
  ∀ n, 0 < n → ∃ d, delivered (fst (read_retry k n)) = delivered k ++ d ∧ d `prefix_of` todo.

Definition awaiting (s : sent) (rest : list Z) (self : transport_read_state) (todo : list Z) : Prop :=
  at_start s rest self todo ∨ in_body s rest self todo.

Definition packet_outcome (s : sent) (z i : option compress_instance) (original rest : list Z) (k : os)
  (todo : list Z) (c : result (transport_read_state * os * lsh_string * transport_ret)) (room : Z) : Prop :=
  ∃ self' k' output' r d todo', c = Ok (self', k', output', r)
    ∧ todo = d ++ todo' ∧ delivered k' = delivered k ++ d
    ∧ lsh_string_wf output' ∧ ls_length output' = room
    ∧ match r with
      | TrPacket q n =>
          q = s_seqno s ∧ n = lenZ original ∧ slice 0 n (contents output') = original
          ∧ delivered_state s z original rest self' todo'
      | TrStatus SSH_READ_PUSH | TrStatus SSH_READ_PENDING | TrIoError _ =>
          awaiting s rest self' todo' ∧ tr_inflate self' = i
      | TrStatus SSH_READ_EOF => True
      | TrProtocolError error msg => error = 0 ∧ msg = Some "Unexpected EOF"
      | _ => False
      end.

(** Octets that arrive keep the reader where it was. *)
Lemma awaiting_more s rest self todo super d todo' :
  awaiting s rest self todo → todo = d ++ todo' →
  read_wf super → sr_size super = sr_size (tr_super self) →
  unread super = unread (tr_super self) ++ d →
  sr_status super = SSH_READ_PUSH ∨ sr_status super = SSH_READ_PENDING →
  awaiting s rest (with_super self super) todo'
  ∧ (in_body s rest self todo → in_body s rest (with_super self super) todo').
Proof.
  intros Haw -> Hw Hsz Hu Hst.
  assert (in_body s rest self (d ++ todo') → in_body s rest (with_super self super) todo') as Hib.
  { intros [[_ Hsize Hmb Hmr _] Htot Hpad Hseq (p1 & c2 & p2 & H1' & H2' & H3' & H4' & H5' & H6' & H7' & H8')].
    split; simpl; try done; [split; simpl; done || congruence |].
    exists p1, c2, p2. split_and!; try done. by rewrite Hu, <- app_assoc. }
  split; [| done]. destruct Haw as [Has | Hb]; [left | right; by apply Hib].
  destruct Has as [[_ Hsize Hmb Hmr _] Htot Hseq Hmac Hcr Hstr].
  split; simpl; try done; [split; simpl; done || congruence | by rewrite Hu, <- app_assoc].
Qed.

Lemma awaiting_wf s rest self todo : awaiting s rest self todo → tread_wf self.
Proof. by intros [[] | []]. Qed.

(** One read, seen from a waiting reader. *)
Lemma awaiting_read s rest self todo k limit :
  awaiting s rest self todo → promises k todo →
  sr_length (tr_super self) < limit < SSH_MAX_TOTAL →
  ∃ super k' res d todo', ssh_read_some (tr_super self) k limit = Ok (super, k', res)
    ∧ todo = d ++ todo' ∧ delivered k' = delivered k ++ d
    ∧ awaiting s rest (with_super self super) todo'
    ∧ (in_body s rest self todo → in_body s rest (with_super self super) todo')
    ∧ match res with ReadSome => True | _ => d = [] end.
Proof.
  intros Haw Hpr Hlim. pose proof (awaiting_wf _ _ _ _ Haw) as [Hwf Hsize _ _ Hstat].
  destruct (ssh_read_some_spec (tr_super self) k limit)
    as (super & k' & res & d & Hread & Hw & Hsz & _ & Hd & Hu & _ & _ & Hres);
    [done | by rewrite Hsize | rewrite Hsize; unfold SSH_MAX_TOTAL; lia |].
  destruct (ssh_read_some_os _ _ _ _ _ _ Hread) as (n & Hn & Hk).
  destruct (Hpr n Hn) as (d' & Hd' & [todo' ->]). rewrite <- Hk, Hd in Hd'. apply app_inv_head in Hd' as <-.
  assert (sr_status super = SSH_READ_PUSH ∨ sr_status super = SSH_READ_PENDING) as Hst.
  { destruct res as [e | |]; [destruct Hres as (_ & _ & ->) | destruct Hres as [_ ->] |]; [done | done | apply Hres]. }
  destruct (awaiting_more s rest self (d ++ todo') super d todo' Haw) as [Haw' Hib']; [done.. |].
  exists super, k', res, d, todo'. split_and!; try done.
  destruct res as [e | |]; [apply Hres | apply Hres | done].
Qed.

Lemma status_outcome s z i original rest k todo self k' output st d todo' :
  todo = d ++ todo' → delivered k' = delivered k ++ d → lsh_string_wf output →
  awaiting s rest self todo' → tr_inflate self = i →
  st = SSH_READ_PUSH ∨ st = SSH_READ_PENDING →
  packet_outcome s z i original rest k todo (Ok (self, k', output, TrStatus st)) (ls_length output).
Proof.
  intros Ht Hd Hw Haw Hi Hst. exists self, k', output, (TrStatus st), d, todo'.
  split_and!; try done. by destruct Hst as [-> | ->].
Qed.

Lemma read_body_spec s rest self todo z original output fd k :
  sent_ok s → in_body s rest self todo → (fd = true → promises k todo) →
  unpacks z (tr_inflate self) original s → lsh_string_wf output → lenZ original < ls_length output →
  packet_outcome s z (tr_inflate self) original rest k todo (read_body self fd k output) (ls_length output).
Proof.
  intros Hok Hib Hpr Hunp Hwo Hroom.
  assert (∀ self1 k1 d todo1, in_body s rest self1 todo1 → tr_total_length self1 <= sr_length (tr_super self1) →
    tr_inflate self1 = tr_inflate self → todo = d ++ todo1 → delivered k1 = delivered k ++ d →
    packet_outcome s z (tr_inflate self) original rest k todo
      ('(self, packet, r) ← decode_packet self1 output; Ok (self, k1, packet, r)) (ls_length output)) as Hdec.
  { intros self1 k1 d todo1 Hib1 Hl Hi Ht Hd.
    destruct (decode_packet_spec s rest self1 todo1 z original output) as (self' & o & -> & Hds & Hwo' & Hlo & Hco);
      [done | done | done | by rewrite Hi | done | done |].
    simpl. eexists _, k1, o, _, d, todo1. by split_and!. }
  pose proof (ib_total _ _ _ _ Hib) as Htot. pose proof (so_size _ Hok) as Hsz.
  pose proof (tw_status _ (ib_wf _ _ _ _ Hib)) as Hstat. pose proof (lenZ_nonneg (s_wire s)).
  unfold read_body. destruct (Z.ltb_spec (sr_length (tr_super self)) (tr_total_length self)) as [Hshort | Hlong].
  - destruct fd; simpl.
    + unfold TRANSPORT_READ_AHEAD, SSH_MAX_TOTAL in Hsz.
      assert (0 <= sr_length (tr_super self)) by apply Hib.
      rewrite u32_id by (unfold is_u32, TRANSPORT_READ_AHEAD; lia).
      destruct (awaiting_read s rest self todo k (tr_total_length self + TRANSPORT_READ_AHEAD))
        as (super & k1 & res & d & todo1 & -> & Ht & Hd & Haw & Hib1 & Hres);
        [by right | by apply Hpr | unfold TRANSPORT_READ_AHEAD, SSH_MAX_TOTAL; lia |].
      simpl. specialize (Hib1 Hib).
      destruct res as [e | |].
      * subst d. destruct e; try (by apply (status_outcome _ _ _ _ _ _ _ _ _ _ _ [] todo1); auto);
          eexists _, k1, output, _, [], todo1; by split_and!.
      * eexists _, k1, output, _, d, todo1. by split_and!.
      * case_bool; [| apply (Hdec _ _ d todo1); simpl; done || lia].
        apply (status_outcome _ _ _ _ _ _ _ _ _ _ _ d todo1); try done. apply (ib_wf _ _ _ _ Hib1).
    + apply (status_outcome _ _ _ _ _ _ _ _ _ _ _ [] todo); try done; [by rewrite app_nil_r | by right].
  - apply (Hdec _ _ [] todo); try done. by rewrite app_nil_r.
Qed.

Lemma read_packet_tail_spec s rest self todo z original output fd k :
  sent_ok s → awaiting s rest self todo → (fd = true → promises k todo) →
  cipher_block (tr_crypto self) <= sr_length (tr_super self) →
  unpacks z (tr_inflate self) original s → lsh_string_wf output → lenZ original < ls_length output →
  packet_outcome s z (tr_inflate self) original rest k todo (read_packet_tail self fd k output) (ls_length output).
Proof.
  intros Hok Haw Hpr Hlen Hunp Hwo Hroom. unfold read_packet_tail. pass_assert.
  destruct Haw as [Has | Hib].
  - rewrite (as_total _ _ _ _ Has). simpl.
    destruct (read_header_spec s rest self todo Hok Has Hlen) as (self1 & -> & Hib & Hi). simpl.
    rewrite <- Hi in *. by apply read_body_spec.
  - destruct (s_frame_min s Hok) as [Hmin _]. pose proof (lenZ_s_wire s Hok) as Hwl.
    pose proof (lenZ_ssh_frame (s_payload s) (s_padding s)) as Hfl. unfold s_frame in Hmin.
    pose proof (mac_length_range (s_mac s)).
    rewrite (ib_total _ _ _ _ Hib), (proj2 (Z.eqb_neq _ _)) by lia. by apply read_body_spec.
Qed.

(** What happened before a part of the call is added to what it did. *)
Lemma packet_outcome_more s z i original rest k todo k1 todo1 d c room :
  todo = d ++ todo1 → delivered k1 = delivered k ++ d →
  packet_outcome s z i original rest k1 todo1 c room → packet_outcome s z i original rest k todo c room.
Proof.
  intros -> Hd (self' & k' & o & r & d' & todo' & -> & -> & Hd' & Hwo & Hlo & Hr).
  exists self', k', o, r, (d ++ d'), todo'. split_and!; try done; [by rewrite app_assoc | by rewrite Hd', Hd, app_assoc].
Qed.

Lemma transport_read_packet_spec s rest self todo z original output fd k :
  sent_ok s → awaiting s rest self todo → promises k todo →
  unpacks z (tr_inflate self) original s → lsh_string_wf output → lenZ original < ls_length output →
  packet_outcome s z (tr_inflate self) original rest k todo
    (transport_read_packet self fd k output) (ls_length output).
Proof.
  intros Hok Haw Hpr Hunp Hwo Hroom. pose proof (cipher_block_range (tr_crypto self)) as Hbs.
  unfold SSH_MAX_BLOCK_SIZE in Hbs. pose proof (awaiting_wf _ _ _ _ Haw) as Hwf.
  unfold transport_read_packet.
  destruct (Z.ltb_spec (sr_length (tr_super self)) (cipher_block (tr_crypto self))) as [Hshort | Hlong];
    [| by apply read_packet_tail_spec].
  destruct fd; simpl.
  - destruct (awaiting_read s rest self todo k TRANSPORT_READ_AHEAD Haw Hpr)
      as (super & k1 & res & d & todo1 & -> & Ht & Hd & Haw1 & _ & Hres);
      [unfold TRANSPORT_READ_AHEAD, SSH_MAX_TOTAL; lia |].
    simpl. destruct res as [e | |].
    + subst d. destruct e; try (by apply (status_outcome _ _ _ _ _ _ _ _ _ _ _ [] todo1); auto);
        eexists _, k1, output, _, [], todo1; by split_and!.
    + case_bool; eexists _, k1, output, _, d, todo1; by split_and!.
    + case_bool.
      * apply (status_outcome _ _ _ _ _ _ _ _ _ _ _ d todo1); try done. apply (awaiting_wf _ _ _ _ Haw1).
      * apply (packet_outcome_more _ _ _ _ _ _ _ k1 todo1 d); [done | done |].
        apply (read_packet_tail_spec s rest (with_super self super)); try done. simpl. lia.
  - apply (status_outcome _ _ _ _ _ _ _ _ _ _ _ [] todo); try done; [by rewrite app_nil_r | apply Hwf].
Qed.

(** ** Lines *)

Lemma find_newline_spec line tl i :
  Forall (λ c, c ≠ 10) line → find_newline (line ++ 10 :: tl) i = Some (i + lenZ line).
Proof.
  revert i. induction line as [| c line IH]; intros i Hl; simpl.
  - change (lenZ []) with 0. f_equal. lia.
  - apply Forall_cons in Hl as [Hc Hl]. rewrite (proj2 (Z.eqb_neq _ _)) by done.
    rewrite IH, lenZ_cons by done. f_equal. lia.
Qed.

Lemma find_line_spec super line eol rest :
  read_wf super → unread super = line ++ eol ++ 10 :: rest → eol = [] ∨ eol = [13] →
  (eol = [] → last line ≠ Some 13) → Forall (λ c, c ≠ 10) line → lenZ (line ++ eol) < SSH_MAX_LINE →
  ∃ super', find_line super = Ok (super', TrLine line) ∧ read_wf super' ∧ sr_size super' = sr_size super
    ∧ unread super' = rest.
Proof.
  intros Hwf Hu Heol Hlast Hno Hlen. pose proof (lenZ_unread super Hwf) as Hlu.
  pose proof (rw_length _ Hwf). unfold find_line.
  destruct (sr_here_unread super (sr_length super) Hwf) as [Hle Hsl]; [lia |].
  rewrite (proj2 (Z.ltb_ge _ _)) by lia. rewrite Hsl, <- Hlu, slice_all, Hu.
  destruct (sr_here_split super Hwf) as [junk Hhere].
  assert (Forall (λ c, c ≠ 10) (line ++ eol)) as Hno'
    by (apply Forall_app; split; [done |]; destruct Heol as [-> | ->]; by repeat constructor).
  rewrite app_assoc, find_newline_spec by done. rewrite Z.add_0_l.
  rewrite (proj2 (Z.leb_gt _ _)) by lia. rewrite lenZ_app in *.
  pose proof (lenZ_nonneg line) as Hl0.
  assert (∃ cr, (if 0 <? lenZ line + lenZ eol then c ← rd (sr_here super) (lenZ line + lenZ eol - 1); Ok (c =? 13)
            else Ok false) = Ok cr ∧ c_int cr = lenZ eol) as (cr & -> & Hcr).
  { rewrite Hhere, Hu. destruct Heol as [-> | ->]; simpl.
    - change (lenZ []) with 0. rewrite Z.add_0_r. destruct (Z.ltb_spec 0 (lenZ line)); [| by exists false].
      destruct line as [| c line] using rev_ind; [done |]. rewrite lenZ_app. change (lenZ [c]) with 1.
      rewrite <- !app_assoc. rewrite rd_app_r by lia.
      replace (lenZ line + 1 - 1 - lenZ line) with 0 by lia. simpl. exists false. split; [| done].
      specialize (Hlast eq_refl). rewrite last_snoc in Hlast. f_equal. apply Z.eqb_neq. congruence.
    - change (lenZ [13]) with 1. rewrite (proj2 (Z.ltb_lt _ _)) by lia. rewrite <- !app_assoc.
      rewrite rd_app_r by lia. replace (lenZ line + 1 - 1 - lenZ line) with 0 by lia. by exists true. }
  rewrite bind_ok_l, Hcr. replace (lenZ line + lenZ eol - lenZ eol) with (lenZ line) by lia.
  rewrite Hhere, Hu, <- !app_assoc, slice_app_first by done.
  rewrite Hu, !lenZ_app, lenZ_cons in Hlu. pose proof (lenZ_nonneg rest).
  destruct (sr_consume_spec super (lenZ line + lenZ eol + 1) Hwf) as (Hw & Hsz & _ & Huc);
    [pose proof (lenZ_nonneg eol); lia |].
  eexists. split_and!; [done | done | done |].
  rewrite Hu in Huc. replace (line ++ eol ++ 10 :: rest) with ((line ++ eol ++ [10]) ++ rest) in Huc
    by by rewrite <- !app_assoc.
  rewrite slice_app_first in Huc by (rewrite !lenZ_app; change (lenZ [10]) with 1; lia).
  by apply app_inv_head in Huc.
Qed.



(** C38: the length check admits packets that the reader cannot receive: when
    the rest of a packet plus the read-ahead does not fit the buffer, and not
    all of it is there, the call stops at the assertion of
    [ssh_read_some]. *)
Theorem transport_read_oversize_fails self k output :
  tread_wf self → tr_total_length self <= SSH_MAX_TOTAL →
  SSH_MAX_TOTAL <= tr_total_length self + TRANSPORT_READ_AHEAD →
  cipher_block (tr_crypto self) <= sr_length (tr_super self) < tr_total_length self →
  transport_read_packet self true k output = Fault AssertFailed.
Proof.
  intros [Hwf Hsize _ _ _] Hmax Hbig Hlen. pose proof (cipher_block_range (tr_crypto self)).
  unfold transport_read_packet, read_packet_tail, read_body. rewrite (proj2 (Z.ltb_ge _ _)) by lia.
  pass_assert. rewrite (proj2 (Z.eqb_neq _ _)) by lia. rewrite (proj2 (Z.ltb_lt _ _)) by lia. simpl.
  unfold SSH_MAX_TOTAL, TRANSPORT_READ_AHEAD in *. rewrite u32_id by (unfold is_u32; lia).
  unfold ssh_read_some, lsh_string_length. unfold sr_size in Hsize.
  by rewrite Hsize, (proj2 (Z.ltb_ge (tr_total_length self + 1000) _)) by lia.
Qed.

(** A complete line in the buffer, ended by LF or CR LF, is delivered
    without its terminator and without reading the descriptor, and the octets
    after it stay unread. *)
Theorem transport_read_line_correct self line eol rest fd k :
  read_wf (tr_super self) → unread (tr_super self) = line ++ eol ++ 10 :: rest →
  eol = [] ∨ eol = [13] → (eol = [] → last line ≠ Some 13) →
  Forall (λ c, c ≠ 10) line → lenZ (line ++ eol) < SSH_MAX_LINE →
  ∃ super', transport_read_line self fd k = Ok (with_super self super', k, TrLine line)
    ∧ read_wf super' ∧ unread super' = rest.
Proof.
  intros Hwf Hu Heol Hlast Hno Hlen. unfold transport_read_line.
  pose proof (lenZ_unread _ Hwf) as Hlu. rewrite Hu, !lenZ_app, lenZ_cons in Hlu.
  pose proof (lenZ_nonneg line). pose proof (lenZ_nonneg eol). pose proof (lenZ_nonneg rest).
  rewrite (proj2 (Z.eqb_neq _ _)) by lia.
  destruct (find_line_spec (tr_super self) line eol rest) as (super' & -> & Hw & _ & Hr); [done.. |].
  simpl. eauto.
Qed.

End spec.

(** ** Instances *)

(** The sample packet of the sender, read by the opposite shift. *)
Definition sample_reader : transport_read_state :=
  mk_tread (init_ssh_read_state SSH_MAX_TOTAL) (k_mac sample_keys) (Some ((-3) : @crypto_instance ref_crypto)) None 0 0 0
    (lsh_string_alloc SSH_MAX_MAC_SIZE).

Lemma sample_reader_wf : tread_wf sample_reader ∧ unread (tr_super sample_reader) = [].
Proof.
  destruct (init_ssh_read_state_wf SSH_MAX_TOTAL) as [Hw Hu]; [unfold is_u32, SSH_MAX_TOTAL; lia |].
  split; [| exact Hu]. split; [exact Hw | reflexivity | | reflexivity | left; reflexivity].
  apply lsh_string_alloc_wf. unfold is_u32, SSH_MAX_MAC_SIZE. lia.
Qed.

(** The scripted descriptor keeps its promise. *)
Lemma scripted_promises (d todo : list Z) :
  Forall is_byte d → d `prefix_of` todo → promises (scripted [Give d]) todo.
Proof.
  intros Hb [t ->] n Hn. exists (slice 0 (Z.min n (lenZ d)) (u8 <$> d)). split; [reflexivity |].
  assert (u8 <$> d = d) as ->.
  { induction Hb as [| x d Hx _ IH]; [done |]. rewrite fmap_cons, IH. f_equal. by apply u8_id. }
  unfold slice. rewrite drop_0. exists (drop (Z.to_nat (Z.min n (lenZ d))) d ++ t).
  by rewrite app_assoc, take_drop.
Qed.

Definition sample_sent : sent :=
  mk_sent [21] (replicate 10 7) 0 (k_crypt sample_keys) (k_mac sample_keys).

Lemma sample_sent_ok : sent_ok sample_sent.
Proof.
  split.
  - repeat constructor; unfold is_byte; lia.
  - reflexivity.
  - apply Forall_replicate. unfold is_byte. lia.
  - split; [discriminate | reflexivity].
  - reflexivity.
  - reflexivity.
  - unfold is_u32. simpl. lia.
  - reflexivity.
Qed.



(** A packet of 34900 octets whose first eight have arrived. *)
Lemma transport_read_oversize_fails_witness :
  transport_read_packet
    (mk_tread (mk_read (lsh_string_alloc SSH_MAX_TOTAL) 0 8 SSH_READ_PUSH) None None None 0 4 34899
       (lsh_string_alloc SSH_MAX_MAC_SIZE))
    true (scripted []) (lsh_string_alloc 100) = Fault AssertFailed.
Proof.
  apply transport_read_oversize_fails; [| discriminate | discriminate | split; [discriminate | reflexivity]].
  split; [split | reflexivity | | reflexivity | left; reflexivity].
  - apply lsh_string_alloc_wf. unfold is_u32, SSH_MAX_TOTAL. lia.
  - simpl. lia.
  - simpl. lia.
  - simpl. unfold SSH_MAX_TOTAL. lia.
  - apply lsh_string_alloc_wf. unfold is_u32, SSH_MAX_MAC_SIZE. lia.
Defined.

Lemma transport_read_line_correct_witness :
  let text := cstr "SSH-2.0-lsh" ++ [13] ++ 10 :: cstr "rest" in
  ∃ super', transport_read_line
      (mk_tread (mk_read (mk_lsh_string (lenZ text) (text ++ [0])) 0 (lenZ text) SSH_READ_PUSH)
         None None None 0 0 0 (lsh_string_alloc SSH_MAX_MAC_SIZE)) true (scripted [])
    = Ok (with_super (mk_tread (mk_read (mk_lsh_string (lenZ text) (text ++ [0])) 0 (lenZ text) SSH_READ_PUSH)
         None None None 0 0 0 (lsh_string_alloc SSH_MAX_MAC_SIZE)) super', scripted [], TrLine (cstr "SSH-2.0-lsh"))
    ∧ read_wf super' ∧ unread super' = cstr "rest".
Proof.
  intros text. apply (transport_read_line_correct _ _ [13] (cstr "rest")).
  - split; simpl; [| lia | discriminate | reflexivity].
    split; simpl; [unfold is_u32; split; [discriminate | reflexivity] | reflexivity | reflexivity |].
    vm_compute. repeat constructor; discriminate.
  - reflexivity.
  - right. reflexivity.
  - discriminate.
  - vm_compute. repeat constructor; discriminate.
  - reflexivity.
Defined.
