(* ===== verification/TransportSafe.v ===== *)
(** * The reader on hostile input

    [TransportSpec] follows genuine packets through the reader.  Here the
    octets are arbitrary: whatever arrives, the reader returns and keeps its
    invariant, except for three kinds of packet that its own checks let
    through. *)

From S2P Require Import Prelude Ssh Nettle Atoms LshString Format FormatSpec Parse ParseSpec Sys SshRead Crypto Encrypt TransportRead TransportSpec.
Local Open Scope Z_scope.

(** Messages for the peer are short. *)
Definition message_ok (m : string) : Prop := lenZ (cstr m) <= 100.

Ltac short := unfold message_ok; vm_compute; discriminate.

Section proofs.
Context `{MallocOk} `{NettleMacrosOk} `{NettleBignumOk} `{AtomTableOk} `{OSOk} `{CryptoOk}.

(** What the checks on the first block establish. *)
Record body_ok (self : transport_read_state) : Prop := {
  bo_min : cipher_block (tr_crypto self) - 5 + mac_length (tr_mac self) <= tr_total_length self;
  bo_blocks : (tr_total_length self - (cipher_block (tr_crypto self) - 5 + mac_length (tr_mac self)))
              `mod` cipher_block (tr_crypto self) = 0;
  bo_padding : 4 <= tr_padding self;
  bo_payload : mac_length (tr_mac self) + tr_padding self <= tr_total_length self;
  bo_max : 11 <= tr_total_length self <= SSH_MAX_TOTAL;
}.

Record tread_inv (self : transport_read_state) : Prop := {
  ti_wf : tread_wf self;
  ti_seqno : is_u32 (tr_seqno self);
  ti_body : tr_total_length self = 0 ∨ body_ok self;
}.

(** The length of the payload once the header is known. *)
Definition payload_length (self : transport_read_state) : Z :=
  tr_total_length self - mac_length (tr_mac self) - tr_padding self.

(** Packets that pass the checks of the header and yet stop the process: the
    read-ahead does not fit into the buffer, the payload does not fit into
    [room] octets, or there is nothing to inflate. *)
Definition unmanageable (self : transport_read_state) (room : Z) : Prop :=
  SSH_MAX_TOTAL <= tr_total_length self + TRANSPORT_READ_AHEAD
  ∨ (match tr_inflate self with Some _ => payload_length self = 0 | None => room < payload_length self end).

Lemma make_transport_read_state_inv : tread_inv make_transport_read_state.
Proof.
  destruct (init_ssh_read_state_wf SSH_MAX_TOTAL) as [Hw Hb]; [unfold is_u32, SSH_MAX_TOTAL; lia |].
  split; [split; simpl; try done | simpl; unfold is_u32; lia | by left].
  - apply lsh_string_alloc_wf. unfold is_u32, SSH_MAX_MAC_SIZE. lia.
  - by left.
Qed.

(** New keys are only installed between packets. *)
Lemma new_keys_inv self m c z :
  tread_inv self → tr_total_length self = 0 → tread_inv (transport_read_new_keys self m c z).
Proof. intros [[] Hq _] Ht. split; [by split | done | by left]. Qed.

(** Only the input buffer differs, by fresh input. *)
Lemma with_super_inv self super :
  tread_inv self → read_wf super → sr_size super = SSH_MAX_TOTAL →
  sr_status super = SSH_READ_PUSH ∨ sr_status super = SSH_READ_PENDING →
  tread_inv (with_super self super).
Proof.
  intros [[] Hq Hb] Hw Hs Hst. split; [by split | done |].
  destruct Hb as [Ht | []]; [by left | right; by split].
Qed.

Lemma first_block_fields super :
  read_wf super → 5 <= sr_length super →
  ∃ n p, read_uint32 (sr_here super) = Ok n ∧ rd (sr_here super) 4 = Ok p ∧ is_u32 n ∧ is_byte p.
Proof.
  intros Hwf Hl. destruct (sr_here_split super Hwf) as [junk ->]. pose proof (unread_bytes super Hwf) as Hb.
  pose proof (lenZ_unread super Hwf) as Hlu. destruct (split_at 4 (unread super)) as (a & b & Hu & Ha & Hlb); [lia |].
  rewrite Hu in *. apply Forall_app in Hb as [Hba Hbb]. rewrite <- app_assoc, read_uint32_bytes by done.
  destruct b as [| p b]; [change (lenZ []) with 0 in Hlb; lia |]. apply Forall_cons in Hbb as [Hp _].
  exists (be_value a), p. rewrite rd_app_r, Ha by lia. split_and!; try done.
  pose proof (be_value_range a Hba) as Hr. rewrite Ha in Hr. done.
Qed.

(** The header of an arbitrary packet. *)
Lemma read_header_safe self :
  tread_wf self → is_u32 (tr_seqno self) → cipher_block (tr_crypto self) <= sr_length (tr_super self) →
  ∃ self' r, read_header self = Ok (self', r)
    ∧ match r with
      | None => tread_inv self' ∧ body_ok self'
          ∧ sr_length (tr_super self') = sr_length (tr_super self) - 5
          ∧ tr_seqno self' = tr_seqno self ∧ tr_inflate self' = tr_inflate self
      | Some r => sr_length (tr_super self') = sr_length (tr_super self)
          ∧ ∃ msg, r = TrProtocolError SSH_DISCONNECT_PROTOCOL_ERROR (Some msg) ∧ message_ok msg
      end.
Proof.
  intros [Hwf Hsize Hmb Hmr Hstat] Hseq Hlen. pose proof (cipher_block_range (tr_crypto self)) as Hbs.
  unfold read_header.
  destruct (crypt_input_spec self (cipher_block (tr_crypto self)) 0)
    as (self1 & -> & (Hs1 & Hs2 & Hs3 & Hs4 & Hs5 & Hs6 & Hs7) & Hwf1 & Hsz1 & Hln1 & Hcr1 & _);
    [done | lia | lia | lia | apply Z.mod_same; lia |].
  assert (cipher_block (tr_crypto self1) = cipher_block (tr_crypto self)) as Hblk.
  { rewrite Hcr1. apply wire_crypt_ok.
    - unfold slice. apply Forall_take, Forall_drop. by apply unread_bytes.
    - rewrite lenZ_slice; [apply Z.mod_same; lia | lia | lia | rewrite lenZ_unread; done || lia]. }
  rewrite bind_ok_l. cbv zeta.
  destruct (first_block_fields (tr_super self1) Hwf1) as (n & p & -> & -> & Hn & Hp); [lia |]. rewrite !bind_ok_l.
  destruct (_ || _) eqn:Hpad; [eexists _, (Some _); split; [done | split; [done | eexists; split; [done | short]]] |].
  destruct (_ || _ || _) eqn:Hnl; [eexists _, (Some _); split; [done | split; [done | eexists; split; [done | short]]] |].
  destruct (SSH_MAX_TOTAL <? n) eqn:Hbig; [eexists _, (Some _); split; [done | split; [done | eexists; split; [done | short]]] |].
  destruct (lsh_string_length (sr_buffer (tr_super self1)) <? n - 1 + mac_length (tr_mac self1)) eqn:Htot; [eexists _, (Some _); split; [done | split; [done | eexists; split; [done | short]]] |].
  rewrite !orb_false_iff, ?Z.ltb_ge, ?Z.leb_gt in *. destruct Hnl as [[Hn12 Hnb] Hmod].
  unfold c_true in Hmod. rewrite negb_false_iff, Z.eqb_eq in Hmod. unfold SSH_MAX_TOTAL in Hbig.
  rewrite u32_id in Hmod by (unfold is_u32; lia).
  eexists _, None. split; [done |].
  set (m := match tr_mac self1 with Some m => _ | None => None end).
  assert (mac_length m = mac_length (tr_mac self1)) as Hm by (unfold m; by destruct (tr_mac self1)).
  pose proof (mac_length_range (tr_mac self1)) as Hml.
  destruct (sr_consume_spec (tr_super self1) 5 Hwf1) as (Hwc & Hszc & Hlc & _); [lia |].
  unfold lsh_string_length in Htot. change (ls_length (sr_buffer (tr_super self1))) with (sr_size (tr_super self1)) in Htot.
  rewrite Hsz1, Hsize in Htot.
  assert (body_ok (mk_tread (sr_consume (tr_super self1) 5) m (tr_crypto self1) (tr_inflate self1) (tr_seqno self1) p
            (n - 1 + mac_length (tr_mac self1)) (tr_mac_buffer self1))) as Hbody.
  { split; simpl; rewrite ?Hm, ?Hblk; try lia.
    replace (_ - _) with ((n + 4) + (-1) * cipher_block (tr_crypto self)) by lia. by rewrite Z.mod_add by lia. }
  split_and!; cbn [tr_super tr_seqno tr_inflate]; try congruence; try lia.
  split; [split; simpl; try congruence; by rewrite ?Hs6, ?Hs7 | by rewrite Hs3 | by right].
Qed.

Lemma check_mac_safe self crypt_done crypt_left :
  tread_wf self → tr_total_length self <= sr_length (tr_super self) →
  mac_length (tr_mac self) <= tr_total_length self →
  ∃ m b good, check_mac self crypt_done crypt_left (mac_length (tr_mac self)) = Ok (with_mac self m b, good)
    ∧ mac_length m = mac_length (tr_mac self) ∧ lsh_string_wf b ∧ ls_length b = SSH_MAX_MAC_SIZE.
Proof.
  intros [Hwf Hsize Hmb Hmr Hstat] Hlen Hmac. unfold check_mac. destruct (tr_mac self) as [m |] eqn:Em.
  2: { exists None, (tr_mac_buffer self), true. split_and!; try done. unfold with_mac. rewrite <- Em. by destruct self. }
  cbn [mac_length] in *. set (m1 := if 0 <? crypt_left then _ else m).
  assert (mi_key m1 = mi_key m) as Hk by (unfold m1; by destruct (0 <? crypt_left)).
  pose proof (mac_size_ok (mi_key m)) as Hms.
  destruct (MAC_DIGEST_spec m1 (tr_mac_buffer self) 0) as (b & -> & Hwb & Hlb & _); [done | lia | rewrite Hk; lia |].
  rewrite bind_ok_l. unfold lsh_string_data. destruct (sr_here_split _ Hwf) as [junk ->].
  pose proof (lenZ_unread _ Hwf) as Hlu. pose proof (lenZ_nonneg junk).
  rewrite mem_equal_contents; [| done | lia |].
  - rewrite bind_ok_l. eexists _, b, _. split; [done |]. cbn [mac_length mi_key]. rewrite Hk. split_and!; congruence.
  - unfold lenZ in *. rewrite length_drop, length_app. lia.
Qed.

(** The payload is copied or inflated, if it fits. *)
Lemma deliver_packet_safe self n data output :
  0 <= n <= lenZ data → Forall is_byte data → lsh_string_wf output → 1 <= ls_length output →
  ends (deliver_packet self n data output)
    (λ '(z, output', n'), lsh_string_wf output' ∧ ls_length output' = ls_length output
       ∧ 0 <= n' <= ls_length output)
    (λ f, f = AssertFailed
       ∧ match tr_inflate self with Some _ => n = 0 | None => ls_length output < n end).
Proof.
  intros Hn Hb Hwf Hroom. unfold deliver_packet. destruct (tr_inflate self) as [i |].
  - rewrite (proj2 (Z.ltb_ge _ _)) by lia.
    assert (lenZ (slice 0 n data) = n) as Hls by (apply lenZ_slice; lia).
    destruct (Z.eq_dec n 0) as [-> | Hnz]; [by unfold CODEC; rewrite Hls |].
    destruct (CODEC_spec i output (slice 0 n data)) as (s' & -> & Hw & Hls' & _ & _ & Hlt);
      [done | lia | unfold slice; by apply Forall_take, Forall_drop | lia |].
    simpl. split_and!; try done; [apply lenZ_nonneg | lia].
  - destruct (Z.le_gt_cases n (ls_length output)) as [Hle | Hgt].
    + destruct (lsh_string_write_spec output 0 n data) as (s' & -> & Hw & Hls' & _);
        [done | lia.. | done |]. simpl. split_and!; try done; lia.
    + unfold lsh_string_write, ASSERT_ROOM. pass_assert. unfold c_assert.
      rewrite (proj2 (Z.leb_gt _ _)) by lia. simpl. split; [done | lia].
Qed.

(** What [transport_read_packet] may report, and what it leaves behind. *)
Definition packet_read (self : transport_read_state) (room : Z) (self' : transport_read_state)
  (output : lsh_string) (r : transport_ret) : Prop :=
  lsh_string_wf output ∧ ls_length output = room
  ∧ match r with
    | TrPacket q n => q = tr_seqno self ∧ 0 <= n <= room ∧ tread_inv self' ∧ tr_total_length self' = 0
    | TrStatus SSH_READ_PUSH | TrStatus SSH_READ_PENDING => tread_inv self'
    | TrStatus SSH_READ_EOF | TrIoError _ => True
    | TrProtocolError _ (Some msg) => message_ok msg
    | _ => False
    end.

(** The fault of the reader, and the header that is to blame. *)
Definition reader_fails (self : transport_read_state) (room : Z) (f : fault) : Prop :=
  f = AssertFailed ∧ ∃ self1, tread_inv self1 ∧ body_ok self1 ∧ unmanageable self1 room
    ∧ tr_seqno self1 = tr_seqno self ∧ tr_inflate self1 = tr_inflate self.

Lemma decode_packet_safe self output :
  tread_inv self → body_ok self → tr_total_length self <= sr_length (tr_super self) →
  lsh_string_wf output → 1 <= ls_length output →
  ends (decode_packet self output)
    (λ '(self', output', r), packet_read self (ls_length output) self' output' r
       ∧ sr_length (tr_super self') <= sr_length (tr_super self)
       ∧ (∀ q n, r = TrPacket q n → sr_length (tr_super self') < sr_length (tr_super self)))
    (reader_fails self (ls_length output)).
Proof.
  intros Hinv Hbo Hlen Hwo Hroom. pose proof Hinv as [Hwf Hseq _]. pose proof Hbo as [Hmin Hmod Hpad Hpay Hmax].
  pose proof (cipher_block_range (tr_crypto self)) as Hbs. unfold SSH_MAX_BLOCK_SIZE in Hbs.
  pose proof (mac_length_range (tr_mac self)) as Hml. unfold SSH_MAX_MAC_SIZE, SSH_MAX_TOTAL in *.
  unfold decode_packet. cbv zeta.
  rewrite (u32_id (tr_total_length self - (cipher_block (tr_crypto self) - 5 + _))) by (unfold is_u32; lia).
  set (rest := tr_total_length self - (cipher_block (tr_crypto self) - 5 + mac_length (tr_mac self))) in *.
  assert (∃ self1, (if 0 <? rest then crypt_input self rest (cipher_block (tr_crypto self) - 5) else Ok self) = Ok self1
    ∧ same_but_input self self1 ∧ tread_wf self1 ∧ sr_length (tr_super self1) = sr_length (tr_super self))
    as (self1 & -> & (Hs1 & Hs2 & Hs3 & Hs4 & Hs5 & Hs6 & Hs7) & Hwf1 & Hl1).
  { destruct (0 <? rest); [| exists self; by split_and!].
    destruct (crypt_input_spec self rest (cipher_block (tr_crypto self) - 5)) as (self1 & Hc & Hsame & Hw1 & Hsz & Hl & _);
      [apply Hwf | lia | lia | lia | done |].
    exists self1. split_and!; try done. destruct Hwf, Hsame as (_ & _ & _ & _ & _ & Hs6 & Hs7).
    split; [done | congruence | by rewrite Hs6 | by rewrite Hs6 | by rewrite Hs7]. }
  rewrite bind_ok_l. rewrite <- Hs1.
  destruct (check_mac_safe self1 (cipher_block (tr_crypto self) - 5) rest Hwf1) as (m & b & good & -> & Hm & Hwb & Hlb);
    [lia | rewrite Hs1; lia |].
  rewrite bind_ok_l. destruct good; cbn [negb ends].
  2: { split_and!; try done; try (simpl; lia); short. }
  cbn [with_mac tr_super tr_total_length tr_padding tr_seqno tr_crypto tr_mac tr_inflate tr_mac_buffer].
  rewrite Hs1, Hs4, Hs5. rewrite (u32_id (tr_total_length self - mac_length (tr_mac self) - tr_padding self)) by (unfold is_u32; lia).
  change (tr_total_length self - mac_length (tr_mac self) - tr_padding self) with (payload_length self).
  destruct (sr_here_split (tr_super self1)) as [junk Hj]; [apply Hwf1 |].
  assert (tr_total_length self <= lenZ (sr_here (tr_super self1))) as Hlh.
  { rewrite Hj, lenZ_app, lenZ_unread by apply Hwf1. pose proof (lenZ_nonneg junk). lia. }
  destruct (sr_consume_spec (tr_super self1) (tr_total_length self)) as (Hwc & Hszc & Hlc & _); [apply Hwf1 | lia |].
  eapply ends_bind; [eapply ends_weaken; [apply deliver_packet_safe | auto |]; try done |].
  - unfold payload_length. lia.
  - unfold sr_here. apply Forall_drop, Hwf1.
  - intros f [-> Hf]. split; [done |]. exists self. split_and!; try done. right.
    cbn [with_mac tr_inflate] in Hf. by rewrite Hs2 in Hf.
  - intros [[z out] n] (Hwo' & Hlo' & Hn). cbn [ends tr_super]. split_and!; [| lia | intros; lia].
    split_and!; [done | done | done | lia | lia | | done].
    destruct Hwf1. split; [split; cbn [tr_super tr_mac_buffer]; done || congruence | apply u32_range | by left].
Qed.

(** One read of the descriptor, for at most [limit] octets in the buffer. *)
Lemma read_some_safe self k limit :
  tread_inv self → sr_length (tr_super self) < limit < SSH_MAX_TOTAL →
  ∃ super k' r, ssh_read_some (tr_super self) k limit = Ok (super, k', r)
    ∧ tread_inv (with_super self super) ∧ accepted k' = accepted k
    ∧ (sr_status super = SSH_READ_PUSH ∨ sr_status super = SSH_READ_PENDING)
    ∧ sr_length super <= limit.
Proof.
  intros Hinv Hlim. pose proof (ti_wf _ Hinv) as [Hwf Hsize Hmb Hmr Hstat].
  destruct (ssh_read_some_spec (tr_super self) k limit Hwf)
    as (super & k' & r & d & Hrd & Hw & Hsz & Ha & _ & _ & _ & Hle & Hres); [lia | unfold SSH_MAX_TOTAL in *; lia |].
  assert (sr_status super = SSH_READ_PUSH ∨ sr_status super = SSH_READ_PENDING) as Hst.
  { destruct r; [destruct Hres as (_ & _ & ->) | destruct Hres as [_ ->] | apply Hres]; done. }
  exists super, k', r. split_and!; try done. apply with_super_inv; congruence || done.
Qed.

Lemma status_read self self' output st :
  lsh_string_wf output → tread_inv self' → st = SSH_READ_PUSH ∨ st = SSH_READ_PENDING →
  packet_read self (ls_length output) self' output (TrStatus st).
Proof. intros Hw Hi [-> | ->]; by split_and!. Qed.

(** The outcome of a call: nothing is written, without a descriptor nothing is
    read, and then every packet shortens the buffer. *)
Definition read_ends (self : transport_read_state) (fd : bool) (k : os) (room : Z)
  (c : result (transport_read_state * os * lsh_string * transport_ret)) : Prop :=
  ends c
    (λ '(self', k', output, r), packet_read self room self' output r ∧ accepted k' = accepted k
       ∧ sr_length (tr_super self') <= SSH_MAX_TOTAL
       ∧ (fd = false → k' = k
          ∧ ∀ q n, r = TrPacket q n → sr_length (tr_super self') < sr_length (tr_super self)))
    (reader_fails self room).

Lemma tread_room self : tread_wf self → 0 <= sr_length (tr_super self) <= SSH_MAX_TOTAL.
Proof. intros [[Hb Hs Hl Hr] Hsize _ _ _]. unfold sr_size in Hsize. lia. Qed.

Lemma read_body_safe self fd k output :
  tread_inv self → body_ok self → lsh_string_wf output → 1 <= ls_length output →
  read_ends self fd k (ls_length output) (read_body self fd k output).
Proof.
  intros Hinv Hbo Hwo Hroom. pose proof (tread_room self (ti_wf _ Hinv)) as Hlen.
  unfold read_body. destruct (Z.ltb_spec (sr_length (tr_super self)) (tr_total_length self)) as [Hlt | Hge].
  2: { unfold read_ends. eapply ends_bind; [by apply (decode_packet_safe self output) |].
       intros [[self' output'] r] (Hp & Hle & Hdec). simpl. split_and!; done || lia. }
  destruct fd; cbn [negb].
  2: { split_and!; [apply status_read; try done; apply Hinv | done | lia | done]. }
  pose proof (bo_max _ Hbo) as Hmax. unfold TRANSPORT_READ_AHEAD, SSH_MAX_TOTAL in *.
  rewrite u32_id by (unfold is_u32; lia).
  destruct (Z.le_gt_cases 35000 (tr_total_length self + 1000)) as [Hbig | Hfit].
  { unfold ssh_read_some, lsh_string_length.
    change (ls_length (sr_buffer (tr_super self))) with (sr_size (tr_super self)).
    rewrite (tw_size _ (ti_wf _ Hinv)). unfold SSH_MAX_TOTAL, c_assert.
    rewrite (proj2 (Z.ltb_ge (tr_total_length self + 1000) 35000)) by lia. split; [done |]. exists self. split_and!; try done. by left. }
  destruct (read_some_safe self k (tr_total_length self + 1000) Hinv)
    as (super & k' & res & -> & Hinv1 & Ha & Hst & Hle); [unfold SSH_MAX_TOTAL; lia |].
  rewrite bind_ok_l. cbn [tr_super tr_total_length with_super] in *.
  assert (body_ok (with_super self super)) as Hbo1 by (destruct Hbo; by split).
  assert (sr_length super <= SSH_MAX_TOTAL) by apply (tread_room _ (ti_wf _ Hinv1)).
  destruct res as [e | |].
  - destruct e; (split_and!; [by split_and! | done | done | done]).
  - split_and!; try done.
  - destruct (Z.ltb_spec (sr_length super) (tr_total_length self)).
    { split_and!; [by apply status_read | done | done | done]. }
    unfold read_ends. eapply ends_bind; [by apply (decode_packet_safe (with_super self super) output) |].
    intros [[self' output'] r] (Hp & Hle' & _). simpl in *. split_and!; done || lia.
Qed.

Lemma read_packet_tail_safe self fd k output :
  tread_inv self → cipher_block (tr_crypto self) <= sr_length (tr_super self) →
  lsh_string_wf output → 1 <= ls_length output →
  read_ends self fd k (ls_length output) (read_packet_tail self fd k output).
Proof.
  intros Hinv Hlen Hwo Hroom. pose proof Hinv as [Hwf Hseq Hbody]. unfold read_packet_tail. pass_assert.
  destruct (Z.eqb_spec (tr_total_length self) 0) as [Hz | Hnz].
  2: { destruct Hbody; [done | by apply read_body_safe]. }
  destruct (read_header_safe self Hwf Hseq Hlen) as (self1 & r & Hrh & Hr). rewrite Hrh, bind_ok_l.
  pose proof (tread_room self Hwf). destruct r as [r |].
  - destruct Hr as (Hl1 & msg & -> & Hmsg). split_and!; done || lia.
  - destruct Hr as (Hinv1 & Hbo1 & Hl1 & Hq1 & Hz1).
    pose proof (read_body_safe self1 fd k output Hinv1 Hbo1 Hwo Hroom) as Hb. unfold read_ends in *.
    eapply ends_weaken; [exact Hb | |].
    + intros [[[self' k'] o'] r] (Hp & Ha & Hl & Hnofd). split_and!; try done.
      * unfold packet_read in *. by rewrite Hq1 in Hp.
      * intros Hf. destruct (Hnofd Hf) as [-> Hdec]. split; [done |]. intros q n Hqn. specialize (Hdec q n Hqn). lia.
    + unfold reader_fails. by rewrite Hq1, Hz1.
Qed.

Lemma transport_read_packet_ends self fd k output :
  tread_inv self → lsh_string_wf output → 1 <= ls_length output →
  read_ends self fd k (ls_length output) (transport_read_packet self fd k output).
Proof.
  intros Hinv Hwo Hroom. unfold transport_read_packet. pose proof (tread_room self (ti_wf _ Hinv)).
  pose proof (cipher_block_range (tr_crypto self)). unfold SSH_MAX_BLOCK_SIZE in *.
  destruct (Z.ltb_spec (sr_length (tr_super self)) (cipher_block (tr_crypto self))).
  2: by apply read_packet_tail_safe.
  destruct fd; cbn [negb].
  2: { split_and!; [apply status_read; try done; apply Hinv | done | lia | done]. }
  destruct (read_some_safe self k TRANSPORT_READ_AHEAD Hinv)
    as (super & k' & res & -> & Hinv1 & Ha & Hst & Hle); [unfold TRANSPORT_READ_AHEAD, SSH_MAX_TOTAL; lia |].
  rewrite bind_ok_l. cbn [tr_super tr_total_length with_super] in *.
  assert (sr_length super <= SSH_MAX_TOTAL) by apply (tread_room _ (ti_wf _ Hinv1)).
  destruct res as [e | |].
  - destruct e; (split_and!; [by split_and! | done | done | done]).
  - case_bool; (split_and!; try done; try short).
  - destruct (Z.ltb_spec (sr_length super) (cipher_block (tr_crypto self))).
    { split_and!; [by apply status_read | done | done | done]. }
    pose proof (read_packet_tail_safe (with_super self super) false k' output Hinv1) as Ht.
    cbn [tr_super tr_crypto with_super] in Ht. specialize (Ht ltac:(lia) Hwo Hroom).
    unfold read_ends in *. eapply ends_weaken; [exact Ht | | done].
    intros [[[self' k2] o'] r] (Hp & Ha2 & Hl2 & Hno). split_and!; try done. congruence.
Qed.

(** ** Lines *)

Lemma find_newline_range data i j : find_newline data i = Some j → i <= j < i + lenZ data.
Proof.
  revert i. induction data as [| c data IH]; intros i; simpl; [done |]. rewrite lenZ_cons.
  pose proof (lenZ_nonneg data). case_bool; [intros [= <-]; lia |]. intros Hf. apply IH in Hf. lia.
Qed.

(** What [find_line] may report; an unfinished line is short. *)
Definition line_found (super super' : ssh_read_state) (r : transport_ret) : Prop :=
  match r with
  | TrLine line => read_wf super' ∧ sr_size super' = sr_size super ∧ sr_status super' = sr_status super
      ∧ lenZ line < SSH_MAX_LINE ∧ Forall is_byte line ∧ sr_length super' < sr_length super
  | TrStatus st => super' = super ∧ st = sr_status super ∧ sr_length super < SSH_MAX_LINE
  | TrProtocolError 0 (Some _) => super' = super
  | _ => False
  end.

Lemma find_line_safe super :
  read_wf super → ∃ super' r, find_line super = Ok (super', r) ∧ line_found super super' r.
Proof.
  intros Hwf. unfold find_line. destruct (sr_here_unread super (sr_length super) Hwf) as [Hle Hsl];
    [destruct Hwf; lia |].
  rewrite (proj2 (Z.ltb_ge _ _)) by lia. pose proof (lenZ_unread super Hwf) as Hlu.
  assert (slice 0 (sr_length super) (sr_here super) = unread super) as -> by (rewrite Hsl, <- Hlu; apply slice_all).
  destruct (find_newline (unread super) 0) as [i |] eqn:Hf.
  - apply find_newline_range in Hf. destruct (Z.leb_spec SSH_MAX_LINE i); [by eexists _, _ |].
    assert (∃ cr, (if 0 <? i then c ← rd (sr_here super) (i - 1); Ok (c =? 13) else Ok false) = Ok cr) as [cr ->].
    { destruct (Z.ltb_spec 0 i); [| by eexists]. destruct (rd_ok (sr_here super) (i - 1)) as [c ->]; [lia |]. by eexists. }
    rewrite bind_ok_l. eexists _, _. split; [done |].
    destruct (sr_consume_spec super (i + 1) Hwf) as (Hw & Hsz & Hl & _); [lia |].
    split_and!; try done; [| | lia]; unfold slice; rewrite drop_0.
    + unfold lenZ in *. rewrite length_take. destruct cr; simpl; lia.
    + apply Forall_take. by apply Forall_drop, wf_bytes, (rw_buffer _ Hwf).
  - destruct (Z.leb_spec SSH_MAX_LINE (sr_length super)); by eexists _, _.
Qed.

(** The outcome of [transport_read_line]; the one error without a message is
    the end of the stream within a line. *)
Definition line_read (self self' : transport_read_state) (fd : bool) (k k' : os) (r : transport_ret) : Prop :=
  accepted k' = accepted k ∧ sr_length (tr_super self') <= SSH_MAX_TOTAL
  ∧ (fd = false → k' = k ∧ ∀ line, r = TrLine line → sr_length (tr_super self') < sr_length (tr_super self))
  ∧ match r with
    | TrLine line => tread_inv self' ∧ tr_total_length self' = 0 ∧ lenZ line < SSH_MAX_LINE ∧ Forall is_byte line
    | TrStatus SSH_READ_PUSH | TrStatus SSH_READ_PENDING => tread_inv self' ∧ tr_total_length self' = 0
    | TrStatus SSH_READ_EOF | TrIoError _ => True
    | TrProtocolError 0 _ => True
    | _ => False
    end.

Lemma line_found_read self super super' r fd k k' :
  tread_inv (with_super self super) → tr_total_length self = 0 → accepted k' = accepted k →
  line_found super super' r → (fd = false → k' = k ∧ sr_length super = sr_length (tr_super self)) →
  line_read self (with_super self super') fd k k' r.
Proof.
  intros Hinv Ht Ha Hf Hfd. pose proof (tread_room _ (ti_wf _ Hinv)) as Hlen.
  pose proof (ti_wf _ Hinv) as [Hrw Hsize _ _ Hstat]. cbn [tr_super with_super] in *. unfold line_read.
  destruct r as [st | | e [msg |] | line |]; try done; simpl in Hf.
  - destruct Hf as (-> & -> & Hl). split_and!; [done | apply Hlen | | by destruct Hstat as [-> | ->]].
    intros Hn. by destruct (Hfd Hn).
  - destruct e; try done. subst super'. split_and!; [done | apply Hlen | | done]. intros Hn. by destruct (Hfd Hn).
  - by destruct e.
  - destruct Hf as (Hw & Hsz & Hst & Hl & Hby & Hdec). split_and!; [done | simpl; lia | | | done | done | done].
    + intros Hn. destruct (Hfd Hn). split; [done |]. intros l _. simpl. lia.
    + change (with_super self super') with (with_super (with_super self super) super').
      apply with_super_inv; [done | done | congruence | by rewrite Hst].
Qed.

(** Before the descriptor is read: a line from the buffer, or a short rest. *)
Lemma buffered_line self :
  tread_inv self → tr_total_length self = 0 →
  ∃ super settled,
    (if sr_length (tr_super self) =? 0 then
       Ok (mk_read (sr_buffer (tr_super self)) 0 (sr_length (tr_super self)) (sr_status (tr_super self)), None)
     else
       '(super, r) ← find_line (tr_super self);
       Ok (super, if line_settled r then Some r else None)) = Ok (super, settled)
    ∧ match settled with
      | Some r => line_found (tr_super self) super r
      | None => tread_inv (with_super self super) ∧ sr_length super = sr_length (tr_super self)
          ∧ sr_length super < SSH_MAX_LINE
      end.
Proof.
  intros Hinv Ht. pose proof (ti_wf _ Hinv) as [[Hb Hs Hl Hr] Hsize Hmb Hmr Hstat].
  destruct (Z.eqb_spec (sr_length (tr_super self)) 0) as [Hz | Hnz].
  - eexists _, None. split; [done |]. split_and!; [| done | simpl; unfold SSH_MAX_LINE; lia].
    apply with_super_inv; try done. split; simpl; try done; lia.
  - destruct (find_line_safe (tr_super self)) as (super & r & -> & Hf); [by split |]. rewrite bind_ok_l.
    eexists super, _. split; [done |]. destruct (line_settled r) eqn:Hset; [done |].
    destruct r as [st | | | |]; try done. destruct Hf as (-> & -> & Hlt). split_and!; try done.
    destruct self; exact Hinv.
Qed.

Lemma transport_read_line_ends self fd k :
  tread_inv self → tr_total_length self = 0 →
  ∃ self' k' r, transport_read_line self fd k = Ok (self', k', r) ∧ line_read self self' fd k k' r.
Proof.
  intros Hinv Ht. unfold transport_read_line.
  destruct (buffered_line self Hinv Ht) as (super & settled & -> & Hset). rewrite bind_ok_l. destruct settled as [r |].
  { eexists _, _, _. split; [done |]. apply (line_found_read self (tr_super self)); try done. by destruct self. }
  destruct Hset as (Hinv1 & Hl1 & Hshort). pose proof (tread_room _ (ti_wf _ Hinv1)) as Hlen1.
  cbn [tr_super with_super] in Hlen1. destruct fd; cbn [negb].
  2: { eexists _, _, _. split; [done |]. by apply (line_found_read self super super). }
  destruct (read_some_safe (with_super self super) k TRANSPORT_READ_AHEAD Hinv1)
    as (super2 & k2 & res & Hrd & Hinv2 & Ha & Hst & Hle);
    [cbn [tr_super with_super]; unfold TRANSPORT_READ_AHEAD, SSH_MAX_TOTAL, SSH_MAX_LINE in *; lia |].
  cbn [tr_super with_super] in Hrd. rewrite Hrd, bind_ok_l.
  change (with_super (with_super self super) super2) with (with_super self super2) in Hinv2.
  destruct (tread_room _ (ti_wf _ Hinv2)) as [_ Hlen2]. cbn [tr_super with_super] in Hlen2.
  destruct res as [e | |].
  - destruct e; (eexists _, _, _; split; [done |]; by split_and!).
  - case_bool; (eexists _, _, _; split; [done |]; by split_and!).
  - destruct (find_line_safe super2) as (super3 & r & -> & Hf); [apply (ti_wf _ Hinv2) |].
    rewrite bind_ok_l. eexists _, _, _. split; [done |]. by apply (line_found_read self super2).
Qed.


(** C39: without MAC and compression, as before the first key exchange, a
    complete packet whose payload is longer than the output string fails an
    assertion, although the checks on its length accept it. *)
Theorem transport_read_large_payload_fails self fd k output :
  tread_inv self → body_ok self → tr_mac self = None → tr_inflate self = None →
  tr_total_length self <= sr_length (tr_super self) →
  cipher_block (tr_crypto self) <= sr_length (tr_super self) →
  lsh_string_wf output → ls_length output < payload_length self →
  transport_read_packet self fd k output = Fault AssertFailed.
Proof.
  intros Hinv Hbo Hm Hz Hlen Hblk Hwo Hbig. pose proof Hinv as [Hwf Hseq _]. pose proof Hbo as [Hmin Hmod Hpad Hpay Hmax].
  pose proof (cipher_block_range (tr_crypto self)) as Hbs. unfold SSH_MAX_BLOCK_SIZE, SSH_MAX_TOTAL in *.
  unfold payload_length in Hbig. rewrite Hm in *. cbn [mac_length] in *.
  unfold transport_read_packet, read_packet_tail, read_body. rewrite (proj2 (Z.ltb_ge _ _)) by lia. pass_assert.
  rewrite (proj2 (Z.eqb_neq _ _)) by lia. rewrite (proj2 (Z.ltb_ge _ _)) by lia.
  unfold decode_packet. rewrite Hm. cbn [mac_length]. cbv zeta.
  rewrite (u32_id (tr_total_length self - (cipher_block (tr_crypto self) - 5 + _))) by (unfold is_u32; lia).
  set (rest := tr_total_length self - (cipher_block (tr_crypto self) - 5 + 0)) in *.
  assert (∃ self1, (if 0 <? rest then crypt_input self rest (cipher_block (tr_crypto self) - 5) else Ok self) = Ok self1
    ∧ same_but_input self self1) as (self1 & -> & (Hs1 & Hs2 & Hs3 & Hs4 & Hs5 & _)).
  { destruct (0 <? rest); [| exists self; by split_and!].
    destruct (crypt_input_spec self rest (cipher_block (tr_crypto self) - 5)) as (self1 & Hc & Hsame & _);
      [apply Hwf | lia | lia | lia | done |]. by exists self1. }
  rewrite bind_ok_l. unfold check_mac. rewrite Hs1, Hm, bind_ok_l. cbn [negb].
  unfold deliver_packet. rewrite Hs2, Hz, Hs4, Hs5. rewrite (u32_id (tr_total_length self - 0 - tr_padding self)) by (unfold is_u32; lia).
  unfold lsh_string_write, ASSERT_ROOM. destruct (wf_length _ Hwo) as [Hl0 _]. pass_assert. unfold c_assert.
  by rewrite (proj2 (Z.leb_gt (tr_total_length self - 0 - tr_padding self) _)) by lia.
Qed.

End proofs.

(** ** Instances *)


(** 32999 octets of payload, 4 of padding: less than [SSH_MAX_TOTAL]. *)
Definition large_packet_reader : transport_read_state :=
  mk_tread (mk_read (lsh_string_alloc SSH_MAX_TOTAL) 0 33003 SSH_READ_PUSH) None None None 0 4 33003
    (lsh_string_alloc SSH_MAX_MAC_SIZE).

Lemma transport_read_large_payload_fails_witness :
  transport_read_packet large_packet_reader true (scripted []) (lsh_string_alloc (SSH_MAX_PACKET + 1))
  = Fault AssertFailed.
Proof.
  assert (lsh_string_wf (lsh_string_alloc SSH_MAX_TOTAL)) as Hb
    by (apply lsh_string_alloc_wf; unfold is_u32, SSH_MAX_TOTAL; lia).
  assert (body_ok large_packet_reader) as Hbo by (split; cbn; unfold SSH_MAX_TOTAL; reflexivity || lia).
  apply transport_read_large_payload_fails.
  - split; [| simpl; unfold is_u32; lia | right; exact Hbo].
    split; [| reflexivity | apply lsh_string_alloc_wf; unfold is_u32, SSH_MAX_MAC_SIZE; lia | reflexivity | left; reflexivity].
    split; [exact Hb | cbn; lia | cbn; lia | cbn; unfold SSH_MAX_TOTAL; lia].
  - exact Hbo.
  - reflexivity.
  - reflexivity.
  - cbn. lia.
  - cbn. lia.
  - apply lsh_string_alloc_wf. unfold is_u32, SSH_MAX_PACKET. lia.
  - unfold payload_length, SSH_MAX_PACKET. cbn. lia.
Defined.
