(* ===== verification/TransportWrite.v ===== *)
(** * Outgoing packets ([src/src/transport_write.c])

    Encrypted packets go through the write buffer.  Small amounts of data are
    held back until a push; a push may be followed by a random
    [SSH_MSG_IGNORE] packet, of which only as much is sent as gives a write of
    a round size. *)

From S2P Require Import Prelude Ssh Nettle Atoms LshString Format FormatSpec Sys SshWrite Crypto Encrypt.
Local Open Scope Z_scope.

Definition TRANSPORT_PADDING_SIZE := 10.
Definition TRANSPORT_THRESHOLD := 500.
Definition TRANSPORT_BUFFER_SIZE := 10 * SSH_MAX_TOTAL.

Inductive transport_write_status : Set :=
  | TRANSPORT_WRITE_IO_ERROR (e : errno)
  | TRANSPORT_WRITE_OVERFLOW
  | TRANSPORT_WRITE_COMPLETE
  | TRANSPORT_WRITE_PENDING.

#[global] Instance transport_write_status_eq_dec : EqDecision transport_write_status.
Proof. solve_decision. Defined.

(** [status < 0] *)
Definition write_failed (st : transport_write_status) : bool :=
  match st with
  | TRANSPORT_WRITE_IO_ERROR _ | TRANSPORT_WRITE_OVERFLOW => true
  | _ => false
  end.

(** The bits of [enum transport_write_flag]. *)
Record write_flags := mk_wflags { f_push : bool; f_ignore : bool }.

(** ** Choosing how much to write *)

(** [while ((length & (mask << 1)) >= no_ignore) mask <<= 1;] *)
Fixpoint widen_mask (fuel : nat) (length no_ignore mask : Z) : result Z :=
  match fuel with
  | O => Fault NonTermination
  | S fuel =>
      let next := u32 (Z.shiftl mask 1) in
      if no_ignore <=? Z.land length next then widen_mask fuel length no_ignore next
      else Ok mask
  end.

(** After 32 shifts the mask is zero, so 33 tests decide the loop. *)
Definition select_write_size (length ignore threshold : Z) : result Z :=
  if u32 (8 * threshold) <=? length then Ok (u32 (8 * threshold))
  else if threshold <=? length then Ok threshold
  else if c_true ignore then
    mask ← widen_mask 33 length (u32 (length - ignore)) UINT32_MAX;
    Ok (Z.land length mask)
  else Ok length.

Section model.
Context `{Malloc} `{NettleMacros} `{NettleBignum} `{AtomTable} `{OS} `{Crypto}.

Record transport_write_state := mk_twrite {
  tw_out : ssh_write_state;
  tw_threshold : Z;
  tw_ignore : Z;
  tw_keys : keys;
  tw_seqno : Z;
}.

Definition make_transport_write_state (g : rng) : transport_write_state :=
  mk_twrite (init_ssh_write_state TRANSPORT_BUFFER_SIZE) TRANSPORT_THRESHOLD 0 (mk_keys None None None g) 0.

Definition set_out (self : transport_write_state) (out : ssh_write_state) (ignore : Z) : transport_write_state :=
  mk_twrite out (tw_threshold self) ignore (tw_keys self) (tw_seqno self).

Definition update_status (self : transport_write_state) (done : errno + Z)
  : transport_write_state * transport_write_status :=
  match done with
  | inr _ =>
      if tw_ignore self <? sw_length (tw_out self) then (self, TRANSPORT_WRITE_PENDING)
      else
        (if sw_length (tw_out self) <? tw_ignore self
         then set_out self (tw_out self) (sw_length (tw_out self)) else self,
         TRANSPORT_WRITE_COMPLETE)
  | inl EWOULDBLOCK => (self, TRANSPORT_WRITE_PENDING)
  | inl EOVERFLOW => (self, TRANSPORT_WRITE_OVERFLOW)
  | inl e => (self, TRANSPORT_WRITE_IO_ERROR e)
  end.

(** [fd >= 0] is the callers' business. *)
Definition write_data (self : transport_write_state) (k : os) (flags : write_flags) (length : Z) (data : list Z)
  : result (transport_write_state * os * transport_write_status) :=
  let ignore := if f_ignore flags then u32 (tw_ignore self + length) else 0 in
  let self := set_out self (tw_out self) ignore in
  let enqueue :=
    '(out, ok) ← ssh_write_enqueue (tw_out self) length data;
    Ok (set_out self out ignore, k,
        if (ok : bool) then TRANSPORT_WRITE_COMPLETE else TRANSPORT_WRITE_OVERFLOW) in
  if negb (f_push flags) && (u32 (length + sw_length (tw_out self)) <? tw_threshold self) then enqueue
  else
    to_write ← select_write_size (u32 (sw_length (tw_out self) + length)) ignore (tw_threshold self);
    if negb (c_true to_write) then enqueue
    else
      '(out, k, done) ← ssh_write_data (tw_out self) k to_write length data;
      let '(self, st) := update_status (set_out self out ignore) done in
      Ok (self, k, st).

Definition write_flush (self : transport_write_state) (k : os)
  : result (transport_write_state * os * transport_write_status) :=
  if sw_length (tw_out self) <=? tw_ignore self then Ok (self, k, TRANSPORT_WRITE_COMPLETE)
  else
    to_write ← select_write_size (sw_length (tw_out self)) (tw_ignore self) (tw_threshold self);
    _ ← c_assert (0 <? to_write);
    '(out, k, done) ← ssh_write_flush (tw_out self) k to_write;
    let '(self, st) := update_status (set_out self out (tw_ignore self)) done in
    Ok (self, k, st).

(** [encrypt_packet (packet, ..., self->seqno++)] *)
Definition seal (self : transport_write_state) (packet : lsh_string)
  : result (transport_write_state * lsh_string) :=
  '(ks, packet) ← encrypt_packet packet (tw_keys self) (tw_seqno self);
  Ok (mk_twrite (tw_out self) (tw_threshold self) (tw_ignore self) ks (u32 (tw_seqno self + 1)), packet).

Definition make_ignore_packet (self : transport_write_state) (length : Z)
  : result (transport_write_state * lsh_string) :=
  '(packet, holes) ← ssh_format "%c%r" [FInt SSH_MSG_IGNORE; FInt length; FPtr true];
  pad_start ← rd holes 0;
  '(g, packet) ← lsh_string_write_random (k_rng (tw_keys self)) packet pad_start length;
  let ks := tw_keys self in
  seal (mk_twrite (tw_out self) (tw_threshold self) (tw_ignore self)
          (mk_keys (k_compress ks) (k_crypt ks) (k_mac ks) g) (tw_seqno self)) packet.

Definition has_crypto (self : transport_write_state) : bool :=
  match k_crypt (tw_keys self) with Some _ => true | None => false end.

(** [write_data (self, fd, flags, STRING_LD (packet))]: the pointer stands for
    the octets of the string. *)
Definition write_string (self : transport_write_state) (k : os) (flags : write_flags) (packet : lsh_string)
  : result (transport_write_state * os * transport_write_status) :=
  write_data self k flags (lsh_string_length packet) (contents packet).

Definition transport_write_packet (self : transport_write_state) (k : os) (flags : write_flags)
  (packet : lsh_string) : result (transport_write_state * os * transport_write_status) :=
  _ ← c_assert (0 <? lsh_string_length packet);
  msg ← ls_byte packet 0;
  let flags := if msg =? SSH_MSG_IGNORE then mk_wflags (f_push flags) true else flags in
  '(self, packet) ← seal self packet;
  let length := lsh_string_length packet in
  if f_push flags && negb (f_ignore flags) && has_crypto self
     && (u32 (length + sw_length (tw_out self)) <? tw_threshold self)
  then
    '(self, k, status) ← write_string self k (mk_wflags false false) packet;
    if write_failed status then Ok (self, k, status)
    else
      '(self, packet) ← make_ignore_packet self TRANSPORT_PADDING_SIZE;
      write_string self k (mk_wflags (f_push flags) true) packet
  else write_string self k flags packet.

Definition transport_write_line (self : transport_write_state) (k : os) (line : lsh_string)
  : result (transport_write_state * os * transport_write_status) :=
  write_string self k (mk_wflags true false) line.

Definition transport_write_flush (self : transport_write_state) (k : os)
  : result (transport_write_state * os * transport_write_status) :=
  if (tw_ignore self =? 0) && has_crypto self && (sw_length (tw_out self) <? tw_threshold self) then
    '(self, packet) ← make_ignore_packet self TRANSPORT_PADDING_SIZE;
    '(self, k, status) ← write_string self k (mk_wflags false true) packet;
    if write_failed status then Ok (self, k, status) else write_flush self k
  else write_flush self k.

Definition transport_write_new_keys (self : transport_write_state) (mac : option mac_instance)
  (crypto : option crypto_instance) (deflate : option compress_instance) : transport_write_state :=
  mk_twrite (tw_out self) (tw_threshold self) (tw_ignore self)
    (mk_keys deflate crypto mac (k_rng (tw_keys self))) (tw_seqno self).

End model.

(** ** The loop of [select_write_size] *)

Definition mask_of (j : Z) : Z := u32 (Z.shiftl UINT32_MAX j).

Lemma mask_of_step j : 0 <= j → u32 (Z.shiftl (mask_of j) 1) = mask_of (j + 1).
Proof.
  intros Hj. unfold mask_of, u32. rewrite !Z.shiftl_mul_pow2 by lia.
  rewrite Z.mul_mod_idemp_l by lia. rewrite <- Z.mul_assoc, <- Z.pow_add_r by lia. done.
Qed.

Lemma mask_of_0 : mask_of 0 = UINT32_MAX.
Proof. done. Qed.

Lemma mask_of_32 : mask_of 32 = 0.
Proof. done. Qed.

(** Masks only clear bits. *)
Lemma land_le length mask : 0 <= length → 0 <= mask → 0 <= Z.land length mask <= length.
Proof.
  intros Hl Hm. split; [apply Z.land_nonneg; by left |].
  assert (Z.land length mask + Z.land length (Z.lnot mask) = length) as Hsum.
  { rewrite Z.add_nocarry_lxor, Z.lxor_lor.
    - rewrite <- Z.land_lor_distr_r, Z.lor_lnot_diag, Z.land_m1_r. done.
    - apply Z.bits_inj'. intros i Hi. rewrite !Z.land_spec, Z.lnot_spec, Z.bits_0 by done.
      by destruct (Z.testbit length i), (Z.testbit mask i).
    - apply Z.bits_inj'. intros i Hi. rewrite !Z.land_spec, Z.lnot_spec, Z.bits_0 by done.
      by destruct (Z.testbit length i), (Z.testbit mask i). }
  assert (0 <= Z.land length (Z.lnot mask)) by (apply Z.land_nonneg; by left). lia.
Qed.

Lemma widen_mask_spec fuel length no_ignore j :
  0 < no_ignore → 0 <= length → 0 <= j <= 32 → (Z.to_nat (32 - j) < fuel)%nat →
  no_ignore <= Z.land length (mask_of j) →
  ∃ mask, widen_mask fuel length no_ignore (mask_of j) = Ok mask ∧ 0 <= mask
    ∧ no_ignore <= Z.land length mask ∧ Z.land length (u32 (Z.shiftl mask 1)) < no_ignore.
Proof.
  intros Hn Hl. revert j. induction fuel as [| fuel IH]; intros j Hj Hf Hinv; [lia |].
  cbn [widen_mask]. rewrite mask_of_step by lia.
  destruct (Z.eq_dec j 32) as [-> |]; [rewrite mask_of_32, Z.land_0_r in Hinv; lia |].
  destruct (Z.leb_spec no_ignore (Z.land length (mask_of (j + 1)))) as [Hle | Hgt].
  - apply IH; [lia | lia | done].
  - exists (mask_of j). split; [done |]. split; [apply u32_range |]. split; [done |].
    by rewrite mask_of_step by lia.
Qed.

Lemma land_max length : is_u32 length → Z.land length UINT32_MAX = length.
Proof.
  intros [H0 H1]. change UINT32_MAX with (Z.ones 32). rewrite Z.land_ones by lia. by apply Z.mod_small.
Qed.

Lemma select_write_size_spec length ignore threshold :
  is_u32 length → 0 <= ignore < length → 0 < threshold < 2 ^ 28 →
  ∃ r, select_write_size length ignore threshold = Ok r ∧ 0 < r <= length
    ∧ (length < threshold → length - ignore <= r) ∧ r <= 8 * threshold.
Proof.
  intros Hl Hi Ht. unfold is_u32 in Hl. unfold select_write_size.
  rewrite u32_id by (unfold is_u32; lia).
  destruct (Z.leb_spec (8 * threshold) length); [eexists; split_and!; [done | lia..] |].
  destruct (Z.leb_spec threshold length); [eexists; split_and!; [done | lia..] |].
  unfold c_true. destruct (Z.eqb_spec ignore 0) as [-> | Hne]; cbn [negb]; [eexists; split_and!; [done | lia..] |].
  rewrite u32_id by (unfold is_u32; lia).
  destruct (widen_mask_spec 33 length (length - ignore) 0) as (mask & Hw & Hm & Hlo & Hhi);
    [lia | lia | lia | lia | rewrite mask_of_0, land_max by (unfold is_u32; lia); lia |].
  rewrite mask_of_0 in Hw. rewrite Hw. simpl. pose proof (land_le length mask). eexists.
  split_and!; [done | lia..].
Qed.

(** With nothing but padding in the buffer the loop does not end. *)
Lemma widen_mask_diverges fuel length mask : widen_mask fuel length 0 mask = Fault NonTermination.
Proof.
  revert mask. induction fuel as [| fuel IH]; intros mask; cbn [widen_mask]; [done |].
  destruct (Z.leb_spec 0 (Z.land length (u32 (Z.shiftl mask 1)))) as [_ | Hlt]; [apply IH |].
  assert (0 <= Z.land length (u32 (Z.shiftl mask 1))); [| lia].
  apply Z.land_nonneg. right. apply u32_range.
Qed.

Lemma select_write_size_large length ignore threshold :
  is_u32 length → 0 < threshold < 2 ^ 28 → threshold <= length →
  ∃ r, select_write_size length ignore threshold = Ok r ∧ 0 < r <= length.
Proof.
  intros Hl Ht Hle. unfold is_u32 in Hl. unfold select_write_size. rewrite u32_id by (unfold is_u32; lia).
  destruct (Z.leb_spec (8 * threshold) length); [eexists; split_and!; [done | lia..] |].
  rewrite (proj2 (Z.leb_le _ _)) by lia. eexists; split_and!; [done | lia..].
Qed.

(** ** The writer's invariant, and the stream it produces *)

Section proofs.
Context `{MallocOk} `{NettleMacrosOk} `{NettleBignumOk} `{AtomTableOk} `{OSOk} `{CryptoOk}.

(** A deflater that some inflater is in step with. *)
Definition deflate_ok (z : option compress_instance) : Prop :=
  match z with Some d => ∃ i, compress_sync d i | None => True end.

Lemma packed_ok z payload :
  deflate_ok z → Forall is_byte payload → 0 < lenZ payload <= SSH_MAX_PACKET →
  packed z payload ≠ [] ∧ Forall is_byte (packed z payload) ∧ lenZ (packed z payload) <= SSH_MAX_TOTAL
  ∧ deflate_ok (next_compress z payload).
Proof.
  unfold SSH_MAX_PACKET. intros Hz Hb Hl. destruct z as [d |]; cbn [packed next_compress].
  2: { split_and!; [intros ->; change (lenZ []) with 0 in Hl; lia | done | unfold SSH_MAX_TOTAL; lia | done]. }
  destruct Hz as [i Hs]. pose proof (Z.div_le_upper_bound (lenZ payload) 16 2048).
  assert (snd (codec d (SSH_MAX_TOTAL - 1) payload) ≠ []) as Hne
    by (apply (deflate_fits d i); done || (unfold SSH_MAX_TOTAL; lia)).
  destruct (codec_ok d (SSH_MAX_TOTAL - 1) payload) as [Hbo Hlo]; [done | unfold SSH_MAX_TOTAL; lia |].
  split_and!; [done | done | unfold SSH_MAX_TOTAL in *; lia |].
  destruct (compress_sync_ok d i (SSH_MAX_TOTAL - 1) (lenZ payload) payload) as [_ Hs']; [done.. |].
  by eexists.
Qed.

Record twrite_wf (self : transport_write_state) : Prop := {
  tww_out : write_wf (tw_out self);
  tww_size : sw_size (tw_out self) = TRANSPORT_BUFFER_SIZE;
  tww_threshold : tw_threshold self = TRANSPORT_THRESHOLD;
  tww_ignore : 0 <= tw_ignore self <= sw_length (tw_out self);
  tww_seqno : is_u32 (tw_seqno self);
  tww_mac : mac_fresh (k_mac (tw_keys self));
  tww_deflate : deflate_ok (k_compress (tw_keys self));
}.

(** Everything sent so far, whether taken by the descriptor or not. *)
Definition stream (self : transport_write_state) (k : os) : list Z := accepted k ++ buffered (tw_out self).

(** Only the buffer and the amount of padding differ. *)
Definition same_session (self self' : transport_write_state) : Prop :=
  tw_keys self' = tw_keys self ∧ tw_seqno self' = tw_seqno self ∧ tw_threshold self' = tw_threshold self.

(** Data was handed to the writer, as padding or not ([ignore]).  Only an
    overflow loses octets, and only when the buffer is too small. *)
Definition write_done (self : transport_write_state) (k : os) (data : list Z) (ignore : bool)
  (c : result (transport_write_state * os * transport_write_status)) : Prop :=
  ∃ self' k' st, c = Ok (self', k', st) ∧ same_session self self'
    ∧ (st ≠ TRANSPORT_WRITE_OVERFLOW → twrite_wf self' ∧ stream self' k' = stream self k ++ data)
    ∧ (ignore = false → twrite_wf self')
    ∧ (sw_length (tw_out self) + lenZ data <= TRANSPORT_BUFFER_SIZE → st ≠ TRANSPORT_WRITE_OVERFLOW)
    ∧ delivered k' = delivered k.

Lemma make_transport_write_state_wf g :
  twrite_wf (make_transport_write_state g) ∧ buffered (tw_out (make_transport_write_state g)) = [].
Proof.
  destruct (init_ssh_write_state_wf TRANSPORT_BUFFER_SIZE) as [Hw Hb];
    [unfold is_u32, TRANSPORT_BUFFER_SIZE, SSH_MAX_TOTAL; lia |].
  split; [| exact Hb]. split; simpl; try done; unfold is_u32; lia.
Qed.

(** The buffer changed, every octet was kept. *)
Lemma kept self k data ign out k' ignore st :
  twrite_wf self → write_wf out → sw_size out = sw_size (tw_out self) →
  accepted k' ++ buffered out = accepted k ++ buffered (tw_out self) ++ data →
  delivered k' = delivered k → 0 <= ignore <= sw_length out → st ≠ TRANSPORT_WRITE_OVERFLOW →
  write_done self k data ign (Ok (set_out self out ignore, k', st)).
Proof.
  intros [Hwo Hso Hth _ Hq Hm Hz] Hw Hsz Hst Hdl Hi Hno.
  assert (twrite_wf (set_out self out ignore)) by (split; simpl; done || congruence).
  eexists _, k', st. split_and!; try done.
  intros _. split; [done |]. unfold stream. simpl. by rewrite Hst, app_assoc.
Qed.

(** Octets were lost. *)
Lemma dropped self k data ign out k' ignore :
  twrite_wf self → write_wf out → sw_size out = sw_size (tw_out self) → delivered k' = delivered k →
  (ign = false → ignore = 0) → sw_size (tw_out self) < sw_length (tw_out self) + lenZ data →
  write_done self k data ign (Ok (set_out self out ignore, k', TRANSPORT_WRITE_OVERFLOW)).
Proof.
  intros [Hwo Hso Hth _ Hq Hm Hz] Hw Hsz Hdl Hi Hlt. eexists _, k', _. split_and!; try done.
  - intros Hg. specialize (Hi Hg). pose proof (ww_length _ Hw). split; simpl; done || congruence || lia.
  - lia.
Qed.

(** After [ssh_write_data] or [ssh_write_flush]. *)
Lemma update_status_spec self k k' data ign out ignore done lost :
  twrite_wf self → write_outcome (tw_out self) k data out k' done lost →
  0 <= ignore <= sw_length (tw_out self) + lenZ data → (ign = false → lost ≠ [] → ignore = 0) →
  write_done self k data ign
    (let '(s, st) := update_status (set_out self out ignore) done in Ok (s, k', st)).
Proof.
  intros Hwf [Hw Hsz Hdl Hst Hlost _ Hov Herr] Hign Hg. pose proof (ww_length _ Hw) as Hl0.
  destruct (decide (lost = [])) as [-> | Hne].
  2: { destruct (Hlost Hne) as [-> Hlt]. simpl. apply dropped; auto. }
  specialize (Herr eq_refl). rewrite app_nil_r in Hst.
  destruct done as [e | n].
  - assert (sw_length out = sw_length (tw_out self) + lenZ data) as Hl.
    { rewrite Herr in Hst. apply app_inv_head in Hst. apply (f_equal lenZ) in Hst.
      rewrite lenZ_app, !lenZ_buffered in Hst by (done || apply Hwf). done. }
    destruct e; simpl; try (apply kept; done || lia). by destruct Hov.
  - simpl. destruct (Z.ltb_spec ignore (sw_length out)); [apply kept; done || lia |].
    destruct (Z.ltb_spec (sw_length out) ignore);
      [apply (kept self k data ign out k' (sw_length out)) | apply kept]; done || lia.
Qed.

Lemma enqueue_done self k data ign ignore :
  twrite_wf self → Forall is_byte data → lenZ data < 2 ^ 20 →
  0 <= ignore <= sw_length (tw_out self) + lenZ data → (ign = false → ignore = 0) →
  write_done self k data ign
    ('(out, ok) ← ssh_write_enqueue (tw_out self) (lenZ data) data;
     Ok (set_out self out ignore, k,
         if (ok : bool) then TRANSPORT_WRITE_COMPLETE else TRANSPORT_WRITE_OVERFLOW)).
Proof.
  intros Hwf Hb Hl Hign Hg. pose proof (tww_out _ Hwf) as Hwo. pose proof (tww_size _ Hwf) as Hso.
  pose proof (lenZ_nonneg data).
  destruct (ssh_write_enqueue_spec (tw_out self) (lenZ data) data) as (out & ok & -> & Hw & Hsz & Hok & Hbuf & _);
    [done | lia | done | rewrite Hso; unfold TRANSPORT_BUFFER_SIZE, SSH_MAX_TOTAL; lia |].
  simpl. destruct ok; symmetry in Hok.
  - rewrite slice_all in Hbuf.
    assert (sw_length out = sw_length (tw_out self) + lenZ data) as Hlen
      by (rewrite <- !lenZ_buffered by done; by rewrite Hbuf, lenZ_app).
    apply kept; try done; [by rewrite Hbuf | lia].
  - apply bool_decide_eq_false in Hok. apply dropped; done || lia.
Qed.

Lemma write_data_spec self k flags data :
  twrite_wf self → Forall is_byte data → 0 < lenZ data < 2 ^ 20 →
  (f_ignore flags = true → f_push flags = true → tw_ignore self < sw_length (tw_out self)) →
  write_done self k data (f_ignore flags) (write_data self k flags (lenZ data) data).
Proof.
  intros Hwf Hb Hl Hfl. pose proof Hwf as [Hwo Hso Hth Hig _ _ _]. unfold write_data.
  set (ignore := if f_ignore flags then u32 (tw_ignore self + lenZ data) else 0).
  assert (sw_length (tw_out self) <= TRANSPORT_BUFFER_SIZE) as Hlen
    by (rewrite <- Hso; destruct Hwo; unfold sw_size; lia).
  unfold TRANSPORT_BUFFER_SIZE, SSH_MAX_TOTAL, TRANSPORT_THRESHOLD in *.
  assert (0 <= ignore <= sw_length (tw_out self) + lenZ data) as Hign.
  { unfold ignore. destruct (f_ignore flags); [rewrite u32_id by (unfold is_u32; lia); lia | lia]. }
  assert (f_ignore flags = false → ignore = 0) as Hg by (unfold ignore; by intros ->).
  cbn [set_out tw_out tw_threshold]. rewrite Hth.
  rewrite !u32_id by (unfold is_u32; lia).
  destruct (negb (f_push flags) && (lenZ data + sw_length (tw_out self) <? 500)) eqn:Hsmall;
    [by apply (enqueue_done self k data (f_ignore flags) ignore); done || lia |].
  assert (∃ r, select_write_size (sw_length (tw_out self) + lenZ data) ignore 500 = Ok r
    ∧ 0 < r <= sw_length (tw_out self) + lenZ data) as (r & -> & Hr).
  { destruct (f_push flags) eqn:Hp; simpl in Hsmall.
    - destruct (select_write_size_spec (sw_length (tw_out self) + lenZ data) ignore 500) as (r & Hs & Hr & _);
        [unfold is_u32; lia | | lia | by exists r].
      unfold ignore in *. destruct (f_ignore flags); [| lia]. specialize (Hfl eq_refl eq_refl).
      rewrite u32_id by (unfold is_u32; lia). lia.
    - apply select_write_size_large; [unfold is_u32; lia | lia | lia]. }
  rewrite bind_ok_l. unfold c_true. rewrite (proj2 (Z.eqb_neq _ _)) by lia. cbn [negb].
  destruct (ssh_write_data_spec (tw_out self) k r data) as (out & k' & dn & lost & -> & Hout);
    [done | done | unfold sw_size in *; lia | lia | lia |].
  rewrite bind_ok_l. apply (update_status_spec self k k' data (f_ignore flags) out ignore dn lost); auto.
Qed.

Lemma write_flush_spec self k :
  twrite_wf self → write_done self k [] false (write_flush self k).
Proof.
  intros Hwf. pose proof Hwf as [Hwo Hso Hth Hig _ _ _]. unfold write_flush.
  assert (sw_length (tw_out self) <= TRANSPORT_BUFFER_SIZE) as Hlen
    by (rewrite <- Hso; destruct Hwo; unfold sw_size; lia).
  unfold TRANSPORT_BUFFER_SIZE, SSH_MAX_TOTAL, TRANSPORT_THRESHOLD in *.
  destruct (Z.leb_spec (sw_length (tw_out self)) (tw_ignore self)) as [Hle | Hgt].
  - eexists self, k, _. split_and!; try done. intros _. split; [done | by rewrite app_nil_r].
  - destruct (select_write_size_spec (sw_length (tw_out self)) (tw_ignore self) (tw_threshold self))
      as (r & -> & Hr & _); [unfold is_u32; lia | lia | lia |].
    rewrite bind_ok_l. pass_assert.
    destruct (ssh_write_flush_spec (tw_out self) k r) as (out & k' & dn & -> & Hw & Hsz & [Hst Hdl] & Hres);
      [done | lia | lia |].
    rewrite bind_ok_l. apply (update_status_spec self k k' [] false out (tw_ignore self) dn []); [done | | change (lenZ []) with 0; lia | done].
    split; try done; [by rewrite app_nil_r | destruct dn; unfold write_errno in *; tauto | | |].
    { intros ->. by destruct Hres as [[_ []] _]. }
    2: { rewrite app_nil_r in Hst. apply (f_equal lenZ) in Hst. rewrite !lenZ_app, !lenZ_buffered in Hst by done.
         destruct dn; [destruct Hres as [_ ->]; lia | lia]. }
    intros _.
    destruct dn as [e |]; [| done]. destruct Hres as [_ ->]. rewrite app_nil_r in Hst.
    by apply app_inv_tail in Hst.
Qed.

(** ** Packets *)

(** Changing the random generator does not matter. *)
Definition with_rng (ks : keys) (g : rng) : keys := mk_keys (k_compress ks) (k_crypt ks) (k_mac ks) g.

(** [wire] is the packet numbered [seqno] sealed with the session's keys. *)
Definition sealed (ks : keys) (seqno : Z) (packet : lsh_string) (ks' : keys) (wire : lsh_string) : Prop :=
  encrypt_packet packet ks seqno = Ok (ks', wire).

(** The writer after sealing one packet. *)
Definition after_seal (self : transport_write_state) (ks : keys) : transport_write_state :=
  mk_twrite (tw_out self) (tw_threshold self) (tw_ignore self) ks (u32 (tw_seqno self + 1)).

Lemma seal_spec self packet :
  twrite_wf self → lsh_string_wf packet → 0 < ls_length packet <= SSH_MAX_PACKET →
  ∃ ks wire, sealed (tw_keys self) (tw_seqno self) packet ks wire
    ∧ seal self packet = Ok (after_seal self ks, wire) ∧ twrite_wf (after_seal self ks)
    ∧ lsh_string_wf wire ∧ 0 < ls_length wire < 36000.
Proof.
  intros [Hwo Hso Hth Hig Hq Hm Hz] Hwf Hl. pose proof (lenZ_contents packet Hwf) as Hlc.
  destruct (packed_ok (k_compress (tw_keys self)) (contents packet)) as (Hne & Hbk & Hlk & Hz');
    [done | by apply contents_bytes | lia |]. unfold SSH_MAX_PACKET in Hl. unfold SSH_MAX_TOTAL in Hlk.
  destruct (encrypt_packet_spec packet (tw_keys self) (tw_seqno self))
    as (ks & wire & padding & Henc & Hww & Hbp & Hlp & Hmod & Hcw & Hc & Hmk & Hzk); [done | lia | done.. |].
  assert (0 < ls_length wire < 36000) as Hlw.
  { rewrite <- (lenZ_contents wire Hww), Hcw, lenZ_app. set (frame := ssh_frame (packed _ _) padding) in *.
    assert (lenZ frame = 5 + lenZ (packed (k_compress (tw_keys self)) (contents packet)) + lenZ padding) as Hlf
      by apply lenZ_ssh_frame.
    assert (Forall is_byte frame) as Hbf by (apply ssh_frame_bytes; done || lia).
    assert (lenZ (wire_crypt (k_crypt (tw_keys self)) frame) = lenZ frame) as ->
      by (destruct (k_crypt (tw_keys self)) as [c |]; [by apply crypt_ok | done]).
    assert (0 <= lenZ (wire_mac (k_mac (tw_keys self)) (tw_seqno self) frame) <= 20) as Hlm.
    { destruct (k_mac (tw_keys self)) as [m |]; [| done]. unfold wire_mac.
      destruct (mac_digest_ok (mi_key m) (be32 (tw_seqno self) ++ frame)) as [_ ->]. apply mac_size_ok. }
    pose proof (lenZ_nonneg (packed (k_compress (tw_keys self)) (contents packet))). lia. }
  exists ks, wire. split; [done |]. unfold seal. rewrite Henc. split; [done |].
  split; [split; simpl; try done; [apply u32_range | by rewrite Hmk | by rewrite Hzk] |]. split_and!; done || lia.
Qed.

(** The padding packet is an [SSH_MSG_IGNORE]. *)
Lemma make_ignore_packet_spec self :
  twrite_wf self →
  ∃ g packet ks wire, lsh_string_wf packet ∧ take 1 (contents packet) = [SSH_MSG_IGNORE]
    ∧ sealed (with_rng (tw_keys self) g) (tw_seqno self) packet ks wire
    ∧ make_ignore_packet self TRANSPORT_PADDING_SIZE = Ok (after_seal self ks, wire)
    ∧ twrite_wf (after_seal self ks) ∧ lsh_string_wf wire ∧ 0 < ls_length wire < 36000.
Proof.
  intros Hwf. unfold make_ignore_packet, TRANSPORT_PADDING_SIZE.
  destruct (ssh_format_spec "%c%r" [FInt SSH_MSG_IGNORE; FInt 10; FPtr true]
    [PBytes [2]; PBytes (be32 10); PHole 10 true]) as (s & -> & Hws & Hls & Hcs);
    [reflexivity | by repeat constructor | reflexivity |].
  change (hole_starts 0 [PBytes [2]; PBytes (be32 10); PHole 10 true]) with [5].
  change (psize [PBytes [2]; PBytes (be32 10); PHole 10 true]) with 15 in *.
  rewrite bind_ok_l, rd_0, bind_ok_l.
  destruct (lsh_string_write_random_spec (k_rng (tw_keys self)) s 5 10 Hws) as (p & -> & Hwp & Hlp & Hcp); [lia.. |].
  rewrite bind_ok_l. set (g := fst (random_generate (k_rng (tw_keys self)) 10)).
  set (self1 := mk_twrite (tw_out self) (tw_threshold self) (tw_ignore self) (with_rng (tw_keys self) g) (tw_seqno self)).
  assert (twrite_wf self1) as Hwf1 by (destruct Hwf; by split).
  destruct (seal_spec self1 p Hwf1 Hwp) as (ks & wire & Hs & Hseal & Hw1 & Hww & Hlw); [unfold SSH_MAX_PACKET; lia |].
  exists g, p, ks, wire. split_and!; try done; try lia.
  rewrite Hcp, Hcs. unfold splice. rewrite take_app_le.
  - rewrite take_take. cbn [fill]. rewrite (splice_splice 0 [2] (be32 10)).
    + unfold splice. simpl. done.
    + lia.
    + pose proof (lenZ_contents (lsh_string_alloc 15)) as Hl15. rewrite Hl15; [done |].
      apply lsh_string_alloc_wf. unfold is_u32. lia.
  - rewrite length_take. pose proof (lenZ_contents s Hws) as Hl. rewrite Hcs, Hls in Hl. unfold lenZ in Hl.
    simpl in *. lia.
Qed.

Lemma write_string_spec self k flags packet :
  twrite_wf self → lsh_string_wf packet → 0 < ls_length packet < 2 ^ 20 →
  (f_ignore flags = true → f_push flags = true → tw_ignore self < sw_length (tw_out self)) →
  write_done self k (contents packet) (f_ignore flags) (write_string self k flags packet).
Proof.
  intros Hwf Hw Hl Hfl. unfold write_string, lsh_string_length. rewrite <- (lenZ_contents packet Hw).
  apply write_data_spec; try done; [by apply contents_bytes | by rewrite lenZ_contents].
Qed.

(** Little data that is not pushed is only queued. *)
Lemma write_small_spec self k packet :
  twrite_wf self → lsh_string_wf packet → 0 < ls_length packet →
  ls_length packet + sw_length (tw_out self) < TRANSPORT_THRESHOLD →
  ∃ self', write_string self k (mk_wflags false false) packet = Ok (self', k, TRANSPORT_WRITE_COMPLETE)
    ∧ same_session self self' ∧ twrite_wf self' ∧ stream self' k = stream self k ++ contents packet
    ∧ tw_ignore self' = 0 ∧ 0 < sw_length (tw_out self')
    ∧ sw_length (tw_out self') = sw_length (tw_out self) + ls_length packet.
Proof.
  intros Hwf Hw Hl Hsmall. pose proof Hwf as [Hwo Hso Hth Hig Hq Hm Hz]. pose proof (lenZ_contents packet Hw) as Hlc.
  unfold write_string, write_data, lsh_string_length. cbn [f_ignore f_push set_out tw_out tw_threshold negb andb].
  unfold TRANSPORT_THRESHOLD in *. rewrite u32_id by (unfold is_u32; lia).
  rewrite Hth, (proj2 (Z.ltb_lt _ _)) by lia. rewrite <- Hlc.
  destruct (ssh_write_enqueue_spec (tw_out self) (lenZ (contents packet)) (contents packet))
    as (out & ok & -> & Hwo' & Hsz & Hok & Hbuf & _);
    [done | lia | by apply contents_bytes | rewrite Hso; unfold TRANSPORT_BUFFER_SIZE, SSH_MAX_TOTAL; lia |].
  rewrite bool_decide_eq_true_2 in Hok by (rewrite Hso; unfold TRANSPORT_BUFFER_SIZE, SSH_MAX_TOTAL; lia).
  subst ok. rewrite slice_all in Hbuf. rewrite bind_ok_l. cbv iota.
  assert (sw_length out = sw_length (tw_out self) + lenZ (contents packet)) as Hlen
    by (rewrite <- !lenZ_buffered by done; by rewrite Hbuf, lenZ_app).
  eexists. split; [done |]. split; [by split_and! |].
  split; [split; simpl; try done; [congruence | lia] |].
  split_and!; [unfold stream; simpl; by rewrite Hbuf, app_assoc | done | simpl; lia | simpl; lia].
Qed.

(** [sent] are the octets a packet adds to the stream: the sealed packet, and
    on a push possibly a sealed [SSH_MSG_IGNORE]; afterwards keys and sequence
    number have advanced by as many packets. *)
Definition packet_sent (self : transport_write_state) (packet : lsh_string) (push : bool)
  (self' : transport_write_state) (sent : list Z) : Prop :=
  ∃ ks wire, sealed (tw_keys self) (tw_seqno self) packet ks wire
    ∧ (sent = contents wire ∧ tw_keys self' = ks ∧ tw_seqno self' = u32 (tw_seqno self + 1)
       ∨ push = true ∧ ∃ g ign ks' wire', take 1 (contents ign) = [SSH_MSG_IGNORE]
         ∧ sealed (with_rng ks g) (u32 (tw_seqno self + 1)) ign ks' wire'
         ∧ sent = contents wire ++ contents wire'
         ∧ tw_keys self' = ks' ∧ tw_seqno self' = u32 (u32 (tw_seqno self + 1) + 1)).

Lemma first_octet packet :
  lsh_string_wf packet → 0 < ls_length packet →
  ∃ msg, contents packet !! 0%nat = Some msg ∧ ls_byte packet 0 = Ok msg.
Proof.
  intros Hw Hl. pose proof (lenZ_contents packet Hw) as Hlc.
  destruct (lookup_lt_is_Some_2 (contents packet) 0) as [msg Hmsg]; [unfold lenZ in Hlc; lia |].
  exists msg. split; [done |]. apply rd_lookup. split; [done |].
  unfold contents, slice in Hmsg. by apply lookup_take_Some in Hmsg as [? _].
Qed.

Lemma twrite_room self :
  twrite_wf self → 0 <= sw_length (tw_out self) <= TRANSPORT_BUFFER_SIZE.
Proof. intros Hwf. rewrite <- (tww_size _ Hwf). destruct (tww_out _ Hwf). unfold sw_size. lia. Qed.

(** A small packet that is pushed: padding follows it in the same write. *)
Lemma write_padded_spec self ks wire k push :
  twrite_wf (after_seal self ks) → lsh_string_wf wire → 0 < ls_length wire →
  ls_length wire + sw_length (tw_out self) < TRANSPORT_THRESHOLD →
  ∃ g ign ks' wire' self' k' st,
    ('(s, k, status) ← write_string (after_seal self ks) k (mk_wflags false false) wire;
     if write_failed status then Ok (s, k, status)
     else '(s, packet) ← make_ignore_packet s TRANSPORT_PADDING_SIZE;
          write_string s k (mk_wflags push true) packet) = Ok (self', k', st)
    ∧ take 1 (contents ign) = [SSH_MSG_IGNORE]
    ∧ sealed (with_rng ks g) (u32 (tw_seqno self + 1)) ign ks' wire'
    ∧ tw_keys self' = ks' ∧ tw_seqno self' = u32 (u32 (tw_seqno self + 1) + 1)
    ∧ twrite_wf self' ∧ stream self' k' = stream self k ++ contents wire ++ contents wire'
    ∧ delivered k' = delivered k.
Proof.
  intros Hwf Hww Hl Hsmall.
  destruct (write_small_spec (after_seal self ks) k wire Hwf Hww)
    as (self2 & -> & (Hk2 & Hq2 & _) & Hwf2 & Hst2 & Hig2 & Hpos2 & Hlen2); [lia | done |].
  rewrite bind_ok_l. cbn [write_failed].
  destruct (make_ignore_packet_spec self2 Hwf2) as (g & ign & ks' & wire' & Hwi & Hi & Hsi & -> & Hwf3 & Hww' & Hlw').
  rewrite bind_ok_l. rewrite Hk2, Hq2 in Hsi.
  destruct (write_string_spec (after_seal self2 ks') k (mk_wflags push true) wire' Hwf3 Hww')
    as (self4 & k4 & st & -> & (Hk4 & Hq4 & _) & Hdone & _ & Hroom & Hdl); [lia | simpl; lia |].
  rewrite lenZ_contents in Hroom by done.
  destruct Hdone as [Hwf4 Hst4].
  { apply Hroom. cbn [after_seal tw_out] in *. unfold TRANSPORT_THRESHOLD, TRANSPORT_BUFFER_SIZE, SSH_MAX_TOTAL in *. lia. }
  exists g, ign, ks', wire', self4, k4, st. split_and!; try done.
  - rewrite Hq4. cbn [after_seal tw_seqno]. by rewrite Hq2.
  - rewrite Hst4. change (stream (after_seal self2 ks') k) with (stream self2 k).
    rewrite Hst2. change (stream (after_seal self ks) k) with (stream self k). by rewrite app_assoc.
Qed.

Lemma transport_write_packet_spec self k flags packet :
  twrite_wf self → lsh_string_wf packet → 0 < ls_length packet <= SSH_MAX_PACKET →
  (f_push flags = true → f_ignore flags = true ∨ contents packet !! 0%nat = Some SSH_MSG_IGNORE →
   tw_ignore self < sw_length (tw_out self)) →
  ∃ self' k' st sent, transport_write_packet self k flags packet = Ok (self', k', st)
    ∧ packet_sent self packet (f_push flags) self' sent ∧ delivered k' = delivered k
    ∧ (st ≠ TRANSPORT_WRITE_OVERFLOW → twrite_wf self' ∧ stream self' k' = stream self k ++ sent)
    ∧ (f_ignore flags = false → contents packet !! 0%nat ≠ Some SSH_MSG_IGNORE → twrite_wf self').
Proof.
  intros Hwf Hw Hl Hfl. unfold transport_write_packet, lsh_string_length. pass_assert.
  destruct (first_octet packet Hw) as (msg & Hmsg & ->); [lia |].
  rewrite bind_ok_l. set (fl := if msg =? SSH_MSG_IGNORE then mk_wflags (f_push flags) true else flags).
  assert (f_push fl = f_push flags) as Hfp by (unfold fl; by destruct (msg =? SSH_MSG_IGNORE)).
  assert (f_ignore fl = true → f_push fl = true → tw_ignore self < sw_length (tw_out self)) as Hfl'.
  { intros Hi Hp. apply Hfl; [congruence |]. unfold fl in Hi.
    destruct (Z.eqb_spec msg SSH_MSG_IGNORE) as [-> |]; [by right | by left]. }
  assert (f_ignore flags = false → contents packet !! 0%nat ≠ Some SSH_MSG_IGNORE → f_ignore fl = false) as Hplain.
  { unfold fl. rewrite Hmsg. destruct (Z.eqb_spec msg SSH_MSG_IGNORE) as [-> |]; [by intros _ [] | done]. }
  destruct (seal_spec self packet Hwf Hw Hl) as (ks & wire & Hs & -> & Hwf1 & Hww & Hlw).
  rewrite bind_ok_l. pose proof (twrite_room self Hwf) as Hlen.
  destruct (f_push fl && negb (f_ignore fl) && has_crypto (after_seal self ks) && _) eqn:Hsmall.
  - rewrite !andb_true_iff in Hsmall. destruct Hsmall as [[[Hpush _] _] Hsmall]. apply Z.ltb_lt in Hsmall.
    rewrite (tww_threshold _ Hwf1) in Hsmall.
    rewrite u32_id in Hsmall by (unfold is_u32, TRANSPORT_BUFFER_SIZE, SSH_MAX_TOTAL in *; simpl; lia).
    destruct (write_padded_spec self ks wire k (f_push fl))
      as (g & ign & ks' & wire' & self4 & k4 & st & -> & Hi & Hsi & Hk4 & Hq4 & Hwf4 & Hst4 & Hdl); [done.. | lia | done |].
    exists self4, k4, st, (contents wire ++ contents wire'). split_and!; try done.
    exists ks, wire. split; [done |]. right. split; [congruence |]. by exists g, ign, ks', wire'.
  - destruct (write_string_spec (after_seal self ks) k fl wire Hwf1 Hww)
      as (self2 & k2 & st & -> & (Hk2 & Hq2 & _) & Hdone & Hig & _ & Hdl); [lia | done |].
    exists self2, k2, st, (contents wire). split_and!; try done.
    + exists ks, wire. split; [done |]. left. by split_and!.
    + intros Hi Hm. auto.
Qed.

(** Flushing adds at most one sealed [SSH_MSG_IGNORE]. *)
Definition flush_sent (self self' : transport_write_state) (sent : list Z) : Prop :=
  (sent = [] ∧ tw_keys self' = tw_keys self ∧ tw_seqno self' = tw_seqno self)
  ∨ ∃ g ign ks wire, take 1 (contents ign) = [SSH_MSG_IGNORE]
      ∧ sealed (with_rng (tw_keys self) g) (tw_seqno self) ign ks wire ∧ sent = contents wire
      ∧ tw_keys self' = ks ∧ tw_seqno self' = u32 (tw_seqno self + 1).

Lemma transport_write_flush_spec self k :
  twrite_wf self →
  ∃ self' k' st sent, transport_write_flush self k = Ok (self', k', st)
    ∧ st ≠ TRANSPORT_WRITE_OVERFLOW ∧ twrite_wf self' ∧ delivered k' = delivered k
    ∧ stream self' k' = stream self k ++ sent ∧ flush_sent self self' sent.
Proof.
  intros Hwf. unfold transport_write_flush. pose proof (twrite_room self Hwf) as Hlen.
  destruct (_ && _ && _) eqn:Hsmall.
  - apply andb_true_iff in Hsmall as [_ Hsmall]. apply Z.ltb_lt in Hsmall. rewrite (tww_threshold _ Hwf) in Hsmall.
    destruct (make_ignore_packet_spec self Hwf) as (g & ign & ks & wire & _ & Hi & Hs & -> & Hwf1 & Hww & Hlw).
    rewrite bind_ok_l.
    destruct (write_string_spec (after_seal self ks) k (mk_wflags false true) wire Hwf1 Hww)
      as (self2 & k2 & st & -> & (Hk2 & Hq2 & _) & Hdone & _ & Hroom & Hdl); [lia | done |].
    rewrite lenZ_contents in Hroom by done.
    assert (st ≠ TRANSPORT_WRITE_OVERFLOW) as Hno.
    { apply Hroom. cbn [after_seal tw_out]. unfold TRANSPORT_THRESHOLD, TRANSPORT_BUFFER_SIZE, SSH_MAX_TOTAL in *. lia. }
    destruct (Hdone Hno) as [Hwf2 Hst2]. rewrite bind_ok_l.
    assert (flush_sent self self2 (contents wire)) as Hsent by (right; by exists g, ign, ks, wire).
    destruct (write_failed st) eqn:Hfail; [by exists self2, k2, st, (contents wire) |].
    destruct (write_flush_spec self2 k2 Hwf2) as (self3 & k3 & st3 & -> & (Hk3 & Hq3 & _) & Hdone3 & _ & Hroom3 & Hdl3).
    pose proof (twrite_room self2 Hwf2). change (lenZ []) with 0 in Hroom3.
    assert (st3 ≠ TRANSPORT_WRITE_OVERFLOW) as Hno3 by (apply Hroom3; lia).
    destruct (Hdone3 Hno3) as [Hwf3 Hst3]. rewrite app_nil_r in Hst3.
    exists self3, k3, st3, (contents wire). split_and!; try done; [congruence | by rewrite Hst3, Hst2 |].
    right. exists g, ign, ks, wire. rewrite Hk3, Hq3. by split_and!.
  - destruct (write_flush_spec self k Hwf) as (self3 & k3 & st3 & -> & (Hk3 & Hq3 & _) & Hdone3 & _ & Hroom3 & Hdl3).
    change (lenZ []) with 0 in Hroom3.
    assert (st3 ≠ TRANSPORT_WRITE_OVERFLOW) as Hno3 by (apply Hroom3; lia).
    destruct (Hdone3 Hno3) as [Hwf3 Hst3].
    exists self3, k3, st3, []. split_and!; try done. by left.
Qed.


(** Flushing returns, never reports an overflow, keeps the invariant, and
    adds to the stream at most one sealed SSH_MSG_IGNORE packet. *)
Theorem transport_write_flush_correct self k :
  twrite_wf self →
  ∃ self' k' st sent, transport_write_flush self k = Ok (self', k', st)
    ∧ st ≠ TRANSPORT_WRITE_OVERFLOW ∧ twrite_wf self' ∧ delivered k' = delivered k
    ∧ stream self' k' = stream self k ++ sent ∧ flush_sent self self' sent.
Proof. apply transport_write_flush_spec. Qed.

End proofs.

(** C34: whenever something other than padding is buffered, the loop that looks
    for a round size ends, and the size chosen is positive, at most what is
    there, at most eight times the threshold, and (below the threshold) covers
    everything that is not padding. *)
Theorem select_write_size_correct length ignore threshold :
  is_u32 length → 0 <= ignore < length → 0 < threshold < 2 ^ 28 →
  ∃ r, select_write_size length ignore threshold = Ok r ∧ 0 < r <= length
    ∧ (length < threshold → length - ignore <= r) ∧ r <= 8 * threshold.
Proof. apply select_write_size_spec. Qed.

(** When all of the data below the threshold is padding, the loop of
    [select_write_size] never ends, however many rounds it is given. *)
Theorem select_write_size_diverges length threshold :
  0 < length < threshold → threshold < 2 ^ 28 →
  select_write_size length length threshold = Fault NonTermination
  ∧ ∀ fuel mask, widen_mask fuel length 0 mask = Fault NonTermination.
Proof.
  intros Hl Ht. split; [| intros; apply widen_mask_diverges]. unfold select_write_size.
  rewrite u32_id by (unfold is_u32; lia). rewrite (proj2 (Z.leb_gt _ _)) by lia.
  rewrite (proj2 (Z.leb_gt _ _)) by lia. unfold c_true. rewrite (proj2 (Z.eqb_neq _ _)) by lia. cbn [negb].
  rewrite Z.sub_diag. change (u32 0) with 0. by rewrite widen_mask_diverges.
Qed.

(** ** Instances *)

Lemma select_write_size_correct_witness :
  ∃ r, select_write_size 120 60 500 = Ok r ∧ 0 < r <= 120 ∧ (120 < 500 → 120 - 60 <= r) ∧ r <= 8 * 500.
Proof. apply (select_write_size_correct 120 60 500); [unfold is_u32; lia | lia | lia]. Defined.

Lemma select_write_size_diverges_witness :
  select_write_size 40 40 500 = Fault NonTermination
  ∧ ∀ fuel mask, widen_mask fuel 40 0 mask = Fault NonTermination.
Proof. apply (select_write_size_diverges 40 500); lia. Defined.


Lemma transport_write_flush_correct_witness :
  let self := make_transport_write_state (7 : @rng ref_crypto) in
  ∃ self' k' st sent, transport_write_flush self (scripted []) = Ok (self', k', st)
    ∧ st ≠ TRANSPORT_WRITE_OVERFLOW ∧ twrite_wf self' ∧ delivered k' = delivered (scripted [])
    ∧ stream self' k' = stream self (scripted []) ++ sent ∧ flush_sent self self' sent.
Proof.
  apply (transport_write_flush_correct (make_transport_write_state (7 : @rng ref_crypto)) (scripted [])).
  apply make_transport_write_state_wf.
Defined.
