(* ===== verification/Io.v ===== *)
(** * The event loop and open files ([src/src/io.c])

    lsh is driven by liboop: callbacks are registered for descriptors and
    times, and run when the descriptor is ready or the time has come.  liboop
    is an interface here; [io.c] adds a count of the files in use, which stops
    the loop when it reaches zero, and callouts, timers that are resources. *)

From S2P Require Import Prelude.
Local Open Scope Z_scope.

Inductive oop_event : Set := OOP_READ | OOP_WRITE.

#[global] Instance oop_event_eq_dec : EqDecision oop_event.
Proof. solve_decision. Defined.

(** The functions that are registered, with the connection as argument. *)
Inductive callback : Set :=
  | Cb_oop_read_ssh
  | Cb_oop_write_ssh
  | Cb_oop_timer_retry
  | Cb_oop_read_service
  | Cb_oop_write_service
  | Cb_lsh_oop_stop_callback.

#[global] Instance callback_eq_dec : EqDecision callback.
Proof. solve_decision. Defined.

(** ** liboop *)

Class OopSource := {
  oop : Type;
  on_fd : oop → Z → oop_event → callback → oop;
  cancel_fd : oop → Z → oop_event → oop;
  (** For [OOP_TIME_NOW]. *)
  on_time : oop → callback → oop;
  cancel_time : oop → callback → oop;
  (** What is registered. *)
  fd_callback : oop → Z → oop_event → option callback;
  time_callback : oop → callback → bool;
}.

Class OopSourceOk `{OopSource} : Prop := {
  on_fd_ok o fd ev cb fd' ev' :
    fd_callback (on_fd o fd ev cb) fd' ev'
    = if decide (fd = fd' ∧ ev = ev') then Some cb else fd_callback o fd' ev';
  on_fd_time o fd ev cb cb' : time_callback (on_fd o fd ev cb) cb' = time_callback o cb';
  cancel_fd_ok o fd ev fd' ev' :
    fd_callback (cancel_fd o fd ev) fd' ev'
    = if decide (fd = fd' ∧ ev = ev') then None else fd_callback o fd' ev';
  cancel_fd_time o fd ev cb : time_callback (cancel_fd o fd ev) cb = time_callback o cb;
  on_time_ok o cb cb' : time_callback (on_time o cb) cb' = bool_decide (cb = cb') || time_callback o cb';
  on_time_fd o cb fd ev : fd_callback (on_time o cb) fd ev = fd_callback o fd ev;
  cancel_time_ok o cb cb' :
    time_callback (cancel_time o cb) cb' = negb (bool_decide (cb = cb')) && time_callback o cb';
  cancel_time_fd o cb fd ev : fd_callback (cancel_time o cb) fd ev = fd_callback o fd ev;
}.

(** The reference: tables. *)
Record oop_table := mk_table {
  t_fd : Z → oop_event → option callback;
  t_time : callback → bool;
}.

#[export] Instance table_oop : OopSource := {
  oop := oop_table;
  on_fd o fd ev cb :=
    mk_table (λ fd' ev', if decide (fd = fd' ∧ ev = ev') then Some cb else t_fd o fd' ev') (t_time o);
  cancel_fd o fd ev :=
    mk_table (λ fd' ev', if decide (fd = fd' ∧ ev = ev') then None else t_fd o fd' ev') (t_time o);
  on_time o cb := mk_table (t_fd o) (λ cb', bool_decide (cb = cb') || t_time o cb');
  cancel_time o cb := mk_table (t_fd o) (λ cb', negb (bool_decide (cb = cb')) && t_time o cb');
  fd_callback := t_fd;
  time_callback := t_time;
}.

#[export] Instance table_oop_ok : OopSourceOk.
Proof. by split. Qed.

Definition no_callbacks : @oop table_oop := mk_table (λ _ _, None) (λ _, false).

(** ** Files *)

Section files.
Context `{OopSource}.

Record io_state := mk_io {
  io_oop : oop;
  io_nfiles : Z;
}.

(** Close-on-exec and non-blocking mode are flags of the descriptor. *)
Definition io_register_fd (s : io_state) (fd : Z) : io_state :=
  mk_io (io_oop s) (u32 (io_nfiles s + 1)).

Definition lsh_oop_stop (s : io_state) : io_state :=
  mk_io (on_time (io_oop s) Cb_lsh_oop_stop_callback) (io_nfiles s).

(** The descriptor itself is closed by the system; a standard descriptor is
    mapped to [/dev/null]. *)
Definition io_close_fd (s : io_state) (fd : Z) : result io_state :=
  if fd <? 0 then Ok s
  else
    let s := mk_io (cancel_fd (cancel_fd (io_oop s) fd OOP_READ) fd OOP_WRITE) (io_nfiles s) in
    _ ← c_assert (c_true (io_nfiles s));
    let s := mk_io (io_oop s) (u32 (io_nfiles s - 1)) in
    Ok (if c_true (io_nfiles s) then s else lsh_oop_stop s).

Context `{!OopSourceOk}.

Lemma io_close_fd_spec s fd :
  (0 <= fd → 0 < io_nfiles s < 2 ^ 32) →
  ∃ s', io_close_fd s fd = Ok s'
    ∧ io_nfiles s' = (if decide (0 <= fd) then io_nfiles s - 1 else io_nfiles s)
    ∧ (∀ fd' ev, fd_callback (io_oop s') fd' ev
         = if decide (0 <= fd ∧ fd = fd') then None else fd_callback (io_oop s) fd' ev)
    ∧ (∀ cb, cb ≠ Cb_lsh_oop_stop_callback → time_callback (io_oop s') cb = time_callback (io_oop s) cb).
Proof.
  intros Hn. unfold io_close_fd. destruct (Z.ltb_spec fd 0).
  - exists s. rewrite (decide_False (P := 0 <= fd)) by lia. split_and!; try done.
    intros fd' ev. by rewrite decide_False by lia.
  - specialize (Hn ltac:(lia)). cbn [io_nfiles io_oop]. unfold c_true.
    pass_assert. rewrite (decide_True (P := 0 <= fd)) by done. rewrite u32_id by (unfold is_u32; lia).
    eexists. split; [done |]. split; [by case_bool |].
    split.
    + intros fd' ev. case_bool; simpl; rewrite ?on_time_fd, !cancel_fd_ok; destruct ev;
        repeat case_decide; try done; naive_solver.
    + intros cb Hcb. case_bool; simpl; rewrite ?on_time_ok, !cancel_fd_time; [done |].
      by rewrite bool_decide_eq_false_2 by done.
Qed.

End files.
