(* ===== verification/Transport.v ===== *)
(** * The transport protocol ([src/src/transport.c], [transport.h])

    A connection ties together the reader, the writer, the key exchange and
    the application on top.  The application is a set of methods: an event
    handler and a destructor, which every operation may call, and handlers
    for lines, packets and key exchange messages, which the reading side
    calls.  Methods are values of abstract types (function pointers) with an
    interpretation given by the classes [Events] and [Handlers].

    All functions work on the whole state: the connection, the event loop, the
    descriptors and the application's own fields.  They are written in a state
    and error monad. *)

From S2P Require Import Prelude Ssh Nettle Atoms Alist LshString Format FormatSpec Parse Sys SshWrite SshRead Crypto Hash KexKeys Keyexchange Encrypt TransportRead TransportWrite Io.
Local Open Scope Z_scope.

Definition TRANSPORT_TIMEOUT_KEYEXCHANGE := 10 * 60.
Definition TRANSPORT_TIMEOUT_REEXCHANGE := 40 * 60.
Definition TRANSPORT_TIMEOUT_CLOSE := 5 * 60.

Inductive transport_event : Set :=
  | TRANSPORT_EVENT_KEYEXCHANGE_COMPLETE
  | TRANSPORT_EVENT_CLOSE
  | TRANSPORT_EVENT_PUSH
  | TRANSPORT_EVENT_STOP_APPLICATION
  | TRANSPORT_EVENT_START_APPLICATION.

(** The function a [transport_timeout] calls. *)
Inductive timeout_callback : Set :=
  | Cb_transport_timeout_close
  | Cb_transport_timeout_reexchange
  | Cb_transport_timeout_keyexchange.

#[global] Instance timeout_callback_eq_dec : EqDecision timeout_callback.
Proof. solve_decision. Defined.

(** A callout that has run or was killed stays referenced, but is not alive. *)
Record callout := mk_callout {
  co_action : timeout_callback;
  co_seconds : Z;
  co_alive : bool;
}.

Definition do_kill_callout (c : callout) : callout := mk_callout (co_action c) (co_seconds c) false.

(** Function pointers of the methods, and the fields of the subclass. *)
Class Methods := {
  application : Type;
  event_method : Type;
  packet_method : Type;
  line_method : Type;
  kex_method : Type;
}.

Section state.
Context `{Malloc} `{NettleMacros} `{NettleBignum} `{AtomTable} `{OS} `{Crypto} `{!Algorithms} `{OopSource} `{Methods}.

(** [struct transport_context] *)
Record transport_context := mk_context {
  cx_is_server : bool;
  cx_algorithms : alist algorithm;
  cx_kexinit : kexinit_info;
}.

(** Key exchange. *)
Record kex_part := mk_kex_part {
  kp_state : kexinit_state;
  kp_session_id : option lsh_string;
  kp_handler : option kex_method;
  kp_new_mac : option mac_instance;
  kp_new_crypto : option crypto_instance;
  kp_new_inflate : option compress_instance;
}.

(** Receiving. *)
Record input_part := mk_input {
  in_fd : Z;
  in_reader : transport_read_state;
  in_active : bool;
  in_packet : lsh_string;
  in_retry_length : Z;
  in_retry_seqno : Z;
}.

(** Sending. *)
Record output_part := mk_output {
  out_fd : Z;
  out_writer : transport_write_state;
  out_active : bool;
  out_margin : Z;
}.

(** [struct transport_connection] *)
Record transport_connection := mk_connection {
  tc_alive : bool;
  tc_ctx : transport_context;
  tc_kex : kex_part;
  tc_expire : option callout;
  tc_input : input_part;
  tc_output : output_part;
  tc_closing : Z;
  tc_event_handler : event_method;
  tc_packet_handler : option packet_method;
  tc_line_handler : option line_method;
}.

Record world := mk_world {
  w_conn : transport_connection;
  w_io : io_state;
  w_os : os;
  w_app : application;
}.

(** ** Reading and writing fields *)

Definition alive (w : world) : bool := tc_alive (w_conn w).
Definition ctx (w : world) : transport_context := tc_ctx (w_conn w).
Definition kex (w : world) : kex_part := tc_kex (w_conn w).
Definition expire (w : world) : option callout := tc_expire (w_conn w).
Definition input (w : world) : input_part := tc_input (w_conn w).
Definition output (w : world) : output_part := tc_output (w_conn w).
Definition closing (w : world) : Z := tc_closing (w_conn w).
Definition ssh_input (w : world) : Z := in_fd (input w).
Definition ssh_output (w : world) : Z := out_fd (output w).

Definition with_conn (f : transport_connection → transport_connection) (w : world) : world :=
  mk_world (f (w_conn w)) (w_io w) (w_os w) (w_app w).
Definition with_io (w : world) (s : io_state) : world := mk_world (w_conn w) s (w_os w) (w_app w).
Definition with_os (w : world) (k : os) : world := mk_world (w_conn w) (w_io w) k (w_app w).
Definition with_app (w : world) (a : application) : world := mk_world (w_conn w) (w_io w) (w_os w) a.

Definition set_alive (b : bool) : world → world := with_conn (λ c,
  mk_connection b (tc_ctx c) (tc_kex c) (tc_expire c) (tc_input c) (tc_output c) (tc_closing c)
    (tc_event_handler c) (tc_packet_handler c) (tc_line_handler c)).
Definition set_kex (k : kex_part) : world → world := with_conn (λ c,
  mk_connection (tc_alive c) (tc_ctx c) k (tc_expire c) (tc_input c) (tc_output c) (tc_closing c)
    (tc_event_handler c) (tc_packet_handler c) (tc_line_handler c)).
Definition set_expire (e : option callout) : world → world := with_conn (λ c,
  mk_connection (tc_alive c) (tc_ctx c) (tc_kex c) e (tc_input c) (tc_output c) (tc_closing c)
    (tc_event_handler c) (tc_packet_handler c) (tc_line_handler c)).
Definition set_input (i : input_part) : world → world := with_conn (λ c,
  mk_connection (tc_alive c) (tc_ctx c) (tc_kex c) (tc_expire c) i (tc_output c) (tc_closing c)
    (tc_event_handler c) (tc_packet_handler c) (tc_line_handler c)).
Definition set_output (o : output_part) : world → world := with_conn (λ c,
  mk_connection (tc_alive c) (tc_ctx c) (tc_kex c) (tc_expire c) (tc_input c) o (tc_closing c)
    (tc_event_handler c) (tc_packet_handler c) (tc_line_handler c)).
Definition set_closing (n : Z) : world → world := with_conn (λ c,
  mk_connection (tc_alive c) (tc_ctx c) (tc_kex c) (tc_expire c) (tc_input c) (tc_output c) n
    (tc_event_handler c) (tc_packet_handler c) (tc_line_handler c)).
Definition set_line_handler (h : option line_method) : world → world := with_conn (λ c,
  mk_connection (tc_alive c) (tc_ctx c) (tc_kex c) (tc_expire c) (tc_input c) (tc_output c) (tc_closing c)
    (tc_event_handler c) (tc_packet_handler c) h).
Definition set_packet_handler (h : option packet_method) : world → world := with_conn (λ c,
  mk_connection (tc_alive c) (tc_ctx c) (tc_kex c) (tc_expire c) (tc_input c) (tc_output c) (tc_closing c)
    (tc_event_handler c) h (tc_line_handler c)).

Definition set_ssh_input (fd : Z) (w : world) : world :=
  let i := input w in
  set_input (mk_input fd (in_reader i) (in_active i) (in_packet i) (in_retry_length i) (in_retry_seqno i)) w.
Definition set_reader (r : transport_read_state) (w : world) : world :=
  let i := input w in
  set_input (mk_input (in_fd i) r (in_active i) (in_packet i) (in_retry_length i) (in_retry_seqno i)) w.
Definition set_read_active (b : bool) (w : world) : world :=
  let i := input w in
  set_input (mk_input (in_fd i) (in_reader i) b (in_packet i) (in_retry_length i) (in_retry_seqno i)) w.
Definition set_read_packet (p : lsh_string) (w : world) : world :=
  let i := input w in
  set_input (mk_input (in_fd i) (in_reader i) (in_active i) p (in_retry_length i) (in_retry_seqno i)) w.
Definition set_retry (length seqno : Z) (w : world) : world :=
  let i := input w in
  set_input (mk_input (in_fd i) (in_reader i) (in_active i) (in_packet i) length seqno) w.

Definition set_ssh_output (fd : Z) (w : world) : world :=
  let o := output w in set_output (mk_output fd (out_writer o) (out_active o) (out_margin o)) w.
Definition set_writer (s : transport_write_state) (w : world) : world :=
  let o := output w in set_output (mk_output (out_fd o) s (out_active o) (out_margin o)) w.
Definition set_write_active (b : bool) (w : world) : world :=
  let o := output w in set_output (mk_output (out_fd o) (out_writer o) b (out_margin o)) w.

Definition set_kex_state (s : kexinit_state) (w : world) : world :=
  let k := kex w in
  set_kex (mk_kex_part s (kp_session_id k) (kp_handler k) (kp_new_mac k) (kp_new_crypto k) (kp_new_inflate k)) w.
Definition set_session_id (s : option lsh_string) (w : world) : world :=
  let k := kex w in
  set_kex (mk_kex_part (kp_state k) s (kp_handler k) (kp_new_mac k) (kp_new_crypto k) (kp_new_inflate k)) w.
Definition set_kex_handler (h : option kex_method) (w : world) : world :=
  let k := kex w in
  set_kex (mk_kex_part (kp_state k) (kp_session_id k) h (kp_new_mac k) (kp_new_crypto k) (kp_new_inflate k)) w.
Definition set_new_keys (m : option mac_instance) (c : option crypto_instance) (z : option compress_instance)
  (w : world) : world :=
  let k := kex w in set_kex (mk_kex_part (kp_state k) (kp_session_id k) (kp_handler k) m c z) w.

(** ** Actions *)

Definition action (A : Type) : Type := world → result (world * A).

#[global] Instance action_ret : MRet action := λ A a w, Ok (w, a).
#[global] Instance action_bind : MBind action := λ A B k m w, '(w, a) ← m w; k a w.

Definition skip : action () := mret ().
Definition gets {A} (f : world → A) : action A := λ w, Ok (w, f w).
Definition modify (f : world → world) : action () := λ w, Ok (f w, ()).
Definition lift {A} (c : result A) : action A := λ w, a ← c; Ok (w, a).
Definition when (b : bool) (m : action ()) : action () := if b then m else skip.

End state.

(** ** Methods *)

Class Events `{OS} `{OopSource} `{Crypto} `{!Algorithms} `{Methods} := {
  event_handler : event_method → transport_event → action ();
  (** [KILL_RESOURCE (&connection->super)] *)
  kill_connection : action ();
}.

Class Handlers `{OS} `{OopSource} `{Crypto} `{!Algorithms} `{Methods} := {
  (** Sequence number, length and packet; zero when it has to wait. *)
  packet_handler : packet_method → Z → Z → list Z → action bool;
  line_handler : line_method → list Z → action ();
  KEYEXCHANGE_INIT : keyexchange_algorithm → action (option kex_method);
  keyexchange_handler : kex_method → Z → list Z → action ();
}.

(** A new connection over two registered descriptors, which may be the same. *)
Definition init_transport_connection `{Malloc} `{OS} `{OopSource} `{Crypto} `{!Algorithms} `{Methods}
  (cx : transport_context) (fd_in fd_out : Z) (event : event_method) (g : rng) (s : io_state)
  : transport_connection * io_state :=
  let s := io_register_fd s fd_in in
  let s := if negb (fd_out =? fd_in) then io_register_fd s fd_out else s in
  (mk_connection true cx (mk_kex_part init_kexinit_state None None None None None) None
     (mk_input fd_in make_transport_read_state false (lsh_string_alloc (SSH_MAX_PACKET + 1)) 0 0)
     (mk_output fd_out (make_transport_write_state g) false SSH_MAX_TRANSPORT_RESPONSE)
     0 event None None, s).

Section sending.
Context `{Malloc} `{NettleMacros} `{NettleBignum} `{AtomTable} `{OS} `{OopSource} `{Crypto} `{!Algorithms} `{HashFunctions} `{Methods} `{!Events}.

Definition run_event (e : transport_event) : action () :=
  h ← gets (tc_event_handler ∘ w_conn); event_handler h e.

Definition close_fd (fd : Z) : action () := λ w,
  s ← io_close_fd (w_io w) fd; Ok (with_io w s, ()).

Definition oop_do (f : oop → oop) : action () :=
  modify (λ w, with_io w (mk_io (f (io_oop (w_io w))) (io_nfiles (w_io w)))).

(** [if (connection->expire) KILL_RESOURCE (connection->expire);] *)
Definition kill_expire : action () := modify (λ w, set_expire (do_kill_callout <$> expire w) w).

Definition transport_timeout (seconds : Z) (f : timeout_callback) : action () :=
  kill_expire;;
  modify (set_expire (Some (mk_callout f seconds true))).

Definition transport_timeout_close : action () := kill_connection.

Definition transport_connection_kill : action () :=
  kill_expire;; modify (set_expire None);;
  oop_do (λ o, cancel_time o Cb_oop_timer_retry);;
  fd ← gets ssh_input; close_fd fd;;
  out ← gets ssh_output;
  when (negb (out =? fd)) (close_fd out);;
  modify (λ w, set_ssh_input (-1) (set_ssh_output (-1) w)).

Definition transport_close (flush : bool) : action () :=
  live ← gets (λ w, alive w && (closing w =? 0));
  when live (
    run_event TRANSPORT_EVENT_CLOSE;;
    kill_expire;; modify (set_expire None);;
    fd ← gets ssh_input;
    out ← gets ssh_output;
    when (negb (fd =? out)) (close_fd fd);;
    modify (set_ssh_input (-1));;
    active ← gets (out_active ∘ output);
    if flush && active then
      modify (set_closing 1);;
      transport_timeout TRANSPORT_TIMEOUT_CLOSE Cb_transport_timeout_close
    else
      out ← gets ssh_output;
      close_fd out;;
      modify (set_ssh_output (-1));;
      kill_connection).

(** Does the write buffer hold little room? *)
Definition transport_write_almost_full (w : world) : bool :=
  lsh_string_length (sw_buffer (tw_out (out_writer (output w))))
  <? u32 (sw_length (tw_out (out_writer (output w))) + out_margin (output w)).

Definition transport_start_write : action () :=
  active ← gets (out_active ∘ output);
  when (negb active) (
    modify (set_write_active true);;
    out ← gets ssh_output;
    oop_do (λ o, on_fd o out OOP_WRITE Cb_oop_write_ssh));;
  stop ← gets (λ w, (ks_write_state (kp_state (kex w)) =? 0) && transport_write_almost_full w);
  when stop (run_event TRANSPORT_EVENT_STOP_APPLICATION).

(** [close], not [io_close_fd]. *)
Definition transport_stop_write : action () :=
  active ← gets (out_active ∘ output);
  when active (
    modify (set_write_active false);;
    out ← gets ssh_output;
    oop_do (λ o, cancel_fd o out OOP_WRITE);;
    n ← gets closing;
    if c_true n then
      modify (set_ssh_output (-1));;
      modify (set_closing (u32 (n - 1)));;
      when (u32 (n - 1) =? 0) kill_connection
    else
      start ← gets (λ w, (ks_write_state (kp_state (kex w)) =? 0) && negb (transport_write_almost_full w));
      when start (run_event TRANSPORT_EVENT_START_APPLICATION)).

(** Writing needs an open descriptor. *)
Definition use_writer
  (f : transport_write_state → os → result (transport_write_state * os * transport_write_status))
  : action transport_write_status := λ w,
  _ ← c_assert (0 <=? ssh_output w);
  '(s, k, st) ← f (out_writer (output w)) (w_os w);
  Ok (with_os (set_writer s w) k, st).

(** A null packet pushes out what is buffered. *)
Definition transport_send_packet (flags : write_flags) (packet : option lsh_string) : action () :=
  live ← gets alive;
  when live (
    status ← use_writer (λ s k, match packet with
                                | Some p => transport_write_packet s k flags p
                                | None => transport_write_flush s k
                                end);
    match status with
    | TRANSPORT_WRITE_OVERFLOW | TRANSPORT_WRITE_IO_ERROR _ => transport_close false
    | TRANSPORT_WRITE_PENDING => transport_start_write
    | TRANSPORT_WRITE_COMPLETE => transport_stop_write
    end).

Definition PUSH : write_flags := mk_wflags true false.

Definition transport_disconnect (reason : Z) (msg : option string) : action () :=
  when (c_true reason) (
    match msg with
    | Some m =>
        p ← lift (format_disconnect reason (cstr m) []);
        transport_send_packet PUSH (Some p)
    | None => lift (Fault NullPointer)
    end);;
  transport_close true.

Definition transport_protocol_error (msg : string) : action () :=
  transport_disconnect SSH_DISCONNECT_PROTOCOL_ERROR (Some msg).

Definition transport_timeout_keyexchange : action () :=
  transport_disconnect SSH_DISCONNECT_BY_APPLICATION (Some "Key exchange timeout").

(** The random generator is shared with the writer. *)
Definition make_own_kexinit : action kexinit := λ w,
  let s := out_writer (output w) in
  let ks := tw_keys s in
  let '(g, msg) := make_kexinit (k_rng ks) (cx_kexinit (ctx w)) in
  Ok (set_writer (mk_twrite (tw_out s) (tw_threshold s) (tw_ignore s)
        (mk_keys (k_compress ks) (k_crypt ks) (k_mac ks) g) (tw_seqno s)) w, msg).

(** [kex->first_kex_packet = NULL] *)
Definition without_first_packet (msg : kexinit) : kexinit :=
  mk_kexinit (kx_cookie msg) (kx_kex_algorithms msg) (kx_server_hostkey_algorithms msg) (kx_parameters msg)
    (kx_languages_client_to_server msg) (kx_languages_server_to_client msg) (kx_first_kex_packet_follows msg) None.

Definition transport_send_kexinit : action () :=
  is_server ← gets (cx_is_server ∘ ctx);
  modify (λ w, set_kex_state (set_write_state (kp_state (kex w)) 1) w);;
  sid ← gets (kp_session_id ∘ kex);
  when (bool_decide (is_Some sid)) (run_event TRANSPORT_EVENT_STOP_APPLICATION);;
  msg ← make_own_kexinit;
  lift (c_assert (Bool.eqb (c_true (kx_first_kex_packet_follows msg))
                    (bool_decide (is_Some (kx_first_kex_packet msg)))));;
  read_state ← gets (λ w, ks_read_state (kp_state (kex w)));
  lift (c_assert (bool_decide (read_state = KEX_STATE_INIT)));;
  s ← lift (format_kexinit msg);
  modify (λ w, set_kex_state (set_kexinit (kp_state (kex w)) is_server msg s) w);;
  transport_send_packet PUSH (Some s);;
  when (c_true (kx_first_kex_packet_follows msg)) (
    modify (λ w, set_kex_state (set_kexinit (kp_state (kex w)) is_server (without_first_packet msg) s) w);;
    transport_send_packet PUSH (kx_first_kex_packet msg));;
  transport_timeout TRANSPORT_TIMEOUT_KEYEXCHANGE Cb_transport_timeout_keyexchange.

Definition transport_timeout_reexchange : action () := transport_send_kexinit.

(** ** The end of key exchange *)

(** [x ^ is_server] for an even or odd [x]. *)
Definition flip_type (x : Z) (is_server : bool) : Z := Z.lxor x (c_int is_server).

Definition the_session_id : action lsh_string :=
  sid ← gets (kp_session_id ∘ kex);
  match sid with Some sid => mret sid | None => lift (Fault NullPointer) end.

Definition the_algorithms : action (list (option algorithm)) :=
  l ← gets (ks_algorithm_list ∘ kp_state ∘ kex);
  match l with Some l => mret l | None => lift (Fault NullPointer) end.

(** In [keyexchange.c]; zero for a weak key. *)
Definition keyexchange_finish (hash : nettle_hash) (exchange_hash K : lsh_string) : action bool :=
  is_server ← gets (cx_is_server ∘ ctx);
  algorithms ← the_algorithms;
  lift (c_assert (lenZ algorithms =? KEX_LIST_LENGTH));;
  secret ← lift (kex_build_secret hash exchange_hash K);
  sid ← the_session_id;
  '(ok, rec) ← lift (kex_make_decrypt secret algorithms (flip_type KEX_ENCRYPTION_SERVER_TO_CLIENT is_server) sid);
  if negb (ok : bool) then mret false
  else
    '(ok, send) ← lift (kex_make_encrypt secret algorithms (flip_type KEX_ENCRYPTION_CLIENT_TO_SERVER is_server) sid);
    if negb (ok : bool) then mret false
    else
      mac ← lift (kex_make_mac secret algorithms (flip_type KEX_MAC_SERVER_TO_CLIENT is_server) sid);
      inflate ← lift (kex_make_inflate algorithms (flip_type KEX_COMPRESSION_SERVER_TO_CLIENT is_server));
      modify (set_new_keys mac rec inflate);;
      newkeys ← lift format_newkeys;
      transport_send_packet (mk_wflags false false) (Some newkeys);;
      mac ← lift (kex_make_mac secret algorithms (flip_type KEX_MAC_CLIENT_TO_SERVER is_server) sid);
      deflate ← lift (kex_make_deflate algorithms (flip_type KEX_COMPRESSION_CLIENT_TO_SERVER is_server));
      modify (λ w, set_writer (transport_write_new_keys (out_writer (output w)) mac send deflate) w);;
      transport_send_packet (mk_wflags false false) None;;
      mret true.

Definition transport_keyexchange_finish (hash : nettle_hash) (exchange_hash K : lsh_string) : action () :=
  sid ← gets (kp_session_id ∘ kex);
  let first := negb (bool_decide (is_Some sid)) in
  when first (modify (set_session_id (Some exchange_hash)));;
  ok ← keyexchange_finish hash exchange_hash K;
  if negb ok then
    transport_disconnect SSH_DISCONNECT_KEY_EXCHANGE_FAILED (Some "Key exchange resulted in weak keys!")
  else
    read_state ← gets (λ w, ks_read_state (kp_state (kex w)));
    lift (c_assert (bool_decide (read_state = KEX_STATE_IN_PROGRESS)));;
    modify (λ w, set_kex_state (set_write_state (set_read_state (kp_state (kex w)) KEX_STATE_NEWKEYS) 0) w);;
    run_event (if first then TRANSPORT_EVENT_KEYEXCHANGE_COMPLETE else TRANSPORT_EVENT_START_APPLICATION).

(** ** Starting and stopping to read *)

Definition transport_start_read : action () :=
  active ← gets (in_active ∘ input);
  when (negb active) (
    modify (set_read_active true);;
    retry ← gets (in_retry_length ∘ input);
    fd ← gets ssh_input;
    if c_true retry then oop_do (λ o, on_time o Cb_oop_timer_retry)
    else oop_do (λ o, on_fd o fd OOP_READ Cb_oop_read_ssh)).

Definition transport_stop_read : action () :=
  modify (set_read_active false);;
  oop_do (λ o, cancel_time o Cb_oop_timer_retry);;
  fd ← gets ssh_input;
  oop_do (λ o, cancel_fd o fd OOP_READ).

(** ** The writing callback *)

Definition oop_write_ssh (fd : Z) (event : oop_event) : action () :=
  lift (c_assert (bool_decide (event = OOP_WRITE)));;
  out ← gets ssh_output;
  lift (c_assert (fd =? out));;
  status ← use_writer transport_write_flush;
  match status with
  | TRANSPORT_WRITE_OVERFLOW => lift (Fault FatalError)
  | TRANSPORT_WRITE_PENDING => skip
  | TRANSPORT_WRITE_COMPLETE => transport_stop_write
  | TRANSPORT_WRITE_IO_ERROR EWOULDBLOCK => skip
  | TRANSPORT_WRITE_IO_ERROR _ => transport_close false
  end.

Definition CRLF : string := String (Ascii.ascii_of_N 13) (String (Ascii.ascii_of_N 10) EmptyString).

(** The first part of the handshake. *)
Definition send_version_line (version : lsh_string) : action () :=
  line ← lift (ssh_format_string ("%lS" ++ CRLF)%string [FStr version]);
  status ← use_writer (λ s k, transport_write_line s k line);
  when (write_failed status) (transport_close false).

Definition transport_handshake (version : lsh_string) (h : line_method) : action () :=
  is_server ← gets (cx_is_server ∘ ctx);
  modify (λ w, set_kex_state (set_version (kp_state (kex w)) is_server version) w);;
  send_version_line version;;
  transport_send_kexinit;;
  modify (set_line_handler (Some h));;
  transport_start_read.

End sending.

Section receiving.
Context `{Malloc} `{NettleMacros} `{NettleBignum} `{AtomTable} `{OS} `{OopSource} `{Crypto} `{!Algorithms} `{HashFunctions} `{Methods} `{!Events} `{!Handlers}.

(** [CAST_SUBTYPE (keyexchange_algorithm, ...)]; calling the method of a null
    pointer is undefined. *)
Definition cast_keyexchange (o : option algorithm) : result keyexchange_algorithm :=
  match o with
  | None => Fault NullPointer
  | Some (AlgKex a) => Ok a
  | Some _ => c_fatal
  end.

Definition transport_kexinit_handler (length : Z) (packet : list Z) : action () :=
  is_server ← gets (cx_is_server ∘ ctx);
  own ← gets (λ w, entry (ks_kexinit (kp_state (kex w))) is_server);
  when (negb (bool_decide (is_Some own))) transport_send_kexinit;;
  state ← gets (kp_state ∘ kex);
  algorithms ← gets (cx_algorithms ∘ ctx);
  '(state, error) ← lift (handle_kexinit state length packet algorithms is_server);
  modify (set_kex_state state);;
  match error with
  | Some error => transport_disconnect SSH_DISCONNECT_KEY_EXCHANGE_FAILED (Some error)
  | None =>
      l ← the_algorithms;
      o ← lift (rd l KEX_KEY_EXCHANGE);
      a ← lift (cast_keyexchange o);
      h ← KEYEXCHANGE_INIT a;
      modify (set_kex_handler h);;
      when (negb (bool_decide (is_Some h)))
        (transport_disconnect SSH_DISCONNECT_KEY_EXCHANGE_FAILED (Some "Configuration error"))
  end.

(** The fields of [SSH_MSG_DISCONNECT] are only logged. *)
Definition parse_disconnect : parser () :=
  reason ← parse_uint32;
  description ← parse_string;
  language ← parse_string;
  parse_eod.

(** The part that depends on the key exchange state. *)
Definition transport_process_kex (msg seqno length : Z) (data : list Z) : action bool :=
  state ← gets (λ w, ks_read_state (kp_state (kex w)));
  match state with
  | KEX_STATE_IGNORE =>
      modify (λ w, set_kex_state (set_read_state (kp_state (kex w)) KEX_STATE_IN_PROGRESS) w);;
      mret true
  | KEX_STATE_IN_PROGRESS =>
      (if (msg <? SSH_FIRST_KEYEXCHANGE_SPECIFIC) || (SSH_FIRST_USERAUTH_GENERIC <=? msg) then
         transport_protocol_error "Unexpected message during key exchange"
       else
         h ← gets (kp_handler ∘ kex);
         match h with
         | Some h => keyexchange_handler h length data
         | None => lift (Fault NullPointer)
         end);;
      mret true
  | KEX_STATE_NEWKEYS =>
      (if negb (msg =? SSH_MSG_NEWKEYS) then transport_protocol_error "NEWKEYS expected"
       else if negb (length =? 1) then transport_protocol_error "Invalid NEWKEYS message"
       else
         modify (λ w, set_reader (transport_read_new_keys (in_reader (input w)) (kp_new_mac (kex w))
                                    (kp_new_crypto (kex w)) (kp_new_inflate (kex w))) w);;
         modify (set_new_keys None None None);;
         modify (λ w, set_kex_state (reset_kexinit_state (kp_state (kex w))) w);;
         transport_timeout TRANSPORT_TIMEOUT_REEXCHANGE Cb_transport_timeout_reexchange);;
      mret true
  | KEX_STATE_INIT =>
      handler ← gets (tc_packet_handler ∘ w_conn);
      if msg =? SSH_MSG_KEXINIT then transport_kexinit_handler length data;; mret true
      else
        match handler with
        | Some h =>
            if (msg <? SSH_FIRST_KEYEXCHANGE_GENERIC) || (SSH_FIRST_USERAUTH_GENERIC <=? msg)
            then packet_handler h seqno length data
            else p ← lift (format_unimplemented seqno); transport_send_packet PUSH (Some p);; mret true
        | None => p ← lift (format_unimplemented seqno); transport_send_packet PUSH (Some p);; mret true
        end
  end.

(** Zero if the packet should be retried later.  A pointer and a length stand
    for the octets they denote. *)
Definition transport_process_packet (seqno length : Z) : action bool :=
  if length =? 0 then transport_protocol_error "Received empty packet";; mret true
  else
    packet ← gets (in_packet ∘ input);
    let data := slice 0 length (lsh_string_data packet) in
    msg ← lift (rd data 0);
    if msg =? SSH_MSG_IGNORE then mret true
    else if msg =? SSH_MSG_UNIMPLEMENTED then transport_close false;; mret true
    else if msg =? SSH_MSG_DISCONNECT then
      _ ← lift (parse_disconnect (simple_buffer_init (length - 1) (drop 1 data)));
      transport_close false;; mret true
    else if msg =? SSH_MSG_DEBUG then mret true
    else transport_process_kex msg seqno length data.

(** The reader is used with the descriptor once per event. *)
Definition use_line_reader (fd : bool) : action transport_ret := λ w,
  '(r, k, ret) ← transport_read_line (in_reader (input w)) fd (w_os w);
  Ok (with_os (set_reader r w) k, ret).

(** An assertion that fails within a packet reader is told apart. *)
Definition in_reader_call {A} (c : result A) : result A :=
  match c with Fault AssertFailed => Fault ReaderStopped | _ => c end.

Definition use_packet_reader (fd : bool) : action transport_ret := λ w,
  '(r, k, p, ret) ← in_reader_call (transport_read_packet (in_reader (input w)) fd (w_os w) (in_packet (input w)));
  Ok (with_os (set_read_packet p (set_reader r w)) k, ret).

(** One round of the first loop of [oop_read_ssh]; whether it goes on. *)
Definition read_line_round (h : line_method) (fd : bool) : action bool :=
  status ← use_line_reader fd;
  match status with
  | TrStatus SSH_READ_EOF => transport_close false;; mret true
  | TrStatus _ => mret false
  | TrIoError _ => transport_close false;; mret true
  | TrProtocolError error msg => transport_disconnect error msg;; mret true
  | TrLine line => line_handler h line;; mret true
  | TrPacket _ _ => mret false
  end.

(** One round over packets, shared by [oop_read_ssh] and [oop_timer_retry]:
    go on, wait for input, or wait for the application. *)
Inductive round : Set := Continue | Wait | Retry.

Definition read_packet_round (fd : bool) : action round :=
  status ← use_packet_reader fd;
  match status with
  | TrIoError _ | TrStatus SSH_READ_EOF => transport_close false;; mret Continue
  | TrProtocolError error msg => transport_disconnect error msg;; mret Continue
  | TrStatus SSH_READ_PUSH => run_event TRANSPORT_EVENT_PUSH;; mret Wait
  | TrStatus SSH_READ_PENDING => mret Wait
  | TrPacket seqno length =>
      done ← transport_process_packet seqno length;
      if (done : bool) then mret Continue
      else modify (set_retry length seqno);; mret Retry
  | TrStatus _ | TrLine _ => mret Continue
  end.

(** True if the loop ended by its condition, with the descriptor not yet used
    in [fd]. *)
Fixpoint read_lines (fuel : nat) (fd : bool) : action (option bool) :=
  match fuel with
  | O => lift (Fault NonTermination)
  | S fuel =>
      h ← gets (tc_line_handler ∘ w_conn);
      n ← gets ssh_input;
      match h with
      | Some h =>
          if 0 <=? n then
            more ← read_line_round h fd;
            if (more : bool) then read_lines fuel false else mret None
          else mret (Some fd)
      | None => mret (Some fd)
      end
  end.

Fixpoint read_packets (fuel : nat) (fd : bool) : action round :=
  match fuel with
  | O => lift (Fault NonTermination)
  | S fuel =>
      n ← gets ssh_input;
      if 0 <=? n then
        r ← read_packet_round fd;
        match r with Continue => read_packets fuel false | _ => mret r end
      else mret Continue
  end.

(** Every round but the first and the last takes octets from the buffer. *)
Definition READ_ROUNDS : nat := Z.to_nat (SSH_MAX_TOTAL + 3).

Definition oop_read_ssh (fd : Z) (event : oop_event) : action () :=
  lift (c_assert (bool_decide (event = OOP_READ)));;
  n ← gets ssh_input;
  lift (c_assert (fd =? n));;
  retry ← gets (in_retry_length ∘ input);
  lift (c_assert (negb (c_true retry)));;
  r ← read_lines READ_ROUNDS (0 <=? fd);
  match r with
  | None => skip
  | Some fd =>
      r ← read_packets READ_ROUNDS fd;
      match r with
      | Retry => transport_stop_read
      | _ => skip
      end
  end.

Definition oop_timer_retry : action () :=
  live ← gets alive;
  lift (c_assert live);;
  length ← gets (in_retry_length ∘ input);
  seqno ← gets (in_retry_seqno ∘ input);
  lift (c_assert (c_true length));;
  modify (set_retry 0 0);;
  modify (set_read_active false);;
  h ← gets (tc_packet_handler ∘ w_conn);
  packet ← gets (in_packet ∘ input);
  match h with
  | None => lift (Fault NullPointer)
  | Some h =>
      done ← packet_handler h seqno length (slice 0 length (lsh_string_data packet));
      if negb (done : bool) then
        transport_disconnect SSH_DISCONNECT_BY_APPLICATION (Some "Application layer not responsive.")
      else
        r ← read_packets READ_ROUNDS false;
        match r with
        | Wait => transport_start_read
        | _ => skip
        end
  end.

(** [lsh_oop_time_callback]: the callout has run. *)
Definition transport_timer : action () :=
  e ← gets expire;
  match e with
  | None => lift (Fault NullPointer)
  | Some c =>
      lift (c_assert (co_alive c));;
      modify (set_expire (Some (do_kill_callout c)));;
      match co_action c with
      | Cb_transport_timeout_close => transport_timeout_close
      | Cb_transport_timeout_reexchange => transport_timeout_reexchange
      | Cb_transport_timeout_keyexchange => transport_timeout_keyexchange
      end
  end.

End receiving.
