(* ===== verification/TransportLogic.v ===== *)
(** * Reasoning about the transport: postconditions, invariant, contracts

    Actions are specified by weakest preconditions.  [conn_inv] is what holds
    of a connection whenever a method of the application runs; [calm] says how
    closing, sending and the methods may change a connection.  The contracts
    of the methods are the classes [AppSpec] (here), [EventsOk] ([TransportSend])
    and [HandlersOk] ([TransportProcess]). *)

From S2P Require Import Prelude Ssh Nettle Atoms Alist LshString Format FormatSpec Wire Parse Sys SshWrite SshRead Crypto Hash KexKeys Keyexchange KexSpec Encrypt TransportRead TransportSpec TransportSafe TransportWrite Io Transport.
Local Open Scope Z_scope.

(** ** Weakest preconditions *)

Section wp.
Context `{OS} `{Crypto} `{!Algorithms} `{OopSource} `{Methods}.

(** Faults satisfy [E]; [E] is empty for actions that always return. *)
Definition wp {A} (E : fault → Prop) (m : action A) (Q : A → world → Prop) (w : world) : Prop :=
  ends (m w) (λ p, Q p.2 p.1) E.

Lemma wp_ret {A} E (a : A) Q w : Q a w → wp E (mret a) Q w.
Proof. done. Qed.

Lemma wp_skip E Q w : Q () w → wp E skip Q w.
Proof. done. Qed.

Lemma wp_bind {A B} E (m : action A) (k : A → action B) Q w :
  wp E m (λ a, wp E (k a) Q) w → wp E (m ≫= k) Q w.
Proof. unfold wp, mbind, action_bind. by destruct (m w) as [[w' a] | f]. Qed.

Lemma wp_mono {A} (E F : fault → Prop) (m : action A) (P Q : A → world → Prop) w :
  wp E m P w → (∀ a w', P a w' → Q a w') → (∀ f, E f → F f) → wp F m Q w.
Proof. unfold wp. destruct (m w) as [[w' a] | f]; simpl; auto. Qed.

Lemma wp_weaken {A} E (m : action A) (P Q : A → world → Prop) w :
  wp E m P w → (∀ a w', P a w' → Q a w') → wp E m Q w.
Proof. intros Hm HQ. exact (wp_mono E E m P Q w Hm HQ (λ f Hf, Hf)). Qed.

(** Sequencing with an intermediate postcondition. *)
Lemma wp_seq {A B} E (m : action A) (k : A → action B) P Q w :
  wp E m P w → (∀ a w', P a w' → wp E (k a) Q w') → wp E (m ≫= k) Q w.
Proof. intros Hm Hk. apply wp_bind. by apply (wp_mono E E m P). Qed.

Lemma wp_gets {A B} E (f : world → A) (k : A → action B) Q w : wp E (k (f w)) Q w → wp E (gets f ≫= k) Q w.
Proof. done. Qed.

Lemma wp_modify {B} E f (k : () → action B) Q w : wp E (k ()) Q (f w) → wp E (modify f ≫= k) Q w.
Proof. done. Qed.

Lemma wp_modify_last E f (Q : () → world → Prop) w : Q () (f w) → wp E (modify f) Q w.
Proof. done. Qed.

Lemma wp_lift {A B} E (c : result A) a (k : A → action B) Q w :
  c = Ok a → wp E (k a) Q w → wp E (lift c ≫= k) Q w.
Proof. intros ->. done. Qed.

Lemma wp_assert {B} E b (k : () → action B) Q w :
  b = true → wp E (k ()) Q w → wp E (lift (c_assert b) ≫= k) Q w.
Proof. intros ->. done. Qed.

Lemma wp_when {B} E b (m : action ()) (k : () → action B) Q w :
  (b = true → wp E m (λ _, wp E (k ()) Q) w) → (b = false → wp E (k ()) Q w) →
  wp E (when b m ≫= k) Q w.
Proof.
  intros Ht Hf. apply wp_bind. destruct b; simpl; [| by apply Hf].
  apply (wp_mono E E m (λ _, wp E (k ()) Q)); [by apply Ht | by intros [] | done].
Qed.

Lemma wp_when_last E b (m : action ()) Q w :
  (b = true → wp E m Q w) → (b = false → Q () w) → wp E (when b m) Q w.
Proof. destruct b; simpl; [intros Ht _; by apply Ht | intros _ Hf; by apply Hf]. Qed.

Lemma wp_assoc {A B C} E (m : action A) (k : A → action B) (h : B → action C) Q w :
  wp E (m ≫= λ a, k a ≫= h) Q w → wp E ((m ≫= k) ≫= h) Q w.
Proof. unfold wp, mbind, action_bind. by destruct (m w) as [[w' a] | f]. Qed.

End wp.

Definition nofault : fault → Prop := λ _, False.

(** Pure steps. *)
Ltac wp_step :=
  first [ apply wp_gets | apply wp_modify | apply wp_assoc | apply wp_modify_last | apply wp_ret | apply wp_skip ]; cbv beta.
Ltac wp_steps := repeat wp_step.

(** ** The invariant of a connection *)

Section inv.
Context `{MallocOk} `{NettleMacrosOk} `{NettleBignumOk} `{AtomTableOk} `{OSOk} `{OopSourceOk} `{CryptoOk} `{!Algorithms} `{!AlgorithmsOk} `{HashFunctionsOk} `{Methods}.

(** What the application promises about its own fields and its methods. *)
Class AppSpec := {
  (** Whenever a method runs, for the event and packet handlers in use. *)
  app_ok : transport_context → event_method → option packet_method → application → Prop;
  (** As long as the connection is open. *)
  app_open : event_method → application → Prop;
  (** After the connection was closed. *)
  app_stopped : application → Prop;
  (** Between the events. *)
  app_ready : application → Prop;
  app_stopped_ready a : app_stopped a → app_ready a;
  (** What sending and closing leave alone. *)
  app_same : relation application;
  app_same_preorder : PreOrder app_same;
  (** The descriptors it uses, two at most. *)
  app_fds : application → list Z;
  app_fds_few a : lenZ (app_fds a) <= 2;
  (** Its own callbacks. *)
  app_io : (Z → oop_event → option callback) → application → Prop;
  app_io_stable f f' a :
    (∀ fd ev cb, f' fd ev = Some cb → cb ≠ Cb_oop_read_ssh → cb ≠ Cb_oop_write_ssh → f fd ev = Some cb) →
    app_io f a → app_io f' a;
  (** Packet handlers that may ask for a retry. *)
  app_waits : packet_method → Prop;
  kex_method_ok : kex_method → Prop;
}.

Context `{!AppSpec}.

Definition reads (w : world) (fd : Z) : Prop := fd_callback (io_oop (w_io w)) fd OOP_READ = Some Cb_oop_read_ssh.
Definition writes (w : world) (fd : Z) : Prop := fd_callback (io_oop (w_io w)) fd OOP_WRITE = Some Cb_oop_write_ssh.
Definition retries (w : world) : Prop := time_callback (io_oop (w_io w)) Cb_oop_timer_retry = true.

(** The descriptors of the connection among the files in use. *)
Definition open_files (w : world) : Z :=
  (if decide (0 <= ssh_output w) then 1 else 0)
  + (if decide (0 <= ssh_input w ∧ ssh_input w ≠ ssh_output w) then 1 else 0).

(** No live timer that would start a new key exchange. *)
Definition quiet (e : option callout) : Prop :=
  ∀ c, e = Some c → co_alive c = true → co_action c ≠ Cb_transport_timeout_reexchange.

(** Files counted by [io.c]; the application may register two more. *)
Definition files_ok (w : world) : Prop :=
  open_files w + lenZ (app_fds (w_app w)) <= io_nfiles (w_io w)
  ∧ io_nfiles (w_io w) - lenZ (app_fds (w_app w)) < 2 ^ 32 - 2.

(** What the destructor may rely on: the output may be closed already. *)
Record conn_base (w : world) : Prop := {
  cb_open : 0 <= ssh_input w → alive w = true ∧ closing w = 0;
  cb_input : -1 <= ssh_input w;
  cb_files : files_ok w;
  cb_apart : ∀ fd, fd ∈ app_fds (w_app w) → 0 <= fd ∧ fd ≠ ssh_input w ∧ fd ≠ ssh_output w;
  cb_closing : closing w = 0 ∨ closing w = 1;
  cb_writes : ∀ fd, writes w fd → fd = ssh_output w ∧ 0 <= fd ∧ alive w = true ∧ out_active (output w) = true;
  cb_timer : ssh_input w < 0 → quiet (expire w);
  cb_app : app_ok (ctx w) (tc_event_handler (w_conn w)) (tc_packet_handler (w_conn w)) (w_app w);
  cb_session : kp_session_id (kex w) = None → tc_packet_handler (w_conn w) = None;
  cb_retry : retries w → alive w = true;
  cb_io : app_io (fd_callback (io_oop (w_io w))) (w_app w);
}.

(** In the middle of closing. *)
Record conn_mid (w : world) : Prop := {
  cm_base :> conn_base w;
  ci_output : alive w = true → 0 <= ssh_output w;
  ci_active : alive w = true → out_active (output w) = true → writes w (ssh_output w);
}.

Record conn_live (w : world) : Prop := {
  cl_mid :> conn_mid w;
  ci_open : alive w = true → closing w = 0 → 0 <= ssh_input w;
  ci_running : 0 <= ssh_input w → app_open (tc_event_handler (w_conn w)) (w_app w);
  ci_stopped : alive w = true → ssh_input w < 0 → app_stopped (w_app w);
}.

(** A write that overflowed may leave the writer in disorder. *)
Record conn_inv (w : world) : Prop := {
  ci_live :> conn_live w;
  ci_writer : alive w = true → twrite_wf (out_writer (output w));
}.

(** The packet handler may let a packet wait. *)
Definition waits (w : world) : Prop := ∃ h, tc_packet_handler (w_conn w) = Some h ∧ app_waits h.

(** What no method and no operation does, except reading itself: packets and
    buffered input stay, nothing starts to read. *)
Record steady (w w' : world) : Prop := {
  st_ctx : ctx w' = ctx w;
  st_super : tr_super (in_reader (input w')) = tr_super (in_reader (input w));
  st_packet : in_packet (input w') = in_packet (input w);
  st_retry : in_retry_length (input w') = in_retry_length (input w);
  st_retry_seqno : in_retry_seqno (input w') = in_retry_seqno (input w);
  st_input : ssh_input w' = ssh_input w ∨ ssh_input w' = -1;
  st_output : ssh_output w' = ssh_output w ∨ ssh_output w' = -1;
  st_alive : alive w' = true → alive w = true;
  st_reads : ∀ fd, reads w' fd → reads w fd;
  st_retries : retries w' → retries w;
  st_handler : waits w → waits w';
  st_app : app_ready (w_app w) → app_ready (w_app w');
  st_line : tc_line_handler (w_conn w) = None → tc_line_handler (w_conn w') = None;
}.

(** In addition reader and line handler are left alone. *)
Record kex_moved (w w' : world) : Prop := {
  km_steady :> steady w w';
  km_reader : in_reader (input w') = in_reader (input w);
  km_line : tc_line_handler (w_conn w') = tc_line_handler (w_conn w);
  km_expire : expire w' = expire w ∨ quiet (expire w');
}.

(** Key exchange and the handlers are left alone, too, and a connection that dies stops the application. *)
Record calm (w w' : world) : Prop := {
  cm_moved :> kex_moved w w';
  cm_kex : kex w' = kex w;
  cm_packet : tc_packet_handler (w_conn w') = tc_packet_handler (w_conn w);
  cm_event : tc_event_handler (w_conn w') = tc_event_handler (w_conn w);
  cm_app : app_same (w_app w) (w_app w');
  cm_stopped : app_stopped (w_app w) ∨ alive w = true ∧ alive w' = false → app_stopped (w_app w');
}.

#[global] Instance steady_preorder : PreOrder steady.
Proof.
  split.
  - intros w. split; auto.
  - intros w1 w2 w3 [] []. split; try congruence; auto.
    + destruct st_input1, st_input0; (left; congruence) || (right; congruence).
    + destruct st_output1, st_output0; (left; congruence) || (right; congruence).
Qed.

#[global] Instance kex_moved_preorder : PreOrder kex_moved.
Proof.
  split; [intros w; split; auto; reflexivity |]. intros w1 w2 w3 [] [? ? ? He]. split; try congruence; [by transitivity w2 |].
  destruct He as [-> |]; auto.
Qed.

#[global] Instance calm_preorder : PreOrder calm.
Proof.
  split.
  - intros w. split; try done; [apply app_same_preorder |]. intros [| [? ?]]; congruence.
  - intros w1 w2 w3 [Hm1 ? ? ? ? Hs1] [Hm2 ? ? ? ? Hs2]. split; try congruence; [by transitivity w2 | |].
    { by eapply (PreOrder_Transitive (PreOrder := app_same_preorder)). }
    intros [Hst | [Ha Hd]]; [auto |]. apply Hs2. destruct (alive w2); auto.
Qed.

Lemma cm_reader w w' : calm w w' → in_reader (input w') = in_reader (input w).
Proof. intros Hc. apply (km_reader _ _ Hc). Qed.

Lemma cm_line w w' : calm w w' → tc_line_handler (w_conn w') = tc_line_handler (w_conn w).
Proof. intros Hc. apply (km_line _ _ Hc). Qed.

Lemma cm_expire w w' : calm w w' → expire w' = expire w ∨ quiet (expire w').
Proof. intros Hc. apply (km_expire _ _ Hc). Qed.

(** Only the connection changed, in fields that do not matter here. *)
Lemma calm_intro w w' :
  kex_moved w w' → kex w' = kex w → tc_packet_handler (w_conn w') = tc_packet_handler (w_conn w) →
  tc_event_handler (w_conn w') = tc_event_handler (w_conn w) → w_app w' = w_app w → alive w' = alive w → calm w w'.
Proof.
  intros Hm Hk Hp He Ha Hl. split; try done; [rewrite Ha; apply app_same_preorder |]. rewrite Ha, Hl. intros [| [? ?]]; congruence.
Qed.

(** The fields that the invariant is about. *)
Record same_conn (w w' : world) : Prop := {
  sc_ctx : ctx w' = ctx w;
  sc_alive : alive w' = alive w;
  sc_closing : closing w' = closing w;
  sc_input : ssh_input w' = ssh_input w;
  sc_output : output w' = output w;
  sc_io : w_io w' = w_io w;
  sc_app : w_app w' = w_app w;
  sc_event : tc_event_handler (w_conn w') = tc_event_handler (w_conn w);
  sc_packet : tc_packet_handler (w_conn w') = tc_packet_handler (w_conn w);
  sc_expire : expire w' = expire w;
  sc_session : kp_session_id (kex w') = None → kp_session_id (kex w) = None;
}.

Lemma same_conn_live w w' : same_conn w w' → conn_live w → conn_live w'.
Proof.
  intros [E1 E2 E3 E4 E5 E6 E7 E8 E9 E10 E11] [[[] ? ?] ? ? ?].
  split; [split; [split | |] | | |]; unfold files_ok, open_files, ssh_output, writes, retries in *;
    rewrite ?E1, ?E2, ?E3, ?E4, ?E5, ?E6, ?E7, ?E8, ?E9, ?E10; auto.
Qed.

Lemma same_conn_inv w w' : same_conn w w' → conn_inv w → conn_inv w'.
Proof.
  intros Hs [Hl Hw]. split; [by apply (same_conn_live w) |]. by rewrite (sc_alive _ _ Hs), (sc_output _ _ Hs).
Qed.

(** Changing only the timer. *)
Lemma set_expire_inv e w : conn_inv w → (ssh_input w < 0 → quiet e) → conn_inv (set_expire e w).
Proof. intros [[[[] ? ?] ? ? ?] ?] He. split; [split; [split; [by split | done | done] | done | done | done] | done]. Qed.

Lemma set_expire_mid e w : conn_mid w → (ssh_input w < 0 → quiet e) → conn_mid (set_expire e w).
Proof. intros [[] ? ?] He. split; [by split | done | done]. Qed.

Lemma set_expire_calm e w : quiet e → calm w (set_expire e w).
Proof. intros He. apply calm_intro; try done. split; [by split; auto | done | done | by right]. Qed.

Lemma killed_quiet e : quiet (do_kill_callout <$> e).
Proof. intros c Hc. destruct e as [c' |]; [by simplify_eq/= | done]. Qed.

Lemma close_fd_wp E fd Q w :
  (0 <= fd → 0 < io_nfiles (w_io w) < 2 ^ 32) →
  (∀ s, io_nfiles s = (if decide (0 <= fd) then io_nfiles (w_io w) - 1 else io_nfiles (w_io w)) →
        (∀ fd' ev, fd_callback (io_oop s) fd' ev
           = if decide (0 <= fd ∧ fd = fd') then None else fd_callback (io_oop (w_io w)) fd' ev) →
        (∀ cb, cb ≠ Cb_lsh_oop_stop_callback → time_callback (io_oop s) cb = time_callback (io_oop (w_io w)) cb) →
        Q () (with_io w s)) →
  wp E (close_fd fd) Q w.
Proof.
  intros Hn HQ. destruct (io_close_fd_spec (w_io w) fd Hn) as (s & Hs & Hnf & Hfd & Ht).
  unfold wp, close_fd. rewrite Hs. simpl. by apply HQ.
Qed.

(** Only the event loop changed, and only by dropping callbacks. *)
Lemma with_io_steady w s :
  (∀ fd, fd_callback (io_oop s) fd OOP_READ = Some Cb_oop_read_ssh → reads w fd) →
  (time_callback (io_oop s) Cb_oop_timer_retry = true → retries w) →
  steady w (with_io w s).
Proof. intros Hr Ht. split; auto. Qed.

Lemma with_io_calm w s :
  (∀ fd, fd_callback (io_oop s) fd OOP_READ = Some Cb_oop_read_ssh → reads w fd) →
  (time_callback (io_oop s) Cb_oop_timer_retry = true → retries w) →
  calm w (with_io w s).
Proof. intros Hr Ht. apply calm_intro; try done. split; [by apply with_io_steady | by auto..]. Qed.

Lemma set_ssh_input_calm w : calm w (set_ssh_input (-1) w).
Proof. apply calm_intro; try done. split; [split; auto | by auto..]. Qed.

Lemma set_ssh_output_calm w : calm w (set_ssh_output (-1) w).
Proof. apply calm_intro; try done. split; [split; auto | by auto..]. Qed.

(** The first half of [transport_close]. *)
Lemma close_input_wp {B} E (k : action B) Q w :
  conn_mid w → quiet (expire w) →
  (∀ w', conn_mid w' → calm w w' → ssh_input w' = -1 → w_app w' = w_app w → output w' = output w → wp E k Q w') →
  wp E (when (negb (ssh_input w =? ssh_output w)) (close_fd (ssh_input w));;
        modify (set_ssh_input (-1));; k) Q w.
Proof.
  intros Hinv Hq Hk. pose proof Hinv as [[Hopen Hrange [Hlo Hhi] Hap Hcl Hws Htm Happ Hses Hret Hio] Hout Hact].
  pose proof (lenZ_nonneg (app_fds (w_app w))) as Hf0. pose proof (app_fds_few (w_app w)) as Hf2.
  assert (∀ s, io_nfiles (w_io w) - (if decide (0 <= ssh_input w ∧ ssh_input w ≠ ssh_output w) then 1 else 0)
                 <= io_nfiles s <= io_nfiles (w_io w) →
    (∀ fd ev, fd_callback (io_oop s) fd ev
       = if decide (0 <= ssh_input w ∧ ssh_input w ≠ ssh_output w ∧ ssh_input w = fd) then None
         else fd_callback (io_oop (w_io w)) fd ev) →
    (time_callback (io_oop s) Cb_oop_timer_retry = true → retries w) →
    wp E k Q (set_ssh_input (-1) (with_io w s))) as Hgo.
  { intros s Hnf Hfd Ht. assert (calm w (set_ssh_input (-1) (with_io w s))) as Hcalm.
    { transitivity (with_io w s); [| apply set_ssh_input_calm]. apply with_io_calm; [| done].
      intros fd Hr. rewrite Hfd in Hr. by case_decide. }
    apply Hk; try done. split; [split | |].
    - intros Hx. change (0 <= -1) in Hx. lia.
    - change (-1 <= -1). lia.
    - unfold open_files in Hlo. unfold files_ok. change (open_files (set_ssh_input (-1) (with_io w s)))
        with ((if decide (0 <= ssh_output w) then 1 else 0) + (if decide (0 <= -1 ∧ -1 ≠ ssh_output w) then 1 else 0)).
      change (w_io (set_ssh_input (-1) (with_io w s))) with s.
      change (w_app (set_ssh_input (-1) (with_io w s))) with (w_app w).
      rewrite (decide_False (P := 0 <= -1 ∧ _)) by lia. repeat case_decide; lia.
    - intros fd Hx. destruct (Hap fd Hx) as (? & _ & ?). split_and!; [done | | done].
      change (fd ≠ -1). lia.
    - exact Hcl.
    - intros fd Hw. unfold writes in Hw. change (w_io (set_ssh_input (-1) (with_io w s))) with s in Hw.
      rewrite Hfd in Hw. case_decide; [done |]. by apply Hws.
    - intros _. exact Hq.
    - exact Happ.
    - exact Hses.
    - intros Hr. by apply Hret, Ht.
    - change (app_io (fd_callback (io_oop s)) (w_app w)). apply (app_io_stable (fd_callback (io_oop (w_io w)))); [| done].
      intros fd ev cb Hcb _ _. rewrite Hfd in Hcb. by case_decide.
    - exact Hout.
    - intros Ha Hac. unfold writes. change (w_io (set_ssh_input (-1) (with_io w s))) with s.
      rewrite Hfd. change (ssh_output (set_ssh_input (-1) (with_io w s))) with (ssh_output w).
      rewrite decide_False by lia. by apply Hact. }
  unfold open_files in Hlo. apply wp_when; intros Hne.
  - apply negb_true_iff, Z.eqb_neq in Hne. apply close_fd_wp.
    + intros Hfd. repeat case_decide; lia.
    + intros s Hnf Hfd Ht. wp_steps. apply Hgo.
      * rewrite Hnf. repeat case_decide; lia.
      * intros fd ev. rewrite Hfd. destruct (decide (0 <= ssh_input w ∧ ssh_input w = fd)) as [[? ?] | Hn].
        -- by rewrite decide_True.
        -- rewrite decide_False; [done |]. intros (? & _ & ?). by apply Hn.
      * unfold retries. by rewrite Ht.
  - wp_steps. apply negb_false_iff, Z.eqb_eq in Hne. destruct w as [c s k' a]. apply (Hgo s).
    + simpl. repeat case_decide; lia.
    + intros fd ev. rewrite decide_False; [done |]. intros (_ & Hn & _). by apply Hn.
    + done.
Qed.

(** The second half, without flushing. *)
Lemma close_output_wp E Q (k : action ()) w :
  conn_mid w → ssh_input w = -1 →
  (∀ w', conn_base w' → calm w w' → ssh_input w' = -1 → alive w' = alive w → wp E k Q w') →
  wp E (close_fd (ssh_output w);; modify (set_ssh_output (-1));; k) Q w.
Proof.
  intros Hinv Hin Hk. pose proof Hinv as [[Hopen Hrange [Hlo Hhi] Hap Hcl Hws Htm Happ Hses Hret Hio] Hout Hact].
  pose proof (lenZ_nonneg (app_fds (w_app w))) as Hf0. pose proof (app_fds_few (w_app w)) as Hf2.
  unfold open_files in Hlo. rewrite (decide_False (P := 0 <= ssh_input w ∧ _)) in Hlo by lia.
  apply wp_bind, close_fd_wp; [intros; case_decide; lia |]. intros s Hnf Hfd Ht. wp_steps. apply Hk; try done.
  - split; try done.
    + unfold files_ok. change (open_files (set_ssh_output (-1) (with_io w s)))
        with ((if decide (0 <= -1) then 1 else 0) + (if decide (0 <= ssh_input w ∧ ssh_input w ≠ -1) then 1 else 0)).
      change (w_io (set_ssh_output (-1) (with_io w s))) with s.
      change (w_app (set_ssh_output (-1) (with_io w s))) with (w_app w).
      rewrite !decide_False by lia. rewrite Hnf. case_decide; lia.
    + intros fd Hx. destruct (Hap fd Hx) as (? & ? & _). split_and!; [done | done |]. change (fd ≠ -1). lia.
    + intros fd Hw. unfold writes in Hw. change (w_io (set_ssh_output (-1) (with_io w s))) with s in Hw.
      rewrite Hfd in Hw. case_decide; [done |].
      destruct (Hws fd Hw) as (-> & ? & _). tauto.
    + intros Hr. apply Hret. unfold retries in *. simpl in Hr. by rewrite Ht in Hr.
    + change (app_io (fd_callback (io_oop s)) (w_app w)). apply (app_io_stable (fd_callback (io_oop (w_io w)))); [| done].
      intros fd ev cb Hcb _ _. rewrite Hfd in Hcb. by case_decide.
  - transitivity (with_io w s); [| apply set_ssh_output_calm]. apply with_io_calm.
    + intros fd Hr. rewrite Hfd in Hr. by case_decide.
    + unfold retries. by rewrite Ht.
Qed.

End inv.
