(* ===== verification/TransportSend.v ===== *)
(** * Closing, sending and writing ([src/src/transport.c])

    The contract of the application's event handler and destructor, and what
    closing, disconnecting, sending and the write callback do under it: they
    always return, keep the invariant and are [calm]. *)

From S2P Require Import Prelude Ssh Nettle Atoms Alist LshString Format FormatSpec Wire Parse Sys SshWrite SshRead Crypto Hash KexKeys Keyexchange KexSpec Encrypt TransportRead TransportSpec TransportSafe TransportWrite Io Transport TransportLogic.
Local Open Scope Z_scope.

Section send.
Context `{MallocOk} `{NettleMacrosOk} `{NettleBignumOk} `{AtomTableOk} `{OSOk} `{OopSourceOk} `{CryptoOk} `{!Algorithms} `{!AlgorithmsOk} `{HashFunctionsOk} `{Methods} `{!AppSpec} `{!Events}.

(** The usual postconditions.  Sending leaves the connection as it is, or
    kills it. *)
Definition settled (w : world) {A} (_ : A) (w' : world) : Prop :=
  calm w w' ∧ conn_inv w' ∧ (alive w' = true → ssh_input w' = ssh_input w).
Definition closed (w : world) {A} (_ : A) (w' : world) : Prop := calm w w' ∧ conn_inv w' ∧ ssh_input w' = -1.

(** Installing handlers. *)
Definition replaced (w w' : world) : Prop := kex_moved w w' ∧ kex w' = kex w ∧ conn_inv w'.

Class EventsOk : Prop := {
  event_handler_ok h e w :
    e = TRANSPORT_EVENT_START_APPLICATION ∨ e = TRANSPORT_EVENT_STOP_APPLICATION →
    conn_inv w → tc_event_handler (w_conn w) = h → wp nofault (event_handler h e) (settled w) w;
  close_event_ok h w :
    conn_mid w → tc_event_handler (w_conn w) = h → app_open h (w_app w) →
    wp nofault (event_handler h TRANSPORT_EVENT_CLOSE)
      (λ _ w', calm w w' ∧ conn_mid w' ∧ app_stopped (w_app w') ∧ output w' = output w) w;
  complete_event_ok h w :
    conn_inv w → tc_event_handler (w_conn w) = h → tc_packet_handler (w_conn w) = None →
    is_Some (kp_session_id (kex w)) →
    wp nofault (event_handler h TRANSPORT_EVENT_KEYEXCHANGE_COMPLETE) (λ _, replaced w) w;
  kill_connection_ok w :
    conn_base w → wp nofault kill_connection (λ _ w', calm w w' ∧ conn_inv w' ∧ alive w' = false) w;
}.

Context `{!EventsOk}.

Lemma run_event_wp e w :
  e = TRANSPORT_EVENT_START_APPLICATION ∨ e = TRANSPORT_EVENT_STOP_APPLICATION →
  conn_inv w → wp nofault (run_event e) (settled w) w.
Proof. intros He Hi. unfold run_event. wp_steps. by apply event_handler_ok. Qed.

Lemma settled_refl {A} w (a : A) : conn_inv w → settled w a w.
Proof. intros Hi. split; [done | by split]. Qed.

Lemma settled_intro {A} w (a : A) w' : calm w w' → conn_inv w' → ssh_input w' = ssh_input w → settled w a w'.
Proof. intros Hc Hi Hs. split; [done | by split]. Qed.

Lemma killed_settled {A} w (a : A) w' : calm w w' → conn_inv w' → alive w' = false → settled w a w'.
Proof. intros Hc Hi Ha. split; [done |]. split; [done | congruence]. Qed.

Lemma calm_closed {A} w w1 (a : A) w2 : calm w w1 → closed w1 a w2 → closed w a w2.
Proof. intros Hc (Hc2 & Hi & Hin). split_and!; [by transitivity w1 | done | done]. Qed.

Lemma settled_settled {A B} w (b : B) w1 (a : A) w2 : settled w b w1 → settled w1 a w2 → settled w a w2.
Proof.
  intros (Hc1 & Hi1 & Hs1) (Hc2 & Hi2 & Hs2). split; [by transitivity w1 |]. split; [done |].
  intros Ha. rewrite Hs2 by done. apply Hs1. by apply (st_alive _ _ Hc2).
Qed.

Lemma input_gone w w' : calm w w' → ssh_input w = -1 → ssh_input w' = -1.
Proof. intros Hc Hin. destruct (st_input _ _ Hc); congruence. Qed.

Lemma transport_timeout_wp seconds f w :
  conn_inv w → f ≠ Cb_transport_timeout_reexchange →
  wp nofault (transport_timeout seconds f)
    (λ _ w', calm w w' ∧ conn_inv w' ∧ quiet (expire w') ∧ ssh_input w' = ssh_input w) w.
Proof.
  intros Hi Hf. unfold transport_timeout, kill_expire. wp_steps.
  assert (quiet (Some (mk_callout f seconds true))) as Hq by (intros c [= <-] _ ?; by apply Hf).
  refine (conj _ (conj _ (conj Hq eq_refl))).
  - transitivity (set_expire (do_kill_callout <$> expire w) w); apply set_expire_calm; [apply killed_quiet | done].
  - apply set_expire_inv; [apply set_expire_inv; [done | intros _; apply killed_quiet] | done].
Qed.

(** Without flushing the connection is dead afterwards. *)
Lemma transport_close_wp flush w :
  conn_live w → (flush = false ∧ closing w = 0 ∨ conn_inv w) →
  wp nofault (transport_close flush)
    (λ a w', closed w a w' ∧ (flush = false → alive w' = true → ssh_input w' = ssh_input w)) w.
Proof.
  intros Hi Hw. unfold transport_close. wp_steps. apply wp_when_last; intros Hlive.
  2: { assert (conn_inv w) as Hi'.
       { destruct Hw as [[_ Hz] |]; [| done]. split; [done |]. rewrite Hz, andb_true_r in Hlive. congruence. }
       split; [| done]. split; [done |]. split; [done |]. pose proof (cb_open _ Hi) as Hopen. pose proof (cb_input _ Hi).
       apply andb_false_iff in Hlive. destruct (Z.le_gt_cases 0 (ssh_input w)) as [Hge |]; [| lia].
       destruct (Hopen Hge) as [Ha Hc]. rewrite Ha, Hc in Hlive. by destruct Hlive. }
  apply andb_true_iff in Hlive as [Ha Hc]. apply Z.eqb_eq in Hc.
  unfold run_event. wp_steps. eapply wp_seq; [apply close_event_ok; [apply Hi | done | by apply (ci_running _ Hi), (ci_open _ Hi)] |].
  intros [] w1 (Hc1 & Hi1 & Hst1 & Ho1). unfold kill_expire. wp_steps.
  set (w2 := set_expire None (set_expire (do_kill_callout <$> expire w1) w1)).
  assert (calm w w2) as Hc2.
  { transitivity w1; [done |]. transitivity (set_expire (do_kill_callout <$> expire w1) w1);
      apply set_expire_calm; [apply killed_quiet | done]. }
  assert (conn_mid w2) as Hi2 by (apply set_expire_mid; [apply set_expire_mid; [done | intros _; apply killed_quiet] | done]).
  apply close_input_wp; [done | done |]. intros w3 Hi3 Hc3 Hin3 Ha3 Ho3. wp_steps.
  assert (calm w w3) as Hc3' by (by transitivity w2).
  destruct flush; cbn [andb]; [destruct ((out_active ∘ output) w3) |].
  - wp_step. set (w4 := set_closing 1 w3).
    assert (conn_inv w4) as Hi4.
    { destruct Hw as [[? _] | Hw]; [done |].
      destruct Hi3 as [[Hopen Hrange Hf Hap Hcl Hws Htm Happ Hses Hret Hio] Hout Hact].
      split; [split; [split; [split | |] | | |] |]; try done.
      - intros Hx. change (0 <= ssh_input w3) in Hx. lia.
      - by right.
      - intros Hx. change (0 <= ssh_input w3) in Hx. lia.
      - intros _ _. change (app_stopped (w_app w3)). by rewrite Ha3.
      - intros _. change (output w4) with (output w3). rewrite Ho3. change (output w2) with (output w1). rewrite Ho1.
        by apply (ci_writer _ Hw). }
    assert (calm w3 w4) as Hc4 by (apply calm_intro; [split; [by split; auto | by auto..] | done..]).
    eapply wp_weaken; [by apply transport_timeout_wp |]. intros [] w5 (Hc5 & Hi5 & _ & Hin5). split; [| done].
    split_and!; [| done | by rewrite Hin5]. transitivity w3; [done |]. by transitivity w4.
  - apply close_output_wp; [done | done |]. intros w4 Hb4 Hc4 Hin4 Ha4.
    eapply wp_weaken; [by apply kill_connection_ok |]. intros [] w5 (Hc5 & Hi5 & _). simpl. split; [| done].
    split_and!; [| done | by apply (input_gone w4)]. transitivity w3; [done |]. by transitivity w4.
  - apply close_output_wp; [done | done |]. intros w4 Hb4 Hc4 Hin4 Ha4.
    eapply wp_weaken; [by apply kill_connection_ok |]. intros [] w5 (Hc5 & Hi5 & Hd). simpl. split; [| congruence].
    split_and!; [| done | by apply (input_gone w4)]. transitivity w3; [done |]. by transitivity w4.
Qed.

(** After an overflow. *)
Lemma abort_settled w : conn_live w → closing w = 0 → wp nofault (transport_close false) (settled w) w.
Proof.
  intros Hi Hz. eapply wp_weaken; [apply transport_close_wp; [done | by left] |].
  intros [] w' [(Hc & Hi' & _) Hs]. split; [done |]. split; auto.
Qed.

Lemma close_settled w : conn_inv w → wp nofault (transport_close false) (settled w) w.
Proof.
  intros Hi. eapply wp_weaken; [apply transport_close_wp; [apply Hi | by right] |].
  intros [] w' [(Hc & Hi' & _) Hs]. split; [done |]. split; auto.
Qed.

Lemma close_closed flush w : conn_inv w → wp nofault (transport_close flush) (closed w) w.
Proof. intros Hi. eapply wp_weaken; [apply transport_close_wp; [apply Hi | by right] |]. by intros [] w' [Hc _]. Qed.

Lemma calm_set_write_active b w : calm w (set_write_active b w).
Proof. apply calm_intro; [split; [split; auto | by auto..] | done..]. Qed.

Lemma oop_do_steady f w :
  (∀ fd, fd_callback (f (io_oop (w_io w))) fd OOP_READ = Some Cb_oop_read_ssh → reads w fd) →
  (time_callback (f (io_oop (w_io w))) Cb_oop_timer_retry = true → retries w) →
  calm w (with_io w (mk_io (f (io_oop (w_io w))) (io_nfiles (w_io w)))).
Proof. intros Hr Ht. by apply with_io_calm. Qed.

Lemma transport_start_write_wp w :
  conn_inv w → alive w = true → wp nofault transport_start_write (settled w) w.
Proof.
  intros Hi Ha. unfold transport_start_write, oop_do. wp_steps.
  apply (wp_seq _ _ _ (settled w)).
  - apply wp_when_last; [| intros _; by apply settled_refl]. intros Hna. wp_steps. apply negb_true_iff in Hna.
    destruct Hi as [[[[Hopen Hrange Hf Hap Hcl Hws Htm Happ Hses Hret Hio] Hout Hact] Hop Hrun Hstp] Hwr]. specialize (Hout Ha).
    set (w1 := set_write_active true w).
    apply settled_intro; [| | done].
    + transitivity w1; [apply calm_set_write_active |]. apply with_io_calm.
      * intros fd. simpl. rewrite on_fd_ok. case_decide; [naive_solver | done].
      * unfold retries. simpl. by rewrite on_fd_time.
    + split; [split; [split; [split | |] | | |] |]; try done.
      * intros fd. unfold writes. simpl. rewrite on_fd_ok. change (ssh_output w1) with (ssh_output w).
        case_decide as Hd; [by destruct Hd as [<- _] |]. intros Hw. by destruct (Hws fd Hw) as (-> & _).
      * apply (app_io_stable (fd_callback (io_oop (w_io w)))); [| done].
        intros fd ev cb. simpl. rewrite on_fd_ok. case_decide; [congruence | done].
      * intros _ _. unfold writes. simpl. rewrite on_fd_ok. by rewrite decide_True.
  - intros [] w1 Hs1. wp_steps. apply wp_when_last; [| done].
    intros _. eapply wp_weaken; [apply run_event_wp, Hs1; by right |]. intros [] w'. by apply (settled_settled w () w1).
Qed.

Lemma transport_stop_write_wp w : conn_inv w → wp nofault transport_stop_write (settled w) w.
Proof.
  intros Hi. unfold transport_stop_write, oop_do. wp_steps. apply wp_when_last; [| intros _; by apply settled_refl]. intros Hac.
  wp_steps. set (w1 := set_write_active false w).
  change (ssh_output w1) with (ssh_output w). change (w_io w1) with (w_io w).
  set (w2 := with_io w1 _).
  pose proof Hi as [[[[Hopen Hrange Hf Hap Hcl Hws Htm Happ Hses Hret Hio] Hout Hact] Hop Hrun Hstp] Hwr].
  assert (∀ fd, ¬ writes w2 fd) as Hno.
  { intros fd Hw. unfold writes in Hw. simpl in Hw. rewrite cancel_fd_ok in Hw. case_decide as Hd; [done |].
    destruct (Hws fd Hw) as (-> & _). tauto. }
  assert (conn_inv w2) as Hi2.
  { split; [split; [split; [split | |] | | |] |]; try done; [intros fd Hw; by destruct (Hno fd) | |].
    - unfold retries. simpl. rewrite cancel_fd_time. done.
    - apply (app_io_stable (fd_callback (io_oop (w_io w)))); [| done].
      intros fd ev cb. simpl. rewrite cancel_fd_ok. by case_decide. }
  assert (calm w w2) as Hc2.
  { transitivity w1; [apply calm_set_write_active |]. apply with_io_calm.
    - intros fd. simpl. rewrite cancel_fd_ok. case_decide; [naive_solver | done].
    - unfold retries. simpl. by rewrite cancel_fd_time. }
  change (closing w2) with (closing w). unfold c_true. destruct (Z.eqb_spec (closing w) 0) as [Hz | Hnz]; simpl negb; cbv iota.
  - assert (settled w () w2) as Hs2 by by apply settled_intro.
    wp_steps. apply wp_when_last; [| done]. intros _.
    eapply wp_weaken; [apply run_event_wp; [by left | done] |]. intros [] w'. by apply (settled_settled w () w2).
  - assert (closing w = 1) as -> by (destruct Hcl; lia). change (u32 (1 - 1)) with 0. wp_steps. simpl when.
    assert (ssh_input w = -1) as Hin.
    { destruct (Z.le_gt_cases 0 (ssh_input w)) as [Hge |]; [| lia]. by destruct (Hopen Hge). }
    set (w3 := set_closing 0 (set_ssh_output (-1) w2)).
    assert (conn_base w3) as Hb3.
    { split; try done.
      - intros Hx. change (0 <= ssh_input w) in Hx. lia.
      - unfold files_ok. change (open_files w3) with ((if decide (0 <= -1) then 1 else 0) + (if decide (0 <= ssh_input w ∧ ssh_input w ≠ -1) then 1 else 0)).
        change (w_io w3) with (w_io w2). change (w_app w3) with (w_app w). simpl io_nfiles. rewrite !decide_False by lia.
        unfold files_ok, open_files in Hf. repeat case_decide; lia.
      - intros fd Hx. destruct (Hap fd Hx) as (? & ? & _). split_and!; [done | done |]. change (fd ≠ -1). lia.
      - by left.
      - intros fd Hw. by destruct (Hno fd).
      - exact (cb_retry _ Hi2).
      - exact (cb_io _ Hi2). }
    assert (calm w2 w3) as Hc3.
    { transitivity (set_ssh_output (-1) w2); [apply set_ssh_output_calm |].
      apply calm_intro; [split; [by split; auto | by auto..] | done..]. }
    eapply wp_weaken; [by apply kill_connection_ok |]. intros [] w4 (Hc4 & Hi4 & Hd4).
    apply killed_settled; [| done | done]. transitivity w2; [done |]. by transitivity w3.
Qed.

(** ** Using the writer *)

Lemma set_writer_inv s w : conn_inv w → (alive w = true → twrite_wf s) → conn_inv (set_writer s w).
Proof. intros [[[[] ? ?] ? ? ?] ?] Hs. split; [split; [split; [by split | done | done] | done | done | done] | done]. Qed.

Lemma set_writer_calm s w : calm w (set_writer s w).
Proof. apply calm_intro; [split; [split; auto | by auto..] | done..]. Qed.

Lemma with_os_inv k w : conn_inv w → conn_inv (with_os w k).
Proof. apply same_conn_inv. by split. Qed.

Lemma with_os_calm k w : calm w (with_os w k).
Proof. apply calm_intro; [split; [split; auto | by auto..] | done..]. Qed.

Lemma use_writer_wp f (P : transport_write_status → Prop) w :
  conn_inv w → alive w = true →
  (∃ s' k' st, f (out_writer (output w)) (w_os w) = Ok (s', k', st) ∧ twrite_wf s' ∧ P st) →
  wp nofault (use_writer f) (λ st w', settled w st w' ∧ alive w' = true ∧ P st) w.
Proof.
  intros Hi Ha (s' & k' & st & Hf & Hs & HP). unfold use_writer, wp.
  pose proof (ci_output _ Hi Ha). rewrite (c_assert_true (0 <=? ssh_output w)) by lia. rewrite bind_ok_l, Hf. simpl.
  assert (conn_inv (with_os (set_writer s' w) k')) as Hi' by (apply with_os_inv; by apply set_writer_inv).
  assert (calm w (with_os (set_writer s' w) k')) as Hc'
    by (transitivity (set_writer s' w); [apply set_writer_calm | apply with_os_calm]).
  exact (conj (settled_intro _ _ _ Hc' Hi' eq_refl) (conj Ha HP)).
Qed.

(** Packets the transport sends itself. *)
Record sendable (p : lsh_string) : Prop := {
  sb_wf : lsh_string_wf p;
  sb_length : 0 < ls_length p <= SSH_MAX_PACKET;
  sb_type : contents p !! 0%nat ≠ Some SSH_MSG_IGNORE;
}.

Lemma write_status_wp st w :
  conn_inv w → alive w = true →
  wp nofault
    match st with
    | TRANSPORT_WRITE_OVERFLOW | TRANSPORT_WRITE_IO_ERROR _ => transport_close false
    | TRANSPORT_WRITE_PENDING => transport_start_write
    | TRANSPORT_WRITE_COMPLETE => transport_stop_write
    end (settled w) w.
Proof.
  intros Hi Ha. pose proof (close_settled w Hi). destruct st; [done | done | by apply transport_stop_write_wp | by apply transport_start_write_wp].
Qed.

Lemma transport_send_packet_wp flags p w :
  f_ignore flags = false → sendable p → conn_inv w →
  wp nofault (transport_send_packet flags (Some p)) (settled w) w.
Proof.
  intros Hfl [Hw Hl Hty] Hi. unfold transport_send_packet. wp_steps. apply wp_when_last; [| intros _; by apply settled_refl]. intros Ha.
  eapply wp_seq.
  - apply (use_writer_wp _ (λ _, True)); [done | done |].
    destruct (transport_write_packet_spec (out_writer (output w)) (w_os w) flags p)
      as (s' & k' & st & sent & Hs & _ & _ & _ & Hwf); [by apply Hi | done | done | |].
    { intros _ [Hx | Hx]; congruence. }
    exists s', k', st. auto.
  - intros st w1 (Hs1 & Ha1 & _). eapply wp_weaken; [apply write_status_wp; [apply Hs1 | done] |].
    intros [] w2. by apply (settled_settled w () w1).
Qed.

(** Packets of the application; one that is [SSH_MSG_IGNORE] may leave the
    writer in disorder when the buffer is full, but then the connection goes
    down. *)
Lemma transport_send_any_wp p w :
  lsh_string_wf p → 0 < ls_length p <= SSH_MAX_PACKET → conn_inv w → closing w = 0 →
  wp nofault (transport_send_packet (mk_wflags false false) (Some p)) (settled w) w.
Proof.
  intros Hw Hl Hi Hz. unfold transport_send_packet. wp_steps. apply wp_when_last; [| intros _; by apply settled_refl].
  intros Ha. destruct (transport_write_packet_spec (out_writer (output w)) (w_os w) (mk_wflags false false) p)
    as (s' & k' & st & sent & Hs & _ & _ & Hwf & _); [by apply Hi | done | done | done |].
  apply wp_bind. unfold use_writer, wp at 1. pose proof (ci_output _ Hi Ha).
  rewrite (c_assert_true (0 <=? ssh_output w)) by lia. rewrite bind_ok_l, Hs. cbn [ends mbind result_bind fst snd].
  set (w1 := with_os (set_writer s' w) k').
  assert (calm w w1) as Hc1 by (transitivity (set_writer s' w); [apply set_writer_calm | apply with_os_calm]).
  assert (conn_live w1) as Hl1.
  { apply (same_conn_live (set_writer s' w)); [by split |].
    destruct Hi as [[[[] ? ?] ? ? ?] ?]. split; [split; [by split | done | done] | done | done | done]. }
  destruct (decide (st = TRANSPORT_WRITE_OVERFLOW)) as [-> | Hno].
  - eapply wp_weaken; [by apply abort_settled |]. intros [] w2 (Hc2 & Hi2 & Hs2).
    split; [by transitivity w1 |]. split; [done |]. intros Ha2. by rewrite (Hs2 Ha2).
  - assert (conn_inv w1) as Hi1 by (split; [done | intros _; by apply Hwf]).
    eapply wp_weaken; [by apply write_status_wp |]. intros [] w2. apply (settled_settled w () w1). by apply settled_intro.
Qed.

Lemma transport_send_flush_wp flags w :
  conn_inv w → wp nofault (transport_send_packet flags None) (settled w) w.
Proof.
  intros Hi. unfold transport_send_packet. wp_steps. apply wp_when_last; [| intros _; by apply settled_refl]. intros Ha.
  eapply wp_seq.
  - apply (use_writer_wp _ (λ _, True)); [done | done |].
    destruct (transport_write_flush_spec (out_writer (output w)) (w_os w))
      as (s' & k' & st & sent & Hs & _ & Hwf & _); [by apply Hi |]. by exists s', k', st.
  - intros st w1 (Hs1 & Ha1 & _). eapply wp_weaken; [apply write_status_wp; [apply Hs1 | done] |].
    intros [] w2. by apply (settled_settled w () w1).
Qed.

Lemma oop_write_ssh_wp fd w :
  conn_inv w → writes w fd → wp nofault (oop_write_ssh fd OOP_WRITE) (settled w) w.
Proof.
  intros Hi Hw. destruct (cb_writes _ Hi fd Hw) as (-> & _ & Ha & _). unfold oop_write_ssh.
  apply wp_assert; [done |]. wp_steps. apply wp_assert; [by apply Z.eqb_refl |]. eapply wp_seq.
  - apply (use_writer_wp _ (λ st, st ≠ TRANSPORT_WRITE_OVERFLOW)); [done | done |].
    destruct (transport_write_flush_spec (out_writer (output w)) (w_os w))
      as (s' & k' & st & sent & Hs & Hno & Hwf & _); [by apply Hi |]. by exists s', k', st.
  - intros st w1 (Hs1 & Ha1 & Hno). pose proof Hs1 as (_ & Hi1 & _).
    assert (∀ e, wp nofault (match e with EWOULDBLOCK => skip | _ => transport_close false end) (settled w) w1) as He.
    { assert (wp nofault (transport_close false) (settled w) w1).
      { eapply wp_weaken; [by apply close_settled |]. intros [] w'. by apply (settled_settled w () w1). }
      intros []; done. }
    destruct st; [apply He | done | | done].
    eapply wp_weaken; [by apply transport_stop_write_wp |]. intros [] w2. by apply (settled_settled w () w1).
Qed.

(** ** Disconnecting *)

Lemma formats_sendable m c bs :
  formats m (c :: bs) → c ≠ SSH_MSG_IGNORE → lenZ (c :: bs) <= SSH_MAX_PACKET → ∃ p, m = Ok p ∧ sendable p.
Proof.
  intros (p & Hp & Hw & Hc) Hne Hl. exists p. split; [done |]. split; [done | | rewrite Hc; simpl; congruence].
  rewrite <- (lenZ_contents p Hw), Hc. rewrite lenZ_cons in *. pose proof (lenZ_nonneg bs). lia.
Qed.

Lemma disconnect_sendable reason m :
  message_ok m → ∃ p, format_disconnect reason (cstr m) [] = Ok p ∧ sendable p.
Proof.
  intros Hm. unfold message_ok in Hm. eapply formats_sendable; [apply formats_disconnect; lia | done |].
  rewrite lenZ_cons, !lenZ_app, !lenZ_wire_string, lenZ_be32. change (lenZ []) with 0. unfold SSH_MAX_PACKET. lia.
Qed.

Lemma transport_disconnect_wp reason msg w :
  conn_inv w → (c_true reason = true → ∃ m, msg = Some m ∧ message_ok m) →
  wp nofault (transport_disconnect reason msg) (closed w) w.
Proof.
  intros Hi Hm. unfold transport_disconnect. apply (wp_seq _ _ _ (settled w)).
  - apply wp_when_last; [| intros _; by apply settled_refl]. intros Hr. destruct (Hm Hr) as (m & -> & Hok).
    destruct (disconnect_sendable reason m Hok) as (p & Hp & Hsb). apply (wp_lift _ _ p); [done |].
    by apply transport_send_packet_wp.
  - intros [] w1 (Hc1 & Hi1 & _). eapply wp_weaken; [by apply close_closed |].
    intros [] w2 Hc2. by apply (calm_closed w w1).
Qed.

Lemma transport_protocol_error_wp m w :
  conn_inv w → message_ok m → wp nofault (transport_protocol_error m) (closed w) w.
Proof. intros Hi Hm. apply transport_disconnect_wp; [done |]. eauto. Qed.

End send.
