(* ===== verification/TransportKex.v ===== *)
(** * Key exchange in the transport ([src/src/transport.c])

    The invariant of the key exchange state machine, and the functions that
    drive it: sending and receiving [KEXINIT], taking new keys into use. *)

From S2P Require Import Prelude Ssh Nettle Atoms Alist LshString Format FormatSpec Wire Parse ParseSpec ParseAtoms Sys SshWrite SshRead Crypto Hash KexKeys Keyexchange KexSpec Encrypt TransportRead TransportSpec TransportSafe TransportWrite Io Transport TransportLogic TransportSend.
Local Open Scope Z_scope.

Section kex.
Context `{MallocOk} `{NettleMacrosOk} `{NettleBignumOk} `{AtomTableOk} `{OSOk} `{OopSourceOk} `{CryptoOk} `{!Algorithms} `{!AlgorithmsOk} `{HashFunctionsOk} `{Methods} `{!AppSpec} `{!Events}.

(** ** Configuration *)

(** Position [i] of the list of selected algorithms holds an object of the
    class its users cast it to. *)
Definition kind_ok (i : nat) (o : option algorithm) : Prop :=
  match o with
  | None => (i < 6)%nat
  | Some (AlgCrypto _) => (i < 2)%nat
  | Some (AlgMac _) => (2 <= i < 4)%nat
  | Some (AlgCompress _) => (4 <= i < 6)%nat
  | Some (AlgKex _) => i = 6%nat
  end.

Definition typed_algorithms (l : list (option algorithm)) : Prop :=
  length l = 7%nat ∧ ∀ i o, l !! i = Some o → kind_ok i o.

(** The list of our own message that position [i] is chosen from. *)
Definition info_list (info : kexinit_info) (i : nat) : list Z :=
  match i with
  | 0%nat | 1%nat => ki_crypto_algorithms info
  | 2%nat | 3%nat => ki_mac_algorithms info
  | 4%nat | 5%nat => ki_compression_algorithms info
  | _ => ki_kex_algorithms info
  end.

Definition own_kexinit (info : kexinit_info) (k : kexinit) : Prop := ∃ g, k = snd (make_kexinit g info).

Record info_ok (info : kexinit_info) (m : gmap Z algorithm) : Prop := {
  nf_lists : Forall atom_list_ok [ki_kex_algorithms info; ki_hostkey_algorithms info; ki_crypto_algorithms info;
               ki_mac_algorithms info; ki_compression_algorithms info; ki_languages info];
  nf_kex : ki_kex_algorithms info ≠ [];
  nf_typed : ∀ i a, (i < 7)%nat → a ∈ info_list info i → kind_ok i (m !! a);
  nf_size : ∀ k, own_kexinit info k → lenZ (encode_kexinit (proposal_of k)) <= SSH_MAX_PACKET;
}.

Definition context_ok (cx : transport_context) : Prop :=
  ∃ m, alist_map (cx_algorithms cx) m ∧ (∀ a, valid_atom a → key_ok (cx_algorithms cx) a)
    ∧ info_ok (cx_kexinit cx) m.

Lemma own_kexinit_ok info m k :
  info_ok info m → own_kexinit info k →
  kexinit_ok k ∧ kx_kex_algorithms k ≠ [] ∧ kx_first_kex_packet k = None ∧ kx_first_kex_packet_follows k = 0
  ∧ kx_lists k = [ki_kex_algorithms info; ki_hostkey_algorithms info; ki_crypto_algorithms info;
       ki_crypto_algorithms info; ki_mac_algorithms info; ki_mac_algorithms info;
       ki_compression_algorithms info; ki_compression_algorithms info; ki_languages info; ki_languages info].
Proof.
  intros [Hl Hk _ _] [g ->]. unfold make_kexinit.
  destruct (random_generate_ok g COOKIE_SIZE) as [Hb Hlen]; [done |].
  destruct (random_generate g COOKIE_SIZE) as [g' cookie]. simpl in *.
  split_and!; try done. split; simpl; try done.
  rewrite !Forall_cons in Hl. destruct Hl as (H1' & H2' & H3' & H4' & H5' & H6' & _).
  repeat (apply Forall_cons; split; [assumption |]). constructor.
Qed.

(** Whatever is selected is on our own list. *)
Lemma chosen_own is_server own peer i n :
  (let '(c, s) := ordered is_server own peer in choose (nth i c []) (nth i s []) = Some n) → n ∈ nth i own [].
Proof. destruct is_server; simpl; intros Hc; by apply choose_elem in Hc as [? ?]. Qed.

Lemma own_atom k i n : kexinit_ok k → n ∈ nth i (atom_names <$> kx_lists k) [] → atom_of n ∈ nth i (kx_lists k) [].
Proof.
  intros Hk Hn. destruct (proposes_own k Hk) as [(_ & _ & Hl) _].
  rewrite Hl. change (@nil Z) with (atom_of <$> @nil (list Z)).
  rewrite (map_nth (λ l : list (list Z), atom_of <$> l)). apply list_elem_of_fmap. eauto.
Qed.

Lemma negotiated_typed info m own p is_server self self' :
  info_ok info m → own_kexinit info own →
  (let '(client, server) := ordered is_server (atom_names <$> kx_lists own) (names_of <$> p_lists p) in
   negotiated client server (p_follows p) m self self' None) →
  ∃ l, ks_algorithm_list self' = Some l ∧ typed_algorithms l.
Proof.
  intros Hinfo Hown Hn. destruct (own_kexinit_ok info m own Hinfo Hown) as (Hok & _ & _ & _ & Hlists).
  set (on := atom_names <$> kx_lists own) in *. set (pn := names_of <$> p_lists p) in *.
  assert (∀ i n, (i < 7)%nat → n ∈ nth (if decide (i = 6%nat) then 0%nat else (2 + i)%nat) on [] →
    kind_ok i (m !! atom_of n)) as Hkind.
  { intros i n Hi Hin. apply (own_atom own) in Hin; [| done]. apply (nf_typed _ _ Hinfo); [done |].
    rewrite Hlists in Hin. do 7 (destruct i as [| i]; [done |]). lia. }
  assert (∃ kex ps, ks_algorithm_list self' = Some ((λ n, m !! atom_of n) <$> ps ++ [kex])
    ∧ (let '(c, s) := ordered is_server on pn in choose (nth 0 c []) (nth 0 s []) = Some kex
         ∧ mapM (λ i, choose (nth i c []) (nth i s [])) (seq 2 6) = Some ps))
    as (kex & ps & Hl & Hch).
  { destruct (ordered is_server on pn) as [c s]. destruct Hn as (_ & _ & _ & Hn). unfold negotiate in Hn.
    destruct (choose (nth 0 c []) _) as [kex |]; [| done]. destruct (choose (nth 1 c []) _) as [hk |]; [| done].
    destruct (mapM _ _) as [ps |]; [| done]. destruct Hn as (_ & _ & Hl). by exists kex, ps. }
  eexists. split; [done |].
  assert (kex ∈ nth 0 on []) as Hkex.
  { apply (chosen_own is_server on pn). by destruct (ordered is_server on pn), Hch. }
  assert (Forall2 (λ i n, n ∈ nth i on []) (seq 2 6) ps) as Hps.
  { destruct (ordered is_server on pn) as [c s] eqn:Ho. destruct Hch as [_ Hm]. apply mapM_Some_1 in Hm.
    eapply Forall2_impl; [exact Hm |]. intros i n Hc. apply (chosen_own is_server on pn). by rewrite Ho. }
  pose proof (Forall2_length _ _ _ Hps) as Hlen. simpl in Hlen.
  split; [rewrite length_fmap, length_app; simpl; lia |].
  intros i o Hio. rewrite list_lookup_fmap in Hio. apply fmap_Some in Hio as (n & Hn' & ->).
  apply lookup_app_Some in Hn' as [Hi | [Hge Hi]].
  - destruct (Forall2_lookup_r _ _ _ _ _ Hps Hi) as (j & Hj & Hin). apply lookup_seq in Hj as [-> Hlt].
    apply Hkind; [lia |]. rewrite decide_False by lia. done.
  - apply list_lookup_singleton_Some in Hi as [Hi <-]. assert (i = 6%nat) as -> by lia. apply Hkind; [lia | done].
Qed.

Lemma negotiated_hostkey own p m is_server self self' :
  kexinit_ok own →
  (let '(client, server) := ordered is_server (atom_names <$> kx_lists own) (names_of <$> p_lists p) in
   negotiated client server (p_follows p) m self self' None) → valid_atom (ks_hostkey_algorithm self').
Proof.
  intros Hok Hn. destruct (proposes_own own Hok) as [_ Hkn].
  set (on := atom_names <$> kx_lists own) in *. set (pn := names_of <$> p_lists p) in *.
  pose proof (known_at on 1 Hkn) as Hk1.
  assert (∀ c s, ordered is_server on pn = (c, s) → all_known (nth 1 c []) ∨ all_known (nth 1 s [])) as Hk.
  { intros c s Ho. destruct is_server; simplify_eq/=; auto. }
  destruct (ordered is_server on pn) as [c s]. specialize (Hk c s eq_refl). destruct Hn as (_ & _ & _ & Hn).
  unfold negotiate in Hn. destruct (choose (nth 0 c []) _) as [kex |]; [| done].
  destruct (choose (nth 1 c []) _) as [hk |] eqn:Hhk; [| done].
  destruct (mapM _ _) as [ps |]; [| done]. destruct Hn as (_ & -> & _). by apply (choose_valid _ _ _ Hk Hhk).
Qed.

(** A string of moderate size is recorded. *)
Definition string_at (a : pair_of (option lsh_string)) (server : bool) : Prop :=
  ∃ s, entry a server = Some s ∧ lsh_string_wf s ∧ ls_length s <= 100000.

(** What receiving a [KEXINIT] message leads to. *)
Lemma handle_kexinit_outcome cx self own packet :
  context_ok cx → ks_read_state self = KEX_STATE_INIT →
  entry (ks_kexinit self) (cx_is_server cx) = Some own → own_kexinit (cx_kexinit cx) own →
  Forall is_byte packet → lenZ packet <= 100000 →
  ∃ self' err, handle_kexinit self (lenZ packet) packet (cx_algorithms cx) (cx_is_server cx) = Ok (self', err)
    ∧ match err with
      | Some e => message_ok e
      | None => entry (ks_kexinit self') (cx_is_server cx) = Some own
          ∧ (ks_read_state self' = KEX_STATE_IN_PROGRESS ∨ ks_read_state self' = KEX_STATE_IGNORE)
          ∧ ks_version self' = ks_version self
          ∧ entry (ks_literal_kexinit self') (cx_is_server cx) = entry (ks_literal_kexinit self) (cx_is_server cx)
          ∧ string_at (ks_literal_kexinit self') (negb (cx_is_server cx))
          ∧ valid_atom (ks_hostkey_algorithm self')
          ∧ (∃ l, ks_algorithm_list self' = Some l ∧ typed_algorithms l)
      end.
Proof.
  intros (m & Hm & Hkeys & Hinfo) Hinit Hown Hof Hb Hl.
  destruct (own_kexinit_ok _ _ _ Hinfo Hof) as (Hok & Hne & _).
  destruct (handle_kexinit_spec (cx_algorithms cx) m self (cx_is_server cx) own packet) as (self' & err & Hh & Hcase); [done | done | done | done | done | done | done | lia |].
  exists self', err. split; [done |]. destruct Hcase as [(p & Hp & Hpk & Hhd) | [_ ->]]; [| by short]. unfold handled in Hhd.
  case_bool_decide; [destruct Hhd as [_ ->]; by short |]. destruct Hhd as (literal & Hlw & Hlc & Hn).
  destruct err as [e |].
  - destruct (ordered _ _ _) as [c s]. destruct Hn as (_ & _ & _ & Hn). unfold negotiate in Hn.
    repeat case_match; simplify_eq; try short. by destruct Hn.
  - split_and!; [| | | | | by apply (negotiated_hostkey own p m (cx_is_server cx) _ _ Hok Hn) |
      by apply (negotiated_typed _ m own p _ _ _ Hinfo Hof) in Hn].
    + destruct (ordered _ _ _) as [c s]. destruct Hn as (-> & _). unfold received. simpl.
      destruct (ks_kexinit self), (cx_is_server cx); done.
    + destruct (ordered _ _ _) as [c s]. destruct Hn as (_ & _ & -> & _).
      destruct (_ && _); [by right | by left].
    + destruct (ordered _ _ _) as [c s]. by destruct Hn as (_ & (_ & -> & _) & _).
    + destruct (ordered _ _ _) as [c s]. destruct Hn as (_ & (_ & _ & ->) & _). unfold received. simpl.
      by destruct (ks_literal_kexinit self), (cx_is_server cx).
    + destruct (ordered _ _ _) as [c s]. destruct Hn as (_ & (_ & _ & ->) & _). exists literal. split; [| split; [done |]].
      * unfold received. simpl. by destruct (ks_literal_kexinit self), (cx_is_server cx).
      * by rewrite <- (lenZ_contents literal Hlw), Hlc, <- Hpk.
Qed.

(** ** The invariant *)

Definition kex_state_of (w : world) : kexinit_state := kp_state (kex w).
Definition own_sent (w : world) : option kexinit := entry (ks_kexinit (kex_state_of w)) (cx_is_server (ctx w)).

Record kex_ok (w : world) : Prop := {
  kw_sent : own_sent w = None → ks_read_state (kex_state_of w) = KEX_STATE_INIT;
  kw_own : ∀ k, own_sent w = Some k → own_kexinit (cx_kexinit (ctx w)) k;
  kw_busy : ks_read_state (kex_state_of w) = KEX_STATE_IN_PROGRESS
            ∨ ks_read_state (kex_state_of w) = KEX_STATE_IGNORE →
            (∃ h, kp_handler (kex w) = Some h ∧ kex_method_ok h)
            ∧ ∃ l, ks_algorithm_list (kex_state_of w) = Some l ∧ typed_algorithms l;
  kw_timer : own_sent w ≠ None → quiet (expire w);
  kw_session : ∀ sid, kp_session_id (kex w) = Some sid → lsh_string_wf sid;
  kw_literal : own_sent w ≠ None → string_at (ks_literal_kexinit (kex_state_of w)) (cx_is_server (ctx w));
}.

(** Once the input is closed the state machine does not move any more. *)
Record kex_inv (w : world) : Prop := {
  kv_context : context_ok (ctx w);
  kv_ok : 0 <= ssh_input w → kex_ok w;
}.

Lemma moved_kex w w' : kex_moved w w' → kex w' = kex w → kex_inv w → kex_inv w'.
Proof.
  intros [Hs _ _ He] Hk [Hcx Hok]. split; [by rewrite (st_ctx _ _ Hs) |].
  intros Hin. destruct (st_input _ _ Hs) as [Hi | Hi]; [| lia]. rewrite Hi in Hin.
  destruct (Hok Hin) as [H1' H2' H3' H4' H5' H6']. unfold own_sent, kex_state_of in *.
  split; unfold own_sent, kex_state_of; rewrite ?Hk, ?(st_ctx _ _ Hs); try done.
  intros Hs'. destruct He as [-> |]; auto.
Qed.

Lemma calm_kex w w' : calm w w' → kex_inv w → kex_inv w'.
Proof. intros Hc. apply moved_kex; apply Hc. Qed.

Lemma closed_kex_inv w : context_ok (ctx w) → ssh_input w = -1 → kex_inv w.
Proof. intros Hcx Hin. split; [done | lia]. Qed.

Lemma set_kex_inv k w :
  conn_inv w → (kp_session_id k = None → kp_session_id (kex w) = None) → conn_inv (set_kex k w).
Proof.
  intros Hi Hk. revert Hi. apply same_conn_inv. by split.
Qed.

Lemma set_kex_steady k w : steady w (set_kex k w).
Proof. split; auto. Qed.

Context `{!EventsOk}.

(** ** Sending [KEXINIT] *)

(** The key exchange fields after sending our message. *)
Definition kexinit_sent (w : world) (msg : kexinit) (literal : lsh_string) : kex_part :=
  kex (set_kex_state (set_kexinit (set_write_state (kex_state_of w) 1) (cx_is_server (ctx w)) msg literal) w).

Definition same_versions (w w' : world) : Prop := ks_version (kex_state_of w') = ks_version (kex_state_of w).

Lemma calm_versions w w' : calm w w' → same_versions w w'.
Proof. intros Hc. unfold same_versions, kex_state_of. by rewrite (cm_kex _ _ Hc). Qed.

Lemma calm_moved w w' : calm w w' → kex_moved w w'.
Proof. apply cm_moved. Qed.

Lemma set_kex_moved k w : kex_moved w (set_kex k w).
Proof. split; [apply set_kex_steady | done | done | by left]. Qed.

Lemma kexinit_sendable info m k :
  info_ok info m → own_kexinit info k → ∃ s, format_kexinit k = Ok s ∧ sendable s.
Proof.
  intros Hinfo Hown. destruct (own_kexinit_ok _ _ _ Hinfo Hown) as (Hok & _).
  pose proof (nf_size _ _ Hinfo k Hown) as Hsz. pose proof (format_kexinit_spec k Hok) as Hf.
  unfold encode_kexinit in *. by eapply formats_sendable.
Qed.

Lemma make_own_kexinit_wp (Q : kexinit → world → Prop) w :
  conn_inv w →
  (∀ s msg, own_kexinit (cx_kexinit (ctx w)) msg → conn_inv (set_writer s w) → Q msg (set_writer s w)) →
  wp nofault make_own_kexinit Q w.
Proof.
  intros Hi HQ. unfold make_own_kexinit, wp.
  destruct (make_kexinit (k_rng (tw_keys (out_writer (output w)))) (cx_kexinit (ctx w))) as [g msg] eqn:Hm. simpl.
  apply HQ; [exists (k_rng (tw_keys (out_writer (output w)))); by rewrite Hm |].
  apply set_writer_inv; [done |]. intros Ha. destruct (ci_writer _ Hi Ha). by split.
Qed.

Lemma transport_send_kexinit_wp w :
  conn_inv w → context_ok (ctx w) → ks_read_state (kex_state_of w) = KEX_STATE_INIT →
  wp nofault transport_send_kexinit (λ _ w', kex_moved w w' ∧ conn_inv w' ∧ quiet (expire w')
    ∧ ∃ msg literal, own_kexinit (cx_kexinit (ctx w)) msg ∧ sendable literal ∧ kex w' = kexinit_sent w msg literal) w.
Proof.
  intros Hi Hcx Hinit. unfold transport_send_kexinit. wp_steps.
  set (w0 := set_kex_state (set_write_state (kp_state (kex w)) 1) w).
  assert (conn_inv w0) as Hi0 by by apply set_kex_inv.
  apply (wp_seq _ _ _ (settled w0)).
  { apply wp_when_last; intros _; [apply run_event_wp; auto | by apply settled_refl]. }
  intros [] w1 (Hc1 & Hi1 & _). apply wp_bind, make_own_kexinit_wp; [done |]. intros s msg Hown Hi2.
  set (w2 := set_writer s w1) in *. assert (calm w0 w2) as Hc2 by (transitivity w1; [done | apply set_writer_calm]).
  assert (ctx w1 = ctx w) as Hctx by (by rewrite (st_ctx _ _ Hc1)). rewrite Hctx in Hown.
  destruct Hcx as (m & Hm & Hkeys & Hinfo).
  destruct (own_kexinit_ok _ _ _ Hinfo Hown) as (Hok & _ & Hfirst & Hfollows & _).
  apply wp_assert; [by rewrite Hfirst, Hfollows |]. wp_steps.
  assert (kex w2 = kex w0) as Hk2 by apply (cm_kex _ _ Hc2). rewrite Hk2.
  apply wp_assert; [by apply bool_decide_eq_true_2 |].
  destruct (kexinit_sendable _ _ _ Hinfo Hown) as (literal & Hfmt & Hsb). apply (wp_lift _ _ literal); [done |]. wp_steps.
  rewrite Hk2. set (w3 := set_kex_state _ w2).
  assert (conn_inv w3) as Hi3 by by apply set_kex_inv.
  assert (kex w3 = kexinit_sent w msg literal) as Hk3 by (unfold w3, set_kex_state; by rewrite Hk2).
  eapply wp_seq; [by apply transport_send_packet_wp |]. intros [] w4 (Hc4 & Hi4 & _).
  rewrite Hfollows. change (when (c_true 0) _) with skip. apply (wp_seq _ _ _ (λ _ w', w' = w4)); [by apply wp_skip |].
  intros [] ? ->.
  eapply wp_weaken; [by apply transport_timeout_wp |]. intros [] w5 (Hc5 & Hi5 & Hq5 & _).
  split_and!; [| done | done |].
  - transitivity w0; [apply set_kex_moved |]. transitivity w2; [by apply calm_moved |].
    transitivity w3; [apply set_kex_moved |]. transitivity w4; by apply calm_moved.
  - exists msg, literal. split; [done |]. split; [done |]. by rewrite (cm_kex _ _ Hc5), (cm_kex _ _ Hc4).
Qed.

(** ** New keys *)

Lemma typed_rd l i :
  typed_algorithms l → 0 <= i < 7 → ∃ o, rd l i = Ok o ∧ kind_ok (Z.to_nat i) o.
Proof.
  intros [Hl Hk] Hi. destruct (rd_ok l i) as [o Ho]; [unfold lenZ; lia |]. exists o. split; [done |].
  apply rd_lookup in Ho as [_ Ho]. by apply Hk.
Qed.

Lemma typed_length l : typed_algorithms l → (lenZ l =? KEX_LIST_LENGTH) = true.
Proof. intros [Hl _]. unfold lenZ, KEX_LIST_LENGTH. rewrite Hl. done. Qed.

Lemma kex_make_crypt_total mode h secret l type sid :
  typed_algorithms l → 0 <= type < 2 → lsh_string_wf sid →
  ∃ ok c, kex_make_crypt mode (mk_hash h secret) l type sid = Ok (ok, c).
Proof.
  intros Hl Ht Hsid. unfold kex_make_crypt. destruct (typed_rd l type Hl) as (o & -> & Ho); [lia |].
  rewrite bind_ok_l, (typed_length l Hl).
  assert (∃ a, cast_crypto o = Ok a) as [a ->].
  { destruct o as [[] |]; simpl in *; try (by eexists); lia. }
  rewrite !bind_ok_l. destruct a as [a |]; [| by eexists _, _].
  destruct (kex_make_key_spec h secret (crypto_key_size a) type sid) as (_ & key & _ & -> & _);
    [apply crypto_key_size_ok | lia | done |].
  rewrite bind_ok_l. destruct (c_true _); [| by eexists _, _].
  destruct (kex_make_key_spec h secret (crypto_iv_size a) (IV_TYPE type) sid) as (_ & iv & _ & -> & _);
    [apply crypto_iv_size_ok | unfold IV_TYPE; lia | done |].
  by eexists _, _.
Qed.

Lemma kex_make_mac_total h secret l type sid :
  typed_algorithms l → 2 <= type < 4 → lsh_string_wf sid →
  ∃ m, kex_make_mac (mk_hash h secret) l type sid = Ok m ∧ mac_fresh m.
Proof.
  intros Hl Ht Hsid. unfold kex_make_mac. destruct (typed_rd l type Hl) as (o & -> & Ho); [lia |].
  rewrite bind_ok_l, (typed_length l Hl).
  assert (∃ a, cast_mac o = Ok a) as [a ->].
  { destruct o as [[] |]; simpl in *; try (by eexists); lia. }
  rewrite !bind_ok_l. destruct a as [a |]; [| by eexists].
  destruct (kex_make_key_spec h secret (mac_key_size a) type sid) as (_ & key & _ & -> & _);
    [apply mac_key_size_ok | lia | done |].
  by eexists.
Qed.

Lemma cast_compress_total l type :
  typed_algorithms l → 4 <= type < 6 → ∃ o a, rd l type = Ok o ∧ cast_compress o = Ok a.
Proof.
  intros Hl Ht. destruct (typed_rd l type Hl) as (o & Hrd & Ho); [lia |]. exists o.
  destruct o as [[] |]; simpl in *; (by eexists) || lia.
Qed.

Lemma kex_make_deflate_total l type :
  typed_algorithms l → 4 <= type < 6 → ∃ z, kex_make_deflate l type = Ok z ∧ deflate_ok z.
Proof.
  intros Hl Ht. destruct (cast_compress_total l type Hl Ht) as (o & a & Hrd & Hc).
  unfold kex_make_deflate. rewrite Hrd, bind_ok_l, Hc, bind_ok_l. eexists. split; [done |].
  destruct a as [a |]; [| done]. eexists. apply make_compress_ok.
Qed.

Lemma kex_make_inflate_total l type :
  typed_algorithms l → 4 <= type < 6 → ∃ z, kex_make_inflate l type = Ok z.
Proof.
  intros Hl Ht. destruct (cast_compress_total l type Hl Ht) as (o & a & Hrd & Hc).
  unfold kex_make_inflate. rewrite Hrd, bind_ok_l, Hc, bind_ok_l. by eexists.
Qed.

(** The descriptors' keys are taken from the list of algorithms. *)
Record secrets_ok (w : world) (exchange_hash K : lsh_string) : Prop := {
  so_algorithms : ∃ l, ks_algorithm_list (kex_state_of w) = Some l ∧ typed_algorithms l;
  so_hash : lsh_string_wf exchange_hash;
  so_K : lsh_string_wf K;
  so_length : ls_length K + ls_length exchange_hash < 2 ^ 32 - 4;
}.

Lemma newkeys_sendable : ∃ p, format_newkeys = Ok p ∧ sendable p.
Proof.
  eapply (formats_sendable _ SSH_MSG_NEWKEYS []); [| done | vm_compute; discriminate].
  eapply formats_spec; [reflexivity | reflexivity | repeat constructor | vm_compute; reflexivity].
Qed.

Lemma the_algorithms_wp {B} E (k : list (option algorithm) → action B) Q w l :
  ks_algorithm_list (kex_state_of w) = Some l → wp E (k l) Q w → wp E (the_algorithms ≫= k) Q w.
Proof. unfold kex_state_of. intros Hl Hk. unfold wp, the_algorithms, mbind, action_bind, gets, compose. simpl. by rewrite Hl. Qed.

Lemma the_session_id_wp {B} E (k : lsh_string → action B) Q w sid :
  kp_session_id (kex w) = Some sid → wp E (k sid) Q w → wp E (the_session_id ≫= k) Q w.
Proof. intros Hs Hk. unfold wp, the_session_id, mbind, action_bind, gets, compose. simpl. by rewrite Hs. Qed.

Lemma keyexchange_finish_wp h exchange_hash K sid w :
  conn_inv w → secrets_ok w exchange_hash K → kp_session_id (kex w) = Some sid → lsh_string_wf sid →
  wp nofault (keyexchange_finish h exchange_hash K)
    (λ _ w', kex_moved w w' ∧ conn_inv w' ∧ kp_state (kex w') = kp_state (kex w)
       ∧ kp_session_id (kex w') = Some sid
       ∧ (tc_packet_handler (w_conn w) = None → tc_packet_handler (w_conn w') = None)) w.
Proof.
  intros Hi [(l & Hl & Htyped) Hx HK Hlen] Hsid Hsw. unfold keyexchange_finish. wp_step.
  apply (the_algorithms_wp _ _ _ _ l Hl). apply wp_assert; [by apply typed_length |].
  eapply wp_lift; [by apply kex_build_secret_spec |]. apply (the_session_id_wp _ _ _ _ sid Hsid).
  set (secret := mk_hash h _). generalize ((cx_is_server ∘ ctx) w). intros b.
  destruct (kex_make_crypt_total CRYPTO_DECRYPT h (hi_fed secret) l (flip_type KEX_ENCRYPTION_SERVER_TO_CLIENT b) sid Htyped)
    as (ok & rec & Hrec); [by destruct b | done |].
  eapply wp_lift; [exact Hrec |]. destruct ok; cbn [negb]; [| by split_and!].
  destruct (kex_make_crypt_total CRYPTO_ENCRYPT h (hi_fed secret) l (flip_type KEX_ENCRYPTION_CLIENT_TO_SERVER b) sid Htyped)
    as (ok & send & Hsend); [by destruct b | done |].
  eapply wp_lift; [exact Hsend |]. destruct ok; cbn [negb]; [| by split_and!].
  destruct (kex_make_mac_total h (hi_fed secret) l (flip_type KEX_MAC_SERVER_TO_CLIENT b) sid Htyped)
    as (mr & Hmr & _); [by destruct b | done |]. eapply wp_lift; [exact Hmr |].
  destruct (kex_make_inflate_total l (flip_type KEX_COMPRESSION_SERVER_TO_CLIENT b) Htyped)
    as (zr & Hzr); [by destruct b |]. eapply wp_lift; [exact Hzr |]. apply wp_modify.
  destruct newkeys_sendable as (p & Hp & Hsb). eapply wp_lift; [exact Hp |].
  set (w1 := set_new_keys mr rec zr w).
  eapply wp_seq; [apply transport_send_packet_wp; [done | done | by apply set_kex_inv] |]. intros [] w2 (Hc2 & Hi2 & _).
  destruct (kex_make_mac_total h (hi_fed secret) l (flip_type KEX_MAC_CLIENT_TO_SERVER b) sid Htyped)
    as (ms & Hms & Hfresh); [by destruct b | done |]. eapply wp_lift; [exact Hms |].
  destruct (kex_make_deflate_total l (flip_type KEX_COMPRESSION_CLIENT_TO_SERVER b) Htyped)
    as (zs & Hzs & Hdef); [by destruct b |]. eapply wp_lift; [exact Hzs |]. apply wp_modify.
  set (w3 := set_writer _ w2). assert (conn_inv w3) as Hi3.
  { apply set_writer_inv; [done |]. intros Ha. destruct (ci_writer _ Hi2 Ha). by split. }
  eapply wp_seq; [by apply transport_send_flush_wp |]. intros [] w4 (Hc4 & Hi4 & _). apply wp_ret.
  assert (calm w2 w3) as Hc3 by apply set_writer_calm.
  assert (kex w4 = kex w1) as Hk by (by rewrite (cm_kex _ _ Hc4), (cm_kex _ _ Hc3), (cm_kex _ _ Hc2)).
  assert (calm w1 w4) as Hc by (transitivity w2; [done |]; by transitivity w3).
  rewrite Hk. split_and!; [| done | done | done | intros Hn; by rewrite (cm_packet _ _ Hc)].
  transitivity w1; [apply set_kex_moved | by apply calm_moved].
Qed.

Lemma moved_closed {A} w w1 (a : A) w2 :
  kex_moved w w1 → context_ok (ctx w) → closed w1 a w2 → kex_moved w w2 ∧ conn_inv w2 ∧ kex_inv w2.
Proof.
  intros Hm Hcx (Hc & Hi & Hin). assert (kex_moved w w2) as Hm2 by (transitivity w1; [done | by apply calm_moved]).
  split_and!; [done | done |]. apply closed_kex_inv; [| done]. by rewrite (st_ctx _ _ Hm2).
Qed.

(** The end of key exchange. *)
Lemma transport_keyexchange_finish_wp h exchange_hash K w :
  conn_inv w → kex_inv w → ks_read_state (kex_state_of w) = KEX_STATE_IN_PROGRESS →
  secrets_ok w exchange_hash K → (∀ sid, kp_session_id (kex w) = Some sid → lsh_string_wf sid) →
  wp nofault (transport_keyexchange_finish h exchange_hash K)
    (λ _ w', kex_moved w w' ∧ conn_inv w' ∧ kex_inv w' ∧ same_versions w w') w.
Proof.
  intros Hi Hk Hprog Hso Hsid. unfold transport_keyexchange_finish. wp_step. cbv zeta.
  set (first := negb _).
  apply (wp_seq _ _ _ (λ _ w1, kex_moved w w1 ∧ conn_inv w1 ∧ kp_state (kex w1) = kp_state (kex w)
    ∧ tc_packet_handler (w_conn w1) = tc_packet_handler (w_conn w)
    ∧ ∃ sid, kp_session_id (kex w1) = Some sid ∧ lsh_string_wf sid)).
  { apply wp_when_last; unfold first, compose; intros Hf.
    - wp_step. split_and!; [apply set_kex_moved | by apply set_kex_inv | done | done |].
      eexists. split; [done |]. apply Hso.
    - split_and!; try done. apply negb_false_iff, bool_decide_eq_true_1 in Hf as [sid Hs]. eauto. }
  intros [] w1 (Hm1 & Hi1 & Hs1 & Hp1 & sid & Hsid1 & Hsw).
  eapply wp_seq.
  { eapply (keyexchange_finish_wp h exchange_hash K sid); try done.
    destruct Hso. split; try done. unfold kex_state_of in *. by rewrite Hs1. }
  intros ok w2 (Hm2 & Hi2 & Hs2 & Hsid2 & Hp2). assert (kex_moved w w2) as Hm by (by transitivity w1).
  destruct ok; cbn [negb].
  2: { eapply wp_weaken; [apply transport_disconnect_wp; [done |] |].
       - intros _. eexists. split; [done | short].
       - intros [] w3 Hc3. destruct (moved_closed w w2 () w3 Hm) as (? & ? & ?); [apply Hk | done |].
         split_and!; try done. destruct Hc3 as (Hc3 & _). unfold same_versions, kex_state_of.
         by rewrite (cm_kex _ _ Hc3), Hs2, Hs1. }
  wp_step. rewrite Hs2, Hs1. unfold kex_state_of in Hprog. rewrite Hprog.
  apply wp_assert; [done |]. wp_step. set (w3 := set_kex_state _ w2).
  assert (conn_inv w3) as Hi3 by by apply set_kex_inv.
  assert (kex_moved w w3) as Hm3 by (transitivity w2; [done | apply set_kex_moved]).
  assert (kex_inv w3) as Hk3.
  { split; [rewrite (st_ctx _ _ Hm3); apply Hk |]. intros Hin.
    assert (0 <= ssh_input w) as Hin0 by (destruct (st_input _ _ Hm3); lia).
    destruct (kv_ok _ Hk Hin0) as [Hsent Hown _ Htm _ Hlit].
    unfold own_sent, kex_state_of in *.
    split; unfold own_sent, kex_state_of; rewrite ?(st_ctx _ _ Hm3); cbn; rewrite ?Hs2, ?Hs1.
    - intros Hn. specialize (Hsent Hn). congruence.
    - exact Hown.
    - by intros [? | ?].
    - intros Hn. change (quiet (expire w3)). destruct (km_expire _ _ Hm3) as [-> |]; auto.
    - intros s Hs. congruence.
    - exact Hlit. }
  assert (∀ w4, replaced w3 w4 → kex_moved w w4 ∧ conn_inv w4 ∧ kex_inv w4 ∧ same_versions w w4) as Hend.
  { intros w4 (Hm4 & Hk4 & Hi4). split_and!; [by transitivity w3 | done | by apply (moved_kex w3) |].
    unfold same_versions, kex_state_of. rewrite Hk4. cbn. by rewrite Hs2, Hs1. }
  unfold run_event. wp_step. unfold first. destruct (bool_decide _) eqn:Hf; cbn [negb].
  - eapply wp_weaken; [apply event_handler_ok; [by left | done | done] |].
    intros [] w4 (Hc4 & Hi4 & _). apply Hend. split; [by apply calm_moved |]. split; [apply Hc4 | done].
  - eapply wp_weaken; [apply complete_event_ok; [done | done | |] |].
    + apply Hp2. rewrite Hp1. apply (cb_session _ Hi). apply bool_decide_eq_false_1 in Hf.
      unfold compose in Hf. destruct (kp_session_id (kex w)); [by destruct Hf | done].
    + change (is_Some (kp_session_id (kex w2))). rewrite Hsid2. by eexists.
    + intros [] w4. apply Hend.
Qed.

End kex.
