(* ===== verification/TransportProcess.v ===== *)
(** * Processing packets ([src/src/transport.c])

    The contract of the handlers of an application, [HandlersOk], and what
    [transport_process_packet] does under it: in every state of key exchange
    and for every packet it returns and keeps the invariants. *)

From S2P Require Import Prelude Ssh Nettle Atoms Alist LshString Format FormatSpec Wire Parse ParseSpec ParseAtoms Sys SshWrite SshRead Crypto Hash KexKeys Keyexchange KexSpec Encrypt TransportRead TransportSpec TransportSafe TransportWrite Io Transport TransportLogic TransportSend TransportKex.
Local Open Scope Z_scope.

Section process.
Context `{MallocOk} `{NettleMacrosOk} `{NettleBignumOk} `{AtomTableOk} `{OSOk} `{OopSourceOk} `{CryptoOk} `{!Algorithms} `{!AlgorithmsOk} `{HashFunctionsOk} `{Methods} `{!AppSpec} `{!Events} `{!EventsOk} `{!Handlers}.

(** ** The invariant between packets *)

Record reader_ok (w : world) : Prop := {
  ro_reader : tread_inv (in_reader (input w));
  ro_packet : lsh_string_wf (in_packet (input w));
  ro_room : ls_length (in_packet (input w)) = SSH_MAX_PACKET + 1;
  ro_line : is_Some (tc_line_handler (w_conn w)) → tr_total_length (in_reader (input w)) = 0;
}.

Record sound (w : world) : Prop := {
  sd_conn : conn_inv w;
  sd_kex : kex_inv w;
  sd_reader : 0 <= ssh_input w → reader_ok w;
  sd_app : app_ready (w_app w);
}.

(** Both version strings are known. *)
Definition greeted (w : world) : Prop :=
  string_at (ks_version (kex_state_of w)) false ∧ string_at (ks_version (kex_state_of w)) true.

(** Our version string is sent first, and packets are only read after the
    peer's. *)
Record good (w : world) : Prop := {
  gd_sound :> sound w;
  gd_version : 0 <= ssh_input w → string_at (ks_version (kex_state_of w)) (cx_is_server (ctx w));
  gd_greeted : 0 <= ssh_input w → tc_line_handler (w_conn w) = None → greeted w;
}.

(** The input is open, and no packet is half read. *)
Record ready (w : world) : Prop := {
  rd_good : good w;
  rd_open : 0 <= ssh_input w;
  rd_between : tr_total_length (in_reader (input w)) = 0;
}.

(** The strings that go into the exchange hash are there, and a host key
    algorithm is chosen. *)
Definition strings_known (w : world) : Prop :=
  greeted w ∧ string_at (ks_literal_kexinit (kex_state_of w)) false
  ∧ string_at (ks_literal_kexinit (kex_state_of w)) true ∧ valid_atom (ks_hostkey_algorithm (kex_state_of w)).

Class HandlersOk : Prop := {
  packet_handler_ok h seqno data w :
    conn_inv w → alive w = true → tc_packet_handler (w_conn w) = Some h → 0 <= ssh_input w ∨ app_waits h →
    is_u32 seqno → Forall is_byte data → 0 < lenZ data <= SSH_MAX_PACKET + 1 →
    wp nofault (packet_handler h seqno (lenZ data) data)
      (λ r w', replaced w w' ∧ (r = false → waits w')) w;
  push_event_ok h w :
    conn_inv w → tc_event_handler (w_conn w) = h →
    wp nofault (event_handler h TRANSPORT_EVENT_PUSH) (λ _ w', calm w w' ∧ conn_inv w') w;
  line_handler_ok h line w :
    ready w → Forall is_byte line → lenZ line < SSH_MAX_LINE →
    wp nofault (line_handler h line) (λ _ w', steady w w' ∧ good w') w;
  KEYEXCHANGE_INIT_ok a w :
    conn_inv w → strings_known w →
    wp nofault (KEYEXCHANGE_INIT a)
      (λ h w', calm w w' ∧ conn_inv w' ∧ match h with Some h => kex_method_ok h | None => True end) w;
  keyexchange_handler_ok h data w :
    ready w → ks_read_state (kex_state_of w) = KEX_STATE_IN_PROGRESS → kp_handler (kex w) = Some h → kex_method_ok h →
    Forall is_byte data → 0 < lenZ data <= SSH_MAX_PACKET + 1 →
    wp nofault (keyexchange_handler h (lenZ data) data) 
      (λ _ w', kex_moved w w' ∧ conn_inv w' ∧ kex_inv w' ∧ same_versions w w') w;
}.

Context `{!HandlersOk}.

Lemma steady_open w w' : steady w w' → 0 <= ssh_input w' → ssh_input w' = ssh_input w ∧ 0 <= ssh_input w.
Proof. intros Hs Hin. destruct (st_input _ _ Hs); lia. Qed.

Lemma moved_reader w w' : kex_moved w w' → (0 <= ssh_input w → reader_ok w) → 0 <= ssh_input w' → reader_ok w'.
Proof.
  intros Hm Hr Hin. destruct (steady_open _ _ Hm Hin) as [_ Hin0]. destruct (Hr Hin0) as [H1' H2' H3' H4'].
  split; rewrite ?(km_reader _ _ Hm), ?(st_packet _ _ Hm), ?(km_line _ _ Hm); done.
Qed.

Lemma moved_sound w w' : sound w → kex_moved w w' → conn_inv w' → kex_inv w' → sound w'.
Proof.
  intros Hs Hm Hi Hk. split; [done | done | |]; [apply (moved_reader w); [done | apply Hs] | apply (st_app _ _ Hm), Hs].
Qed.

Lemma moved_greeted w w' : good w → kex_moved w w' → same_versions w w' →
  0 <= ssh_input w' → tc_line_handler (w_conn w') = None → greeted w'.
Proof.
  intros Hg Hm Hv Hin Hl. unfold greeted. rewrite Hv. apply (gd_greeted _ Hg).
  - by apply (steady_open _ _ Hm).
  - by rewrite <- (km_line _ _ Hm).
Qed.

Lemma moved_good w w' : good w → kex_moved w w' → same_versions w w' → conn_inv w' → kex_inv w' → good w'.
Proof.
  intros Hg Hm Hv Hi Hk. split; [by apply (moved_sound w); [apply Hg | ..] | | by apply (moved_greeted w)].
  intros Hin. rewrite Hv, (st_ctx _ _ Hm). apply (gd_version _ Hg). by apply (steady_open _ _ Hm).
Qed.

Lemma calm_sound w w' : sound w → calm w w' → conn_inv w' → sound w'.
Proof.
  intros Hs Hc Hi. apply (moved_sound w); [done | by apply calm_moved | done |]. apply (calm_kex w); [done | apply Hs].
Qed.

Lemma replaced_good w w' : good w → replaced w w' → good w'.
Proof.
  intros Hg (Hm & Hk & Hi). apply (moved_good w); [done | done | | done | by apply (moved_kex w); [| | apply Hg]].
  unfold same_versions, kex_state_of. by rewrite Hk.
Qed.

Lemma calm_good w w' : good w → calm w w' → conn_inv w' → good w'.
Proof.
  intros Hg Hc Hi. apply (moved_good w); [done | by apply calm_moved | by apply calm_versions | done |].
  apply (calm_kex w); [done | apply Hg].
Qed.

(** The usual postcondition of processing. *)
Definition keys_taken (w w' : world) : Prop :=
  ks_read_state (kex_state_of w) = KEX_STATE_NEWKEYS
  ∧ in_reader (input w') = transport_read_new_keys (in_reader (input w)) (kp_new_mac (kex w)) (kp_new_crypto (kex w))
                             (kp_new_inflate (kex w)).

(** The keys for receiving change only under the condition [P]. *)
Definition done_ok (w : world) (P : Prop) {A} (_ : A) (w' : world) : Prop :=
  steady w w' ∧ good w' ∧ (in_reader (input w') = in_reader (input w) ∨ P ∧ keys_taken w w').

Lemma done_weaken {A B} w (P Q : Prop) (a : A) (b : B) w' : done_ok w P a w' → (P → Q) → done_ok w Q b w'.
Proof. intros (Hs & Hg & Hk) HPQ. split_and!; [done | done |]. destruct Hk as [Hk | [HP Hk]]; [by left | right]. auto. Qed.

(** A connection that was closed, whatever went before. *)
Lemma closed_app {A} w (a : A) w' : alive w = true → closed w a w' → app_stopped (w_app w').
Proof.
  intros Ha (Hc & Hi & Hin). destruct (alive w') eqn:Ha'; [apply (ci_stopped _ Hi Ha'); lia |].
  apply (cm_stopped _ _ Hc). auto.
Qed.

Lemma closed_good {A} w (a : A) w' :
  context_ok (ctx w) → app_ready (w_app w) → closed w a w' → steady w w' ∧ good w'.
Proof.
  intros Hcx Hr (Hc & Hi & Hin). split; [apply Hc |].
  split; [split; [done | | lia | by apply (st_app _ _ Hc)] | lia | lia].
  apply closed_kex_inv; [by rewrite (st_ctx _ _ Hc) | done].
Qed.

Lemma closed_done {A B} w w1 (a : A) (b : B) w2 : good w → kex_moved w w1 → closed w1 a w2 → done_ok w False b w2.
Proof.
  intros Hg Hm Hc. destruct (closed_good w1 a w2) as [Hs2 Hg2]; [| | done |].
  - rewrite (st_ctx _ _ Hm). apply Hg.
  - apply (st_app _ _ Hm), Hg.
  - split_and!; [transitivity w1; [apply Hm | done] | done |]. left. destruct Hc as (Hc & _).
    by rewrite (cm_reader _ _ Hc), (km_reader _ _ Hm).
Qed.

(** ** [KEXINIT] *)

Lemma entry_set_own (k : kexinit_state) b msg s : entry (ks_kexinit (set_kexinit k b msg s)) b = Some msg.
Proof. by destruct b. Qed.

Lemma entry_set_literal (k : kexinit_state) b msg s : entry (ks_literal_kexinit (set_kexinit k b msg s)) b = Some s.
Proof. by destruct b. Qed.

(** Before the peer's message is handled, ours is out. *)
Lemma own_first_wp w :
  good w → 0 <= ssh_input w → ks_read_state (kex_state_of w) = KEX_STATE_INIT →
  wp nofault (when (negb (bool_decide (is_Some (own_sent w)))) transport_send_kexinit)
    (λ _ w', kex_moved w w' ∧ conn_inv w' ∧ ks_read_state (kex_state_of w') = KEX_STATE_INIT
       ∧ quiet (expire w') ∧ kp_session_id (kex w') = kp_session_id (kex w) ∧ same_versions w w'
       ∧ string_at (ks_literal_kexinit (kex_state_of w')) (cx_is_server (ctx w))
       ∧ ∃ own, own_sent w' = Some own ∧ own_kexinit (cx_kexinit (ctx w)) own) w.
Proof.
  intros Hg Hin Hinit. pose proof (kv_ok _ (sd_kex _ Hg) Hin) as Hk. apply wp_when_last; intros Hown.
  - eapply wp_weaken; [apply transport_send_kexinit_wp; [apply Hg | apply (kv_context _ (sd_kex _ Hg)) | done] |].
    intros [] w1 (Hm & Hi & Hq & msg & literal & Hmsg & [Hlw Hll _] & Hk1). unfold own_sent, same_versions, kex_state_of.
    rewrite Hk1, (st_ctx _ _ Hm). split_and!; try done.
    + exists literal. split_and!; [apply entry_set_literal | done | unfold SSH_MAX_PACKET in Hll; lia].
    + exists msg. split; [| done]. apply entry_set_own.
  - apply negb_false_iff, bool_decide_eq_true_1 in Hown as [own Hown].
    split_and!; [done | apply Hg | done | apply (kw_timer _ Hk); congruence | done | done | |].
    { apply (kw_literal _ Hk). congruence. }
    exists own. split; [done |]. by apply (kw_own _ Hk).
Qed.

(** The state machine after the peer's message. *)
Lemma progress_kex_inv w' own l :
  context_ok (ctx w') → (∀ sid, kp_session_id (kex w') = Some sid → lsh_string_wf sid) →
  own_sent w' = Some own → own_kexinit (cx_kexinit (ctx w')) own →
  string_at (ks_literal_kexinit (kex_state_of w')) (cx_is_server (ctx w')) →
  (∃ h, kp_handler (kex w') = Some h ∧ kex_method_ok h) → ks_algorithm_list (kex_state_of w') = Some l → typed_algorithms l →
  quiet (expire w') → kex_inv w'.
Proof.
  intros Hcx Hsid Hown Hok Hlit Hh Hl Ht Hq. split; [done |]. intros _. split; try done.
  - congruence.
  - intros k Hk. congruence.
  - intros _. split; [done |]. by exists l.
Qed.

Lemma transport_kexinit_handler_wp data w :
  ready w → ks_read_state (kex_state_of w) = KEX_STATE_INIT → Forall is_byte data → lenZ data <= 100000 →
  tc_line_handler (w_conn w) = None →
  wp nofault (transport_kexinit_handler (lenZ data) data) (done_ok w False) w.
Proof.
  intros [Hg Hin _] Hinit Hb Hl Hnl. unfold transport_kexinit_handler. wp_steps.
  eapply wp_seq; [by apply own_first_wp |].
  intros [] w1 (Hm1 & Hi1 & Hinit1 & Hq1 & Hs1 & Hv1 & Hlit1 & own & Hown & Hof). wp_steps.
  pose proof (kv_context _ (sd_kex _ Hg)) as Hcx. pose proof (st_ctx _ _ Hm1) as Hctx.
  unfold compose. rewrite Hctx. unfold own_sent in Hown. rewrite Hctx in Hown.
  destruct (handle_kexinit_outcome (ctx w) (kex_state_of w1) own data) as (state & err & Hh & Hcase); try done.
  unfold kex_state_of in Hh. eapply wp_lift; [exact Hh |]. apply wp_modify.
  set (w2 := set_kex_state state w1).
  assert (kex_moved w w2) as Hm2 by (transitivity w1; [done | apply set_kex_moved]).
  assert (conn_inv w2) as Hi2 by by apply set_kex_inv.
  destruct err as [e |].
  { eapply wp_weaken; [apply transport_disconnect_wp; [done | intros _; by exists e] |].
    intros [] w3. by apply closed_done. }
  destruct Hcase as (Hown2 & Hst & Hver & Hlit & Hpeer & Hhk & l & Hal & Htyped).
  assert (string_at (ks_literal_kexinit state) (cx_is_server (ctx w))) as Hlit2.
  { destruct Hlit1 as (s & Hs & Hsw). exists s. by rewrite Hlit. }
  assert (strings_known w2) as Hknown.
  { split.
    - unfold greeted. change (kex_state_of w2) with state. rewrite Hver, Hv1. by apply (gd_greeted _ Hg).
    - change (kex_state_of w2) with state. by destruct (cx_is_server (ctx w)). }
  apply (the_algorithms_wp _ _ _ _ l); [done |].
  destruct (typed_rd l KEX_KEY_EXCHANGE Htyped) as (o & Ho & Hkind); [unfold KEX_KEY_EXCHANGE; lia |].
  eapply wp_lift; [exact Ho |].
  assert (∃ a, cast_keyexchange o = Ok a) as [a Ha].
  { change (kind_ok 6 o) in Hkind. destruct o as [[] |]; simpl in Hkind; try lia. by eexists. }
  eapply wp_lift; [exact Ha |]. eapply wp_seq; [by apply KEYEXCHANGE_INIT_ok |].
  intros h w3 (Hc3 & Hi3 & Hhok). apply wp_modify. set (w4 := set_kex_handler h w3).
  assert (kex_moved w w4) as Hm4.
  { transitivity w2; [done |]. transitivity w3; [by apply calm_moved | apply set_kex_moved]. }
  assert (conn_inv w4) as Hi4 by by apply set_kex_inv.
  apply wp_when_last; intros Hsome.
  { eapply wp_weaken; [apply transport_disconnect_wp; [done |] |].
    - intros _. eexists. split; [done | short].
    - intros [] w5. by apply closed_done. }
  apply negb_false_iff, bool_decide_eq_true_1 in Hsome as [h' ->].
  assert (kp_state (kex w4) = state) as Hk4 by (change (kp_state (kex w3) = state); by rewrite (cm_kex _ _ Hc3)).
  assert (kp_session_id (kex w4) = kp_session_id (kex w)) as Hs4.
  { change (kp_session_id (kex w3) = kp_session_id (kex w)). by rewrite (cm_kex _ _ Hc3). }
  assert (kex_state_of w4 = state) as Hst4 by exact Hk4.
  split; [apply Hm4 |]. split; [| left; apply (km_reader _ _ Hm4)]. apply (moved_good w); [done | done | | done |].
  { unfold same_versions. by rewrite Hst4, Hver, Hv1. }
  apply (progress_kex_inv w4 own l); rewrite ?(st_ctx _ _ Hm4), ?Hs4, ?Hst4; try done.
  - apply (kw_session _ (kv_ok _ (sd_kex _ Hg) Hin)).
  - unfold own_sent. by rewrite Hst4, (st_ctx _ _ Hm4).
  - by exists h'.
  - change (quiet (expire w3)). by destruct (cm_expire _ _ Hc3) as [-> |].
Qed.

(** ** Other messages *)

Lemma unimplemented_sendable seqno : ∃ p, format_unimplemented seqno = Ok p ∧ sendable p.
Proof.
  eapply formats_sendable; [apply formats_unimplemented | done |].
  rewrite lenZ_cons, lenZ_be32. unfold SSH_MAX_PACKET. lia.
Qed.

Lemma send_unimplemented_wp seqno w :
  good w →
  wp nofault (p ← lift (format_unimplemented seqno); transport_send_packet PUSH (Some p);; mret true)
    (λ r w', done_ok w False r w' ∧ (r = false → waits w')) w.
Proof.
  intros Hg. destruct (unimplemented_sendable seqno) as (p & Hp & Hsb). eapply wp_lift; [exact Hp |].
  eapply wp_seq; [apply transport_send_packet_wp; [done | done | apply Hg] |]. intros [] w1 (Hc1 & Hi1 & _). apply wp_ret.
  split; [split_and!; [apply Hc1 | by apply (calm_good w) | left; apply (cm_reader _ _ Hc1)] | done].
Qed.

Lemma protocol_error_done m w :
  good w → message_ok m → wp nofault (transport_protocol_error m) (done_ok w False) w.
Proof.
  intros Hg Hm. eapply wp_weaken; [apply transport_protocol_error_wp; [apply Hg | done] |].
  intros [] w1. by apply closed_done.
Qed.

Lemma close_done flush w : good w → wp nofault (transport_close flush) (done_ok w False) w.
Proof.
  intros Hg. eapply wp_weaken; [apply close_closed, Hg |]. intros [] w1 Hc. by apply (closed_done w w () () w1).
Qed.

(** [IGNORE] *)
Lemma ignored_good w :
  ready w → ks_read_state (kex_state_of w) = KEX_STATE_IGNORE →
  done_ok w False true (set_kex_state (set_read_state (kp_state (kex w)) KEX_STATE_IN_PROGRESS) w).
Proof.
  intros [Hg Hin _] Hst. split; [apply set_kex_steady |]. split; [| by left].
  destruct (kv_ok _ (sd_kex _ Hg) Hin) as [Hsent Hown Hbusy Htm Hsid Hlit].
  apply (moved_good w); [done | apply set_kex_moved | done | apply set_kex_inv; [apply Hg | done] |].
  split; [apply Hg |]. intros _. split; try done.
  - intros Hn. specialize (Hsent Hn). congruence.
  - intros _. apply Hbusy. by right.
Qed.

(** Taking the keys of the other direction into use. *)
Definition take_new_keys : action () :=
  modify (λ w, set_reader (transport_read_new_keys (in_reader (input w)) (kp_new_mac (kex w))
                             (kp_new_crypto (kex w)) (kp_new_inflate (kex w))) w);;
  modify (set_new_keys None None None);;
  modify (λ w, set_kex_state (reset_kexinit_state (kp_state (kex w))) w);;
  transport_timeout TRANSPORT_TIMEOUT_REEXCHANGE Cb_transport_timeout_reexchange.

Lemma take_new_keys_wp w :
  ready w → ks_read_state (kex_state_of w) = KEX_STATE_NEWKEYS → wp nofault take_new_keys (done_ok w True) w.
Proof.
  intros [Hg Hin Ht] Hst. unfold take_new_keys, transport_timeout, kill_expire. wp_steps.
  set (w1 := set_reader _ w). set (w2 := set_kex_state _ (set_new_keys None None None w1)).
  assert (conn_inv w2) as Hi2.
  { apply set_kex_inv; [apply set_kex_inv; [| done] | done].
    apply (same_conn_inv w); [by split | apply Hg]. }
  destruct (sd_reader _ Hg Hin) as [Hr Hp Hroom Hline].
  split; [split; auto |]. split; [| by right]. split; [split | |].
  - assert (0 <= ssh_input w2) by exact Hin.
    apply set_expire_inv; [apply set_expire_inv; [done | intros _; apply killed_quiet] |].
    intros Hn. change (ssh_input w2 < 0) in Hn. lia.
  - split; [apply Hg |]. intros _.
    set (w3 := set_expire _ _). assert (own_sent w3 = None) as Hnone.
    { unfold own_sent. change (kex_state_of w3) with (reset_kexinit_state (kp_state (kex w))).
      by destruct (cx_is_server (ctx w3)). }
    split; try done.
    + congruence.
    + by intros [? | ?].
    + apply (kw_session _ (kv_ok _ (sd_kex _ Hg) Hin)).
  - intros _. split; try done. by apply (new_keys_inv _ _ _ _ Hr).
  - apply (sd_app _ Hg).
  - intros _. exact (gd_version _ Hg Hin).
  - intros _ Hl. exact (gd_greeted _ Hg Hin Hl).
Qed.

Lemma transport_process_kex_wp msg seqno data w :
  ready w → tc_line_handler (w_conn w) = None → is_u32 seqno → Forall is_byte data →
  0 < lenZ data <= SSH_MAX_PACKET + 1 →
  wp nofault (transport_process_kex msg seqno (lenZ data) data)
    (λ r w', done_ok w (msg = SSH_MSG_NEWKEYS ∧ lenZ data = 1) r w' ∧ (r = false → waits w')) w.
Proof.
  intros Hr Hnl Hq Hb Hl. pose proof (rd_good _ Hr) as Hg. unfold transport_process_kex. wp_steps.
  set (P := msg = SSH_MSG_NEWKEYS ∧ lenZ data = 1).
  assert (∀ (Q : Prop) (m : action ()), wp nofault m (done_ok w Q) w → (Q → P) →
    wp nofault (m;; mret true) (λ r w', done_ok w P r w' ∧ (r = false → waits w')) w) as Htrue.
  { intros Q m Hm HQ. eapply wp_seq; [exact Hm |]. intros [] w1 Hd. apply wp_ret. split; [| done].
    by apply (done_weaken w Q P ()). }
  destruct (ks_read_state (kp_state (kex w))) eqn:Hst.
  - wp_step. destruct (msg =? SSH_MSG_KEXINIT).
    { apply (Htrue False); [| done]. apply transport_kexinit_handler_wp; try done. unfold SSH_MAX_PACKET in Hl. lia. }
    assert (wp nofault (p ← lift (format_unimplemented seqno); transport_send_packet PUSH (Some p);; mret true)
      (λ r w', done_ok w P r w' ∧ (r = false → waits w')) w) as Hun.
    { eapply wp_weaken; [by apply send_unimplemented_wp |]. intros r w1 [Hd Hh]. split; [| done]. by apply (done_weaken w False P r). }
    unfold compose. destruct (tc_packet_handler (w_conn w)) as [h |] eqn:Hh; [| exact Hun].
    destruct (_ || _); [| exact Hun].
    destruct (cb_open _ (sd_conn _ Hg) (rd_open _ Hr)) as [Ha _].
    eapply wp_weaken; [exact (packet_handler_ok h seqno data w (sd_conn _ Hg) Ha Hh (or_introl (rd_open _ Hr)) Hq Hb Hl) |].
    intros r w1 [Hr1 Hw1]. pose proof Hr1 as (Hm1 & _ & _). split; [| done].
    split_and!; [apply Hm1 | by apply (replaced_good w) | left; apply (km_reader _ _ Hm1)].
  - wp_step. wp_step. split; [| done]. apply (done_weaken w False P true); [by apply ignored_good | done].
  - apply (Htrue False); [| done]. destruct (_ || _); [by apply protocol_error_done; [| short] |]. wp_step.
    destruct (kw_busy _ (kv_ok _ (sd_kex _ Hg) (rd_open _ Hr))) as [(h & Hh & Hok) _]; [by left |].
    unfold compose. rewrite Hh. eapply wp_weaken; [by apply keyexchange_handler_ok |].
    intros [] w1 (Hm1 & Hi1 & Hk1 & Hv1). split_and!; [apply Hm1 | by apply (moved_good w) | left; apply (km_reader _ _ Hm1)].
  - destruct (Z.eqb_spec msg SSH_MSG_NEWKEYS) as [Hmsg | _]; cbn [negb].
    2: { apply (Htrue False); [| done]. apply protocol_error_done; [done | short]. }
    destruct (Z.eqb_spec (lenZ data) 1) as [Hone | _]; cbn [negb].
    2: { apply (Htrue False); [| done]. apply protocol_error_done; [done | short]. }
    apply (Htrue True); [by apply take_new_keys_wp | done].
Qed.

End process.
