(* ===== verification/TransportDh.v ===== *)
(** * Key exchange on a connection

    The key exchange methods of [src/src/server_keyexchange.c] and
    [client_keyexchange.c]: starting an exchange when the algorithms are
    chosen, and handling the peer's message.  They keep the contract that
    [transport.c] relies on. *)

From S2P Require Import Prelude Ssh Nettle Atoms Alist LshString Format FormatSpec Wire Parse ParseSpec ParseAtoms Sys SshWrite SshRead Crypto Hash KexKeys Keyexchange KexSpec DhExchange Encrypt TransportRead TransportSpec TransportSafe TransportWrite Io Transport TransportLogic TransportSend TransportKex TransportProcess.
Local Open Scope Z_scope.

Section model.
Context `{Malloc} `{NettleMacros} `{NettleBignum} `{AtomTable} `{OS} `{OopSource} `{Crypto} `{!Algorithms} `{HashFunctions} `{Methods} `{!Events} `{Signatures} `{!MpzRandom}.

(** The objects of [make_server_dh_exchange] and [make_client_dh_exchange]. *)
Inductive dh_exchange : Type :=
  | server_dh_exchange (params : dh_params) (keys : alist keypair)
  | client_dh_exchange (params : dh_params) (db : lookup_verifier).

(** [struct server_dh_handler] and [struct client_dh_handler]; a handler is
    done with after its first message. *)
Inductive dh_handler : Type :=
  | server_handler (dh : dh_state) (key : keypair)
  | client_handler (dh : dh_state) (db : lookup_verifier) (hostkey_algorithm : Z).

(** [lsh_random] is the generator that the writer uses, too. *)
Definition with_random {A} (f : rng → rng * A) : action A := λ w,
  let s := out_writer (output w) in
  let ks := tw_keys s in
  let '(g, a) := f (k_rng ks) in
  Ok (set_writer (mk_twrite (tw_out s) (tw_threshold s) (tw_ignore s)
        (mk_keys (k_compress ks) (k_crypt ks) (k_mac ks) g) (tw_seqno s)) w, a).

Definition generate_secret (params : dh_params) : action (Z * Z) :=
  with_random (λ g, let '(g, r, v) := dh_generate_secret params g in (g, (r, v))).

Definition server_dh_init (params : dh_params) (keys : alist keypair) : action (option dh_handler) :=
  kex ← gets (kp_state ∘ kex);
  key ← lift (ALIST_GET keys (ks_hostkey_algorithm kex));
  match key with
  | None => mret None
  | Some key =>
      dh ← lift (init_dh_state params kex);
      '(y, f) ← generate_secret params;
      mret (Some (server_handler (server_state dh y f) key))
  end.

Definition client_dh_init (params : dh_params) (db : lookup_verifier) : action (option dh_handler) :=
  kex ← gets (kp_state ∘ kex);
  dh ← lift (init_dh_state params kex);
  '(x, e) ← generate_secret params;
  p ← lift (format_kexdh_init e);
  transport_send_packet PUSH (Some p);;
  mret (Some (client_handler (client_state dh x e) db (ks_hostkey_algorithm kex))).

(** Sending the reply, if any, and taking the new keys into use. *)
Definition dh_conclude (h : nettle_hash) (o : dh_outcome) : action () :=
  match o with
  | DhFailed msg => transport_disconnect SSH_DISCONNECT_KEY_EXCHANGE_FAILED (Some msg)
  | DhDone reply exchange_hash K =>
      match reply with
      | Some p => transport_send_packet (mk_wflags false false) (Some p)
      | None => skip
      end;;
      transport_keyexchange_finish h exchange_hash K
  end.

Definition dh_init (x : dh_exchange) : action (option dh_handler) :=
  match x with
  | server_dh_exchange params keys => server_dh_init params keys
  | client_dh_exchange params db => client_dh_init params db
  end.

Definition dh_handle (h : dh_handler) (length : Z) (packet : list Z) : action () :=
  match h with
  | server_handler dh key =>
      o ← lift (server_dh_process dh key length packet);
      dh_conclude (dp_H (dh_the_params dh)) o
  | client_handler dh db alg =>
      o ← lift (client_dh_process dh db alg length packet);
      dh_conclude (dp_H (dh_the_params dh)) o
  end.

End model.

Section proofs.
Context `{MallocOk} `{NettleMacrosOk} `{NettleBignumOk} `{AtomTableOk} `{OSOk} `{OopSourceOk} `{CryptoOk} `{!Algorithms} `{!AlgorithmsOk} `{HashFunctionsOk} `{Methods} `{!AppSpec} `{!Events} `{!EventsOk} `{Signatures} `{!SignaturesOk} `{!MpzRandom} `{!MpzRandomOk}.

Definition exchange_ok (x : dh_exchange) : Prop :=
  match x with
  | server_dh_exchange params keys => params_ok params
      ∧ ∃ m, alist_map keys m ∧ (∀ a, valid_atom a → key_ok keys a) ∧ ∀ a key, m !! a = Some key → keypair_ok key
  | client_dh_exchange params _ => params_ok params
  end.

Definition handler_ok (h : dh_handler) : Prop :=
  match h with
  | server_handler dh key => (∃ input, dh_waiting dh input) ∧ keypair_ok key
  | client_handler dh _ _ => ∃ input, dh_waiting dh input
  end.

(** ** Starting *)

Lemma with_random_wp {A} (f : rng → rng * A) Q w :
  conn_inv w → (∀ w' a, (∃ g g', f g = (g', a)) → calm w w' → conn_inv w' → Q a w') → wp nofault (with_random f) Q w.
Proof.
  intros Hi HQ. unfold with_random, wp. destruct (f (k_rng (tw_keys (out_writer (output w))))) as [g a] eqn:Hf. simpl.
  apply HQ; [eauto | apply set_writer_calm |]. apply set_writer_inv; [done |].
  intros Ha. destruct (ci_writer _ Hi Ha). by split.
Qed.

Lemma generate_secret_wp params Q w :
  params_ok params → conn_inv w →
  (∀ w' x, calm w w' → conn_inv w' → Q (x, mpz_powm (dp_generator params) x (dp_modulo params)) w') →
  wp nofault (generate_secret params) Q w.
Proof.
  intros Hp Hi HQ. apply with_random_wp; [done |]. intros w' a (g & g' & Hg) Hc Hi'.
  destruct (dh_generate_secret_spec params g Hp) as (g2 & x & Hx & _). rewrite Hx in Hg. simplify_eq. by apply HQ.
Qed.

Lemma strings_known_init params w :
  strings_known w → ∃ input, init_dh_state params (kex_state_of w) = Ok (dh_initial params input).
Proof.
  intros ([(v0 & E0 & W0) (v1 & E1 & W1)] & (i0 & F0 & X0) & (i1 & F1 & X1) & _).
  eexists. apply init_dh_state_spec. split; try done. repeat (constructor; [done |]). constructor.
Qed.

Definition started (w : world) (h : option dh_handler) (w' : world) : Prop :=
  calm w w' ∧ conn_inv w' ∧ match h with Some h => handler_ok h | None => True end.

Lemma server_dh_init_wp params keys w :
  exchange_ok (server_dh_exchange params keys) → conn_inv w → strings_known w →
  wp nofault (server_dh_init params keys) (started w) w.
Proof.
  intros (Hp & m & Hm & Hkeys & Hok) Hi Hs. unfold server_dh_init. apply wp_gets. unfold compose.
  destruct Hs as (Hg & Hl0 & Hl1 & Hat). eapply wp_lift; [apply (alist_get_spec keys m); [done | by apply Hkeys] |].
  destruct (m !! _) as [key |] eqn:Hkey; [| apply wp_ret; by split_and!].
  destruct (strings_known_init params w) as [input Hinit]; [done |]. eapply wp_lift; [exact Hinit |].
  apply wp_bind, generate_secret_wp; [done | done |]. intros w' y Hc Hi'. apply wp_ret.
  split_and!; [done | done |]. split; [| by apply (Hok _ _ Hkey)]. exists input. apply server_waiting; [done |].
  apply powm_range, Hp.
Qed.

Lemma client_dh_init_wp params db w :
  exchange_ok (client_dh_exchange params db) → conn_inv w → strings_known w →
  wp nofault (client_dh_init params db) (started w) w.
Proof.
  intros Hp Hi Hs. unfold client_dh_init. apply wp_gets. unfold compose.
  destruct (strings_known_init params w Hs) as [input Hinit]. eapply wp_lift; [exact Hinit |].
  apply wp_bind, generate_secret_wp; [done | done |]. intros w1 x Hc1 Hi1.
  destruct (powm_range (dp_generator params) x (dp_modulo params)) as [He0 He1]; [apply Hp |].
  destruct (format_kexdh_init_spec params _ Hp (conj He0 He1)) as [Hf Hl].
  destruct (formats_sendable _ _ _ Hf) as (p & Hp' & Hsb); [done | done |]. eapply wp_lift; [exact Hp' |].
  eapply wp_seq; [by apply transport_send_packet_wp |]. intros [] w2 (Hc2 & Hi2 & _). apply wp_ret.
  split_and!; [by transitivity w1 | done |]. exists input. by apply client_waiting.
Qed.

Lemma dh_init_wp x w : exchange_ok x → conn_inv w → strings_known w → wp nofault (dh_init x) (started w) w.
Proof. intros Hx Hi Hs. destruct x; [by apply server_dh_init_wp | by apply client_dh_init_wp]. Qed.

(** ** The peer's message *)

(** What a handler may come to. *)
Definition outcome_ok (o : dh_outcome) : Prop :=
  match o with
  | DhFailed m => message_ok m
  | DhDone reply h k => (∀ p, reply = Some p → sendable p) ∧ lsh_string_wf h ∧ lsh_string_wf k
      ∧ ls_length h <= 64 ∧ ls_length k <= 4001
  end.

Lemma server_outcome_ok dh key input e o : server_answers dh key input e o → outcome_ok o.
Proof.
  intros (h & k & [Hh Hk Hhl Hkl _ _] & Hc). destruct (SIGN _ _ _) as [sig |]; [| subst; by short].
  destruct Hc as (_ & reply & -> & Hw & Hrc & Hrl). split_and!; try done. intros p [= <-].
  split; [done | | by rewrite Hrc]. rewrite <- (lenZ_contents reply Hw), Hrc in *. unfold reply_octets.
  rewrite lenZ_cons in *. pose proof (lenZ_nonneg (wire_string (contents (pair_public key)) ++ wire_mpint (dh_f dh) ++ wire_string (contents sig))).
  unfold reply_octets in Hrl. rewrite lenZ_cons in Hrl. lia.
Qed.

Lemma client_outcome_ok dh db alg input key f sig o : client_answers dh db alg input key f sig o → outcome_ok o.
Proof.
  unfold client_answers. destruct (LOOKUP_VERIFIER db alg key) as [v |]; [| intros ->; by short].
  intros (h & k & [Hh Hk Hhl Hkl _ _] & ->). destruct (VERIFY _ _ _ _); [by split_and! | by short].
Qed.

Lemma dh_conclude_wp h o w :
  outcome_ok o → ready w → ks_read_state (kex_state_of w) = KEX_STATE_IN_PROGRESS →
  wp nofault (dh_conclude h o) (λ _ w', kex_moved w w' ∧ conn_inv w' ∧ kex_inv w' ∧ same_versions w w') w.
Proof.
  intros Ho Hr Hst. pose proof (rd_good _ Hr) as Hg. pose proof (sd_conn _ Hg) as Hi.
  pose proof (sd_kex _ Hg) as Hk. pose proof (kv_ok _ Hk (rd_open _ Hr)) as Hko.
  destruct o as [m | reply eh K]; simpl.
  - eapply wp_weaken; [apply transport_disconnect_wp; [done | intros _; by exists m] |].
    intros [] w1 Hc. destruct (moved_closed w w () w1) as (? & ? & ?); [done | apply Hk | done |].
    split_and!; try done. apply calm_versions, Hc.
  - destruct Ho as (Hreply & Hhw & Hkw & Hhl & Hkl).
    apply (wp_seq _ _ _ (settled w)).
    { destruct reply as [p |]; [| by apply settled_refl]. apply transport_send_packet_wp; [done | by apply Hreply | done]. }
    intros [] w1 (Hc1 & Hi1 & _). destruct (kw_busy _ Hko) as [_ Hal]; [by left |].
    eapply wp_weaken; [apply transport_keyexchange_finish_wp |].
    + done.
    + by apply (calm_kex w).
    + unfold kex_state_of. by rewrite (cm_kex _ _ Hc1).
    + split; [| done | done | lia]. unfold kex_state_of in *. by rewrite (cm_kex _ _ Hc1).
    + rewrite (cm_kex _ _ Hc1). apply (kw_session _ Hko).
    + intros [] w2 (Hm & Hi2 & Hk2 & Hv2). split_and!; [| done | done |].
      * transitivity w1; [by apply calm_moved | done].
      * unfold same_versions. by rewrite Hv2, (calm_versions _ _ Hc1).
Qed.

(** The contract of a key exchange handler. *)
Lemma dh_handle_wp h data w :
  handler_ok h → ready w → ks_read_state (kex_state_of w) = KEX_STATE_IN_PROGRESS →
  Forall is_byte data → 0 < lenZ data <= SSH_MAX_PACKET + 1 →
  wp nofault (dh_handle h (lenZ data) data) (λ _ w', kex_moved w w' ∧ conn_inv w' ∧ kex_inv w' ∧ same_versions w w') w.
Proof.
  intros Hh Hr Hst Hb Hl. unfold SSH_MAX_PACKET in Hl. destruct h as [dh key | dh db alg]; simpl.
  - destruct Hh as [[input Hw] Hk].
    destruct (server_dh_process_total dh key input data Hw Hk Hb) as (o & Ho & Hcase); [lia |].
    eapply wp_lift; [exact Ho |]. apply dh_conclude_wp; [| done | done].
    destruct Hcase as [-> | [-> | (e & _ & Ha)]]; [by short | by short | by apply (server_outcome_ok dh key input e)].
  - destruct Hh as [input Hw].
    destruct (client_dh_process_total dh db alg input data Hw Hb) as (o & Ho & Hcase); [lia |].
    eapply wp_lift; [exact Ho |]. apply dh_conclude_wp; [| done | done].
    destruct Hcase as [-> | [-> | (key & f & sig & _ & Ha)]];
      [by short | by short | by apply (client_outcome_ok dh db alg input key f sig)].
Qed.

End proofs.
