(* ===== verification/TransportLoop.v ===== *)
(** * The reading callbacks ([src/src/transport.c])

    [oop_read_ssh] and [oop_timer_retry] loop over the lines and packets that
    are available.  The loops end, since every round but the first takes octets
    from the input buffer, and they keep the invariants.  The only fault is
    that of the reader on a packet it does not manage. *)

From S2P Require Import Prelude Ssh Nettle Atoms Alist LshString Format FormatSpec Wire Parse ParseSpec ParseAtoms Sys SshWrite SshRead Crypto Hash KexKeys Keyexchange KexSpec Encrypt TransportRead TransportSpec TransportSafe TransportWrite Io Transport TransportLogic TransportSend TransportKex TransportProcess.
Local Open Scope Z_scope.

Section loop.
Context `{MallocOk} `{NettleMacrosOk} `{NettleBignumOk} `{AtomTableOk} `{OSOk} `{OopSourceOk} `{CryptoOk} `{!Algorithms} `{!AlgorithmsOk} `{HashFunctionsOk} `{Methods} `{!AppSpec} `{!Events} `{!EventsOk} `{!Handlers} `{!HandlersOk}.

(** ** One packet *)

Lemma parse_disconnect_total b : buffer_wf b → ∃ r, parse_disconnect b = Ok r.
Proof.
  intros Hb. unfold parse_disconnect, mbind, parser_bind.
  destruct (codec_exact (p := parse_uint32) b Hb) as (b1 & r1 & -> & Hb1 & _). rewrite bind_ok_l.
  destruct r1; [| by eexists].
  destruct (codec_exact (p := parse_string) b1 Hb1) as (b2 & r2 & -> & Hb2 & _). rewrite bind_ok_l.
  destruct r2; [| by eexists].
  destruct (codec_exact (p := parse_string) b2 Hb2) as (b3 & r3 & -> & Hb3 & _). rewrite bind_ok_l.
  destruct r3; [| by eexists]. rewrite parse_eod_spec by done. by eexists.
Qed.

(** The packet at hand is [NEWKEYS]. *)
Definition is_newkeys (w : world) (length : Z) : Prop :=
  slice 0 length (lsh_string_data (in_packet (input w))) = [SSH_MSG_NEWKEYS].

Definition processed (w : world) (length : Z) (r : bool) (w' : world) : Prop :=
  done_ok w (is_newkeys w length) r w' ∧ (r = false → 0 < length ∧ waits w').

Lemma processed_true (m : action ()) length w :
  wp nofault m (done_ok w False) w → wp nofault (m;; mret true) (processed w length) w.
Proof.
  intros Hm. eapply wp_seq; [exact Hm |]. intros [] w1 Hd. apply wp_ret. split; [| done].
  by apply (done_weaken w False _ ()).
Qed.

Lemma transport_process_packet_wp seqno length w :
  ready w → tc_line_handler (w_conn w) = None → is_u32 seqno → 0 <= length <= SSH_MAX_PACKET + 1 →
  wp nofault (transport_process_packet seqno length) (processed w length) w.
Proof.
  intros Hr Hnl Hq Hl. pose proof (rd_good _ Hr) as Hg. unfold transport_process_packet.
  destruct (Z.eqb_spec length 0) as [-> | Hnz].
  { apply processed_true, protocol_error_done; [done | short]. }
  apply wp_gets. cbv zeta. unfold compose.
  destruct (sd_reader _ Hg (rd_open _ Hr)) as [_ Hp Hroom _]. pose proof (wf_room _ Hp) as Hwr.
  set (data := slice 0 length _).
  assert (lenZ data = length) as Hld by (apply lenZ_slice; unfold lsh_string_data; lia).
  assert (Forall is_byte data) as Hb by (unfold data, slice; apply Forall_take, Forall_drop, wf_bytes, Hp).
  destruct (rd_ok data 0) as [msg Hmsg]; [lia |]. eapply wp_lift; [exact Hmsg |].
  assert (processed w length true w) as Htrue by (split; [split_and!; [done | done | by left] | done]).
  destruct (msg =? SSH_MSG_IGNORE); [exact Htrue |].
  destruct (msg =? SSH_MSG_UNIMPLEMENTED); [by apply processed_true, close_done |].
  destruct (msg =? SSH_MSG_DISCONNECT).
  { assert (lenZ (drop 1 data) = length - 1) as Hd1 by (unfold lenZ in *; rewrite length_drop; lia).
    destruct (parse_disconnect_total (simple_buffer_init (length - 1) (drop 1 data))) as [r Hpd].
    { rewrite <- Hd1. apply init_wf; [by apply Forall_drop |]. rewrite Hd1. unfold SSH_MAX_PACKET in Hl. lia. }
    eapply wp_lift; [exact Hpd |]. by apply processed_true, close_done. }
  destruct (msg =? SSH_MSG_DEBUG); [exact Htrue |].
  pose proof (transport_process_kex_wp msg seqno data w Hr Hnl Hq Hb) as Hk. rewrite Hld in Hk.
  eapply wp_weaken; [apply Hk; lia |]. intros r w' [Hd Hh].
  split; [| intros Hf; split; [lia | by apply Hh]]. apply (done_weaken w (msg = SSH_MSG_NEWKEYS ∧ length = 1) _ r); [done |].
  intros [-> ->]. unfold is_newkeys. fold data. destruct data as [| c [| ? ?]]; [by unfold lenZ in Hld | |].
  - rewrite rd_0 in Hmsg. by simplify_eq.
  - rewrite !lenZ_cons in Hld. pose proof (lenZ_nonneg l). lia.
Qed.

(** ** What reading may change *)

Record flows (w w' : world) : Prop := {
  fl_input : ssh_input w' = ssh_input w ∨ ssh_input w' = -1;
  fl_reads : ∀ fd, reads w' fd → reads w fd;
  fl_retries : retries w' → retries w;
  fl_handler : waits w → waits w';
  fl_line : tc_line_handler (w_conn w) = None → tc_line_handler (w_conn w') = None;
}.

#[global] Instance flows_preorder : PreOrder flows.
Proof.
  split; [intros w; split; auto |]. intros w1 w2 w3 [Hi1 ? ? ? ?] [Hi2 ? ? ? ?]. split; auto.
  destruct Hi2 as [-> | ->]; auto.
Qed.

Lemma steady_flows w w' : steady w w' → flows w w'.
Proof. intros []. by split. Qed.

Definition same_retry (w w' : world) : Prop :=
  in_retry_length (input w') = in_retry_length (input w) ∧ in_retry_seqno (input w') = in_retry_seqno (input w).

Lemma steady_retry w w' : steady w w' → same_retry w w'.
Proof. intros []. by split. Qed.

Lemma same_retry_trans w1 w2 w3 : same_retry w1 w2 → same_retry w2 w3 → same_retry w1 w3.
Proof. intros [] []. split; congruence. Qed.

(** A packet waits for the application. *)
Record waiting (w : world) : Prop := {
  wt_length : 0 < in_retry_length (input w) <= SSH_MAX_PACKET + 1;
  wt_seqno : is_u32 (in_retry_seqno (input w));
  wt_handler : waits w;
  wt_line : tc_line_handler (w_conn w) = None;
  wt_packet : lsh_string_wf (in_packet (input w));
  wt_room : ls_length (in_packet (input w)) = SSH_MAX_PACKET + 1;
}.

Definition unread_length (w : world) : Z := sr_length (tr_super (in_reader (input w))).

Lemma steady_length w w' : steady w w' → unread_length w' = unread_length w.
Proof. intros Hs. unfold unread_length. by rewrite (st_super _ _ Hs). Qed.

(** The reader was used. *)
Definition with_read (r : transport_read_state) (p : lsh_string) (k : os) (w : world) : world :=
  with_os (set_read_packet p (set_reader r w)) k.

Lemma with_read_inv r p k w : conn_inv w → conn_inv (with_read r p k w).
Proof. apply same_conn_inv. by split. Qed.

Lemma with_read_kex r p k w : kex_inv w → kex_inv (with_read r p k w).
Proof. intros [Hcx Hk]. split; [done |]. intros Hin. destruct (Hk Hin). by split. Qed.

Lemma with_read_flows r p k w : flows w (with_read r p k w) ∧ same_retry w (with_read r p k w).
Proof. split; [by split; auto | by split]. Qed.

Definition stopped (f : fault) : Prop := f = ReaderStopped.

Lemma nofault_stopped {A} (m : action A) Q w : wp nofault m Q w → wp stopped m Q w.
Proof. intros Hm. by apply (wp_mono nofault stopped m Q Q w Hm). Qed.

(** ** A round over packets *)

Lemma use_packet_reader_wp fd w :
  reader_ok w →
  wp stopped (use_packet_reader fd) (λ st w', ∃ r p k, w' = with_read r p k w
    ∧ packet_read (in_reader (input w)) (SSH_MAX_PACKET + 1) r p st ∧ sr_length (tr_super r) <= SSH_MAX_TOTAL
    ∧ (fd = false → ∀ q n, st = TrPacket q n → sr_length (tr_super r) < unread_length w)) w.
Proof.
  intros [Hr Hp Hroom _]. unfold use_packet_reader, wp.
  pose proof (transport_read_packet_ends (in_reader (input w)) fd (w_os w) (in_packet (input w)) Hr Hp) as He.
  rewrite Hroom in He. specialize (He ltac:(unfold SSH_MAX_PACKET; lia)). unfold read_ends in He.
  destruct (transport_read_packet _ _ _ _) as [[[[r k] p] st] | f]; simpl in *; [| by destruct He as [-> _]].
  destruct He as (Hpr & _ & Hlen & Hdec). exists r, p, k. split_and!; try done. intros Hf. by apply Hdec.
Qed.

(** How far a round gets: fewer octets are left to read. *)
Definition shrinks (fd : bool) (w w' : world) : Prop :=
  0 <= ssh_input w' → unread_length w' <= SSH_MAX_TOTAL ∧ (fd = false → unread_length w' < unread_length w).

Definition round_done (fd : bool) (w : world) (r : round) (w' : world) : Prop :=
  flows w w' ∧ good w' ∧ match r with
  | Continue => same_retry w w' ∧ shrinks fd w w'
  | Wait => same_retry w w'
  | Retry => waiting w'
  end.

(** Closing the connection ends the loop. *)
Lemma close_round {A} fd w w1 (m : action A) :
  flows w w1 → same_retry w w1 → context_ok (ctx w1) → app_ready (w_app w1) → wp nofault m (closed w1) w1 →
  wp stopped (m;; mret Continue) (round_done fd w) w1.
Proof.
  intros Hf Hs Hcx Hr Hm. eapply wp_seq; [by apply nofault_stopped |]. intros a w2 Hc. apply wp_ret.
  destruct (closed_good w1 a w2 Hcx Hr Hc) as [Hst Hg]. destruct Hc as (_ & _ & Hin). split_and!.
  - transitivity w1; [done | by apply steady_flows].
  - done.
  - apply (same_retry_trans w w1); [done | by apply steady_retry].
  - intros Hx. lia.
Qed.

Lemma reader_good r p k w :
  good w → tread_inv r → lsh_string_wf p → ls_length p = SSH_MAX_PACKET + 1 → tc_line_handler (w_conn w) = None →
  good (with_read r p k w).
Proof.
  intros Hg Hr Hp Hroom Hline. split; [split; [apply with_read_inv, Hg | apply with_read_kex, Hg | | apply (sd_app _ Hg)] | apply (gd_version _ Hg) | apply (gd_greeted _ Hg)].
  intros _. split; try done. intros [h Hh]. change (tc_line_handler (w_conn w) = Some h) in Hh. congruence.
Qed.

(** A packet was read. *)
Lemma process_round fd w w1 seqno length :
  flows w w1 → same_retry w w1 → ready w1 → is_u32 seqno → 0 <= length <= SSH_MAX_PACKET + 1 →
  tc_line_handler (w_conn w1) = None → shrinks fd w w1 →
  wp stopped (done ← transport_process_packet seqno length;
              if (done : bool) then mret Continue else modify (set_retry length seqno);; mret Retry)
    (round_done fd w) w1.
Proof.
  intros Hf Hs Hr Hq Hl Hline Hsh.
  eapply wp_seq; [by apply nofault_stopped, transport_process_packet_wp |].
  intros b w2 [(Hst & Hg & _) Hh]. assert (flows w w2) as Hf2 by (transitivity w1; [done | by apply steady_flows]).
  destruct b.
  - apply wp_ret. split_and!; [done | done | apply (same_retry_trans w w1); [done | by apply steady_retry] |].
    intros Hin. rewrite (steady_length _ _ Hst). by apply Hsh, (steady_open _ _ Hst).
  - apply wp_modify, wp_ret. destruct (Hh eq_refl) as [Hpos Hsome]. split_and!.
    + transitivity w2; [done | by split; auto].
    + destruct Hg as [[Hi [Hcx Hk] Hrd Hrdy] Hv Hgr].
      split; [split; [by apply (same_conn_inv w2) | | | exact Hrdy] | exact Hv | exact Hgr].
      * split; [done |]. intros Hin. destruct (Hk Hin). by split.
      * intros Hin. destruct (Hrd Hin). by split.
    + destruct (sd_reader _ (rd_good _ Hr) (rd_open _ Hr)) as [_ Hp Hroom _].
      split; [simpl; lia | done | done | | |].
      * change (tc_line_handler (w_conn w2) = None). by apply (st_line _ _ Hst).
      * change (lsh_string_wf (in_packet (input w2))). by rewrite (st_packet _ _ Hst).
      * change (ls_length (in_packet (input w2)) = SSH_MAX_PACKET + 1). by rewrite (st_packet _ _ Hst).
Qed.

Lemma read_packet_round_wp fd w :
  good w → 0 <= ssh_input w → tc_line_handler (w_conn w) = None →
  wp stopped (read_packet_round fd) (round_done fd w) w.
Proof.
  intros Hg Hin Hline. pose proof (sd_reader _ Hg Hin) as Hro. unfold read_packet_round.
  eapply wp_seq; [by apply use_packet_reader_wp |]. intros st w1 (r & p & k & -> & (Hp & Hroom & Hcase) & Hlen & Hdec).
  destruct (with_read_flows r p k w) as [Hf Hs]. set (w1 := with_read r p k w) in *.
  assert (conn_inv w1) as Hi1 by apply with_read_inv, Hg.
  assert (context_ok (ctx w1)) as Hcx by apply (kv_context _ (sd_kex _ Hg)).
  assert (wp stopped (transport_close false;; mret Continue) (round_done fd w) w1) as Hclose
    by (apply close_round; [done | done | done | apply (sd_app _ Hg) | by apply close_closed]).
  assert (tread_inv r → good w1) as Hg1 by (intros; by apply reader_good).
  destruct st as [[] | | e [m |] | | q n]; try done.
  - apply wp_ret. exact (conj Hf (conj (Hg1 Hcase) Hs)).
  - unfold run_event. apply wp_assoc, wp_gets.
    eapply wp_seq; [by apply nofault_stopped, push_event_ok |]. intros [] w2 [Hc2 Hi2]. apply wp_ret.
    refine (conj _ (conj _ _)).
    + transitivity w1; [done | by apply steady_flows, Hc2].
    + apply (calm_good w1); auto.
    + apply (same_retry_trans w w1); [done | apply steady_retry, Hc2].
  - apply close_round; [done | done | done | apply (sd_app _ Hg) |]. apply transport_disconnect_wp; [done |]. intros _. by exists m.
  - destruct Hcase as (-> & Hn & Hr & Ht). apply process_round; try done.
    + split; auto.
    + apply (ti_seqno _ (ro_reader _ Hro)).
    + intros _. split; [done |]. intros Hfd. by apply (Hdec Hfd _ _ eq_refl).
Qed.

(** ** The loops *)

(** Rounds a loop may need: the first may read, each further one takes octets
    from the buffer, and the last finds too few. *)
Definition enough (fuel : nat) (fd : bool) (w : world) : Prop :=
  0 <= ssh_input w → (if fd then SSH_MAX_TOTAL + 2 else unread_length w + 1) < Z.of_nat fuel.

Lemma unread_range w : reader_ok w → 0 <= unread_length w <= SSH_MAX_TOTAL.
Proof. intros Hr. apply tread_room, ti_wf, Hr. Qed.

Lemma enough_start fd w : good w → enough READ_ROUNDS fd w.
Proof.
  intros Hg Hin. pose proof (unread_range w (sd_reader _ Hg Hin)). unfold READ_ROUNDS, SSH_MAX_TOTAL in *. destruct fd; lia.
Qed.

Lemma enough_next fuel fd w w' : good w' → 0 <= ssh_input w → enough (S fuel) fd w → shrinks fd w w' → enough fuel false w'.
Proof.
  intros Hg Hin0 He Hs Hin. specialize (He Hin0). destruct (Hs Hin) as [Hmax Hlt].
  pose proof (unread_range w' (sd_reader _ Hg Hin)). destruct fd; [lia |]. specialize (Hlt eq_refl). lia.
Qed.

Definition packets_done (w : world) (r : round) (w' : world) : Prop :=
  flows w w' ∧ good w' ∧ match r with Retry => waiting w' | _ => same_retry w w' end.

Lemma packets_trans w w1 r w2 : flows w w1 → same_retry w w1 → packets_done w1 r w2 → packets_done w r w2.
Proof.
  intros Hf Hs (Hf2 & Hg & Hr). split_and!; [by transitivity w1 | done |].
  destruct r; done || by apply (same_retry_trans w w1).
Qed.

Lemma read_packets_wp fuel fd w :
  good w → tc_line_handler (w_conn w) = None ∨ ssh_input w < 0 → enough fuel fd w → (0 < fuel)%nat →
  wp stopped (read_packets fuel fd) (packets_done w) w.
Proof.
  revert fd w. induction fuel as [| fuel IH]; intros fd w Hg Hline Hen Hpos; [lia |]. cbn [read_packets].
  apply wp_gets. destruct (Z.leb_spec 0 (ssh_input w)) as [Hin | Hin].
  2: { apply wp_ret. by split_and!. }
  assert (tc_line_handler (w_conn w) = None) as Hn by (destruct Hline; [done | lia]).
  eapply wp_seq; [by apply read_packet_round_wp |]. intros r w1 (Hf & Hg1 & Hr).
  destruct r; [| apply wp_ret; by split_and!..]. destruct Hr as [Hs Hsh].
  eapply wp_weaken; [apply IH |].
  - done.
  - left. by apply (fl_line _ _ Hf).
  - by apply (enough_next fuel fd w).
  - specialize (Hen Hin). pose proof (unread_range w (sd_reader _ Hg Hin)). destruct fd; unfold SSH_MAX_TOTAL in *; lia.
  - intros r w2. by apply packets_trans.
Qed.

(** ** Lines *)

Definition lines_done (w w' : world) : Prop := flows w w' ∧ good w' ∧ same_retry w w'.

Lemma lines_trans w1 w2 w3 : lines_done w1 w2 → lines_done w2 w3 → lines_done w1 w3.
Proof.
  intros (Hf & _ & Hs) (Hf2 & Hg & Hs2).
  refine (conj _ (conj Hg (same_retry_trans _ _ _ Hs Hs2))). by transitivity w2.
Qed.

Lemma steady_lines w w' : steady w w' → good w' → lines_done w w'.
Proof. intros Hs Hg. exact (conj (steady_flows _ _ Hs) (conj Hg (steady_retry _ _ Hs))). Qed.

Lemma use_line_reader_wp fd w :
  reader_ok w → tr_total_length (in_reader (input w)) = 0 →
  wp stopped (use_line_reader fd) (λ st w', ∃ r k, w' = with_read r (in_packet (input w)) k w
    ∧ line_read (in_reader (input w)) r fd (w_os w) k st) w.
Proof.
  intros [Hr Hp Hroom _] Ht. unfold use_line_reader, wp.
  destruct (transport_read_line_ends (in_reader (input w)) fd (w_os w) Hr Ht) as (r & k & st & -> & Hl).
  simpl. by exists r, k.
Qed.

Definition line_round_done (fd : bool) (w : world) (more : bool) (w' : world) : Prop :=
  lines_done w w' ∧ (more = true → shrinks fd w w').

Lemma read_line_round_wp h fd w :
  good w → 0 <= ssh_input w → is_Some (tc_line_handler (w_conn w)) →
  wp stopped (read_line_round h fd) (line_round_done fd w) w.
Proof.
  intros Hg Hin Hline. pose proof (sd_reader _ Hg Hin) as Hro. pose proof (ro_line _ Hro Hline) as Ht.
  unfold read_line_round. eapply wp_seq; [by apply use_line_reader_wp |].
  intros st w1 (r & k & -> & (_ & Hlen & Hdec & Hcase)).
  destruct (with_read_flows r (in_packet (input w)) k w) as [Hf Hs].
  set (w1 := with_read r (in_packet (input w)) k w) in *.
  assert (conn_inv w1) as Hi1 by apply with_read_inv, Hg.
  assert (∀ m : action (), wp nofault m (closed w1) w1 → wp stopped (m;; mret true) (line_round_done fd w) w1) as Hclose.
  { intros m Hm. eapply wp_seq; [by apply nofault_stopped |]. intros [] w2 Hc. apply wp_ret.
    destruct (closed_good w1 () w2) as [Hst Hg2]; [apply (kv_context _ (sd_kex _ Hg)) | apply (sd_app _ Hg) | done |].
    destruct Hc as (_ & _ & Hc). split; [| intros _ Hx; lia].
    refine (conj _ (conj Hg2 (same_retry_trans _ _ _ Hs (steady_retry _ _ Hst)))).
    transitivity w1; [done | by apply steady_flows]. }
  assert (tread_inv r → tr_total_length r = 0 → good w1) as Hg1.
  { intros Hr Hz. split; [split; [done | apply with_read_kex, Hg | | apply (sd_app _ Hg)] | apply (gd_version _ Hg) | apply (gd_greeted _ Hg)]. intros _. by destruct Hro. }
  destruct st as [[] | | e m | line |]; try done.
  - by apply Hclose, close_closed.
  - destruct Hcase as [Hr Hz]. apply wp_ret. split; [| done]. exact (conj Hf (conj (Hg1 Hr Hz) Hs)).
  - destruct Hcase as [Hr Hz]. apply wp_ret. split; [| done]. exact (conj Hf (conj (Hg1 Hr Hz) Hs)).
  - by apply Hclose, close_closed.
  - destruct e; try done. apply Hclose, transport_disconnect_wp; done.
  - destruct Hcase as (Hr & Hz & Hll & Hby). specialize (Hg1 Hr Hz).
    eapply wp_seq; [apply nofault_stopped, line_handler_ok; [by split | done | done] |].
    intros [] w2 [Hst Hg2]. apply wp_ret. split.
    + apply (lines_trans w w1); [exact (conj Hf (conj Hg1 Hs)) | by apply steady_lines].
    + intros _ Hx. rewrite (steady_length _ _ Hst). split; [done |]. intros Hfd. by apply (proj2 (Hdec Hfd) line).
Qed.

Lemma read_lines_wp fuel fd w :
  good w → enough fuel fd w → (0 < fuel)%nat →
  wp stopped (read_lines fuel fd)
    (λ r w', lines_done w w' ∧ (is_Some r → tc_line_handler (w_conn w') = None ∨ ssh_input w' < 0)) w.
Proof.
  revert fd w. induction fuel as [| fuel IH]; intros fd w Hg Hen Hpos; [lia |]. cbn [read_lines]. wp_step. wp_step.
  assert (lines_done w w) as Hrefl by by apply steady_lines.
  unfold compose. destruct (tc_line_handler (w_conn w)) as [h |] eqn:Hh; [| apply wp_ret; auto].
  destruct (Z.leb_spec 0 (ssh_input w)) as [Hin | Hin]; [| apply wp_ret; auto].
  eapply wp_seq; [apply read_line_round_wp; [done | done | by exists h] |]. intros more w1 [Hl1 Hsh].
  destruct more; [| apply wp_ret; split; [done | by intros []]].
  pose proof Hl1 as (_ & Hg1 & _). eapply wp_weaken; [apply IH |].
  - done.
  - by apply (enough_next fuel fd w); [| | | apply Hsh].
  - specialize (Hen Hin). pose proof (unread_range w (sd_reader _ Hg Hin)). destruct fd; unfold SSH_MAX_TOTAL in *; lia.
  - intros r w2 [Hl2 Hr]. split; [by apply (lines_trans w w1) | done].
Qed.

End loop.
