(* ===== verification/TransportRun.v ===== *)
(** * Running a connection ([src/src/transport.c])

    The event loop calls [oop_read_ssh], [oop_write_ssh], [oop_timer_retry] and
    the timer of a connection when they are registered, in any order, and the
    application sends, disconnects and resumes reading in between.  Whatever
    happens, no assertion fails and every callback returns. *)

From S2P Require Import Prelude Ssh Nettle Atoms Alist LshString Format FormatSpec Wire Parse ParseSpec ParseAtoms Sys SshWrite SshRead Crypto Hash KexKeys Keyexchange KexSpec Encrypt TransportRead TransportSpec TransportSafe TransportWrite Io Transport TransportLogic TransportSend TransportKex TransportProcess TransportLoop.
Local Open Scope Z_scope.

Section run.
Context `{MallocOk} `{NettleMacrosOk} `{NettleBignumOk} `{AtomTableOk} `{OSOk} `{OopSourceOk} `{CryptoOk} `{!Algorithms} `{!AlgorithmsOk} `{HashFunctionsOk} `{Methods} `{!AppSpec} `{!Events} `{!Handlers}.

(** ** Events *)

Inductive stimulus : Type :=
  | Readable (fd : Z)
  | Writable (fd : Z)
  | Expired
  | RetryNow
  | Resume
  | Suspend
  | Send (flags : write_flags) (packet : lsh_string)
  | Flush
  | Disconnect (reason : Z) (msg : string).

(** The event loop forgets a time event before it calls back. *)
Definition deliver (e : stimulus) : action () :=
  match e with
  | Readable fd => oop_read_ssh fd OOP_READ
  | Writable fd => oop_write_ssh fd OOP_WRITE
  | Expired => transport_timer
  | RetryNow => oop_do (λ o, cancel_time o Cb_oop_timer_retry);; oop_timer_retry
  | Resume => transport_start_read
  | Suspend => transport_stop_read
  | Send flags packet => transport_send_packet flags (Some packet)
  | Flush => transport_send_packet (mk_wflags false false) None
  | Disconnect reason msg => transport_disconnect reason (Some msg)
  end.

(** What is registered may happen.  A closed input is taken not to become
    readable any more. *)
Definition enabled (e : stimulus) (w : world) : Prop :=
  match e with
  | Readable fd => reads w fd ∧ 0 <= ssh_input w
  | Writable fd => writes w fd
  | Expired => ∃ c, expire w = Some c ∧ co_alive c = true
  | RetryNow => retries w
  | Resume => alive w = true
  | Suspend | Flush => True
  | Send flags packet => f_ignore flags = false ∧ sendable packet
  | Disconnect _ msg => message_ok msg
  end.

(** A sequence of events, until a fault stops the process. *)
Inductive runs : world → list stimulus → result world → Prop :=
  | runs_nil w : runs w [] (Ok w)
  | runs_fault w e es f : enabled e w → deliver e w = Fault f → runs w (e :: es) (Fault f)
  | runs_step w e es w' r : enabled e w → deliver e w = Ok (w', ()) → runs w' es r → runs w (e :: es) r.

(** ** The invariant between events *)

Record registered (w : world) : Prop := {
  rg_reads : ∀ fd, reads w fd → 0 <= ssh_input w → fd = ssh_input w ∧ in_retry_length (input w) = 0;
  rg_retries : retries w → in_retry_length (input w) ≠ 0;
  rg_waiting : in_retry_length (input w) ≠ 0 → waiting w;
}.

Record safe (w : world) : Prop := {
  sf_good : good w;
  sf_registered : registered w;
}.

Lemma flows_registered w w' :
  registered w → flows w w' → same_retry w w' →
  (in_retry_length (input w) ≠ 0 → in_packet (input w') = in_packet (input w)) → registered w'.
Proof.
  intros [Hr Ht Hw] [Hin Hre Htr Hh Hl] [Hlen Hseq] Hp. split; rewrite ?Hlen.
  - intros fd Hfd Hopen. destruct Hin as [Hin | Hin]; [| lia]. rewrite Hin in *. by apply Hr, Hopen; auto.
  - auto.
  - intros Hnz. destruct (Hw Hnz). split; rewrite ?Hlen, ?Hseq, ?(Hp Hnz); auto.
Qed.

Lemma steady_safe w w' : safe w → steady w w' → good w' → safe w'.
Proof.
  intros [_ Hr] Hs Hg. split; [done |]. apply (flows_registered w); [done | by apply steady_flows | by apply steady_retry |].
  intros _. apply (st_packet _ _ Hs).
Qed.

Context `{!EventsOk} `{!HandlersOk}.

Lemma calm_safe w w' : safe w → calm w w' → conn_inv w' → safe w'.
Proof. intros Hs Hc Hi. apply (steady_safe w); [done | apply Hc |]. apply (calm_good w); [apply Hs | done | done]. Qed.

Lemma settled_safe {A} (m : action A) w :
  safe w → wp nofault m (settled w) w → wp nofault m (λ _, safe) w.
Proof. intros Hs Hm. eapply wp_weaken; [exact Hm |]. intros a w' (Hc & Hi & _). by apply (calm_safe w). Qed.

Lemma closed_safe {A} (m : action A) w :
  safe w → wp nofault m (closed w) w → wp nofault m (λ _, safe) w.
Proof. intros Hs Hm. eapply wp_weaken; [exact Hm |]. intros a w' (Hc & Hi & _). by apply (calm_safe w). Qed.

(** ** Starting and stopping to read *)

(** Only registrations and the flag changed. *)
Definition with_reading (b : bool) (s : io_state) (w : world) : world := with_io (set_read_active b w) s.

Lemma with_reading_good b s w :
  good w → (∀ fd, fd_callback (io_oop s) fd OOP_WRITE = fd_callback (io_oop (w_io w)) fd OOP_WRITE) →
  io_nfiles s = io_nfiles (w_io w) →
  (time_callback (io_oop s) Cb_oop_timer_retry = true → alive w = true) →
  (∀ fd ev cb, fd_callback (io_oop s) fd ev = Some cb → cb ≠ Cb_oop_read_ssh → cb ≠ Cb_oop_write_ssh →
     fd_callback (io_oop (w_io w)) fd ev = Some cb) → good (with_reading b s w).
Proof.
  intros [[[[[[Hopen Hrange Hf Hap Hcl Hws Htm Happ Hses Hret Hio] Hout Hact] Hop Hrun Hstp] Hwr] [Hcx Hk] Hrd Hrdy] Hv Hgr] Hwfd Hn Ht Hcb.
  split; [split; [split; [split; [split; [split | |] | | |] |] | split | |] | exact Hv | exact Hgr]; try done.
  - unfold files_ok. change (open_files (with_reading b s w)) with (open_files w).
    change (w_io (with_reading b s w)) with s. rewrite Hn. exact Hf.
  - intros fd. unfold writes. simpl. rewrite Hwfd. apply Hws.
  - by apply (app_io_stable (fd_callback (io_oop (w_io w)))).
  - intros Ha Hac. unfold writes. simpl. rewrite Hwfd. by apply Hact.
  - intros Hin. destruct (Hk Hin). by split.
  - intros Hin. destruct (Hrd Hin). by split.
Qed.

Lemma transport_start_read_wp w :
  safe w → (in_retry_length (input w) ≠ 0 → alive w = true) → wp nofault transport_start_read (λ _, safe) w.
Proof.
  intros [Hg [Hr Ht Hw]] Ha. unfold transport_start_read, oop_do. wp_step. apply wp_when_last; [| by split].
  intros Hna. wp_steps. unfold c_true. change (in_retry_length (input (set_read_active true w))) with (in_retry_length (input w)).
  unfold compose. simpl.
  destruct (Z.eqb_spec (in_retry_length (input w)) 0) as [Hz | Hnz]; cbn [negb]; wp_steps.
  - set (s := mk_io _ _). split; [apply (with_reading_good true s) | ]; try done.
    + intros fd. simpl. rewrite on_fd_ok. by rewrite decide_False by naive_solver.
    + simpl. rewrite on_fd_time. apply (cb_retry _ (sd_conn _ Hg)).
    + intros fd ev cb. simpl. rewrite on_fd_ok. case_decide; [congruence | done].
    + split.
      * intros fd. unfold reads. simpl. rewrite on_fd_ok. case_decide as Hd; [by destruct Hd as [<- _] |]. apply Hr.
      * unfold retries. simpl. rewrite on_fd_time. apply Ht.
      * done.
  - set (s := mk_io _ _). split; [apply (with_reading_good true s) | ]; try done.
    + intros fd. simpl. by rewrite on_time_fd.
    + intros _. by apply Ha.
    + intros fd ev cb. simpl. by rewrite on_time_fd.
    + split.
      * intros fd. unfold reads. simpl. rewrite on_time_fd. apply Hr.
      * done.
      * intros _. destruct (Hw Hnz). by split.
Qed.

(** After a packet had to wait, or when the application is slow. *)
Lemma transport_stop_read_wp w :
  good w → (in_retry_length (input w) ≠ 0 → waiting w) →
  (∀ fd, reads w fd → 0 <= ssh_input w → fd = ssh_input w) →
  wp nofault transport_stop_read (λ _, safe) w.
Proof.
  intros Hg Hw Hr. unfold transport_stop_read, oop_do. wp_steps. simpl.
  set (s := mk_io _ _). change (with_io _ s) with (with_reading false s w). split.
  - apply with_reading_good; try done.
    + intros fd. simpl. rewrite cancel_fd_ok, decide_False by naive_solver. by rewrite cancel_time_fd.
    + simpl. rewrite cancel_fd_time, cancel_time_ok. by rewrite bool_decide_true.
    + intros fd ev cb. simpl. rewrite cancel_fd_ok, cancel_time_fd. by case_decide.
  - split.
    + intros fd. unfold reads. simpl. rewrite cancel_fd_ok, cancel_time_fd. case_decide as Hd; [done |].
      intros Hfd Hin. destruct Hd. split; [| done]. symmetry. by apply Hr.
    + unfold retries. simpl. rewrite cancel_fd_time, cancel_time_ok. by rewrite bool_decide_true.
    + intros Hnz. destruct (Hw Hnz). by split.
Qed.

(** ** The callbacks *)

Lemma oop_read_ssh_wp fd w :
  safe w → reads w fd → 0 <= ssh_input w → wp stopped (oop_read_ssh fd OOP_READ) (λ _, safe) w.
Proof.
  intros [Hg Hreg] Hr Hin. destruct (rg_reads _ Hreg fd Hr Hin) as [-> Hz]. unfold oop_read_ssh.
  apply wp_assert; [done |]. wp_step. apply wp_assert; [apply Z.eqb_refl |]. wp_step.
  unfold compose. rewrite Hz. apply wp_assert; [done |].
  eapply wp_seq; [apply read_lines_wp; [done | by apply enough_start | unfold READ_ROUNDS, SSH_MAX_TOTAL; lia] |].
  intros r w1 [(Hf1 & Hg1 & Hs1) Hline]. assert (registered w1) as Hreg1 by by apply (flows_registered w); [| | | rewrite Hz].
  destruct r as [fd |]; [| by apply wp_skip].
  eapply wp_seq; [apply read_packets_wp; [done | auto | by apply enough_start | unfold READ_ROUNDS, SSH_MAX_TOTAL; lia] |].
  intros r w2 (Hf2 & Hg2 & Hr2).
  assert (same_retry w1 w2 → safe w2) as Hsafe.
  { intros Hs2. split; [done |]. apply (flows_registered w1); [done | done | done |]. destruct Hs1 as [-> _]. by rewrite Hz. }
  destruct r; [by apply wp_skip, Hsafe | by apply wp_skip, Hsafe |].
  apply nofault_stopped, transport_stop_read_wp; [done | done |].
  intros fd' Hfd Hin2. destruct (fl_input _ _ Hf2) as [Hi2 | Hi2]; [| lia]. rewrite Hi2 in *.
  by apply (rg_reads _ Hreg1 fd'); [apply (fl_reads _ _ Hf2) |].
Qed.

(** The waiting packet is about to be handled again. *)
Lemma retried_registered w :
  good w → registered w → ¬ retries w → waiting w →
  good (set_read_active false (set_retry 0 0 w)) ∧ registered (set_read_active false (set_retry 0 0 w)).
Proof.
  intros Hg [Hr Ht Hw] Hno [Hlen _ Hh Hl _ _]. split.
  - destruct Hg as [[Hi [Hcx Hk] Hrd Hrdy] Hv Hgr].
    split; [split; [by apply (same_conn_inv w) | | | exact Hrdy] | exact Hv | exact Hgr].
    + split; [done |]. intros Hin. destruct (Hk Hin). by split.
    + intros Hin. destruct (Hrd Hin). by split.
  - split; [| done | done]. intros fd Hfd Hin. by destruct (Hr fd Hfd Hin).
Qed.

Lemma oop_timer_retry_wp w :
  safe w → alive w = true → ¬ retries w → waiting w → wp stopped oop_timer_retry (λ _, safe) w.
Proof.
  intros [Hg Hreg] Ha Hno Hwait. pose proof Hwait as [Hlen Hseq (h & Hh & Hws) Hline Hp Hroom]. unfold oop_timer_retry.
  wp_step. apply wp_assert; [done |]. wp_step. wp_step. unfold compose.
  apply wp_assert; [unfold c_true; by rewrite (proj2 (Z.eqb_neq _ 0)) by lia |]. apply wp_modify, wp_modify, wp_gets, wp_gets.
  destruct (retried_registered w Hg Hreg Hno Hwait) as [Hg1 Hreg1].
  set (w1 := set_read_active false (set_retry 0 0 w)) in *.
  change (tc_packet_handler (w_conn w1)) with (tc_packet_handler (w_conn w)). rewrite Hh.
  change (in_packet (input w1)) with (in_packet (input w)). cbv iota beta.
  set (length := in_retry_length (input w)) in *. set (data := slice 0 length _).
  pose proof (wf_room _ Hp) as Hwr.
  assert (lenZ data = length) as Hld by (apply lenZ_slice; unfold lsh_string_data; lia).
  assert (Forall is_byte data) as Hb by (unfold data, slice; apply Forall_take, Forall_drop, wf_bytes, Hp).
  assert (wp nofault (packet_handler h (in_retry_seqno (input w)) length data) (λ _, replaced w1) w1) as Hph.
  { rewrite <- Hld at 1. eapply wp_weaken; [apply packet_handler_ok; [apply Hg1 | exact Ha | exact Hh | by right | exact Hseq | exact Hb | lia] |].
    by intros r w' [Hr _]. }
  eapply wp_seq; [by apply nofault_stopped |]. intros b w2 Hr2. pose proof Hr2 as (Hc2 & _ & Hi2).
  assert (safe w2) as Hs2 by (apply (steady_safe w1); [by split | apply Hc2 | by apply (replaced_good w1)]). destruct b; cbn [negb].
  2: { apply nofault_stopped, closed_safe; [done |]. apply transport_disconnect_wp; [done |].
       intros _. eexists. split; [done | short]. }
  assert (in_retry_length (input w2) = 0) as Hz2 by (by rewrite (st_retry _ _ Hc2)).
  eapply wp_seq.
  { apply read_packets_wp; [apply Hs2 | | by apply enough_start, Hs2 | unfold READ_ROUNDS, SSH_MAX_TOTAL; lia].
    left. by rewrite (km_line _ _ Hc2). }
  intros r w3 (Hf3 & Hg3 & Hr3).
  assert (same_retry w2 w3 → safe w3) as Hsafe.
  { intros Hs3. split; [done |]. apply (flows_registered w2); [apply Hs2 | done | done |]. by rewrite Hz2. }
  destruct r; [by apply wp_skip, Hsafe | |].
  - apply nofault_stopped, transport_start_read_wp; [by apply Hsafe |]. destruct Hr3 as [-> _]. by rewrite Hz2.
  - apply wp_skip. split; [done |]. split; [| | done].
    + intros fd Hfd Hin3. exfalso. destruct (rg_reads _ Hreg fd) as [_ Hz]; [| | lia].
      * apply (st_reads _ _ Hc2), (fl_reads _ _ Hf3), Hfd.
      * destruct (fl_input _ _ Hf3) as [Hi3 | Hi3]; [| lia]. rewrite Hi3 in Hin3. by apply (steady_open _ _ Hc2).
    + intros Ht. destruct Hno. by apply (st_retries _ _ Hc2), (fl_retries _ _ Hf3).
Qed.

(** Our [KEXINIT] is out. *)
Lemma sent_kex_inv w w' msg literal :
  kex_inv w → kex_moved w w' → ks_read_state (kex_state_of w) = KEX_STATE_INIT → quiet (expire w') →
  own_kexinit (cx_kexinit (ctx w)) msg → sendable literal → kex w' = kexinit_sent w msg literal → kex_inv w'.
Proof.
  intros [Hcx Hk] Hm Hinit Hq Hown [Hlw Hll _] Hk'. split; [by rewrite (st_ctx _ _ Hm) |]. intros Hin.
  destruct (Hk (proj2 (steady_open _ _ Hm Hin))) as [_ _ _ _ Hsid _].
  assert (own_sent w' = Some msg) as Hs.
  { unfold own_sent, kex_state_of. rewrite Hk', (st_ctx _ _ Hm). apply entry_set_own. }
  assert (ks_read_state (kex_state_of w') = KEX_STATE_INIT) as Hi by (unfold kex_state_of; by rewrite Hk').
  split.
  - congruence.
  - intros k Hk2. rewrite (st_ctx _ _ Hm). congruence.
  - intros [Hb | Hb]; congruence.
  - done.
  - rewrite Hk'. exact Hsid.
  - intros _. unfold kex_state_of. rewrite Hk', (st_ctx _ _ Hm). exists literal.
    split_and!; [apply entry_set_literal | done | unfold SSH_MAX_PACKET in Hll; lia].
Qed.

Lemma sent_versions w w' msg literal : kex w' = kexinit_sent w msg literal → same_versions w w'.
Proof. intros Hk. unfold same_versions, kex_state_of. by rewrite Hk. Qed.

Lemma send_kexinit_safe w :
  safe w → ks_read_state (kex_state_of w) = KEX_STATE_INIT → wp nofault transport_send_kexinit (λ _, safe) w.
Proof.
  intros [Hg Hreg] Hinit. pose proof (sd_kex _ Hg) as Hk.
  eapply wp_weaken; [apply transport_send_kexinit_wp; [apply Hg | apply Hk | done] |].
  intros [] w1 (Hm & Hi & Hq & msg & literal & Hown & Hsb & Hk1).
  apply (steady_safe w); [by split | apply Hm |].
  apply (moved_good w); [done | done | by apply (sent_versions w w1 msg literal) | done |].
  by apply (sent_kex_inv w w1 msg literal).
Qed.

Lemma transport_timer_wp w c :
  safe w → expire w = Some c → co_alive c = true → wp nofault transport_timer (λ _, safe) w.
Proof.
  intros Hs He Ha. pose proof (sd_conn _ (sf_good _ Hs)) as Hi. unfold transport_timer. wp_step. rewrite He.
  apply wp_assert; [done |]. apply wp_modify. set (w1 := set_expire _ w).
  assert (quiet (Some (do_kill_callout c))) as Hq by (intros c' [= <-]; done).
  assert (safe w1) as Hs1.
  { apply (calm_safe w); [done | by apply set_expire_calm | by apply set_expire_inv]. }
  pose proof (sd_conn _ (sf_good _ Hs1)) as Hi1. destruct (co_action c) eqn:Hact.
  - eapply wp_weaken; [apply kill_connection_ok, Hi1 |]. intros [] w2 (Hc2 & Hi2 & _). by apply (calm_safe w1).
  - apply send_kexinit_safe; [done |]. change (ks_read_state (kex_state_of w) = KEX_STATE_INIT).
    assert (¬ quiet (expire w)) as Hnq by (intros Hqq; by apply (Hqq c)).
    assert (0 <= ssh_input w) as Hin.
    { destruct (Z.le_gt_cases 0 (ssh_input w)) as [? | Hneg]; [done |]. by destruct Hnq; apply (cb_timer _ Hi). }
    pose proof (kv_ok _ (sd_kex _ (sf_good _ Hs)) Hin) as Hk. apply (kw_sent _ Hk).
    destruct (own_sent w) eqn:Ho; [| done]. by destruct Hnq; apply (kw_timer _ Hk); rewrite Ho.
  - apply closed_safe; [done |]. apply transport_disconnect_wp; [done |]. intros _. eexists. split; [done | short].
Qed.

Lemma cancel_retry_safe w :
  safe w → let w1 := with_io w (mk_io (cancel_time (io_oop (w_io w)) Cb_oop_timer_retry) (io_nfiles (w_io w))) in
  safe w1 ∧ ¬ retries w1.
Proof.
  intros Hs w1. assert (¬ retries w1) as Hno.
  { unfold retries. simpl. rewrite cancel_time_ok. by rewrite bool_decide_true. }
  split; [| done]. pose proof (sd_conn _ (sf_good _ Hs)) as [[[[Hopen Hrange Hf Hap Hcl Hws Htm Happ Hses Hret Hio] Hout Hact] Hop Hrun Hstp] Hwr].
  apply (calm_safe w); [done | |].
  - apply with_io_calm; [intros fd; simpl; by rewrite cancel_time_fd | done].
  - split; [split; [split; [split | |] | | |] |]; try done.
    + intros fd. unfold writes. simpl. rewrite cancel_time_fd. apply Hws.
    + apply (app_io_stable (fd_callback (io_oop (w_io w)))); [| done]. intros fd ev cb. simpl. by rewrite cancel_time_fd.
    + intros Ha Hac. unfold writes. simpl. rewrite cancel_time_fd. by apply Hact.
Qed.

Lemma deliver_wp e w : safe w → enabled e w → wp stopped (deliver e) (λ _, safe) w.
Proof.
  intros Hs He. pose proof (sd_conn _ (sf_good _ Hs)) as Hi. destruct e as [fd | fd | | | | | flags p | | reason m]; simpl in *.
  - destruct He. by apply oop_read_ssh_wp.
  - apply nofault_stopped, settled_safe; [done |]. by apply oop_write_ssh_wp.
  - destruct He as (c & He & Ha). apply nofault_stopped. by apply (transport_timer_wp w c).
  - unfold oop_do. apply wp_modify. destruct (cancel_retry_safe w Hs) as [Hs1 Hno].
    apply oop_timer_retry_wp; [done | by apply (cb_retry _ Hi) | done |].
    apply (rg_waiting _ (sf_registered _ Hs1)). by apply (rg_retries _ (sf_registered _ Hs)).
  - apply nofault_stopped. by apply transport_start_read_wp.
  - apply nofault_stopped, transport_stop_read_wp; [apply Hs | apply Hs |].
    intros fd Hfd Hin. by apply (rg_reads _ (sf_registered _ Hs)).
  - apply nofault_stopped, settled_safe; [done |]. destruct He. by apply transport_send_packet_wp.
  - apply nofault_stopped, settled_safe; [done |]. by apply transport_send_flush_wp.
  - apply nofault_stopped, closed_safe; [done |]. apply transport_disconnect_wp; [done |]. eauto.
Qed.

(** ** The beginning *)

(** Nothing is registered for the connection yet. *)
Record unused (s : io_state) : Prop := {
  un_callback : ∀ fd ev cb, fd_callback (io_oop s) fd ev = Some cb →
    cb ∉ [Cb_oop_read_ssh; Cb_oop_write_ssh; Cb_oop_read_service; Cb_oop_write_service];
  un_retry : time_callback (io_oop s) Cb_oop_timer_retry = false;
  un_files : 0 <= io_nfiles s < 2 ^ 32 - 4;
}.

Definition new_world (cx : transport_context) (fd_in fd_out : Z) (event : event_method) (g : rng) (s : io_state)
  (k : os) (a : application) : world :=
  let '(c, s) := init_transport_connection cx fd_in fd_out event g s in mk_world c s k a.

(** The application at the beginning. *)
Record app_new (cx : transport_context) (event : event_method) (a : application) : Prop := {
  an_ok : app_ok cx event None a;
  an_open : app_open event a;
  an_ready : app_ready a;
  an_fds : app_fds a = [];
  an_io : ∀ f, (∀ fd ev cb, f fd ev = Some cb → cb ≠ Cb_oop_read_service ∧ cb ≠ Cb_oop_write_service) → app_io f a;
}.

Lemma new_world_safe cx fd_in fd_out event g s k a :
  context_ok cx → 0 <= fd_in → 0 <= fd_out → unused s → app_new cx event a →
  let w := new_world cx fd_in fd_out event g s k a in
  sound w ∧ registered w ∧ alive w = true ∧ in_retry_length (input w) = 0 ∧ tr_total_length (in_reader (input w)) = 0
  ∧ ks_read_state (kex_state_of w) = KEX_STATE_INIT.
Proof.
  intros Hcx Hfi Hfo [Hcb Ht Hn] [Happ Hopn Hrdy Hfds Hio]. cbv zeta.
  set (w := new_world _ _ _ _ _ _ _ _).
  assert (fd_callback (io_oop (w_io w)) = fd_callback (io_oop s) ∧ time_callback (io_oop (w_io w)) = time_callback (io_oop s)
    ∧ open_files w <= io_nfiles (w_io w) < 2 ^ 32 - 2) as (Hfd & Htc & Hof).
  { unfold w, new_world, init_transport_connection. cbn. unfold open_files. cbn.
    destruct (Z.eqb_spec fd_out fd_in) as [-> | Hne]; cbn; rewrite !u32_id by (unfold is_u32; rewrite ?u32_id; unfold is_u32; lia);
      split_and!; try done; repeat case_decide; lia. }
  assert (∀ fd, ¬ reads w fd) as Hnr by (intros fd; unfold reads; rewrite Hfd; intros Hx; destruct (Hcb _ _ _ Hx); set_solver).
  assert (∀ fd, ¬ writes w fd) as Hnw by (intros fd; unfold writes; rewrite Hfd; intros Hx; destruct (Hcb _ _ _ Hx); set_solver).
  assert (¬ retries w) as Hnt by (unfold retries; by rewrite Htc, Ht).
  refine (conj _ (conj _ (conj eq_refl (conj eq_refl (conj eq_refl eq_refl))))); [split; [split; [split; [split; [split | |] | | |] |] | | | exact Hrdy] |].
  - intros _. done.
  - change (-1 <= fd_in). lia.
  - unfold files_ok. change (w_app w) with a. rewrite Hfds. change (lenZ []) with 0. lia.
  - change (w_app w) with a. rewrite Hfds. intros fd Hx. by apply elem_of_nil in Hx.
  - by left.
  - intros fd Hfw. by destruct (Hnw fd).
  - intros Hneg. change (fd_in < 0) in Hneg. lia.
  - exact Happ.
  - done.
  - done.
  - apply Hio. rewrite Hfd. intros fd ev cb Hx. specialize (Hcb _ _ _ Hx). set_solver.
  - intros _. exact Hfo.
  - done.
  - intros _ _. exact Hfi.
  - intros _. exact Hopn.
  - intros _ Hneg. change (fd_in < 0) in Hneg. lia.
  - intros _. change (twrite_wf (make_transport_write_state g)). exact (proj1 (make_transport_write_state_wf g)).
  - split; [exact Hcx |]. intros _.
    assert (own_sent w = None) as Ho by (unfold own_sent; by destruct (cx_is_server (ctx w))).
    split; try done; [congruence | by intros [? | ?]].
  - intros _. split.
    + change (tread_inv make_transport_read_state). apply make_transport_read_state_inv.
    + change (lsh_string_wf (lsh_string_alloc (SSH_MAX_PACKET + 1))).
      apply lsh_string_alloc_wf. unfold is_u32, SSH_MAX_PACKET. lia.
    + reflexivity.
    + by intros [].
  - split; [intros fd Hfr; by destruct (Hnr fd) | done | done].
Qed.

Lemma version_line version :
  lsh_string_wf version → ls_length version <= 1000 →
  ∃ s, ssh_format_string ("%lS" ++ CRLF)%string [FStr version] = Ok s ∧ lsh_string_wf s ∧ 0 < ls_length s < 2 ^ 20.
Proof.
  intros Hv Hl. pose proof (wf_length _ Hv) as Hl0. unfold is_u32 in Hl0.
  destruct (ssh_format_string_spec ("%lS" ++ CRLF) [FStr version] [PBytes (contents version); PBytes [13]; PBytes [10]]
    (contents version ++ [13; 10])) as (s & Hs & Hw & Hc & _).
  - change ("%lS" ++ CRLF)%string with (String "%" (String "l" (String "S" CRLF))).
    unfold spec_format, CRLF. cbn -[contents]. by rewrite <- (lenZ_contents version Hv), slice_all.
  - cbn. done.
  - apply Forall_cons; split; [exact Hv | constructor].
  - rewrite lenZ_app, lenZ_contents by done. change (lenZ [13; 10]) with 2. lia.
  - exists s. split_and!; try done; rewrite <- (lenZ_contents s Hw), Hc, lenZ_app, lenZ_contents by done;
      change (lenZ [13; 10]) with 2; lia.
Qed.

(** Registering a line handler before anything was read. *)
Lemma set_line_handler_safe h w :
  sound w → registered w → string_at (ks_version (kex_state_of w)) (cx_is_server (ctx w)) →
  in_retry_length (input w) = 0 → tr_total_length (in_reader (input w)) = 0 → safe (set_line_handler (Some h) w).
Proof.
  intros [Hi [Hcx Hk] Hrd Hrdy] [Hr Ht Hw] Hv Hz Htot. split; [split; [split | |] | by split].
  - by apply (same_conn_inv w).
  - split; [done |]. intros Hin. destruct (Hk Hin). by split.
  - intros Hin. destruct (Hrd Hin). by split.
  - exact Hrdy.
  - by intros _.
  - done.
Qed.

Lemma moved_registered w w' : registered w → kex_moved w w' → registered w'.
Proof.
  intros Hr Hm. apply (flows_registered w); [done | apply steady_flows, Hm | apply steady_retry, Hm |].
  intros _. apply (st_packet _ _ Hm).
Qed.

(** Sending the version string. *)
Lemma send_version_wp version w :
  sound w → alive w = true → lsh_string_wf version → ls_length version <= 1000 →
  let w1 := set_kex_state (set_version (kp_state (kex w)) (cx_is_server (ctx w)) version) w in
  wp nofault (send_version_line version) (settled w1) w1 ∧ sound w1.
Proof.
  intros Hs Ha Hv Hl w1. unfold send_version_line.
  assert (conn_inv w1) as Hi1 by (apply set_kex_inv; [apply Hs | done]). split.
  - destruct (version_line version Hv Hl) as (s & Hfmt & Hsw & Hsl). eapply wp_lift; [exact Hfmt |]. eapply wp_seq.
    + apply (use_writer_wp _ (λ _, True)); [done | done |].
      destruct (write_string_spec (out_writer (output w1)) (w_os w1) (mk_wflags true false) s)
        as (s' & k' & st & Hw & _ & _ & Hwf & _); [by apply Hi1 | done | done | done |].
      exists s', k', st. auto.
    + intros st w2 (Hs2 & _). apply wp_when_last; [| done]. intros _.
      eapply wp_weaken; [apply close_settled, Hs2 |]. intros [] w3. by apply (settled_settled w1 () w2).
  - apply (moved_sound w); [done | apply set_kex_moved | done |]. destruct (sd_kex _ Hs) as [Hcx Hk].
    split; [done |]. intros Hin. destruct (Hk Hin). by split.
Qed.

Lemma transport_handshake_wp version h w :
  sound w → registered w → alive w = true → in_retry_length (input w) = 0 →
  tr_total_length (in_reader (input w)) = 0 → ks_read_state (kex_state_of w) = KEX_STATE_INIT →
  lsh_string_wf version → ls_length version <= 1000 →
  wp nofault (transport_handshake version h) (λ _, safe) w.
Proof.
  intros Hs Hreg Ha Hz Htot Hinit Hv Hl. unfold transport_handshake. wp_step. apply wp_modify.
  destruct (send_version_wp version w Hs Ha Hv Hl) as [Hsend Hs1]. unfold compose.
  set (w1 := set_kex_state _ w) in *. assert (kex_moved w w1) as Hm1 by apply set_kex_moved.
  assert (string_at (ks_version (kex_state_of w1)) (cx_is_server (ctx w))) as Hv1.
  { exists version. split_and!; [| done | lia]. unfold w1, kex_state_of. simpl. by destruct (cx_is_server (ctx w)). }
  eapply wp_seq; [exact Hsend |]. intros [] w2 (Hc2 & Hi2 & _).
  assert (kex_moved w w2) as Hm2 by (transitivity w1; [done | by apply calm_moved]).
  assert (sound w2) as Hs2 by by apply (calm_sound w1).
  assert (ks_read_state (kex_state_of w2) = KEX_STATE_INIT) as Hinit2 by (unfold kex_state_of; by rewrite (cm_kex _ _ Hc2)).
  eapply wp_seq; [apply transport_send_kexinit_wp; [done | apply Hs2 | done] |].
  intros [] w3 (Hm3 & Hi3 & Hq3 & msg & literal & Hown & Hsb & Hk3).
  assert (kex_moved w w3) as Hm by by transitivity w2.
  apply wp_modify, transport_start_read_wp; [apply set_line_handler_safe |].
  - apply (moved_sound w2); [done | done | done |]. by apply (sent_kex_inv w2 w3 msg literal); [apply Hs2 | ..].
  - by apply (moved_registered w).
  - rewrite (sent_versions w2 w3 msg literal Hk3), (calm_versions w1 w2 Hc2), (st_ctx _ _ Hm). exact Hv1.
  - by rewrite (st_retry _ _ Hm).
  - by rewrite (km_reader _ _ Hm).
  - intros Hnz. change (in_retry_length (input w3) ≠ 0) in Hnz. by rewrite (st_retry _ _ Hm) in Hnz.
Qed.

(** Runs keep the invariant. *)
Lemma runs_safe w es r :
  runs w es r → safe w → match r with Ok w' => safe w' | Fault f => f = ReaderStopped end.
Proof.
  induction 1 as [w | w e es f He Hd | w e es w' r He Hd _ IH]; intros Hs; [done | |].
  - pose proof (deliver_wp e w Hs He) as Hwp. unfold wp in Hwp. by rewrite Hd in Hwp.
  - apply IH. pose proof (deliver_wp e w Hs He) as Hwp. unfold wp in Hwp. by rewrite Hd in Hwp.
Qed.


(** C12: the keys for receiving change only at the right moment: processing a
    packet replaces them only if a key exchange is complete on our side
    and the packet is [NEWKEYS], a single octet; they become the keys the key
    exchange prepared. *)
Theorem transport_process_packet_keys seqno length w :
  ready w → tc_line_handler (w_conn w) = None → is_u32 seqno → 0 <= length <= SSH_MAX_PACKET + 1 →
  ∃ w' r, transport_process_packet seqno length w = Ok (w', r) ∧ good w'
    ∧ (in_reader (input w') = in_reader (input w)
       ∨ is_newkeys w length ∧ ks_read_state (kex_state_of w) = KEX_STATE_NEWKEYS
         ∧ in_reader (input w') = transport_read_new_keys (in_reader (input w)) (kp_new_mac (kex w))
                                    (kp_new_crypto (kex w)) (kp_new_inflate (kex w))).
Proof.
  intros Hr Hl Hq Hn. pose proof (transport_process_packet_wp seqno length w Hr Hl Hq Hn) as Hwp. unfold wp in Hwp.
  destruct (transport_process_packet seqno length w) as [[w' r] | f]; [| done]. exists w', r. simpl in Hwp.
  destruct Hwp as [(_ & Hg & Hk) _]. split; [done |]. split; [done |]. exact Hk.
Qed.

End run.
