(* ===== verification/Forward.v ===== *)
(** * Forwarding packets to a service ([src/src/transport_forward.c])

    Above the transport, lshd forwards decrypted packets to the process that
    implements the service, and packets of the service to the transport.  Each
    direction is buffered; a full buffer makes the other side wait.  The kill
    method, the event handler and the packet handler of a connection with
    forwarding are modelled, as are the callbacks of the event loop for the
    service's descriptors. *)

From S2P Require Import Prelude Ssh Nettle Atoms Alist LshString Format FormatSpec Wire Parse ParseSpec ParseAtoms Sys SshWrite SshRead ServiceRead Crypto Hash KexKeys Keyexchange KexSpec DhExchange Encrypt TransportRead TransportSpec TransportSafe TransportWrite Io Transport TransportLogic TransportSend TransportKex TransportProcess TransportDh.
Local Open Scope Z_scope.

Definition FORWARD_WRITE_BUFFER_SIZE := 3 * SSH_MAX_PACKET.

(** [struct transport_forward], with the state of the service's descriptors
    outside the process. *)
Record transport_forward `{OS} := mk_forward {
  service_in : Z;
  service_reader : option service_read_state;
  service_read_active : bool;
  service_out : Z;
  service_writer : option ssh_write_state;
  service_write_active : bool;
  service_os : os;
}.

Arguments transport_forward {_}.
Arguments mk_forward {_}.

(** The function pointers of lshd. *)
Inductive lshd_event_method : Set := Lshd_event_handler | Forward_event_handler.
Inductive lshd_packet_method : Set := Lshd_packet_handler | Forward_packet_handler.
Inductive lshd_line_method : Set := Lshd_line_handler.

#[global] Instance lshd_packet_method_eq_dec : EqDecision lshd_packet_method.
Proof. solve_decision. Defined.

#[export] Instance lshd_methods `{OS} `{HashFunctions} `{Signatures} : Methods := {|
  application := transport_forward;
  event_method := lshd_event_method;
  packet_method := lshd_packet_method;
  line_method := lshd_line_method;
  kex_method := dh_handler;
|}.

Section model.
Context `{Malloc} `{NettleMacros} `{NettleBignum} `{AtomTable} `{OS} `{OopSource} `{Crypto} `{!Algorithms} `{HashFunctions} `{Signatures}.

Definition init_transport_forward (k : os) : transport_forward := mk_forward (-1) None false (-1) None false k.

(** ** Fields *)

Definition set_app (f : transport_forward → transport_forward) (w : world) : world := with_app w (f (w_app w)).

Definition set_service (fd_in fd_out : Z) (a : transport_forward) : transport_forward :=
  mk_forward fd_in (service_reader a) (service_read_active a) fd_out (service_writer a) (service_write_active a) (service_os a).
Definition set_service_reader (r : service_read_state) (k : os) (a : transport_forward) : transport_forward :=
  mk_forward (service_in a) (Some r) (service_read_active a) (service_out a) (service_writer a) (service_write_active a) k.
Definition set_service_read_active (b : bool) (a : transport_forward) : transport_forward :=
  mk_forward (service_in a) (service_reader a) b (service_out a) (service_writer a) (service_write_active a) (service_os a).
Definition set_service_writer (s : ssh_write_state) (k : os) (a : transport_forward) : transport_forward :=
  mk_forward (service_in a) (service_reader a) (service_read_active a) (service_out a) (Some s) (service_write_active a) k.
Definition set_service_write_active (b : bool) (a : transport_forward) : transport_forward :=
  mk_forward (service_in a) (service_reader a) (service_read_active a) (service_out a) (service_writer a) b (service_os a).

Definition set_event_handler (h : lshd_event_method) : world → world := with_conn (λ c,
  mk_connection (tc_alive c) (tc_ctx c) (tc_kex c) (tc_expire c) (tc_input c) (tc_output c) (tc_closing c)
    h (tc_packet_handler c) (tc_line_handler c)).

Definition install_packet_handler (h : lshd_packet_method) : world → world := set_packet_handler (Some h).

(** The members of a null pointer. *)
Definition the_writer : action ssh_write_state :=
  s ← gets (service_writer ∘ w_app);
  match s with Some s => mret s | None => lift (Fault NullPointer) end.

Definition use_service_writer (f : ssh_write_state → os → result (ssh_write_state * os * (errno + Z)))
  : action (errno + Z) :=
  s ← the_writer;
  k ← gets (service_os ∘ w_app);
  '(s, k, done) ← lift (f s k);
  modify (set_app (set_service_writer s k));;
  mret done.

Definition use_service_reader (fd : bool) : action service_ret :=
  r ← gets (service_reader ∘ w_app);
  k ← gets (service_os ∘ w_app);
  match r with
  | Some r =>
      '(r, k, status) ← lift (in_reader_call (service_read_packet r fd k));
      modify (set_app (set_service_reader r k));;
      mret status
  | None => lift (Fault NullPointer)
  end.

(** ** Closing *)

Definition transport_forward_close : action () :=
  self ← gets w_app;
  when (0 <=? service_in self) (
    close_fd (service_in self);;
    when (negb (service_in self =? service_out self)) (close_fd (service_out self));;
    modify (set_app (set_service (-1) (-1)))).

Definition transport_forward_kill : action () :=
  transport_forward_close;;
  transport_connection_kill.

(** ** Starting and stopping *)

Definition forward_start_read : action () :=
  self ← gets w_app;
  when (negb (service_read_active self)) (
    modify (set_app (set_service_read_active true));;
    oop_do (λ o, on_fd o (service_in self) OOP_READ Cb_oop_read_service)).

Definition forward_stop_read : action () :=
  self ← gets w_app;
  when (service_read_active self) (
    modify (set_app (set_service_read_active false));;
    oop_do (λ o, cancel_fd o (service_in self) OOP_READ)).

Definition forward_start_write : action () :=
  self ← gets w_app;
  when (negb (service_write_active self)) (
    modify (set_app (set_service_write_active true));;
    oop_do (λ o, on_fd o (service_out self) OOP_WRITE Cb_oop_write_service)).

Definition forward_stop_write : action () :=
  self ← gets w_app;
  when (service_write_active self) (
    modify (set_app (set_service_write_active false));;
    oop_do (λ o, cancel_fd o (service_out self) OOP_WRITE)).

(** All events but [PUSH]. *)
Definition forward_event (e : transport_event) : action () :=
  match e with
  | TRANSPORT_EVENT_START_APPLICATION => forward_start_read
  | TRANSPORT_EVENT_STOP_APPLICATION => forward_stop_read
  | TRANSPORT_EVENT_KEYEXCHANGE_COMPLETE => lift (Fault FatalError)
  | TRANSPORT_EVENT_CLOSE =>
      self ← gets w_app;
      lift (c_assert (0 <=? service_in self));;
      transport_forward_close
  | TRANSPORT_EVENT_PUSH => lift (Fault NonTermination)
  end.

Definition transport_forward_setup (fd_in fd_out : Z) : action () :=
  self ← gets w_app;
  lift (c_assert (service_in self =? -1));;
  modify (set_app (λ a, mk_forward fd_in (Some make_service_read_state) (service_read_active a)
    fd_out (Some (init_ssh_write_state FORWARD_WRITE_BUFFER_SIZE)) (service_write_active a) (service_os a)));;
  modify (set_event_handler Forward_event_handler);;
  modify (install_packet_handler Forward_packet_handler);;
  modify (λ w, with_io w (io_register_fd (w_io w) fd_in));;
  when (negb (fd_out =? fd_in)) (modify (λ w, with_io w (io_register_fd (w_io w) fd_out)));;
  forward_start_read.

(** ** Using the transport *)

Section disconnecting.
Context `{!Events}.

(** [done > 0 || errno == EWOULDBLOCK] *)
Definition service_written (done : errno + Z) : bool :=
  match done with inr n => 0 <? n | inl e => bool_decide (e = EWOULDBLOCK) end.

(** What [forward_event_handler] and [transport_forward_service_packet] do
    after a write. *)
Definition service_write_done (done : errno + Z) : action () :=
  if service_written done then
    s ← the_writer;
    if c_true (sw_length s) then forward_start_write else forward_stop_write
  else
    transport_disconnect SSH_DISCONNECT_BY_APPLICATION (Some "Connection to service layer failed.").

Definition forward_push : action () :=
  self ← gets w_app;
  when (0 <=? service_out self) (
    s ← the_writer;
    when (0 <? sw_length s) (
      done ← use_service_writer (λ s k, ssh_write_flush s k 0);
      service_write_done done)).

(** Zero when the packet does not fit in the buffer. *)
Definition transport_forward_service_packet (seqno length : Z) (packet : list Z) : action bool :=
  lift (c_assert (0 <? length));;
  s ← the_writer;
  available ← lift (ssh_write_available s);
  if available <? u32 (length + 8) then mret false
  else
    let header := WRITE_UINT32 seqno ++ WRITE_UINT32 length in
    done ← use_service_writer (λ s k, ssh_write_data s k 0 8 header);
    done ← (if service_written done
            then use_service_writer (λ s k, ssh_write_data s k 0 length packet) else mret done);
    service_write_done done;;
    mret true.

Definition forward_packet_handler (seqno length : Z) (packet : list Z) : action bool :=
  lift (c_assert (0 <? length));;
  msg ← lift (rd packet 0);
  if SSH_FIRST_LOCAL <=? msg then
    p ← lift (format_unimplemented seqno);
    transport_send_packet PUSH (Some p);;
    mret true
  else transport_forward_service_packet seqno length packet.

(** ** The service's descriptors *)

Definition transport_forward_packet (length : Z) (packet : list Z) : action () :=
  p ← lift (ssh_format_string "%ls" [FInt length; FBytes packet]);
  transport_send_packet (mk_wflags false false) (Some p);;
  msg ← lift (rd packet 0);
  when (msg =? SSH_MSG_DISCONNECT) (transport_close true).

(** One round; whether the loop goes on. *)
Definition read_service_round (fd : bool) : action bool :=
  status ← use_service_reader fd;
  match status with
  | SvStatus SSH_READ_IO_ERROR =>
      transport_disconnect SSH_DISCONNECT_BY_APPLICATION (Some "Read from service layer failed.");; mret true
  | SvProtocolError _ =>
      transport_disconnect SSH_DISCONNECT_BY_APPLICATION (Some "Invalid data from service layer.");; mret true
  | SvStatus SSH_READ_EOF =>
      transport_disconnect SSH_DISCONNECT_BY_APPLICATION (Some "Service done.");; mret true
  | SvStatus SSH_READ_PUSH =>
      transport_send_packet (mk_wflags false false) None;; mret false
  | SvStatus SSH_READ_PENDING => mret false
  | SvStatus _ => mret true
  | SvComplete _ length packet =>
      (if length =? 0 then
         transport_disconnect SSH_DISCONNECT_BY_APPLICATION (Some "Received empty packet from service layer.")
       else transport_forward_packet length packet);;
      mret true
  end.

Fixpoint read_service (fuel : nat) (fd : bool) : action () :=
  match fuel with
  | O => lift (Fault NonTermination)
  | S fuel =>
      self ← gets w_app;
      if (0 <=? service_in self) && service_read_active self then
        more ← read_service_round fd;
        if (more : bool) then read_service fuel false else skip
      else skip
  end.

(** Every round but the first and the last takes octets from the buffer. *)
Definition SERVICE_ROUNDS : nat := Z.to_nat (SSH_MAX_PACKET + SERVICE_READ_AHEAD + 11).

Definition oop_read_service (fd : Z) (event : oop_event) : action () :=
  self ← gets w_app;
  lift (c_assert (fd =? service_in self));;
  lift (c_assert (bool_decide (event = OOP_READ)));;
  read_service SERVICE_ROUNDS (0 <=? fd).

Definition oop_write_service (fd : Z) (event : oop_event) : action () :=
  self ← gets w_app;
  lift (c_assert (fd =? service_out self));;
  lift (c_assert (bool_decide (event = OOP_WRITE)));;
  done ← use_service_writer (λ s k, ssh_write_flush s k 0);
  match done with
  | inr _ =>
      s ← the_writer;
      when (negb (c_true (sw_length s))) forward_stop_write;;
      s ← the_writer;
      available ← lift (ssh_write_available s);
      when (SSH_MAX_PACKET + 8 <? available) transport_start_read
  | inl e =>
      when (negb (bool_decide (e = EWOULDBLOCK)))
        (transport_disconnect SSH_DISCONNECT_BY_APPLICATION (Some "Connection to service layer failed."))
  end.

End disconnecting.

End model.
