(* ===== verification/ForwardSafe.v ===== *)
(** * Safety of forwarding

    What holds of a connection of lshd before and while a service runs, and
    that the event handler, the packet handler, the callbacks and the kill
    method of [transport_forward.c] keep it. *)

From S2P Require Import Prelude Ssh Nettle Atoms Alist LshString Format FormatSpec Wire Parse ParseSpec ParseAtoms Sys SshWrite SshRead ServiceRead Crypto Hash KexKeys Keyexchange KexSpec DhExchange Encrypt TransportRead TransportSpec TransportSafe TransportWrite Io Transport TransportLogic TransportSend TransportKex TransportProcess TransportDh TransportLoop TransportRun Forward.
Local Open Scope Z_scope.

Section spec.
Context `{MallocOk} `{NettleMacrosOk} `{NettleBignumOk} `{AtomTableOk} `{OSOk} `{OopSourceOk} `{CryptoOk} `{!Algorithms} `{!AlgorithmsOk} `{HashFunctionsOk} `{Signatures} `{!SignaturesOk}.

(** Before a service is started. *)
Record idle (a : transport_forward) : Prop := {
  id_in : service_in a = -1;
  id_out : service_out a = -1;
  id_read : service_read_active a = false;
  id_write : service_write_active a = false;
}.

Definition writer_ok (a : transport_forward) : Prop :=
  ∃ s, service_writer a = Some s ∧ write_wf s ∧ sw_size s = FORWARD_WRITE_BUFFER_SIZE.

(** Afterwards. *)
Record serving (a : transport_forward) : Prop := {
  sv_writer : writer_ok a;
  sv_reader : is_Some (service_reader a);
  sv_fds : service_in a = -1 ∧ service_out a = -1 ∨ 0 <= service_in a ∧ 0 <= service_out a;
}.

Definition service_fds (a : transport_forward) : list Z :=
  if service_in a <? 0 then []
  else service_in a :: (if service_in a =? service_out a then [] else [service_out a]).

(** What is registered: octets wait when [oop_write_service] is. *)
Record service_io (f : Z → oop_event → option callback) (a : transport_forward) : Prop := {
  so_read : ∀ fd, f fd OOP_READ = Some Cb_oop_read_service → fd = service_in a ∧ service_read_active a = true;
  so_write : ∀ fd, f fd OOP_WRITE = Some Cb_oop_write_service →
    fd = service_out a ∧ service_write_active a = true ∧ ∃ s, service_writer a = Some s ∧ 0 < sw_length s;
}.

Lemma service_fds_few a : lenZ (service_fds a) <= 2.
Proof. unfold service_fds. repeat case_match; vm_compute; discriminate. Qed.

Lemma service_io_stable f f' a :
  (∀ fd ev cb, f' fd ev = Some cb → cb ≠ Cb_oop_read_ssh → cb ≠ Cb_oop_write_ssh → f fd ev = Some cb) →
  service_io f a → service_io f' a.
Proof. intros Hf [Hr Hw]. split; intros fd Hfd; [apply Hr | apply Hw]; by apply Hf. Qed.

(** The reader is in order between the events. *)
Definition service_ready (a : transport_forward) : Prop :=
  0 <= service_in a → ∃ r, service_reader a = Some r ∧ service_wf r.

Lemma stopped_ready a : service_in a = -1 → service_ready a.
Proof. unfold service_ready. lia. Qed.

Lemma reader_preorder : PreOrder (λ a a' : transport_forward, service_reader a' = service_reader a).
Proof. split; [done | intros a1 a2 a3; congruence]. Qed.

#[export] Instance lshd_spec : AppSpec := {|
  app_ok cx e p a := cx_is_server cx = true
    ∧ match e with
      | Lshd_event_handler => idle a ∧ p ≠ Some Forward_packet_handler
      | Forward_event_handler => serving a ∧ p = Some Forward_packet_handler
      end;
  app_open e a := match e with Lshd_event_handler => True | Forward_event_handler => 0 <= service_in a end;
  app_stopped a := service_in a = -1;
  app_ready := service_ready;
  app_stopped_ready := stopped_ready;
  app_same a a' := service_reader a' = service_reader a;
  app_same_preorder := reader_preorder;
  app_fds := service_fds;
  app_fds_few := service_fds_few;
  app_io := service_io;
  app_io_stable := service_io_stable;
  app_waits h := h = Forward_packet_handler;
  kex_method_ok := handler_ok;
|}.

(** ** Changing registrations and own fields *)

Definition forward_changed (a : transport_forward) (o : oop) (w : world) : world :=
  with_io (set_app (λ _, a) w) (mk_io o (io_nfiles (w_io w))).

Lemma forward_inv a o w :
  conn_inv w → app_ok (ctx w) (tc_event_handler (w_conn w)) (tc_packet_handler (w_conn w)) a →
  service_in a = service_in (w_app w) → service_out a = service_out (w_app w) → service_io (fd_callback o) a →
  (∀ fd, fd_callback o fd OOP_WRITE = Some Cb_oop_write_ssh ↔ writes w fd) →
  (∀ cb, time_callback o cb = time_callback (io_oop (w_io w)) cb) → conn_inv (forward_changed a o w).
Proof.
  intros [[[[Hopen Hrange Hf Hap Hcl Hws Htm Happ Hses Hret Hio] Hout Hact] Hop Hrun Hstp] Hwr] Hok Hin Hou Hio' Hw Ht.
  assert (service_fds a = service_fds (w_app w)) as Hfds by (unfold service_fds; by rewrite Hin, Hou).
  split; [split; [split; [split | |] | | |] |]; try done.
  - unfold files_ok in *. change (app_fds (w_app (forward_changed a o w))) with (service_fds a). by rewrite Hfds.
  - change (app_fds (w_app (forward_changed a o w))) with (service_fds a). by rewrite Hfds.
  - intros fd Hfw. by apply Hws, Hw.
  - unfold retries. simpl. rewrite Ht. done.
  - intros Ha Hac. apply Hw. by apply Hact.
  - intros Hi. specialize (Hrun Hi). change (app_open (tc_event_handler (w_conn w)) a). simpl in *.
    destruct (tc_event_handler (w_conn w)); [done |]. by rewrite Hin.
  - simpl. by rewrite Hin.
Qed.

Lemma forward_change a o w :
  conn_inv w → app_ok (ctx w) (tc_event_handler (w_conn w)) (tc_packet_handler (w_conn w)) a →
  service_in a = service_in (w_app w) → service_out a = service_out (w_app w) →
  service_reader a = service_reader (w_app w) → service_io (fd_callback o) a →
  (∀ fd, fd_callback o fd OOP_READ = Some Cb_oop_read_ssh → reads w fd) →
  (∀ fd, fd_callback o fd OOP_WRITE = Some Cb_oop_write_ssh ↔ writes w fd) →
  (∀ cb, time_callback o cb = time_callback (io_oop (w_io w)) cb) → settled w () (forward_changed a o w).
Proof.
  intros Hi Hok Hin Hou Hrd Hio Hr Hw Ht. apply settled_intro; [| by apply forward_inv | done].
  split; [split; [split | ..] | ..]; try done; auto.
  - intros Hrt. unfold retries in *. simpl in Hrt. by rewrite Ht in Hrt.
  - change (service_ready (w_app w) → service_ready a). unfold service_ready. by rewrite Hin, Hrd.
  - simpl. rewrite Hin. intros [| [? Hd]]; [done |]. change (alive w = false) in Hd. congruence.
Qed.

(** Own fields only. *)
Lemma forward_fields a w :
  conn_inv w → app_ok (ctx w) (tc_event_handler (w_conn w)) (tc_packet_handler (w_conn w)) a →
  service_in a = service_in (w_app w) → service_out a = service_out (w_app w) →
  service_reader a = service_reader (w_app w) → service_io (fd_callback (io_oop (w_io w))) a →
  settled w () (set_app (λ _, a) w).
Proof. destruct w as [c [o n] k a0]. intros. by apply (forward_change a o (mk_world c (mk_io o n) k a0)). Qed.

(** The event handler is that of forwarding. *)
Definition forwarding (w : world) : Prop := tc_event_handler (w_conn w) = Forward_event_handler.

Lemma forwarding_serving w :
  conn_base w → forwarding w → serving (w_app w) ∧ cx_is_server (ctx w) = true
  ∧ tc_packet_handler (w_conn w) = Some Forward_packet_handler.
Proof. intros Hb Hf. destruct (cb_app _ Hb) as [Hs Ha]. unfold forwarding in Hf. rewrite Hf in Ha. tauto. Qed.

Lemma forwarding_ok w a :
  conn_base w → forwarding w → serving a →
  app_ok (ctx w) (tc_event_handler (w_conn w)) (tc_packet_handler (w_conn w)) a.
Proof.
  intros Hb Hf Ha. destruct (forwarding_serving w Hb Hf) as (_ & Hs & Hp). unfold forwarding in Hf. rewrite Hf. by split.
Qed.

(** ** Starting and stopping *)

Lemma forward_start_read_wp w : conn_inv w → forwarding w → wp nofault forward_start_read (settled w) w.
Proof.
  intros Hi Hf. destruct (forwarding_serving w Hi Hf) as [[] _]. destruct (cb_io _ Hi) as [Hr Hw].
  unfold forward_start_read, oop_do. wp_steps. apply wp_when_last; [| intros _; by apply settled_refl]. intros _. wp_steps.
  eapply (forward_change (set_service_read_active true (w_app w)) _ w); try done.
  - apply forwarding_ok; [apply Hi | done | by split].
  - split; intros fd; simpl; rewrite on_fd_ok; case_decide as Hd.
    + by destruct Hd as [<- _].
    + intros Hx. by destruct (Hr fd Hx).
    + by destruct Hd.
    + apply Hw.
  - intros fd. simpl. rewrite on_fd_ok. by case_decide.
  - intros fd. simpl. rewrite on_fd_ok. case_decide as Hd; [by destruct Hd | done].
  - intros cb. simpl. apply on_fd_time.
Qed.

Lemma forward_stop_read_wp w : conn_inv w → forwarding w → wp nofault forward_stop_read (settled w) w.
Proof.
  intros Hi Hf. destruct (forwarding_serving w Hi Hf) as [[] _]. destruct (cb_io _ Hi) as [Hr Hw].
  unfold forward_stop_read, oop_do. wp_steps. apply wp_when_last; [| intros _; by apply settled_refl]. intros _. wp_steps.
  eapply (forward_change (set_service_read_active false (w_app w)) _ w); try done.
  - apply forwarding_ok; [apply Hi | done | by split].
  - split; intros fd; simpl; rewrite cancel_fd_ok; case_decide as Hd; [done | | done | apply Hw].
    intros Hx. destruct (Hr fd Hx) as [-> _]. tauto.
  - intros fd. simpl. rewrite cancel_fd_ok. by case_decide.
  - intros fd. simpl. rewrite cancel_fd_ok. case_decide as Hd; [by destruct Hd | done].
  - intros cb. simpl. apply cancel_fd_time.
Qed.

(** The descriptor to the service is not that of the connection. *)
Lemma service_out_apart w : conn_base w → forwarding w → ¬ writes w (service_out (w_app w)).
Proof.
  intros Hb Hf Hw. destruct (forwarding_serving w Hb Hf) as [[_ _ Hfds] _].
  destruct (cb_writes _ Hb _ Hw) as (He & Hpos & _). destruct Hfds as [[_ ?] | [Hin Hout]]; [lia |].
  destruct (cb_apart _ Hb (service_out (w_app w))) as (_ & _ & Hne); [| done]. change (app_fds (w_app w)) with (service_fds (w_app w)).
  unfold service_fds. rewrite (proj2 (Z.ltb_ge _ _)) by done.
  destruct (Z.eqb_spec (service_in (w_app w)) (service_out (w_app w))) as [-> |]; set_solver.
Qed.

(** After a write to the service, before the callback is adjusted. *)
Definition written (w : world) (s : ssh_write_state) (k : os) : world := set_app (set_service_writer s k) w.

Lemma written_settled w s k :
  conn_inv w → forwarding w → write_wf s → sw_size s = FORWARD_WRITE_BUFFER_SIZE →
  (0 < sw_length s ∨ service_write_active (w_app w) = false) → settled w () (written w s k).
Proof.
  intros Hi Hf Hs Hsz Hl. destruct (forwarding_serving w Hi Hf) as [[] _]. destruct (cb_io _ Hi) as [Hr Hw].
  apply (forward_fields (set_service_writer s k (w_app w)) w); try done.
  - apply forwarding_ok; [apply Hi | done |]. split; [by exists s | done | done].
  - split; [exact Hr |]. intros fd Hx. destruct (Hw fd Hx) as (-> & Ha & _). destruct Hl; [| congruence]. eauto.
Qed.

Lemma adjust_write_wp w s k :
  conn_inv w → forwarding w → write_wf s → sw_size s = FORWARD_WRITE_BUFFER_SIZE →
  wp nofault (if c_true (sw_length s) then forward_start_write else forward_stop_write)
    (λ a w', settled w a w' ∧ service_writer (w_app w') = Some s ∧ service_os (w_app w') = k ∧ alive w' = alive w)
    (written w s k).
Proof.
  intros Hi Hf Hs Hsz. pose proof (service_out_apart w Hi Hf) as Hno.
  destruct (forwarding_serving w Hi Hf) as [[] _]. destruct (cb_io _ Hi) as [Hr Hw].
  unfold c_true. destruct (Z.eqb_spec (sw_length s) 0) as [Hz | Hnz]; cbn [negb].
  - unfold forward_stop_write, oop_do. wp_steps. change (service_write_active (w_app (written w s k))) with (service_write_active (w_app w)).
    apply wp_when_last; intros Ha; [| refine (conj _ (conj eq_refl (conj eq_refl eq_refl))); apply written_settled; auto]. wp_steps.
    refine (conj _ (conj eq_refl (conj eq_refl eq_refl))). eapply (forward_change (set_service_write_active false (set_service_writer s k (w_app w))) _ w); try done.
    + apply forwarding_ok; [apply Hi | done |]. split; [by exists s | done | done].
    + split; intros fd; simpl; rewrite cancel_fd_ok; case_decide as Hd; try done; [apply Hr |].
      intros Hx. destruct (Hw fd Hx) as (-> & _). tauto.
    + intros fd. simpl. rewrite cancel_fd_ok. by case_decide.
    + intros fd. simpl. rewrite cancel_fd_ok. case_decide as Hd; [| done].
      destruct Hd as [<- _]. split; [done |]. intros Hx. by destruct Hno.
    + intros cb. simpl. apply cancel_fd_time.
  - pose proof (ww_length _ Hs). unfold forward_start_write, oop_do. wp_steps.
    change (service_write_active (w_app (written w s k))) with (service_write_active (w_app w)).
    apply wp_when_last; intros Ha; [| refine (conj _ (conj eq_refl (conj eq_refl eq_refl))); apply written_settled; auto; left; lia]. wp_steps.
    refine (conj _ (conj eq_refl (conj eq_refl eq_refl))). eapply (forward_change (set_service_write_active true (set_service_writer s k (w_app w))) _ w); try done.
    + apply forwarding_ok; [apply Hi | done |]. split; [by exists s | done | done].
    + split; intros fd; simpl; rewrite on_fd_ok; case_decide as Hd; try done; [apply Hr | |].
      * intros _. destruct Hd as [<- _]. split_and!; [done | done |]. exists s. split; [done | lia].
      * intros Hx. destruct (Hw fd Hx) as (-> & _). tauto.
    + intros fd. simpl. rewrite on_fd_ok. case_decide as Hd; [by destruct Hd | done].
    + intros fd. simpl. rewrite on_fd_ok. case_decide as Hd; [| done].
      destruct Hd as [<- _]. split; [done |]. intros Hx. by destruct Hno.
    + intros cb. simpl. apply on_fd_time.
Qed.

(** ** Closing *)

Definition closed_service (a : transport_forward) : transport_forward :=
  if 0 <=? service_in a then set_service (-1) (-1) a else a.

Lemma service_sides w : conn_base w → service_in (w_app w) = -1 ∨ 0 <= service_in (w_app w) ∧ 0 <= service_out (w_app w).
Proof.
  intros Hb. destruct (cb_app _ Hb) as [_ Ha]. destruct (tc_event_handler (w_conn w)); destruct Ha as [[] _]; [by left |].
  destruct sv_fds0 as [[? _] | ?]; auto.
Qed.

(** The event loop after the service's descriptors are closed. *)
Record service_gone (w : world) (s : io_state) : Prop := {
  sg_files : io_nfiles s = io_nfiles (w_io w) - lenZ (service_fds (w_app w));
  sg_fd fd ev : fd_callback (io_oop s) fd ev
    = if decide (fd ∈ service_fds (w_app w)) then None else fd_callback (io_oop (w_io w)) fd ev;
  sg_retry : time_callback (io_oop s) Cb_oop_timer_retry = time_callback (io_oop (w_io w)) Cb_oop_timer_retry;
}.

(** The effect of [transport_forward_close], whatever the connection is. *)
Lemma transport_forward_close_ok w :
  conn_base w → ∃ s, (∀ c, transport_forward_close (mk_world c (w_io w) (w_os w) (w_app w))
                           = Ok (mk_world c s (w_os w) (closed_service (w_app w)), ()))
    ∧ service_gone w s.
Proof.
  intros Hb. pose proof (cb_files _ Hb) as [Hlo Hhi]. pose proof (service_fds_few (w_app w)) as Hfew.
  change (app_fds (w_app w)) with (service_fds (w_app w)) in *.
  assert (0 <= open_files w) as Hof by (unfold open_files; repeat case_decide; lia).
  assert (∀ s, service_gone w s ↔ io_nfiles s = io_nfiles (w_io w) - lenZ (service_fds (w_app w))
    ∧ (∀ fd ev, fd_callback (io_oop s) fd ev
         = if decide (fd ∈ service_fds (w_app w)) then None else fd_callback (io_oop (w_io w)) fd ev)
    ∧ time_callback (io_oop s) Cb_oop_timer_retry = time_callback (io_oop (w_io w)) Cb_oop_timer_retry) as Hgone
    by (intros s; split; [by intros [] | by intros (? & ? & ?)]).
  setoid_rewrite Hgone. clear Hgone.
  unfold transport_forward_close, closed_service, service_fds in *.
  destruct (service_sides w Hb) as [Hneg | [Hin Hout]].
  { exists (w_io w). rewrite Hneg. split_and!.
    - intros c. unfold mbind, action_bind, gets, when. cbn. by rewrite Hneg.
    - simpl. change (lenZ []) with 0. lia.
    - intros fd ev. change (if (-1 <? 0) then @nil Z else _) with (@nil Z).
      by rewrite decide_False by (by apply not_elem_of_nil).
    - done. }
  rewrite (proj2 (Z.ltb_ge _ _)) in * by done. rewrite (proj2 (Z.leb_le 0 (service_in (w_app w)))) by done.
  destruct (io_close_fd_spec (w_io w) (service_in (w_app w))) as (s1 & Hs1 & Hn1 & Hf1 & Ht1).
  { intros _. rewrite lenZ_cons in *. pose proof (lenZ_nonneg (if service_in (w_app w) =? service_out (w_app w) then [] else [service_out (w_app w)])). lia. }
  rewrite decide_True in Hn1 by done.
  destruct (Z.eqb_spec (service_in (w_app w)) (service_out (w_app w))) as [He | Hne]; cbn [negb].
  - exists s1. split_and!.
    + intros c. unfold mbind, action_bind, gets, when, close_fd. cbn -[io_close_fd]. rewrite (proj2 (Z.leb_le _ _)) by done.
      cbn [w_io]. rewrite Hs1, bind_ok_l. cbn. by rewrite He, Z.eqb_refl.
    + rewrite Hn1. done.
    + intros fd ev. rewrite Hf1. destruct (decide (service_in (w_app w) = fd)) as [<- | Hnfd].
      * by rewrite !decide_True by set_solver.
      * by rewrite !decide_False by set_solver.
    + by apply Ht1.
  - destruct (io_close_fd_spec s1 (service_out (w_app w))) as (s2 & Hs2 & Hn2 & Hf2 & Ht2).
    { intros _. rewrite Hn1. rewrite !lenZ_cons in *. change (lenZ []) with 0 in *. lia. }
    rewrite decide_True in Hn2 by done. exists s2. split_and!.
    + intros c. unfold mbind, action_bind, gets, when, close_fd. cbn -[io_close_fd]. rewrite (proj2 (Z.leb_le _ _)) by done.
      cbn [w_io]. rewrite Hs1, bind_ok_l. cbn -[io_close_fd]. rewrite (proj2 (Z.eqb_neq _ _)) by done. cbn -[io_close_fd].
      unfold with_io. cbn [w_io]. by rewrite Hs2.
    + rewrite Hn2, Hn1, !lenZ_cons. change (lenZ []) with 0. lia.
    + intros fd ev. rewrite Hf2, Hf1. destruct (decide (service_out (w_app w) = fd)) as [<- | Hnfd].
      * by rewrite !decide_True by set_solver.
      * rewrite decide_False by tauto. destruct (decide (service_in (w_app w) = fd)) as [<- | Hnfd2].
        -- by rewrite !decide_True by set_solver.
        -- by rewrite !decide_False by set_solver.
    + by rewrite Ht2, Ht1.
Qed.

Definition forward_closed (w : world) (s : io_state) : world := with_io (set_app closed_service w) s.

Lemma closed_service_stopped w : conn_base w → service_in (closed_service (w_app w)) = -1.
Proof.
  intros Hb. unfold closed_service. destruct (service_sides w Hb) as [Hneg | [Hin _]]; [by rewrite Hneg |].
  by rewrite (proj2 (Z.leb_le _ _)).
Qed.

Lemma closed_service_ok w :
  conn_base w → app_ok (ctx w) (tc_event_handler (w_conn w)) (tc_packet_handler (w_conn w)) (closed_service (w_app w)).
Proof.
  intros Hb. pose proof (cb_app _ Hb) as [Hs Ha]. split; [done |]. unfold closed_service.
  destruct (tc_event_handler (w_conn w)); destruct Ha as [Ha ?]; (split; [| done]).
  - by rewrite (id_in _ Ha).
  - destruct Ha. destruct (0 <=? _); split; try done. by left.
Qed.

Lemma closed_service_io w s :
  conn_base w → service_gone w s → service_io (fd_callback (io_oop s)) (closed_service (w_app w)).
Proof.
  intros Hb [_ Hfd _]. destruct (cb_io _ Hb) as [Hr Hw]. unfold closed_service.
  destruct (Z.leb_spec 0 (service_in (w_app w))) as [Hin | Hneg].
  - split; intros fd; rewrite Hfd; case_decide as Hd; try done; intros Hx; destruct Hd; unfold service_fds;
      rewrite (proj2 (Z.ltb_ge _ _)) by done.
    + destruct (Hr fd Hx) as [-> _]. set_solver.
    + destruct (Hw fd Hx) as [-> _]. destruct (Z.eqb_spec (service_in (w_app w)) (service_out (w_app w))) as [-> |]; set_solver.
  - split; intros fd; rewrite Hfd; case_decide; try done; [apply Hr | apply Hw].
Qed.

Lemma closed_service_fds w : conn_base w → service_fds (closed_service (w_app w)) = [].
Proof. intros Hb. unfold service_fds. by rewrite (closed_service_stopped w Hb). Qed.

Lemma forward_closed_writes w s fd : conn_base w → service_gone w s → writes (forward_closed w s) fd ↔ writes w fd.
Proof.
  intros Hb [_ Hfd _]. unfold writes. change (io_oop (w_io (forward_closed w s))) with (io_oop s). rewrite Hfd.
  case_decide as Hd; [| done]. split; [done |]. intros Hx. destruct (cb_writes _ Hb fd Hx) as (-> & _).
  by destruct (cb_apart _ Hb _ Hd) as (_ & _ & []).
Qed.

Lemma forward_closed_base w s : conn_base w → service_gone w s → conn_base (forward_closed w s).
Proof.
  intros Hb Hg. pose proof Hb as [Hopen Hrange [Hlo Hhi] Hap Hcl Hws Htm Happ Hses Hret Hio].
  pose proof Hg as [Hn Hfd Ht]. pose proof (closed_service_fds w Hb) as Hfds. split; try done.
  - split; change (app_fds (w_app (forward_closed w s))) with (service_fds (closed_service (w_app w)));
      rewrite Hfds; change (lenZ []) with 0; change (w_io (forward_closed w s)) with s; rewrite Hn.
    + change (open_files (forward_closed w s)) with (open_files w).
      change (app_fds (w_app w)) with (service_fds (w_app w)) in Hlo. lia.
    + change (app_fds (w_app w)) with (service_fds (w_app w)) in Hhi. lia.
  - change (app_fds (w_app (forward_closed w s))) with (service_fds (closed_service (w_app w))). rewrite Hfds. set_solver.
  - intros fd Hx. apply Hws. by apply (forward_closed_writes w s).
  - exact (closed_service_ok w Hb).
  - unfold retries. simpl. rewrite Ht. done.
  - by apply closed_service_io.
Qed.

Lemma forward_closed_mid w s : conn_mid w → service_gone w s → conn_mid (forward_closed w s).
Proof.
  intros [Hb Hout Hact] Hg. split; [by apply forward_closed_base | done |].
  intros Ha Hac. apply (forward_closed_writes w s); [done | done | by apply Hact].
Qed.

Lemma forward_closed_calm w s : conn_base w → service_gone w s → calm w (forward_closed w s).
Proof.
  intros Hb [Hn Hfd Ht]. pose proof (closed_service_stopped w Hb) as Hst.
  split; [split; [split; try done; auto | by auto..] | done | done | done | |].
  - intros fd Hr. unfold reads in *. change (io_oop (w_io (forward_closed w s))) with (io_oop s) in Hr.
    rewrite Hfd in Hr. by case_decide.
  - unfold retries. simpl. by rewrite Ht.
  - intros _. by apply stopped_ready.
  - simpl. unfold closed_service. by destruct (0 <=? _).
  - intros _. exact Hst.
Qed.

(** ** The methods *)

Lemma forward_close_event_wp w :
  conn_mid w → forwarding w → 0 <= service_in (w_app w) →
  wp nofault (forward_event TRANSPORT_EVENT_CLOSE)
    (λ _ w', calm w w' ∧ conn_mid w' ∧ app_stopped (w_app w') ∧ output w' = output w) w.
Proof.
  intros Hm Hf Hin. cbn [forward_event]. wp_steps. apply wp_assert; [by apply Z.leb_le |].
  destruct (transport_forward_close_ok w Hm) as (s & Hs & Hg). 
  assert (transport_forward_close w = Ok (forward_closed w s, ())) as Hw by (destruct w; exact (Hs _)).
  unfold wp. rewrite Hw.
  refine (conj _ (conj _ (conj _ eq_refl))).
  - by apply (forward_closed_calm w s); [apply Hm |].
  - by apply (forward_closed_mid w s).
  - apply (closed_service_stopped w), Hm.
Qed.

(** The kill methods: [w] is the connection before [alive] is cleared. *)
Definition killed (w : world) (s : io_state) : world :=
  set_ssh_input (-1) (set_ssh_output (-1) (with_io (set_expire None (set_alive false w)) s)).

Lemma killed_ok w s :
  conn_base w → app_stopped (w_app w) → 0 <= io_nfiles s < 2 ^ 32 - 2 →
  (∀ fd, fd_callback (io_oop s) fd OOP_READ = Some Cb_oop_read_ssh → reads w fd) →
  (∀ fd, fd_callback (io_oop s) fd OOP_WRITE ≠ Some Cb_oop_write_ssh) →
  (∀ fd ev cb, fd_callback (io_oop s) fd ev = Some cb → fd_callback (io_oop (w_io w)) fd ev = Some cb) →
  time_callback (io_oop s) Cb_oop_timer_retry = false →
  calm w (killed w s) ∧ conn_inv (killed w s) ∧ alive (killed w s) = false.
Proof.
  intros [Hopen Hrange Hf Hap Hcl Hws Htm Happ Hses Hret Hio] Hst Hn Hr Hw Hcb Ht.
  assert (¬ retries (killed w s)) as Hno by (unfold retries; simpl; by rewrite Ht).
  assert (app_fds (w_app w) = []) as Hfds.
  { change (service_in (w_app w) = -1) in Hst. change (service_fds (w_app w) = []). unfold service_fds. by rewrite Hst. }
  refine (conj _ (conj _ eq_refl)).
  - split; [split; [split | ..] | ..]; try done; auto. by right.
  - split; [split; [split; [split | |] | | |] |]; try done.
    + unfold files_ok. change (app_fds (w_app (killed w s))) with (app_fds (w_app w)). rewrite Hfds.
      change (io_nfiles (w_io (killed w s))) with (io_nfiles s). change (open_files (killed w s)) with 0. change (lenZ []) with 0. lia.
    + change (app_fds (w_app (killed w s))) with (app_fds (w_app w)). rewrite Hfds. set_solver.
    + intros fd Hfd. by destruct (Hw fd).
    + apply (app_io_stable (fd_callback (io_oop (w_io w)))); [| done]. intros fd ev cb Hx _ _. by apply Hcb.
Qed.

Lemma transport_connection_kill_wp w :
  conn_base w → app_stopped (w_app w) →
  wp nofault transport_connection_kill (λ _ w', calm w w' ∧ conn_inv w' ∧ alive w' = false) (set_alive false w).
Proof.
  intros Hb Hst. pose proof (cb_files _ Hb) as [Hlo Hhi]. pose proof (cb_writes _ Hb) as Hws. unfold open_files in Hlo.
  assert (app_fds (w_app w) = []) as Hfds.
  { change (service_in (w_app w) = -1) in Hst. change (service_fds (w_app w) = []). unfold service_fds. by rewrite Hst. }
  rewrite Hfds in Hlo, Hhi. change (lenZ []) with 0 in *.
  unfold transport_connection_kill, kill_expire, oop_do. wp_steps. set (o1 := cancel_time _ _). set (w1 := with_io _ _).
  change (ssh_input w1) with (ssh_input w).
  assert (∀ s, io_nfiles s = io_nfiles (w_io w) - (if decide (0 <= ssh_output w) then 1 else 0)
                 - (if decide (0 <= ssh_input w ∧ ssh_input w ≠ ssh_output w) then 1 else 0) →
    (∀ fd ev, fd_callback (io_oop s) fd ev
       = if decide (0 <= ssh_output w ∧ ssh_output w = fd) then None
         else if decide (0 <= ssh_input w ∧ ssh_input w = fd) then None else fd_callback (io_oop (w_io w)) fd ev) →
    time_callback (io_oop s) Cb_oop_timer_retry = false →
    calm w (killed w s) ∧ conn_inv (killed w s) ∧ alive (killed w s) = false) as Hend.
  { intros s Hn Hfd Ht.
    assert (∀ fd ev cb, fd_callback (io_oop s) fd ev = Some cb →
      fd_callback (io_oop (w_io w)) fd ev = Some cb ∧ ¬ (0 <= ssh_output w ∧ ssh_output w = fd)) as Hcb.
    { intros fd ev cb. rewrite Hfd. destruct (decide (0 <= ssh_output w ∧ ssh_output w = fd)),
        (decide (0 <= ssh_input w ∧ ssh_input w = fd)); done. }
    apply killed_ok; [done | done | rewrite Hn; repeat case_decide; lia | | | | done].
    - intros fd Hx. by apply Hcb.
    - intros fd Hx. destruct (Hcb _ _ _ Hx) as [Hx' Hno]. destruct (Hws fd Hx') as (-> & ? & _). by destruct Hno.
    - intros fd ev cb Hx. by apply Hcb. }
  assert (time_callback o1 Cb_oop_timer_retry = false) as Ho1 by (unfold o1; rewrite cancel_time_ok; by rewrite bool_decide_true).
  assert (∀ fd ev, fd_callback o1 fd ev = fd_callback (io_oop (w_io w)) fd ev) as Hf1 by (intros fd ev; apply cancel_time_fd).
  apply wp_bind, close_fd_wp.
  { intros Hin. change (io_nfiles (w_io w1)) with (io_nfiles (w_io w)). repeat case_decide; lia. }
  change (io_nfiles (w_io w1)) with (io_nfiles (w_io w)). change (io_oop (w_io w1)) with o1.
  intros s1 Hn1 Hfd1 Ht1. apply wp_gets. change (ssh_output (with_io w1 s1)) with (ssh_output w).
  apply wp_when; intros Hne.
  - apply negb_true_iff, Z.eqb_neq in Hne. apply close_fd_wp.
    { intros Hout. change (io_nfiles (w_io (with_io w1 s1))) with (io_nfiles s1). rewrite Hn1. repeat case_decide; lia. }
    change (io_nfiles (w_io (with_io w1 s1))) with (io_nfiles s1). change (io_oop (w_io (with_io w1 s1))) with (io_oop s1).
    intros s2 Hn2 Hfd2 Ht2. apply wp_modify_last. apply (Hend s2).
    + rewrite Hn2, Hn1. repeat case_decide; lia.
    + intros fd ev. by rewrite Hfd2, Hfd1, Hf1.
    + by rewrite Ht2, Ht1.
  - apply negb_false_iff, Z.eqb_eq in Hne. apply wp_modify_last. apply (Hend s1).
    + rewrite Hn1, Hne. repeat case_decide; lia.
    + intros fd ev. rewrite Hfd1, Hf1, Hne. by destruct (decide (0 <= ssh_input w ∧ ssh_input w = fd)).
    + by rewrite Ht1.
Qed.

Lemma transport_forward_kill_wp w :
  conn_base w →
  wp nofault transport_forward_kill (λ _ w', calm w w' ∧ conn_inv w' ∧ alive w' = false) (set_alive false w).
Proof.
  intros Hb. destruct (transport_forward_close_ok w Hb) as (s & Hs & Hg). unfold transport_forward_kill. apply wp_bind.
  assert (transport_forward_close (set_alive false w) = Ok (set_alive false (forward_closed w s), ())) as Hw by exact (Hs _).
  unfold wp at 1. rewrite Hw. simpl. pose proof (forward_closed_calm w s Hb Hg) as Hc.
  eapply wp_weaken; [apply transport_connection_kill_wp; [by apply forward_closed_base | by apply (closed_service_stopped w)] |].
  intros [] w' (Hc' & Hi & Ha). split_and!; [by transitivity (forward_closed w s) | done | done].
Qed.

(** Starting to forward, on a connection that has a packet handler. *)
Definition forward_started (fd : Z) (w : world) : world :=
  with_io (set_app (λ a, mk_forward fd (Some make_service_read_state) true fd
             (Some (init_ssh_write_state FORWARD_WRITE_BUFFER_SIZE)) (service_write_active a) (service_os a))
             (set_event_handler Forward_event_handler (install_packet_handler Forward_packet_handler w)))
    (mk_io (on_fd (io_oop (w_io w)) fd OOP_READ Cb_oop_read_service) (u32 (io_nfiles (w_io w) + 1))).

Lemma started_serving fd k b : 0 <= fd →
  serving (mk_forward fd (Some make_service_read_state) true fd (Some (init_ssh_write_state FORWARD_WRITE_BUFFER_SIZE)) b k).
Proof.
  intros Hfd. split; [| by eexists | by right]. eexists. split; [done |].
  split; [| done]. apply init_ssh_write_state_wf. unfold is_u32, FORWARD_WRITE_BUFFER_SIZE, SSH_MAX_PACKET. lia.
Qed.

Lemma forward_started_replaced fd w :
  conn_inv w → idle (w_app w) → is_Some (tc_packet_handler (w_conn w)) → (alive w = true → 0 <= ssh_input w) →
  0 <= fd → fd ≠ ssh_input w → fd ≠ ssh_output w → replaced w (forward_started fd w).
Proof.
  intros Hi [Hin Hou Hra Hwa] [h Hh] Hal Hfd Hne1 Hne2.
  destruct Hi as [[[[Hopen Hrange [Hlo Hhi] Hap Hcl Hws Htm Happ Hses Hret Hio] Hout Hact] Hop Hrun Hstp] Hwr].
  assert (app_fds (w_app w) = []) as Hfds by (change (service_fds (w_app w) = []); unfold service_fds; by rewrite Hin).
  rewrite Hfds in *. change (lenZ []) with 0 in *.
  assert (0 <= open_files w) as Hof by (unfold open_files; repeat case_decide; lia).
  set (w' := forward_started fd w).
  assert (app_fds (w_app w') = [fd]) as Hfds'.
  { change (service_fds (w_app w') = [fd]). unfold service_fds. simpl. rewrite (proj2 (Z.ltb_ge _ _)) by done. by rewrite Z.eqb_refl. }
  assert (∀ fd' cb, fd_callback (io_oop (w_io w')) fd' OOP_WRITE = Some cb ↔ fd_callback (io_oop (w_io w)) fd' OOP_WRITE = Some cb) as Hw.
  { intros fd' cb. simpl. rewrite on_fd_ok. by rewrite decide_False by naive_solver. }
  assert (∀ fd' cb, cb ≠ Cb_oop_read_service → fd_callback (io_oop (w_io w')) fd' OOP_READ = Some cb →
    fd_callback (io_oop (w_io w)) fd' OOP_READ = Some cb) as Hr.
  { intros fd' cb Hcb. simpl. rewrite on_fd_ok. case_decide; congruence. }
  assert (retries w' ↔ retries w) as Ht by (unfold retries; simpl; by rewrite on_fd_time).
  split; [| split; [done |]].
  - split; [split; try done; auto | done | done | by left].
    + intros fd'. by apply Hr.
    + apply Ht.
    + intros _. by exists Forward_packet_handler.
    + intros _ _. eexists. split; [done | apply make_service_read_state_wf].
  - split; [split; [split; [split | |] | | |] |]; try done.
    + unfold files_ok. rewrite Hfds'. change (lenZ [fd]) with 1. change (io_nfiles (w_io w')) with (u32 (io_nfiles (w_io w) + 1)).
      change (open_files w') with (open_files w). rewrite u32_id by (unfold is_u32; lia). lia.
    + rewrite Hfds'. intros fd' ->%list_elem_of_singleton. done.
    + intros fd' Hx. by apply Hws, Hw.
    + destruct Happ as [Hs _]. split; [done |]. split; [by apply started_serving | done].
    + intros Hn. specialize (Hses Hn). congruence.
    + intros Hx. by apply Hret, Ht.
    + split.
      * intros fd'. simpl. rewrite on_fd_ok. case_decide as Hd; [by destruct Hd as [<- _] |].
        intros Hx. destruct (so_read _ _ Hio fd' Hx) as [_ Hx']. congruence.
      * intros fd' Hx. apply Hw in Hx. destruct (so_write _ _ Hio fd' Hx) as (_ & Hx' & _). congruence.
    + intros Ha Hac. apply Hw. by apply Hact.
    + intros Ha Hneg. change (ssh_input w < 0) in Hneg. specialize (Hal Ha). lia.
Qed.

Lemma transport_forward_setup_wp fd w :
  conn_inv w → idle (w_app w) → is_Some (tc_packet_handler (w_conn w)) → (alive w = true → 0 <= ssh_input w) →
  0 <= fd → fd ≠ ssh_input w → fd ≠ ssh_output w →
  wp nofault (transport_forward_setup fd fd) (λ _, replaced w) w.
Proof.
  intros Hi Hid Hh Hal Hfd Hne1 Hne2. unfold transport_forward_setup, forward_start_read, oop_do.
  wp_step. rewrite (id_in _ Hid). apply wp_assert; [done |]. rewrite Z.eqb_refl. cbn [negb when]. wp_steps. cbn.
  rewrite (id_read _ Hid). cbn. apply wp_modify, wp_modify_last. by apply (forward_started_replaced fd w).
Qed.

End spec.

Section methods.
Context `{MallocOk} `{NettleMacrosOk} `{NettleBignumOk} `{AtomTableOk} `{OSOk} `{OopSourceOk} `{CryptoOk} `{!Algorithms} `{!AlgorithmsOk} `{HashFunctionsOk} `{Signatures} `{!SignaturesOk} `{!Events} `{!EventsOk}.

(** ** Writing to the service *)

Lemma the_writer_wp {B} E (k : ssh_write_state → action B) Q w s :
  service_writer (w_app w) = Some s → wp E (k s) Q w → wp E (the_writer ≫= k) Q w.
Proof. intros Hs Hk. unfold wp, the_writer, mbind, action_bind, gets, compose. simpl. by rewrite Hs. Qed.

Lemma use_service_writer_wp {B} f (c : errno + Z → action B) Q w s s' k' r :
  service_writer (w_app w) = Some s → f s (service_os (w_app w)) = Ok (s', k', r) →
  wp nofault (c r) Q (written w s' k') → wp nofault (use_service_writer f ≫= c) Q w.
Proof.
  intros Hs Hf Hc. unfold use_service_writer. apply wp_assoc, (the_writer_wp _ _ _ _ s Hs), wp_assoc, wp_gets, wp_assoc.
  unfold compose. eapply wp_lift; [exact Hf |]. apply wp_assoc, wp_modify, Hc.
Qed.

Lemma service_write_done_wp done s k w :
  conn_inv w → forwarding w → write_wf s → sw_size s = FORWARD_WRITE_BUFFER_SIZE →
  (service_written done = false → 0 < sw_length s) →
  wp nofault (service_write_done done)
    (λ _ w', calm w w' ∧ conn_inv w'
       ∧ (if service_written done then service_writer (w_app w') = Some s ∧ service_os (w_app w') = k else ssh_input w' = -1))
    (written w s k).
Proof.
  intros Hi Hf Hs Hsz Hl. unfold service_write_done. destruct (service_written done) eqn:Hd.
  - apply (the_writer_wp _ _ _ _ s); [done |]. eapply wp_weaken; [by apply adjust_write_wp |].
    intros [] w' ((Hc & Hi' & _) & Hs' & Hk' & _). auto.
  - destruct (written_settled w s k) as (Hc1 & Hi1 & _); auto.
    eapply wp_weaken; [apply transport_disconnect_wp; [done |] |].
    + intros _. eexists. split; [done | short].
    + intros [] w' (Hc & Hi' & Hin). split_and!; [by transitivity (written w s k) | done | auto].
Qed.

Lemma forward_push_wp w :
  conn_inv w → forwarding w → wp nofault forward_push (λ _ w', calm w w' ∧ conn_inv w') w.
Proof.
  intros Hi Hf. destruct (forwarding_serving w Hi Hf) as [[(s & Hs & Hw & Hsz) _ _] _]. unfold forward_push. wp_step.
  apply wp_when_last; [| done]. intros _. apply (the_writer_wp _ _ _ _ s Hs). apply wp_when_last; [| done].
  intros Hl%Z.ltb_lt. pose proof (ww_length _ Hw).
  destruct (ssh_write_flush_spec s (service_os (w_app w)) 0) as (s' & k' & r & He & Hw' & Hsz' & _ & Hr); [done | lia | done |].
  eapply use_service_writer_wp; [exact Hs | exact He |]. eapply wp_weaken.
  - apply service_write_done_wp; [done | done | done | congruence |].
    destruct r as [e | n]; [destruct Hr as [_ ->]; done |]. destruct Hr as [Hn _]. simpl. lia.
  - intros [] w' (Hc & Hi' & _). done.
Qed.

(** A write that fits loses nothing. *)
Lemma service_data_spec s k data :
  write_wf s → sw_size s = FORWARD_WRITE_BUFFER_SIZE → Forall is_byte data → 0 < lenZ data →
  sw_length s + lenZ data <= FORWARD_WRITE_BUFFER_SIZE →
  ∃ s' k' r, ssh_write_data s k 0 (lenZ data) data = Ok (s', k', r)
    ∧ write_wf s' ∧ sw_size s' = FORWARD_WRITE_BUFFER_SIZE ∧ sw_length s' <= sw_length s + lenZ data
    ∧ accepted k' ++ buffered s' = accepted k ++ buffered s ++ data
    ∧ (service_written r = false → 0 < sw_length s').
Proof.
  intros Hw Hsz Hb Hl Hroom. pose proof (ww_length _ Hw). unfold FORWARD_WRITE_BUFFER_SIZE, SSH_MAX_PACKET in *.
  destruct (ssh_write_data_spec s k 0 data) as (s' & k' & r & lost & He & [Hw' Hsz' Hdl Hst Hlost Hres Hov Herr Hacc]);
    [done | done | lia | lia | lia |].
  assert (lost = []) as ->.
  { destruct (decide (lost = [])) as [| Hne]; [done |]. destruct (Hlost Hne). lia. }
  rewrite app_nil_r in Hst. exists s', k', r.
  pose proof (f_equal lenZ Hst) as Hlen. rewrite !lenZ_app, !lenZ_buffered in Hlen by done.
  split_and!; [done | done | congruence | lia | done |].
  destruct r as [e | n]; [| simpl; lia]. intros _. specialize (Herr eq_refl). rewrite Herr in Hlen. lia.
Qed.

Definition service_header (seqno length : Z) : list Z := WRITE_UINT32 seqno ++ WRITE_UINT32 length.

Lemma service_header_spec seqno length :
  is_u32 seqno → is_u32 length → service_header seqno length = be32 seqno ++ be32 length.
Proof. intros Hs Hl. unfold service_header. by rewrite !WRITE_UINT32_spec by done. Qed.

(** What was handed to the service, whether it was taken or not. *)
Definition service_stream (a : transport_forward) : list Z :=
  match service_writer a with Some s => accepted (service_os a) ++ buffered s | None => accepted (service_os a) end.

(** Both parts of a packet are written, unless the service is gone. *)
Lemma forward_frame_wp seqno data s w :
  conn_inv w → forwarding w → service_writer (w_app w) = Some s → is_u32 seqno → Forall is_byte data →
  0 < lenZ data <= SSH_MAX_PACKET + 1 → sw_length s + (lenZ data + 8) <= FORWARD_WRITE_BUFFER_SIZE →
  wp nofault (done ← use_service_writer (λ s k, ssh_write_data s k 0 8 (service_header seqno (lenZ data)));
              done ← (if service_written done
                      then use_service_writer (λ s k, ssh_write_data s k 0 (lenZ data) data) else mret done);
              service_write_done done)
    (λ _ w', calm w w' ∧ conn_inv w'
       ∧ (service_stream (w_app w') = service_stream (w_app w) ++ service_frame seqno data ∨ ssh_input w' = -1)) w.
Proof.
  intros Hi Hf Hs Hq Hb Hl Hroom. destruct (forwarding_serving w Hi Hf) as [[(s0 & Hs0 & Hw & Hsz) _ _] _].
  assert (s0 = s) as -> by congruence. clear Hs0. unfold SSH_MAX_PACKET in Hl.
  rewrite service_header_spec by (done || unfold is_u32; lia). set (header := be32 seqno ++ be32 (lenZ data)).
  assert (lenZ header = 8) as Hlh by (unfold header; rewrite lenZ_app, !lenZ_be32; lia).
  assert (Forall is_byte header) as Hbh by (unfold header; rewrite Forall_app; split; apply be_bytes_bytes).
  destruct (service_data_spec s (service_os (w_app w)) header Hw Hsz Hbh) as (s1 & k1 & r1 & He1 & Hw1 & Hsz1 & Hl1 & Hst1 & Hr1);
    [lia | lia |]. rewrite Hlh in *.
  eapply use_service_writer_wp; [exact Hs | exact He1 |]. destruct (service_written r1) eqn:Hd1.
  - destruct (service_data_spec s1 k1 data Hw1 Hsz1 Hb) as (s2 & k2 & r2 & He2 & Hw2 & Hsz2 & Hl2 & Hst2 & Hr2); [lia | lia |].
    eapply (use_service_writer_wp _ _ _ (written w s1 k1)); [done | exact He2 |].
    change (written (written w s1 k1) s2 k2) with (written w s2 k2).
    eapply wp_weaken; [by apply service_write_done_wp |]. intros [] w' (Hc & Hi' & He). split_and!; [done | done |].
    destruct (service_written r2); [left; destruct He as [Hs' Hk'] | by right]. unfold service_stream, service_frame. rewrite Hs', Hk', Hs, Hst2.
    rewrite app_assoc, Hst1. unfold header. by rewrite <- !app_assoc.
  - apply wp_bind, wp_ret. eapply wp_weaken; [apply service_write_done_wp; auto |].
    intros [] w' (Hc & Hi' & He). rewrite Hd1 in He. split_and!; auto.
Qed.

Lemma wp_group {A B C D} E (m : action A) (c : A → action B) (d : B → action C) (h : C → action D) Q w :
  wp E ((m ≫= λ a, c a ≫= d) ≫= h) Q w → wp E (m ≫= λ a, c a ≫= λ b, d b ≫= h) Q w.
Proof.
  unfold wp, mbind, action_bind. destruct (m w) as [[w1 a] | f]; [| done]. simpl. by destruct (c a w1) as [[w2 b] | f].
Qed.

Lemma forward_service_packet_wp seqno data w :
  conn_inv w → forwarding w → is_u32 seqno → Forall is_byte data → 0 < lenZ data <= SSH_MAX_PACKET + 1 →
  wp nofault (transport_forward_service_packet seqno (lenZ data) data)
    (λ r w', calm w w' ∧ conn_inv w'
       ∧ match r with
         | false => w' = w ∧ ∃ s, service_writer (w_app w) = Some s
             ∧ FORWARD_WRITE_BUFFER_SIZE < sw_length s + (lenZ data + 8)
         | true => service_stream (w_app w') = service_stream (w_app w) ++ service_frame seqno data ∨ ssh_input w' = -1
         end) w.
Proof.
  intros Hi Hf Hq Hb Hl. destruct (forwarding_serving w Hi Hf) as [[(s & Hs & Hw & Hsz) _ _] _].
  unfold transport_forward_service_packet. apply wp_assert; [lia |]. apply (the_writer_wp _ _ _ _ s Hs).
  pose proof Hw as [_ H0s H0l Hr]. unfold sw_size in Hsz.
  assert (ssh_write_available s = Ok (FORWARD_WRITE_BUFFER_SIZE - sw_length s)) as Hav.
  { unfold ssh_write_available, lsh_string_length. pass_assert. by rewrite Hsz. }
  eapply wp_lift; [exact Hav |]. rewrite u32_id by (unfold is_u32, SSH_MAX_PACKET in *; lia).
  destruct (Z.ltb_spec (FORWARD_WRITE_BUFFER_SIZE - sw_length s) (lenZ data + 8)) as [Hfull | Hroom].
  { apply wp_ret. split_and!; try done. exists s. split; [done | lia]. }
  pose proof (forward_frame_wp seqno data s w Hi Hf Hs Hq Hb Hl ltac:(lia)) as Hfr.
  eapply (wp_group _ _ (λ done, if service_written done
    then use_service_writer (λ s k, ssh_write_data s k 0 (lenZ data) data) else mret done) service_write_done (λ _, mret true)).
  eapply wp_seq; [exact Hfr |]. intros [] w' Hw'. exact Hw'.
Qed.

(** C11: a packet that is forwarded to a service is either made to wait, in
    which case nothing changes, or the octets handed to the service grow by
    exactly one frame with its sequence number and contents, or the service
    could not be written to and the connection is closed.  It waits only if
    the buffer has no room for the frame. *)
Theorem transport_forward_service_packet_correct seqno data w :
  conn_inv w → forwarding w → is_u32 seqno → Forall is_byte data → 0 < lenZ data <= SSH_MAX_PACKET + 1 →
  ∃ w' r, transport_forward_service_packet seqno (lenZ data) data w = Ok (w', r) ∧ calm w w' ∧ conn_inv w'
    ∧ match r with
      | false => w' = w ∧ ∃ s, service_writer (w_app w) = Some s
          ∧ FORWARD_WRITE_BUFFER_SIZE < sw_length s + (lenZ data + 8)
      | true => service_stream (w_app w') = service_stream (w_app w) ++ service_frame seqno data ∨ ssh_input w' = -1
      end.
Proof.
  intros Hi Hf Hq Hb Hl. pose proof (forward_service_packet_wp seqno data w Hi Hf Hq Hb Hl) as Hwp. unfold wp in Hwp.
  destruct (transport_forward_service_packet _ _ _ _) as [[w' r] | f]; [| done]. exists w', r. split; [done | exact Hwp].
Qed.

Lemma forward_packet_handler_wp seqno data w :
  conn_inv w → forwarding w → is_u32 seqno → Forall is_byte data → 0 < lenZ data <= SSH_MAX_PACKET + 1 →
  wp nofault (forward_packet_handler seqno (lenZ data) data) (λ r w', replaced w w' ∧ (r = false → waits w')) w.
Proof.
  intros Hi Hf Hq Hb Hl. unfold forward_packet_handler. apply wp_assert; [lia |].
  destruct (rd_ok data 0) as [msg Hmsg]; [lia |]. eapply wp_lift; [exact Hmsg |].
  assert (∀ w', calm w w' → conn_inv w' → replaced w w') as Hrep by (intros w' Hc Hi'; split; [apply Hc | split; [apply Hc | done]]).
  destruct (SSH_FIRST_LOCAL <=? msg).
  - destruct (unimplemented_sendable seqno) as (p & Hp & Hsb). eapply wp_lift; [exact Hp |].
    eapply wp_seq; [by apply transport_send_packet_wp |]. intros [] w1 (Hc & Hi' & _). apply wp_ret. split; [by apply Hrep | done].
  - eapply wp_weaken; [by apply forward_service_packet_wp |]. intros r w' (Hc & Hi' & Hr). split; [by apply Hrep |].
    intros ->. destruct Hr as [-> _]. exists Forward_packet_handler. split; [| done]. by apply (forwarding_serving w Hi).
Qed.

(** ** The service's descriptors *)

(** A service that runs on a live connection. *)
Lemma service_open w :
  conn_inv w → alive w = true → 0 <= service_in (w_app w) → 0 <= ssh_input w ∧ closing w = 0 ∧ forwarding w.
Proof.
  intros Hi Ha Hin. assert (0 <= ssh_input w) as Hopen.
  { destruct (Z.le_gt_cases 0 (ssh_input w)) as [| Hneg]; [done |].
    pose proof (ci_stopped _ Hi Ha Hneg) as Hst. change (service_in (w_app w) = -1) in Hst. lia. }
  split; [done |]. split; [by apply (cb_open _ Hi) |].
  destruct (cb_app _ Hi) as [_ Happ]. unfold forwarding.
  destruct (tc_event_handler (w_conn w)); [| done]. destruct Happ as [Hid _]. rewrite (id_in _ Hid) in Hin. lia.
Qed.

Lemma service_writes_forwarding w fd :
  conn_inv w → fd_callback (io_oop (w_io w)) fd OOP_WRITE = Some Cb_oop_write_service → forwarding w.
Proof.
  intros Hi Hw. destruct (so_write _ _ (cb_io _ Hi) fd Hw) as (_ & Hact & _). destruct (cb_app _ Hi) as [_ Happ].
  unfold forwarding. destruct (tc_event_handler (w_conn w)); [| done]. destruct Happ as [Hid _]. rewrite (id_write _ Hid) in Hact. done.
Qed.

Context `{!Handlers} `{!HandlersOk}.

Lemma oop_write_service_wp fd w :
  safe w → alive w = true → fd_callback (io_oop (w_io w)) fd OOP_WRITE = Some Cb_oop_write_service →
  wp nofault (oop_write_service fd OOP_WRITE) (λ _, safe) w.
Proof.
  intros Hs Ha Hfd. pose proof (sd_conn _ (sf_good _ Hs)) as Hi. pose proof (service_writes_forwarding w fd Hi Hfd) as Hf.
  destruct (so_write _ _ (cb_io _ Hi) fd Hfd) as (-> & _ & s & Hsw & Hlen).
  destruct (forwarding_serving w Hi Hf) as [[(s0 & Hs0 & Hw & Hsz) _ _] _]. assert (s0 = s) as -> by congruence. clear Hs0.
  unfold oop_write_service. wp_step. apply wp_assert; [by apply Z.eqb_refl |]. apply wp_assert; [done |].
  destruct (ssh_write_flush_spec s (service_os (w_app w)) 0) as (s' & k' & r & He & Hw' & Hsz' & _ & Hr); [done | lia | done |].
  eapply use_service_writer_wp; [exact Hsw | exact He |]. rewrite Hsz in Hsz'. destruct r as [e | n].
  - destruct Hr as [_ ->]. destruct (written_settled w s k') as (Hc1 & Hi1 & _); auto.
    apply wp_when_last; [| intros _; by apply (calm_safe w)]. intros _.
    apply closed_safe; [by apply (calm_safe w) |]. apply transport_disconnect_wp; [done |].
    intros _. eexists. split; [done | short].
  - apply (the_writer_wp _ _ _ _ s'); [done |].
    assert (wp nofault (when (negb (c_true (sw_length s'))) forward_stop_write)
      (λ a w', settled w a w' ∧ service_writer (w_app w') = Some s' ∧ service_os (w_app w') = k' ∧ alive w' = alive w)
      (written w s' k')) as Hstop.
    { pose proof (adjust_write_wp w s' k' Hi Hf Hw' Hsz') as Hadj. pose proof (ww_length _ Hw').
      unfold c_true in *. destruct (Z.eqb_spec (sw_length s') 0); cbn [negb when] in *; [done |].
      refine (conj _ (conj eq_refl (conj eq_refl eq_refl))). apply written_settled; auto. left. lia. }
    eapply wp_seq; [exact Hstop |]. intros [] w2 ((Hc2 & Hi2 & _) & Hs2 & _ & Ha2).
    apply (the_writer_wp _ _ _ _ s' Hs2). pose proof Hw' as [_ H0s H0l Hroom].
    eapply wp_lift; [unfold ssh_write_available, lsh_string_length; rewrite c_assert_true by lia; done |].
    apply wp_when_last; [| intros _; by apply (calm_safe w)]. intros _.
    apply transport_start_read_wp; [by apply (calm_safe w) | by rewrite Ha2].
Qed.

(** The service's reader was used. *)
Definition service_was_read (w : world) (r : service_read_state) (k : os) : world := set_app (set_service_reader r k) w.

Lemma service_was_read_inv w r k : conn_inv w → forwarding w → conn_inv (service_was_read w r k).
Proof.
  intros Hi Hf. destruct (forwarding_serving w Hi Hf) as [[] _]. pose proof (cb_io _ Hi) as Hio. revert Hi Hf Hio.
  destruct w as [c [o n] k' a0]. intros Hi Hf Hio. apply (forward_inv (set_service_reader r k a0) o (mk_world c (mk_io o n) k' a0)); try done.
  - apply forwarding_ok; [apply Hi | done |]. split; [done | by eexists | done].
  - destruct Hio. by split.
Qed.

(** Up to the reader, which the closing makes irrelevant. *)
Lemma closed_anyway {A} w r k (a : A) w' :
  safe w → alive w = true → closed (service_was_read w r k) a w' → safe w' ∧ service_in (w_app w') = -1.
Proof.
  intros [Hg Hr] Ha Hcl. pose proof (closed_app (service_was_read w r k) a w' Ha Hcl) as Hst. destruct Hcl as (Hc & Hi & Hin).
  split; [| done]. split; [split; [split | lia | lia] |].
  - done.
  - apply closed_kex_inv; [| done]. rewrite (st_ctx _ _ Hc). apply (kv_context _ (sd_kex _ Hg)).
  - lia.
  - by apply stopped_ready.
  - apply (flows_registered w); [done | | |].
    + transitivity (service_was_read w r k); [by split; auto | apply steady_flows, Hc].
    + apply (same_retry_trans _ (service_was_read w r k)); [by split | apply steady_retry, Hc].
    + intros _. apply (st_packet _ _ Hc).
Qed.

Lemma service_was_read_safe w r k : safe w → forwarding w → service_wf r → safe (service_was_read w r k).
Proof.
  intros Hs Hf Hr. pose proof (service_was_read_inv w r k (sd_conn _ (sf_good _ Hs)) Hf) as Hi.
  apply (steady_safe w); [done | |].
  - split; auto. intros _ _. by eexists.
  - destruct Hs as [[[_ [Hcx Hk] Hrd _] Hv Hgr] _]. split; [split; [done | | |] | exact Hv | exact Hgr].
    + split; [done |]. intros Hin. destruct (Hk Hin). by split.
    + intros Hin. destruct (Hrd Hin). by split.
    + intros _. by eexists.
Qed.

Lemma plain_formats data : Forall is_byte data → lenZ data < 2 ^ 20 → formats (ssh_format_string "%ls" [FInt (lenZ data); FBytes data]) data.
Proof.
  intros Hb Hl. pose proof (lenZ_nonneg data). eapply formats_spec.
  - unfold spec_format. cbn -[u32]. rewrite u32_id by (unfold is_u32; lia). rewrite (proj2 (Z.ltb_ge _ _)) by lia. reflexivity.
  - cbn. by rewrite slice_all, app_nil_r.
  - repeat constructor. done.
  - lia.
Qed.

Lemma transport_forward_packet_wp data w :
  conn_inv w → closing w = 0 → Forall is_byte data → 0 < lenZ data <= SSH_MAX_PACKET →
  wp nofault (transport_forward_packet (lenZ data) data) (λ _ w', calm w w' ∧ conn_inv w') w.
Proof.
  intros Hi Hz Hb Hl. unfold transport_forward_packet. unfold SSH_MAX_PACKET in Hl.
  destruct (plain_formats data Hb) as (p & Hp & Hw & Hc); [lia |]. eapply wp_lift; [exact Hp |].
  eapply wp_seq; [apply transport_send_any_wp; [done | | done | done] |].
  { rewrite <- (lenZ_contents p Hw), Hc. done. }
  intros [] w1 (Hc1 & Hi1 & _). destruct (rd_ok data 0) as [msg Hmsg]; [lia |]. eapply wp_lift; [exact Hmsg |].
  apply wp_when_last; [| done]. intros _. eapply wp_weaken; [by apply close_closed |].
  intros [] w2 (Hc2 & Hi2 & _). split; [by transitivity w1 | done].
Qed.

(** Octets of the service that were not delivered yet. *)
Definition service_left (w : world) : Z :=
  match service_reader (w_app w) with Some r => lenZ (service_pending r) | None => 0 end.

Lemma service_pending_length r : service_wf r → 0 <= lenZ (service_pending r) <= SSH_MAX_PACKET + SERVICE_READ_AHEAD + 8.
Proof.
  intros [Hs Hsz _ _ _]. unfold service_pending. rewrite lenZ_app, lenZ_unread by done. destruct Hs as [_ Hst Hl Hr].
  unfold sr_size in Hsz. assert (0 <= lenZ (if sv_packet_length r =? 0 then [] else be32 (sv_seqno r) ++ be32 (sv_packet_length r)) <= 8).
  { destruct (_ =? 0); [change (lenZ []) with 0; lia |]. rewrite lenZ_app, !lenZ_be32. lia. }
  lia.
Qed.

(** The loop's invariant: a service only runs on a live connection. *)
Definition service_safe (w : world) : Prop := safe w ∧ (0 <= service_in (w_app w) → alive w = true).

Lemma calm_service w w' : service_safe w → calm w w' → conn_inv w' → service_safe w'.
Proof.
  intros [Hs Ha] Hc Hi. split; [by apply (calm_safe w) |]. intros Hin. destruct (alive w') eqn:Hd; [done |].
  exfalso. assert (service_in (w_app w) = -1 ∨ 0 <= service_in (w_app w)) as [Hneg | Hpos].
  { destruct (service_sides w) as [| [? _]]; [apply (sd_conn _ (sf_good _ Hs)) | auto..]. }
  - assert (service_in (w_app w') = -1) by (apply (cm_stopped _ _ Hc); by left). lia.
  - assert (service_in (w_app w') = -1) by (apply (cm_stopped _ _ Hc); right; auto). lia.
Qed.

Definition service_shrinks (fd : bool) (w w' : world) : Prop :=
  0 <= service_in (w_app w') →
  service_left w' <= SSH_MAX_PACKET + SERVICE_READ_AHEAD + 8 ∧ (fd = false → service_left w' < service_left w).

Lemma use_service_reader_wp fd w r :
  service_reader (w_app w) = Some r → service_wf r →
  wp stopped (use_service_reader fd) (λ st w', ∃ r' k' d, w' = service_was_read w r' k'
    ∧ service_outcome r (service_os (w_app w)) d r' k' st ∧ (fd = false → d = [])) w.
Proof.
  intros Hr Hwf. unfold use_service_reader. apply wp_gets, wp_gets. unfold compose. rewrite Hr.
  destruct (service_read_packet_spec r fd (service_os (w_app w)) Hwf) as [(r' & k' & st & d & Hrp & Hout) | [Hrp _]].
  - eapply wp_lift; [by rewrite Hrp |]. apply wp_modify, wp_ret. exists r', k', d. split_and!; [done | done |].
    intros ->. apply service_read_packet_nofd in Hrp as ->. destruct Hout as (_ & Hd & _).
    apply (f_equal length) in Hd. rewrite length_app in Hd. by apply nil_length_inv; lia.
  - unfold wp, mbind, action_bind, lift. by rewrite Hrp.
Qed.

Lemma disconnect_closed m w : conn_inv w → message_ok m →
  wp nofault (transport_disconnect SSH_DISCONNECT_BY_APPLICATION (Some m)) (closed w) w.
Proof. intros Hi Hm. apply transport_disconnect_wp; eauto. Qed.

Lemma read_service_round_wp fd w :
  service_safe w → 0 <= service_in (w_app w) →
  wp stopped (read_service_round fd) (λ more w', service_safe w' ∧ (more = true → service_shrinks fd w w')) w.
Proof.
  intros [Hs Hal] Hin. specialize (Hal Hin). pose proof (sd_conn _ (sf_good _ Hs)) as Hi.
  destruct (service_open w Hi Hal Hin) as (Hopen & Hz & Hf). destruct (sd_app _ (sf_good _ Hs) Hin) as (r & Hr & Hwf).
  unfold read_service_round. eapply wp_seq; [by apply use_service_reader_wp |].
  intros st w1 (r' & k' & d & -> & Hout & Hnofd). set (w1 := service_was_read w r' k').
  assert (conn_inv w1) as Hi1 by by apply service_was_read_inv.
  assert (∀ m : action (), wp nofault m (closed w1) w1 →
    wp stopped (m;; mret true) (λ more w', service_safe w' ∧ (more = true → service_shrinks fd w w')) w1) as Hclose.
  { intros m Hm. eapply wp_seq; [by apply nofault_stopped |]. intros [] w2 Hc. apply wp_ret.
    destruct (closed_anyway w r' k' () w2 Hs Hal Hc) as [Hs2 Hin2]. split; [split; [done | lia] |]. intros _ ?. lia. }
  assert (∀ m, message_ok m → wp stopped (transport_disconnect SSH_DISCONNECT_BY_APPLICATION (Some m);; mret true)
    (λ more w', service_safe w' ∧ (more = true → service_shrinks fd w w')) w1) as Hdisc.
  { intros m Hm. apply Hclose. by apply disconnect_closed. }
  assert (service_wf r' → service_safe w1) as Hs1 by (intros Hw'; split; [by apply service_was_read_safe | done]).
  destruct st as [[] | msg | seqno length packet]; destruct Hout as (_ & _ & Hout).
  - apply Hdisc. short.
  - by destruct Hout as (_ & _ & _ & []).
  - apply Hdisc. short.
  - by destruct Hout as (_ & _ & [] & _).
  - apply wp_ret. split; [by apply Hs1, Hout | done].
  - eapply wp_seq; [by apply nofault_stopped, transport_send_flush_wp |]. intros [] w2 (Hc2 & Hi2 & _). apply wp_ret.
    split; [| done]. apply (calm_service w1); [by apply Hs1, Hout | done | done].
  - apply Hdisc. short.
  - destruct Hout as (Hw' & Hq & -> & Hlen & Hb & Hpend). rewrite (proj2 (Z.eqb_neq _ 0)) by lia.
    eapply wp_seq; [apply nofault_stopped, transport_forward_packet_wp; [done | done | done | done] |].
    intros [] w2 [Hc2 Hi2]. apply wp_ret. split; [apply (calm_service w1); [by apply Hs1 | done | done] |].
    intros _ _. assert (service_left w2 = lenZ (service_pending r')) as Hl2.
    { unfold service_left. pose proof (cm_app _ _ Hc2) as He. change (service_reader (w_app w2) = Some r') in He. by rewrite He. }
    rewrite Hl2. split; [by apply service_pending_length |]. intros Hfd. rewrite (Hnofd Hfd), app_nil_r in Hpend.
    unfold service_left. rewrite Hr, Hpend. unfold service_frame. rewrite !lenZ_app, !lenZ_be32. lia.
Qed.

Definition service_enough (fuel : nat) (fd : bool) (w : world) : Prop :=
  0 <= service_in (w_app w) →
  (if fd then SSH_MAX_PACKET + SERVICE_READ_AHEAD + 10 else service_left w + 1) < Z.of_nat fuel.

Lemma service_left_range w : service_safe w → 0 <= service_in (w_app w) →
  0 <= service_left w <= SSH_MAX_PACKET + SERVICE_READ_AHEAD + 8.
Proof.
  intros [Hs _] Hin. destruct (sd_app _ (sf_good _ Hs) Hin) as (r & Hr & Hwf). unfold service_left. rewrite Hr.
  by apply service_pending_length.
Qed.

Lemma read_service_wp fuel fd w :
  service_safe w → service_enough fuel fd w → (0 < fuel)%nat → wp stopped (read_service fuel fd) (λ _, service_safe) w.
Proof.
  revert fd w. induction fuel as [| fuel IH]; intros fd w Hs Hen Hpos; [lia |]. cbn [read_service]. apply wp_gets.
  destruct (Z.leb_spec 0 (service_in (w_app w))) as [Hin | Hneg]; [| by apply wp_skip]. cbn [andb].
  destruct (service_read_active (w_app w)); [| by apply wp_skip].
  eapply wp_seq; [by apply read_service_round_wp |]. intros more w1 [Hs1 Hsh]. destruct more; [| by apply wp_skip].
  specialize (Hsh eq_refl). specialize (Hen Hin). pose proof (service_left_range w Hs Hin).
  apply IH; [done | | unfold SSH_MAX_PACKET, SERVICE_READ_AHEAD in *; destruct fd; lia].
  intros Hin1. destruct (Hsh Hin1) as [Hmax Hlt]. pose proof (service_left_range w1 Hs1 Hin1).
  destruct fd; [lia |]. specialize (Hlt eq_refl). lia.
Qed.

Lemma oop_read_service_wp fd w :
  safe w → alive w = true → fd_callback (io_oop (w_io w)) fd OOP_READ = Some Cb_oop_read_service →
  wp stopped (oop_read_service fd OOP_READ) (λ _, safe) w.
Proof.
  intros Hs Ha Hfd. pose proof (sd_conn _ (sf_good _ Hs)) as Hi. destruct (so_read _ _ (cb_io _ Hi) fd Hfd) as [-> _].
  unfold oop_read_service. apply wp_gets. apply wp_assert; [apply Z.eqb_refl |]. apply wp_assert; [done |].
  assert (service_safe w) as Hss by by split.
  eapply wp_weaken; [apply read_service_wp; [done | | unfold SERVICE_ROUNDS, SSH_MAX_PACKET, SERVICE_READ_AHEAD; lia] |].
  - intros Hin. pose proof (service_left_range w Hss Hin). unfold SERVICE_ROUNDS, SSH_MAX_PACKET, SERVICE_READ_AHEAD in *.
    destruct (0 <=? _); lia.
  - by intros [] w' [Hs' _].
Qed.

End methods.
