(* ===== verification/Lshd.v ===== *)
(** * The server ([src/src/lshd.c])

    The methods lshd installs on a new connection: its destructor, the event
    handler, the line handler for the client's version and the packet handler
    that waits for a service request, with Diffie-Hellman as key exchange; when
    a service is requested its process is started and forwarding set up.  All
    methods keep the contracts of the transport, and so a connection of lshd is
    safe from the first octet to the last.  [socketpair], [fork] and the child's
    side of [exec] are the class [ServiceProcess]. *)

From S2P Require Import Prelude Ssh Nettle Atoms Alist LshString Format FormatSpec Wire Parse ParseSpec ParseAtoms Sys SshWrite SshRead ServiceRead Crypto Hash KexKeys Keyexchange KexSpec DhExchange Encrypt TransportRead TransportSpec TransportSafe TransportWrite Io Transport TransportLogic TransportSend TransportKex TransportProcess TransportDh TransportLoop TransportRun Forward ForwardSafe.
Local Open Scope Z_scope.

(** Our end of a new pair of sockets, with the state of the other end, in a
    parent whose child runs the service. *)
Inductive spawned `{OS} : Type :=
  | Spawned (fd : Z) (k : os)
  | SpawnFailed.

Class ServiceProcess `{OS} := {
  service_entry : Type;
  service_config_lookup : list Z → option service_entry;
  (** [socketpair] and [fork] while the given descriptors are open. *)
  spawn_service : service_entry → list Z → os → spawned;
}.

Class ServiceProcessOk `{ServiceProcess} : Prop := {
  (** The names in the configuration are short. *)
  service_name_short name s : service_config_lookup name = Some s → lenZ name <= 1000;
  (** A new descriptor is not in use. *)
  spawn_service_fresh s used k fd k' : spawn_service s used k = Spawned fd k' → 0 <= fd ∧ fd ∉ used;
}.

Section model.
Context `{Malloc} `{NettleMacros} `{NettleBignum} `{AtomTable} `{OS} `{OopSource} `{Crypto} `{!Algorithms} `{HashFunctions} `{Signatures} `{!MpzRandom}.

(** ** The connection *)

Definition kill_lshd_connection : action () :=
  live ← gets alive;
  when live (
    modify (set_alive false);;
    transport_forward_kill).

(** Used only until the service is started. *)
Definition lshd_event_handler (e : transport_event) : action () :=
  match e with
  | TRANSPORT_EVENT_KEYEXCHANGE_COMPLETE => modify (install_packet_handler Lshd_packet_handler)
  | TRANSPORT_EVENT_START_APPLICATION | TRANSPORT_EVENT_STOP_APPLICATION
  | TRANSPORT_EVENT_CLOSE | TRANSPORT_EVENT_PUSH => skip
  end.

(** While [PUSH] is handled no other [PUSH] occurs. *)
Definition events_in_push : Events := {|
  event_handler h e := match h with
    | Lshd_event_handler => lshd_event_handler e
    | Forward_event_handler => forward_event e
    end;
  kill_connection := kill_lshd_connection;
|}.

Definition forward_event_handler (e : transport_event) : action () :=
  match e with
  | TRANSPORT_EVENT_PUSH => forward_push (H9 := events_in_push)
  | _ => forward_event e
  end.

#[export] Instance lshd_events : Events := {|
  event_handler h e := match h with
    | Lshd_event_handler => lshd_event_handler e
    | Forward_event_handler => forward_event_handler e
    end;
  kill_connection := kill_lshd_connection;
|}.

(** Only four octets are compared. *)
Definition lshd_line_handler (line : list Z) : action () :=
  if (lenZ line <? 8) || negb (bool_decide (slice 0 4 line = slice 0 4 (cstr "SSH-2.0-"))) then
    transport_disconnect 0 (Some "Bad version string.")
  else
    version ← lift (ssh_format_string "%ls" [FInt (lenZ line); FBytes line]);
    modify (λ w, set_kex_state (set_version (kp_state (kex w)) false version) w);;
    modify (set_line_handler None).

(** ** Starting a service *)

Context `{!ServiceProcess}.

Definition format_service_accept (name : list Z) : result lsh_string :=
  ssh_format_string "%c%s" [FInt SSH_MSG_SERVICE_ACCEPT; FInt (lenZ name); FBytes name].

Definition set_service_os (k : os) (a : transport_forward) : transport_forward :=
  mk_forward (service_in a) (service_reader a) (service_read_active a) (service_out a) (service_writer a)
    (service_write_active a) k.

Definition start_service (service : service_entry) (name : list Z) : action () :=
  used ← gets (λ w, [ssh_input w; ssh_output w]);
  k ← gets w_os;
  match spawn_service service used k with
  | SpawnFailed =>
      transport_disconnect SSH_DISCONNECT_SERVICE_NOT_AVAILABLE (Some "Service could not be started")
  | Spawned fd k =>
      modify (set_app (set_service_os k));;
      p ← lift (format_service_accept name);
      transport_send_packet PUSH (Some p);;
      transport_forward_setup fd fd
  end.

Definition parse_service_request : parser (list Z) :=
  msg_number ← parse_uint8;
  if msg_number =? SSH_MSG_SERVICE_REQUEST then parse_last parse_string else pfail.

Definition lshd_service_request_handler (length : Z) (packet : list Z) : action () :=
  '(_, r) ← lift (parse_service_request (simple_buffer_init length packet));
  match r with
  | Some name =>
      match service_config_lookup name with
      | Some service => start_service service name
      | None => transport_disconnect SSH_DISCONNECT_SERVICE_NOT_AVAILABLE (Some "Service not available")
      end
  | None => transport_protocol_error "Invalid SERVICE_REQUEST"
  end.

Definition lshd_packet_handler (seqno length : Z) (packet : list Z) : action bool :=
  lift (c_assert (0 <? length));;
  msg ← lift (rd packet 0);
  (if msg =? SSH_MSG_SERVICE_REQUEST then lshd_service_request_handler length packet
   else p ← lift (format_unimplemented seqno); transport_send_packet PUSH (Some p));;
  mret true.

(** The [init] method of the objects in the table of algorithms. *)
Class DhAlgorithms := exchange_of : keyexchange_algorithm → dh_exchange.
Context `{!DhAlgorithms}.

#[export] Instance lshd_handlers : Handlers := {|
  packet_handler h seqno length packet := match h with
    | Lshd_packet_handler => lshd_packet_handler seqno length packet
    | Forward_packet_handler => forward_packet_handler seqno length packet
    end;
  line_handler h line := match h with Lshd_line_handler => lshd_line_handler line end;
  KEYEXCHANGE_INIT a := dh_init (exchange_of a);
  keyexchange_handler h length packet := dh_handle h length packet;
|}.

(** A new connection on the accepted descriptor. *)
Definition lshd_port_accept (cx : transport_context) (fd : Z) (version : lsh_string) (g : rng) (s : io_state) (k : os)
  : result (world * ()) :=
  transport_handshake version Lshd_line_handler
    (new_world cx fd fd Lshd_event_handler g s k (init_transport_forward k)).

End model.
