(* ===== verification/LshdSafe.v ===== *)
(** * Safety of a connection of lshd

    The methods of lshd keep the contracts of the transport.  Together with
    [TransportRun] this shows that a connection of lshd, with key exchange,
    service requests and forwarding, never fails an assertion, whatever the
    client and the service send. *)

From S2P Require Import Prelude Ssh Nettle Atoms Alist LshString Format FormatSpec Wire Parse ParseSpec ParseAtoms Sys SshWrite SshRead ServiceRead Crypto Hash KexKeys Keyexchange KexSpec DhExchange Encrypt TransportRead TransportSpec TransportSafe TransportWrite Io Transport TransportLogic TransportSend TransportKex TransportProcess TransportDh TransportLoop TransportRun Forward ForwardSafe Lshd.
Local Open Scope Z_scope.

Section events.
Context `{MallocOk} `{NettleMacrosOk} `{NettleBignumOk} `{AtomTableOk} `{OSOk} `{OopSourceOk} `{CryptoOk} `{!Algorithms} `{!AlgorithmsOk} `{HashFunctionsOk} `{Signatures} `{!SignaturesOk} `{!MpzRandom} `{!MpzRandomOk}.

Lemma kill_lshd_connection_wp w :
  conn_base w → wp nofault kill_lshd_connection (λ _ w', calm w w' ∧ conn_inv w' ∧ alive w' = false) w.
Proof.
  intros Hb. unfold kill_lshd_connection. apply wp_gets, wp_when_last; intros Ha.
  - apply wp_modify. by apply transport_forward_kill_wp.
  - split; [done |]. split; [| done]. split; [split; [split; [done | ..] | ..] |]; try congruence.
    intros Hin. destruct (cb_open _ Hb Hin). congruence.
Qed.

(** The handlers before and after a service is started, all events but
    [PUSH]. *)
Lemma start_stop_wp h e w :
  e = TRANSPORT_EVENT_START_APPLICATION ∨ e = TRANSPORT_EVENT_STOP_APPLICATION →
  conn_inv w → tc_event_handler (w_conn w) = h →
  wp nofault (match h with Lshd_event_handler => lshd_event_handler e | Forward_event_handler => forward_event e end)
    (settled w) w.
Proof.
  intros He Hi Hh. destruct h.
  - destruct He as [-> | ->]; apply wp_skip; by apply settled_refl.
  - destruct He as [-> | ->]; [by apply forward_start_read_wp | by apply forward_stop_read_wp].
Qed.

Lemma close_wp h w :
  conn_mid w → tc_event_handler (w_conn w) = h → app_open h (w_app w) →
  wp nofault (match h with
              | Lshd_event_handler => lshd_event_handler TRANSPORT_EVENT_CLOSE
              | Forward_event_handler => forward_event TRANSPORT_EVENT_CLOSE
              end) (λ _ w', calm w w' ∧ conn_mid w' ∧ app_stopped (w_app w') ∧ output w' = output w) w.
Proof.
  intros Hm Hh Ho. destruct h.
  - apply wp_skip. refine (conj _ (conj Hm (conj _ eq_refl))); [done |].
    destruct (cb_app _ Hm) as [_ Ha]. rewrite Hh in Ha. apply (id_in _ (proj1 Ha)).
  - by apply forward_close_event_wp.
Qed.

Lemma complete_wp h w :
  conn_inv w → tc_event_handler (w_conn w) = h → tc_packet_handler (w_conn w) = None →
  is_Some (kp_session_id (kex w)) →
  wp nofault (match h with
              | Lshd_event_handler => lshd_event_handler TRANSPORT_EVENT_KEYEXCHANGE_COMPLETE
              | Forward_event_handler => forward_event TRANSPORT_EVENT_KEYEXCHANGE_COMPLETE
              end) (λ _, replaced w) w.
Proof.
  intros Hi Hh Hp [sid Hsid].
  pose proof (cb_app _ Hi) as [Hs Ha]. rewrite Hh in Ha. destruct h; [| destruct Ha; congruence]. simpl.
  apply wp_modify_last. destruct Ha as [Hid _].
  destruct Hi as [[[[Hopen Hrange Hf Hap Hcl Hws Htm Happ Hses Hret Hio] Hout Hact] Hop Hrun Hstp] Hwr].
  split; [| split; [done |]].
  - split; [split; try done; auto | done | done | by left].
    intros (h & Hh' & Hw). congruence.
  - split; [split; [split; [split | |] | | |] |]; try done.
    + split; [done |]. change (tc_event_handler (w_conn (install_packet_handler Lshd_packet_handler w))) with (tc_event_handler (w_conn w)).
      rewrite Hh. by split.
    + intros Hn. change (kp_session_id (kex w) = None) in Hn. congruence.
Qed.

#[export] Instance events_in_push_ok : EventsOk (H19 := events_in_push).
Proof.
  split; [exact start_stop_wp | exact close_wp | exact complete_wp | exact kill_lshd_connection_wp].
Qed.

#[export] Instance lshd_events_ok : EventsOk.
Proof.
  split; [| exact close_wp | exact complete_wp | exact kill_lshd_connection_wp].
  intros h e w He. pose proof (start_stop_wp h e w He) as Hs. destruct h; [exact Hs |]. destruct He as [-> | ->]; exact Hs.
Qed.

End events.

Section handlers.
Context `{MallocOk} `{NettleMacrosOk} `{NettleBignumOk} `{AtomTableOk} `{OSOk} `{OopSourceOk} `{CryptoOk} `{!Algorithms} `{!AlgorithmsOk} `{HashFunctionsOk} `{Signatures} `{!SignaturesOk} `{!MpzRandom} `{!MpzRandomOk} `{!ServiceProcess} `{!ServiceProcessOk} `{!DhAlgorithms}.

(** Every key exchange in the table can be started. *)
Class DhAlgorithmsOk : Prop := exchange_of_ok a : exchange_ok (exchange_of a).
Context `{!DhAlgorithmsOk}.

(** ** Service requests *)

Lemma parse_service_request_total b :
  buffer_wf b → ∃ b' r, parse_service_request b = Ok (b', r) ∧ ∀ name, r = Some name → Forall is_byte name.
Proof.
  intros Hb. unfold parse_service_request, mbind, parser_bind.
  destruct (codec_exact (p := parse_uint8) b Hb) as (b1 & r1 & -> & Hb1 & _). rewrite bind_ok_l.
  destruct r1 as [n |]; [| by eexists _, _]. destruct (n =? SSH_MSG_SERVICE_REQUEST); [| by eexists _, _].
  destruct (whole_exact (p := parse_last parse_string) b1 Hb1) as (b2 & r2 & -> & _ & Hv).
  eexists _, r2. split; [done |]. intros name ->. by apply (Hv name).
Qed.

Lemma service_accept_sendable name :
  Forall is_byte name → lenZ name <= 1000 → ∃ p, format_service_accept name = Ok p ∧ sendable p.
Proof.
  intros Hb Hl. pose proof (lenZ_nonneg name). eapply (formats_sendable _ SSH_MSG_SERVICE_ACCEPT (wire_string name)).
  - eapply formats_spec.
    + unfold spec_format. cbn -[be32 u32 u8 UINT32_MAX]. rewrite u32_id by (unfold is_u32; lia). unfold UINT32_MAX.
      rewrite (proj2 (Z.ltb_ge _ (lenZ name))) by lia. cbn -[be32 u32 u8]. reflexivity.
    + cbn -[be32 u32]. unfold with_header. by rewrite slice_all, !app_nil_r.
    + by repeat constructor.
    + rewrite lenZ_cons, lenZ_wire_string. lia.
  - done.
  - rewrite lenZ_cons, lenZ_wire_string. unfold SSH_MAX_PACKET. lia.
Qed.

Lemma handler_idle w :
  conn_base w → tc_packet_handler (w_conn w) = Some Lshd_packet_handler →
  tc_event_handler (w_conn w) = Lshd_event_handler ∧ idle (w_app w).
Proof.
  intros Hb Hp. destruct (cb_app _ Hb) as [_ Ha]. destruct (tc_event_handler (w_conn w)); destruct Ha as [? Hp'].
  - done.
  - congruence.
Qed.

Lemma replaced_trans w1 w2 w3 : kex_moved w1 w2 → kex w2 = kex w1 → replaced w2 w3 → replaced w1 w3.
Proof. intros Hm Hk (Hm2 & Hk2 & Hi). split; [by transitivity w2 |]. split; [congruence | done]. Qed.

Lemma closed_replaced {A} w w1 (a : A) w2 : calm w w1 → closed w1 a w2 → replaced w w2.
Proof.
  intros Hc (Hc2 & Hi & _). apply (replaced_trans w w1); [apply Hc | apply Hc |].
  split; [apply Hc2 | split; [apply Hc2 | done]].
Qed.

Lemma start_service_wp service name w :
  conn_inv w → alive w = true → 0 <= ssh_input w → tc_packet_handler (w_conn w) = Some Lshd_packet_handler →
  Forall is_byte name → lenZ name <= 1000 → wp nofault (start_service service name) (λ _, replaced w) w.
Proof.
  intros Hi Ha Hin Hp Hb Hl. destruct (handler_idle w Hi Hp) as [He Hid]. unfold start_service. apply wp_gets, wp_gets.
  destruct (spawn_service service _ (w_os w)) as [fd k |] eqn:Hsp.
  2: { eapply wp_weaken; [apply transport_disconnect_wp; [done |] |].
       - intros _. eexists. split; [done | short].
       - intros [] w1. by apply closed_replaced. }
  destruct (spawn_service_fresh _ _ _ _ _ Hsp) as [Hfd Hfresh]. apply wp_modify. set (w1 := set_app _ w).
  assert (settled w () w1) as (Hc1 & Hi1 & _).
  { destruct (cb_app _ Hi) as [Hs _]. apply (forward_fields (set_service_os k (w_app w)) w); try done.
    - split; [done |]. rewrite He. destruct Hid. by split; [split | congruence].
    - destruct (cb_io _ Hi). by split. }
  destruct (service_accept_sendable name Hb Hl) as (p & Hpf & Hsb). eapply wp_lift; [exact Hpf |].
  eapply wp_seq; [by apply transport_send_packet_wp |]. intros [] w2 (Hc2 & Hi2 & Hs2).
  assert (calm w w2) as Hc by by transitivity w1.
  assert (tc_packet_handler (w_conn w2) = Some Lshd_packet_handler) as Hp2 by by rewrite (cm_packet _ _ Hc).
  destruct (handler_idle w2 Hi2 Hp2) as [_ Hid2].
  eapply wp_weaken; [apply transport_forward_setup_wp; [done | done | | | done | |] |].
  - rewrite Hp2. by eexists.
  - intros Ha2. by rewrite (Hs2 Ha2).
  - destruct (st_input _ _ Hc) as [-> | ->]; [| lia]. intros ->. apply Hfresh. left.
  - destruct (st_output _ _ Hc) as [-> | ->]; [| lia]. intros ->. apply Hfresh. right. left.
  - intros [] w3. apply replaced_trans; apply Hc.
Qed.

Lemma lshd_service_request_handler_wp data w :
  conn_inv w → alive w = true → 0 <= ssh_input w → tc_packet_handler (w_conn w) = Some Lshd_packet_handler →
  Forall is_byte data → lenZ data <= SSH_MAX_PACKET + 1 →
  wp nofault (lshd_service_request_handler (lenZ data) data) (λ _, replaced w) w.
Proof.
  intros Hi Ha Hin Hp Hb Hl. unfold lshd_service_request_handler.
  destruct (parse_service_request_total (simple_buffer_init (lenZ data) data)) as (b' & r & Hpr & Hname).
  { apply init_wf; [done |]. unfold SSH_MAX_PACKET in Hl. lia. }
  eapply wp_lift; [exact Hpr |]. cbv iota beta. destruct r as [name |].
  - specialize (Hname name eq_refl). destruct (service_config_lookup name) as [service |] eqn:Hlook.
    + apply start_service_wp; try done. by apply (service_name_short name service).
    + eapply wp_weaken; [apply transport_disconnect_wp; [done |] |].
      * intros _. eexists. split; [done | short].
      * intros [] w1. by apply closed_replaced.
  - eapply wp_weaken; [apply transport_protocol_error_wp; [done | short] |]. intros [] w1. by apply closed_replaced.
Qed.

Lemma lshd_packet_handler_wp seqno data w :
  conn_inv w → alive w = true → 0 <= ssh_input w → tc_packet_handler (w_conn w) = Some Lshd_packet_handler →
  Forall is_byte data → 0 < lenZ data <= SSH_MAX_PACKET + 1 →
  wp nofault (lshd_packet_handler seqno (lenZ data) data) (λ r w', replaced w w' ∧ (r = false → waits w')) w.
Proof.
  intros Hi Ha Hin Hp Hb Hl. unfold lshd_packet_handler. apply wp_assert; [lia |].
  destruct (rd_ok data 0) as [msg Hmsg]; [lia |]. eapply wp_lift; [exact Hmsg |].
  apply (wp_seq _ _ _ (λ _, replaced w)); [| intros [] w1 Hr; apply wp_ret; by split].
  destruct (msg =? SSH_MSG_SERVICE_REQUEST); [apply lshd_service_request_handler_wp; done || lia |].
  destruct (unimplemented_sendable seqno) as (p & Hpf & Hsb). eapply wp_lift; [exact Hpf |].
  eapply wp_weaken; [by apply transport_send_packet_wp |]. intros [] w1 (Hc & Hi' & _).
  split; [apply Hc | split; [apply Hc | done]].
Qed.

(** ** The client's version *)

Definition greeting (version : lsh_string) (w : world) : world :=
  set_line_handler None (set_kex_state (set_version (kp_state (kex w)) false version) w).

Lemma greeting_good version w :
  ready w → lsh_string_wf version → ls_length version <= 100000 → steady w (greeting version w) ∧ good (greeting version w).
Proof.
  intros [Hg Hin Ht] Hv Hl. split; [by split; auto |]. destruct (cb_app _ (sd_conn _ Hg)) as [Hserver _].
  assert (string_at (ks_version (kex_state_of w)) true) as Hown by (rewrite <- Hserver; by apply (gd_version _ Hg)).
  assert (string_at (ks_version (kex_state_of (greeting version w))) true) as Hown'.
  { destruct Hown as (v & Hv1 & Hv2). exists v. split; [| done]. unfold kex_state_of in *. simpl.
    by destruct (ks_version (kp_state (kex w))). }
  destruct Hg as [[Hi [Hcx Hk] Hrd Hrdy] Hver Hgr].
  split; [split; [by apply (same_conn_inv w) | | | exact Hrdy] | |].
  - split; [done |]. intros Hin'. destruct (Hk Hin'). by split.
  - intros Hin'. destruct (Hrd Hin'). by split.
  - intros _. change (cx_is_server (ctx (greeting version w))) with (cx_is_server (ctx w)). by rewrite Hserver.
  - intros _ _. split; [| done]. exists version. split; [| done]. unfold kex_state_of. simpl.
    by destruct (ks_version (kp_state (kex w))).
Qed.

Lemma lshd_line_handler_wp line w :
  ready w → Forall is_byte line → lenZ line < SSH_MAX_LINE →
  wp nofault (lshd_line_handler line) (λ _ w', steady w w' ∧ good w') w.
Proof.
  intros Hr Hb Hl. pose proof (rd_good _ Hr) as Hg. unfold lshd_line_handler, SSH_MAX_LINE in *. destruct (_ || _).
  - eapply wp_weaken; [apply transport_disconnect_wp; [apply Hg | done] |]. intros [] w1 Hc.
    apply (closed_good w () w1); [apply (kv_context _ (sd_kex _ Hg)) | apply Hg | done].
  - destruct (plain_formats line Hb) as (v & Hf & Hv & Hc); [lia |]. eapply wp_lift; [exact Hf |].
    apply wp_modify, wp_modify_last. apply (greeting_good v w); [done | done |].
    rewrite <- (lenZ_contents v Hv), Hc. lia.
Qed.

#[export] Instance lshd_handlers_ok : HandlersOk.
Proof.
  split.
  - intros h seqno data w Hi Ha Hh Hw Hq Hb Hl. destruct h.
    + destruct Hw as [Hin | Hw]; [| by change (Lshd_packet_handler = Forward_packet_handler) in Hw].
      by apply lshd_packet_handler_wp.
    + apply forward_packet_handler_wp; try done.
      destruct (cb_app _ Hi) as [_ Happ]. rewrite Hh in Happ. unfold forwarding.
      destruct (tc_event_handler (w_conn w)); [| done]. by destruct Happ as [_ []].
  - intros h w Hi Hh. destruct h; simpl.
    + by apply wp_skip.
    + by apply (forward_push_wp (H19 := events_in_push)).
  - intros [] line w. apply lshd_line_handler_wp.
  - intros a w Hi Hk. apply (dh_init_wp (exchange_of a) w); [apply exchange_of_ok | done | done].
  - intros h data w Hr Hst _ Hh Hb Hl. by apply dh_handle_wp.
Qed.

End handlers.

(** ** Running a connection *)

Section run.
Context `{MallocOk} `{NettleMacrosOk} `{NettleBignumOk} `{AtomTableOk} `{OSOk} `{OopSourceOk} `{CryptoOk} `{!Algorithms} `{!AlgorithmsOk} `{HashFunctionsOk} `{Signatures} `{!SignaturesOk} `{!MpzRandom} `{!MpzRandomOk} `{!ServiceProcess} `{!ServiceProcessOk} `{!DhAlgorithms} `{!DhAlgorithmsOk}.

(** What the event loop may call. *)
Inductive lshd_stimulus : Type :=
  | ClientReadable (fd : Z)
  | ClientWritable (fd : Z)
  | TimerExpired
  | RetryPacket
  | ServiceReadable (fd : Z)
  | ServiceWritable (fd : Z).

Definition lshd_deliver (e : lshd_stimulus) : action () :=
  match e with
  | ClientReadable fd => deliver (Readable fd)
  | ClientWritable fd => deliver (Writable fd)
  | TimerExpired => deliver Expired
  | RetryPacket => deliver RetryNow
  | ServiceReadable fd => oop_read_service fd OOP_READ
  | ServiceWritable fd => oop_write_service fd OOP_WRITE
  end.

(** Registered callbacks; a service whose connection is dead is left out. *)
Definition lshd_enabled (e : lshd_stimulus) (w : world) : Prop :=
  match e with
  | ClientReadable fd => enabled (Readable fd) w
  | ClientWritable fd => enabled (Writable fd) w
  | TimerExpired => enabled Expired w
  | RetryPacket => enabled RetryNow w
  | ServiceReadable fd => fd_callback (io_oop (w_io w)) fd OOP_READ = Some Cb_oop_read_service ∧ alive w = true
  | ServiceWritable fd => fd_callback (io_oop (w_io w)) fd OOP_WRITE = Some Cb_oop_write_service ∧ alive w = true
  end.

Inductive lshd_runs : world → list lshd_stimulus → result world → Prop :=
  | lshd_runs_nil w : lshd_runs w [] (Ok w)
  | lshd_runs_fault w e es f : lshd_enabled e w → lshd_deliver e w = Fault f → lshd_runs w (e :: es) (Fault f)
  | lshd_runs_step w e es w' r :
      lshd_enabled e w → lshd_deliver e w = Ok (w', ()) → lshd_runs w' es r → lshd_runs w (e :: es) r.

Lemma lshd_deliver_wp e w : safe w → lshd_enabled e w → wp stopped (lshd_deliver e) (λ _, safe) w.
Proof.
  intros Hs He. destruct e; try (by apply deliver_wp).
  - destruct He. by apply oop_read_service_wp.
  - destruct He. by apply nofault_stopped, oop_write_service_wp.
Qed.

Lemma lshd_runs_safe w es r :
  lshd_runs w es r → safe w → match r with Ok w' => safe w' | Fault f => f = ReaderStopped end.
Proof.
  induction 1 as [w | w e es f He Hd | w e es w' r He Hd _ IH]; intros Hs; [done | |].
  - pose proof (lshd_deliver_wp e w Hs He) as Hwp. unfold wp in Hwp. by rewrite Hd in Hwp.
  - apply IH. pose proof (lshd_deliver_wp e w Hs He) as Hwp. unfold wp in Hwp. by rewrite Hd in Hwp.
Qed.

Lemma lshd_app_new cx k : cx_is_server cx = true → app_new cx Lshd_event_handler (init_transport_forward k).
Proof.
  intros Hs. split; [split; [done | by split; [split |]] | done | by apply stopped_ready | done |].
  intros f Hf. split; intros fd Hx; by destruct (Hf _ _ _ Hx).
Qed.


End run.
