(* ===== verification/LshdExample.v ===== *)
(** * A server in the model

    A concrete configuration of lshd: one service, Diffie-Hellman over a small
    group, the real table of atoms.  It shows that the hypotheses of the
    theorems on connections can be met. *)

From S2P Require Import Prelude Ssh Nettle Atoms Alist LshString Format FormatSpec Wire Parse ParseSpec ParseAtoms Sys SshWrite SshRead ServiceRead Crypto Hash KexKeys Keyexchange KexSpec DhExchange Encrypt TransportRead TransportSpec TransportSafe TransportWrite Io Transport TransportLogic TransportSend TransportKex TransportProcess TransportDh TransportLoop TransportRun Forward ForwardSafe Lshd LshdSafe.
Local Open Scope Z_scope.

(** ** Instances *)

(** The kernel gives a descriptor above those in use. *)
#[export] Instance ref_services : ServiceProcess := {|
  service_entry := ();
  service_config_lookup name := if bool_decide (name = cstr "ssh-userauth") then Some () else None;
  spawn_service _ used k := Spawned (1 + foldr Z.max 0 used) k;
|}.

Lemma above_max l : 0 <= foldr Z.max 0 l ∧ Forall (λ x, x <= foldr Z.max 0 l) l.
Proof.
  induction l as [| x l [IH0 IH]]; [by split |]. simpl. split; [lia |]. apply Forall_cons. split; [lia |].
  eapply Forall_impl; [exact IH |]. simpl. lia.
Qed.

#[export] Instance ref_services_ok : ServiceProcessOk.
Proof.
  split.
  - intros name s Hs. change ((if bool_decide (name = cstr "ssh-userauth") then Some () else None) = Some s) in Hs.
    case_bool_decide as Hn; [| done]. rewrite Hn. vm_compute. discriminate.
  - intros s used k fd k' [= <- <-]. destruct (above_max used) as [H0 Hall]. split; [lia |]. intros Hin.
    rewrite Forall_forall in Hall. specialize (Hall _ Hin). lia.
Qed.

(** The host key has algorithm 6. *)
Definition ref_host_key_table : alist (@keypair ref_signatures) := alist_linked [(6, ref_keypair)].

#[export] Instance ref_exchanges : DhAlgorithms := λ _, server_dh_exchange small_group ref_host_key_table.

#[export] Instance ref_exchanges_ok : DhAlgorithmsOk.
Proof.
  intros a. split; [apply make_dh_params_ok; vm_compute; discriminate |].
  exists {[6 := ref_keypair]}. split; [split; [apply NoDup_singleton | done] |]. split.
  - intros b [Hb _]. split; [lia | done].
  - intros b key [_ <-]%lookup_singleton_Some. split; [apply short_string_wf; unfold is_byte; lia | simpl; lia].
Qed.

Definition ref_algorithm_table : list (Z * algorithm) :=
  [(2, AlgCompress ()); (3, AlgCrypto ()); (4, AlgMac ()); (5, AlgKex ())].

Definition ref_context : transport_context :=
  mk_context true (alist_linked ref_algorithm_table) (mk_kexinit_info [5] [6] [3] [4] [2; 1] []).

Lemma ref_context_ok : context_ok ref_context.
Proof.
  exists (list_to_map ref_algorithm_table). split; [split; [| done] |].
  { change (NoDup [2; 3; 4; 5]). apply (bool_decide_unpack _). vm_compute. exact I. }
  split; [intros a [Ha _]; split; [lia | done] |]. split.
  - repeat (apply Forall_cons; split; [by apply atom_list_okb |]). constructor.
  - done.
  - intros i a Hi Ha. do 7 (destruct i as [| i]; [set_unfold in Ha; destruct_or?; subst; vm_compute; try lia |]). lia.
  - intros k [g ->]. destruct (random_generate_ok g COOKIE_SIZE) as [_ Hc]; [done |].
    unfold make_kexinit. destruct (random_generate g COOKIE_SIZE) as [g' cookie]. simpl in Hc.
    unfold encode_kexinit. cbn [snd]. set (p := proposal_of _). change (p_cookie p) with cookie.
    change (p_lists p) with ((join_commas ∘ atom_names) <$> [[5]; [6]; [3]; [3]; [4]; [4]; [2; 1]; [2; 1]; []; []]).
    change (p_follows p) with 0. rewrite lenZ_cons, lenZ_app, Hc. vm_compute. discriminate.
Qed.

(** A server's version line, and an event loop in which nothing is registered. *)
Definition ref_version : lsh_string := mk_lsh_string 1 [83; 0].
Definition ref_io : io_state := mk_io no_callbacks 0.

Lemma ref_version_wf : lsh_string_wf ref_version.
Proof. apply short_string_wf. unfold is_byte. lia. Qed.

Lemma ref_io_unused : unused ref_io.
Proof. split; [done | done | simpl; lia]. Qed.

(** A new connection that reads and writes with different descriptors. *)
Definition ref_world : world :=
  new_world ref_context 3 4 (Lshd_event_handler : @event_method lshd_methods) 0 ref_io (scripted [])
    (init_transport_forward (scripted [])).

(** ** Connections *)



(** ** After the version exchange *)

(** Our version sent, then the client's received. *)
Definition ref_introduced : world :=
  set_line_handler (Some (Lshd_line_handler : @line_method lshd_methods))
    (set_kex_state (set_version (kp_state (kex ref_world)) true ref_version) ref_world).
Definition ref_greeted : world := greeting ref_version ref_introduced.

Lemma ref_world_sound :
  sound ref_world ∧ registered ref_world ∧ alive ref_world = true ∧ in_retry_length (input ref_world) = 0
  ∧ tr_total_length (in_reader (input ref_world)) = 0 ∧ ks_read_state (kex_state_of ref_world) = KEX_STATE_INIT.
Proof.
  apply new_world_safe; [exact ref_context_ok | lia | lia | exact ref_io_unused |]. by apply lshd_app_new.
Qed.

Lemma ref_greeted_ready : ready ref_greeted.
Proof.
  destruct ref_world_sound as (Hs & Hreg & Ha & Hz & Ht & _).
  destruct (send_version_wp ref_version ref_world Hs Ha ref_version_wf) as [_ Hs1]; [simpl; lia |].
  assert (safe ref_introduced) as Hsafe.
  { apply set_line_handler_safe; [exact Hs1 | | | exact Hz | exact Ht].
    - by apply (moved_registered ref_world); [| apply set_kex_moved].
    - exists ref_version. split; [reflexivity |]. split; [exact ref_version_wf | simpl; lia]. }
  assert (ready ref_introduced) as Hr by (split; [apply Hsafe | vm_compute; discriminate | exact Ht]).
  destruct (greeting_good ref_version ref_introduced Hr ref_version_wf) as [_ Hg]; [simpl; lia |].
  split; [exact Hg | vm_compute; discriminate | exact Ht].
Qed.

Lemma transport_process_packet_keys_witness :
  ∃ w' r, transport_process_packet 0 1 ref_greeted = Ok (w', r) ∧ good w'
    ∧ (in_reader (input w') = in_reader (input ref_greeted)
       ∨ is_newkeys ref_greeted 1 ∧ ks_read_state (kex_state_of ref_greeted) = KEX_STATE_NEWKEYS
         ∧ in_reader (input w') = transport_read_new_keys (in_reader (input ref_greeted)) (kp_new_mac (kex ref_greeted))
                                    (kp_new_crypto (kex ref_greeted)) (kp_new_inflate (kex ref_greeted))).
Proof.
  apply (transport_process_packet_keys 0 1 ref_greeted).
  - exact ref_greeted_ready.
  - reflexivity.
  - unfold is_u32. lia.
  - unfold SSH_MAX_PACKET. lia.
Defined.

(** ** With a service *)

(** The session has an identifier, the event of the first key exchange is
    handled, and a service is started on descriptor 5. *)
Definition ref_keyed : world :=
  install_packet_handler Lshd_packet_handler (set_session_id (Some ref_version) ref_greeted).
Definition ref_forwarding : world := forward_started 5 ref_keyed.

Lemma ref_forwarding_inv : conn_inv ref_forwarding.
Proof.
  assert (conn_inv (set_session_id (Some ref_version) ref_greeted)) as Hi.
  { apply set_kex_inv; [apply (rd_good _ ref_greeted_ready) | done]. }
  assert (conn_inv ref_keyed) as Hk.
  { pose proof (complete_wp Lshd_event_handler _ Hi eq_refl eq_refl) as Hwp. unfold wp in Hwp. simpl in Hwp.
    by destruct (Hwp ltac:(by eexists)) as (_ & _ & Hr). }
  assert (replaced ref_keyed (forward_started 5 ref_keyed)) as (_ & _ & Hr); [| exact Hr].
  apply (forward_started_replaced 5 ref_keyed Hk).
  - change (w_app ref_keyed) with (init_transport_forward (scripted [])). by split.
  - by exists (Lshd_packet_handler : @packet_method lshd_methods).
  - intros _. change (0 <= 3). lia.
  - discriminate.
  - change (5 ≠ 3). discriminate.
  - change (5 ≠ 4). discriminate.
Qed.

Lemma transport_forward_service_packet_correct_witness :
  ∃ w' r, transport_forward_service_packet 0 (lenZ [90; 1]) [90; 1] ref_forwarding = Ok (w', r)
    ∧ calm ref_forwarding w' ∧ conn_inv w'
    ∧ match r with
      | false => w' = ref_forwarding ∧ ∃ s, service_writer (w_app ref_forwarding) = Some s
          ∧ FORWARD_WRITE_BUFFER_SIZE < sw_length s + (lenZ [90; 1] + 8)
      | true => service_stream (w_app w') = service_stream (w_app ref_forwarding) ++ service_frame 0 [90; 1]
          ∨ ssh_input w' = -1
      end.
Proof.
  apply (transport_forward_service_packet_correct 0 [90; 1] ref_forwarding).
  - exact ref_forwarding_inv.
  - reflexivity.
  - unfold is_u32. lia.
  - repeat (apply Forall_cons; split; [unfold is_byte; lia |]). constructor.
  - vm_compute. split; [reflexivity | discriminate].
Defined.
