(* ===== verification/Charset.v ===== *)
(** * Character sets ([src/src/charset.c])

    Conversion between UTF-8, as the protocol has it, and the local character
    set.  The conversion from UTF-8 is compared with decoding the whole string
    and converting its characters one by one. *)

From S2P Require Import Prelude Nettle Atoms LshString Format FormatSpec Parse ParseSpec ParseUtf8.
Local Open Scope Z_scope.

(** The values [local_charset] may have. *)
Inductive charset : Set := CHARSET_UTF8 | CHARSET_LATIN1 | CHARSET_USASCII.

#[global] Instance charset_eq_dec : EqDecision charset.
Proof. solve_decision. Defined.

(** [enum utf8_flag] *)
Record utf8_flag := mk_flag {
  utf8_replace : bool;
  utf8_paranoid : bool;
  utf8_tolerant : bool;
}.

Section model.
Context `{Malloc}.
Variable local_charset : charset.

Definition local_to_ucs4 (c : Z) : result Z :=
  match local_charset with
  | CHARSET_USASCII | CHARSET_LATIN1 => Ok (u32 c)
  | CHARSET_UTF8 => c_fatal
  end.

Definition ucs4_to_local (c : Z) : result Z :=
  match local_charset with
  | CHARSET_USASCII => Ok (if c <? 128 then c else -1)
  | CHARSET_LATIN1 => Ok (if c <? 256 then c else -1)
  | CHARSET_UTF8 => c_fatal
  end.

(** ** To UTF-8 *)

(** How many octets a character needs. *)
Definition ucs4_length (c : Z) : result Z :=
  if c <? 2 ^ 7 then Ok 1
  else if c <? 2 ^ 11 then Ok 2
  else if c <? 2 ^ 16 then Ok 3
  else if c <? 2 ^ 21 then Ok 4
  else if c <? 2 ^ 25 then Ok 5
  else if c <? 2 ^ 31 then Ok 6
  else c_fatal.

(** The first loop: [chars], [lengths] and [total]. *)
Fixpoint measure_chars (data : list Z) (total : Z) : result (list (Z * Z) * Z) :=
  match data with
  | [] => Ok ([], total)
  | d :: data =>
      c ← local_to_ucs4 d;
      l ← ucs4_length c;
      '(chars, total) ← measure_chars data (u32 (total + l));
      Ok ((c, l) :: chars, total)
  end.

Definition utf8_prefix : list Z := [0; 192; 224; 240; 248; 252].

(** [for (k = l; k; k--)]: the continuation octets, last one first. *)
Fixpoint put_continuation (k : nat) (res : lsh_string) (j c : Z) : result (lsh_string * Z) :=
  match k with
  | O => Ok (res, c)
  | S k' =>
      res ← lsh_string_putc res (u32 (j + Z.of_nat k)) (Z.lor 128 (Z.land c 63));
      put_continuation k' res j (Z.shiftr c 6)
  end.

(** The second loop. *)
Fixpoint put_chars (chars : list (Z * Z)) (res : lsh_string) (j : Z) : result (lsh_string * Z) :=
  match chars with
  | [] => Ok (res, j)
  | (c, length) :: chars =>
      let l := length - 1 in
      '(res, c) ← put_continuation (Z.to_nat l) res j c;
      p ← rd utf8_prefix l;
      _ ← c_assert (Z.land p c =? 0);
      res ← lsh_string_putc res j (Z.lor p c);
      put_chars chars res (u32 (j + length))
  end.

Definition local_to_utf8 (s : lsh_string) : result lsh_string :=
  match local_charset with
  | CHARSET_UTF8 | CHARSET_USASCII => Ok s
  | CHARSET_LATIN1 =>
      '(chars, total) ← measure_chars (slice 0 (lsh_string_length s) (lsh_string_data s)) 0;
      '(res, j) ← put_chars chars (lsh_string_alloc total) 0;
      _ ← c_assert (j =? total);
      Ok res
  end.

(** ** From UTF-8 *)

(** Newlines are allowed. *)
Definition ucs4_is_control (c : Z) : bool :=
  ((c <? 32) && negb (c =? 10)) || ((127 <=? c) && (c <? 160)).

(** The case of a character; null stands for [goto fail]. *)
Definition put_local (flags : utf8_flag) (res : lsh_string) (i : Z) (b : simple_buffer) (ucs4 utf8_length : Z)
  : result (option (lsh_string * Z)) :=
  if utf8_paranoid flags && ucs4_is_control ucs4 then
    if utf8_replace flags then res ← lsh_string_putc res i 63; Ok (Some (res, u32 (i + 1))) else Ok None
  else
    match local_charset with
    | CHARSET_UTF8 =>
        res ← lsh_string_write res i utf8_length (drop (Z.to_nat (sb_pos b - utf8_length)) (sb_data b));
        Ok (Some (res, u32 (i + utf8_length)))
    | _ =>
        local ← ucs4_to_local ucs4;
        if local <? 0 then
          if utf8_replace flags then res ← lsh_string_putc res i 63; Ok (Some (res, u32 (i + 1))) else Ok None
        else
          res ← lsh_string_putc res i local; Ok (Some (res, u32 (i + 1)))
    end.

Definition initialised {A} (x : option A) : result A :=
  match x with Some a => Ok a | None => Fault Uninitialised end.

(** [for (;;)]: each round consumes octets. *)
Fixpoint to_local (fuel : nat) (flags : utf8_flag) (length : Z) (b : simple_buffer) (res : lsh_string) (i : Z)
  : result (option lsh_string) :=
  match fuel with
  | O => Fault NonTermination
  | S fuel =>
      '(b, o) ← parse_utf8 b;
      if u_ret o =? -1 then
        _ ← c_assert (i <=? length);
        res ← lsh_string_trunc res i; Ok (Some res)
      else if u_ret o =? 1 then
        ucs4 ← initialised (u_result o);
        n ← initialised (u_length o);
        r ← put_local flags res i b ucs4 n;
        match r with
        | Some (res, i) => to_local fuel flags length b res i
        | None => Ok None
        end
      else if u_ret o =? 0 then
        if utf8_tolerant flags then
          res ← lsh_string_putc res i 63;
          to_local fuel flags length b res (u32 (i + 1))
        else Ok None
      else c_fatal
  end.

Definition low_utf8_to_local (length : Z) (s : list Z) (flags : utf8_flag) : result (option lsh_string) :=
  to_local (S (Z.to_nat length)) flags length (simple_buffer_init length s) (lsh_string_alloc length) 0.

Definition utf8_to_local (s : lsh_string) (flags : utf8_flag) : result (option lsh_string) :=
  low_utf8_to_local (lsh_string_length s) (lsh_string_data s) flags.

End model.

(** ** Reference *)

(** All characters of a string; [None] where [parse_utf8] reports an error. *)
Fixpoint decode (fuel : nat) (l : list Z) : list (option Z) :=
  match fuel, l with
  | S fuel, _ :: _ =>
      let '(n, o) := utf8_spec l in
      (if u_ret o =? 1 then u_result o else None) :: decode fuel (drop (Z.to_nat n) l)
  | _, _ => []
  end.

Definition utf8_decode (l : list Z) : list (option Z) := decode (length l) l.

(** What a character becomes, if it is acceptable. *)
Definition local_octets (local_charset : charset) (flags : utf8_flag) (c : option Z) : option (list Z) :=
  match c with
  | None => if utf8_tolerant flags then Some [63] else None
  | Some n =>
      let strange := if utf8_replace flags then Some [63] else None in
      if utf8_paranoid flags && ucs4_is_control n then strange
      else match local_charset with
      | CHARSET_UTF8 => Some (utf8_encode n)
      | CHARSET_LATIN1 => if n <? 256 then Some [n] else strange
      | CHARSET_USASCII => if n <? 128 then Some [n] else strange
      end
  end.

(** ** Decoding *)

Lemma utf8_spec_cases l :
  Forall is_byte l → l ≠ [] →
  (∃ n tl, utf8_valid n ∧ l = utf8_encode n ++ tl
     ∧ utf8_spec l = (lenZ (utf8_encode n), mk_utf8 1 (Some n) (Some (lenZ (utf8_encode n)))))
  ∨ u_ret (utf8_spec l).2 = 0 ∧ 0 < (utf8_spec l).1 <= lenZ l.
Proof.
  intros Hb Hne. destruct (decide (u_ret (utf8_spec l).2 = 1)) as [Hr | Hr].
  - left. destruct (utf8_spec_sound l Hb Hr) as (n & tl & Hn & ->). exists n, tl. by rewrite utf8_spec_encode.
  - right. destruct (utf8_spec_bounds l Hb) as [Hbd Hpos]. split; [| specialize (Hpos Hne); lia].
    revert Hr. destruct l as [| c r]; [done |]. cbn [utf8_spec]. by repeat case_match.
Qed.

Lemma utf8_encode_head n : ∃ c cs, utf8_encode n = c :: cs.
Proof. unfold utf8_encode. destruct (utf8_form n). by eexists _, _. Qed.

Lemma decode_encode fuel n tl :
  utf8_valid n → decode (S fuel) (utf8_encode n ++ tl) = Some n :: decode fuel tl.
Proof.
  intros Hn. pose proof (utf8_spec_encode n tl Hn) as Hs. destruct (utf8_encode_head n) as (c & cs & Hc).
  cbn [decode]. rewrite Hc in *. cbn [app] in *. rewrite Hs. cbn [u_ret u_result].
  change (1 =? 1) with true. cbv iota. f_equal. f_equal. unfold lenZ. rewrite Nat2Z.id.
  by rewrite (app_comm_cons cs tl c), drop_app_length.
Qed.

Lemma decode_bad fuel l :
  l ≠ [] → u_ret (utf8_spec l).2 = 0 →
  decode (S fuel) l = None :: decode fuel (drop (Z.to_nat (utf8_spec l).1) l).
Proof. intros Hne Hr. destruct l as [| c l]; [done |]. cbn [decode]. destruct (utf8_spec (c :: l)). simpl in *. by rewrite Hr. Qed.

(** Enough fuel is enough. *)
Lemma decode_fuel f1 f2 l :
  Forall is_byte l → (length l <= f1)%nat → (length l <= f2)%nat → decode f1 l = decode f2 l.
Proof.
  revert f2 l. induction f1 as [| f1 IH]; intros f2 l Hb H1 H2.
  - destruct l; [by destruct f2 | simpl in H1; lia].
  - destruct l as [| c l]; [by destruct f2 |]. destruct f2 as [| f2]; [simpl in H2; lia |].
    destruct (utf8_spec_bounds (c :: l) Hb) as [Hbd Hpos]. specialize (Hpos ltac:(done)).
    cbn [decode]. destruct (utf8_spec (c :: l)) as [n o] eqn:Ho. simpl in *. f_equal.
    apply IH; [by apply Forall_drop | rewrite length_drop; simpl; lia..].
Qed.

Lemma utf8_decode_encode n tl :
  utf8_valid n → Forall is_byte (utf8_encode n ++ tl) → utf8_decode (utf8_encode n ++ tl) = Some n :: utf8_decode tl.
Proof.
  intros Hn [_ Hb]%Forall_app. unfold utf8_decode. rewrite length_app.
  destruct (utf8_encode_head n) as (c & cs & He).
  replace (length (utf8_encode n)) with (S (length cs)) by by rewrite He. simpl (S _ + _)%nat.
  rewrite decode_encode by done. f_equal. apply decode_fuel; [done | lia | lia].
Qed.

Lemma utf8_decode_bad l :
  Forall is_byte l → l ≠ [] → u_ret (utf8_spec l).2 = 0 →
  utf8_decode l = None :: utf8_decode (drop (Z.to_nat (utf8_spec l).1) l).
Proof.
  intros Hb Hne Hr. destruct (utf8_spec_bounds l Hb) as [_ Hpos]. specialize (Hpos Hne). unfold utf8_decode.
  destruct (length l) as [| f] eqn:Hf; [by destruct l |]. rewrite decode_bad by done. f_equal.
  apply decode_fuel; [by apply Forall_drop | rewrite length_drop; lia | lia].
Qed.

(** ** The loop *)

Section proofs.
Context `{MallocOk}.
Variable local_charset : charset.

Lemma wrote_more p0 out p bs p' :
  lsh_string_wf p0 → wrote p0 0 out p → lenZ out + lenZ bs <= ls_length p0 → wrote p (lenZ out) bs p' →
  wrote p0 0 (out ++ bs) p'.
Proof. intros Hwf Hw Hr Hw'. apply (wrote_app p0 0 out p); [done | lia | lia | done | by rewrite Z.add_0_l]. Qed.

Lemma ucs4_to_local_spec n :
  local_charset ≠ CHARSET_UTF8 → 0 <= n →
  ∃ v, ucs4_to_local local_charset n = Ok v
    ∧ match local_octets local_charset (mk_flag false false false) (Some n) with
      | Some bs => v = n ∧ bs = [n] ∧ is_byte n
      | None => v = -1
      end.
Proof.
  intros Hcs Hn. destruct local_charset; [done | |]; simpl; eexists; (split; [done |]);
    case_bool; try done; (split; [done | split; [done | unfold is_byte; lia]]).
Qed.

(** [putc] of one more octet. *)
Lemma putc_more {B} p0 out p c (k : lsh_string * Z → result B) :
  lsh_string_wf p0 → wrote p0 0 out p → lenZ out + 1 <= ls_length p0 → is_byte c →
  ∃ p', wrote p0 0 (out ++ [c]) p'
    ∧ (res ← lsh_string_putc p (lenZ out) c; k (res, u32 (lenZ out + 1))) = k (p', lenZ (out ++ [c])).
Proof.
  intros Hwf Hw Hr Hc. pose proof (lenZ_nonneg out).
  destruct (putc_wrote p (lenZ out) c) as (p' & Hp & Hw');
    [by apply (wrote_wf p0 0 out) | rewrite (wrote_len _ _ _ _ Hw); lia |].
  rewrite Hp, bind_ok_l. rewrite u8_id in Hw' by done. exists p'.
  split; [apply (wrote_more p0 out p); try done |].
  rewrite lenZ_app. rewrite (wf_u32 p0) by (done || lia). done.
Qed.

Lemma put_local_spec flags p0 out p b n tl :
  lsh_string_wf p0 → wrote p0 0 out p → buffer_wf b → utf8_valid n →
  remaining b = tl → lenZ (utf8_encode n) <= sb_pos b →
  slice (sb_pos b - lenZ (utf8_encode n)) (lenZ (utf8_encode n)) (sb_data b) = utf8_encode n →
  Forall is_byte (utf8_encode n) → lenZ out + lenZ (utf8_encode n) <= ls_length p0 →
  match local_octets local_charset flags (Some n) with
  | Some bs => lenZ bs <= lenZ (utf8_encode n)
      ∧ ∃ p', put_local local_charset flags p (lenZ out) b n (lenZ (utf8_encode n)) = Ok (Some (p', lenZ (out ++ bs)))
        ∧ wrote p0 0 (out ++ bs) p'
  | None => put_local local_charset flags p (lenZ out) b n (lenZ (utf8_encode n)) = Ok None
  end.
Proof.
  intros Hwf Hw Hb Hn Hrem Hpos Hsl Hby Hroom. pose proof (lenZ_nonneg out).
  assert (1 <= lenZ (utf8_encode n)) as Hlen1.
  { destruct (utf8_encode_head n) as (c & cs & ->). rewrite lenZ_cons. pose proof (lenZ_nonneg cs). lia. }
  assert (∀ c, is_byte c → lenZ [c] <= lenZ (utf8_encode n) ∧ ∃ p',
    (res ← lsh_string_putc p (lenZ out) c; Ok (Some (res, u32 (lenZ out + 1)))) = Ok (Some (p', lenZ (out ++ [c])))
    ∧ wrote p0 0 (out ++ [c]) p') as Hput.
  { intros c Hc. split; [done |]. destruct (putc_more p0 out p c (λ x, Ok (Some x))) as (p' & Hp' & ->); try done; [lia |].
    by exists p'. }
  unfold put_local, local_octets. destruct (utf8_paranoid flags && ucs4_is_control n).
  { destruct (utf8_replace flags); [by apply Hput | done]. }
  destruct local_charset eqn:Hcs; simpl.
  - split; [lia |].
    destruct (write_wrote p (lenZ out) (lenZ (utf8_encode n)) (drop (Z.to_nat (sb_pos b - lenZ (utf8_encode n))) (sb_data b)))
      as (p' & Hp' & Hw'); try lia.
    + by apply (wrote_wf p0 0 out).
    + by rewrite (wrote_len _ _ _ _ Hw).
    + destruct Hb. unfold lenZ in *. rewrite length_drop. lia.
    + apply Forall_drop, Hb.
    + rewrite Hp', bind_ok_l. exists p'. rewrite lenZ_app, (wf_u32 p0) by (done || lia). split; [done |].
      apply (wrote_more p0 out p); try done. rewrite <- Hsl. exact Hw'.
  - destruct (n <? 256) eqn:?; [rewrite (proj2 (Z.ltb_ge n 0)) by (unfold utf8_valid in Hn; lia); apply Hput; unfold utf8_valid in Hn; unfold is_byte; lia |].
    simpl. destruct (utf8_replace flags); [by apply Hput | done].
  - destruct (n <? 128) eqn:?; [rewrite (proj2 (Z.ltb_ge n 0)) by (unfold utf8_valid in Hn; lia); apply Hput; unfold utf8_valid in Hn; unfold is_byte; lia |].
    simpl. destruct (utf8_replace flags); [by apply Hput | done].
Qed.

(** The octets just consumed. *)
Lemma advanced b e tl :
  buffer_wf b → remaining b = e ++ tl →
  buffer_wf (ADVANCE b (lenZ e)) ∧ remaining (ADVANCE b (lenZ e)) = tl ∧ lenZ e <= sb_pos (ADVANCE b (lenZ e))
  ∧ slice (sb_pos (ADVANCE b (lenZ e)) - lenZ e) (lenZ e) (sb_data (ADVANCE b (lenZ e))) = e.
Proof.
  intros Hwf Hrem. pose proof (LEFT_remaining b Hwf) as Hl. rewrite Hrem, lenZ_app in Hl.
  pose proof (lenZ_nonneg e) as He. pose proof (lenZ_nonneg tl) as Ht.
  destruct (advance_wf b (lenZ e) Hwf) as [Hw Hr]; [lia |]. destruct Hwf as [Hp Hc Hd Hb].
  assert (lenZ e + lenZ tl = sb_capacity b - sb_pos b) as Hcap.
  { rewrite <- lenZ_app, <- Hrem. unfold remaining. rewrite lenZ_slice; lia. }
  assert (sb_pos (ADVANCE b (lenZ e)) = sb_pos b + lenZ e) as Hpos by (simpl; apply u32_id; unfold is_u32; lia).
  split; [done |]. rewrite Hr, Hrem, Hpos. split_and!; [| lia |].
  - unfold lenZ. rewrite Nat2Z.id. apply drop_app_length.
  - replace (sb_pos b + lenZ e - lenZ e) with (sb_pos b) by lia. change (sb_data (ADVANCE b (lenZ e))) with (sb_data b).
    pose proof (slice_app_first (lenZ e) e tl eq_refl) as Hs. rewrite <- Hrem in Hs. unfold remaining in Hs.
    rewrite slice_slice in Hs by lia. by rewrite Z.add_0_r in Hs.
Qed.

(** What is left to convert, after [out]. *)
Definition converts (flags : utf8_flag) (length : Z) (out l : list Z) (c : result (option lsh_string)) : Prop :=
  match mapM (local_octets local_charset flags) (utf8_decode l) with
  | Some outs => ∃ s, c = Ok (Some s) ∧ lsh_string_wf s ∧ contents s = out ++ concat outs ∧ ls_length s <= length
  | None => c = Ok None
  end.

Lemma converts_cons flags length out l t bs l' c :
  utf8_decode l = t :: utf8_decode l' → local_octets local_charset flags t = Some bs →
  converts flags length (out ++ bs) l' c → converts flags length out l c.
Proof.
  intros Hd Ht. unfold converts. rewrite Hd. cbn [mapM]. rewrite Ht. simpl.
  destruct (mapM _ (utf8_decode l')) as [outs |]; simpl; [| done].
  intros (s & Hc & Hw & Hs & Hl). exists s. by rewrite Hs, <- app_assoc.
Qed.

Lemma converts_stop flags length out l t l' :
  utf8_decode l = t :: l' → local_octets local_charset flags t = None → converts flags length out l (Ok None).
Proof. intros Hd Ht. unfold converts. rewrite Hd. cbn [mapM]. by rewrite Ht. Qed.

Lemma converts_end flags length out p0 p :
  lsh_string_wf p0 → wrote p0 0 out p → ls_length p0 = length → lenZ out <= length →
  converts flags length out [] (_ ← c_assert (lenZ out <=? length); res ← lsh_string_trunc p (lenZ out); Ok (Some res)).
Proof.
  intros Hwf Hw Hlen Hroom. pose proof (lenZ_nonneg out) as Ho. rewrite c_assert_true, bind_ok_l by lia.
  destruct (lsh_string_trunc_spec p (lenZ out)) as (s & -> & Hs & Hsl & Hsc).
  - by apply (wrote_wf p0 0 out).
  - rewrite (wrote_len _ _ _ _ Hw). lia.
  - exists s. split; [done |]. split; [done |]. destruct Hw as (_ & _ & Hc). rewrite Hsc, Hc, app_nil_r.
    split; [| lia]. rewrite slice_splice_same; [done | lia |]. rewrite lenZ_contents by done. lia.
Qed.

Lemma to_local_spec fuel flags length b p0 p out :
  buffer_wf b → lsh_string_wf p0 → wrote p0 0 out p → ls_length p0 = length →
  lenZ out + lenZ (remaining b) <= length → (List.length (remaining b) < fuel)%nat →
  converts flags length out (remaining b) (to_local local_charset fuel flags length b p (lenZ out)).
Proof.
  revert b p out. induction fuel as [| fuel IH]; intros b p out Hb Hwf Hw Hlen Hroom Hfuel; [lia |].
  pose proof (remaining_bytes b Hb) as Hby. cbn [to_local]. rewrite parse_utf8_eq, bind_ok_l by done.
  destruct (decide (remaining b = [])) as [Hnil | Hne].
  { rewrite Hnil in *. change (lenZ []) with 0 in Hroom. apply (converts_end flags length out p0); done || lia. }
  destruct (utf8_spec_cases (remaining b) Hby Hne) as [(n & tl & Hn & Hrem & ->) | [Hret Hn]].
  - assert (utf8_decode (remaining b) = Some n :: utf8_decode tl) as Hdec by (rewrite Hrem in *; by apply utf8_decode_encode).
    rewrite Hrem in Hroom, Hby, Hfuel. rewrite lenZ_app in Hroom. apply Forall_app in Hby as [Hbe Hbt].
    destruct (advanced b (utf8_encode n) tl Hb Hrem) as (Hb' & Hrem' & Hpos & Hsl). pose proof (lenZ_nonneg tl) as Hlt.
    pose proof (put_local_spec flags p0 out p (ADVANCE b (lenZ (utf8_encode n))) n tl Hwf Hw Hb' Hn Hrem' Hpos Hsl Hbe ltac:(lia)) as Hput.
    cbn [fst snd u_ret u_result u_length Z.eqb Pos.eqb initialised]. rewrite !bind_ok_l.
    destruct (local_octets local_charset flags (Some n)) as [bs |] eqn:Hbs; [| rewrite Hput; by eapply converts_stop].
    destruct Hput as (Hlb & p' & -> & Hw'). rewrite bind_ok_l. eapply converts_cons; [exact Hdec | exact Hbs |].
    rewrite <- Hrem'. apply IH; try done; rewrite Hrem'; [rewrite lenZ_app; lia |].
    rewrite length_app in Hfuel. destruct (utf8_encode_head n) as (c & cs & He). rewrite He in Hfuel. simpl in Hfuel. lia.
  - pose proof (utf8_decode_bad _ Hby Hne Hret) as Hdec.
    destruct (advance_wf b (utf8_spec (remaining b)).1 Hb) as [Hb' Hrem']; [rewrite LEFT_remaining by done; lia |].
    assert (lenZ (remaining (ADVANCE b (utf8_spec (remaining b)).1)) + 1 <= lenZ (remaining b)) as Hdl
      by (rewrite Hrem'; unfold lenZ in *; rewrite length_drop; lia).
    pose proof (lenZ_nonneg (remaining (ADVANCE b (utf8_spec (remaining b)).1))) as Hnn.
    cbn [fst snd]. rewrite Hret. cbn [Z.eqb].
    destruct (utf8_tolerant flags) eqn:Htol; [| eapply converts_stop; [exact Hdec | by simpl; rewrite Htol]].
    destruct (putc_more p0 out p 63 (λ '(r, i), to_local local_charset fuel flags length (ADVANCE b (utf8_spec (remaining b)).1) r i))
      as (p' & Hw' & ->); [done | done | lia | done |].
    eapply (converts_cons _ _ _ _ None [63]); [exact Hdec | by simpl; rewrite Htol |]. rewrite <- Hrem'.
    apply IH; try done; [rewrite lenZ_app; change (lenZ [63]) with 1; lia | unfold lenZ in Hdl; lia].
Qed.

(** ** To UTF-8 *)

(** The characters of Latin-1 take one or two octets. *)
Lemma latin1_encode c :
  is_byte c →
  utf8_encode c = if c <? 128 then [c] else [Z.lor 192 (Z.shiftr c 6); Z.lor 128 (Z.land c 63)].
Proof.
  intros Hc.
  assert (∀ c, is_byte c → bool_decide (utf8_encode c = if c <? 128 then [c]
    else [Z.lor 192 (Z.shiftr c 6); Z.lor 128 (Z.land c 63)]) = true) as Hall.
  { apply byte_cases. vm_compute. reflexivity. }
  specialize (Hall c Hc). by apply bool_decide_eq_true in Hall.
Qed.

Lemma latin1_bits c :
  is_byte c → 128 <= c → Z.land 192 (Z.shiftr c 6) = 0 ∧ is_byte (Z.lor 192 (Z.shiftr c 6)) ∧ is_byte (Z.lor 128 (Z.land c 63)).
Proof.
  intros Hc Hge.
  assert ((c <? 128) || ((Z.land 192 (Z.shiftr c 6) =? 0) && (0 <=? Z.lor 192 (Z.shiftr c 6)) && (Z.lor 192 (Z.shiftr c 6) <? 256)
     && (0 <=? Z.lor 128 (Z.land c 63)) && (Z.lor 128 (Z.land c 63) <? 256)) = true) as Hall.
  { revert c Hc Hge. intros c Hc _. revert c Hc. apply byte_cases. vm_compute. reflexivity. }
  unfold is_byte. lia.
Qed.

Lemma latin1_length c : is_byte c → ucs4_length c = Ok (lenZ (utf8_encode c)) ∧ 1 <= lenZ (utf8_encode c) <= 2.
Proof.
  intros Hc. rewrite latin1_encode by done. unfold ucs4_length. change (2 ^ 7) with 128. unfold is_byte in Hc.
  destruct (c <? 128); [done |]. by rewrite (proj2 (Z.ltb_lt c (2 ^ 11))) by lia.
Qed.

Definition latin1_utf8 (d : list Z) : list Z := concat (utf8_encode <$> d).

Lemma lenZ_latin1_utf8 d : Forall is_byte d → lenZ d <= lenZ (latin1_utf8 d) <= 2 * lenZ d.
Proof.
  unfold latin1_utf8. induction 1 as [| c d Hc _ IH]; [done |]. rewrite fmap_cons. cbn [concat].
  rewrite lenZ_app, lenZ_cons. destruct (latin1_length c Hc). lia.
Qed.

Lemma measure_chars_spec d total :
  Forall is_byte d → 0 <= total → total + lenZ (latin1_utf8 d) < 2 ^ 32 →
  measure_chars CHARSET_LATIN1 d total
  = Ok ((λ c, (c, lenZ (utf8_encode c))) <$> d, total + lenZ (latin1_utf8 d)).
Proof.
  intros Hd. revert total. induction Hd as [| c d Hc Hd IH]; intros total Ht Hl.
  { simpl. change (lenZ []) with 0. by rewrite Z.add_0_r. }
  pose proof (lenZ_latin1_utf8 d Hd). pose proof (lenZ_nonneg d).
  assert (latin1_utf8 (c :: d) = utf8_encode c ++ latin1_utf8 d) as Hcons by done. rewrite Hcons, lenZ_app in *.
  destruct (latin1_length c Hc) as [Hlen Hl1]. cbn [measure_chars local_to_ucs4].
  rewrite bind_ok_l, u32_id by (unfold is_byte in Hc; unfold is_u32; lia). rewrite Hlen, bind_ok_l.
  rewrite (u32_id (total + _)) by (unfold is_u32; lia). rewrite IH, bind_ok_l by lia. by rewrite Z.add_assoc.
Qed.

(** One round of the second loop. *)
Lemma put_char_wrote c p j chars :
  is_byte c → lsh_string_wf p → 0 <= j → j + lenZ (utf8_encode c) <= ls_length p →
  ∃ p', put_chars ((c, lenZ (utf8_encode c)) :: chars) p j = put_chars chars p' (j + lenZ (utf8_encode c))
    ∧ wrote p j (utf8_encode c) p'.
Proof.
  intros Hc Hp Hj Hroom. pose proof (wf_length _ Hp) as Hlen. unfold is_u32 in Hlen. cbn [put_chars].
  rewrite (u32_id (j + _)) by (destruct (latin1_length c Hc); unfold is_u32; lia).
  rewrite (latin1_encode c Hc) in *. destruct (Z.ltb_spec c 128) as [Hlt | Hge].
  - change (lenZ [c]) with 1 in *. destruct (putc_wrote p j c) as (p' & Hput & Hw); [done | lia |].
    rewrite u8_id in Hw by done. exists p'. split; [| done]. change (Z.to_nat (1 - 1)) with 0%nat. cbn [put_continuation]. rewrite bind_ok_l.
    change (rd utf8_prefix (1 - 1)) with (@Ok Z 0). rewrite bind_ok_l, Z.land_0_l. simpl (c_assert _).
    rewrite bind_ok_l, Z.lor_0_l, Hput. done.
  - destruct (latin1_bits c Hc Hge) as (Hz & Hb1 & Hb2).
    set (hi := Z.lor 192 (Z.shiftr c 6)) in *. set (lo := Z.lor 128 (Z.land c 63)) in *.
    change (lenZ [hi; lo]) with 2 in *.
    destruct (putc_wrote p (j + 1) lo) as (p1 & Hput1 & Hw1); [done | lia |]. pose proof (wrote_len _ _ _ _ Hw1) as Hl1.
    destruct (putc_wrote p1 j hi) as (p2 & Hput2 & Hw2); [by apply (wrote_wf p (j + 1) [u8 lo]) | lia |].
    rewrite u8_id in Hw1, Hw2 by done. exists p2. split.
    + change (Z.to_nat (2 - 1)) with 1%nat. cbn [put_continuation]. change (Z.of_nat 1) with 1.
      rewrite u32_id by (unfold is_u32; lia). fold lo. rewrite Hput1, !bind_ok_l.
      change (rd utf8_prefix (2 - 1)) with (@Ok Z 192). rewrite bind_ok_l, Hz. simpl (c_assert _). rewrite bind_ok_l.
      fold hi. by rewrite Hput2, bind_ok_l.
    + destruct Hw1 as (Hwf1 & _ & Hc1), Hw2 as (Hwf2 & Hl2 & Hc2). split_and!; [done | congruence |].
      rewrite Hc2, Hc1. change [hi; lo] with ([hi] ++ [lo]). apply splice_swap; [done | done |].
      rewrite lenZ_contents by done. change (lenZ [lo]) with 1. lia.
Qed.

Lemma put_chars_wrote d p j :
  Forall is_byte d → lsh_string_wf p → 0 <= j → j + lenZ (latin1_utf8 d) <= ls_length p →
  ∃ p', put_chars ((λ c, (c, lenZ (utf8_encode c))) <$> d) p j = Ok (p', j + lenZ (latin1_utf8 d))
    ∧ wrote p j (latin1_utf8 d) p'.
Proof.
  intros Hd. revert p j. induction Hd as [| c d Hc Hd IH]; intros p j Hp Hj Hroom.
  { exists p. simpl. change (lenZ (latin1_utf8 [])) with 0. rewrite Z.add_0_r. split; [done | by apply wrote_nil]. }
  assert (latin1_utf8 (c :: d) = utf8_encode c ++ latin1_utf8 d) as Hcons by done. rewrite Hcons, lenZ_app in *.
  pose proof (lenZ_nonneg (latin1_utf8 d)). destruct (latin1_length c Hc) as [_ Hl1]. rewrite fmap_cons.
  destruct (put_char_wrote c p j ((λ c, (c, lenZ (utf8_encode c))) <$> d)) as (p1 & -> & Hw1); [done | done | done | lia |].
  pose proof (wrote_len _ _ _ _ Hw1) as Hlen1.
  destruct (IH p1 (j + lenZ (utf8_encode c))) as (p2 & -> & Hw2); [by apply (wrote_wf p j (utf8_encode c)) | lia | lia |].
  exists p2. rewrite Z.add_assoc. split; [done |]. apply (wrote_app p j _ p1); try done. lia.
Qed.

(** The local string in UTF-8. *)
Definition utf8_of_local (d : list Z) : list Z :=
  match local_charset with CHARSET_LATIN1 => latin1_utf8 d | _ => d end.

Lemma local_to_utf8_spec s :
  lsh_string_wf s → 2 * ls_length s < 2 ^ 32 →
  ∃ s', local_to_utf8 local_charset s = Ok s' ∧ lsh_string_wf s' ∧ contents s' = utf8_of_local (contents s).
Proof.
  intros Hs Hl. unfold local_to_utf8, utf8_of_local. destruct local_charset; [by exists s | | by exists s].
  change (slice 0 (lsh_string_length s) (lsh_string_data s)) with (contents s).
  pose proof (contents_bytes s Hs) as Hb. pose proof (lenZ_latin1_utf8 _ Hb) as Hlen. rewrite lenZ_contents in Hlen by done.
  rewrite measure_chars_spec, bind_ok_l, Z.add_0_l by (done || lia).
  assert (lsh_string_wf (lsh_string_alloc (lenZ (latin1_utf8 (contents s))))) as Ha.
  { apply lsh_string_alloc_wf. pose proof (wf_length _ Hs). unfold is_u32 in *. lia. }
  destruct (put_chars_wrote (contents s) (lsh_string_alloc (lenZ (latin1_utf8 (contents s)))) 0) as (p & -> & Hw); try done.
  rewrite bind_ok_l, Z.add_0_l, c_assert_true, bind_ok_l by lia. exists p. split; [done |].
  destruct Hw as (Hw & _ & ->). split; [done |]. apply splice_whole. by rewrite lenZ_contents.
Qed.

End proofs.

(** ** Properties *)

Section properties.
Context `{MallocOk}.

Lemma low_utf8_to_local_spec local_charset length d flags :
  Forall is_byte d → 0 <= length <= lenZ d → length < 2 ^ 32 →
  converts local_charset flags length [] (slice 0 length d) (low_utf8_to_local local_charset length d flags).
Proof.
  intros Hd Hl Hlt.
  assert (lsh_string_wf (lsh_string_alloc length)) as Ha by (apply lsh_string_alloc_wf; unfold is_u32; lia).
  assert (buffer_wf (simple_buffer_init length d)) as Hb by (split; simpl; done || lia).
  assert (remaining (simple_buffer_init length d) = slice 0 length d) as Hrem by (unfold remaining; simpl; by rewrite Z.sub_0_r).
  assert (lenZ (slice 0 length d) = length) as Hls by (apply lenZ_slice; lia).
  rewrite <- Hrem in Hls |- *.
  apply (to_local_spec local_charset (S (Z.to_nat length)) flags length _ (lsh_string_alloc length) _ []);
    [done | done | by apply wrote_nil | done | change (lenZ []) with 0; lia | unfold lenZ in Hls; lia].
Qed.

(** C30: [low_utf8_to_local] converts character by character: whatever the
    octets and the flags, it returns, and its result is what the characters of
    the string become one by one, or null if one of them is refused; a string
    never grows. *)
Theorem low_utf8_to_local_correct local_charset d flags :
  Forall is_byte d → lenZ d < 2 ^ 32 →
  match mapM (local_octets local_charset flags) (utf8_decode d) with
  | Some outs => ∃ s, low_utf8_to_local local_charset (lenZ d) d flags = Ok (Some s)
      ∧ lsh_string_wf s ∧ contents s = concat outs ∧ ls_length s <= lenZ d
  | None => low_utf8_to_local local_charset (lenZ d) d flags = Ok None
  end.
Proof.
  intros Hd Hl. pose proof (lenZ_nonneg d).
  pose proof (low_utf8_to_local_spec local_charset (lenZ d) d flags Hd ltac:(lia) Hl) as Hc. by rewrite slice_all in Hc.
Qed.

Lemma utf8_decode_valid chars :
  Forall utf8_valid chars → Forall is_byte (concat (utf8_encode <$> chars)) →
  utf8_decode (concat (utf8_encode <$> chars)) = Some <$> chars.
Proof.
  induction 1 as [| n chars Hn _ IH]; [done |]. simpl. intros Hb. rewrite utf8_decode_encode by done. f_equal.
  apply IH. by apply Forall_app in Hb as [_ ?].
Qed.

(** Characters that are kept as they are. *)
Lemma mapM_octets (f : option Z → option (list Z)) (g : Z → list Z) chars :
  Forall (λ n, f (Some n) = Some (g n)) chars → mapM f (Some <$> chars) = Some (g <$> chars).
Proof. induction 1 as [| n chars Hn _ IH]; [done |]. rewrite !fmap_cons. cbn [mapM]. by rewrite Hn, IH. Qed.

Lemma concat_singletons {A} (l : list A) : concat ((λ x, [x]) <$> l) = l.
Proof. induction l as [| x l IH]; [done |]. rewrite fmap_cons. cbn [concat]. by rewrite IH. Qed.

(** A string of characters of the local set. *)
Definition local_text (local_charset : charset) (d : list Z) : Prop :=
  match local_charset with
  | CHARSET_UTF8 => ∃ chars, Forall utf8_valid chars ∧ d = concat (utf8_encode <$> chars)
  | CHARSET_LATIN1 => True
  | CHARSET_USASCII => Forall (λ c, c < 128) d
  end.

Definition no_utf8_flags : utf8_flag := mk_flag false false false.

Lemma byte_valid n : is_byte n → utf8_valid n.
Proof. unfold is_byte, utf8_valid. lia. Qed.

Lemma local_text_back local_charset d :
  Forall is_byte d → Forall is_byte (utf8_of_local local_charset d) → local_text local_charset d →
  ∃ outs, mapM (local_octets local_charset no_utf8_flags) (utf8_decode (utf8_of_local local_charset d)) = Some outs
    ∧ concat outs = d.
Proof.
  intros Hd Hu Ht. assert (Forall utf8_valid d) as Hv by (eapply Forall_impl; [exact Hd | exact byte_valid]).
  destruct local_charset; simpl in *.
  - destruct Ht as (chars & Hc & ->). exists (utf8_encode <$> chars). rewrite utf8_decode_valid by done.
    split; [| done]. apply mapM_octets. by apply Forall_true.
  - exists ((λ x, [x]) <$> d). unfold latin1_utf8 in *. rewrite utf8_decode_valid by done.
    split; [| apply concat_singletons]. apply mapM_octets. eapply Forall_impl; [exact Hd |]. unfold is_byte. intros n Hn.
    simpl. by rewrite (proj2 (Z.ltb_lt n 256)) by lia.
  - exists ((λ x, [x]) <$> d). rewrite <- (concat_singletons d) at 1.
    assert ((λ x, [x]) <$> d = utf8_encode <$> d) as He.
    { apply list_fmap_ext. intros i n Hn. rewrite Forall_lookup in Hd, Ht. rewrite latin1_encode by by eapply Hd.
      specialize (Ht _ _ Hn). simpl in Ht. by rewrite (proj2 (Z.ltb_lt n 128)) by done. }
    rewrite He. rewrite <- (concat_singletons d), He in Hu. rewrite utf8_decode_valid by done. rewrite <- He.
    split; [| apply concat_singletons]. apply mapM_octets. eapply Forall_impl; [exact Ht |]. simpl. intros n Hn.
    by rewrite (proj2 (Z.ltb_lt n 128)) by done.
Qed.

(** C31: a string of the local character set, converted to UTF-8 and back,
    is unchanged. *)
Theorem charset_roundtrip local_charset s :
  lsh_string_wf s → 2 * ls_length s < 2 ^ 32 → local_text local_charset (contents s) →
  ∃ u s', local_to_utf8 local_charset s = Ok u ∧ utf8_to_local local_charset u no_utf8_flags = Ok (Some s')
    ∧ lsh_string_wf s' ∧ contents s' = contents s.
Proof.
  intros Hs Hl Ht. destruct (local_to_utf8_spec local_charset s Hs Hl) as (u & Hu & Huw & Huc). exists u.
  destruct (local_text_back local_charset (contents s)) as (outs & Hm & Hc);
    [by apply contents_bytes | rewrite <- Huc; by apply contents_bytes | done |].
  pose proof (wf_length _ Huw) as Hul. unfold is_u32 in Hul.
  pose proof (low_utf8_to_local_spec local_charset (ls_length u) (ls_data u) no_utf8_flags (wf_bytes _ Huw)) as Hback.
  specialize (Hback ltac:(pose proof (wf_room _ Huw); lia) ltac:(lia)).
  change (slice 0 (ls_length u) (ls_data u)) with (contents u) in Hback. unfold converts in Hback. rewrite Huc, Hm in Hback.
  destruct Hback as (s' & Hs' & Hw' & Hc' & _). exists s'. split_and!; try done. by rewrite Hc', <- Hc.
Qed.

End properties.

(** "naïve" in Latin-1, and a control character that is refused. *)
Definition latin1_word : lsh_string := mk_lsh_string 5 [110; 97; 239; 118; 101; 0].

Lemma charset_roundtrip_witness :
  ∃ u s', local_to_utf8 CHARSET_LATIN1 latin1_word = Ok u ∧ utf8_to_local CHARSET_LATIN1 u no_utf8_flags = Ok (Some s')
    ∧ lsh_string_wf s' ∧ contents s' = contents latin1_word.
Proof.
  apply (charset_roundtrip CHARSET_LATIN1 latin1_word).
  - split; [unfold is_u32; simpl; lia | reflexivity | reflexivity |].
    repeat (apply Forall_cons; split; [unfold is_byte; lia |]). constructor.
  - simpl. lia.
  - exact I.
Defined.

Lemma low_utf8_to_local_correct_witness :
  low_utf8_to_local CHARSET_UTF8 (lenZ [65; 7]) [65; 7] (mk_flag false true false) = Ok None.
Proof.
  apply (low_utf8_to_local_correct CHARSET_UTF8 [65; 7] (mk_flag false true false)).
  - repeat (apply Forall_cons; split; [unfold is_byte; lia |]). constructor.
  - vm_compute. reflexivity.
Defined.
