(* ===== verification/Service.v ===== *)
(** * Services of a server ([src/src/server.c], [src/src/arglist.c])

    The table that maps the name of a service to the command line of its
    program.  Entries come from the command line and from the configuration
    file. *)

From S2P Require Import Prelude LshString.
Local Open Scope Z_scope.

(** ** C strings *)

(** The octets before the first NUL. *)
Fixpoint c_string (d : list Z) : list Z :=
  match d with
  | [] => []
  | c :: d => if c =? 0 then [] else c :: c_string d
  end.

(** [strlen]: there must be a NUL. *)
Definition strlen (d : list Z) : result Z :=
  if bool_decide (0 ∈ d) then Ok (lenZ (c_string d)) else Fault OutOfBounds.

Lemma c_string_app s d : 0 ∉ s → c_string (s ++ 0 :: d) = s.
Proof.
  induction s as [| c s IH]; intros Hs; simpl; [done |]. apply not_elem_of_cons in Hs as [Hc Hs].
  rewrite (proj2 (Z.eqb_neq c 0)) by congruence. by rewrite IH.
Qed.

Lemma strlen_app s d : 0 ∉ s → strlen (s ++ 0 :: d) = Ok (lenZ s).
Proof.
  intros Hs. unfold strlen. rewrite bool_decide_true by set_solver. by rewrite c_string_app.
Qed.

(** ** Argument lists *)

(** A cell of [argv]; fresh memory has no value. *)
Inductive arg_cell : Type := Fresh | Null | Arg (s : list Z).

Record arglist := mk_arglist {
  al_size : Z;
  al_argc : Z;
  al_argv : list arg_cell;
}.

Definition ARGLIST_DEFAULT_SIZE := 10.

Definition arglist_init : arglist :=
  mk_arglist ARGLIST_DEFAULT_SIZE 0 (replicate (Z.to_nat ARGLIST_DEFAULT_SIZE) Fresh).

(** A write outside the array is undefined. *)
Definition set_arg (l : list arg_cell) (i : Z) (c : arg_cell) : result (list arg_cell) :=
  if (0 <=? i) && (i <? lenZ l) then Ok (<[Z.to_nat i := c]> l) else Fault OutOfBounds.

Definition arglist_push (args : arglist) (s : list Z) : result arglist :=
  _ ← c_assert (al_argc args <? al_size args);
  let args :=
    if al_argc args + 1 =? al_size args then
      let n := 2 * al_size args in
      mk_arglist n (al_argc args) (al_argv args ++ replicate (Z.to_nat (n - al_size args)) Fresh)
    else args in
  argv ← set_arg (al_argv args) (al_argc args) (Arg s);
  argv ← set_arg argv (al_argc args + 1) Null;
  Ok (mk_arglist (al_size args) (al_argc args + 1) argv).

(** The list holds these arguments and, unless it is empty, a final null. *)
Record arglist_holds (args : arglist) (l : list (list Z)) : Prop := {
  ah_argc : al_argc args = lenZ l;
  ah_room : al_argc args < al_size args;
  ah_size : lenZ (al_argv args) = al_size args;
  ah_args : ∃ rest, al_argv args = (Arg <$> l) ++ rest ∧ (l ≠ [] → ∃ t, rest = Null :: t);
}.

Lemma arglist_init_holds : arglist_holds arglist_init [].
Proof. split; try done. eexists. split; [done | done]. Qed.

Lemma set_arg_ok l i c : 0 <= i < lenZ l → set_arg l i c = Ok (<[Z.to_nat i := c]> l).
Proof. intros Hi. unfold set_arg. by rewrite (proj2 (Z.leb_le 0 i)), (proj2 (Z.ltb_lt i _)) by lia. Qed.

(** Pushing keeps [argv] null-terminated. *)
Lemma arglist_push_holds args l s :
  arglist_holds args l → ∃ args', arglist_push args s = Ok args' ∧ arglist_holds args' (l ++ [s]).
Proof.
  intros [Hc Hr Hs (rest & Hv & _)]. pose proof (lenZ_nonneg l) as Hl. unfold arglist_push. rewrite c_assert_true, bind_ok_l by lia.
  set (grown := if al_argc args + 1 =? al_size args then _ else args).
  assert (al_argc grown = lenZ l ∧ lenZ l + 1 < al_size grown ∧ lenZ (al_argv grown) = al_size grown
    ∧ ∃ rest, al_argv grown = (Arg <$> l) ++ rest) as (Hc' & Hr' & Hs' & rest' & Hv').
  { unfold grown. destruct (Z.eqb_spec (al_argc args + 1) (al_size args)); simpl.
    - split_and!; [done | lia | | eexists; by rewrite Hv, <- app_assoc].
      rewrite lenZ_app, lenZ_replicate by lia. lia.
    - split_and!; [done | lia | done | by exists rest]. }
  clearbody grown. assert (lenZ rest' = al_size grown - lenZ l) as Hrest.
  { rewrite Hv', lenZ_app, lenZ_fmap in Hs'. lia. }
  destruct rest' as [| x [| y t]]; [change (lenZ []) with 0 in Hrest; lia | change (lenZ [x]) with 1 in Hrest; lia |].
  rewrite Hc'. rewrite set_arg_ok, bind_ok_l by lia. rewrite set_arg_ok, bind_ok_l by (unfold lenZ in *; rewrite length_insert; lia).
  eexists. split; [done |].
  assert (<[Z.to_nat (lenZ l + 1) := Null]> (<[Z.to_nat (lenZ l) := Arg s]> (al_argv grown))
    = (Arg <$> (l ++ [s])) ++ Null :: t) as Hnew.
  { rewrite Hv', fmap_app, <- app_assoc. unfold lenZ.
    rewrite insert_app_r_alt by (rewrite length_fmap; lia). rewrite length_fmap.
    replace (Z.to_nat (Z.of_nat (length l)) - length l)%nat with 0%nat by lia. simpl.
    rewrite insert_app_r_alt by (rewrite length_fmap; lia). rewrite length_fmap.
    by replace (Z.to_nat (Z.of_nat (length l) + 1) - length l)%nat with 1%nat by lia. }
  split; simpl.
  - rewrite lenZ_app. done.
  - lia.
  - rewrite Hnew, <- Hs', Hv', !lenZ_app, !lenZ_fmap, !lenZ_cons, lenZ_app. change (lenZ [s]) with 1. lia.
  - eexists. split; [exact Hnew | by eexists].
Qed.

(** ** The table of services *)

Record service_entry := mk_service_entry {
  se_name_length : Z;
  se_name : list Z;
  se_args : arglist;
}.

(** The queue from its head on. *)
Record service_config := mk_service_config {
  sc_services : list service_entry;
  sc_libexec_dir : list Z;
  sc_override_config_file : bool;
}.

Definition make_service_entry (name : list Z) : service_entry := mk_service_entry (lenZ name) name arglist_init.

(** [memcmp] is reached only if the lengths agree. *)
Definition entry_named (length : Z) (name : list Z) (e : service_entry) : bool :=
  (se_name_length e =? length) && bool_decide (slice 0 length (se_name e) = slice 0 length name).

Definition service_config_lookup (self : service_config) (length : Z) (name : list Z) : option service_entry :=
  head (filter (λ e, entry_named length name e = true) (sc_services self)).

Definition add_service (self : service_config) (e : service_entry) : service_config :=
  mk_service_config (e :: sc_services self) (sc_libexec_dir self) (sc_override_config_file self).

Definition push_args (e : service_entry) (s : list Z) : result service_entry :=
  a ← arglist_push (se_args e) s; Ok (mk_service_entry (se_name_length e) (se_name e) a).

(** [while (length > 0)]: the rest of the items are arguments. *)
Fixpoint option_args (fuel : nat) (e : service_entry) (length : Z) (item : list Z) : result service_entry :=
  if 0 <? length then
    match fuel with
    | O => Fault NonTermination
    | S fuel =>
        n ← strlen item;
        let item_length := n + 1 in
        _ ← c_assert (item_length <=? length);
        e ← push_args e (c_string item);
        option_args fuel e (length - item_length) (drop (Z.to_nat item_length) item)
    end
  else Ok e.

(** Whether the value was good, with the new table. *)
Definition service_config_option (self : service_config) (length : Z) (data : list Z)
  : result (service_config * bool) :=
  if sc_override_config_file self then Ok (self, true)
  else
    n ← strlen data;
    let item_length := n + 1 in
    _ ← c_assert (item_length <=? length);
    if item_length =? length then Ok (self, false)
    else match service_config_lookup self item_length data with
    | Some _ => Ok (self, true)
    | None =>
        let e := make_service_entry (c_string data) in
        e ← option_args (Z.to_nat length) e (length - item_length) (drop (Z.to_nat item_length) data);
        Ok (add_service self e, true)
    end.

(** [service_config_argp]: what [argv] still has after the option; an error
    ends the program. *)
Inductive argp_outcome : Type :=
  | ArgpOk (self : service_config) (rest : list (list Z))
  | ArgpError.

Definition brace_open : list Z := cstr "{".
Definition brace_close : list Z := cstr "}".

Fixpoint command_line (self : service_config) (e : service_entry) (level : Z) (argv : list (list Z))
  : result argp_outcome :=
  match argv with
  | [] => Ok ArgpError
  | s :: argv =>
      let level := if bool_decide (s = brace_open) then level + 1
                   else if bool_decide (s = brace_close) then level - 1 else level in
      if bool_decide (s = brace_close) && (level =? 0) then
        Ok (if al_argc (se_args e) =? 0 then ArgpError else ArgpOk (add_service self e) argv)
      else
        e ← push_args e s;
        command_line self e level argv
  end.

Definition service_config_argp (self : service_config) (name : list Z) (argv : list (list Z)) : result argp_outcome :=
  match service_config_lookup self (lenZ name) name with
  | Some _ => Ok (ArgpOk self argv)
  | None =>
      match argv with
      | s :: argv =>
          if bool_decide (s = brace_open) then command_line self (make_service_entry name) 1 argv else Ok ArgpError
      | [] => Ok ArgpError
      end
  end.

(** ** Properties *)

(** An entry for this service and command line. *)
Record entry_holds (e : service_entry) (name : list Z) (args : list (list Z)) : Prop := {
  eh_name : se_name e = name;
  eh_length : se_name_length e = lenZ name;
  eh_plain : 0 ∉ name;
  eh_args : arglist_holds (se_args e) args;
}.

(** Names are C strings, and there is a program to start. *)
Definition service_config_wf (self : service_config) : Prop :=
  Forall (λ e, ∃ name args, entry_holds e name args ∧ args ≠ []) (sc_services self).

Lemma entry_named_spec e name args n :
  entry_holds e name args → entry_named (lenZ n) n e = true ↔ n = name.
Proof.
  intros [Hn Hl _ _]. unfold entry_named. rewrite Hn, Hl, andb_true_iff, Z.eqb_eq, bool_decide_eq_true. split.
  - intros [Hlen Heq]. rewrite <- Hlen, slice_all, Hlen, slice_all in Heq. done.
  - intros ->. done.
Qed.

(** A new entry comes first, and only for its own name. *)
Lemma lookup_add_service self e name args n :
  entry_holds e name args →
  service_config_lookup (add_service self e) (lenZ n) n
  = if decide (n = name) then Some e else service_config_lookup self (lenZ n) n.
Proof.
  intros He. unfold service_config_lookup. simpl. rewrite filter_cons. pose proof (entry_named_spec e name args n He) as Hs.
  destruct (decide (n = name)) as [Hn | Hn]; case_decide as Hd; [done | by destruct Hd; apply Hs | by destruct Hn; apply Hs | done].
Qed.

Lemma push_args_holds e name args s :
  entry_holds e name args → ∃ e', push_args e s = Ok e' ∧ entry_holds e' name (args ++ [s]).
Proof.
  intros [Hn Hl Hp Ha]. unfold push_args. destruct (arglist_push_holds _ _ s Ha) as (a & -> & Ha').
  rewrite bind_ok_l. eexists. split; [done |]. by split.
Qed.

Definition item_octets (items : list (list Z)) : list Z := concat ((λ s, s ++ [0]) <$> items).

Lemma item_octets_cons s items : item_octets (s :: items) = s ++ 0 :: item_octets items.
Proof. unfold item_octets. rewrite fmap_cons. cbn [concat]. by rewrite <- app_assoc. Qed.

Lemma lenZ_item_octets_cons s items : lenZ (item_octets (s :: items)) = lenZ s + 1 + lenZ (item_octets items).
Proof. rewrite item_octets_cons, lenZ_app, lenZ_cons. lia. Qed.

Lemma drop_item s items junk : drop (Z.to_nat (lenZ s + 1)) (item_octets (s :: items) ++ junk) = item_octets items ++ junk.
Proof.
  rewrite item_octets_cons, <- app_assoc. cbn [app]. replace (Z.to_nat (lenZ s + 1)) with (length s + 1)%nat by (unfold lenZ; lia).
  by rewrite <- drop_drop, drop_app_length.
Qed.

Lemma first_item s items junk :
  0 ∉ s → strlen (item_octets (s :: items) ++ junk) = Ok (lenZ s) ∧ c_string (item_octets (s :: items) ++ junk) = s.
Proof. intros Hs. rewrite item_octets_cons, <- app_assoc. cbn [app]. by rewrite strlen_app, c_string_app. Qed.

Lemma option_args_holds junk items : ∀ fuel e name args,
  entry_holds e name args → Forall (λ s, 0 ∉ s) items → lenZ (item_octets items) <= Z.of_nat fuel →
  ∃ e', option_args fuel e (lenZ (item_octets items)) (item_octets items ++ junk) = Ok e' ∧ entry_holds e' name (args ++ items).
Proof.
  induction items as [| s items IH]; intros fuel e name args He Hi Hf.
  { exists e. change (lenZ (item_octets [])) with 0. rewrite app_nil_r. by destruct fuel. }
  apply Forall_cons in Hi as [Hs Hi]. rewrite lenZ_item_octets_cons in *.
  pose proof (lenZ_nonneg s). pose proof (lenZ_nonneg (item_octets items)). destruct fuel as [| fuel]; [lia |]. cbn [option_args].
  rewrite (proj2 (Z.ltb_lt 0 _)) by lia. destruct (first_item s items junk Hs) as [-> ->].
  rewrite bind_ok_l, c_assert_true, bind_ok_l by lia.
  destruct (push_args_holds e name args s He) as (e1 & -> & He1). rewrite bind_ok_l, drop_item.
  replace (lenZ s + 1 + lenZ (item_octets items) - (lenZ s + 1)) with (lenZ (item_octets items)) by lia.
  destruct (IH fuel e1 name (args ++ [s]) He1 Hi) as (e2 & -> & He2); [lia |]. exists e2. by rewrite <- app_assoc in He2.
Qed.

(** No entry answers to a name that includes a NUL. *)
Lemma lookup_with_nul self name d :
  service_config_wf self → 0 ∉ name → service_config_lookup self (lenZ name + 1) (name ++ 0 :: d) = None.
Proof.
  intros Hwf Hn. unfold service_config_lookup. destruct (filter _ _) as [| e l] eqn:Hf; [done |]. exfalso.
  assert (e ∈ e :: l) as Hin by left. rewrite <- Hf in Hin. apply list_elem_of_filter in Hin as [He Hin].
  unfold service_config_wf in Hwf. rewrite Forall_forall in Hwf. destruct (Hwf e Hin) as (nm & args & [Hnm Hl Hp _] & _).
  unfold entry_named in He. apply andb_true_iff in He as [Hlen Hs]. apply Z.eqb_eq in Hlen. apply bool_decide_eq_true in Hs.
  rewrite Hnm, Hl in *. rewrite <- Hlen, slice_all, Hlen in Hs. destruct Hp. rewrite Hs.
  rewrite cons_middle, app_assoc, slice_app_first by by rewrite lenZ_app. set_solver.
Qed.

(** An item with a command line is a new entry. *)
Lemma service_config_option_spec self name args junk :
  service_config_wf self → sc_override_config_file self = false → 0 ∉ name → Forall (λ s, 0 ∉ s) args →
  ∃ self', service_config_option self (lenZ (item_octets (name :: args))) (item_octets (name :: args) ++ junk)
           = Ok (self', bool_decide (args ≠ []))
    ∧ if decide (args = []) then self' = self else ∃ e, self' = add_service self e ∧ entry_holds e name args.
Proof.
  intros Hwf Ho Hn Ha. unfold service_config_option. rewrite Ho. destruct (first_item name args junk Hn) as [-> Hc].
  pose proof (lenZ_nonneg (item_octets args)) as Hl. pose proof (lenZ_nonneg name) as Hl2.
  rewrite bind_ok_l, c_assert_true, bind_ok_l by (rewrite lenZ_item_octets_cons; lia). rewrite Hc, drop_item.
  rewrite lenZ_item_octets_cons. replace (lenZ name + 1 + lenZ (item_octets args) - (lenZ name + 1)) with (lenZ (item_octets args)) by lia.
  destruct (decide (args = [])) as [-> | Hne].
  { change (lenZ (item_octets [])) with 0. rewrite Z.add_0_r, Z.eqb_refl. by exists self. }
  assert (0 < lenZ (item_octets args)) as Hpos.
  { destruct args as [| a args]; [done |]. rewrite lenZ_item_octets_cons. pose proof (lenZ_nonneg a).
    pose proof (lenZ_nonneg (item_octets args)). lia. }
  rewrite (proj2 (Z.eqb_neq (lenZ name + 1) _)) by lia. rewrite item_octets_cons, <- app_assoc. cbn [app]. rewrite lookup_with_nul by done.
  assert (entry_holds (make_service_entry name) name []) as He by (split; [done | done | done | apply arglist_init_holds]).
  destruct (option_args_holds junk args (Z.to_nat (lenZ name + 1 + lenZ (item_octets args))) _ name [] He Ha) as (e & -> & He'); [lia |].
  simpl. rewrite bool_decide_true by done. eexists. split; [done |]. by exists e.
Qed.

(** An item of the configuration file, a name followed by a command line,
    becomes the entry that answers to this name, and no other name changes its
    meaning; a name without a command line is refused.  An entry of the same
    name that is already there is not noticed but replaced, although the
    function means to ignore multiple definitions.  What the block holds after
    the item does not matter. *)
Theorem service_config_option_correct self name args junk :
  service_config_wf self → sc_override_config_file self = false → 0 ∉ name → Forall (λ s, 0 ∉ s) args →
  ∃ self', service_config_option self (lenZ (item_octets (name :: args))) (item_octets (name :: args) ++ junk)
           = Ok (self', bool_decide (args ≠ [])) ∧ service_config_wf self'
    ∧ if decide (args = []) then self' = self
      else (∃ e, service_config_lookup self' (lenZ name) name = Some e ∧ entry_holds e name args)
        ∧ ∀ n, n ≠ name → service_config_lookup self' (lenZ n) n = service_config_lookup self (lenZ n) n.
Proof.
  intros Hwf Ho Hn Ha. destruct (service_config_option_spec self name args junk Hwf Ho Hn Ha) as (self' & -> & Hs).
  exists self'. split; [done |]. destruct (decide (args = [])) as [-> | Hne]; [by subst |]. destruct Hs as (e & -> & He). split; [| split].
  - apply Forall_cons. split; [| done]. by exists name, args.
  - exists e. rewrite (lookup_add_service _ _ _ _ _ He). by rewrite decide_True.
  - intros n Hne'. rewrite (lookup_add_service _ _ _ _ _ He). by rewrite decide_False.
Qed.

(** The level of nesting after these words, if none of them closes the list. *)
Fixpoint nesting (level : Z) (words : list (list Z)) : option Z :=
  match words with
  | [] => Some level
  | s :: words =>
      if bool_decide (s = brace_open) then nesting (level + 1) words
      else if bool_decide (s = brace_close) then if level - 1 =? 0 then None else nesting (level - 1) words
      else nesting level words
  end.

Lemma command_line_holds self words rest : ∀ e name args level,
  entry_holds e name args → nesting level words = Some 1 → args ++ words ≠ [] →
  ∃ e', command_line self e level (words ++ brace_close :: rest) = Ok (ArgpOk (add_service self e') rest)
    ∧ entry_holds e' name (args ++ words).
Proof.
  induction words as [| s words IH]; intros e name args level He Hnest Hne; cbn [app command_line].
  - injection Hnest as ->. rewrite app_nil_r in *. exists e.
    assert ((al_argc (se_args e) =? 0) = false) as ->.
    { rewrite (ah_argc _ _ (eh_args _ _ _ He)). destruct args as [| a args]; [done |]. rewrite lenZ_cons. pose proof (lenZ_nonneg args). lia. }
    by split.
  - cbn [nesting] in Hnest. destruct (push_args_holds e name args s He) as (e1 & Hp & He1). rewrite Hp.
    destruct (bool_decide (s = brace_open)) eqn:Hopen.
    + apply bool_decide_eq_true in Hopen as ->. change (bool_decide (brace_open = brace_close)) with false. rewrite bind_ok_l.
      destruct (IH e1 name (args ++ [brace_open]) (level + 1) He1 Hnest) as (e2 & -> & He2); [by destruct args |].
      exists e2. by rewrite <- app_assoc in He2.
    + destruct (bool_decide (s = brace_close)) eqn:Hclose; [destruct (level - 1 =? 0); [done |] |]; cbn [andb]; rewrite bind_ok_l;
        (destruct (IH e1 name (args ++ [s]) _ He1 Hnest) as (e2 & -> & He2); [by destruct args | exists e2; by rewrite <- app_assoc in He2]).
Qed.

Lemma service_config_argp_spec self name words rest :
  service_config_lookup self (lenZ name) name = None → 0 ∉ name → nesting 1 words = Some 1 → words ≠ [] →
  ∃ e, service_config_argp self name (brace_open :: words ++ brace_close :: rest) = Ok (ArgpOk (add_service self e) rest)
    ∧ entry_holds e name words.
Proof.
  intros Hl Hn Hnest Hne. unfold service_config_argp. rewrite Hl. change (bool_decide (brace_open = brace_open)) with true.
  cbv iota. apply (command_line_holds self words rest (make_service_entry name) name []); try done.
  split; [done | done | done | apply arglist_init_holds].
Qed.

Definition no_services : service_config := mk_service_config [] (cstr "/usr/lib") false.

Lemma service_config_option_correct_witness :
  let d := item_octets [cstr "ssh-userauth"; cstr "lshd-userauth"] in
  ∃ self', service_config_option no_services (lenZ d) (d ++ [99; 100]) = Ok (self', true) ∧ service_config_wf self'
    ∧ ∃ e, service_config_lookup self' 12 (cstr "ssh-userauth") = Some e
      ∧ entry_holds e (cstr "ssh-userauth") [cstr "lshd-userauth"].
Proof.
  destruct (service_config_option_correct no_services (cstr "ssh-userauth") [cstr "lshd-userauth"] [99; 100])
    as (self' & Ho & Hw & He & _).
  - constructor.
  - reflexivity.
  - apply (bool_decide_unpack _). vm_compute. exact I.
  - apply (bool_decide_unpack _). vm_compute. exact I.
  - exists self'. split; [exact Ho |]. split; [exact Hw | exact He].
Defined.
