(* ===== verification/Tokenize.v ===== *)
(** * Tokens of configuration files ([src/src/tokenize_config.c])

    A file is a sequence of words, braces and equal signs; a number sign where
    a token could start begins a comment.  The tokenizer is a cursor over the
    file.  Its reference is the relation [lexes] between what is left of the
    file, the next token and the rest. *)

From S2P Require Import Prelude Nettle Atoms LshString Format FormatSpec Parse ParseSpec ParseUtf8 StringUtil.
Local Open Scope Z_scope.

Inductive config_token_type : Set :=
  TOK_EOF | TOK_BEGIN_GROUP | TOK_END_GROUP | TOK_EQUAL | TOK_STRING | TOK_ERROR.

#[global] Instance config_token_type_eq_dec : EqDecision config_token_type.
Proof. solve_decision. Defined.

(** The name of the file may be null.  The type is set by the first token, and
    the token only by a word. *)
Record config_tokenizer := mk_tokenizer {
  ct_buffer : simple_buffer;
  ct_file : option (list Z);
  ct_lineno : Z;
  ct_type : option config_token_type;
  ct_token_length : Z;
  ct_token : option (list Z);
}.

Definition config_tokenizer_init (file : option (list Z)) (length : Z) (data : list Z) : config_tokenizer :=
  mk_tokenizer (simple_buffer_init length data) file 1 None 0 None.

(** A message of [werror] that starts with the file and the line; the name of
    the file is read, the text is left out. *)
Definition werror_at (self : config_tokenizer) : result () := _ ← deref (ct_file self); Ok ().

Definition config_tokenizer_error (self : config_tokenizer) : result () := werror_at self.

Definition char_class : list Z :=
  [0;0;0;0;0;0;0;0;0;1;4;1;1;1;0;0; 0;0;0;0;0;0;0;0;0;0;0;0;0;0;0;0;
   1;0;0;0;0;0;0;0;0;0;0;0;0;0;0;0; 0;0;0;0;0;0;0;0;0;0;0;0;0;2;0;0;
   0;0;0;0;0;0;0;0;0;0;0;0;0;0;0;0; 0;0;0;0;0;0;0;0;0;0;0;0;0;0;0;0;
   0;0;0;0;0;0;0;0;0;0;0;0;0;0;0;0; 0;0;0;0;0;0;0;0;0;0;0;2;0;2;0;0]
  ++ replicate 128 0.

Definition in_class (mask c : Z) : result bool := k ← rd char_class c; Ok (c_true (Z.land k mask)).
Definition IS_SPACE := in_class 5.
Definition IS_SPACE_NOT_LF := in_class 1.
Definition IS_SEPARATOR := in_class 7.

Definition LF := 10.

Definition set_buffer (self : config_tokenizer) (b : simple_buffer) : config_tokenizer :=
  mk_tokenizer b (ct_file self) (ct_lineno self) (ct_type self) (ct_token_length self) (ct_token self).
Definition set_type (self : config_tokenizer) (t : config_token_type) : config_tokenizer :=
  mk_tokenizer (ct_buffer self) (ct_file self) (ct_lineno self) (Some t) (ct_token_length self) (ct_token self).
Definition set_lineno (self : config_tokenizer) (n : Z) : config_tokenizer :=
  mk_tokenizer (ct_buffer self) (ct_file self) n (ct_type self) (ct_token_length self) (ct_token self).
Definition step_over (self : config_tokenizer) (n : Z) : config_tokenizer := set_buffer self (ADVANCE (ct_buffer self) n).

(** [while (LEFT && test (HERE[0]))] *)
Fixpoint skip_while (test : Z → result bool) (count : Z → config_tokenizer → config_tokenizer) (fuel : nat) (self : config_tokenizer)
  : result config_tokenizer :=
  if LEFT (ct_buffer self) =? 0 then Ok self
  else
    c ← rd (HERE (ct_buffer self)) 0;
    ok ← test c;
    if ok : bool then
      match fuel with
      | O => Fault NonTermination
      | S fuel => skip_while test count fuel (step_over (count c self) 1)
      end
    else Ok self.

Definition count_line (c : Z) (self : config_tokenizer) : config_tokenizer :=
  if c =? LF then set_lineno self (u32 (ct_lineno self + 1)) else self.

Definition skip_space := skip_while IS_SPACE count_line.
Definition skip_line := skip_while (λ c, Ok (negb (c =? LF))) (λ _ self, self).
Definition skip_blanks := skip_while IS_SPACE_NOT_LF (λ _ self, self).

(** [for (i = 0; i < LEFT && !IS_SEPARATOR (HERE[i]); i++)] *)
Fixpoint word_end (fuel : nat) (b : simple_buffer) (i : Z) : result Z :=
  if i <? LEFT b then
    c ← rd (HERE b) i;
    sep ← IS_SEPARATOR c;
    if sep : bool then Ok i
    else match fuel with
    | O => Fault NonTermination
    | S fuel => word_end fuel b (i + 1)
    end
  else Ok i.

(** Enough for a loop that advances. *)
Definition loop_fuel (self : config_tokenizer) : nat := Z.to_nat (LEFT (ct_buffer self)).

Definition read_word (self : config_tokenizer) : result config_tokenizer :=
  let token := HERE (ct_buffer self) in
  i ← word_end (loop_fuel self) (ct_buffer self) 0;
  Ok (mk_tokenizer (ADVANCE (ct_buffer self) i) (ct_file self) (ct_lineno self) (Some TOK_STRING) i (Some token)).

(** A round of [for (;;)] that does not end with a token starts at a comment. *)
Fixpoint next_token (fuel : nat) (self : config_tokenizer) : result (config_tokenizer * config_token_type) :=
  self ← skip_space (loop_fuel self) self;
  if LEFT (ct_buffer self) =? 0 then Ok (set_type self TOK_EOF, TOK_EOF)
  else
    c ← rd (HERE (ct_buffer self)) 0;
    if c =? 123 then Ok (step_over (set_type self TOK_BEGIN_GROUP) 1, TOK_BEGIN_GROUP)
    else if c =? 125 then Ok (step_over (set_type self TOK_END_GROUP) 1, TOK_END_GROUP)
    else if c =? 61 then Ok (step_over (set_type self TOK_EQUAL) 1, TOK_EQUAL)
    else if c =? 35 then
      self ← skip_line (loop_fuel self) self;
      match fuel with
      | O => Fault NonTermination
      | S fuel => next_token fuel self
      end
    else
      self ← read_word self;
      Ok (self, TOK_STRING).

Definition config_tokenizer_next (self : config_tokenizer) : result (config_tokenizer * config_token_type) :=
  next_token (loop_fuel self) self.

Definition config_tokenizer_eolp (self : config_tokenizer) : result (config_tokenizer * bool) :=
  self ← skip_blanks (loop_fuel self) self;
  if LEFT (ct_buffer self) =? 0 then Ok (self, true)
  else
    c ← rd (HERE (ct_buffer self)) 0;
    let res := (c =? LF) || (c =? 35) in
    self ← skip_line (loop_fuel self) self;
    Ok (self, res).

(** The token is read only if the current token is a word of this length. *)
Definition config_tokenizer_looking_at (self : config_tokenizer) (word : list Z) : result bool :=
  if bool_decide (ct_type self = Some TOK_STRING) && (lenZ word =? ct_token_length self) then
    token ← deref (ct_token self);
    if lenZ token <? lenZ word then Fault OutOfBounds
    else Ok (bool_decide (slice 0 (lenZ word) token = word))
  else Ok false.

(** The octets of the current token. *)
Definition token_text (self : config_tokenizer) : result (list Z) :=
  token ← deref (ct_token self);
  if lenZ token <? ct_token_length self then Fault OutOfBounds else Ok (slice 0 (ct_token_length self) token).

(** The word as a string, and the token after it. *)
Definition config_tokenizer_get_string `{Malloc} `{NettleMacros} `{NettleBignum} (self : config_tokenizer)
  : result (config_tokenizer * option lsh_string) :=
  if negb (bool_decide (ct_type self = Some TOK_STRING)) then config_tokenizer_error self;; Ok (self, None)
  else
    d ← deref (ct_token self);
    s ← ssh_format_string "%ls" [FInt (ct_token_length self); FBytes d];
    '(self, _) ← config_tokenizer_next self;
    Ok (self, Some s).

Definition config_tokenizer_skip_token (self : config_tokenizer) (type : config_token_type) : result (config_tokenizer * bool) :=
  if bool_decide (ct_type self = Some type) then
    '(self, _) ← config_tokenizer_next self;
    Ok (self, true)
  else config_tokenizer_error self;; Ok (self, false).

(** ** Reference *)

Inductive token : Type := Eof | Begin | End | Equal | Word (w : list Z).

Definition class_of (c : Z) : Z := default 0 (char_class !! Z.to_nat c).
Definition is_space (c : Z) : bool := c_true (Z.land (class_of c) 5).
Definition is_blank (c : Z) : bool := c_true (Z.land (class_of c) 1).
Definition is_separator (c : Z) : bool := c_true (Z.land (class_of c) 7).

(** Nothing is left, or something of this kind comes next. *)
Definition before (P : Z → Prop) (l : list Z) : Prop := match l with [] => True | c :: _ => P c end.

Inductive lexes : list Z → token → list Z → Prop :=
  | lex_eof : lexes [] Eof []
  | lex_space c l t r : is_space c = true → lexes l t r → lexes (c :: l) t r
  | lex_comment s l t r : Forall (λ c, c ≠ LF) s → before (λ c, c = LF) l → lexes l t r → lexes (35 :: s ++ l) t r
  | lex_begin l : lexes (123 :: l) Begin l
  | lex_end l : lexes (125 :: l) End l
  | lex_equal l : lexes (61 :: l) Equal l
  | lex_word c w r : c ≠ 35 → Forall (λ c, is_separator c = false) (c :: w) → before (λ c, is_separator c = true) r →
      lexes (c :: w ++ r) (Word (c :: w)) r.

(** ** Moving the cursor *)

Lemma in_class_byte mask c : is_byte c → in_class mask c = Ok (c_true (Z.land (class_of c) mask)).
Proof.
  intros Hc. unfold is_byte in Hc. unfold in_class, class_of. destruct (rd_ok char_class c) as [k Hk]; [by change (lenZ char_class) with 256 |].
  rewrite Hk. apply rd_lookup in Hk as [_ ->]. done.
Qed.

(** At the end, or at an octet. *)
Lemma cursor_cases b :
  buffer_wf b →
  (LEFT b =? 0) = true ∧ remaining b = []
  ∨ ∃ c l, (LEFT b =? 0) = false ∧ remaining b = c :: l ∧ is_byte c ∧ rd (HERE b) 0 = Ok c
      ∧ buffer_wf (ADVANCE b 1) ∧ remaining (ADVANCE b 1) = l.
Proof.
  intros Hwf. pose proof (LEFT_remaining b Hwf) as HL. pose proof (remaining_bytes b Hwf) as Hb.
  destruct (remaining b) as [| c l] eqn:Hr; [left; by rewrite HL |]. right. exists c, l.
  rewrite lenZ_cons in HL. pose proof (lenZ_nonneg l). apply Forall_cons in Hb as [Hc _].
  destruct (advance_app b [c] l Hwf Hr) as (_ & Hw & Hrem). change (lenZ [c]) with 1 in *.
  split; [lia |]. split; [done |]. split; [done |]. split; [| done]. rewrite rd_HERE, Hr by (done || lia). done.
Qed.

(** What a loop passes over. *)
Definition passes (P : Z → Prop) (Q : Z → Prop) (self self' : config_tokenizer) : Prop :=
  buffer_wf (ct_buffer self') ∧ ∃ s, remaining (ct_buffer self) = s ++ remaining (ct_buffer self') ∧ Forall P s
    ∧ before Q (remaining (ct_buffer self')).

Lemma passes_stop P Q self : buffer_wf (ct_buffer self) → before Q (remaining (ct_buffer self)) → passes P Q self self.
Proof. intros Hw Hq. split; [done |]. by exists []. Qed.

Lemma passes_step (P Q : Z → Prop) self self1 self' c :
  P c → remaining (ct_buffer self) = c :: remaining (ct_buffer self1) → passes P Q self1 self' → passes P Q self self'.
Proof.
  intros Hc Hr (Hw & s & Hs & Hp & Hq). split; [done |]. exists (c :: s). rewrite Hr, Hs. split; [done |]. split; [by constructor | done].
Qed.

Lemma fuel_step (b : simple_buffer) c l fuel :
  remaining b = c :: l → remaining (ADVANCE b 1) = l → lenZ (remaining b) <= Z.of_nat (S fuel) → lenZ (remaining (ADVANCE b 1)) <= Z.of_nat fuel.
Proof. intros Hr -> Hl. rewrite Hr, lenZ_cons in Hl. lia. Qed.

Lemma skip_while_spec test count (P : Z → bool) fuel self :
  (∀ c, is_byte c → test c = Ok (P c)) → (∀ c t, ct_buffer (count c t) = ct_buffer t) →
  buffer_wf (ct_buffer self) → lenZ (remaining (ct_buffer self)) <= Z.of_nat fuel →
  returns (skip_while test count fuel self) (passes (λ c, P c = true) (λ c, P c = false) self).
Proof.
  intros Ht Hcount. revert self. induction fuel as [| fuel IH]; intros self Hw Hf; cbn [skip_while];
    (destruct (cursor_cases _ Hw) as [[-> Hr] | (c & l & -> & Hr & Hc & Hrd & Hw' & Hl)];
      [exists self; split; [done |]; apply passes_stop; [done | by rewrite Hr] |]).
  { rewrite Hr, lenZ_cons in Hf. pose proof (lenZ_nonneg l). lia. }
  rewrite Hrd, bind_ok_l, (Ht c Hc), bind_ok_l.
  destruct (P c) eqn:Hs; [| exists self; split; [done |]; apply passes_stop; [done | by rewrite Hr]].
  assert (ct_buffer (step_over (count c self) 1) = ADVANCE (ct_buffer self) 1) as Hstep by (unfold step_over; simpl; by rewrite Hcount).
  destruct (IH (step_over (count c self) 1)) as (self' & Hrun & Hp); [by rewrite Hstep | rewrite Hstep; by eapply fuel_step |].
  exists self'. split; [done |]. eapply passes_step; [exact Hs | | exact Hp]. by rewrite Hr, Hstep, Hl.
Qed.

Lemma skips self test count P :
  (∀ c, is_byte c → test c = Ok (P c)) → (∀ c t, ct_buffer (count c t) = ct_buffer t) → buffer_wf (ct_buffer self) →
  returns (skip_while test count (loop_fuel self) self) (passes (λ c, P c = true) (λ c, P c = false) self).
Proof.
  intros Ht Hc Hw. apply skip_while_spec; try done. unfold loop_fuel. rewrite LEFT_remaining by done.
  pose proof (lenZ_nonneg (remaining (ct_buffer self))). lia.
Qed.

Lemma count_line_buffer c t : ct_buffer (count_line c t) = ct_buffer t.
Proof. unfold count_line. by destruct (c =? LF). Qed.

Lemma skip_space_spec self :
  buffer_wf (ct_buffer self) →
  returns (skip_space (loop_fuel self) self) (passes (λ c, is_space c = true) (λ c, is_space c = false) self).
Proof. apply skips; [intros c; apply in_class_byte | apply count_line_buffer]. Qed.

Lemma skip_blanks_spec self :
  buffer_wf (ct_buffer self) →
  returns (skip_blanks (loop_fuel self) self) (passes (λ c, is_blank c = true) (λ c, is_blank c = false) self).
Proof. apply skips; [intros c; apply in_class_byte | done]. Qed.

Lemma skip_line_spec self :
  buffer_wf (ct_buffer self) → returns (skip_line (loop_fuel self) self) (passes (λ c, c ≠ LF) (λ c, c = LF) self).
Proof.
  intros Hw. destruct (skips self (λ c, Ok (negb (c =? LF))) (λ _ t, t) (λ c, negb (c =? LF))) as (self' & Hrun & Hw' & s & Hs & Hp & Hq); try done.
  exists self'. split; [done |]. split; [done |]. exists s. split; [done |]. split.
  - eapply Forall_impl; [exact Hp |]. intros c Hc. simpl in Hc. lia.
  - destruct (remaining (ct_buffer self')); simpl in *; [done | lia].
Qed.

(** ** Words *)

Lemma word_end_spec fuel b i w l :
  buffer_wf b → remaining b = w ++ l → i = lenZ w → Forall (λ c, is_separator c = false) w → lenZ l <= Z.of_nat fuel →
  ∃ w' r, l = w' ++ r ∧ word_end fuel b i = Ok (lenZ (w ++ w')) ∧ Forall (λ c, is_separator c = false) w'
    ∧ before (λ c, is_separator c = true) r.
Proof.
  intros Hw. revert i w l. induction fuel as [| fuel IH]; intros i w l Hr Hi Hs Hf; cbn [word_end]; pose proof (lenZ_nonneg w);
    (destruct (Z.ltb_spec i (LEFT b)) as [Hlt | Hge]; rewrite LEFT_remaining, Hr, lenZ_app in * by done;
      [| exists [], l; rewrite app_nil_r; destruct l as [| c l]; [| rewrite lenZ_cons in Hge; pose proof (lenZ_nonneg l); lia];
         split_and!; try done; f_equal; lia]).
  { pose proof (lenZ_nonneg l). lia. }
  destruct l as [| c l]; [change (lenZ []) with 0 in Hlt; lia |]. pose proof (remaining_bytes b Hw) as Hb. rewrite Hr in Hb.
  apply Forall_app in Hb as [_ Hb]. apply Forall_cons in Hb as [Hc _].
  rewrite rd_HERE by (done || (rewrite LEFT_remaining, Hr, lenZ_app by done; lia)). rewrite Hr.
  assert (rd (w ++ c :: l) i = Ok c) as ->.
  { apply rd_lookup. split; [lia |]. rewrite Hi. unfold lenZ. rewrite Nat2Z.id. by apply list_lookup_middle. }
  rewrite bind_ok_l. unfold IS_SEPARATOR. rewrite in_class_byte, bind_ok_l by done. fold (is_separator c).
  destruct (is_separator c) eqn:Hsep; [exists [], (c :: l); rewrite app_nil_r; split_and!; try done; f_equal; lia |].
  rewrite lenZ_cons in Hf. destruct (IH (i + 1) (w ++ [c]) l) as (w' & r & -> & -> & Hw' & Hr').
  - by rewrite <- app_assoc.
  - rewrite lenZ_app. change (lenZ [c]) with 1. lia.
  - apply Forall_app. split; [done | by repeat constructor].
  - lia.
  - exists (c :: w'), r. rewrite <- app_assoc. split_and!; try done. by constructor.
Qed.

Definition token_type (t : token) : config_token_type :=
  match t with Eof => TOK_EOF | Begin => TOK_BEGIN_GROUP | End => TOK_END_GROUP | Equal => TOK_EQUAL | Word _ => TOK_STRING end.

(** The tokenizer stands after this token. *)
Definition at_token (self : config_tokenizer) (t : token) : Prop :=
  ct_type self = Some (token_type t)
  ∧ match t with Word w => ct_token_length self = lenZ w ∧ ∃ d, ct_token self = Some (w ++ d) | _ => True end.

Lemma lexes_spaces s l t r : Forall (λ c, is_space c = true) s → lexes l t r → lexes (s ++ l) t r.
Proof. induction 1; simpl; [done |]. intros Hl. by apply lex_space; auto. Qed.

Lemma plain_separator c : c ≠ 123 → c ≠ 125 → c ≠ 61 → is_byte c → is_space c = false → is_separator c = false.
Proof.
  intros H1 H2 H3 Hc Hs.
  assert (∀ c, is_byte c → (c =? 123) || (c =? 125) || (c =? 61) || is_space c || negb (is_separator c) = true) as Hall
    by (apply byte_cases; vm_compute; reflexivity).
  specialize (Hall c Hc). rewrite Hs in Hall. destruct (is_separator c); [simpl in Hall; lia | done].
Qed.

Lemma next_token_spec fuel self :
  buffer_wf (ct_buffer self) → lenZ (remaining (ct_buffer self)) <= Z.of_nat fuel →
  ∃ self' t, next_token fuel self = Ok (self', token_type t) ∧ buffer_wf (ct_buffer self')
    ∧ lexes (remaining (ct_buffer self)) t (remaining (ct_buffer self')) ∧ at_token self' t.
Proof.
  revert self. induction fuel as [| fuel IH]; intros self Hw Hf; cbn [next_token];
    (destruct (skip_space_spec self Hw) as (self1 & -> & Hw1 & s & Hs & Hsp & Hq); rewrite bind_ok_l, Hs in *;
     destruct (cursor_cases _ Hw1) as [[-> Hr] | (c & l & -> & Hr & Hc & Hrd & Hw' & Hl)];
      [exists (set_type self1 TOK_EOF), Eof; split; [done |]; split; [done |]; split; [| done];
       apply lexes_spaces; [done |]; change (ct_buffer (set_type self1 TOK_EOF)) with (ct_buffer self1); rewrite Hr; apply lex_eof |]; rewrite lenZ_app, Hr, lenZ_cons in Hf;
     pose proof (lenZ_nonneg l); pose proof (lenZ_nonneg s); try lia).
  rewrite Hrd, bind_ok_l, Hr. rewrite Hr in Hq. simpl in Hq.
  destruct (Z.eqb_spec c 123) as [-> | Hn1].
  { exists (step_over (set_type self1 TOK_BEGIN_GROUP) 1), Begin. split; [done |]. split; [done |]. split; [| done].
    apply lexes_spaces; [done |]. simpl. rewrite Hl. apply lex_begin. }
  destruct (Z.eqb_spec c 125) as [-> | Hn2].
  { exists (step_over (set_type self1 TOK_END_GROUP) 1), End. split; [done |]. split; [done |]. split; [| done].
    apply lexes_spaces; [done |]. simpl. rewrite Hl. apply lex_end. }
  destruct (Z.eqb_spec c 61) as [-> | Hn3].
  { exists (step_over (set_type self1 TOK_EQUAL) 1), Equal. split; [done |]. split; [done |]. split; [| done].
    apply lexes_spaces; [done |]. simpl. rewrite Hl. apply lex_equal. }
  destruct (Z.eqb_spec c 35) as [-> | Hn4].
  - destruct (skip_line_spec self1 Hw1) as (self2 & -> & Hw2 & s2 & Hs2 & Hp2 & Hq2). rewrite bind_ok_l.
    destruct s2 as [| c2 s2]; [simpl in Hs2; rewrite <- Hs2, Hr in Hq2; done |]. rewrite Hr in Hs2. injection Hs2 as <- Hs2.
    apply Forall_cons in Hp2 as [_ Hp2].
    destruct (IH self2 Hw2) as (self3 & t & -> & Hw3 & Hlex & Hat); [rewrite Hs2, lenZ_app in Hf; pose proof (lenZ_nonneg s2); lia |].
    exists self3, t. split; [done |]. split; [done |]. split; [| done]. apply lexes_spaces; [done |]. rewrite Hs2. by apply lex_comment.
  - pose proof (plain_separator c Hn1 Hn2 Hn3 Hc Hq) as Hsep. unfold read_word.
    destruct (word_end_spec (loop_fuel self1) (ct_buffer self1) 0 [] (c :: l)) as (w & r & Hwr & -> & Hsw & Hr').
    { done. } { done. } { done. } { constructor. }
    { unfold loop_fuel. rewrite LEFT_remaining, Hr by done. pose proof (lenZ_nonneg (c :: l)). lia. }
    simpl. destruct w as [| c' w]; [simpl in Hwr; subst r; simpl in Hr'; congruence |]. injection Hwr as <- ->.
    destruct (advance_app (ct_buffer self1) (c :: w) r Hw1) as (_ & Hw2 & Hrem); [done |].
    eexists _, (Word (c :: w)). split; [done |]. split; [done |]. simpl. rewrite Hrem. split; [apply lexes_spaces; [done | by apply lex_word] |].
    split; [done |]. split; [done |]. exists (r ++ drop (Z.to_nat (LEFT (ct_buffer self1))) (HERE (ct_buffer self1))). simpl. f_equal.
    rewrite (HERE_remaining (ct_buffer self1)) at 1 by done. rewrite Hr. simpl. by rewrite <- app_assoc.
Qed.

Lemma span_unique (P Q : Z → Prop) s l s' l' :
  (∀ c, P c → Q c → False) → Forall P s → Forall P s' → before Q l → before Q l' → s ++ l = s' ++ l' → s = s' ∧ l = l'.
Proof.
  intros Hd Hs. revert s'. induction Hs as [| c s Hc Hs IH]; intros [| c' s'] Hs' Hl Hl' Heq; simpl in *.
  - done.
  - subst l. apply Forall_cons in Hs' as [Hc' _]. by destruct (Hd c').
  - subst l'. by destruct (Hd c).
  - injection Heq as <- Heq. apply Forall_cons in Hs' as [_ Hs']. by destruct (IH s' Hs' Hl Hl' Heq) as [-> ->].
Qed.

Lemma space_separator c : is_space c = true → is_separator c = true.
Proof.
  unfold is_space, is_separator, class_of. destruct (char_class !! Z.to_nat c) as [k |] eqn:Hk; [| done].
  assert (forallb (λ k, implb (c_true (Z.land k 5)) (c_true (Z.land k 7))) char_class = true) as Hall by (vm_compute; reflexivity).
  rewrite forallb_forall in Hall. apply list_elem_of_lookup_2, list_elem_of_In in Hk. specialize (Hall k Hk). simpl. intros Ht. by rewrite Ht in Hall.
Qed.

(** The next token is determined. *)
Lemma lexes_unique l t r t' r' : lexes l t r → lexes l t' r' → t = t' ∧ r = r'.
Proof.
  intros Hl. revert t' r'. induction Hl as [| c l t r Hs Hl IH | s l t r Hs Hb Hl IH | l | l | l | c w r Hc Hw Hr]; intros t' r' Hl';
    inversion Hl'; subst; try done; try (by apply IH); try (exfalso; congruence).
  all: try match goal with Hx : is_space _ = true |- _ => pose proof (space_separator _ Hx) end.
  all: try (exfalso; by vm_compute in *).
  all: try match goal with Hx : Forall _ (_ :: _) |- _ => apply Forall_cons in Hx as [Hsep ?]; vm_compute in Hsep; discriminate Hsep end.
  - exfalso. match goal with Hx : Forall _ (c :: w) |- _ => apply Forall_cons in Hx as [Hx _] end. congruence.
  - match goal with Heq : ?s0 ++ ?l0 = s ++ l |- _ => destruct (span_unique (λ c, c ≠ LF) (λ c, c = LF) s0 l0 s l) as [-> ->]; try done end.
    by apply IH.
  - exfalso. apply Forall_cons in Hw as [Hw _]. congruence.
  - apply Forall_cons in Hw as [_ Hw]. match goal with Hx : Forall _ (c :: w0) |- _ => apply Forall_cons in Hx as [_ Hx] end.
    destruct (span_unique (λ c, is_separator c = false) (λ c, is_separator c = true) w r w0 r') as [-> ->]; try done. congruence.
Qed.

(** Nothing is invented, and a token takes at least an octet. *)
Lemma lexes_progress l t r : lexes l t r → r `suffix_of` l ∧ (t = Eof ∨ lenZ r < lenZ l).
Proof.
  induction 1 as [| c l t r _ _ [IH IHl] | s l t r _ _ _ [IH IHl] | l | l | l | c w r].
  - split; [done | by left].
  - split; [by apply suffix_cons_r |]. rewrite lenZ_cons. destruct IHl; [by left | right; lia].
  - split; [apply suffix_cons_r; by apply suffix_app_r |]. rewrite lenZ_cons, lenZ_app. pose proof (lenZ_nonneg s). destruct IHl; [by left | right; lia].
  - split; [by apply suffix_cons_r | right; rewrite lenZ_cons; lia].
  - split; [by apply suffix_cons_r | right; rewrite lenZ_cons; lia].
  - split; [by apply suffix_cons_r | right; rewrite lenZ_cons; lia].
  - split; [by exists (c :: w) | right; rewrite lenZ_cons, lenZ_app; pose proof (lenZ_nonneg w); lia].
Qed.

Lemma config_tokenizer_next_spec self :
  buffer_wf (ct_buffer self) →
  ∃ self' t, config_tokenizer_next self = Ok (self', token_type t) ∧ buffer_wf (ct_buffer self')
    ∧ lexes (remaining (ct_buffer self)) t (remaining (ct_buffer self')) ∧ at_token self' t.
Proof.
  intros Hw. apply next_token_spec; [done |]. unfold loop_fuel. rewrite LEFT_remaining by done.
  pose proof (lenZ_nonneg (remaining (ct_buffer self))). lia.
Qed.

(** The rest of a line is passed over. *)
Lemma config_tokenizer_eolp_spec self :
  buffer_wf (ct_buffer self) →
  ∃ self' ok, config_tokenizer_eolp self = Ok (self', ok) ∧ buffer_wf (ct_buffer self')
    ∧ remaining (ct_buffer self') `suffix_of` remaining (ct_buffer self).
Proof.
  intros Hw. unfold config_tokenizer_eolp. destruct (skip_blanks_spec self Hw) as (self1 & -> & Hw1 & s & Hs & _ & _). rewrite bind_ok_l.
  destruct (cursor_cases _ Hw1) as [[-> Hr] | (c & l & -> & Hr & Hc & -> & Hw' & Hl)].
  - exists self1, true. split; [done |]. split; [done |]. by exists s.
  - rewrite bind_ok_l. destruct (skip_line_spec self1 Hw1) as (self2 & -> & Hw2 & s2 & Hs2 & _ & _). rewrite bind_ok_l.
    eexists self2, _. split; [done |]. split; [done |]. rewrite Hs, Hs2. exists (s ++ s2). by rewrite <- app_assoc.
Qed.

Lemma token_text_at self w : at_token self (Word w) → token_text self = Ok w.
Proof.
  intros (_ & Hl & d & Hd). unfold token_text. rewrite Hd, Hl. simpl. rewrite (proj2 (Z.ltb_ge _ _)) by (rewrite lenZ_app; pose proof (lenZ_nonneg d); lia).
  by rewrite slice_app_first.
Qed.

Lemma looking_at_word self w word : at_token self (Word w) → config_tokenizer_looking_at self word = Ok (bool_decide (w = word)).
Proof.
  intros (Ht & Hl & d & Hd). unfold config_tokenizer_looking_at. rewrite Ht, Hl, Hd. simpl. destruct (Z.eqb_spec (lenZ word) (lenZ w)) as [He | Hne].
  - rewrite (proj2 (Z.ltb_ge _ _)) by (rewrite lenZ_app; pose proof (lenZ_nonneg d); lia). f_equal. apply bool_decide_ext.
    by rewrite slice_app_first.
  - rewrite bool_decide_false; [done |]. congruence.
Qed.

(** How a token looks as a word. *)
Definition token_word (t : token) : list Z :=
  match t with Eof => [] | Begin => cstr "{" | End => cstr "}" | Equal => cstr "=" | Word w => w end.

Lemma lexes_length l t r : lexes l t r → lenZ (token_word t) + lenZ r <= lenZ l.
Proof.
  induction 1 as [| c l t r _ _ IH | s l t r _ _ _ IH | l | l | l | c w r]; rewrite ?lenZ_cons, ?lenZ_app; cbn [token_word].
  - change (lenZ []) with 0. lia.
  - lia.
  - pose proof (lenZ_nonneg s). lia.
  - change (lenZ (cstr "{")) with 1. lia.
  - change (lenZ (cstr "}")) with 1. lia.
  - change (lenZ (cstr "=")) with 1. lia.
  - rewrite lenZ_cons. lia.
Qed.

(** A sequence of tokens. *)
Inductive lexes_seq : list Z → list token → list Z → Prop :=
  | seq_nil l : lexes_seq l [] l
  | seq_cons l t m ts r : lexes l t m → lexes_seq m ts r → lexes_seq l (t :: ts) r.

(** ** The name of the file *)

(** The same tokenizer with another name. *)
Definition with_file (f : option (list Z)) (t : config_tokenizer) : config_tokenizer :=
  mk_tokenizer (ct_buffer t) f (ct_lineno t) (ct_type t) (ct_token_length t) (ct_token t).

Lemma skip_while_file f test count : (∀ c t, count c (with_file f t) = with_file f (count c t)) → ∀ fuel t,
  skip_while test count fuel (with_file f t) = (t ← skip_while test count fuel t; Ok (with_file f t)).
Proof.
  intros Hc. induction fuel as [| fuel IH]; intros t; cbn [skip_while]; change (ct_buffer (with_file f t)) with (ct_buffer t);
    (destruct (LEFT (ct_buffer t) =? 0); [done |]; destruct (rd _ 0) as [c |]; [| done]; rewrite !bind_ok_l; destruct (test c) as [[] |]; try done; rewrite !bind_ok_l).
  rewrite Hc. change (step_over (with_file f (count c t)) 1) with (with_file f (step_over (count c t) 1)). apply IH.
Qed.

Lemma count_line_file f c t : count_line c (with_file f t) = with_file f (count_line c t).
Proof. unfold count_line. by destruct (c =? LF). Qed.

Lemma next_token_file f fuel : ∀ t,
  next_token fuel (with_file f t) = ('(t, ty) ← next_token fuel t; Ok (with_file f t, ty)).
Proof.
  induction fuel as [| fuel IH]; intros t; cbn [next_token]; change (loop_fuel (with_file f t)) with (loop_fuel t); unfold skip_space;
    (rewrite skip_while_file by (intros; apply count_line_file); destruct (skip_while IS_SPACE _ _ t) as [t1 |]; [| done]; rewrite !bind_ok_l;
     change (ct_buffer (with_file f t1)) with (ct_buffer t1); destruct (LEFT (ct_buffer t1) =? 0); [done |]; destruct (rd _ 0) as [c |]; [| done]; rewrite !bind_ok_l;
     do 3 (destruct (c =? _); [done |]); destruct (c =? 35);
     [change (loop_fuel (with_file f t1)) with (loop_fuel t1); unfold skip_line; rewrite skip_while_file by done; destruct (skip_while _ _ _ t1) as [t2 |]; [| done]; rewrite !bind_ok_l |
      unfold read_word; change (loop_fuel (with_file f t1)) with (loop_fuel t1); change (ct_buffer (with_file f t1)) with (ct_buffer t1); by destruct (word_end _ _ 0)]).
  - done.
  - apply IH.
Qed.

Lemma config_tokenizer_next_file f t :
  config_tokenizer_next (with_file f t) = ('(t, ty) ← config_tokenizer_next t; Ok (with_file f t, ty)).
Proof. apply next_token_file. Qed.

Lemma config_tokenizer_eolp_file f t :
  config_tokenizer_eolp (with_file f t) = ('(t, ok) ← config_tokenizer_eolp t; Ok (with_file f t, ok)).
Proof.
  unfold config_tokenizer_eolp, skip_blanks, skip_line. change (loop_fuel (with_file f t)) with (loop_fuel t). rewrite skip_while_file by done.
  destruct (skip_while _ _ _ t) as [t1 |]; [| done]. rewrite !bind_ok_l. change (ct_buffer (with_file f t1)) with (ct_buffer t1).
  destruct (LEFT (ct_buffer t1) =? 0); [done |]. destruct (rd _ 0) as [c |]; [| done]. rewrite !bind_ok_l.
  change (loop_fuel (with_file f t1)) with (loop_fuel t1). rewrite skip_while_file by done. by destruct (skip_while _ _ _ t1).
Qed.

Lemma with_same_file t : with_file (ct_file t) t = t.
Proof. by destruct t. Qed.

(** A step that commutes with every name keeps the name. *)
Lemma same_file {A} (F : config_tokenizer → result (config_tokenizer * A)) t t' a :
  (∀ f, F (with_file f t) = ('(t, a) ← F t; Ok (with_file f t, a))) → F t = Ok (t', a) → ct_file t' = ct_file t.
Proof. intros HF Hr. specialize (HF (ct_file t)). rewrite with_same_file, Hr in HF. cbn in HF. injection HF as HF. by rewrite HF. Qed.

(** A tokenizer over a named file that has this much left. *)
Definition reads (t : config_tokenizer) (l : list Z) : Prop :=
  (buffer_wf (ct_buffer t) ∧ is_Some (ct_file t)) ∧ remaining (ct_buffer t) = l.

Lemma reads_message t l : reads t l → werror_at t = Ok ().
Proof. intros [[_ [f Hf]] _]. unfold werror_at. by rewrite Hf. Qed.

Lemma tokenizer_next self l :
  reads self l →
  ∃ self' t r, config_tokenizer_next self = Ok (self', token_type t) ∧ reads self' r ∧ lexes l t r ∧ at_token self' t.
Proof.
  intros [[Hw Hf] <-]. destruct (config_tokenizer_next_spec self Hw) as (self' & t & Hn & Hw' & Hl & Ha).
  exists self', t, (remaining (ct_buffer self')). split; [done |]. split; [| done]. split; [| done]. split; [done |].
  by rewrite (same_file config_tokenizer_next _ _ _ (λ f, config_tokenizer_next_file f self) Hn).
Qed.

Lemma eolp_reads t l : reads t l → ∃ t' ok m, config_tokenizer_eolp t = Ok (t', ok) ∧ reads t' m ∧ m `suffix_of` l.
Proof.
  intros [[Hw Hf] <-]. destruct (config_tokenizer_eolp_spec t Hw) as (t' & ok & Hrun & Hw' & Hs). exists t', ok, (remaining (ct_buffer t')).
  split; [done |]. split; [| done]. split; [| done]. split; [done |].
  by rewrite (same_file config_tokenizer_eolp _ _ _ (λ f, config_tokenizer_eolp_file f t) Hrun).
Qed.

Lemma tokenizer_init_reads file d : Forall is_byte d → lenZ d < 2 ^ 32 → reads (config_tokenizer_init (Some file) (lenZ d) d) d.
Proof. intros Hb Hl. destruct (init_wf d Hb Hl) as [Hw Hr]. split; [| done]. split; [done | by eexists]. Qed.

Lemma reads_fuel t l : reads t l → lenZ l <= Z.of_nat (loop_fuel t).
Proof. intros [[Hw _] <-]. unfold loop_fuel. rewrite LEFT_remaining by done. pose proof (lenZ_nonneg (remaining (ct_buffer t))). lia. Qed.
