(* ===== verification/ServerConfig.v ===== *)
(** * Configuration files ([src/src/server_config.c])

    A configuration is described by a tree of parsers, each with a table of
    options and a handler; the handlers work on objects that belong to the
    program.  The tree is flattened into an array of groups, children after
    their parents. *)

From S2P Require Import Prelude Nettle Atoms LshString Format FormatSpec Parse ParseSpec Service Tokenize.
Local Open Scope Z_scope.

Definition EINVAL := 22.

Inductive config_type : Set := CONFIG_TYPE_BOOL | CONFIG_TYPE_NUMBER | CONFIG_TYPE_STRING | CONFIG_TYPE_LIST.

#[global] Instance config_type_eq_dec : EqDecision config_type.
Proof. solve_decision. Defined.

Definition CONFIG_PARSE_KEY_INIT := 1048576.
Definition CONFIG_PARSE_KEY_END := 1048577.

Record config_option := mk_config_option {
  co_key : Z;
  co_name : list Z;
  co_type : config_type;
  co_doc : list Z;
  co_example : option (list Z);
}.

(** Blocks of memory that grow: [*length], [*size] and [*list]; there is no
    block before the first call. *)
Record text_list := mk_text_list {
  tx_length : Z;
  tx_size : Z;
  tx_list : list Z;
}.

Definition no_text : text_list := mk_text_list 0 0 [].

Section text.
Context `{Malloc}.

Definition list_append (self : text_list) (token : list Z) : result text_list :=
  let token_length := lenZ token in
  let '(size, block) :=
    if tx_size self =? 0 then
      let size := u32 (token_length + 100) in (size, fresh_block size)
    else if tx_size self <? u32 (tx_length self + token_length + 1) then
      let size := u32 (tx_size self * 2 + token_length + 1) in
      (size, take (Z.to_nat size) (tx_list self) ++ fresh_block (size - tx_size self))
    else (tx_size self, tx_list self) in
  if lenZ block <? tx_length self + token_length + 1 then Fault OutOfBounds
  else Ok (mk_text_list (u32 (tx_length self + token_length + 1)) size (splice (tx_length self) (token ++ [0]) block)).

(** The result is a code of [errno.h]. *)
Fixpoint value_list_loop (fuel : nat) (t : config_tokenizer) (level : Z) (list : text_list)
  : result (config_tokenizer * text_list * Z) :=
  '(t, type) ← config_tokenizer_next t;
  let next level token :=
    list ← list_append list token;
    match fuel with
    | O => Fault NonTermination
    | S fuel => value_list_loop fuel t level list
    end in
  match type with
  | TOK_STRING => token ← token_text t; next level token
  | TOK_BEGIN_GROUP => next (level + 1) (cstr "{")
  | TOK_END_GROUP =>
      if level - 1 =? 0 then Ok (t, list, 0) else next (level - 1) (cstr "}")
  | TOK_EQUAL => next level (cstr "=")
  | TOK_EOF => werror_at t;; Ok (t, list, EINVAL)
  | TOK_ERROR => Ok (t, list, EINVAL)
  end.

Definition parse_value_list (t : config_tokenizer) : result (config_tokenizer * text_list * Z) :=
  '(t, type) ← config_tokenizer_next t;
  if negb (bool_decide (type = TOK_STRING)) then Ok (t, no_text, EINVAL)
  else
    token ← token_text t;
    list ← list_append no_text token;
    '(t, type) ← config_tokenizer_next t;
    if negb (bool_decide (type = TOK_EQUAL)) then config_tokenizer_error t;; Ok (t, list, EINVAL)
    else
      '(t, type) ← config_tokenizer_next t;
      if negb (bool_decide (type = TOK_BEGIN_GROUP)) then config_tokenizer_error t;; Ok (t, list, EINVAL)
      else value_list_loop (loop_fuel t) t 1 list.

End text.

(** The value, or [EINVAL]. *)
Definition parse_value_bool (arg : list Z) : Z + Z :=
  if bool_decide (arg = cstr "no") then inr 0
  else if bool_decide (arg = cstr "yes") then inr 1
  else inl EINVAL.

Definition parse_value_unsigned (arg : list Z) : result (Z + Z) := c_fatal.

(** ** Parsers and groups *)

Section config.
Context `{Malloc} {store ptr : Type}.

Record config_parser_state := mk_config_state {
  cs_input : option ptr;
  cs_child_inputs : list (option ptr);
}.

(** Key, value and data; there are no data for numbers. *)
Definition config_parser_handler_t : Type :=
  Z → Z → option (list Z) → config_parser_state → store → result (config_parser_state * store * Z).

Inductive config_parser : Type :=
  mk_config_parser (options : list config_option) (handler : config_parser_handler_t) (children : list config_parser).

Definition cp_options (p : config_parser) := let '(mk_config_parser o _ _) := p in o.
Definition cp_handler (p : config_parser) := let '(mk_config_parser _ h _) := p in h.
Definition cp_children (p : config_parser) := let '(mk_config_parser _ _ c) := p in c.

(** The index of the parent in the array. *)
Record group := mk_group {
  gr_parser : config_parser;
  gr_parent : option nat;
  gr_parent_index : nat;
  gr_state : config_parser_state;
}.

(** Numbers of groups and of child inputs. *)
Fixpoint calc_sizes (p : config_parser) (szs : Z * Z) : Z * Z :=
  let '(mk_config_parser _ _ children) := p in
  (fix go (children : list config_parser) (szs : Z * Z) : Z * Z :=
     match children with
     | [] => szs
     | c :: children => let '(groups, inputs) := calc_sizes c szs in go children (groups, inputs + 1)
     end) children (szs.1 + 1, szs.2).

(** The groups made before are [groups]. *)
Fixpoint convert_options (p : config_parser) (parent : option nat) (parent_index : nat) (groups : list group) : list group :=
  let '(mk_config_parser _ _ children) := p in
  let me := length groups in
  let group := mk_group p parent parent_index (mk_config_state None (replicate (length children) None)) in
  (fix go (children : list config_parser) (i : nat) (groups : list _) : list _ :=
     match children with
     | [] => groups
     | c :: children => go children (S i) (convert_options c (Some me) i groups)
     end) children O (groups ++ [group]).

(** Child inputs of all groups. *)
Definition input_slots (groups : list group) : Z := foldr (λ g n, lenZ (cs_child_inputs (gr_state g)) + n) 0 groups.

Definition set_state (groups : list group) (i : nat) (s : config_parser_state) : list group :=
  alter (λ g, mk_group (gr_parser g) (gr_parent g) (gr_parent_index g) s) i groups.

Definition group_at (groups : list group) (i : nat) : result group := rd groups (Z.of_nat i).

(** A call of the handler of a group. *)
Definition call_handler (groups : list group) (st : store) (i : nat) (key value : Z) (data : option (list Z))
  : result (list group * store * Z) :=
  g ← group_at groups i;
  '(s, st, err) ← cp_handler (gr_parser g) key value data (gr_state g) st;
  Ok (set_state groups i s, st, err).

Definition inherit_input (groups : list group) (i : nat) : result (list group) :=
  g ← group_at groups i;
  match gr_parent g with
  | None => Ok groups
  | Some j =>
      parent ← group_at groups j;
      input ← rd (cs_child_inputs (gr_state parent)) (Z.of_nat (gr_parent_index g));
      Ok (set_state groups i (mk_config_state input (cs_child_inputs (gr_state g))))
  end.

(** [for (group = state->groups; group < state->egroup; group++)] *)
Fixpoint init_groups (todo : list nat) (groups : list group) (st : store) : result (list group * store * Z) :=
  match todo with
  | [] => Ok (groups, st, 0)
  | i :: todo =>
      groups ← inherit_input groups i;
      '(groups, st, err) ← call_handler groups st i CONFIG_PARSE_KEY_INIT 0 None;
      if negb (err =? 0) && negb (err =? EINVAL) then Ok (groups, st, err) else init_groups todo groups st
  end.

Definition parser_init (p : config_parser) (input : option ptr) (st : store) : result (list group * store * Z) :=
  let '(num_groups, num_child_inputs) := calc_sizes p (0, 0) in
  let groups := convert_options p None 0 [] in
  _ ← c_assert (lenZ groups =? num_groups);
  _ ← c_assert (input_slots groups =? num_child_inputs);
  root ← group_at groups 0;
  let groups := set_state groups 0 (mk_config_state input (cs_child_inputs (gr_state root))) in
  init_groups (seq 0 (length groups)) groups st.

(** Errors are ignored. *)
Fixpoint end_groups (todo : list nat) (groups : list group) (st : store) : result (list group * store) :=
  match todo with
  | [] => Ok (groups, st)
  | i :: todo =>
      '(groups, st, _) ← call_handler groups st i CONFIG_PARSE_KEY_END 0 None;
      end_groups todo groups st
  end.

Definition parser_finalize (groups : list group) (st : store) : result store :=
  '(_, st) ← end_groups (reverse (seq 0 (length groups))) groups st;
  Ok st.

(** ** Options *)

(** The loops over groups and options stop at the word that was read. *)
Fixpoint find_option (t : config_tokenizer) (options : list config_option) : result (option config_option) :=
  match options with
  | [] => Ok None
  | o :: options =>
      here ← config_tokenizer_looking_at t (co_name o);
      if here : bool then Ok (Some o) else find_option t options
  end.

Fixpoint find_group (t : config_tokenizer) (i : nat) (groups : list group) : result (option (nat * config_option)) :=
  match groups with
  | [] => Ok None
  | g :: groups =>
      o ← find_option t (cp_options (gr_parser g));
      match o with
      | Some o => Ok (Some (i, o))
      | None => find_group t (S i) groups
      end
  end.

(** A value: an error, or the number and the data for the handler; other types
    do not come here. *)
Definition parse_simple_value (o : config_option) (arg : list Z) : result (Z + Z * option (list Z)) :=
  match co_type o with
  | CONFIG_TYPE_BOOL => Ok (match parse_value_bool arg with inl e => inl e | inr v => inr (v, None) end)
  | CONFIG_TYPE_NUMBER => r ← parse_value_unsigned arg; Ok (match r with inl e => inl e | inr v => inr (v, None) end)
  | CONFIG_TYPE_STRING => Ok (inr (lenZ arg, Some arg))
  | CONFIG_TYPE_LIST => Ok (inl EINVAL)
  end.

(** A bad value is reported. *)
Definition check_value (t : config_tokenizer) (r : Z + Z * option (list Z)) : result (config_tokenizer * (Z + Z * option (list Z))) :=
  match r with
  | inl _ => werror_at t;; Ok (t, r)
  | inr _ => Ok (t, r)
  end.

(** Values that are words. *)
Definition parse_word_value (o : config_option) (t : config_tokenizer) : result (config_tokenizer * (Z + Z * option (list Z))) :=
  '(t, type) ← config_tokenizer_next t;
  if negb (bool_decide (type = TOK_EQUAL)) then werror_at t;; Ok (t, inl EINVAL)
  else
    '(t, type) ← config_tokenizer_next t;
    if negb (bool_decide (type = TOK_STRING)) then werror_at t;; Ok (t, inl EINVAL)
    else
      arg ← token_text t;
      r ← parse_simple_value o arg;
      check_value t r.

Definition parse_option_value (o : config_option) (t : config_tokenizer)
  : result (config_tokenizer * (Z + Z * option (list Z))) :=
  match co_type o with
  | CONFIG_TYPE_LIST =>
      '(t, list, err) ← parse_value_list t;
      check_value t (if err =? 0 then inr (tx_length list, Some (tx_list list)) else inl err)
  | _ => parse_word_value o t
  end.

Definition parser_parse_option (groups : list group) (st : store) (t : config_tokenizer)
  : result (config_tokenizer * list group * store * Z) :=
  found ← find_group t 0 groups;
  match found with
  | None => werror_at t;; Ok (t, groups, st, EINVAL)
  | Some (i, o) =>
      '(t, r) ← parse_option_value o t;
      match r with
      | inl err => Ok (t, groups, st, err)
      | inr (value, data) =>
          '(t, eol) ← config_tokenizer_eolp t;
          (if eol : bool then Ok () else config_tokenizer_error t);;
          '(groups, st, err) ← call_handler groups st i (co_key o) value data;
          Ok (t, groups, st, err)
      end
  end.

(** [while (!err)] *)
Fixpoint parse_options (fuel : nat) (groups : list group) (st : store) (t : config_tokenizer)
  : result (list group * store * Z) :=
  '(t, type) ← config_tokenizer_next t;
  match type with
  | TOK_STRING =>
      '(t, groups, st, err) ← parser_parse_option groups st t;
      if err =? 0 then
        match fuel with
        | O => Fault NonTermination
        | S fuel => parse_options fuel groups st t
        end
      else Ok (groups, st, err)
  | TOK_EOF => Ok (groups, st, 0)
  | _ => Ok (groups, st, EINVAL)
  end.

Definition server_config_parse_string (p : config_parser) (file : option (list Z)) (length : Z) (data : list Z) (input : option ptr) (st : store)
  : result (store * Z) :=
  let t := config_tokenizer_init file length data in
  '(groups, st, err) ← parser_init p input st;
  if negb (err =? 0) then Ok (st, err)
  else
    '(groups, st, err) ← parse_options (loop_fuel t) groups st t;
    st ← parser_finalize groups st;
    Ok (st, err).

(** ** The example configuration *)

(** An example without a value is skipped; a bad value is an internal error. *)
Definition example_value (o : config_option) (example : list Z) : result (Z * option (list Z)) :=
  r ← match co_type o with
      | CONFIG_TYPE_LIST =>
          '(_, list, err) ← parse_value_list (config_tokenizer_init (Some (cstr "example fragment")) (lenZ example) example);
          Ok (if err =? 0 then inr (tx_length list, Some (tx_list list)) else inl err)
      | _ => parse_simple_value o example
      end;
  match r with
  | inl _ => c_fatal
  | inr v => Ok v
  end.

Fixpoint example_options (options : list config_option) (i : nat) (groups : list group) (st : store) (err : Z)
  : result (list group * store * Z) :=
  match options with
  | [] => Ok (groups, st, err)
  | o :: options =>
      match co_example o with
      | None => example_options options i groups st err
      | Some example =>
          '(value, data) ← example_value o example;
          '(groups, st, err) ← call_handler groups st i (co_key o) value data;
          example_options options i groups st err
      end
  end.

Fixpoint example_groups (todo : list nat) (groups : list group) (st : store) (err : Z) : result (list group * store * Z) :=
  match todo with
  | [] => Ok (groups, st, err)
  | i :: todo =>
      g ← group_at groups i;
      '(groups, st, err) ← example_options (cp_options (gr_parser g)) i groups st err;
      example_groups todo groups st err
  end.

Definition server_config_parse_example (p : config_parser) (input : option ptr) (st : store) : result (store * Z) :=
  '(groups, st, err) ← parser_init p input st;
  if negb (err =? 0) then Ok (st, err)
  else
    '(groups, st, err) ← example_groups (reverse (seq 0 (length groups))) groups st 0;
    st ← parser_finalize groups st;
    Ok (st, err).

(** The text on the stream. *)
Definition print_option (o : config_option) : list Z :=
  cstr "# " ++ co_doc o ++ [LF]
  ++ match co_example o with
     | Some example =>
         co_name o ++ (if bool_decide (co_type o = CONFIG_TYPE_LIST) then [] else cstr " =") ++ cstr " " ++ example
     | None =>
         cstr "# " ++ co_name o
         ++ match co_type o with
            | CONFIG_TYPE_STRING => cstr " = STRING"
            | CONFIG_TYPE_BOOL => cstr " = yes / no"
            | CONFIG_TYPE_NUMBER => cstr " = NUMBER"
            | CONFIG_TYPE_LIST => cstr " NAME { ARGS... }"
            end
     end
  ++ [LF; LF].

Fixpoint server_config_print_example (p : config_parser) : list Z :=
  let '(mk_config_parser options _ children) := p in
  concat (print_option <$> options)
  ++ (fix go (children : list config_parser) : list Z :=
        match children with
        | [] => []
        | c :: children => [LF] ++ server_config_print_example c ++ go children
        end) children.

End config.
