(* ===== verification/ServerConfigSpec.v ===== *)
(** * What configuration files mean

    The value of a list is the concatenation of its words, and reading any file
    ends. *)

From S2P Require Import Prelude Nettle Atoms LshString Format FormatSpec Parse ParseSpec Service Tokenize ServerConfig.
Local Open Scope Z_scope.

(** ** Lists of words *)

Section text.
Context `{MallocOk}.

(** The block holds these words, each followed by a NUL. *)
Record text_holds (x : text_list) (words : list (list Z)) : Prop := {
  th_length : tx_length x = lenZ (item_octets words);
  th_size : tx_size x = lenZ (tx_list x);
  th_room : tx_length x <= tx_size x <= 3 * tx_length x + 100;
  th_words : slice 0 (tx_length x) (tx_list x) = item_octets words;
  th_new : tx_size x = 0 → words = [];
}.

Lemma no_text_holds : text_holds no_text [].
Proof. by split. Qed.

Lemma item_octets_snoc words w : item_octets (words ++ [w]) = item_octets words ++ w ++ [0].
Proof. unfold item_octets. rewrite fmap_app, concat_app. simpl. by rewrite app_nil_r. Qed.

Lemma lenZ_fresh_block n : 0 <= n → lenZ (fresh_block n) = n.
Proof. intros Hn. unfold fresh_block. rewrite lenZ_fmap. unfold lenZ. rewrite length_seq. lia. Qed.

Lemma list_append_holds x words w :
  text_holds x words → tx_length x + lenZ w + 1 < 2 ^ 30 →
  ∃ x', list_append x w = Ok x' ∧ text_holds x' (words ++ [w]).
Proof.
  intros [Hl Hs Hr Hw Hnew] Hsmall. pose proof (lenZ_nonneg (item_octets words)) as Hn. pose proof (lenZ_nonneg w) as Hnw. unfold list_append.
  rewrite !(u32_id (tx_length x + lenZ w + 1)) by (unfold is_u32; lia).
  set (grown := if tx_size x =? 0 then _ else _).
  assert (∃ size block, grown = (size, block) ∧ size = lenZ block ∧ tx_length x + lenZ w + 1 <= size
    ∧ size <= 3 * (tx_length x + lenZ w + 1) + 100 ∧ slice 0 (tx_length x) block = item_octets words) as (size & block & -> & Hsz & Hroom & Hbound & Hkeep).
  { unfold grown. destruct (Z.eqb_spec (tx_size x) 0) as [Hz | Hnz]; [| destruct (Z.ltb_spec (tx_size x) (tx_length x + lenZ w + 1)) as [Hlt | Hge]].
    - eexists _, _. split; [done |]. rewrite u32_id by (unfold is_u32; lia). rewrite lenZ_fresh_block by lia.
      assert (tx_length x = 0) as Hx0 by lia. split; [done |]. split; [lia |]. split; [lia |]. rewrite (Hnew Hz), Hx0. apply slice_0.
    - eexists _, _. split; [done |]. rewrite u32_id by (unfold is_u32; lia).
      rewrite take_ge by (unfold lenZ in Hs; lia). rewrite lenZ_app, lenZ_fresh_block, <- Hs by lia.
      split; [lia |]. split; [lia |]. split; [lia |]. rewrite slice_app_l by lia. done.
    - exists (tx_size x), (tx_list x). split; [done |]. split; [done |]. split; [lia |]. split; [lia | done]. }
  rewrite (proj2 (Z.ltb_ge (lenZ block) _)) by lia. eexists. split; [done |].
  assert (lenZ (w ++ [0]) = lenZ w + 1) as Hw1 by (rewrite lenZ_app; change (lenZ [0]) with 1; lia).
  split; simpl.
  - rewrite item_octets_snoc, !lenZ_app. change (lenZ [0]) with 1. lia.
  - rewrite lenZ_splice by lia. done.
  - lia.
  - rewrite item_octets_snoc. replace (tx_length x + lenZ w + 1) with (tx_length x + lenZ (w ++ [0])) by lia.
    rewrite slice_split by lia. rewrite slice_splice_before by lia. rewrite Hkeep. f_equal. rewrite Z.add_0_l. apply slice_splice_same; lia.
  - lia.
Qed.

(** ** Groups *)

(** The level of nesting after a token that does not end the group. *)
Definition level_after (level : Z) (t : token) : option Z :=
  match t with
  | Eof => None
  | Begin => Some (level + 1)
  | End => if level - 1 =? 0 then None else Some (level - 1)
  | Equal | Word _ => Some level
  end.

Fixpoint nesting_after (level : Z) (ts : list token) : option Z :=
  match ts with
  | [] => Some level
  | t :: ts => level ← level_after level t; nesting_after level ts
  end.

(** The tokens of a group up to its end. *)
Definition is_group (l : list Z) (level : Z) (ts : list token) (r : list Z) : Prop :=
  lexes_seq l (ts ++ [End]) r ∧ nesting_after level ts = Some 1.

Lemma group_first l level ts r t m :
  is_group l level ts r → lexes l t m →
  (ts = [] ∧ t = End ∧ level = 1 ∧ r = m) ∨ (∃ ts' level', ts = t :: ts' ∧ level_after level t = Some level' ∧ is_group m level' ts' r).
Proof.
  intros [Hseq Hn] Hl. destruct ts as [| t' ts]; simpl in *.
  - injection Hn as ->. inversion Hseq as [| ? ? m' ? ? Hl' Hseq']; subst. inversion Hseq'; subst. destruct (lexes_unique _ _ _ _ _ Hl Hl') as [-> ->]. by left.
  - inversion Hseq as [| ? ? m' ? ? Hl' Hseq']; subst. destruct (lexes_unique _ _ _ _ _ Hl Hl') as [<- <-].
    destruct (level_after level t) as [level' |]; [| done]. right. exists ts, level'. by split_and!.
Qed.

Lemma group_more l level t level' m ts r :
  lexes l t m → level_after level t = Some level' → is_group m level' ts r → is_group l level (t :: ts) r.
Proof. intros Hl Hlev [Hseq Hn]. split; [by econstructor | simpl; by rewrite Hlev]. Qed.

(** The outcome of reading a group. *)
Definition group_read (l : list Z) (level : Z) (words : list (list Z)) (t' : config_tokenizer) (x' : text_list) (err : Z) : Prop :=
  ∃ r, reads t' r ∧ r `suffix_of` l
    ∧ ((err = 0 ∧ ∃ ts, is_group l level ts r ∧ text_holds x' (words ++ (token_word <$> ts)))
       ∨ (err = EINVAL ∧ ∀ ts r', ¬ is_group l level ts r')).

Lemma group_read_more l level words t level' m t' x' err :
  lexes l t m → level_after level t = Some level' →
  group_read m level' (words ++ [token_word t]) t' x' err → group_read l level words t' x' err.
Proof.
  intros Hl Hlev (r & Hr & Hsuf & Hcase). exists r. split; [done |]. destruct (lexes_progress _ _ _ Hl) as [Hs _].
  split; [by transitivity m |]. destruct Hcase as [(-> & ts & Hg & Hh) | [-> Hno]]; [left | right]; (split; [done |]).
  - exists (t :: ts). split; [by eapply group_more |]. rewrite fmap_cons. by rewrite <- app_assoc in Hh.
  - intros ts r' Hg. destruct (group_first _ _ _ _ _ _ Hg Hl) as [(_ & -> & -> & _) | (ts' & lev & -> & Hlev' & Hg')]; [done |].
    rewrite Hlev in Hlev'. injection Hlev' as <-. by destruct (Hno ts' r').
Qed.

Lemma value_list_loop_spec fuel t l level x words :
  reads t l → lenZ l <= Z.of_nat fuel → text_holds x words → 1 <= level → tx_length x + 2 * lenZ l < 2 ^ 30 →
  ∃ t' x' err, value_list_loop fuel t level x = Ok (t', x', err) ∧ group_read l level words t' x' err.
Proof.
  revert t l level x words. induction fuel as [| fuel IH]; intros t l level x words Hrd Hf Hx Hlev Hsmall; cbn [value_list_loop];
    (destruct (tokenizer_next t l Hrd) as (t1 & tok & m & -> & Hrd1 & Hl & Hat); rewrite bind_ok_l;
     destruct (lexes_progress _ _ _ Hl) as [Hsuf Hprog]; pose proof (lexes_length _ _ _ Hl) as Hlen; pose proof (lenZ_nonneg m) as Hm).
  { assert (tok = Eof) as -> by (destruct Hprog; [done | lia]). cbn [token_type]. rewrite (reads_message _ _ Hrd1), bind_ok_l. exists t1, x, EINVAL. split; [done |]. exists m. split; [done |]. split; [done |].
    right. split; [done |]. intros ts r Hg. by destruct (group_first _ _ _ _ _ _ Hg Hl) as [(_ & ? & _) | (? & ? & _ & ? & _)]. }
  (* the next token is a word of the list *)
  assert (∀ level', level_after level tok = Some level' → 1 <= level' →
    ∃ t' x' err, (list ← list_append x (token_word tok); value_list_loop fuel t1 level' list) = Ok (t', x', err)
      ∧ group_read l level words t' x' err) as Hnext.
  { intros level' Hla Hl'. pose proof (lenZ_nonneg (token_word tok)). assert (lenZ m < lenZ l) by (destruct Hprog as [-> | ?]; [done | lia]).
    destruct (list_append_holds x words (token_word tok) Hx) as (x1 & -> & Hx1); [lia |]. rewrite bind_ok_l.
    destruct (IH t1 m level' x1 (words ++ [token_word tok]) Hrd1) as (t2 & x2 & err & Hrun & Hg); [lia | done | done | |].
    { rewrite (th_length _ _ Hx1), item_octets_snoc, !lenZ_app. rewrite (th_length _ _ Hx) in Hsmall. change (lenZ [0]) with 1. lia. }
    exists t2, x2, err. split; [done |]. by eapply group_read_more. }
  destruct tok as [| | | | w]; cbn [token_type token_word level_after] in *.
  - rewrite (reads_message _ _ Hrd1), bind_ok_l. exists t1, x, EINVAL. split; [done |]. exists m. split; [done |]. split; [done |]. right. split; [done |].
    intros ts r Hg. by destruct (group_first _ _ _ _ _ _ Hg Hl) as [(_ & ? & _) | (? & ? & _ & ? & _)].
  - apply Hnext; [done | lia].
  - destruct (Z.eqb_spec (level - 1) 0) as [Hone | Hmore]; [| apply Hnext; [done | lia]].
    assert (level = 1) as -> by lia. exists t1, x, 0. split; [done |]. exists m. split; [done |]. split; [done |]. left. split; [done |].
    exists []. split; [| by rewrite app_nil_r]. split; [econstructor; [exact Hl | constructor] | done].
  - apply Hnext; [done | lia].
  - rewrite (token_text_at _ _ Hat), bind_ok_l. apply Hnext; [done | lia].
Qed.

(** [name = { words }] *)
Definition is_value_list (l : list Z) (name : list Z) (ts : list token) (r : list Z) : Prop :=
  ∃ m, lexes_seq l [Word name; Equal; Begin] m ∧ is_group m 1 ts r.

(** The outcome of reading a list. *)
Definition list_read (l : list Z) (t' : config_tokenizer) (x : text_list) (err : Z) : Prop :=
  ∃ r, reads t' r ∧ r `suffix_of` l
    ∧ ((err = 0 ∧ ∃ name ts, is_value_list l name ts r ∧ text_holds x (name :: (token_word <$> ts)))
       ∨ (err = EINVAL ∧ ∀ name ts r', ¬ is_value_list l name ts r')).

Lemma seq_unique l ts r ts' r' : lexes_seq l ts r → lexes_seq l ts' r' → length ts = length ts' → ts = ts' ∧ r = r'.
Proof.
  intros Hs. revert ts' r'. induction Hs as [| l t m ts r Hl Hs IH]; intros ts' r' Hs' Hlen; inversion Hs' as [| ? t' m' ts2 ? Hl' Hs2]; subst; try done.
  destruct (lexes_unique _ _ _ _ _ Hl Hl') as [<- <-]. injection Hlen as Hlen. by destruct (IH _ _ Hs2 Hlen) as [-> ->].
Qed.

Lemma seq_prefix l ts us r : lexes_seq l (ts ++ us) r → ∃ m, lexes_seq l ts m ∧ lexes_seq m us r.
Proof.
  revert l. induction ts as [| t ts IH]; intros l Hs; simpl in *; [exists l; split; [constructor | done] |].
  inversion Hs as [| ? ? m ? ? Hl Hs']; subst. destruct (IH _ Hs') as (m' & Hm1 & Hm2). exists m'. split; [by econstructor | done].
Qed.

(** Other tokens than those expected. *)
Lemma list_refused l ts m t' x :
  lexes_seq l ts m → (length ts <= 3)%nat → (∀ name us, [Word name; Equal; Begin] ≠ ts ++ us) → m `suffix_of` l → reads t' m →
  list_read l t' x EINVAL.
Proof.
  intros Hseq Hlen Hno Hsuf Hr. exists m. split; [done |]. split; [done |]. right. split; [done |]. intros name ts' r' (m' & Hm' & _).
  pose proof (take_drop (length ts) [Word name; Equal; Begin]) as Htd. rewrite <- Htd in Hm'. apply seq_prefix in Hm' as (m2 & Hm2 & _).
  destruct (seq_unique _ _ _ _ _ Hseq Hm2) as [Heq _]; [rewrite length_take; simpl; lia |].
  apply (Hno name (drop (length ts) [Word name; Equal; Begin])). by rewrite Heq at 1.
Qed.

(** One token more. *)
Lemma next_of_list t l0 ts l :
  reads t l → lexes_seq l0 ts l → l `suffix_of` l0 →
  ∃ t' tok m, config_tokenizer_next t = Ok (t', token_type tok) ∧ reads t' m ∧ lexes_seq l0 (ts ++ [tok]) m ∧ m `suffix_of` l0
    ∧ at_token t' tok ∧ lenZ (token_word tok) + lenZ m <= lenZ l.
Proof.
  intros Hrd Hseq Hsuf. destruct (tokenizer_next t l Hrd) as (t1 & tok & m & Hn & Hrd1 & Hl & Hat). exists t1, tok, m.
  destruct (lexes_progress _ _ _ Hl) as [Hs _]. split; [done |]. split; [done |]. split; [| split; [by transitivity l | split; [done | by apply lexes_length]]].
  clear Hrd Hsuf Hn Hrd1 Hat Hs. induction Hseq; simpl; econstructor; [exact Hl | constructor | done | by apply IHHseq].
Qed.

Lemma parse_value_list_spec t l :
  reads t l → lenZ l < 2 ^ 28 → ∃ t' x err, parse_value_list t = Ok (t', x, err) ∧ list_read l t' x err.
Proof.
  intros Hrd Hsmall. unfold parse_value_list.
  destruct (next_of_list t l [] l Hrd) as (t1 & tok1 & m1 & -> & Hrd1 & Hq1 & Hs1 & Hat1 & Hlen1); [constructor | done |].
  rewrite bind_ok_l. destruct (bool_decide_reflect (token_type tok1 = TOK_STRING)) as [Hty1 | Hty1]; cbn [negb].
  2: { eexists t1, _, _. split; [done |]. eapply (list_refused l [tok1]); [done | simpl; lia | by intros name us [= <- _] | done | done]. }
  destruct tok1 as [| | | | name]; try done. cbn [token_word] in Hlen1. rewrite (token_text_at _ _ Hat1), bind_ok_l.
  pose proof (lenZ_nonneg name). pose proof (lenZ_nonneg m1).
  destruct (list_append_holds no_text [] name no_text_holds) as (x1 & -> & Hx1); [simpl; lia |]. rewrite bind_ok_l.
  destruct (next_of_list t1 l _ m1 Hrd1 Hq1 Hs1) as (t2 & tok2 & m2 & -> & Hrd2 & Hq2 & Hs2 & _ & Hlen2).
  rewrite bind_ok_l. destruct (bool_decide_reflect (token_type tok2 = TOK_EQUAL)) as [Hty2 | Hty2]; cbn [negb].
  2: { unfold config_tokenizer_error. rewrite (reads_message _ _ Hrd2), bind_ok_l. eexists t2, _, _. split; [done |]. eapply (list_refused l [Word name; tok2]); [done | simpl; lia | by intros ? us [= _ <- _] | done | done]. }
  destruct tok2; try done.
  destruct (next_of_list t2 l _ m2 Hrd2 Hq2 Hs2) as (t3 & tok3 & m3 & -> & Hrd3 & Hq3 & Hs3 & _ & Hlen3).
  rewrite bind_ok_l. destruct (bool_decide_reflect (token_type tok3 = TOK_BEGIN_GROUP)) as [Hty3 | Hty3]; cbn [negb].
  2: { unfold config_tokenizer_error. rewrite (reads_message _ _ Hrd3), bind_ok_l. eexists t3, _, _. split; [done |]. eapply (list_refused l [Word name; Equal; tok3]); [done | simpl; lia | by intros ? us [= _ <- _] | done | done]. }
  destruct tok3; try done.
  destruct (value_list_loop_spec (loop_fuel t3) t3 m3 1 x1 [name] Hrd3) as (t4 & x4 & err & -> & r & Hrd4 & Hs4 & Hcase).
  { by apply reads_fuel. } { done. } { lia. }
  { rewrite (th_length _ _ Hx1). cbn [app]. rewrite lenZ_item_octets_cons. change (lenZ (item_octets [])) with 0. cbn [token_word] in Hlen2, Hlen3.
    change (lenZ (cstr "=")) with 1 in Hlen2. change (lenZ (cstr "{")) with 1 in Hlen3. lia. }
  exists t4, x4, err. split; [done |]. exists r. split; [done |]. split; [by transitivity m3 |].
  destruct Hcase as [(-> & ts & Hg & Hh) | [-> Hno]]; [left | right]; (split; [done |]).
  - exists name, ts. split; [by exists m3 | done].
  - intros name' ts r' (m' & Hm' & Hg). destruct (seq_unique _ _ _ _ _ Hq3 Hm') as [_ <-]; [done |]. by destruct (Hno ts r').
Qed.


End text.


(** The words of the example, with the inner braces. *)
Example parse_value_list_runs :
  let l := cstr "ssh-connection = { lshd-connection { $(helper_fd) } } rest" in
  ∃ t' x, parse_value_list (config_tokenizer_init (Some (cstr "lshd-userauth.conf")) (lenZ l) l) = Ok (t', x, 0)
    ∧ slice 0 (tx_length x) (tx_list x)
      = item_octets [cstr "ssh-connection"; cstr "lshd-connection"; cstr "{"; cstr "$(helper_fd)"; cstr "}"].
Proof. eexists _, _. split; vm_compute; reflexivity. Qed.
