(* ===== verification/ServerConfigSafe.v ===== *)
(** * Reading any configuration file ends

    The handlers of a tree of parsers are specified by a contract; a program
    whose handlers keep it can read every file. *)

From S2P Require Import Prelude Nettle Atoms LshString Format FormatSpec Parse ParseSpec Service Tokenize ServerConfig ServerConfigSpec.
Local Open Scope Z_scope.

(** A word of a file. *)
Definition small_word (w : list Z) : Prop := Forall is_byte w ∧ lenZ w < 2 ^ 28.

(** What a handler may get as the value of an option. *)
Definition option_input (o : config_option) (value : Z) (data : option (list Z)) : Prop :=
  match co_type o with
  | CONFIG_TYPE_BOOL => (value = 0 ∨ value = 1) ∧ data = None
  | CONFIG_TYPE_NUMBER => False
  | CONFIG_TYPE_STRING => ∃ arg, data = Some arg ∧ value = lenZ arg ∧ small_word arg
  | CONFIG_TYPE_LIST =>
      ∃ x words, value = tx_length x ∧ data = Some (tx_list x) ∧ text_holds x words ∧ words ≠ [] ∧ Forall small_word words
        ∧ lenZ (item_octets words) < 2 ^ 30
  end.

(** The examples of a table are values. *)
Definition example_ok (o : config_option) : Prop :=
  ∀ e, co_example o = Some e → Forall is_byte e ∧ lenZ e < 2 ^ 28 ∧
    match co_type o with
    | CONFIG_TYPE_BOOL => e = cstr "yes" ∨ e = cstr "no"
    | CONFIG_TYPE_NUMBER => False
    | CONFIG_TYPE_STRING => True
    | CONFIG_TYPE_LIST => ∃ name ts r, is_value_list e name ts r
    end.

Section config.
Context `{MallocOk} {store ptr : Type}.
Abbreviation parser := (@config_parser store ptr).
Abbreviation group := (@group store ptr).

(** ** Trees *)

Fixpoint nodes (p : parser) : list parser :=
  let '(mk_config_parser _ _ children) := p in
  p :: (fix go (children : list parser) : list parser := match children with [] => [] | c :: children => nodes c ++ go children end) children.

Lemma nodes_unfold p : nodes p = p :: concat (nodes <$> cp_children p).
Proof. destruct p as [o h children]. simpl. f_equal. induction children as [| c cs IH]; simpl; [done | by rewrite IH]. Qed.

Lemma config_parser_induction (P : parser → Prop) :
  (∀ p, Forall P (cp_children p) → P p) → ∀ p, P p.
Proof.
  intros HP. fix IH 1. intros [o h children]. apply HP. simpl. induction children as [| c cs IHc]; constructor; [apply IH | exact IHc].
Qed.

(** The number of child inputs. *)
Definition slots (l : list parser) : Z := foldr (λ p n, lenZ (cp_children p) + n) 0 l.

Lemma slots_app l m : slots (l ++ m) = slots l + slots m.
Proof. induction l as [| p l IH]; simpl; [done | rewrite IH; lia]. Qed.

Lemma calc_sizes_spec p a b : calc_sizes p (a, b) = (a + lenZ (nodes p), b + slots (nodes p)).
Proof.
  revert a b. induction p as [p IH] using config_parser_induction. intros a b. rewrite nodes_unfold. destruct p as [o h children]. cbn [calc_sizes cp_children fst snd] in *.
  rewrite lenZ_cons. cbn [slots foldr cp_children]. fold (slots (concat (nodes <$> children))).
  assert (∀ a b, (fix go (children : list parser) (szs : Z * Z) {struct children} : Z * Z :=
       match children with
       | [] => szs
       | c :: children => let '(groups, inputs) := calc_sizes c szs in go children (groups, inputs + 1)
       end) children (a, b) = (a + lenZ (concat (nodes <$> children)), b + lenZ children + slots (concat (nodes <$> children)))) as Hgo.
  { clear a b. induction IH as [| c cs Hc Hcs IHc]; intros a b; [simpl; unfold lenZ; simpl; f_equal; lia |].
    rewrite Hc, IHc, fmap_cons. cbn [concat]. rewrite lenZ_app, slots_app, lenZ_cons. f_equal; lia. }
  rewrite Hgo. f_equal; lia.
Qed.

(** ** Groups *)

(** A group has a place for the input of each child, and knows where it is a
    child itself. *)
Definition group_placed (gs : list group) (g : group) : Prop :=
  length (cs_child_inputs (gr_state g)) = length (cp_children (gr_parser g))
  ∧ ∀ j, gr_parent g = Some j → ∃ pg, gs !! j = Some pg ∧ cp_children (gr_parser pg) !! gr_parent_index g = Some (gr_parser g).

Definition earlier (i : nat) (g : group) : Prop := ∀ j, gr_parent g = Some j → (j < i)%nat.

Definition placed (gs : list group) : Prop := ∀ i g, gs !! i = Some g → group_placed gs g ∧ earlier i g.

Lemma placed_extend gs g :
  placed gs → group_placed gs g → earlier (length gs) g → placed (gs ++ [g]).
Proof.
  intros Hp Hg He i g' Hi.
  assert (∀ h, group_placed gs h → group_placed (gs ++ [g]) h) as Hext.
  { intros h [Hl Hpar]. split; [done |]. intros j Hj. destruct (Hpar j Hj) as (pg & Hpg & Hc). exists pg. split; [| done].
    by apply lookup_app_l_Some. }
  apply lookup_app_Some in Hi as [Hi | [Hle Hi]].
  - destruct (Hp i g' Hi) as [Hpl Hea]. split; [by apply Hext | done].
  - apply list_lookup_singleton_Some in Hi as [Hz <-]. split; [by apply Hext |]. intros j Hj. specialize (He j Hj). lia.
Qed.

Definition has_parent (g : group) : Prop := is_Some (gr_parent g).

(** A group for the parser itself, then those of its descendants. *)
Definition family (p : parser) (parent : option nat) (new : list group) : Prop :=
  gr_parser <$> new = nodes p ∧ ∃ me rest, new = me :: rest ∧ gr_parent me = parent ∧ Forall has_parent rest.

Lemma convert_options_spec p :
  ∀ parent pi gs, placed gs →
  (∀ j, parent = Some j → ∃ pg, gs !! j = Some pg ∧ cp_children (gr_parser pg) !! pi = Some p) →
  ∃ new, convert_options p parent pi gs = gs ++ new ∧ placed (gs ++ new) ∧ family p parent new.
Proof.
  induction p as [p IH] using config_parser_induction. intros parent pi gs Hp Hpar. unfold family. rewrite nodes_unfold.
  destruct p as [o h children]. cbn [convert_options cp_children] in *.
  set (me := mk_group (mk_config_parser o h children) parent pi (mk_config_state None (replicate (length children) None))).
  assert (placed (gs ++ [me])) as Hme.
  { apply placed_extend; [done | split; [simpl; by rewrite length_replicate | exact Hpar] |]. intros j Hj. destruct (Hpar j Hj) as (pg & Hpg & _).
    by eapply lookup_lt_Some. }
  (* the children from the i-th on *)
  assert (∀ done todo new i, children = done ++ todo → i = length done → placed (gs ++ me :: new) → Forall
      (λ p, ∀ parent pi gs, placed gs → (∀ j, parent = Some j → ∃ pg, gs !! j = Some pg ∧ cp_children (gr_parser pg) !! pi = Some p) →
        ∃ new, convert_options p parent pi gs = gs ++ new ∧ placed (gs ++ new) ∧ family p parent new) todo →
    ∃ new', (fix go (children : list parser) (i : nat) (groups : list group) {struct children} : list group :=
       match children with
       | [] => groups
       | c :: children => go children (S i) (convert_options c (Some (length gs)) i groups)
       end) todo i (gs ++ me :: new) = gs ++ me :: new ++ new' ∧ placed (gs ++ me :: new ++ new') ∧ gr_parser <$> new' = concat (nodes <$> todo) ∧ Forall has_parent new') as Hgo.
  { intros done' todo. revert done'. induction todo as [| c cs IHc]; intros done' new i Hch Hi Hpl HF.
    { exists []. rewrite app_nil_r. by split_and!. }
    apply Forall_cons in HF as [Hc HF]. destruct (Hc (Some (length gs)) i (gs ++ me :: new) Hpl) as (new1 & -> & Hpl1 & Hn1 & me1 & rest1 & Hnew1 & Hpar1 & Hrest1).
    { intros j [= <-]. exists me. split; [by apply list_lookup_middle |]. simpl. rewrite Hch, Hi. by apply list_lookup_middle. }
    rewrite <- app_assoc in Hpl1 |- *. cbn [app] in Hpl1 |- *.
    destruct (IHc (done' ++ [c]) (new ++ new1) (S i)) as (new2 & -> & Hpl2 & Hn2 & Hp2); [by rewrite <- app_assoc | rewrite length_app; simpl; lia | done | done |].
    exists (new1 ++ new2). rewrite <- app_assoc in Hpl2 |- *. split; [done |]. split; [done |].
    split; [by rewrite fmap_app, Hn1, Hn2, fmap_cons |]. apply Forall_app. split; [| done]. subst new1. constructor; [unfold has_parent; by rewrite Hpar1 | done]. }
  destruct (Hgo [] children [] 0%nat eq_refl eq_refl Hme IH) as (new & Hrun & Hpl & Hn & Hpn). exists (me :: new). split; [exact Hrun |].
  split; [done |]. split; [by rewrite fmap_cons, Hn | by exists me, new].
Qed.

(** ** The contract of the handlers *)

(** [good] holds of the objects, [fits p input] if the input is one the handler
    of [p] can work on. *)
Context (good : store → Prop) (fits : parser → option ptr → Prop).

Record parser_contract (p : parser) : Prop := {
  (** The inputs of the children are set up. *)
  pc_init cs st :
    good st → fits p (cs_input cs) → length (cs_child_inputs cs) = length (cp_children p) →
    returns (cp_handler p CONFIG_PARSE_KEY_INIT 0 None cs st)
      (λ '(cs', st', _), good st' ∧ cs_input cs' = cs_input cs ∧ Forall2 fits (cp_children p) (cs_child_inputs cs'));
  pc_end cs st :
    good st → fits p (cs_input cs) →
    returns (cp_handler p CONFIG_PARSE_KEY_END 0 None cs st) (λ '(cs', st', _), good st' ∧ cs' = cs);
  pc_option o value data cs st :
    o ∈ cp_options p → good st → fits p (cs_input cs) → option_input o value data →
    returns (cp_handler p (co_key o) value data cs st) (λ '(cs', st', _), good st' ∧ cs' = cs);
  (** Numbers are not implemented. *)
  pc_types : Forall (λ o, co_type o ≠ CONFIG_TYPE_NUMBER) (cp_options p);
  pc_examples : Forall example_ok (cp_options p);
}.

Definition parsers_ok (p : parser) : Prop := Forall parser_contract (nodes p).

(** A group that is set up. *)
Definition group_ready (g : group) : Prop :=
  parser_contract (gr_parser g) ∧ fits (gr_parser g) (cs_input (gr_state g)).

Definition ready (gs : list group) : Prop := Forall group_ready gs.

Lemma group_at_lookup gs i (g : group) : gs !! i = Some g → group_at gs i = Ok g.
Proof. intros Hi. apply rd_lookup. split; [lia |]. by rewrite Nat2Z.id. Qed.

(** *** Setting up *)

(** The first [n] groups are set up, and have inputs for their children. *)
Definition set_up (n : nat) (gs : list group) : Prop :=
  placed gs ∧ Forall (λ g, parser_contract (gr_parser g)) gs
  ∧ ∀ i g, gs !! i = Some g → (i < n)%nat → fits (gr_parser g) (cs_input (gr_state g)) ∧ Forall2 fits (cp_children (gr_parser g)) (cs_child_inputs (gr_state g)).

Lemma set_state_lookup (gs : list group) i s k g :
  set_state gs i s !! k = Some g → ∃ g0, gs !! k = Some g0 ∧ gr_parser g = gr_parser g0 ∧ gr_parent g = gr_parent g0
    ∧ gr_parent_index g = gr_parent_index g0 ∧ gr_state g = if decide (k = i) then s else gr_state g0.
Proof.
  unfold set_state. destruct (decide (k = i)) as [-> | Hne].
  - rewrite list_lookup_alter_eq, fmap_Some. intros (g0 & Hg0 & ->). exists g0. by split_and!.
  - rewrite list_lookup_alter_ne by done. intros Hg. exists g. by split_and!.
Qed.

Lemma set_state_lookup_2 (gs : list group) i s k g0 :
  gs !! k = Some g0 → ∃ g, set_state gs i s !! k = Some g ∧ gr_parser g = gr_parser g0.
Proof.
  intros Hg0. unfold set_state. destruct (decide (k = i)) as [-> | Hne].
  - rewrite list_lookup_alter_eq, Hg0. by eexists.
  - rewrite list_lookup_alter_ne by done. by exists g0.
Qed.

Lemma set_state_placed gs i s g :
  placed gs → gs !! i = Some g → length (cs_child_inputs s) = length (cp_children (gr_parser g)) → placed (set_state gs i s).
Proof.
  intros Hp Hi Hl k g' Hk. destruct (set_state_lookup _ _ _ _ _ Hk) as (g0 & Hg0 & Hpa & Hpr & Hix & Hst). destruct (Hp k g0 Hg0) as [[Hlen Hpar] Hea].
  unfold group_placed, earlier. rewrite Hpr, Hpa, Hix, Hst. split; [| exact Hea]. split; [case_decide; [subst; simplify_eq | done]; done |].
  intros j Hj. destruct (Hpar j Hj) as (pg & Hpg & Hch). destruct (set_state_lookup_2 gs i s j pg Hpg) as (pg' & Hpg' & Heq).
  exists pg'. by rewrite Heq.
Qed.

Lemma set_state_contracts gs i s :
  Forall (λ g : group, parser_contract (gr_parser g)) gs → Forall (λ g : group, parser_contract (gr_parser g)) (set_state gs i s).
Proof.
  rewrite !Forall_lookup. intros Hf k g Hk. destruct (set_state_lookup _ _ _ _ _ Hk) as (g0 & Hg0 & -> & _). by eapply Hf.
Qed.

Lemma length_set_state (gs : list group) i s : length (set_state gs i s) = length gs.
Proof. apply length_alter. Qed.

Lemma set_state_same (gs : list group) i g : gs !! i = Some g → set_state gs i (gr_state g) = gs.
Proof.
  intros Hi. apply list_eq. intros k. unfold set_state. destruct (decide (k = i)) as [-> | Hne].
  - rewrite list_lookup_alter_eq, Hi. by destruct g.
  - by rewrite list_lookup_alter_ne.
Qed.

(** The same parsers in the same places. *)
Definition kept (gs gs' : list group) : Prop :=
  ∀ k h, gs' !! k = Some h → ∃ h0, gs !! k = Some h0 ∧ gr_parser h = gr_parser h0 ∧ gr_parent h = gr_parent h0.

Lemma kept_trans gs gs1 gs2 : kept gs gs1 → kept gs1 gs2 → kept gs gs2.
Proof.
  intros H1 H2 k h Hk. destruct (H2 k h Hk) as (h1 & Hk1 & -> & ->). destruct (H1 k h1 Hk1) as (h0 & Hk0 & -> & ->). by exists h0.
Qed.

(** One group more. *)
Lemma init_group_ok gs st i g :
  set_up i gs → gs !! i = Some g → good st → (i = 0%nat → fits (gr_parser g) (cs_input (gr_state g))) → (i ≠ 0%nat → is_Some (gr_parent g)) →
  ∃ gs' st' err, (groups ← inherit_input gs i; call_handler groups st i CONFIG_PARSE_KEY_INIT 0 None) = Ok (gs', st', err)
    ∧ set_up (S i) gs' ∧ good st' ∧ length gs' = length gs ∧ kept gs gs'.
Proof.
  intros (Hpl & Hct & Hup) Hi Hst Hroot Hchild. destruct (Hpl i g Hi) as [[Hlen Hpar] Hea].
  assert (∃ input gs1, inherit_input gs i = Ok gs1 ∧ gs1 = set_state gs i (mk_config_state input (cs_child_inputs (gr_state g)))
    ∧ fits (gr_parser g) input) as (input & gs1 & -> & -> & Hfit).
  { unfold inherit_input. rewrite (group_at_lookup _ _ _ Hi), bind_ok_l. destruct (gr_parent g) as [j |] eqn:Hj.
    - destruct (Hpar j eq_refl) as (pg & Hpg & Hch). rewrite (group_at_lookup _ _ _ Hpg), bind_ok_l.
      destruct (Hup j pg Hpg (Hea j Hj)) as [_ Hfs]. destruct (Forall2_lookup_l _ _ _ _ _ Hfs Hch) as (input & Hin & Hfit).
      rewrite (proj2 (rd_lookup _ _ input)), bind_ok_l by (split; [lia | by rewrite Nat2Z.id]). by eexists _, _.
    - destruct (decide (i = 0%nat)) as [Hz | Hnz]; [| by destruct (Hchild Hnz)]. exists (cs_input (gr_state g)), gs. split; [done |]. split; [| by apply Hroot].
      replace (mk_config_state (cs_input (gr_state g)) (cs_child_inputs (gr_state g))) with (gr_state g) by by destruct (gr_state g).
      by rewrite set_state_same. }
  rewrite bind_ok_l. set (cs := mk_config_state input (cs_child_inputs (gr_state g))). unfold call_handler.
  destruct (set_state_lookup_2 gs i cs i g Hi) as (g1 & Hg1 & Hp1). rewrite (group_at_lookup _ _ _ Hg1), bind_ok_l.
  destruct (set_state_lookup _ _ _ _ _ Hg1) as (g0 & Hg0 & _ & _ & _ & Hs1). rewrite decide_True in Hs1 by done. rewrite Hp1, Hs1.
  pose proof (Forall_lookup_1 _ _ _ _ Hct Hi) as Hc. destruct (pc_init _ Hc cs st Hst Hfit Hlen) as ([[cs' st'] err] & -> & Hst' & Hin & Hkids).
  rewrite bind_ok_l. eexists _, st', err. split; [done |].
  assert (length (cs_child_inputs cs') = length (cp_children (gr_parser g))) as Hlen' by (symmetry; by eapply Forall2_length).
  assert (placed (set_state gs i cs)) as Hpl1 by (eapply set_state_placed; [done | exact Hi | exact Hlen]).
  split; [| split; [done | split; [by rewrite !length_set_state |]]].
  - split; [eapply set_state_placed; [done | exact Hg1 | by rewrite Hp1] |]. split; [by do 2 apply set_state_contracts |].
    intros k h Hk Hlt. destruct (set_state_lookup _ _ _ _ _ Hk) as (h1 & Hh1 & -> & _ & _ & ->).
    destruct (decide (k = i)) as [-> | Hne].
    + rewrite Hg1 in Hh1. injection Hh1 as <-. rewrite Hp1, Hin. by split.
    + destruct (set_state_lookup _ _ _ _ _ Hh1) as (h0 & Hh0 & -> & _ & _ & ->). rewrite decide_False by done. apply (Hup k h0 Hh0). lia.
  - intros k h Hk. destruct (set_state_lookup _ _ _ _ _ Hk) as (h1 & Hh1 & -> & -> & _). destruct (set_state_lookup _ _ _ _ _ Hh1) as (h0 & Hh0 & -> & -> & _).
    by exists h0.
Qed.

Definition one_root (gs : list group) : Prop := ∀ i g, gs !! i = Some g → i ≠ 0%nat → is_Some (gr_parent g).

Lemma init_groups_ok n : ∀ i gs st,
  set_up i gs → one_root gs → good st → length gs = (i + n)%nat →
  (i = 0%nat → ∀ g, gs !! 0%nat = Some g → fits (gr_parser g) (cs_input (gr_state g))) →
  ∃ gs' st' err, init_groups (seq i n) gs st = Ok (gs', st', err) ∧ good st' ∧ (err = 0 → ready gs' ∧ kept gs gs' ∧ length gs' = length gs).
Proof.
  induction n as [| n IH]; intros i gs st Hup Hone Hst Hlen Hroot; cbn [seq init_groups].
  - exists gs, st, 0. split; [done |]. split; [done |]. intros _. split; [| split; [by intros k h Hk; exists h | done]]. destruct Hup as (_ & Hct & Hup). apply Forall_lookup. intros k g Hk.
    split; [by eapply (Forall_lookup_1 _ _ _ _ Hct) | apply (Hup k g Hk)]. apply lookup_lt_Some in Hk. lia.
  - destruct (lookup_lt_is_Some_2 gs i) as [g Hi]; [lia |].
    destruct (init_group_ok gs st i g Hup Hi Hst) as (gs1 & st1 & err & Hrun & Hup1 & Hst1 & Hlen1 & Hpar).
    { intros ->. by apply Hroot. } { by apply Hone. }
    destruct (inherit_input gs i) as [gs0 |]; [| done]. rewrite bind_ok_l in Hrun |- *. rewrite Hrun, bind_ok_l.
    destruct (negb (err =? 0) && negb (err =? EINVAL)) eqn:Herr.
    { exists gs1, st1, err. split; [done |]. split; [done |]. intros ->. done. }
    destruct (IH (S i) gs1 st1) as (gs2 & st2 & err2 & -> & Hst2 & Hr2); [done | | done | lia | lia |].
    { intros k h Hk Hk0. destruct (Hpar k h Hk) as (h0 & Hh0 & _ & ->). by eapply Hone. }
    exists gs2, st2, err2. split; [done |]. split; [done |]. intros He. destruct (Hr2 He) as (Hr & Hk & Hl).
    split; [done |]. split; [by eapply kept_trans | lia].
Qed.

(** *** Calls *)

Lemma call_end_ok gs st i :
  ready gs → (i < length gs)%nat → good st →
  ∃ st' err, call_handler gs st i CONFIG_PARSE_KEY_END 0 None = Ok (gs, st', err) ∧ good st'.
Proof.
  intros Hr Hi Hst. destruct (lookup_lt_is_Some_2 gs i Hi) as [g Hg]. destruct (Forall_lookup_1 _ _ _ _ Hr Hg) as [Hc Hfit].
  unfold call_handler. rewrite (group_at_lookup _ _ _ Hg), bind_ok_l. destruct (pc_end _ Hc (gr_state g) st Hst Hfit) as ([[cs' st'] err] & -> & Hst' & ->).
  rewrite bind_ok_l, set_state_same by done. by exists st', err.
Qed.

Lemma call_option_ok gs st i g o value data :
  ready gs → gs !! i = Some g → good st → o ∈ cp_options (gr_parser g) → option_input o value data →
  ∃ st' err, call_handler gs st i (co_key o) value data = Ok (gs, st', err) ∧ good st'.
Proof.
  intros Hr Hg Hst Ho Hin. destruct (Forall_lookup_1 _ _ _ _ Hr Hg) as [Hc Hfit].
  unfold call_handler. rewrite (group_at_lookup _ _ _ Hg), bind_ok_l.
  destruct (pc_option _ Hc o value data (gr_state g) st Ho Hst Hfit Hin) as ([[cs' st'] err] & -> & Hst' & ->).
  rewrite bind_ok_l, set_state_same by done. by exists st', err.
Qed.

(** The handler of this parser was called last, for the end. *)
Definition ended (p : parser) (st' : store) : Prop :=
  ∃ st cs cs' err, good st ∧ fits p (cs_input cs) ∧ cp_handler p CONFIG_PARSE_KEY_END 0 None cs st = Ok (cs', st', err).

Lemma call_end_ended gs st g :
  ready gs → gs !! 0%nat = Some g → good st →
  ∃ st' err, call_handler gs st 0 CONFIG_PARSE_KEY_END 0 None = Ok (gs, st', err) ∧ good st' ∧ ended (gr_parser g) st'.
Proof.
  intros Hr Hg Hst. destruct (Forall_lookup_1 _ _ _ _ Hr Hg) as [Hc Hfit].
  unfold call_handler. rewrite (group_at_lookup _ _ _ Hg), bind_ok_l. destruct (pc_end _ Hc (gr_state g) st Hst Hfit) as ([[cs' st'] err] & Hrun & Hst' & ->).
  rewrite Hrun, bind_ok_l, set_state_same by done. exists st', err. split; [done |]. split; [done |]. by exists st, (gr_state g), (gr_state g), err.
Qed.

Lemma parser_finalize_ok gs st g :
  ready gs → gs !! 0%nat = Some g → good st → ∃ st', parser_finalize gs st = Ok st' ∧ good st' ∧ ended (gr_parser g) st'.
Proof.
  intros Hr Hg Hst. unfold parser_finalize. destruct gs as [| g0 gs]; [done |]. cbn [length seq]. rewrite reverse_cons.
  assert (Forall (λ i, (i < length (g0 :: gs))%nat) (reverse (seq 1 (length gs)))) as Hall.
  { apply Forall_reverse, Forall_seq. simpl. lia. }
  revert st Hst. induction Hall as [| i todo Hi Hall IH]; intros st Hst; cbn [app end_groups].
  - destruct (call_end_ended _ st g Hr Hg Hst) as (st1 & err & -> & Hst1 & He). by exists st1.
  - destruct (call_end_ok _ st i Hr Hi Hst) as (st1 & err & -> & Hst1). rewrite bind_ok_l. by apply IH.
Qed.

(** ** Values *)

Lemma reads_bytes t l : reads t l → Forall is_byte l.
Proof. intros [[Hw _] <-]. by apply remaining_bytes. Qed.

Lemma lexes_bytes l t r : lexes l t r → Forall is_byte l → Forall is_byte (token_word t) ∧ Forall is_byte r.
Proof.
  induction 1 as [| c l t r _ _ IH | s l t r _ _ _ IH | l | l | l | c w r]; intros Hb.
  - done.
  - apply IH. by apply Forall_cons in Hb as [_ ?].
  - apply IH. apply Forall_cons in Hb as [_ Hb]. by apply Forall_app in Hb as [_ ?].
  - split; [apply (cstr_bytes "{") | by apply Forall_cons in Hb as [_ ?]].
  - split; [apply (cstr_bytes "}") | by apply Forall_cons in Hb as [_ ?]].
  - split; [apply (cstr_bytes "=") | by apply Forall_cons in Hb as [_ ?]].
  - rewrite app_comm_cons in Hb. by apply Forall_app in Hb.
Qed.

(** The words of a sequence of tokens take at most twice the octets of it. *)
Lemma seq_octets l ts r :
  lexes_seq l ts r → Forall (λ t, t ≠ Eof) ts → Forall is_byte l → lenZ l < 2 ^ 28 →
  Forall small_word (token_word <$> ts) ∧ Forall is_byte r ∧ lenZ (item_octets (token_word <$> ts)) + 2 * lenZ r <= 2 * lenZ l.
Proof.
  induction 1 as [l | l t m ts r Hl Hseq IH]; intros Hne Hb Hsm.
  - split; [constructor |]. split; [done |]. change (lenZ (item_octets (token_word <$> []))) with 0. lia.
  - apply Forall_cons in Hne as [Ht Hne]. destruct (lexes_bytes _ _ _ Hl Hb) as [Hbt Hbm]. pose proof (lexes_length _ _ _ Hl) as Hlen0.
    pose proof (lenZ_nonneg m). pose proof (lenZ_nonneg (token_word t)). destruct (IH Hne Hbm) as (Hws & Hbr & Hlen); [lia |].
    rewrite fmap_cons. split; [constructor; [split; [done | lia] | done] |]. split; [done |]. rewrite lenZ_item_octets_cons.
    pose proof (lexes_length _ _ _ Hl). destruct (lexes_progress _ _ _ Hl) as [_ [? | ?]]; [done |]. lia.
Qed.

Lemma nesting_no_eof level ts n : nesting_after level ts = Some n → Forall (λ t, t ≠ Eof) ts.
Proof.
  revert level. induction ts as [| t ts IH]; intros level; simpl; [constructor |]. destruct (level_after level t) as [level' |] eqn:Hl; [| done].
  intros Hn. constructor; [by intros -> | by eapply IH].
Qed.

Lemma value_list_words l name ts r :
  is_value_list l name ts r → Forall is_byte l → lenZ l < 2 ^ 28 →
  Forall small_word (name :: (token_word <$> ts)) ∧ lenZ (item_octets (name :: (token_word <$> ts))) <= 2 * lenZ l.
Proof.
  intros (m & Hm & Hseq & Hn) Hb Hsm. destruct (seq_octets _ _ _ Hm) as (Hw1 & Hbm & Hl1); [by repeat constructor | done | done |].
  pose proof (lenZ_nonneg (item_octets (token_word <$> [Word name; Equal; Begin]))).
  apply seq_prefix in Hseq as (m2 & Hseq & _). destruct (seq_octets _ _ _ Hseq (nesting_no_eof _ _ _ Hn) Hbm ltac:(lia)) as (Hw2 & _ & Hl2).
  rewrite !fmap_cons in Hw1. apply Forall_cons in Hw1 as [Hname _]. split; [by constructor |].
  rewrite !fmap_cons, !lenZ_item_octets_cons in Hl1. rewrite lenZ_item_octets_cons. cbn [token_word] in Hl1. pose proof (lenZ_nonneg m2).
  pose proof (lenZ_nonneg (cstr "=")). pose proof (lenZ_nonneg (cstr "{")). pose proof (lenZ_nonneg (item_octets (token_word <$> []))). lia.
Qed.

(** What reading a value may come to. *)
Definition value_read (o : config_option) (l : list Z) (t' : config_tokenizer) (r : Z + Z * option (list Z)) : Prop :=
  (∃ m, reads t' m ∧ m `suffix_of` l) ∧ match r with inl err => err ≠ 0 | inr (value, data) => option_input o value data end.

Lemma simple_value_ok o arg :
  co_type o ≠ CONFIG_TYPE_NUMBER → small_word arg →
  ∃ r, parse_simple_value o arg = Ok r ∧ match r with inl err => err ≠ 0 | inr (value, data) => option_input o value data end.
Proof.
  intros Hty Hb. unfold parse_simple_value, option_input, parse_value_bool. destruct (co_type o); try done.
  - destruct (bool_decide (arg = cstr "no")); [eexists; split; [done |]; simpl; auto |].
    destruct (bool_decide (arg = cstr "yes")); eexists; (split; [done |]); simpl; auto.
  - eexists. split; [done |]. by exists arg.
  - by eexists.
Qed.

Lemma check_ok t l r : reads t l → check_value t r = Ok (t, r).
Proof. intros Hrd. destruct r; [simpl; by rewrite (reads_message _ _ Hrd) | done]. Qed.

Lemma word_value_ok o t l :
  reads t l → lenZ l < 2 ^ 28 → co_type o ≠ CONFIG_TYPE_NUMBER →
  ∃ t' r, parse_word_value o t = Ok (t', r) ∧ value_read o l t' r.
Proof.
  intros Hrd Hsm Hty. unfold parse_word_value. destruct (next_of_list t l [] l Hrd) as (t1 & tok1 & m1 & -> & Hrd1 & Hq1 & Hs1 & _); [constructor | done |]. rewrite bind_ok_l.
  destruct (negb (bool_decide (token_type tok1 = TOK_EQUAL))).
  { rewrite (reads_message _ _ Hrd1), bind_ok_l. eexists _, _. split; [done |]. split; [by exists m1 | done]. }
  destruct (tokenizer_next t1 m1 Hrd1) as (t2 & tok2 & m2 & -> & Hrd2 & Hl2 & Hat2). rewrite bind_ok_l.
  destruct (lexes_progress _ _ _ Hl2) as [Hs2 _]. assert (∃ m, reads t2 m ∧ m `suffix_of` l) as Hsuf by (exists m2; split; [done | by transitivity m1]).
  destruct (bool_decide_reflect (token_type tok2 = TOK_STRING)) as [Hty2 | Hty2]; cbn [negb]; [| rewrite (reads_message _ _ Hrd2), bind_ok_l; eexists _, _; split; [done |]; by split].
  destruct tok2 as [| | | | w]; try done. rewrite (token_text_at _ _ Hat2), bind_ok_l.
  destruct (lexes_bytes _ _ _ Hl2 (reads_bytes _ _ Hrd1)) as [Hbw _]. destruct (simple_value_ok o w Hty) as (r & -> & Hr).
  { split; [done |]. pose proof (lexes_length _ _ _ Hl2) as Hlen. destruct Hs1 as [k ->]. rewrite lenZ_app in Hsm. cbn [token_word] in Hlen.
    pose proof (lenZ_nonneg k). pose proof (lenZ_nonneg m2). lia. }
  rewrite bind_ok_l. exists t2, r. split; [by eapply check_ok | done].
Qed.

Lemma list_value_ok o t l :
  reads t l → lenZ l < 2 ^ 28 → co_type o = CONFIG_TYPE_LIST →
  ∃ t' x err, parse_value_list t = Ok (t', x, err)
    ∧ value_read o l t' (if err =? 0 then inr (tx_length x, Some (tx_list x)) else inl err).
Proof.
  intros Hrd Hl Hty. destruct (parse_value_list_spec t l Hrd Hl) as (t' & x & err & Hrun & r & Hr & Hs & Hcase). exists t', x, err. split; [done |].
  split; [by exists r |]. destruct Hcase as [(-> & name & ts & Hv & Hh) | [-> _]]; [| done]. simpl. unfold option_input. rewrite Hty.
  destruct (value_list_words _ _ _ _ Hv (reads_bytes _ _ Hrd) Hl) as [Hb Hlen]. eexists x, _. split; [done |]. split; [done |]. split; [exact Hh |].
  split; [done |]. split; [done | lia].
Qed.

Lemma parse_option_value_ok o t l :
  reads t l → lenZ l < 2 ^ 28 → co_type o ≠ CONFIG_TYPE_NUMBER →
  ∃ t' r, parse_option_value o t = Ok (t', r) ∧ value_read o l t' r.
Proof.
  intros Hrd Hl Hty. unfold parse_option_value. destruct (co_type o) eqn:Ho; try (by apply word_value_ok; rewrite ?Ho). 
  destruct (list_value_ok o t l Hrd Hl Ho) as (t' & x & err & -> & Hv). rewrite bind_ok_l. destruct Hv as [(m & Hrd' & Hs) Hv]. eexists _, _.
  split; [by eapply check_ok | split; [by exists m | done]].
Qed.

(** ** Options *)

Lemma find_option_ok t w options :
  at_token t (Word w) → ∃ r, find_option t options = Ok r ∧ ∀ o, r = Some o → o ∈ options ∧ co_name o = w.
Proof.
  intros Hat. induction options as [| o options IH]; cbn [find_option]; [by exists None |].
  rewrite (looking_at_word _ _ _ Hat), bind_ok_l. destruct (bool_decide_reflect (w = co_name o)) as [-> | Hne].
  - exists (Some o). split; [done |]. intros o' [= <-]. split; [left | done].
  - destruct IH as (r & -> & Hr). exists r. split; [done |]. intros o' Ho. destruct (Hr o' Ho). split; [by right | done].
Qed.

Lemma find_group_ok t w (gs : list group) i :
  at_token t (Word w) →
  ∃ r, find_group t i gs = Ok r ∧ ∀ k o, r = Some (k, o) → ∃ j g, k = (i + j)%nat ∧ gs !! j = Some g ∧ o ∈ cp_options (gr_parser g).
Proof.
  intros Hat. revert i. induction gs as [| g gs IH]; intros i; cbn [find_group]; [by exists None |].
  destruct (find_option_ok t w (cp_options (gr_parser g)) Hat) as (r & -> & Hr). rewrite bind_ok_l. destruct r as [o |].
  - exists (Some (i, o)). split; [done |]. intros k o' [= <- <-]. exists 0%nat, g. split; [lia |]. split; [done |]. by apply Hr.
  - destruct (IH (S i)) as (r & -> & Hr'). exists r. split; [done |]. intros k o Hk. destruct (Hr' k o Hk) as (j & g' & -> & Hj & Ho).
    exists (S j), g'. split; [lia |]. by split.
Qed.

Lemma parser_parse_option_ok gs st t l w :
  ready gs → good st → reads t l → lenZ l < 2 ^ 28 → at_token t (Word w) →
  ∃ t' m st' err, parser_parse_option gs st t = Ok (t', gs, st', err) ∧ good st' ∧ reads t' m ∧ m `suffix_of` l.
Proof.
  intros Hr Hst Hrd Hl Hat. unfold parser_parse_option. destruct (find_group_ok t w gs 0 Hat) as (found & -> & Hfound). rewrite bind_ok_l.
  destruct found as [[i o] |]; [| rewrite (reads_message _ _ Hrd), bind_ok_l; by exists t, l, st, EINVAL]. destruct (Hfound i o eq_refl) as (j & g & -> & Hg & Ho). cbn [Nat.add].
  destruct (Forall_lookup_1 _ _ _ _ Hr Hg) as [Hc _]. pose proof (pc_types _ Hc) as Hty. rewrite Forall_forall in Hty. specialize (Hty o Ho).
  destruct (parse_option_value_ok o t l Hrd Hl Hty) as (t1 & r & -> & (m1 & Hrd1 & Hs1) & Hv). rewrite bind_ok_l.
  destruct r as [err | [value data]]; [by exists t1, m1, st, err |].
  destruct (eolp_reads t1 m1 Hrd1) as (t2 & ok & m2 & -> & Hrd2 & Hs2). rewrite bind_ok_l.
  assert ((if ok then Ok () else config_tokenizer_error t2) = Ok ()) as -> by (destruct ok; [done | exact (reads_message _ _ Hrd2)]). rewrite bind_ok_l.
  destruct (call_option_ok gs st j g o value data Hr Hg Hst Ho Hv) as (st' & err & -> & Hst'). rewrite bind_ok_l.
  exists t2, m2, st', err. split; [done |]. split; [done |]. split; [done | by transitivity m1].
Qed.

Lemma suffix_lenZ (s l : list Z) : s `suffix_of` l → lenZ s <= lenZ l.
Proof. intros [k ->]. rewrite lenZ_app. pose proof (lenZ_nonneg k). lia. Qed.

Lemma parse_options_ok fuel gs : ∀ st t l,
  ready gs → good st → reads t l → lenZ l < 2 ^ 28 → lenZ l <= Z.of_nat fuel →
  ∃ st' err, parse_options fuel gs st t = Ok (gs, st', err) ∧ good st'.
Proof.
  induction fuel as [| fuel IH]; intros st t l Hr Hst Hrd Hl Hf; cbn [parse_options];
    (destruct (tokenizer_next t l Hrd) as (t1 & tok & m & -> & Hrd1 & Hlex & Hat); rewrite bind_ok_l;
     destruct (lexes_progress _ _ _ Hlex) as [Hs Hprog]; pose proof (lenZ_nonneg m);
     destruct tok as [| | | | w]; cbn [token_type]; try (by exists st, EINVAL); [by exists st, 0 |];
     destruct Hprog as [? | Hprog]; [done |]; try lia).
  destruct (parser_parse_option_ok gs st t1 m w Hr Hst Hrd1) as (t2 & m2 & st2 & err & -> & Hst2 & Hrd2 & Hs2); [lia | done |].
  rewrite bind_ok_l. destruct (err =? 0); [| by exists st2, err]. apply suffix_lenZ in Hs2. apply (IH st2 t2 m2); done || lia.
Qed.

(** ** The whole file *)

Lemma input_slots_spec (gs : list group) : placed gs → input_slots gs = slots (gr_parser <$> gs).
Proof.
  intros Hp. assert (Forall (λ g, length (cs_child_inputs (gr_state g)) = length (cp_children (gr_parser g))) gs) as Hall.
  { apply Forall_lookup. intros i g Hi. apply (Hp i g Hi). }
  clear Hp. induction Hall as [| g gs Hg Hall IH]; [done |]. rewrite fmap_cons. cbn [input_slots slots foldr]. fold (input_slots gs) (slots (gr_parser <$> gs)).
  rewrite IH. unfold lenZ. lia.
Qed.

Lemma parser_init_ok p input st :
  parsers_ok p → fits p input → good st →
  ∃ gs st' err, parser_init p input st = Ok (gs, st', err) ∧ good st'
    ∧ (err = 0 → ready gs ∧ ∃ g, gs !! 0%nat = Some g ∧ gr_parser g = p).
Proof.
  intros Hok Hfit Hst. unfold parser_init. rewrite calc_sizes_spec.
  destruct (convert_options_spec p None 0 []) as (gs & -> & Hpl & Hnodes & me & rest & -> & Hroot & Hrest); [by intros i g | done |].
  cbn [app] in Hpl |- *. assert (lenZ (nodes p) = lenZ (me :: rest)) as Hnum by (rewrite <- Hnodes; apply lenZ_fmap).
  pose proof (input_slots_spec _ Hpl) as Hslots. rewrite Hnodes in Hslots. rewrite <- Hnum, <- Hslots, !Z.add_0_l, !Z.eqb_refl. cbn [c_assert].
  rewrite !bind_ok_l.
  rewrite (group_at_lookup (me :: rest) 0 me), bind_ok_l by done.
  assert (gr_parser me = p) as Hme.
  { rewrite nodes_unfold, fmap_cons in Hnodes. by injection Hnodes. }
  destruct (Hpl 0%nat me eq_refl) as [[Hlen _] _].
  set (gs0 := set_state _ 0 _).
  assert (length gs0 = length (me :: rest)) as Hlen0 by apply length_set_state.
  assert (∃ gs st' err, init_groups (seq 0 (length gs0)) gs0 st = Ok (gs, st', err) ∧ good st'
    ∧ (err = 0 → ready gs ∧ kept gs0 gs ∧ length gs = length gs0)) as (gs & st' & err & -> & Hst' & Hr).
  2: { exists gs, st', err. split; [done |]. split; [done |]. intros He. destruct (Hr He) as (Hr1 & Hk & Hl). split; [done |].
    destruct (lookup_lt_is_Some_2 gs 0) as [g Hg]; [rewrite Hl, Hlen0; simpl; lia |]. exists g. split; [done |].
    destruct (Hk 0%nat g Hg) as (h & Hh & -> & _). destruct (set_state_lookup _ _ _ _ _ Hh) as (h0 & Hh0 & -> & _). injection Hh0 as <-. done. }
  apply init_groups_ok.
  - split; [by eapply set_state_placed |]. split; [| lia]. apply set_state_contracts.
    unfold parsers_ok in Hok. rewrite <- Hnodes in Hok. exact (proj1 (Forall_fmap _ _ _) Hok).
  - intros i g Hi Hi0. destruct (set_state_lookup _ _ _ _ _ Hi) as (g0 & Hg0 & _ & -> & _). destruct i as [| i]; [done |].
    by eapply (Forall_lookup_1 _ _ _ _ Hrest).
  - done.
  - done.
  - intros _ g Hg. destruct (set_state_lookup _ _ _ _ _ Hg) as (g0 & Hg0 & -> & _ & _ & ->). injection Hg0 as <-. by rewrite Hme.
Qed.

Lemma server_config_parse_string_ok p file input st d :
  parsers_ok p → fits p input → good st → Forall is_byte d → lenZ d < 2 ^ 28 →
  ∃ st' err, server_config_parse_string p (Some file) (lenZ d) d input st = Ok (st', err) ∧ good st' ∧ (err = 0 → ended p st').
Proof.
  intros Hok Hfit Hst Hb Hl. unfold server_config_parse_string. destruct (parser_init_ok p input st Hok Hfit Hst) as (gs & st1 & err & -> & Hst1 & Hr).
  rewrite bind_ok_l. destruct (Z.eqb_spec err 0) as [-> | Hne]; cbn [negb]; [| by exists st1, err]. destruct (Hr eq_refl) as (Hr1 & g & Hg & <-). clear Hr.
  pose proof (tokenizer_init_reads file d Hb ltac:(lia)) as Hrd.
  destruct (parse_options_ok (loop_fuel (config_tokenizer_init (Some file) (lenZ d) d)) gs st1 _ d Hr1 Hst1 Hrd Hl) as (st2 & err & -> & Hst2); [by apply reads_fuel |].
  rewrite bind_ok_l. destruct (parser_finalize_ok gs st2 g Hr1 Hg Hst2) as (st3 & -> & Hst3 & He). by exists st3, err.
Qed.

Lemma example_value_ok o e :
  example_ok o → co_example o = Some e → ∃ value data, example_value o e = Ok (value, data) ∧ option_input o value data.
Proof.
  intros Hex He. destruct (Hex e He) as (Hb & Hl & Hty). unfold example_value, option_input, parse_simple_value, parse_value_bool.
  destruct (co_type o) eqn:Ho; try done.
  - destruct Hty as [-> | ->]; eexists _, _; (split; [vm_compute; reflexivity |]); auto.
  - eexists _, _. split; [done |]. by exists e.
  - pose proof (tokenizer_init_reads (cstr "example fragment") e Hb ltac:(lia)) as Hrd. destruct Hty as (name & ts & r & Hv).
    destruct (parse_value_list_spec _ e Hrd Hl) as (t' & x & err & -> & r' & _ & _ & [(-> & name' & ts' & Hv' & Hh) | [-> Hno]]);
      [| by destruct (Hno name ts r)].
    simpl. eexists _, _. split; [done |]. destruct (value_list_words _ _ _ _ Hv' Hb Hl) as [Hbw Hlen].
    eexists x, _. split; [done |]. split; [done |]. split; [exact Hh |]. split; [done |]. split; [done | lia].
Qed.

Lemma example_options_ok gs i g options : ∀ st err,
  ready gs → gs !! i = Some g → good st → options ⊆ cp_options (gr_parser g) →
  ∃ st' err', example_options options i gs st err = Ok (gs, st', err') ∧ good st'.
Proof.
  induction options as [| o options IH]; intros st err Hr Hg Hst Hsub; cbn [example_options]; [by exists st, err |].
  assert (o ∈ cp_options (gr_parser g)) as Ho by set_solver. assert (options ⊆ cp_options (gr_parser g)) as Hsub' by set_solver.
  destruct (co_example o) as [e |] eqn:He; [| by apply IH].
  destruct (Forall_lookup_1 _ _ _ _ Hr Hg) as [Hc _]. pose proof (pc_examples _ Hc) as Hex. rewrite Forall_forall in Hex.
  destruct (example_value_ok o e (Hex o Ho) He) as (value & data & -> & Hin). rewrite bind_ok_l.
  destruct (call_option_ok gs st i g o value data Hr Hg Hst Ho Hin) as (st1 & err1 & -> & Hst1). rewrite bind_ok_l. by apply IH.
Qed.

Lemma server_config_parse_example_ok p input st :
  parsers_ok p → fits p input → good st → ∃ st' err, server_config_parse_example p input st = Ok (st', err) ∧ good st' ∧ (err = 0 → ended p st').
Proof.
  intros Hok Hfit Hst. unfold server_config_parse_example. destruct (parser_init_ok p input st Hok Hfit Hst) as (gs & st1 & err & -> & Hst1 & Hr).
  rewrite bind_ok_l. destruct (Z.eqb_spec err 0) as [-> | Hne]; cbn [negb]; [| by exists st1, err]. destruct (Hr eq_refl) as (Hr1 & g & Hg & <-). clear Hr.
  assert (∃ st2 err, example_groups (reverse (seq 0 (length gs))) gs st1 0 = Ok (gs, st2, err) ∧ good st2) as (st2 & err & -> & Hst2).
  { generalize 0. assert (Forall (λ i, (i < length gs)%nat) (reverse (seq 0 (length gs)))) as Hall by (apply Forall_reverse, Forall_seq; lia).
    revert st1 Hst1. induction Hall as [| i todo Hi Hall IH]; intros st1 Hst1 err; cbn [example_groups]; [by exists st1, err |].
    destruct (lookup_lt_is_Some_2 gs i Hi) as [gi Hgi]. rewrite (group_at_lookup _ _ _ Hgi), bind_ok_l.
    destruct (example_options_ok gs i gi (cp_options (gr_parser gi)) st1 err Hr1 Hgi Hst1) as (st2 & err2 & -> & Hst2); [done |].
    rewrite bind_ok_l. by apply IH. }
  rewrite bind_ok_l. destruct (parser_finalize_ok gs st2 g Hr1 Hg Hst2) as (st3 & -> & Hst3 & He). by exists st3, err.
Qed.

End config.
