(* ===== verification/ServerConfigName.v ===== *)
(** * Configuration files without a name

    The name of the file is read by messages only, and it may be null.  Reading
    a file without a name goes as reading it under any name, up to the first
    message. *)

From S2P Require Import Prelude Nettle Atoms LshString Format FormatSpec Parse ParseSpec Service Tokenize ServerConfig ServerConfigSpec ServerConfigSafe.
Local Open Scope Z_scope.

(** The first run stops at a null pointer, or both runs agree. *)
Definition sim {A} (R : A → A → Prop) (r1 r2 : result A) : Prop :=
  r1 = Fault NullPointer ∨
  match r1, r2 with
  | Ok a, Ok b => R a b
  | Fault f, Fault g => f = g
  | _, _ => False
  end.

Lemma sim_refl {A} (R : A → A → Prop) r : (∀ a, R a a) → sim R r r.
Proof. intros HR. right. by destruct r. Qed.

Lemma sim_ok {A} (R : A → A → Prop) a b : R a b → sim R (Ok a) (Ok b).
Proof. by right. Qed.

Lemma sim_bind {A B} (R : A → A → Prop) (S : B → B → Prop) r1 r2 (k1 k2 : A → result B) :
  sim R r1 r2 → (∀ a b, R a b → sim S (k1 a) (k2 b)) → sim S (r1 ≫= k1) (r2 ≫= k2).
Proof.
  intros [-> | Hr] Hk; [by left |]. destruct r1 as [a | e], r2 as [b | e']; try done; [by apply Hk |]. subst. by right.
Qed.

Section names.
Context `{MallocOk} (f : list Z).

Abbreviation renamed := (with_file (Some f)).

Lemma sim_next t : sim (λ a b, b = (renamed a.1, a.2)) (config_tokenizer_next t) (config_tokenizer_next (renamed t)).
Proof. rewrite config_tokenizer_next_file. right. by destruct (config_tokenizer_next t) as [[] |]. Qed.

Lemma sim_eolp t : sim (λ a b, b = (renamed a.1, a.2)) (config_tokenizer_eolp t) (config_tokenizer_eolp (renamed t)).
Proof. rewrite config_tokenizer_eolp_file. right. by destruct (config_tokenizer_eolp t) as [[] |]. Qed.

Lemma sim_message t : sim eq (werror_at t) (werror_at (renamed t)).
Proof. unfold werror_at. destruct (ct_file t); [by right | by left]. Qed.

(** After a message. *)
Lemma sim_report {A} (R : A → A → Prop) t a b : R a b → sim R (werror_at t;; Ok a) (werror_at (renamed t);; Ok b).
Proof. intros HR. eapply sim_bind; [apply sim_message |]. intros _ _ _. by apply sim_ok. Qed.

Definition same_list (a b : config_tokenizer * text_list * Z) : Prop := b = (renamed a.1.1, a.1.2, a.2).

Lemma sim_list_loop fuel : ∀ t level x,
  sim same_list (value_list_loop fuel t level x) (value_list_loop fuel (renamed t) level x).
Proof.
  induction fuel as [| fuel IH]; intros t level x; cbn [value_list_loop]; (eapply sim_bind; [apply sim_next |]; intros [t1 ty] _ ->; cbn [fst snd];
    destruct ty; cbn -[list_append werror_at token_text with_file]; try (by apply sim_report); try (by apply sim_ok)).
  all: try (destruct (level - 1 =? 0); [by apply sim_ok |]).
  all: try (progress change (token_text (renamed t1)) with (token_text t1); eapply (sim_bind eq); [by apply sim_refl |]; intros token _ <-).
  all: eapply (sim_bind eq); [by apply sim_refl |]; intros x1 _ <-; first [apply IH | by right].
Qed.

Lemma sim_value_list t : sim same_list (parse_value_list t) (parse_value_list (renamed t)).
Proof.
  unfold parse_value_list, config_tokenizer_error. eapply sim_bind; [apply sim_next |]. intros [t1 ty] _ ->. cbn [fst snd].
  destruct (negb _); [by apply sim_ok |]. change (token_text (renamed t1)) with (token_text t1).
  eapply (sim_bind eq); [by apply sim_refl |]. intros token _ <-. eapply (sim_bind eq); [by apply sim_refl |]. intros x _ <-.
  eapply sim_bind; [apply sim_next |]. intros [t2 ty2] _ ->. cbn [fst snd]. destruct (negb _); [by apply sim_report |].
  eapply sim_bind; [apply sim_next |]. intros [t3 ty3] _ ->. cbn [fst snd]. destruct (negb _); [by apply sim_report |].
  apply sim_list_loop.
Qed.

Lemma sim_check t r : sim (λ a b, b = (renamed a.1, a.2)) (check_value t r) (check_value (renamed t) r).
Proof. destruct r as [err | v]; [by apply sim_report | by apply sim_ok]. Qed.

Lemma sim_word_value o t : sim (λ a b, b = (renamed a.1, a.2)) (parse_word_value o t) (parse_word_value o (renamed t)).
Proof.
  unfold parse_word_value. eapply sim_bind; [apply sim_next |]. intros [t1 ty] _ ->. cbn [fst snd]. destruct (negb _); [by apply sim_report |].
  eapply sim_bind; [apply sim_next |]. intros [t2 ty2] _ ->. cbn [fst snd]. destruct (negb _); [by apply sim_report |].
  change (token_text (renamed t2)) with (token_text t2). eapply (sim_bind eq); [by apply sim_refl |]. intros arg _ <-.
  eapply (sim_bind eq); [by apply sim_refl |]. intros r _ <-. apply sim_check.
Qed.

Lemma sim_option_value o t : sim (λ a b, b = (renamed a.1, a.2)) (parse_option_value o t) (parse_option_value o (renamed t)).
Proof.
  unfold parse_option_value. destruct (co_type o); try apply sim_word_value.
  eapply sim_bind; [apply sim_value_list |]. intros [[t1 x] err] _ ->. apply sim_check.
Qed.

Context {store ptr : Type}.
Implicit Types gs : list (@group store ptr).

Lemma find_option_renamed t options : find_option (renamed t) options = find_option t options.
Proof. induction options as [| o options IH]; cbn [find_option]; [done |]. by rewrite IH. Qed.

Lemma find_group_renamed t gs : ∀ i, find_group (renamed t) i gs = find_group t i gs.
Proof. induction gs as [| g gs IH]; intros i; cbn [find_group]; [done |]. by rewrite find_option_renamed, IH. Qed.

Lemma sim_parse_option gs (st : store) t :
  sim (λ a b, b = (renamed a.1.1.1, a.1.1.2, a.1.2, a.2)) (parser_parse_option gs st t) (parser_parse_option gs st (renamed t)).
Proof.
  unfold parser_parse_option, config_tokenizer_error. rewrite find_group_renamed. eapply (sim_bind eq); [by apply sim_refl |]. intros found _ <-.
  destruct found as [[i o] |]; [| by apply sim_report]. eapply sim_bind; [apply sim_option_value |]. intros [t1 r] _ ->. cbn [fst snd].
  destruct r as [err | [value data]]; [by apply sim_ok |]. eapply sim_bind; [apply sim_eolp |]. intros [t2 eol] _ ->. cbn [fst snd].
  eapply (sim_bind eq). { destruct eol; [by apply sim_refl | apply sim_message]. } intros _ _ _.
  eapply (sim_bind eq); [by apply sim_refl |]. intros [[gs' st'] err] _ <-. by apply sim_ok.
Qed.

Lemma sim_parse_options fuel : ∀ gs (st : store) t, sim eq (parse_options fuel gs st t) (parse_options fuel gs st (renamed t)).
Proof.
  induction fuel as [| fuel IH]; intros gs st t; cbn [parse_options]; (eapply sim_bind; [apply sim_next |]; intros [t1 ty] _ ->; cbn [fst snd];
    destruct ty; try (by apply sim_refl); eapply sim_bind; [apply sim_parse_option |]; intros [[[t2 gs2] st2] err] _ ->; cbn [fst snd];
    destruct (err =? 0); try (by apply sim_refl); apply IH).
Qed.

Lemma sim_parse_string (p : @config_parser store ptr) length d input st :
  sim eq (server_config_parse_string p None length d input st) (server_config_parse_string p (Some f) length d input st).
Proof.
  unfold server_config_parse_string. eapply (sim_bind eq); [by apply sim_refl |]. intros [[gs st1] err] _ <-. destruct (negb _); [by apply sim_refl |].
  eapply (sim_bind eq); [apply (sim_parse_options _ gs st1 (config_tokenizer_init None length d)) |]. intros r _ <-. by apply sim_refl.
Qed.

End names.

Section config.
Context `{MallocOk} {store ptr : Type} (good : store → Prop) (fits : @config_parser store ptr → option ptr → Prop).

(** A named file is read to an end; without a name there may be a null pointer
    instead. *)
Lemma parse_string_ends p file input st d :
  parsers_ok good fits p → fits p input → good st → Forall is_byte d → lenZ d < 2 ^ 28 →
  (∃ st' err, server_config_parse_string p file (lenZ d) d input st = Ok (st', err) ∧ good st' ∧ (err = 0 → ended good fits p st'))
  ∨ (file = None ∧ server_config_parse_string p file (lenZ d) d input st = Fault NullPointer).
Proof.
  intros Hok Hfit Hst Hb Hl. destruct file as [file |].
  - left. by apply (server_config_parse_string_ok good fits).
  - destruct (server_config_parse_string_ok good fits p [] input st d) as (st' & err & Hrun & Hst'); try done.
    destruct (sim_parse_string [] p (lenZ d) d input st) as [Hnull | Hsim]; [by right |]. left. rewrite Hrun in Hsim.
    destruct (server_config_parse_string p None _ _ _ _) as [a |]; [| done]. subst a. by exists st', err.
Qed.

End config.
