(* ===== verification/UserAuth.v ===== *)
(** * User authentication ([src/src/lshd-userauth.c])

    The service process that lshd starts for [ssh-userauth].  It reads packets
    from the socket to lshd with blocking calls, checks accounts, passwords and
    public keys, and on success becomes the user and executes the requested
    service.

    An action works on the state of the operating system and may end the
    process.  The databases of users, the file system and the user id of the
    process are operations of the class [Host]; the constructors of verifiers
    ([dsa.c], [rsa.c]) are the class [UserKeys]. *)

From S2P Require Import Prelude Ssh Nettle Atoms LshString Format FormatSpec Wire Parse ParseSpec Sys SshRead ServiceRead Hash Crypto DhExchange Charset Service.
Local Open Scope Z_scope.

(** ** The environment *)

(** [struct passwd] and [struct spwd]; a [char *] may be null. *)
Record passwd := mk_passwd {
  pw_passwd : option (list Z);
  pw_uid : Z;
  pw_gid : Z;
  pw_dir : option (list Z);
  pw_shell : option (list Z);
}.

Record spwd := mk_spwd {
  sp_pwdp : option (list Z);
  sp_lstchg : Z;
  sp_max : Z;
  sp_inact : Z;
  sp_expire : Z;
}.

Class Host `{OS} := {
  getuid : os → Z;
  getpwnam : os → list Z → option passwd;
  getspnam : os → list Z → option spwd;
  getenv : os → list Z → option (list Z);
  (** [time (NULL) / (3600 * 24)] *)
  today : os → Z;
  (** Whether [stat] succeeds. *)
  stat : os → list Z → bool;
  (** Null if the salt is no good. *)
  crypt : list Z → list Z → option (list Z);
  getgrnam : os → list Z → option Z;
  (** These change the process; they may fail. *)
  initgroups : os → list Z → Z → os * bool;
  setgroups : os → os * bool;
  setgid : os → Z → os * bool;
  setuid : os → Z → os * bool;
  chdir : os → list Z → os * bool;
  dup2 : os → Z → Z → os * bool;
  close_fd : os → Z → os;
  (** Whether [execve] replaces the program. *)
  execve_ok : os → list Z → bool;
  (** The variables of the process, which [execl] passes on. *)
  environ : os → list (list Z);
  socketpair : os → os * option (Z * Z);
  (** The new state is that of the process that goes on, with a zero for the
      child. *)
  fork : os → os * Z;
}.

(** The character set and whether there are shadow passwords are fixed at
    start. *)
Class Configured := {
  the_charset : charset;
  HAVE_GETSPNAM : bool;
}.

Class UserKeys `{Signatures} `{HashFunctions} := {
  nettle_sha1 : nettle_hash;
  make_ssh_dss_verifier : list Z → option verifier;
  make_ssh_dsa_sha256_verifier : list Z → option verifier;
  make_ssh_rsa_verifier : list Z → option verifier;
  PUBLIC_SPKI_KEY : verifier → lsh_string;
}.

(** Atoms of the table that [process_atoms] makes. *)
Definition ATOM_SSH_DSS := 34.
Definition ATOM_SSH_RSA := 35.
Definition ATOM_SSH_DSA_SHA256_LOCAL := 37.
Definition ATOM_PUBLICKEY := 41.
Definition ATOM_PASSWORD := 42.

(** ** Processes *)

(** How a process ends. *)
Inductive ending : Type :=
  | Exited (status : Z)
  | Executed (program : list Z) (argv : list (list Z)) (env : list (list Z)).

Definition EXIT_SUCCESS := 0.
Definition EXIT_FAILURE := 1.

Definition process `{OS} (A : Type) : Type := os → result (os * (ending + A)).

#[global] Instance process_ret `{OS} : MRet process := λ A a k, Ok (k, inr a).
#[global] Instance process_bind `{OS} : MBind process := λ A B f m k,
  '(k, r) ← m k;
  match r with
  | inl e => Ok (k, inl e)
  | inr a => f a k
  end.

Section process.
Context `{OS}.

Definition pure {A} (m : result A) : process A := λ k, a ← m; Ok (k, inr a).
Definition asks {A} (f : os → A) : process A := λ k, Ok (k, inr (f k)).
Definition ends_with {A} (e : ending) : process A := λ k, Ok (k, inl e).
Definition call {A} (f : os → os * A) : process A := λ k, let '(k, a) := f k in Ok (k, inr a).

Definition exit {A} (status : Z) : process A := ends_with (Exited status).
Definition die {A} : process A := exit EXIT_FAILURE.

End process.

(** ** Users *)

Record lshd_user := mk_user {
  lu_name : option lsh_string;
  lu_uid : Z;
  lu_gid : Z;
  lu_crypted : option (list Z);
  lu_home : option (list Z);
  lu_shell : option (list Z);
}.

(** Only the name is set; the other fields keep what happens to be there. *)
Definition set_name (name : option lsh_string) (u : lshd_user) : lshd_user :=
  mk_user name (lu_uid u) (lu_gid u) (lu_crypted u) (lu_home u) (lu_shell u).
Definition lshd_user_init (u : lshd_user) : lshd_user := set_name None u.
Definition lshd_user_clear (u : lshd_user) : lshd_user := set_name None u.

Definition set_crypted (c : option (list Z)) (u : lshd_user) : lshd_user :=
  mk_user (lu_name u) (lu_uid u) (lu_gid u) c (lu_home u) (lu_shell u).
Definition set_shell (s : option (list Z)) (u : lshd_user) : lshd_user :=
  mk_user (lu_name u) (lu_uid u) (lu_gid u) (lu_crypted u) (lu_home u) s.
Definition set_home (h : option (list Z)) (u : lshd_user) : lshd_user :=
  mk_user (lu_name u) (lu_uid u) (lu_gid u) (lu_crypted u) h (lu_shell u).
Definition set_ids (uid gid : Z) (u : lshd_user) : lshd_user :=
  mk_user (lu_name u) uid gid (lu_crypted u) (lu_home u) (lu_shell u).

(** [struct lshd_userauth_config] after the options are parsed. *)
Record lshd_userauth_config := mk_userauth_config {
  uc_services : service_config;
  uc_session_id : lsh_string;
  uc_allow_password : bool;
  uc_allow_publickey : bool;
  uc_allow_root_login : bool;
}.

(** [!s || !*s] *)
Definition missing (s : option (list Z)) : bool := match s with None | Some [] => true | Some _ => false end.

(** [s[0] == '*' && s[1]] *)
Definition starred (s : option (list Z)) : bool := match s with Some (42 :: _ :: _) => true | _ => false end.

Section model.
Context `{Malloc} `{NettleMacros} `{NettleBignum} `{OS} `{!Host} `{Configured} `{HashFunctions} `{Signatures} `{!UserKeys}.

(** ** Messages *)

Definition format_userauth_failure (methods : list Z) (partial : Z) : result lsh_string :=
  ssh_format_string "%c%A%c" [FInt SSH_MSG_USERAUTH_FAILURE; FList methods; FInt partial].
Definition format_userauth_success : result lsh_string :=
  ssh_format_string "%c" [FInt SSH_MSG_USERAUTH_SUCCESS].
Definition format_userauth_pk_ok (algorithm : Z) (key : list Z) : result lsh_string :=
  ssh_format_string "%c%a%s" [FInt SSH_MSG_USERAUTH_PK_OK; FInt algorithm; FInt (lenZ key); FBytes key].

(** ** Packets *)

Definition HEADER_SIZE := 8.

(** [for (done = 0; done < HEADER_SIZE; )] *)
Fixpoint read_header (fuel : nat) (header : list Z) : process (list Z) :=
  if lenZ header <? HEADER_SIZE then
    match fuel with
    | O => pure (Fault NonTermination)
    | S fuel =>
        res ← call (λ k, read_retry k (HEADER_SIZE - lenZ header));
        match res with
        | inl _ => die
        | inr [] => if 0 <? lenZ header then die else exit EXIT_SUCCESS
        | inr d => read_header fuel (header ++ d)
        end
    end
  else mret header.

(** [lsh_string_read] as an action. *)
Definition string_read (s : lsh_string) (start length : Z) : process (lsh_string * (errno + Z)) := λ k,
  '(s, k, r) ← lsh_string_read s start k length; Ok (k, inr (s, r)).

(** [for (done = 0; done < length; )] *)
Fixpoint read_data (fuel : nat) (packet : lsh_string) (length done : Z) : process lsh_string :=
  if done <? length then
    match fuel with
    | O => pure (Fault NonTermination)
    | S fuel =>
        '(packet, res) ← string_read packet done (length - done);
        match res with
        | inl _ => die
        | inr n => if n =? 0 then die else read_data fuel packet length (u32 (done + n))
        end
    end
  else mret packet.

(** The sequence number and the packet. *)
Definition read_packet : process (Z * lsh_string) :=
  header ← read_header (Z.to_nat HEADER_SIZE) [];
  seqno ← pure (read_uint32 header);
  length ← pure (read_uint32 (drop 4 header));
  if SSH_MAX_PACKET <? length then die
  else
    packet ← read_data (Z.to_nat length) (lsh_string_alloc length) length 0;
    mret (seqno, packet).

(** [write_raw] of [io.c]; each round writes something. *)
Fixpoint write_raw (fuel : nat) (data : list Z) : process bool :=
  match data with
  | [] => mret true
  | _ =>
      match fuel with
      | O => pure (Fault NonTermination)
      | S fuel =>
          written ← call (λ k, write_retry k data);
          match written with
          | inl _ => mret false
          | inr n => write_raw fuel (drop (Z.to_nat n) data)
          end
      end
  end.

Definition write_packet (packet : lsh_string) : process () :=
  s ← pure (ssh_format_string "%i%fS" [FInt 0; FStr packet]);
  ok ← write_raw (Z.to_nat (lsh_string_length s)) (contents s);
  if ok : bool then mret () else die.

Definition send (m : result lsh_string) : process () := p ← pure m; write_packet p.

Definition protocol_error {A} (msg : string) : process A :=
  send (format_disconnect SSH_DISCONNECT_PROTOCOL_ERROR (cstr msg) []);; die.

Definition service_error {A} (msg : string) : process A :=
  send (format_disconnect SSH_DISCONNECT_SERVICE_NOT_AVAILABLE (cstr msg) []);; die.

(** The message names the method in quotes. *)
Definition invalid_request (method : string) : string :=
  ("Invalid USERAUTH_REQUEST " ++ String "034" (method ++ String "034" EmptyString))%string.

(** ** Accounts *)

(** The shadow record of an account: the new password field, unless there is
    none or the account or the password has expired. *)
Definition check_shadow (k : os) (cname : list Z) : option (option (list Z)) :=
  match getspnam k cname with
  | None => None
  | Some sp =>
      if (0 <=? sp_expire sp) && (sp_expire sp <? today k) then None
      else if (0 <=? sp_inact sp) && (sp_lstchg sp + sp_max sp <? today k) then None
      else Some (sp_pwdp sp)
  end.

(** The checks of a server that runs as root. *)
Definition check_as_root (k : os) (cname : list Z) (allow_root_login : bool) (user : lshd_user) : lshd_user * bool :=
  if negb allow_root_login && (lu_uid user =? 0) then (user, false)
  else if HAVE_GETSPNAM && bool_decide (lu_crypted user = Some (cstr "x")) then
    match check_shadow k cname with
    | None => (user, false)
    | Some crypted =>
        let user := set_crypted crypted user in
        if missing crypted then (user, false) else (user, negb (starred crypted))
    end
  else (user, negb (starred (lu_crypted user))).

(** Otherwise nobody but ourselves can log in. *)
Definition check_as_user (k : os) (me : Z) (user : lshd_user) : lshd_user * bool :=
  if negb (lu_uid user =? me) then (user, false)
  else match getenv k (cstr "HOME") with
  | Some home => (set_home (Some home) user, true)
  | None => (user, true)
  end.

Definition default_home (user : lshd_user) : lshd_user :=
  if missing (lu_home user) then set_home (Some (cstr "/")) user else user.

Definition lookup_user (user : lshd_user) (name_utf8 : list Z) (allow_root_login : bool) : process (lshd_user * bool) :=
  if bool_decide (0 ∈ name_utf8) then mret (user, false)
  else
    let user := lshd_user_clear user in
    name ← pure (low_utf8_to_local the_charset (lenZ name_utf8) name_utf8 (mk_flag false true false));
    let user := set_name name user in
    let cname := lsh_get_cstring name in
    pure (c_assert (match cname with Some _ => true | None => false end));;
    cname ← pure (deref cname);
    let cname := c_string cname in
    k ← asks id;
    match getpwnam k cname with
    | None => mret (user, false)
    | Some pw =>
        let user := set_crypted (pw_passwd pw) user in
        if missing (lu_crypted user) then mret (user, false)
        else
          let user := set_shell (pw_shell pw) user in
          if missing (lu_shell user) then mret (user, false)
          else
            let user := set_home (pw_dir pw) (set_ids (pw_uid pw) (pw_gid pw) user) in
            let me := getuid k in
            let '(user, ok) :=
              if c_true me then check_as_user k me user else check_as_root k cname allow_root_login user in
            mret (if ok : bool then (default_home user, true) else (user, false))
    end.

(** ** Public keys *)

Definition AUTHORIZATION_DIR := "authorized_keys_sha1"%string.

Definition make_verifier (algorithm : Z) (key : list Z) : option verifier :=
  if algorithm =? ATOM_SSH_DSS then make_ssh_dss_verifier key
  else if algorithm =? ATOM_SSH_DSA_SHA256_LOCAL then make_ssh_dsa_sha256_verifier key
  else if algorithm =? ATOM_SSH_RSA then make_ssh_rsa_verifier key
  else None.

Definition get_verifier (user : lshd_user) (algorithm : Z) (key : list Z) : process (option verifier) :=
  match make_verifier algorithm key with
  | None => mret None
  | Some v =>
      home ← pure (deref (lu_home user));
      let spki := PUBLIC_SPKI_KEY v in
      h ← pure (hash_string_l nettle_sha1 (lsh_string_length spki) (lsh_string_data spki));
      file ← pure (ssh_format_string ("%lz/.lsh/" ++ AUTHORIZATION_DIR ++ "/%lxfS") [FCstr home; FStr h]);
      let s := lsh_get_cstring (Some file) in
      pure (c_assert (match s with Some _ => true | None => false end));;
      s ← pure (deref s);
      exists_file ← asks (λ k, stat k (c_string s));
      mret (if exists_file : bool then Some v else None)
  end.

(** [1] for success, [0] for failure, [-1] after [USERAUTH_PK_OK]. *)
Definition handle_publickey (buffer : simple_buffer) (user : lshd_user) (config : lshd_userauth_config) : process Z :=
  if negb (uc_allow_publickey config) then mret 0
  else
    '(buffer, r) ← pure (parse_then parse_boolean (parse_then parse_atom parse_string) buffer);
    match r with
    | None => protocol_error (invalid_request "publickey")
    | Some (check_key, (algorithm, key)) =>
        let signature_start := sb_pos buffer in
        '(buffer, signature) ←
          (if c_true check_key then
             '(buffer, r) ← pure (parse_string buffer);
             match r with
             | None => protocol_error (invalid_request "publickey")
             | Some signature => mret (buffer, signature)
             end
           else mret (buffer, []));
        '(buffer, r) ← pure (parse_eod buffer);
        match r with
        | None => protocol_error (invalid_request "publickey")
        | Some _ =>
            v ← get_verifier user algorithm key;
            match v with
            | None => mret 0
            | Some v =>
                if negb (c_true check_key) then
                  send (format_userauth_pk_ok algorithm key);; mret (-1)
                else
                  signed_data ← pure (ssh_format_string "%S%ls"
                    [FStr (uc_session_id config); FInt signature_start; FBytes (sb_data buffer)]);
                  mret (if VERIFY v algorithm (contents signed_data) signature then 1 else 0)
            end
        end
    end.

(** ** Passwords *)

(** [strcmp (crypt (...), crypted)] with a null pointer is undefined. *)
Definition handle_password (buffer : simple_buffer) (user : lshd_user) (config : lshd_userauth_config) : process Z :=
  if negb (uc_allow_password config) then mret 0
  else
    '(buffer, r) ← pure (parse_then parse_boolean parse_string buffer);
    match r with
    | None => protocol_error (invalid_request "password")
    | Some (change_passwd, password_data) =>
        if c_true change_passwd then mret 0
        else
          '(_, r) ← pure (parse_eod buffer);
          match r with
          | None => protocol_error (invalid_request "password")
          | Some _ =>
              password ← pure (low_utf8_to_local the_charset (lenZ password_data) password_data no_utf8_flags);
              match lsh_get_cstring password, lu_crypted user with
              | Some cpassword, Some crypted =>
                  if lenZ crypted <? 5 then mret 0
                  else
                    c ← pure (deref (crypt (c_string cpassword) crypted));
                    mret (if bool_decide (c = crypted) then 1 else 0)
              | _, _ => mret 0
              end
          end
    end.

(** ** Requests *)

Definition MAX_ATTEMPTS : nat := 10.

Definition auth_methods (config : lshd_userauth_config) : list Z :=
  (if uc_allow_password config then [ATOM_PASSWORD] else [])
  ++ (if uc_allow_publickey config then [ATOM_PUBLICKEY] else []).

Definition parse_userauth_request : parser (list Z * (list Z * Z)) :=
  parse_then parse_string (parse_then parse_string parse_atom).

(** What an attempt comes to. *)
Inductive attempt : Type :=
  | Again (user : lshd_user)
  | Granted (user : lshd_user) (service : service_entry).

Definition refuse (config : lshd_userauth_config) (user : lshd_user) : process attempt :=
  send (format_userauth_failure (auth_methods config) 0);;
  mret (Again (lshd_user_clear user)).

Definition dispatch_method (method : Z) (buffer : simple_buffer) (user : lshd_user) (config : lshd_userauth_config)
  : process Z :=
  if method =? ATOM_PUBLICKEY then handle_publickey buffer user config
  else if method =? ATOM_PASSWORD then handle_password buffer user config
  else mret 0.

(** The body of the loop after a packet is read. *)
Definition handle_request (user : lshd_user) (config : lshd_userauth_config) (seqno : Z) (packet : lsh_string)
  : process attempt :=
  let buffer := simple_buffer_init (lsh_string_length packet) (lsh_string_data packet) in
  '(buffer, r) ← pure (parse_uint8 buffer);
  match r with
  | None => protocol_error "Received empty packet.
"
  | Some msg_number =>
      if negb (msg_number =? SSH_MSG_USERAUTH_REQUEST) then
        send (format_unimplemented seqno);; mret (Again user)
      else
        '(buffer, r) ← pure (parse_userauth_request buffer);
        match r with
        | None => protocol_error "Invalid USERAUTH_REQUEST message"
        | Some (user_utf8, (service_name, method)) =>
            match service_config_lookup (uc_services config) (lenZ service_name) service_name with
            | None => refuse config user
            | Some service =>
                '(user, ok) ← lookup_user user user_utf8 (uc_allow_root_login config);
                if negb ok then refuse config user
                else
                  res ← dispatch_method method buffer user config;
                  if res =? 0 then refuse config user
                  else if res =? -1 then mret (Again user)
                  else if res =? 1 then
                    send format_userauth_success;;
                    mret (Granted user service)
                  else pure c_fatal
            end
        end
  end.

Fixpoint auth_attempts (n : nat) (user : lshd_user) (config : lshd_userauth_config)
  : process (lshd_user * option service_entry) :=
  match n with
  | O => mret (user, None)
  | S n =>
      '(seqno, packet) ← read_packet;
      r ← handle_request user config seqno packet;
      match r with
      | Again user => auth_attempts n user config
      | Granted user service => mret (user, Some service)
      end
  end.

Definition handle_userauth (user : lshd_user) (config : lshd_userauth_config)
  : process (lshd_user * option service_entry) :=
  auth_attempts MAX_ATTEMPTS user config.

(** ** Starting the service *)

Definition lookup_group (k : os) (name : list Z) (default_gid : Z) : Z := default default_gid (getgrnam k name).

(** A system call without which we stop. *)
Definition must (f : os → os * bool) {A} (otherwise : process A) (k : process A) : process A :=
  ok ← call f;
  if ok : bool then k else otherwise.

Definition STDIN_FILENO := 0.
Definition STDOUT_FILENO := 1.

Definition close (fd : Z) : process () := λ k, Ok (close_fd k fd, inr ()).

(** [execl (program, program, NULL)] *)
Definition execl {A} (program : list Z) : process A :=
  ok ← asks (λ k, execve_ok k program);
  env ← asks environ;
  if ok : bool then ends_with (Executed program [program] env) else die.

(** The child of [spawn_helper]. *)
Definition helper_child (program : list Z) (uid gid pipe0 pipe1 : Z) : process Z :=
  me ← asks getuid;
  (if negb (me =? uid) then
     must setgroups die (must (λ k, setgid k gid) die (must (λ k, setuid k uid) die (mret ())))
   else mret ());;
  me ← asks getuid;
  pure (c_assert (me =? uid));;
  must (λ k, dup2 k pipe0 STDIN_FILENO) die (
  must (λ k, dup2 k pipe0 STDOUT_FILENO) die (
  close pipe0;; close pipe1;;
  execl program)).

(** [fork] goes on in both processes: the parent returns its end of the
    socket, the child executes the helper. *)
Definition spawn_helper (program : list Z) (uid gid : Z) : process Z :=
  pipe ← call socketpair;
  match pipe with
  | None => mret (-1)
  | Some (pipe0, pipe1) =>
      child ← call fork;
      if child <? 0 then close pipe0;; close pipe1;; mret (-1)
      else if negb (child =? 0) then close pipe0;; mret pipe1
      else helper_child program uid gid pipe0 pipe1
  end.

Definition format_env_pair (name : string) (value : list Z) : result (list Z) :=
  s ← ssh_format_string "%lz=%lz" [FCstr (cstr name); FCstr value];
  d ← deref (lsh_get_cstring (Some s));
  Ok (c_string d).

Definition env_from (name : string) : process (list (list Z)) :=
  v ← asks (λ k, getenv k (cstr name));
  match v with
  | None => mret []
  | Some v => e ← pure (format_env_pair name v); mret [e]
  end.

Definition become_user (user : lshd_user) (cname : list Z) : process () :=
  let failed := service_error "Failed to start service process" in
  me ← asks getuid;
  if negb (lu_uid user =? me) then
    must (λ k, initgroups k cname (lu_gid user)) failed (
    must (λ k, setgid k (lu_gid user)) failed (
    must (λ k, setuid k (lu_uid user)) failed (mret ())))
  else mret ().

(** Returns only if the program cannot be executed. *)
Definition start_service (user : lshd_user) (program : list Z) (argv : list (list Z)) : process () :=
  let cname := lsh_get_cstring (lu_name user) in
  pure (c_assert (match cname with Some _ => true | None => false end));;
  cname ← pure (deref cname);
  let cname := c_string cname in
  shell ← pure (deref (lu_shell user));
  home ← pure (deref (lu_home user));
  e1 ← pure (format_env_pair "SHELL" shell);
  e2 ← pure (format_env_pair "HOME" home);
  e3 ← pure (format_env_pair "USER" cname);
  e4 ← pure (format_env_pair "LOGNAME" cname);
  tz ← env_from "TZ";
  config_dir ← env_from "LSHD_CONFIG_DIR";
  libexec_dir ← env_from "LSHD_LIBEXEC_DIR";
  connection_conf ← env_from "LSHD_CONNECTION_CONF";
  let env := [e1; e2; e3; e4; cstr "PATH=/bin:/usr/bin"] ++ tz ++ config_dir ++ libexec_dir ++ connection_conf in
  pure (c_assert (lenZ env + 1 <=? 10));;
  become_user user cname;;
  me ← asks getuid;
  pure (c_assert (lu_uid user =? me));;
  moved ← call (λ k, chdir k home);
  (if moved : bool then mret () else must (λ k, chdir k (cstr "/")) die (mret ()));;
  ok ← asks (λ k, execve_ok k program);
  if ok : bool then ends_with (Executed program argv env) else mret ().

(** Reading a cell of [argv]. *)
Definition arg_at (a : arglist) (i : Z) : result (list Z) :=
  c ← rd (al_argv a) i;
  match c with
  | Arg s => Ok s
  | Null => Fault NullPointer
  | Fresh => Fault Uninitialised
  end.

Definition libexec_path (config : lshd_userauth_config) (program : list Z) : result (list Z) :=
  s ← ssh_format_string "%lz/%lz" [FCstr (sc_libexec_dir (uc_services config)); FCstr program];
  d ← deref (lsh_get_cstring (Some s));
  Ok (c_string d).

(** [$(helper_fd)] stands for a socket to the helper process, which is started
    when it is first needed. *)
Definition expand_arg (config : lshd_userauth_config) (user : lshd_user) (helper_fd : Z) (arg : list Z)
  : process (Z * list Z) :=
  if bool_decide (arg = cstr "$(helper_fd)") then
    helper_fd ←
      (if helper_fd <? 0 then
         helper_program ← pure (libexec_path config (cstr "lshd-pty-helper"));
         gid ← asks (λ k, lookup_group k (cstr "utmp") (lu_gid user));
         fd ← spawn_helper helper_program (lu_uid user) gid;
         if fd <? 0 then die else mret fd
       else mret helper_fd);
    s ← pure (ssh_format_string "%di" [FInt helper_fd]);
    d ← pure (deref (lsh_get_cstring (Some s)));
    mret (helper_fd, c_string d)
  else mret (helper_fd, arg).

(** [for (i = 1; i < service->args.argc; i++)] *)
Fixpoint expand_args (n : nat) (config : lshd_userauth_config) (user : lshd_user) (service : service_entry)
  (i helper_fd : Z) (args : arglist) : process arglist :=
  match n with
  | O => mret args
  | S n =>
      arg ← pure (arg_at (se_args service) i);
      '(helper_fd, arg) ← expand_arg config user helper_fd arg;
      args ← pure (arglist_push args arg);
      expand_args n config user service (i + 1) helper_fd args
  end.

(** The arguments before the null pointer. *)
Fixpoint argv_of (cells : list arg_cell) : list (list Z) :=
  match cells with
  | Arg s :: cells => s :: argv_of cells
  | _ => []
  end.

(** [main] after the options are parsed; it does not return. *)
Definition userauth_main (user : lshd_user) (config : lshd_userauth_config) : process () :=
  let user := lshd_user_init user in
  '(user, service) ← handle_userauth user config;
  match service with
  | None =>
      send (format_disconnect SSH_DISCONNECT_SERVICE_NOT_AVAILABLE (cstr "Access denied") []);; exit EXIT_FAILURE
  | Some service =>
      program ← pure (arg_at (se_args service) 0);
      args ← pure (arglist_push arglist_init program);
      path ← (if bool_decide (head program = Some 47) then mret program else pure (libexec_path config program));
      args ← expand_args (Z.to_nat (al_argc (se_args service) - 1)) config user service 1 (-1) args;
      start_service user path (argv_of (al_argv args));;
      service_error "Failed to start service process"
  end.

End model.
