(* ===== verification/UserAuthSpec.v ===== *)
(** * What user authentication grants

    Actions of the process are specified by what holds when they return, when
    the process ends, and when it stops at a fault. *)

From S2P Require Import Prelude Ssh Nettle Atoms LshString Format FormatSpec Wire Parse ParseSpec ParseAtoms ParseUtf8 Sys SshRead ServiceRead Hash Crypto DhExchange Charset Service UserAuth.
Local Open Scope Z_scope.

(** ** Postconditions *)

Section wpp.
Context `{OS}.

Definition wpp {A} (E : fault → Prop) (X : ending → os → Prop) (m : process A) (Q : A → os → Prop) (k : os) : Prop :=
  match m k with
  | Ok (k', inr a) => Q a k'
  | Ok (k', inl e) => X e k'
  | Fault f => E f
  end.

Lemma wpp_weaken {A} E X (m : process A) (P Q : A → os → Prop) k :
  wpp E X m P k → (∀ a k', P a k' → Q a k') → wpp E X m Q k.
Proof. unfold wpp. destruct (m k) as [[k' [e | a]] | f]; auto. Qed.

Lemma wpp_mono {A} (E E' : fault → Prop) (X X' : ending → os → Prop) (m : process A) (P Q : A → os → Prop) k :
  wpp E X m P k → (∀ f, E f → E' f) → (∀ e k', X e k' → X' e k') → (∀ a k', P a k' → Q a k') → wpp E' X' m Q k.
Proof. unfold wpp. destruct (m k) as [[k' [e | a]] | f]; auto. Qed.

Lemma wpp_bind {A B} E X (m : process A) (f : A → process B) Q k :
  wpp E X m (λ a, wpp E X (f a) Q) k → wpp E X (m ≫= f) Q k.
Proof. unfold wpp, mbind, process_bind. by destruct (m k) as [[k' [e | a]] | g]. Qed.

Lemma wpp_ret {A} E X (a : A) (Q : A → os → Prop) k : Q a k → wpp E X (mret a) Q k.
Proof. done. Qed.

Lemma wpp_pure {A} E X (m : result A) (Q : A → os → Prop) k : ends m (λ a, Q a k) E → wpp E X (pure m) Q k.
Proof. unfold wpp, pure. by destruct m. Qed.

Lemma wpp_pure_ok {A B} E X (m : result A) a (f : A → process B) Q k :
  m = Ok a → wpp E X (f a) Q k → wpp E X (pure m ≫= f) Q k.
Proof. intros -> Hf. by apply wpp_bind, wpp_pure. Qed.

Lemma wpp_asks {A B} E X (g : os → A) (f : A → process B) Q k :
  wpp E X (f (g k)) Q k → wpp E X (asks g ≫= f) Q k.
Proof. intros Hf. by apply wpp_bind. Qed.

Lemma wpp_call {A} E X (g : os → os * A) (Q : A → os → Prop) k : (let '(k', a) := g k in Q a k') → wpp E X (call g) Q k.
Proof. unfold wpp, call. by destruct (g k). Qed.

Lemma wpp_seq {A B} E X (m : process A) (f : A → process B) (P : A → os → Prop) Q k :
  wpp E X m P k → (∀ a k', P a k' → wpp E X (f a) Q k') → wpp E X (m ≫= f) Q k.
Proof. intros Hm Hf. apply wpp_bind. eapply wpp_weaken; [exact Hm | exact Hf]. Qed.

Lemma wpp_exit {A} E X e (Q : A → os → Prop) k : X e k → wpp E X (ends_with e) Q k.
Proof. done. Qed.

End wpp.

(** No fault; the process may end with a status. *)
Definition safe_faults (f : fault) : Prop := False.
Definition exits `{OS} (e : ending) (k : os) : Prop := ∃ status, e = Exited status.

(** ** Packets *)

Section packets.
Context `{MallocOk} `{NettleMacrosOk} `{NettleBignumOk} `{OSOk}.

Lemma wpp_die {A} (Q : A → os → Prop) k : wpp safe_faults exits die Q k.
Proof. by eexists. Qed.

(** Something was received, nothing was sent. *)
Definition received (d : list Z) (k k' : os) : Prop := delivered k' = delivered k ++ d ∧ accepted k' = accepted k.

Lemma received_app d1 d2 k k1 k2 : received d1 k k1 → received d2 k1 k2 → received (d1 ++ d2) k k2.
Proof. intros [H1d H1a] [H2d H2a]. split; [by rewrite H2d, H1d, app_assoc | congruence]. Qed.

Lemma read_header_wpp fuel header k :
  lenZ header <= HEADER_SIZE → HEADER_SIZE - lenZ header <= Z.of_nat fuel → Forall is_byte header →
  wpp safe_faults exits (read_header fuel header)
    (λ h k', ∃ d, h = header ++ d ∧ lenZ h = HEADER_SIZE ∧ Forall is_byte h ∧ received d k k') k.
Proof.
  revert header k. induction fuel as [| fuel IH]; intros header k Hle Hf Hb; cbn [read_header];
    destruct (Z.ltb_spec (lenZ header) HEADER_SIZE) as [Hlt | Hge]; try lia.
  1, 3: exists []; rewrite !app_nil_r; split; [done |]; split; [lia |]; split; [done |]; split; [by rewrite app_nil_r | done].
  apply wpp_bind, wpp_call.
  destruct (read_retry_spec k (HEADER_SIZE - lenZ header)) as (k' & r & -> & Ha & Hr); [lia |].
  destruct r as [e | d]; [apply wpp_die |]. destruct Hr as (Hl & Hbd & Hd). destruct d as [| c d].
  { destruct (0 <? lenZ header); by eexists. }
  assert (0 < lenZ (c :: d)) as Hpos by (rewrite lenZ_cons; pose proof (lenZ_nonneg d); lia).
  eapply wpp_weaken; [apply IH; [rewrite lenZ_app; lia | rewrite lenZ_app; lia | by apply Forall_app] |].
  intros h k2 (d2 & -> & Hlh & Hbh & Hrec). exists ((c :: d) ++ d2). rewrite app_assoc. split; [done |]. split; [done |].
  split; [done |]. by apply (received_app _ _ _ k').
Qed.

Lemma string_read_wpp {B} s start length (f : lsh_string * (errno + Z) → process B) E X Q k :
  lsh_string_wf s → 0 <= start → 0 < length → start + length <= ls_length s →
  (∀ s' k' r d, lsh_string_wf s' → ls_length s' = ls_length s → contents s' = splice start d (contents s) →
     lenZ d <= length → received d k k' →
     match r with inl _ => d = [] | inr n => n = lenZ d end → wpp E X (f (s', r)) Q k') →
  wpp E X (string_read s start length ≫= f) Q k.
Proof.
  intros Hwf Hs Hl Hroom Hf. apply wpp_bind. unfold wpp at 1, string_read.
  destruct (lsh_string_read_spec s start k length) as (s' & k' & r & d & -> & Hw & Hls & Ha & Hd & Hc & Hle & Hr); try done.
  rewrite bind_ok_l. eapply (Hf s' k' r d); try done. destruct r; [by destruct Hr | done].
Qed.

(** The packet filled so far. *)
Lemma splice_filled (a b d : list Z) n :
  n = lenZ a → lenZ d <= lenZ b → splice n d (a ++ b) = (a ++ d) ++ drop (length d) b.
Proof.
  intros -> Hd. unfold splice, lenZ. rewrite Nat2Z.id, take_app_length, <- app_assoc. do 2 f_equal.
  rewrite drop_app_ge by lia. f_equal. lia.
Qed.

Lemma read_data_wpp fuel packet length pos k a b :
  lsh_string_wf packet → ls_length packet = length → contents packet = a ++ b → pos = lenZ a → length < 2 ^ 32 →
  length - pos <= Z.of_nat fuel →
  wpp safe_faults exits (read_data fuel packet length pos)
    (λ p k', ∃ d, lsh_string_wf p ∧ contents p = a ++ d ∧ lenZ (contents p) = length ∧ received d k k') k.
Proof.
  revert packet pos k a b. induction fuel as [| fuel IH]; intros packet pos k a b Hp Hl Hc Hd Hlt Hf; cbn [read_data];
    assert (lenZ a + lenZ b = length) as Hab by (rewrite <- lenZ_app, <- Hc, lenZ_contents by done; lia);
    pose proof (lenZ_nonneg a) as Hna; pose proof (lenZ_nonneg b) as Hnb;
    destruct (Z.ltb_spec pos length) as [Hlt' | Hge]; try lia.
  1, 3: assert (b = []) as -> by (apply length_zero_iff_nil; unfold lenZ in *; lia); exists []; split; [done |];
        split; [done |]; split; [by rewrite lenZ_contents |]; split; [by rewrite app_nil_r | done].
  apply string_read_wpp; [done | lia | lia | lia |]. intros p' k1 r d Hp' Hl' Hc' Hle Hrec Hr.
  destruct r as [e | n]; [apply wpp_die |]. rewrite Hr. destruct (Z.eqb_spec (lenZ d) 0) as [Hz | Hnz]; [apply wpp_die |].
  pose proof (lenZ_nonneg d). rewrite Hc in Hc'. rewrite splice_filled in Hc' by (done || lia).
  rewrite u32_id by (unfold is_u32; lia).
  eapply wpp_weaken; [eapply (IH p' _ k1 (a ++ d)); [done | lia | exact Hc' | rewrite lenZ_app; lia | done | lia] |].
  intros p k2 (d2 & Hw & Hpc & Hpl & Hrec2). exists (d ++ d2). split; [done |].
  split; [by rewrite Hpc, app_assoc |]. split; [done | by apply (received_app _ _ _ k1)].
Qed.

(** Four octets are a number. *)
Lemma four_octets l : Forall is_byte l → lenZ l = 4 → is_u32 (be_value l) ∧ be32 (be_value l) = l.
Proof.
  intros Hb Hl. pose proof (be_value_range l Hb) as Hr. rewrite Hl in Hr. split; [done |].
  unfold be32. replace 4%nat with (length l) by (unfold lenZ in Hl; lia). by apply be_bytes_value.
Qed.

Lemma frame_header h :
  Forall is_byte h → lenZ h = HEADER_SIZE →
  ∃ seqno len, read_uint32 h = Ok seqno ∧ read_uint32 (drop 4 h) = Ok len ∧ is_u32 seqno ∧ is_u32 len
    ∧ h = be32 seqno ++ be32 len.
Proof.
  intros Hb Hl. unfold HEADER_SIZE in Hl. rewrite <- (take_drop 4 h) in Hb. apply Forall_app in Hb as [Hb1 Hb2].
  assert (lenZ (take 4 h) = 4 ∧ lenZ (drop 4 h) = 4) as [Hl1 Hl2] by (unfold lenZ in *; rewrite length_take, length_drop; lia).
  destruct (four_octets _ Hb1 Hl1) as [Hu1 He1], (four_octets _ Hb2 Hl2) as [Hu2 He2].
  exists (be_value (take 4 h)), (be_value (drop 4 h)). rewrite He1, He2, take_drop. split_and!; try done.
  - rewrite <- (take_drop 4 h) at 1. by apply read_uint32_bytes.
  - rewrite <- (app_nil_r (drop 4 h)) at 1. by apply read_uint32_bytes.
Qed.

(** A packet that was read is a frame of the stream. *)
Lemma read_packet_wpp k :
  wpp safe_faults exits read_packet (λ '(seqno, p) k', lsh_string_wf p ∧ is_u32 seqno ∧ ls_length p <= SSH_MAX_PACKET
    ∧ received (service_frame seqno (contents p)) k k') k.
Proof.
  unfold read_packet. eapply wpp_seq; [apply read_header_wpp; [done | done | constructor] |].
  intros h k1 (d & -> & Hl & Hb & Hrec). cbn [app] in *. destruct (frame_header d Hb Hl) as (seqno & len & Hs & Hn & Hus & Hun & ->).
  eapply wpp_pure_ok; [exact Hs |]. eapply wpp_pure_ok; [exact Hn |]. unfold is_u32 in Hun.
  destruct (Z.ltb_spec SSH_MAX_PACKET len) as [Hbig | Hsmall]; [apply wpp_die |].
  eapply wpp_seq; [apply (read_data_wpp _ _ _ _ _ [] (contents (lsh_string_alloc len))) |].
  - apply lsh_string_alloc_wf. unfold is_u32. lia.
  - done.
  - done.
  - done.
  - lia.
  - lia.
  - intros p k2 (d & Hw & Hc & Hpl & Hrec2). cbn [app] in Hc. rewrite lenZ_contents in Hpl by done. apply wpp_ret.
    split; [done |]. split; [done |]. split; [lia |].
    unfold service_frame. rewrite lenZ_contents, Hpl, app_assoc, Hc by done. by apply (received_app _ _ _ k1).
Qed.

(** ** Sending *)

(** Something was sent, nothing was received. *)
Definition sent (d : list Z) (k k' : os) : Prop := accepted k' = accepted k ++ d ∧ delivered k' = delivered k.

Lemma sent_app d1 d2 k k1 k2 : sent d1 k k1 → sent d2 k1 k2 → sent (d1 ++ d2) k k2.
Proof. intros [H1d H1a] [H2d H2a]. split; [by rewrite H2d, H1d, app_assoc | congruence]. Qed.

(** The process ends and only part of the octets got out. *)
Definition cut_short (d : list Z) (k : os) (e : ending) (k' : os) : Prop :=
  exits e k' ∧ ∃ p, p `prefix_of` d ∧ sent p k k'.

Lemma sent_nil k : sent [] k k.
Proof. split; [by rewrite app_nil_r | done]. Qed.

Lemma write_raw_wpp fuel data k X :
  lenZ data <= Z.of_nat fuel →
  wpp safe_faults X (write_raw fuel data)
    (λ ok k', if ok : bool then sent data k k' else ∃ p, p `prefix_of` data ∧ sent p k k') k.
Proof.
  revert data k. induction fuel as [| fuel IH]; intros data k Hf.
  { assert (data = []) as -> by (apply length_zero_iff_nil; unfold lenZ in Hf; lia). apply sent_nil. }
  destruct data as [| c data]; cbn [write_raw]; [apply sent_nil |].
  assert (0 < lenZ (c :: data)) as Hpos by (rewrite lenZ_cons; pose proof (lenZ_nonneg data); lia).
  apply wpp_bind, wpp_call. destruct (write_retry_spec k (c :: data) Hpos) as (k1 & r & -> & Hd & Hr).
  destruct r as [e | n].
  { destruct Hr as [_ Ha]. apply wpp_ret. exists []. split; [apply prefix_nil |]. split; [by rewrite app_nil_r | done]. }
  destruct Hr as [Hn Ha]. assert (sent (take (Z.to_nat n) (c :: data)) k k1) as Hs by (split; [by rewrite Ha | done]).
  eapply wpp_weaken; [apply IH; unfold lenZ in *; rewrite length_drop; lia |]. intros ok k2 Hok.
  destruct ok; [rewrite <- (take_drop (Z.to_nat n) (c :: data)); by apply (sent_app _ _ _ k1) |].
  destruct Hok as (p & Hp & Hsp). exists (take (Z.to_nat n) (c :: data) ++ p). split; [| by apply (sent_app _ _ _ k1)].
  rewrite <- (take_drop (Z.to_nat n) (c :: data)) at 2. by apply prefix_app.
Qed.

Lemma write_packet_wpp p k :
  lsh_string_wf p → ls_length p < 2 ^ 31 →
  wpp safe_faults (cut_short (service_frame 0 (contents p)) k) (write_packet p)
    (λ _ k', sent (service_frame 0 (contents p)) k k') k.
Proof.
  intros Hp Hl. unfold write_packet. pose proof (wf_length _ Hp) as Hp0. unfold is_u32 in Hp0.
  assert (formats (ssh_format_string "%i%fS" [FInt 0; FStr p]) (be32 0 ++ wire_string (contents p))) as (s & Hf & Hs & Hc).
  { pose proof (lenZ_contents p Hp) as Hpl. eapply formats_spec; [reflexivity | | farg_list |].
    - cbn -[be32 contents]. unfold wire_string. by rewrite <- Hpl, slice_all, app_nil_r.
    - rewrite lenZ_app, lenZ_wire_string, lenZ_be32. lia. }
  eapply wpp_pure_ok; [exact Hf |].
  eapply wpp_seq; [apply write_raw_wpp; unfold lsh_string_length; rewrite <- (lenZ_contents s Hs); lia |].
  intros ok k1 Hok. rewrite Hc in Hok. destruct ok; [by apply wpp_ret |]. split; [by eexists | done].
Qed.

Lemma send_wpp m bs k :
  formats m bs → lenZ bs < 2 ^ 31 →
  wpp safe_faults (cut_short (service_frame 0 bs) k) (send m) (λ _ k', sent (service_frame 0 bs) k k') k.
Proof.
  intros (p & Hm & Hp & <-) Hl. unfold send. eapply wpp_pure_ok; [exact Hm |]. apply write_packet_wpp; [done |].
  by rewrite <- lenZ_contents.
Qed.

(** When what is sent does not matter. *)
Lemma send_plain {A} E m bs (f : () → process A) Q k :
  formats m bs → lenZ bs < 2 ^ 31 → (∀ k', sent (service_frame 0 bs) k k' → wpp E exits (f ()) Q k') →
  wpp E exits (send m ≫= f) Q k.
Proof.
  intros Hm Hl Hf. apply wpp_bind. eapply wpp_mono; [by apply send_wpp | by intros g [] | by intros e k' [] |].
  intros [] k' Hs. by apply Hf.
Qed.

(** After an error message the process is over. *)
Lemma send_error_wpp {A} E reason msg (Q : A → os → Prop) k :
  lenZ (cstr msg) <= 1000 → wpp E exits (send (format_disconnect reason (cstr msg) []);; die) Q k.
Proof.
  intros Hm. eapply send_plain; [apply formats_disconnect; lia | | intros; by eexists].
  rewrite lenZ_cons, !lenZ_app, !lenZ_wire_string, lenZ_be32. change (lenZ []) with 0. lia.
Qed.

End packets.

(** ** Accounts *)

Section accounts.
Context `{MallocOk} `{NettleMacrosOk} `{NettleBignumOk} `{OSOk} `{!Host} `{Configured} `{HashFunctionsOk} `{Signatures} `{!UserKeys}.

(** A user name in the local character set; control characters are refused. *)
Definition name_flags : utf8_flag := mk_flag false true false.

Definition local_of (flags : utf8_flag) (d : list Z) : option (list Z) :=
  match mapM (local_octets the_charset flags) (utf8_decode d) with Some outs => Some (concat outs) | None => None end.

Lemma local_of_spec flags d :
  Forall is_byte d → lenZ d < 2 ^ 32 →
  match local_of flags d with
  | Some out => ∃ s, low_utf8_to_local the_charset (lenZ d) d flags = Ok (Some s) ∧ lsh_string_wf s ∧ contents s = out
  | None => low_utf8_to_local the_charset (lenZ d) d flags = Ok None
  end.
Proof.
  intros Hb Hl. pose proof (lenZ_nonneg d). pose proof (low_utf8_to_local_spec the_charset (lenZ d) d flags Hb ltac:(lia) Hl) as Hc.
  rewrite slice_all in Hc. unfold converts in Hc. unfold local_of.
  destruct (mapM _ _) as [outs |]; [| done]. destruct Hc as (s & Hs & Hw & Hcs & _). by exists s.
Qed.

(** The value of a string without NUL as a C string. *)
Lemma get_cstring_plain s : lsh_string_wf s → 0 ∉ contents s → ∃ d, lsh_get_cstring (Some s) = Some d ∧ c_string d = contents s.
Proof.
  intros Hs Hn. unfold lsh_get_cstring. rewrite bool_decide_false by done. eexists. split; [done |].
  pose proof (wf_length _ Hs) as Hl. unfold is_u32 in Hl. pose proof (wf_room _ Hs) as Hr.
  assert (ls_data s = contents s ++ 0 :: drop (S (Z.to_nat (ls_length s))) (ls_data s)) as ->; [| by apply c_string_app].
  rewrite <- (take_drop_middle (ls_data s) (Z.to_nat (ls_length s)) 0) at 1; [| apply (wf_nul _ Hs)].
  by unfold contents, slice.
Qed.

(** The rules for accounts: the password field that counts, *)
Inductive password_field (k : os) (cname : list Z) (pw : passwd) : option (list Z) → Prop :=
  | field_plain :
      HAVE_GETSPNAM && bool_decide (pw_passwd pw = Some (cstr "x")) = false →
      password_field k cname pw (pw_passwd pw)
  | field_shadow sp :
      HAVE_GETSPNAM = true → pw_passwd pw = Some (cstr "x") → getspnam k cname = Some sp →
      (sp_expire sp < 0 ∨ today k <= sp_expire sp) →
      (sp_inact sp < 0 ∨ today k <= sp_lstchg sp + sp_max sp) →
      password_field k cname pw (sp_pwdp sp).

(** and which accounts are enabled: the record describes the account of that
    name, the account has a password and a shell, and it is our own, or we are
    root, it is not root's unless that is allowed, it has not expired, and it is
    not marked as disabled by a star. *)
Record account_enabled (k : os) (allow_root_login : bool) (cname : list Z) (u : lshd_user) (pw : passwd) : Prop := {
  ae_passwd : getpwnam k cname = Some pw;
  ae_password : missing (pw_passwd pw) = false;
  ae_shell : lu_shell u = pw_shell pw ∧ missing (pw_shell pw) = false;
  ae_ids : lu_uid u = pw_uid pw ∧ lu_gid u = pw_gid pw;
  ae_self : getuid k ≠ 0 → pw_uid pw = getuid k ∧ lu_crypted u = pw_passwd pw;
  ae_root : getuid k = 0 → (allow_root_login = true ∨ pw_uid pw ≠ 0)
      ∧ password_field k cname pw (lu_crypted u) ∧ missing (lu_crypted u) = false ∧ starred (lu_crypted u) = false;
  ae_home : lu_home u = let home := if c_true (getuid k) then match getenv k (cstr "HOME") with Some h => Some h | None => pw_dir pw end
                                    else pw_dir pw in
                        if missing home then Some (cstr "/") else home;
}.

Lemma cont_bytes_positive j n : Forall (λ c, 0 < c) (cont_bytes j n).
Proof.
  revert n. induction j as [| j IH]; intros n; cbn [cont_bytes]; [constructor |].
  apply Forall_app. split; [apply IH |]. apply Forall_cons. split; [| constructor].
  pose proof (Z.mod_pos_bound n 64 ltac:(lia)). lia.
Qed.

Lemma utf8_encode_positive n : 0 < n → Forall (λ c, 0 < c) (utf8_encode n).
Proof.
  intros Hn. unfold utf8_encode. destruct (utf8_form n) as [lead j] eqn:Hf. apply Forall_cons. split; [| apply cont_bytes_positive].
  assert (0 <= n `div` 64 ^ Z.of_nat j) by (apply Z.div_pos; [lia | apply Z.pow_pos_nonneg; lia]).
  unfold utf8_form in Hf. repeat case_match; simplify_eq; try lia. change (64 ^ Z.of_nat 0) with 1. rewrite Z.div_1_r. lia.
Qed.

Lemma nul_free_octets n bs :
  0 <= n → local_octets the_charset name_flags (Some n) = Some bs → Forall (λ c, 0 < c) bs.
Proof.
  intros Hn. unfold local_octets. simpl. destruct (ucs4_is_control n) eqn:Hc; [done |].
  assert (0 < n) as Hpos by (unfold ucs4_is_control in Hc; lia). destruct the_charset.
  - intros [= <-]. by apply utf8_encode_positive.
  - destruct (n <? 256); [| done]. intros [= <-]. by repeat constructor.
  - destruct (n <? 128); [| done]. intros [= <-]. by repeat constructor.
Qed.

Lemma decode_nonneg fuel l : Forall is_byte l → Forall (λ c, ∀ n, c = Some n → 0 <= n) (decode fuel l).
Proof.
  revert l. induction fuel as [| fuel IH]; intros l Hb; [constructor |].
  destruct l as [| c l]; [constructor |].
  destruct (utf8_spec_cases (c :: l) Hb) as [(n & tl & Hn & Heq & _) | [Hr Hl]]; [done | |].
  - rewrite Heq in *. rewrite decode_encode by done. apply Forall_app in Hb as [_ Hb].
    apply Forall_cons. split; [intros ? [= <-]; apply Hn | by apply IH].
  - rewrite decode_bad by done. apply Forall_cons. split; [done |]. apply IH. by apply Forall_drop.
Qed.

(** A converted name has no NUL. *)
Lemma local_name_plain d out : Forall is_byte d → local_of name_flags d = Some out → 0 ∉ out.
Proof.
  intros Hb. unfold local_of. destruct (mapM _ _) as [outs |] eqn:Hm; [| done]. intros [= <-] Hin.
  apply mapM_Some in Hm. pose proof (decode_nonneg (length d) d Hb) as Hd. fold (utf8_decode d) in Hd.
  apply list_elem_of_In, in_concat in Hin as (bs & Hbs & Hz). apply list_elem_of_In in Hbs, Hz.
  apply list_elem_of_lookup in Hbs as [i Hi]. destruct (Forall2_lookup_r _ _ _ _ _ Hm Hi) as (c & Hc & Hbs).
  rewrite Forall_lookup in Hd. specialize (Hd _ _ Hc). destruct c as [n |]; [| done].
  pose proof (nul_free_octets n bs (Hd n eq_refl) Hbs) as Hpos. rewrite Forall_forall in Hpos. specialize (Hpos _ Hz). lia.
Qed.

(** Running an action step by step. *)
Lemma run_pure {A B} (m : result A) a (f : A → process B) k : m = Ok a → (pure m ≫= f) k = f a k.
Proof. by intros ->. Qed.

(** The checks once the record of the account is there. *)
Definition check_account (k : os) (allow_root_login : bool) (cname : list Z) (pw : passwd) (user : lshd_user) : lshd_user * bool :=
  let user := set_crypted (pw_passwd pw) user in
  if missing (lu_crypted user) then (user, false)
  else
    let user := set_shell (pw_shell pw) user in
    if missing (lu_shell user) then (user, false)
    else
      let user := set_home (pw_dir pw) (set_ids (pw_uid pw) (pw_gid pw) user) in
      let '(user, ok) :=
        if c_true (getuid k) then check_as_user k (getuid k) user else check_as_root k cname allow_root_login user in
      if ok : bool then (default_home user, true) else (user, false).

Lemma lookup_user_run user name allow_root_login cname k :
  Forall is_byte name → lenZ name < 2 ^ 32 → 0 ∉ name → local_of name_flags name = Some cname →
  ∃ s, lsh_string_wf s ∧ contents s = cname ∧ (0 ∉ cname)
    ∧ lookup_user user name allow_root_login k
      = Ok (k, inr (match getpwnam k cname with
                   | None => (set_name (Some s) user, false)
                   | Some pw => check_account k allow_root_login cname pw (set_name (Some s) user)
                   end)).
Proof.
  intros Hb Hl Hn Hloc. pose proof (local_of_spec name_flags name Hb Hl) as Hs. rewrite Hloc in Hs.
  destruct Hs as (s & Hs & Hw & Hc). pose proof (local_name_plain name cname Hb Hloc) as Hplain.
  destruct (get_cstring_plain s Hw) as (d & Hd & Hcd); [by rewrite Hc |].
  exists s. split; [done |]. split; [done |]. split; [done |].
  unfold lookup_user. rewrite bool_decide_false by done. erewrite run_pure by exact Hs. cbv zeta.
  rewrite Hd. erewrite run_pure by done. erewrite run_pure by done. rewrite Hcd, Hc.
  change ((asks id ≫= ?f) k) with ((f k) k). cbv beta.
  unfold check_account. destruct (getpwnam k cname) as [pw |]; [| done].
  change (lshd_user_clear user) with (set_name None user).
  destruct (missing (pw_passwd pw)) eqn:Hm1; simpl; rewrite Hm1; [done |].
  destruct (missing (pw_shell pw)) eqn:Hm2; simpl; rewrite ?Hm2; [done |].
  destruct (if c_true (getuid k) then _ else _) as [u ok]. done.
Qed.

(** The checks are the rules. *)
Definition root_allows (k : os) (allow_root_login : bool) (cname : list Z) (pw : passwd) (crypted : option (list Z)) : Prop :=
  (allow_root_login = true ∨ pw_uid pw ≠ 0) ∧ password_field k cname pw crypted
  ∧ missing crypted = false ∧ starred crypted = false.

Lemma check_as_root_spec k allow_root_login cname pw user :
  lu_crypted user = pw_passwd pw → lu_uid user = pw_uid pw → missing (pw_passwd pw) = false →
  let '(u, ok) := check_as_root k cname allow_root_login user in
  (ok = true → u = set_crypted (lu_crypted u) user ∧ root_allows k allow_root_login cname pw (lu_crypted u))
  ∧ ∀ c, root_allows k allow_root_login cname pw c → ok = true.
Proof.
  intros Hc Hu Hm. unfold check_as_root. rewrite Hc, Hu.
  destruct (negb allow_root_login && (pw_uid pw =? 0)) eqn:Hr; [split; [done |]; intros c ([-> | ?] & _); simpl in Hr; lia |].
  assert (allow_root_login = true ∨ pw_uid pw ≠ 0) as Hroot by (destruct allow_root_login; [by left | right; simpl in Hr; lia]).
  destruct (HAVE_GETSPNAM && bool_decide (pw_passwd pw = Some (cstr "x"))) eqn:Hx.
  - pose proof Hx as [Hh Hpx]%andb_true_iff. apply bool_decide_eq_true in Hpx. unfold check_shadow.
    destruct (getspnam k cname) as [sp |] eqn:Hsp.
    + destruct ((0 <=? sp_expire sp) && (sp_expire sp <? today k)) eqn:He;
        [split; [done | intros c (_ & Hf & _); inversion Hf; [congruence |]; simplify_eq; lia] |].
      destruct ((0 <=? sp_inact sp) && (sp_lstchg sp + sp_max sp <? today k)) eqn:Hi;
        [split; [done | intros c (_ & Hf & _); inversion Hf; [congruence |]; simplify_eq; lia] |].
      assert (∀ c, password_field k cname pw c → c = sp_pwdp sp) as Huniq by (intros c Hf; inversion Hf; congruence).
      destruct (missing (sp_pwdp sp)) eqn:Hms; simpl.
      * split; [done |]. intros c (_ & Hf & Hm' & _). rewrite (Huniq c Hf) in Hm'. congruence.
      * split; [| intros c (_ & Hf & _ & Hs); rewrite (Huniq c Hf) in Hs; by rewrite Hs].
        intros Hst. apply negb_true_iff in Hst. split; [done |]. split; [done |]. split; [apply field_shadow; done || lia | done].
    + split; [done |]. intros c (_ & Hf & _). inversion Hf; congruence.
  - simpl. rewrite Hc. split.
    + intros Hst. apply negb_true_iff in Hst. split; [by destruct user; simpl in *; subst |]. split; [done |]. split; [by apply field_plain | done].
    + intros c (_ & Hf & _ & Hs). destruct Hf as [| sp Hh Hpx]; [by rewrite Hs |]. by rewrite Hh, bool_decide_true in Hx.
Qed.

Lemma check_account_spec k allow_root_login cname pw user :
  getpwnam k cname = Some pw →
  let '(u, ok) := check_account k allow_root_login cname pw user in
  (ok = true → lu_name u = lu_name user ∧ account_enabled k allow_root_login cname u pw)
  ∧ ∀ u' pw', account_enabled k allow_root_login cname u' pw' → ok = true.
Proof.
  intros Hpw. unfold check_account. cbn [lu_crypted set_crypted].
  assert (∀ u' pw', account_enabled k allow_root_login cname u' pw' → pw' = pw) as Hsame by (intros u' pw' [Hp _ _ _ _ _ _]; congruence).
  destruct (missing (pw_passwd pw)) eqn:Hm1; [split; [done |]; intros u' pw' Ha; pose proof (Hsame _ _ Ha) as ->; destruct Ha; congruence |].
  cbn [lu_shell set_shell]. destruct (missing (pw_shell pw)) eqn:Hm2.
  { split; [done |]. intros u' pw' Ha. pose proof (Hsame _ _ Ha) as ->. destruct Ha as [_ _ [_ ?] _ _ _ _]. congruence. }
  set (user1 := set_home (pw_dir pw) _). unfold c_true. destruct (Z.eqb_spec (getuid k) 0) as [Hz | Hnz]; cbn [negb].
  - pose proof (check_as_root_spec k allow_root_login cname pw user1 eq_refl eq_refl Hm1) as Hroot.
    destruct (check_as_root k cname allow_root_login user1) as [u ok]. destruct Hroot as [Hok Hall].
    destruct ok; [| split; [done |]; intros u' pw' Ha; pose proof (Hsame _ _ Ha) as ->; by apply (Hall _ (ae_root _ _ _ _ _ Ha Hz))].
    split; [| done]. intros _. destruct (Hok eq_refl) as [-> Hallow]. simpl in Hallow. destruct Hallow as (Hr & Hf & Hm & Hs).
    unfold default_home. cbn [lu_home set_crypted user1 set_home].
    split; [by destruct (missing (pw_dir pw)) |].
    split; try done; try (by destruct (missing (pw_dir pw))); try (intros; lia).
    unfold c_true. rewrite Hz. simpl. by destruct (missing (pw_dir pw)).
  - unfold check_as_user. change (lu_uid user1) with (pw_uid pw). destruct (Z.eqb_spec (pw_uid pw) (getuid k)) as [He | Hne]; cbn [negb].
    + destruct (getenv k (cstr "HOME")) as [h |] eqn:Hh; (split; [intros _ | done]); unfold default_home; cbn [lu_home set_home user1].
      * split; [by destruct (missing (Some h)) |]. split; try done; try (by destruct (missing (Some h))); try (intros; lia).
        unfold c_true. rewrite (proj2 (Z.eqb_neq _ 0)), Hh by done. simpl. by destruct h.
      * split; [by destruct (missing (pw_dir pw)) |]. split; try done; try (by destruct (missing (pw_dir pw))); try (intros; lia).
        unfold c_true. rewrite (proj2 (Z.eqb_neq _ 0)), Hh by done. simpl. by destruct (missing (pw_dir pw)).
    + split; [done |]. intros u' pw' Ha. pose proof (Hsame _ _ Ha) as ->. by destruct (ae_self _ _ _ _ _ Ha Hnz).
Qed.

(** What a look-up comes to, for a name that can be converted. *)
Lemma lookup_user_spec user name allow_root_login cname k :
  Forall is_byte name → lenZ name < 2 ^ 32 → 0 ∉ name → local_of name_flags name = Some cname →
  ∃ u ok, lookup_user user name allow_root_login k = Ok (k, inr (u, ok))
    ∧ (ok = true → (∃ s, lu_name u = Some s ∧ lsh_string_wf s ∧ contents s = cname ∧ 0 ∉ cname)
         ∧ ∃ pw, account_enabled k allow_root_login cname u pw)
    ∧ ∀ u' pw, account_enabled k allow_root_login cname u' pw → ok = true.
Proof.
  intros Hb Hl Hn Hloc. destruct (lookup_user_run user name allow_root_login cname k Hb Hl Hn Hloc) as (s & Hs & Hc & Hp & Hrun).
  rewrite Hrun. destruct (getpwnam k cname) as [pw |] eqn:Hpw.
  - pose proof (check_account_spec k allow_root_login cname pw (set_name (Some s) user) Hpw) as Hck.
    destruct (check_account k allow_root_login cname pw (set_name (Some s) user)) as [u ok]. destruct Hck as [Hok Hall].
    exists u, ok. split; [done |]. split; [| done]. intros Ht. destruct (Hok Ht) as [Hname Hacc]. split; [by exists s | by exists pw].
  - eexists _, false. split; [done |]. split; [done |]. intros u' pw [Hp' _ _ _ _ _ _]. congruence.
Qed.

Lemma lookup_user_refused user name allow_root_login k :
  0 ∈ name → lookup_user user name allow_root_login k = Ok (k, inr (user, false)).
Proof. intros Hn. unfold lookup_user. by rewrite bool_decide_true. Qed.

Lemma lookup_user_stops user name allow_root_login k :
  Forall is_byte name → lenZ name < 2 ^ 32 → 0 ∉ name → local_of name_flags name = None →
  lookup_user user name allow_root_login k = Fault AssertFailed.
Proof.
  intros Hb Hl Hn Hloc. pose proof (local_of_spec name_flags name Hb Hl) as Hs. rewrite Hloc in Hs.
  unfold lookup_user. rewrite bool_decide_false by done. by erewrite run_pure by exact Hs.
Qed.

(** C8: the look-up of a user.  A name with a NUL is refused and a name that
    has no form in the local character set, or holds control characters, stops
    the process at an assertion.  For any other name the look-up succeeds
    exactly if the rules for accounts enable the account of that name, and then
    the record describes this account. *)
Theorem lookup_user_correct user name allow_root_login k :
  Forall is_byte name → lenZ name < 2 ^ 32 →
  if decide (0 ∈ name) then lookup_user user name allow_root_login k = Ok (k, inr (user, false))
  else match local_of name_flags name with
  | None => lookup_user user name allow_root_login k = Fault AssertFailed
  | Some cname =>
      ∃ u ok, lookup_user user name allow_root_login k = Ok (k, inr (u, ok))
        ∧ (ok = true → (∃ s, lu_name u = Some s ∧ lsh_string_wf s ∧ contents s = cname ∧ 0 ∉ cname)
             ∧ ∃ pw, account_enabled k allow_root_login cname u pw)
        ∧ ∀ u' pw, account_enabled k allow_root_login cname u' pw → ok = true
  end.
Proof.
  intros Hb Hl. destruct (decide (0 ∈ name)) as [Hz | Hz]; [by apply lookup_user_refused |].
  destruct (local_of name_flags name) as [cname |] eqn:Hloc; [by apply lookup_user_spec | by apply lookup_user_stops].
Qed.

End accounts.
