(* ===== verification/UserAuthGrant.v ===== *)
(** * When access is granted

    What makes a request a good one, [authorised], is stated on the octets of
    the packet and the databases of the host; the functions of
    [lshd-userauth.c] grant exactly the good requests. *)

From S2P Require Import Prelude Ssh Nettle Atoms LshString Format FormatSpec Wire Parse ParseSpec ParseAtoms ParseUtf8 RoundTrip Sys SshRead ServiceRead Hash Crypto DhExchange Charset Service UserAuth UserAuthSpec.
Local Open Scope Z_scope.

(** ** The environment's promises *)

(** A C string of octets. *)
Definition c_text (s : list Z) : Prop := Forall (λ c, 0 < c < 256) s ∧ lenZ s < 2 ^ 28.

Lemma c_text_plain s : c_text s → 0 ∉ s.
Proof. intros [Hs _] Hin. rewrite Forall_forall in Hs. specialize (Hs 0 Hin). simpl in Hs. lia. Qed.

Lemma c_text_bytes s : c_text s → Forall is_byte s.
Proof. intros [Hs _]. eapply Forall_impl; [exact Hs |]. intros c Hc. unfold is_byte. simpl in Hc. lia. Qed.

Class HostOk `{Host} : Prop := {
  getpwnam_dir k n pw d : getpwnam k n = Some pw → pw_dir pw = Some d → c_text d;
  getpwnam_shell k n pw d : getpwnam k n = Some pw → pw_shell pw = Some d → c_text d;
  getenv_text k n v : getenv k n = Some v → c_text v;
  (** A user id that was set is in force, and stays so. *)
  setuid_getuid k u k' : setuid k u = (k', true) → getuid k' = u;
  chdir_getuid k d : getuid (chdir k d).1 = getuid k;
  dup2_getuid k a b : getuid (dup2 k a b).1 = getuid k;
  close_getuid k fd : getuid (close_fd k fd) = getuid k;
  socketpair_fds k k' a b : socketpair k = (k', Some (a, b)) → 0 <= a < 2 ^ 31 ∧ 0 <= b < 2 ^ 31;
}.

Class UserKeysOk `{UserKeys} : Prop := PUBLIC_SPKI_KEY_ok v : lsh_string_wf (PUBLIC_SPKI_KEY v).

(** ** Fields of a packet *)

Lemma be32_inj n m : is_u32 n → is_u32 m → be32 n = be32 m → n = m.
Proof.
  intros Hn Hm Heq. apply (f_equal be_value) in Heq. unfold be32 in Heq. unfold is_u32 in *.
  by rewrite !be_value_bytes in Heq by (simpl; lia).
Qed.

Lemma wire_string_inj a b s t :
  is_u32 (lenZ a) → is_u32 (lenZ b) → wire_string a ++ s = wire_string b ++ t → a = b ∧ s = t.
Proof.
  intros Ha Hb Heq. unfold wire_string in Heq. rewrite <- !app_assoc in Heq.
  apply app_inj_1 in Heq as [Hl Heq]; [| done].
  apply be32_inj in Hl; try done. apply app_inj_1 in Heq; [done | unfold lenZ in Hl; lia].
Qed.

Lemma cons_same {A} (x y : A) s t : x :: s = y :: t → x = y ∧ s = t.
Proof. by intros [= -> ->]. Qed.

Lemma wire_string_field d t :
  Forall is_byte (wire_string d ++ t) → lenZ (wire_string d ++ t) < 2 ^ 32 →
  Forall is_byte d ∧ is_u32 (lenZ d) ∧ Forall is_byte t ∧ lenZ t < 2 ^ 32.
Proof.
  rewrite lenZ_app, lenZ_wire_string. intros [Hd Ht]%Forall_app Hl. apply Forall_app in Hd as [_ Hd].
  pose proof (lenZ_nonneg t). pose proof (lenZ_nonneg d). unfold is_u32. split_and!; done || lia.
Qed.

Section parsers.
Context `{MallocOk} `{NettleMacrosOk} `{NettleBignumOk}.

#[export] Instance string_wire : Codec parse_string wire_string (λ d, Forall is_byte d ∧ is_u32 (lenZ d)).
Proof. apply string_codec. Qed.

(** An atom is the number of a short name. *)
Definition atom_field (a : Z) (e : list Z) : Prop :=
  ∃ name, Forall is_byte name ∧ lenZ name <= 64 ∧ e = wire_string name ∧ a = lookup_atom name.

#[export] Instance atom_denotes : Denotes parse_atom atom_field.
Proof.
  intros b Hwf. unfold parse_atom. destruct (codec_exact (p := parse_string) b Hwf) as (b' & r & Hp & Hw & _ & Hv).
  rewrite Hp, bind_ok_l.
  assert (∀ name tl, Forall is_byte name → lenZ name <= 64 → remaining b = wire_string name ++ tl →
    r = Some name ∧ remaining b' = tl) as Hr.
  { intros name tl Hb Hl Heq. pose proof (lenZ_nonneg name).
    destruct (codec_reads (p := parse_string) (enc := wire_string) name b tl) as (b2 & Hp2 & _ & Hr2);
      [split; [done | unfold is_u32; lia] | done | done |]. rewrite Hp in Hp2. by injection Hp2 as -> ->. }
  destruct r as [name |]; [destruct (Z.ltb_spec 64 (lenZ name)) as [Hlong | Hshort] |].
  - exists b', None. split; [done |]. split; [done |]. split; [done |].
    intros a e tl (n & Hb & Hl & -> & ->) Heq. destruct (Hr n tl Hb Hl Heq) as [[= ->] _]. lia.
  - exists b', (Some (lookup_atom name)). destruct (Hv name eq_refl) as [[Hb Hl] Heq].
    split; [done |]. split; [done |]. split.
    + intros v [= <-]. exists (wire_string name). split; [by exists name | exact Heq].
    + intros a e tl (n & Hb' & Hl' & -> & ->) Heq'. by destruct (Hr n tl Hb' Hl' Heq') as [[= ->] ->].
  - exists b', None. split; [done |]. split; [done |]. split; [done |].
    intros a e tl (n & Hb & Hl & -> & ->) Heq. by destruct (Hr n tl Hb Hl Heq).
Qed.

(** A parser moves in the packet and does not change it. *)
Class Keeps {A} (p : parser A) : Prop :=
  keeps b b' r : p b = Ok (b', r) → sb_data b' = sb_data b ∧ sb_capacity b' = sb_capacity b.

Lemma uint32_keeps : Keeps parse_uint32.
Proof.
  intros b b' r. unfold parse_uint32. destruct (LEFT b <? 4); [by intros [= <- _] |].
  destruct (read_uint32 (HERE b)); [by intros [= <- _] | done].
Qed.

Lemma octet_keeps (p : parser Z) :
  p = (λ b, if LEFT b =? 0 then Ok (b, None) else c ← rd (HERE b) 0; Ok (ADVANCE b 1, Some c)) → Keeps p.
Proof.
  intros -> b b' r. destruct (LEFT b =? 0); [by intros [= <- _] |]. destruct (rd (HERE b) 0); [by intros [= <- _] | done].
Qed.

#[export] Instance uint8_keeps : Keeps parse_uint8.
Proof. by apply octet_keeps. Qed.
#[export] Instance boolean_keeps : Keeps parse_boolean.
Proof. by apply octet_keeps. Qed.

#[export] Instance string_keeps : Keeps parse_string.
Proof.
  intros b b' r. unfold parse_string. destruct (parse_uint32 b) as [[b1 [l |]] |] eqn:Hp; simpl; [| by intros [= <- _]; apply uint32_keeps in Hp | done].
  apply uint32_keeps in Hp. destruct (LEFT b1 <? l); by intros [= <- _].
Qed.

#[export] Instance atom_keeps : Keeps parse_atom.
Proof.
  intros b b' r. unfold parse_atom. destruct (parse_string b) as [[b1 [n |]] |] eqn:Hp; simpl; [| by intros [= <- _]; apply string_keeps in Hp | done].
  apply string_keeps in Hp. destruct (64 <? lenZ n); by intros [= <- _].
Qed.

#[export] Instance then_keeps {A B} (p : parser A) (q : parser B) : Keeps p → Keeps q → Keeps (parse_then p q).
Proof.
  intros Hp Hq b b' r. unfold parse_then, mbind, parser_bind. destruct (p b) as [[b1 [x |]] |] eqn:Hb; simpl; [| by intros [= <- _]; apply Hp in Hb | done].
  apply Hp in Hb as [Hd Hc]. destruct (q b1) as [[b2 [y |]] |] eqn:Hb1; simpl; [| | done]; intros [= <- _]; apply Hq in Hb1 as [Hd1 Hc1]; by rewrite Hd1, Hc1.
Qed.

(** What was read of a packet. *)
Definition consumed (b : simple_buffer) : list Z := slice 0 (sb_pos b) (sb_data b).

Lemma consumed_remaining b : buffer_wf b → consumed b ++ remaining b = slice 0 (sb_capacity b) (sb_data b).
Proof.
  intros [Hp _ _ _]. unfold consumed, remaining. rewrite <- (slice_split 0) by lia. by rewrite Z.add_sub_assoc, Z.add_simpl_l.
Qed.

Lemma consumed_app b b' e :
  buffer_wf b → buffer_wf b' → sb_data b' = sb_data b ∧ sb_capacity b' = sb_capacity b →
  remaining b = e ++ remaining b' → consumed b' = consumed b ++ e.
Proof.
  intros Hb Hb' [Hd Hc] Hr. apply (app_inv_tail (remaining b')).
  by rewrite consumed_remaining, Hd, Hc, <- consumed_remaining, Hr, app_assoc.
Qed.

Context `{OS}.

Lemma parse_field {A B} (p : parser A) R (f : simple_buffer * option A → process B) E X Q b k :
  Denotes p R → Keeps p → buffer_wf b →
  (∀ b' v e, buffer_wf b' → sb_data b' = sb_data b ∧ sb_capacity b' = sb_capacity b → R v e → remaining b = e ++ remaining b' →
     consumed b' = consumed b ++ e → wpp E X (f (b', Some v)) Q k) →
  (∀ b', (∀ v e tl, R v e → remaining b ≠ e ++ tl) → wpp E X (f (b', None)) Q k) →
  wpp E X (pure (p b) ≫= f) Q k.
Proof.
  intros Hp Hk Hwf Hs Hn. destruct (Hp b Hwf) as (b' & r & Hpb & Hw & Hex & Hrd). eapply wpp_pure_ok; [exact Hpb |].
  destruct r as [v |].
  - destruct (Hex v eq_refl) as (e & HR & Heq). pose proof (keeps _ _ _ Hpb) as Hkeep.
    eapply Hs; [done | exact Hkeep | exact HR | exact Heq | by apply consumed_app].
  - apply Hn. intros v e tl HR Heq. by destruct (Hrd v e tl HR Heq).
Qed.

Lemma parse_end {B} (f : simple_buffer * option () → process B) E X Q b k :
  buffer_wf b → (remaining b = [] → wpp E X (f (b, Some ())) Q k) → (remaining b ≠ [] → wpp E X (f (b, None)) Q k) →
  wpp E X (pure (parse_eod b) ≫= f) Q k.
Proof.
  intros Hwf Hs Hn. eapply wpp_pure_ok; [by apply parse_eod_spec |]. case_bool_decide; auto.
Qed.

End parsers.

(** ** Good requests *)

Section grant.
Context `{MallocOk} `{NettleMacrosOk} `{NettleBignumOk} `{OSOk} `{!Host} `{!HostOk} `{Configured} `{HashFunctionsOk} `{Signatures} `{!UserKeys} `{!UserKeysOk}.

(** The file whose existence authorises a key. *)
Definition key_file (home : list Z) (v : verifier) : list Z :=
  home ++ cstr "/.lsh/authorized_keys_sha1/" ++ hex_bytes (hash_of nettle_sha1 (contents (PUBLIC_SPKI_KEY v))).

(** The password, in the local character set, is the one of the account. *)
Definition password_good (u : lshd_user) (password : list Z) : Prop :=
  ∃ cpassword crypted, local_of no_utf8_flags password = Some cpassword ∧ (0 ∉ cpassword)
    ∧ lu_crypted u = Some crypted ∧ 5 <= lenZ crypted ∧ crypt cpassword crypted = Some crypted.

Inductive password_evidence (config : lshd_userauth_config) (u : lshd_user) (rest : list Z) : Prop :=
  by_password password :
    uc_allow_password config = true →
    rest = 0 :: wire_string password → is_u32 (lenZ password) → password_good u password →
    password_evidence config u rest.

(** The key is one of the authorised keys of the account, and the signature is
    good for the session id followed by the request up to the signature. *)
Definition publickey_good (config : lshd_userauth_config) (k : os) (u : lshd_user) (head : list Z)
  (flag : Z) (algorithm key signature : list Z) : Prop :=
  ∃ v home, make_verifier (lookup_atom algorithm) key = Some v ∧ lu_home u = Some home ∧ stat k (key_file home v) = true
    ∧ VERIFY v (lookup_atom algorithm)
        (wire_string (contents (uc_session_id config)) ++ head ++ flag :: wire_string algorithm ++ wire_string key) signature = true.

Inductive publickey_evidence (config : lshd_userauth_config) (k : os) (u : lshd_user) (head rest : list Z) : Prop :=
  by_publickey flag algorithm key signature :
    uc_allow_publickey config = true →
    rest = flag :: wire_string algorithm ++ wire_string key ++ wire_string signature → flag ≠ 0 →
    is_u32 (lenZ algorithm) → is_u32 (lenZ key) → is_u32 (lenZ signature) →
    publickey_good config k u head flag algorithm key signature →
    publickey_evidence config k u head rest.

Definition request (user service method rest : list Z) : list Z :=
  SSH_MSG_USERAUTH_REQUEST :: wire_string user ++ wire_string service ++ wire_string method ++ rest.

Definition evidence (config : lshd_userauth_config) (k : os) (u : lshd_user) (head method rest : list Z) : Prop :=
  (method = cstr "password" ∧ password_evidence config u rest)
  ∨ (method = cstr "publickey" ∧ publickey_evidence config k u head rest).

(** The packet asks for this service in the name of the user [u], the account
    is enabled and the evidence is good. *)
Inductive authorised (config : lshd_userauth_config) (k : os) (packet : list Z) (u : lshd_user) (service : service_entry) : Prop :=
  authorised_intro user_utf8 service_name method rest cname pw name :
    packet = request user_utf8 service_name method rest →
    service_config_lookup (uc_services config) (lenZ service_name) service_name = Some service →
    (0 ∉ user_utf8) → local_of name_flags user_utf8 = Some cname →
    lu_name u = Some name → lsh_string_wf name → contents name = cname → (0 ∉ cname) →
    account_enabled k (uc_allow_root_login config) cname u pw →
    evidence config k u (request user_utf8 service_name method []) method rest →
    authorised config k packet u service.

(** [crypt] does not understand the password field of the account. *)
Definition null_crypt (u : lshd_user) (password : list Z) : Prop :=
  ∃ cpassword crypted, local_of no_utf8_flags password = Some cpassword ∧ lu_crypted u = Some crypted ∧ crypt cpassword crypted = None.

(** The requests at which the program stops by a fault. *)
Inductive stops (config : lshd_userauth_config) (k : os) (packet : list Z) : fault → Prop :=
  (** The assertion that the name of the user could be converted. *)
  | stops_name user_utf8 service_name method rest :
      packet = request user_utf8 service_name method rest → (0 ∉ user_utf8) →
      local_of name_flags user_utf8 = None → stops config k packet AssertFailed
  (** The result of [crypt] is used without a check. *)
  | stops_crypt user_utf8 service_name password cname u pw :
      packet = request user_utf8 service_name (cstr "password") (0 :: wire_string password) →
      local_of name_flags user_utf8 = Some cname →
      account_enabled k (uc_allow_root_login config) cname u pw → null_crypt u password → stops config k packet NullPointer.

(** *** Names *)

Lemma atom_name (a : Z) (w : string) name :
  a ≠ 0 → get_atom_name a = Ok (cstr w) → lookup_atom name = a ↔ name = cstr w ∧ lookup_atom (cstr w) = a.
Proof.
  intros Ha Hw. split; [| by intros [-> ->]]. intros Hn. destruct (lookup_atom_inv name) as [_ Hg]; [by rewrite Hn |].
  rewrite Hn, Hw in Hg. injection Hg as ->. done.
Qed.

Lemma method_password name : lookup_atom name = ATOM_PASSWORD ↔ name = cstr "password".
Proof.
  rewrite (atom_name ATOM_PASSWORD "password") by done. split; [by intros [] |]. intros ->. split; [done |]. by vm_compute.
Qed.

Lemma method_publickey name : lookup_atom name = ATOM_PUBLICKEY ↔ name = cstr "publickey".
Proof.
  rewrite (atom_name ATOM_PUBLICKEY "publickey") by done. split; [by intros [] |]. intros ->. split; [done |]. by vm_compute.
Qed.

Lemma password_field_unique k cname pw c c' : password_field k cname pw c → password_field k cname pw c' → c = c'.
Proof.
  intros Hf Hf'. destruct Hf as [Hx | sp Hh Hx Hsp], Hf' as [Hx' | sp' Hh' Hx' Hsp']; try done.
  - by rewrite Hh', Hx', bool_decide_true in Hx.
  - by rewrite Hh, Hx, bool_decide_true in Hx'.
  - congruence.
Qed.

(** The account decides the password field and the home directory. *)
Lemma account_same k r cname u pw u' pw' :
  account_enabled k r cname u pw → account_enabled k r cname u' pw' → lu_crypted u = lu_crypted u' ∧ lu_home u = lu_home u'.
Proof.
  intros [Hp _ _ _ Hs Hr Hh] [Hp' _ _ _ Hs' Hr' Hh']. rewrite Hp in Hp'. injection Hp' as <-. split; [| congruence].
  destruct (decide (getuid k = 0)) as [Hz | Hnz].
  - destruct (Hr Hz) as (_ & Hf & _), (Hr' Hz) as (_ & Hf' & _). by eapply password_field_unique.
  - destruct (Hs Hnz) as [_ ->], (Hs' Hnz) as [_ ->]. done.
Qed.

Lemma account_home k r cname u pw : account_enabled k r cname u pw → ∃ home, lu_home u = Some home ∧ c_text home.
Proof.
  intros [Hp _ _ _ _ _ ->]. set (h := if c_true (getuid k) then _ else _).
  assert (∀ d, h = Some d → c_text d) as Hd.
  { intros d. unfold h. destruct (c_true (getuid k)); [destruct (getenv k (cstr "HOME")) eqn:He |].
    - intros [= <-]. by eapply getenv_text.
    - by eapply getpwnam_dir.
    - by eapply getpwnam_dir. }
  clearbody h. cbv zeta. destruct h as [[| c d] |]; simpl; eexists; (split; [done |]); [| by apply Hd |];
    split; [by repeat constructor | done | by repeat constructor | done].
Qed.

Lemma protocol_error_wpp {A} E X msg (Q : A → os → Prop) k :
  lenZ (cstr msg) <= 1000 → (∀ e k', exits e k' → X e k') → wpp E X (protocol_error msg) Q k.
Proof.
  intros Hm HX. eapply (wpp_mono (λ _, False) _ _ _ _ (λ _ _, False)); [by apply send_error_wpp | by intros f [] | exact HX | by intros a k' []].
Qed.

(** *** Passwords *)

(** The end of [handle_password]. *)
Lemma password_check_wpp u pw k :
  Forall is_byte pw → is_u32 (lenZ pw) →
  wpp (λ f, f = NullPointer ∧ null_crypt u pw) (λ _ _, False)
    (password ← pure (low_utf8_to_local the_charset (lenZ pw) pw no_utf8_flags);
     match lsh_get_cstring password, lu_crypted u with
     | Some cpassword, Some crypted =>
         if lenZ crypted <? 5 then mret 0
         else c ← pure (deref (crypt (c_string cpassword) crypted)); mret (if bool_decide (c = crypted) then 1 else 0)
     | _, _ => mret 0
     end)
    (λ res k', k' = k ∧ ((res = 1 ∧ password_good u pw) ∨ (res = 0 ∧ ¬ password_good u pw))) k.
Proof.
  intros Hb Hl. unfold is_u32 in Hl. pose proof (local_of_spec no_utf8_flags pw Hb ltac:(lia)) as Hloc.
  destruct (local_of no_utf8_flags pw) as [cpw |] eqn:Hcpw.
  2: { eapply wpp_pure_ok; [exact Hloc |]. split; [done |]. right. split; [done |]. intros (? & ? & ? & _). congruence. }
  destruct Hloc as (s & Hs & Hw & Hc). eapply wpp_pure_ok; [exact Hs |].
  destruct (decide (0 ∈ cpw)) as [Hz | Hz].
  { unfold lsh_get_cstring. rewrite bool_decide_true by by rewrite Hc. split; [done |]. right. split; [done |].
    intros (cpw' & ? & Heq & Hz' & _). congruence. }
  destruct (get_cstring_plain s Hw) as (d & -> & Hd); [by rewrite Hc |]. rewrite Hd, Hc.
  destruct (lu_crypted u) as [crypted |] eqn:Hcr.
  2: { split; [done |]. right. split; [done |]. intros (? & ? & _ & _ & ? & _). congruence. }
  destruct (Z.ltb_spec (lenZ crypted) 5) as [Hlt | Hge].
  { split; [done |]. right. split; [done |]. intros (? & ? & _ & _ & ? & ? & _). simplify_eq. lia. }
  destruct (crypt cpw crypted) as [c |] eqn:Hcc; [| split; [done | by exists cpw, crypted]].
  eapply wpp_pure_ok; [done |]. apply wpp_ret. split; [done |]. case_bool_decide as He; [left | right]; (split; [done |]).
  - subst c. by exists cpw, crypted.
  - intros (? & ? & ? & _ & ? & _ & ?). simplify_eq.
Qed.

Lemma remaining_short b : buffer_wf b → lenZ (remaining b) < 2 ^ 32.
Proof. intros Hwf. rewrite <- LEFT_remaining by done. apply u32_range. Qed.

Lemma handle_password_wpp b u config k :
  buffer_wf b →
  wpp (λ f, f = NullPointer ∧ ∃ password, remaining b = 0 :: wire_string password ∧ null_crypt u password)
    (λ e k', exits e k' ∧ ¬ password_evidence config u (remaining b)) (handle_password b u config)
    (λ res k', k' = k ∧ ((res = 1 ∧ password_evidence config u (remaining b))
                         ∨ (res = 0 ∧ ¬ password_evidence config u (remaining b)))) k.
Proof.
  intros Hwf. unfold handle_password. destruct (uc_allow_password config) eqn:Hallow; simpl.
  2: { split; [done |]. right. split; [done |]. intros []. congruence. }
  pose proof (remaining_bytes b Hwf) as Hb. eapply (parse_field _ _ _ _ _ _ _ _ _ _ Hwf).
  2: { intros b' Hno. apply protocol_error_wpp; [by vm_compute |].
       intros e k' Hx. split; [done |]. intros [pw _ Heq Hl _]. rewrite Heq in Hb. apply Forall_cons in Hb as [_ Hb].
       apply Forall_app in Hb as [_ Hb]. apply (Hno (0, pw) ([0] ++ wire_string pw) []); [by split_and! | by rewrite Heq, app_nil_r]. }
  intros b' [change pw] e Hw' _ [(Hc & Hpb & Hpl) ->] Hrem _. cbn [fst snd] in *. cbv beta iota.
  assert (password_evidence config u (remaining b) ↔ change = 0 ∧ remaining b' = [] ∧ password_good u pw) as Hev.
  { rewrite Hrem. split.
    - intros [pw' _ Heq Hl Hg]. cbn [app] in Heq. apply cons_same in Heq as [-> Heq]. rewrite <- (app_nil_r (wire_string pw')) in Heq.
      by apply wire_string_inj in Heq as [-> ->].
    - intros (-> & -> & Hg). apply (by_password _ _ _ pw); try done. by rewrite app_nil_r. }
  destruct (c_true change) eqn:Hch.
  { split; [done |]. right. split; [done |]. rewrite Hev. intros [-> _]. done. }
  assert (change = 0) as -> by (unfold c_true in Hch; lia).
  apply parse_end; [done | intros Hnil | intros Hmore].
  2: { apply protocol_error_wpp; [by vm_compute |]. intros e k' Hx. split; [done |]. rewrite Hev. by intros (_ & ? & _). }
  eapply wpp_mono; [by apply password_check_wpp | intros f [-> Hnull]; split; [done |]; exists pw; by rewrite Hrem, Hnil, app_nil_r | done |]. intros res k' [-> Hres]. split; [done |]. rewrite Hev.
  destruct Hres as [[-> Hg] | [-> Hg]]; [left | right]; (split; [done |]); [done | by intros (_ & _ & ?)].
Qed.

(** *** Public keys *)

Lemma hex_bytes_text l : Forall is_byte l → Forall (λ c, 0 < c < 256) (hex_bytes l).
Proof.
  intros Hl. unfold hex_bytes. apply Forall_concat, Forall_fmap. eapply Forall_impl; [exact Hl |].
  intros b Hb. unfold is_byte in Hb. simpl. pose proof (Z.mod_pos_bound b 16 ltac:(lia)).
  assert (0 <= b `div` 16 < 16) by (split; [apply Z.div_pos; lia | apply Z.div_lt_upper_bound; lia]).
  unfold hex_digit. repeat constructor; destruct (_ <? 10); lia.
Qed.

Lemma text_app s t : c_text s → Forall (λ c, 0 < c < 256) t → lenZ s + lenZ t < 2 ^ 28 → c_text (s ++ t).
Proof. intros [Hs _] Ht Hl. split; [by apply Forall_app | by rewrite lenZ_app]. Qed.

(** A formatted C string. *)
Lemma formats_cstring m bs : formats m bs → 0 ∉ bs → ∃ s d, m = Ok s ∧ lsh_get_cstring (Some s) = Some d ∧ c_string d = bs.
Proof.
  intros (s & -> & Hs & <-) Hn. destruct (get_cstring_plain s Hs Hn) as (d & Hd & Hc). by exists s, d.
Qed.

Lemma formats_key_file home h v :
  c_text home → lsh_string_wf h → contents h = hash_of nettle_sha1 (contents (PUBLIC_SPKI_KEY v)) →
  formats (ssh_format_string ("%lz/.lsh/" ++ AUTHORIZATION_DIR ++ "/%lxfS") [FCstr home; FStr h]) (key_file home v).
Proof.
  intros Hh Hw Hc. pose proof Hh as [_ Hl]. pose proof (lenZ_nonneg home).
  destruct (hash_of_ok nettle_sha1 (contents (PUBLIC_SPKI_KEY v))) as [_ Hhl]. pose proof (digest_size_ok nettle_sha1).
  change ("%lz/.lsh/" +:+ AUTHORIZATION_DIR +:+ "/%lxfS") with "%lz/.lsh/authorized_keys_sha1/%lxfS"%string. eapply formats_spec.
  - unfold spec_format. cbn -[cstr UINT32_MAX contents lenZ]. unfold UINT32_MAX.
    rewrite (proj2 (Z.ltb_ge _ (lenZ home))) by lia. cbn -[contents lenZ hex_bytes slice]. reflexivity.
  - cbn -[contents lenZ hex_bytes slice]. unfold key_file. rewrite <- Hc, slice_all, <- (lenZ_contents h Hw), slice_all. by rewrite app_nil_r.
  - apply Forall_cons. split; [by apply c_text_bytes |]. by farg_list.
  - unfold key_file. rewrite !lenZ_app, lenZ_hex_bytes. change (lenZ (cstr _)) with 27. lia.
Qed.

Lemma key_file_plain home v : c_text home → 0 ∉ key_file home v.
Proof.
  intros Hh Hin. unfold key_file in Hin. apply elem_of_app in Hin as [Hin | Hin]; [by apply (c_text_plain home) |].
  destruct (hash_of_ok nettle_sha1 (contents (PUBLIC_SPKI_KEY v))) as [Hb _]. pose proof (hex_bytes_text _ Hb) as Ht.
  apply elem_of_app in Hin as [Hin | Hin]; [revert Hin; apply (bool_decide_unpack _); by vm_compute |].
  rewrite Forall_forall in Ht. specialize (Ht 0 Hin). simpl in Ht. lia.
Qed.

Lemma get_verifier_run u a key k home :
  lu_home u = Some home → c_text home →
  get_verifier u a key k
  = Ok (k, inr (match make_verifier a key with Some v => if stat k (key_file home v) then Some v else None | None => None end)).
Proof.
  intros Hh Ht. unfold get_verifier. destruct (make_verifier a key) as [v |]; [| done]. rewrite Hh. erewrite run_pure by done.
  cbv zeta. pose proof (PUBLIC_SPKI_KEY_ok v) as Hspki.
  assert (∃ h, hash_string_l nettle_sha1 (lsh_string_length (PUBLIC_SPKI_KEY v)) (lsh_string_data (PUBLIC_SPKI_KEY v)) = Ok h
    ∧ lsh_string_wf h ∧ contents h = hash_of nettle_sha1 (contents (PUBLIC_SPKI_KEY v))) as (h & Hhash & Hwh & Hch).
  { unfold hash_string_l. rewrite hash_update_string, bind_ok_l by done.
    destruct (hash_digest_string_spec (mk_hash nettle_sha1 (contents (PUBLIC_SPKI_KEY v)))) as (s & Hs & Hw & _ & Hc).
    simpl. rewrite Hs, bind_ok_l. by exists s. }
  erewrite run_pure by exact Hhash.
  destruct (formats_cstring _ _ (formats_key_file home h v Ht Hwh Hch) (key_file_plain home v Ht)) as (s & d & Hs & Hd & Hc).
  erewrite run_pure by exact Hs. rewrite Hd. erewrite run_pure by done. erewrite run_pure by done. rewrite Hc. done.
Qed.

(** Which algorithms there are. *)
Lemma make_verifier_atom a key v : make_verifier a key = Some v → ∃ name, a ≠ 0 ∧ get_atom_name a = Ok name ∧ lenZ name <= 64.
Proof.
  unfold make_verifier, ATOM_SSH_DSS, ATOM_SSH_DSA_SHA256_LOCAL, ATOM_SSH_RSA.
  destruct (Z.eqb_spec a 34) as [-> | _]; [intros _; by eexists |]. destruct (Z.eqb_spec a 37) as [-> | _]; [intros _; by eexists |].
  destruct (Z.eqb_spec a 35) as [-> | _]; [intros _; by eexists | done].
Qed.

Lemma formats_pk_ok a name key :
  a ≠ 0 → get_atom_name a = Ok name → lenZ name <= 64 → Forall is_byte key → lenZ key < 2 ^ 30 →
  formats (format_userauth_pk_ok a key) (SSH_MSG_USERAUTH_PK_OK :: wire_string name ++ wire_string key).
Proof.
  intros Ha Hn Hl Hb Hk. pose proof (lenZ_nonneg key). pose proof (lenZ_nonneg name). unfold format_userauth_pk_ok. eapply formats_spec.
  - unfold spec_format. cbn -[lenZ u32 u8]. rewrite (proj2 (Z.eqb_neq a 0)) by done. rewrite Hn. cbn -[lenZ u32 u8 spec_string].
    rewrite u32_id, Z.ltb_irrefl by (unfold is_u32; lia). reflexivity.
  - cbn -[lenZ be32 slice]. by rewrite slice_all, app_nil_r.
  - by farg_list.
  - rewrite lenZ_cons, lenZ_app, !lenZ_wire_string. lia.
Qed.

Lemma formats_signed_data config start d :
  lsh_string_wf (uc_session_id config) → ls_length (uc_session_id config) < 2 ^ 30 → Forall is_byte d → 0 <= start <= lenZ d → start < 2 ^ 30 →
  formats (ssh_format_string "%S%ls" [FStr (uc_session_id config); FInt start; FBytes d])
    (wire_string (contents (uc_session_id config)) ++ slice 0 start d).
Proof.
  intros Hw Hl Hd Hs Hs2. pose proof (lenZ_contents _ Hw) as Hc. pose proof (wf_length _ Hw) as Hl0. unfold is_u32 in Hl0. eapply formats_spec.
  - unfold spec_format. cbn -[lenZ u32 u8 spec_string]. rewrite u32_id by (unfold is_u32; lia).
    rewrite (proj2 (Z.ltb_ge _ start)) by lia. reflexivity.
  - cbn -[lenZ be32 slice contents]. unfold wire_string. by rewrite <- Hc, slice_all, app_nil_r.
  - by farg_list.
  - rewrite lenZ_app, lenZ_wire_string, Hc, lenZ_slice by lia. lia.
Qed.

Definition config_ok (config : lshd_userauth_config) : Prop :=
  lsh_string_wf (uc_session_id config) ∧ ls_length (uc_session_id config) < 2 ^ 30.

Lemma publickey_fields b flag alg key tl head :
  remaining b = flag :: wire_string alg ++ wire_string key ++ tl → is_u32 (lenZ alg) → is_u32 (lenZ key) →
  ∀ config k u, uc_allow_publickey config = true →
  publickey_evidence config k u head (remaining b)
  ↔ flag ≠ 0 ∧ ∃ sig, tl = wire_string sig ∧ is_u32 (lenZ sig) ∧ publickey_good config k u head flag alg key sig.
Proof.
  intros Hr Ha Hk config k u Hallow. rewrite Hr. split.
  - intros [flag' alg' key' sig _ Heq Hf Ha' Hk' Hs Hg]. apply cons_same in Heq as [-> Heq].
    apply wire_string_inj in Heq as [-> Heq]; try done. apply wire_string_inj in Heq as [-> ->]; try done. split; [done |]. by exists sig.
  - intros (Hf & sig & -> & Hs & Hg). by apply (by_publickey _ _ _ _ _ flag alg key sig).
Qed.

(** The end of [handle_publickey], once the key is known. *)
Lemma signature_check_wpp b b' u config k home flag alg key sig e :
  config_ok config → buffer_wf b' → sb_capacity b' < 2 ^ 30 → lu_home u = Some home → c_text home → 
  consumed b' = consumed b ++ e → e = flag :: wire_string alg ++ wire_string key →
  wpp safe_faults (λ _ _, False)
    (v ← get_verifier u (lookup_atom alg) key;
     match v with
     | None => mret 0
     | Some v =>
         signed_data ← pure (ssh_format_string "%S%ls" [FStr (uc_session_id config); FInt (sb_pos b'); FBytes (sb_data b')]);
         mret (if VERIFY v (lookup_atom alg) (contents signed_data) sig then 1 else 0)
     end)
    (λ res k', k' = k ∧ ((res = 1 ∧ publickey_good config k u (consumed b) flag alg key sig)
                         ∨ (res = 0 ∧ ¬ publickey_good config k u (consumed b) flag alg key sig))) k.
Proof.
  intros [Hsw Hsl] [Hpos Hcap Hdata Hbytes] Hsmall Hh Ht Hcons ->. apply wpp_bind. unfold wpp at 1. rewrite (get_verifier_run _ _ _ _ _ Hh Ht).
  destruct (make_verifier (lookup_atom alg) key) as [v |] eqn:Hv; [destruct (stat k (key_file home v)) eqn:Hst |].
  2, 3: split; [done |]; right; split; [done |]; intros (v' & home' & ? & ? & ? & _); congruence.
  destruct (formats_signed_data config (sb_pos b') (sb_data b') Hsw Hsl Hbytes) as (s & Hs & _ & Hc); [lia | lia |].
  eapply wpp_pure_ok; [exact Hs |]. apply wpp_ret. split; [done |]. fold (consumed b') in Hc. rewrite Hc, Hcons.
  destruct (VERIFY _ _ _ _) eqn:Hver; [left | right]; (split; [done |]).
  - exists v, home. by split_and!.
  - intros (v' & home' & ? & ? & ? & Hver'). simplify_eq. congruence.
Qed.

Lemma handle_publickey_wpp b u config k home :
  config_ok config → buffer_wf b → sb_capacity b < 2 ^ 30 → lu_home u = Some home → c_text home →
  let ev := publickey_evidence config k u (consumed b) (remaining b) in
  wpp safe_faults (λ e k', exits e k' ∧ ¬ ev) (handle_publickey b u config)
    (λ res k', (k' = k ∧ res = 1 ∧ ev) ∨ (k' = k ∧ res = 0 ∧ ¬ ev) ∨ (res = -1 ∧ ¬ ev ∧ delivered k' = delivered k)) k.
Proof.
  intros Hcfg Hwf Hsmall Hh Ht ev. unfold handle_publickey. destruct (uc_allow_publickey config) eqn:Hallow; simpl.
  2: { right. left. split; [done |]. split; [done |]. intros []. congruence. }
  pose proof (remaining_bytes b Hwf) as Hb. pose proof (remaining_short b Hwf) as Hl.
  eapply (parse_field _ _ _ _ _ _ _ _ _ _ Hwf).
  2: { intros b' Hno. apply protocol_error_wpp; [by vm_compute |]. intros e k' Hx. split; [done |].
       intros [flag alg key sig _ Heq _ Ha Hk Hs (v & home' & Hv & _)]. rewrite Heq in Hb, Hl. rewrite lenZ_cons in Hl.
       apply Forall_cons in Hb as [Hfb Hb]. destruct (wire_string_field alg _ Hb) as (Hab & _ & Hb2 & Hl2); [lia |].
       destruct (wire_string_field key _ Hb2 Hl2) as (Hkb & _ & _).
       destruct (make_verifier_atom _ _ _ Hv) as (name & Hn0 & Hname & Hnl).
       destruct (lookup_atom_inv alg Hn0) as [_ Hg]. rewrite Hname in Hg. injection Hg as ->.
       apply (Hno (flag, (lookup_atom alg, key)) (flag :: wire_string alg ++ wire_string key) (wire_string sig)).
       - exists [flag], (wire_string alg ++ wire_string key). split; [done |]. split; [done |].
         exists (wire_string alg), (wire_string key). split; [done |]. split; [by exists alg | done].
       - by rewrite Heq, <- app_comm_cons, <- app_assoc. }
  intros b' [flag [a key]] e Hw' Hd' (e1 & e2 & -> & [Hfb ->] & e3 & e4 & -> & (alg & Hab & Hal & -> & Heqa) & [[Hkb Hkl] ->]) Hrem Hcons.
  cbn [fst snd] in *. subst a. cbv beta iota. rewrite <- !app_assoc in Hrem. cbn [app] in Hrem.
  assert (is_u32 (lenZ alg)) as Hau by (pose proof (lenZ_nonneg alg); unfold is_u32; lia).
  pose proof (publickey_fields b flag alg key _ (consumed b) Hrem Hau Hkl config k u Hallow) as Hev. fold ev in Hev.
  assert (sb_capacity b' < 2 ^ 30) as Hsmall' by (destruct Hd' as [_ ->]; done).
  destruct (decide (flag = 0)) as [-> | Hf].
  - (* only asking whether the key would do *)
    change (c_true 0) with false. cbv iota. apply wpp_bind, wpp_ret.
    assert (¬ ev) as Hno by (rewrite Hev; by intros [? _]).
    apply parse_end; [done | intros Hnil | intros Hmore]; [| apply protocol_error_wpp; [by vm_compute | done]].
    apply wpp_bind. unfold wpp at 1. rewrite (get_verifier_run _ _ _ _ _ Hh Ht).
    destruct (make_verifier (lookup_atom alg) key) as [v |] eqn:Hv; [destruct (stat k (key_file home v)) |].
    2, 3: right; left; by split_and!.
    cbn [negb]. destruct (make_verifier_atom _ _ _ Hv) as (name & Hn0 & Hname & Hnl). apply wpp_bind.
    assert (lenZ key < 2 ^ 30) as Hk30.
    { pose proof (LEFT_remaining b Hwf) as HL. destruct Hwf as [Hp _ _ _]. unfold LEFT in HL. rewrite u32_id in HL by (unfold is_u32; lia).
      rewrite Hrem, lenZ_cons, !lenZ_app, !lenZ_wire_string in HL. pose proof (lenZ_nonneg alg). pose proof (lenZ_nonneg (remaining b')). lia. }
    eapply wpp_mono; [eapply send_wpp; [by apply (formats_pk_ok _ name) |] | done | by intros e k' [] |].
    2: { intros [] k' [_ Hdel]. by right; right. }
    rewrite lenZ_cons, lenZ_app, !lenZ_wire_string. lia.
  - assert (c_true flag = true) as -> by (unfold c_true; by rewrite (proj2 (Z.eqb_neq flag 0) Hf)). cbn [negb]. apply wpp_bind.
    eapply (parse_field _ _ _ _ _ _ _ _ _ _ Hw').
    2: { intros b2 Hno. apply protocol_error_wpp; [by vm_compute |]. intros e k' Hx. split; [done |].
         rewrite Hev. intros (_ & sig & Hs & Hsl & _). pose proof (remaining_bytes b' Hw') as Hb'. rewrite Hs in Hb'.
         apply Forall_app in Hb' as [_ Hb']. apply (Hno sig (wire_string sig) []); [done | by rewrite Hs, app_nil_r]. }
    intros b2 sig e Hw2 [Hd2 Hc2] [[Hsb Hsl] ->] Hrem2 _. apply wpp_ret. cbv beta iota.
    assert (ev ↔ remaining b2 = [] ∧ publickey_good config k u (consumed b) flag alg key sig) as Hev2.
    { rewrite Hev, Hrem2. split.
      - intros (_ & sig' & Heq & Hsl' & Hg). rewrite <- (app_nil_r (wire_string sig')) in Heq. by apply wire_string_inj in Heq as [-> ->].
      - intros [-> Hg]. split; [done |]. exists sig. by rewrite app_nil_r. }
    apply parse_end; [done | intros Hnil | intros Hmore];
      [| apply protocol_error_wpp; [by vm_compute |]; intros e k' Hx; split; [done |]; rewrite Hev2; by intros [? _]].
    rewrite Hd2. eapply wpp_mono;
      [eapply (signature_check_wpp b b' u config k home flag alg key sig _); try done; by rewrite <- app_comm_cons in Hcons | done | done |].
    intros res k' [-> [[-> Hg] | [-> Hg]]]; [left | right; left]; (split; [done |]; split; [done |]; rewrite Hev2); [done | by intros [_ ?]].
Qed.

(** *** Requests *)

Definition method_names (config : lshd_userauth_config) : list (list Z) :=
  (if uc_allow_password config then [cstr "password"] else []) ++ (if uc_allow_publickey config then [cstr "publickey"] else []).

Lemma formats_failure config :
  formats (format_userauth_failure (auth_methods config) 0)
    (SSH_MSG_USERAUTH_FAILURE :: wire_string (join_commas (method_names config)) ++ [0]).
Proof.
  unfold format_userauth_failure, auth_methods, method_names.
  destruct (uc_allow_password config), (uc_allow_publickey config); simpl;
    (eapply formats_spec; [vm_compute; reflexivity | vm_compute; reflexivity | repeat constructor | by vm_compute]).
Qed.

Lemma formats_success : formats format_userauth_success [SSH_MSG_USERAUTH_SUCCESS].
Proof. by apply formats_byte. Qed.

Definition success_frame : list Z := service_frame 0 [SSH_MSG_USERAUTH_SUCCESS].

(** What a request may come to. *)
Definition request_ends (config : lshd_userauth_config) (k : os) (packet : list Z) (e : ending) (k' : os) : Prop :=
  exits e k' ∧ ∀ u s, authorised config k packet u s → ∃ p, p `prefix_of` success_frame ∧ sent p k k'.

Definition request_done (config : lshd_userauth_config) (k : os) (packet : list Z) (r : attempt) (k' : os) : Prop :=
  match r with
  | Again _ => (∀ u s, ¬ authorised config k packet u s) ∧ delivered k' = delivered k
  | Granted u s => authorised config k packet u s ∧ sent success_frame k k'
  end.

Lemma refused_ends config k packet e k' :
  (∀ u s, ¬ authorised config k packet u s) → exits e k' → request_ends config k packet e k'.
Proof. intros Hno Hx. split; [done |]. intros u s Ha. by destruct (Hno u s). Qed.

Lemma refuse_wpp E config user packet k :
  (∀ u s, ¬ authorised config k packet u s) →
  wpp E (request_ends config k packet) (refuse config user) (request_done config k packet) k.
Proof.
  intros Hno. unfold refuse. eapply (wpp_mono E E exits _ _ (λ r k', (∃ u, r = Again u) ∧ delivered k' = delivered k)); [| done | | by intros ? ? [[u ->] Hd]].
  - eapply send_plain; [apply formats_failure | | intros k' [_ Hd]; split; [by eexists | done]].
    rewrite lenZ_cons, lenZ_app, lenZ_wire_string. unfold method_names.
    destruct (uc_allow_password config), (uc_allow_publickey config); by vm_compute.
  - intros e k'. by apply refused_ends.
Qed.

(** The fields of a request are determined. *)
Lemma request_inj u s m r u' s' m' r' :
  is_u32 (lenZ u) → is_u32 (lenZ s) → is_u32 (lenZ m) → is_u32 (lenZ u') → is_u32 (lenZ s') → is_u32 (lenZ m') →
  request u s m r = request u' s' m' r' → u = u' ∧ s = s' ∧ m = m' ∧ r = r'.
Proof.
  intros Hu Hs Hm Hu' Hs' Hm' Heq. apply cons_same in Heq as [_ Heq].
  apply wire_string_inj in Heq as [-> Heq]; try done. apply wire_string_inj in Heq as [-> Heq]; try done.
  by apply wire_string_inj in Heq as [-> ->].
Qed.

Lemma request_fields u s m r :
  Forall is_byte (request u s m r) → lenZ (request u s m r) < 2 ^ 32 →
  (Forall is_byte u ∧ is_u32 (lenZ u)) ∧ (Forall is_byte s ∧ is_u32 (lenZ s)) ∧ (Forall is_byte m ∧ is_u32 (lenZ m)).
Proof.
  unfold request. rewrite lenZ_cons. intros [_ Hb]%Forall_cons Hl.
  destruct (wire_string_field u _ Hb) as (? & ? & Hb2 & Hl2); [lia |].
  destruct (wire_string_field s _ Hb2 Hl2) as (? & ? & Hb3 & Hl3). by destruct (wire_string_field m _ Hb3 Hl3) as (? & ? & _).
Qed.

Lemma methods_differ : cstr "password" ≠ cstr "publickey".
Proof. by vm_compute. Qed.

(** Dispatch on the method. *)
Lemma dispatch_wpp b u config k name home :
  config_ok config → buffer_wf b → sb_capacity b < 2 ^ 30 → lu_home u = Some home → c_text home →
  let ev := evidence config k u (consumed b) name (remaining b) in
  wpp (λ f, f = NullPointer ∧ name = cstr "password" ∧ ∃ password, remaining b = 0 :: wire_string password ∧ null_crypt u password)
    (λ e k', exits e k' ∧ ¬ ev) (dispatch_method (lookup_atom name) b u config)
    (λ res k', (k' = k ∧ res = 1 ∧ ev) ∨ (k' = k ∧ res = 0 ∧ ¬ ev) ∨ (res = -1 ∧ ¬ ev ∧ delivered k' = delivered k)) k.
Proof.
  intros Hcfg Hwf Hsmall Hh Ht ev. unfold dispatch_method.
  destruct (Z.eqb_spec (lookup_atom name) ATOM_PUBLICKEY) as [Hm | Hnk].
  { apply method_publickey in Hm. assert (ev ↔ publickey_evidence config k u (consumed b) (remaining b)) as Hev.
    { unfold ev, evidence. split; [intros [[Hp _] | [_ He]]; [destruct methods_differ; congruence | done] | by right]. }
    eapply wpp_mono; [by eapply handle_publickey_wpp | by intros f [] | |]; intros *; rewrite Hev; done. }
  destruct (Z.eqb_spec (lookup_atom name) ATOM_PASSWORD) as [Hm | Hnp].
  { apply method_password in Hm. assert (ev ↔ password_evidence config u (remaining b)) as Hev.
    { unfold ev, evidence. split; [intros [[_ He] | [Hp _]]; [done | destruct methods_differ; congruence] | by left]. }
    eapply wpp_mono; [by apply handle_password_wpp | by intros f [-> ?] | intros *; by rewrite Hev |].
    intros res k' [-> Hres]. rewrite Hev. tauto. }
  apply wpp_ret. right. left. split; [done |]. split; [done |]. unfold ev, evidence.
  intros [[Hp _] | [Hp _]]; [by apply Hnp, method_password | by apply Hnk, method_publickey].
Qed.

Lemma evidence_same config k u u' head method rest :
  lu_crypted u = lu_crypted u' → lu_home u = lu_home u' →
  evidence config k u' head method rest → evidence config k u head method rest.
Proof.
  intros Hc Hh [[Hm [pw Hallow Hr Hl (cpw & crypted & Hg)]] | [Hm [flag alg key sig Hallow Hr Hf Ha Hk Hs (v & home & Hg)]]]; [left | right];
    (split; [done |]).
  - apply (by_password _ _ _ pw); try done. exists cpw, crypted. by rewrite Hc.
  - apply (by_publickey _ _ _ _ _ flag alg key sig); try done. exists v, home. by rewrite Hh.
Qed.

(** A request whose fields have been read. *)
Lemma known_request_wpp b user config k packet user_utf8 service_name method :
  config_ok config → buffer_wf b → sb_capacity b < 2 ^ 30 → Forall is_byte packet → lenZ packet < 2 ^ 32 →
  packet = request user_utf8 service_name method (remaining b) → consumed b = request user_utf8 service_name method [] →
  wpp (stops config k packet) (request_ends config k packet)
    (match service_config_lookup (uc_services config) (lenZ service_name) service_name with
     | None => refuse config user
     | Some service =>
         '(user, ok) ← lookup_user user user_utf8 (uc_allow_root_login config);
         if negb ok then refuse config user
         else
           res ← dispatch_method (lookup_atom method) b user config;
           if res =? 0 then refuse config user
           else if res =? -1 then mret (Again user)
           else if res =? 1 then send format_userauth_success;; mret (Granted user service)
           else pure c_fatal
     end) (request_done config k packet) k.
Proof.
  intros Hcfg Hwf Hsmall Hpb Hpl Hpk Hcons. pose proof Hpb as Hf. rewrite Hpk in Hf, Hpl.
  destruct (request_fields _ _ _ _ Hf Hpl) as ((Hub & Hul) & (Hsb & Hsl) & (Hmb & Hml)). rewrite <- Hpk in Hpl.
  (* what authorises the packet is about these fields *)
  assert (∀ u s, authorised config k packet u s →
    service_config_lookup (uc_services config) (lenZ service_name) service_name = Some s ∧ (0 ∉ user_utf8)
    ∧ ∃ cname pw, local_of name_flags user_utf8 = Some cname ∧ account_enabled k (uc_allow_root_login config) cname u pw
      ∧ evidence config k u (consumed b) method (remaining b)) as Hauth.
  { intros u s [u8 sn m rest cname pw name Heq Hserv Hz Hloc _ _ _ _ Hacc Hev].
    rewrite Heq in Hpb, Hpl. destruct (request_fields _ _ _ _ Hpb Hpl) as ((_ & Hul') & (_ & Hsl') & (_ & Hml')).
    rewrite Hpk in Heq. apply request_inj in Heq as (-> & -> & -> & ->); try done. rewrite Hcons. eauto 10. }
  destruct (service_config_lookup _ _ _) as [service |] eqn:Hserv.
  2: { apply refuse_wpp. intros u s Ha. by destruct (Hauth u s Ha). }
  destruct (decide (0 ∈ user_utf8)) as [Hz | Hz].
  { apply wpp_bind. unfold wpp at 1. rewrite lookup_user_refused by done. apply refuse_wpp. intros u s Ha. by destruct (Hauth u s Ha) as (_ & ? & _). }
  unfold is_u32 in Hul. destruct (local_of name_flags user_utf8) as [cname |] eqn:Hloc.
  2: { apply wpp_bind. unfold wpp at 1. rewrite lookup_user_stops by (done || lia). by eapply stops_name. }
  destruct (lookup_user_spec user user_utf8 (uc_allow_root_login config) cname k) as (u & ok & Hrun & Hok & Hall); [done | lia | done | done |].
  apply wpp_bind. unfold wpp at 1. rewrite Hrun. cbv beta iota. destruct ok; cbn [negb].
  2: { apply refuse_wpp. intros u' s Ha. destruct (Hauth u' s Ha) as (_ & _ & cn & pw & ? & Hacc & _). simplify_eq. by specialize (Hall _ _ Hacc). }
  destruct (Hok eq_refl) as [(name & Hname & Hnw & Hnc & Hnz) (pw & Hacc)]. destruct (account_home _ _ _ _ _ Hacc) as (home & Hh & Ht).
  assert (∀ u' s, authorised config k packet u' s → evidence config k u (consumed b) method (remaining b)) as Hevid.
  { intros u' s Ha. destruct (Hauth u' s Ha) as (_ & _ & cn & pw' & ? & Hacc' & Hev). simplify_eq.
    destruct (account_same _ _ _ _ _ _ _ Hacc Hacc') as [Hsc Hsh]. by apply (evidence_same _ _ _ u'). }
  apply wpp_bind. eapply wpp_mono; [by eapply (dispatch_wpp b u config k method home) | | |].
  - intros f (-> & -> & password & Hrest & Hnull). rewrite Hrest in Hpk. by eapply stops_crypt.
  - intros e k' [Hx Hno]. apply refused_ends; [| done]. intros u' s Ha. by apply Hno, (Hevid u' s).
  - intros res k' [(-> & -> & Hev) | [(-> & -> & Hno) | (-> & Hno & Hdel)]]; simpl.
    + apply wpp_bind. eapply wpp_mono; [apply send_wpp; [apply formats_success | done] | done | |].
      * intros e k' [Hx Hp]. split; [done |]. by intros _ _ _.
      * intros [] k2 Hs. split; [| done]. rewrite Hcons in Hev. by eapply authorised_intro.
    + apply refuse_wpp. intros u' s Ha. by apply Hno, (Hevid u' s).
    + split; [| done]. intros u' s Ha. by apply Hno, (Hevid u' s).
Qed.

Lemma handle_request_wpp user config seqno p k :
  config_ok config → lsh_string_wf p → ls_length p <= SSH_MAX_PACKET →
  wpp (stops config k (contents p)) (request_ends config k (contents p)) (handle_request user config seqno p)
    (request_done config k (contents p)) k.
Proof.
  intros Hcfg Hp Hl. destruct (string_buffer_wf p Hp) as [Hwf Hr]. unfold handle_request. fold (string_buffer p).
  pose proof (contents_bytes p Hp) as Hb. pose proof (lenZ_contents p Hp) as Hlc. pose proof (wf_length _ Hp) as Hu. unfold is_u32 in Hu.
  assert (∀ u s, authorised config k (contents p) u s → ∃ a b m r, contents p = request a b m r ∧ lenZ m <= 64) as Hform.
  { intros u s [a b m r ? ? ? -> _ _ _ _ _ _ _ _ Hev]. exists a, b, m, r. split; [done |]. by destruct Hev as [[-> _] | [-> _]]. }
  cbv zeta. eapply (parse_field _ _ _ _ _ _ _ _ _ _ Hwf).
  2: { intros b' Hno. apply protocol_error_wpp; [by vm_compute |]. intros e k'. apply refused_ends.
       intros u s Ha. destruct (Hform u s Ha) as (a & b & m & r & Heq & _). rewrite Hr, Heq in Hno.
       by apply (Hno SSH_MSG_USERAUTH_REQUEST [SSH_MSG_USERAUTH_REQUEST] (wire_string a ++ wire_string b ++ wire_string m ++ r)). }
  intros b1 msg e Hw1 [_ Hc1] [Hmsg ->] Hr1 Hcons1. change (consumed (string_buffer p)) with (@nil Z) in Hcons1. cbv beta iota.
  rewrite Hr in Hr1. destruct (Z.eqb_spec msg SSH_MSG_USERAUTH_REQUEST) as [-> | Hne]; cbn [negb].
  2: { assert (∀ u s, ¬ authorised config k (contents p) u s) as Hno.
       { intros u s Ha. destruct (Hform u s Ha) as (a & b & m & r & Heq & _). rewrite Hr1 in Heq. by apply cons_same in Heq as [? _]. }
       eapply (wpp_mono (stops config k (contents p)) _ exits _ _ (λ r k', (∃ u, r = Again u) ∧ delivered k' = delivered k)); [| done | |].
       - eapply send_plain; [apply formats_unimplemented | by rewrite lenZ_cons, lenZ_be32 | intros k' [_ Hd]; split; [by eexists | done]].
       - intros e k'. by apply refused_ends.
       - by intros r k' [[u ->] Hd]. }
  eapply (parse_field _ _ _ _ _ _ _ _ _ _ Hw1).
  2: { intros b' Hno. apply protocol_error_wpp; [by vm_compute |]. intros e k'. apply refused_ends.
       intros u s Ha. destruct (Hform u s Ha) as (a & b & m & r & Heq & Hml). rewrite Heq in Hb.
       destruct (request_fields a b m r) as ((? & ?) & (? & ?) & (? & _)); [done | rewrite <- Heq; lia |].
       rewrite Hr1 in Heq. apply cons_same in Heq as [_ Heq].
       apply (Hno (a, (b, lookup_atom m)) (wire_string a ++ wire_string b ++ wire_string m) r); [| by rewrite Heq, <- !app_assoc].
       exists (wire_string a), (wire_string b ++ wire_string m). split; [done |]. split; [done |].
       exists (wire_string b), (wire_string m). split; [done |]. split; [done |]. by exists m. }
  intros b2 [user_utf8 [service_name a]] e Hw2 [_ Hc2]
    (e1 & e2 & -> & [_ ->] & e3 & e4 & -> & [_ ->] & (method & _ & _ & -> & Ha)) Hr2 Hcons2. cbn [fst snd] in *. subst a.
  cbv beta iota. rewrite Hr2 in Hr1. rewrite <- !app_assoc in Hr1.
  apply (known_request_wpp b2 user config k (contents p) user_utf8 service_name method); try done; try lia.
  - rewrite Hc2, Hc1. simpl. unfold lsh_string_length. unfold SSH_MAX_PACKET in Hl. lia.
  - rewrite Hcons2, Hcons1. unfold request. by rewrite app_nil_r.
Qed.

(** A request that stops the program is not a good one. *)
Lemma stops_unauthorised config k packet f u s :
  Forall is_byte packet → lenZ packet < 2 ^ 32 → stops config k packet f → ¬ authorised config k packet u s.
Proof.
  intros Hb Hl Hstop [u8 sn m rest cname pw name Heq _ _ Hloc _ _ _ _ Hacc Hev]. pose proof Heq as Heq'. rewrite Heq in Hb, Hl.
  destruct (request_fields _ _ _ _ Hb Hl) as ((_ & Hu) & (_ & Hs) & (_ & Hm)).
  destruct Hstop as [u8' sn' m' rest' Hp _ Hbad | u8' sn' password' cname' u' pw' Hp Hloc' Hacc' (cpw & crypted & Hcpw & Hcr & Hnull)];
    rewrite Hp in Heq; rewrite <- Heq in Hb, Hl; destruct (request_fields _ _ _ _ Hb Hl) as ((_ & Hu') & (_ & Hs') & (_ & Hm'));
    apply request_inj in Heq as (-> & _ & Hmm & <-); try done; [congruence |].
  rewrite Hloc in Hloc'. injection Hloc' as <-. destruct (account_same _ _ _ _ _ _ _ Hacc Hacc') as [Hsc _].
  destruct Hev as [[_ [password _ Hrest Hpl (cpw' & crypted' & Hcpw' & _ & Hcr' & _ & Hgood)]] | [Hm2 _]]; [| destruct methods_differ; congruence].
  apply cons_same in Hrest as [_ Hrest]. rewrite <- (app_nil_r (wire_string password)), <- (app_nil_r (wire_string password')) in Hrest.
  apply wire_string_inj in Hrest as [-> _]; [congruence | | done].
  unfold request in Hl. rewrite lenZ_cons, !lenZ_app, lenZ_cons, !lenZ_wire_string in Hl. pose proof (lenZ_nonneg password').
  pose proof (lenZ_nonneg u8). pose proof (lenZ_nonneg sn'). pose proof (lenZ_nonneg (cstr "password")). unfold is_u32. lia.
Qed.


End grant.
