(* ===== verification/UserAuthRun.v ===== *)
(** * Who the service runs as

    From the first packet to [execve]: whatever the client sends, a program is
    executed only for an authorised request, and then as the user of that
    request. *)

From S2P Require Import Prelude Ssh Nettle Atoms LshString Format FormatSpec Wire Parse ParseSpec ParseAtoms RoundTrip Sys SshRead ServiceRead Hash Crypto DhExchange Charset Service UserAuth UserAuthSpec UserAuthGrant.
Local Open Scope Z_scope.

Ltac pair_spec :=
  intros x y Hx Hy; unfold spec_format; cbn -[lenZ UINT32_MAX];
  rewrite (proj2 (Z.ltb_ge UINT32_MAX (lenZ x)) Hx); cbn -[lenZ UINT32_MAX slice];
  rewrite (proj2 (Z.ltb_ge UINT32_MAX (lenZ y)) Hy); cbn -[lenZ slice];
  eexists; split; [reflexivity |]; cbn -[lenZ slice]; by rewrite !slice_all, app_nil_r.

Section run.
Context `{MallocOk} `{NettleMacrosOk} `{NettleBignumOk} `{OSOk} `{!Host} `{!HostOk} `{Configured} `{HashFunctionsOk} `{Signatures} `{!UserKeys} `{!UserKeysOk}.

(** ** The loop over requests *)

(** The last packet received authorises the user for the service. *)
Definition granted (config : lshd_userauth_config) (k : os) (u : lshd_user) (service : service_entry) (k' : os) : Prop :=
  ∃ k0 packet d seqno, authorised config k0 packet u service ∧ Forall is_byte packet ∧ lenZ packet <= SSH_MAX_PACKET
    ∧ delivered k' = delivered k ++ d ++ service_frame seqno packet.

(** A fault is due to one of the packets. *)
Definition stopped (config : lshd_userauth_config) (f : fault) : Prop := ∃ k0 packet, stops config k0 packet f.

Lemma auth_attempts_wpp n user config k :
  config_ok config →
  wpp (stopped config) exits (auth_attempts n user config)
    (λ '(u, r) k', match r with Some service => granted config k u service k' | None => True end) k.
Proof.
  intros Hcfg. revert user k. induction n as [| n IH]; intros user k; cbn [auth_attempts]; [done |].
  apply wpp_bind. eapply wpp_mono; [apply read_packet_wpp | by intros f [] | done |].
  intros [seqno p] k1 (Hp & Hs & Hl & [Hd1 _]). apply wpp_bind.
  eapply wpp_mono; [by apply handle_request_wpp | intros f Hf; by exists k1, (contents p) | by intros e k' [] |].
  intros r k2 Hr. destruct r as [u | u service].
  - destruct Hr as [_ Hd2]. eapply wpp_weaken; [apply IH |]. intros [u' [service |]] k3; [| done].
    intros (k0 & packet & d & sq & Ha & Hb & Hpl & Hd3). exists k0, packet, (service_frame seqno (contents p) ++ d), sq.
    split_and!; try done. by rewrite Hd3, Hd2, Hd1, <- !app_assoc.
  - destruct Hr as [Ha [_ Hd2]]. apply wpp_ret. exists k1, (contents p), [], seqno. split_and!; [done | by apply contents_bytes | by rewrite lenZ_contents |].
    by rewrite Hd2, Hd1.
Qed.

(** ** Names and paths *)

Lemma local_of_length flags d out : Forall is_byte d → lenZ d < 2 ^ 32 → local_of flags d = Some out → lenZ out <= lenZ d ∧ Forall is_byte out.
Proof.
  intros Hb Hl. pose proof (lenZ_nonneg d). unfold local_of. pose proof (low_utf8_to_local_spec the_charset (lenZ d) d flags Hb ltac:(lia) Hl) as Hc.
  rewrite slice_all in Hc. unfold converts in Hc. destruct (mapM _ _) as [outs |]; [| done]. intros [= <-].
  destruct Hc as (s & _ & Hw & Hcs & Hle). cbn [app] in Hcs. rewrite <- Hcs. rewrite lenZ_contents by done. split; [done | by apply contents_bytes].
Qed.

Lemma text_of_bytes s : Forall is_byte s → (0 ∉ s) → lenZ s < 2 ^ 28 → c_text s.
Proof.
  intros Hb Hn Hl. split; [| done]. apply Forall_forall. intros c Hc. rewrite Forall_forall in Hb. specialize (Hb c Hc). unfold is_byte in Hb.
  assert (c ≠ 0) by (intros ->; done). lia.
Qed.

(** What a granted user is like. *)
Lemma granted_user config k u service k' :
  granted config k u service k' →
  ∃ cname shell home, (∃ s d, lu_name u = Some s ∧ lsh_get_cstring (Some s) = Some d ∧ c_string d = cname) ∧ c_text cname
    ∧ lu_shell u = Some shell ∧ c_text shell ∧ lu_home u = Some home ∧ c_text home
    ∧ service ∈ sc_services (uc_services config).
Proof.
  intros (k0 & packet & d & sq & Ha & Hb & Hl & _). destruct Ha as [u8 sn m rest cname pw s -> Hserv Hz Hloc Hn Hsw Hsc Hnz Hacc _].
  destruct (request_fields _ _ _ _ Hb) as ((Hub & Hul) & _); [unfold SSH_MAX_PACKET in Hl; lia |]. unfold is_u32 in Hul.
  destruct (local_of_length _ _ _ Hub ltac:(lia) Hloc) as [Hcl Hcb].
  assert (lenZ u8 <= SSH_MAX_PACKET) as Hlu.
  { unfold request in Hl. rewrite lenZ_cons, !lenZ_app, !lenZ_wire_string in Hl. pose proof (lenZ_nonneg sn). pose proof (lenZ_nonneg m).
    pose proof (lenZ_nonneg rest). lia. }
  destruct (get_cstring_plain s Hsw) as (ds & Hds & Hcs); [by rewrite Hsc |]. destruct (account_home _ _ _ _ _ Hacc) as (home & Hh & Ht).
  destruct Hacc as [Hpw _ [Hshell Hsm] _ _ _ _]. destruct (pw_shell pw) as [shell |] eqn:Hps; [| done].
  exists cname, shell, home. split; [exists s, ds; by rewrite Hcs |].
  split; [apply text_of_bytes; [done | done | unfold SSH_MAX_PACKET in Hlu; lia] |].
  split; [done |]. split; [by eapply getpwnam_shell |]. split; [done |]. split; [done |].
  unfold service_config_lookup in Hserv. destruct (filter _ _) as [| e l] eqn:Hf; [done |]. injection Hserv as ->.
  assert (service ∈ service :: l) as Hin by left. rewrite <- Hf in Hin. by apply list_elem_of_filter in Hin as [_ ?].
Qed.

(** Two C strings with a character between them. *)
Lemma formats_pair (f : string) c a b :
  c_text a → c_text b →
  (∀ x y, lenZ x <= UINT32_MAX → lenZ y <= UINT32_MAX →
     ∃ ps, spec_format f [FCstr x; FCstr y] = Some ps ∧ pbytes ps = Some (x ++ c :: y)) →
  formats (ssh_format_string f [FCstr a; FCstr b]) (a ++ c :: b).
Proof.
  intros Ha Hb Hspec. pose proof Ha as [_ Hla]. pose proof Hb as [_ Hlb].
  destruct (Hspec a b) as (ps & Hs & Hp); [unfold UINT32_MAX; lia.. |]. eapply formats_spec; [exact Hs | exact Hp | |].
  - apply Forall_cons. split; [by apply c_text_bytes |]. apply Forall_cons. split; [by apply c_text_bytes | constructor].
  - rewrite lenZ_app, lenZ_cons. lia.
Qed.

Lemma plain_pair c a b : c_text a → c_text b → c ≠ 0 → 0 ∉ a ++ c :: b.
Proof.
  intros Ha Hb Hc. rewrite elem_of_app, elem_of_cons. intros [Hin | [Hin | Hin]]; [by apply (c_text_plain a) | done | by apply (c_text_plain b)].
Qed.

Lemma format_env_pair_ok name value :
  c_text (cstr name) → c_text value → format_env_pair name value = Ok (cstr name ++ 61 :: value).
Proof.
  intros Hn Hv. unfold format_env_pair.
  destruct (formats_cstring _ _ (formats_pair "%lz=%lz" 61 (cstr name) value Hn Hv ltac:(pair_spec)) (plain_pair 61 _ _ Hn Hv ltac:(done)))
    as (s & d & -> & Hd & <-). rewrite bind_ok_l, Hd. done.
Qed.

Lemma libexec_path_ok config program :
  c_text (sc_libexec_dir (uc_services config)) → c_text program →
  libexec_path config program = Ok (sc_libexec_dir (uc_services config) ++ 47 :: program).
Proof.
  intros Hl Hp. unfold libexec_path.
  destruct (formats_cstring _ _ (formats_pair "%lz/%lz" 47 _ program Hl Hp ltac:(pair_spec)) (plain_pair 47 _ _ Hl Hp ltac:(done)))
    as (s & d & -> & Hd & <-). rewrite bind_ok_l, Hd. done.
Qed.

(** ** The environment of the service *)

(** A variable that is passed on. *)
Definition inherited (k : os) (name : string) : list (list Z) :=
  match getenv k (cstr name) with Some v => [cstr name ++ 61 :: v] | None => [] end.

Lemma env_from_run {B} name (f : list (list Z) → process B) k :
  c_text (cstr name) → (env_from name ≫= f) k = f (inherited k name) k.
Proof.
  intros Hn. unfold env_from, inherited, mbind at 1, process_bind at 1. change ((asks ?g ≫= ?h) k) with (h (g k) k). cbv beta.
  destruct (getenv k (cstr name)) as [v |] eqn:Hv; [| done]. by erewrite run_pure by (apply format_env_pair_ok; [done | by eapply getenv_text]).
Qed.

Definition service_environment (k : os) (cname shell home : list Z) : list (list Z) :=
  [cstr "SHELL=" ++ shell; cstr "HOME=" ++ home; cstr "USER=" ++ cname; cstr "LOGNAME=" ++ cname; cstr "PATH=/bin:/usr/bin"]
  ++ inherited k "TZ" ++ inherited k "LSHD_CONFIG_DIR" ++ inherited k "LSHD_LIBEXEC_DIR" ++ inherited k "LSHD_CONNECTION_CONF".

Ltac text := split; [apply (bool_decide_unpack _); by vm_compute | by vm_compute].

Lemma service_error_wpp {A} E (X : ending → os → Prop) msg (Q : A → os → Prop) k :
  lenZ (cstr msg) <= 1000 → (∀ e k', exits e k' → X e k') → wpp E X (service_error msg) Q k.
Proof.
  intros Hm HX. eapply (wpp_mono (λ _, False) _ _ _ _ (λ _ _, False)); [by apply send_error_wpp | by intros f [] | exact HX | by intros a k' []].
Qed.

Lemma must_wpp {A} E X f (otherwise m : process A) Q k :
  (∀ k', wpp E X otherwise Q k') → (∀ k', f k = (k', true) → wpp E X m Q k') → wpp E X (must f otherwise m) Q k.
Proof. intros Ho Hm. apply wpp_bind, wpp_call. destruct (f k) as [k' [|]] eqn:Hf; auto. Qed.

Lemma become_user_wpp u cname k :
  wpp safe_faults exits (become_user u cname) (λ _ k', getuid k' = lu_uid u) k.
Proof.
  unfold become_user. cbv zeta. apply wpp_asks. destruct (Z.eqb_spec (lu_uid u) (getuid k)) as [He | Hne]; cbn [negb]; [by apply wpp_ret |].
  assert (∀ k', wpp safe_faults exits (service_error "Failed to start service process" : process ()) (λ _ k', getuid k' = lu_uid u) k') as Hfail
    by (intros k'; apply service_error_wpp; [by vm_compute | done]).
  apply must_wpp; [done |]. intros k1 _. apply must_wpp; [done |]. intros k2 _. apply must_wpp; [done |].
  intros k3 Hs. apply wpp_ret. by eapply setuid_getuid.
Qed.

(** The program is executed with the user id in force. *)
Definition executed_as (u : lshd_user) (path : list Z) (argv env : list (list Z)) (e : ending) (k' : os) : Prop :=
  e = Executed path argv env ∧ getuid k' = lu_uid u.

Lemma inherited_short k name : lenZ (inherited k name) <= 1.
Proof. unfold inherited. by destruct (getenv k (cstr name)). Qed.

Lemma start_service_wpp u path argv k cname shell home :
  (∃ s d, lu_name u = Some s ∧ lsh_get_cstring (Some s) = Some d ∧ c_string d = cname) → c_text cname →
  lu_shell u = Some shell → c_text shell → lu_home u = Some home → c_text home →
  wpp safe_faults (λ e k', exits e k' ∨ executed_as u path argv (service_environment k cname shell home) e k')
    (UserAuth.start_service u path argv) (λ _ _, True) k.
Proof.
  intros (s & d & Hn & Hd & Hc) Htc Hs Hts Hh Hth. unfold UserAuth.start_service. rewrite Hn, Hd, Hs, Hh. cbv zeta.
  eapply wpp_pure_ok; [done |]. eapply wpp_pure_ok; [done |]. rewrite Hc. eapply wpp_pure_ok; [done |]. eapply wpp_pure_ok; [done |].
  do 4 (eapply wpp_pure_ok; [apply format_env_pair_ok; [text | done] |]).
  unfold wpp at 1. do 4 rewrite env_from_run by text.
  match goal with |- match ?m k with _ => _ end => change (wpp safe_faults (λ e k', exits e k' ∨ executed_as u path argv (service_environment k cname shell home) e k') m (λ _ _, True) k) end.
  eapply wpp_pure_ok.
  { apply c_assert_true. rewrite !lenZ_app. change (lenZ [_; _; _; _; _]) with 5.
    pose proof (inherited_short k "TZ"). pose proof (inherited_short k "LSHD_CONFIG_DIR"). pose proof (inherited_short k "LSHD_LIBEXEC_DIR").
    pose proof (inherited_short k "LSHD_CONNECTION_CONF"). lia. }
  apply wpp_bind. eapply wpp_mono; [apply become_user_wpp | done | by left |]. intros [] k1 Huid. apply wpp_asks.
  eapply wpp_pure_ok; [apply c_assert_true; by rewrite Huid, Z.eqb_refl |].
  apply wpp_bind, wpp_call. destruct (chdir k1 home) as [k2 moved] eqn:Hcd.
  assert (getuid k2 = lu_uid u) as Huid2 by (pose proof (chdir_getuid k1 home) as Hk; rewrite Hcd in Hk; simpl in Hk; congruence).
  apply (wpp_seq _ _ _ _ (λ _ k', getuid k' = lu_uid u)).
  { destruct moved; [by apply wpp_ret |]. apply must_wpp; [intros; left; by eexists |]. intros k3 Hcd3. apply wpp_ret.
    pose proof (chdir_getuid k2 (cstr "/")) as Hk. rewrite Hcd3 in Hk. simpl in Hk. congruence. }
  intros [] k3 Huid3. apply wpp_asks. destruct (execve_ok k3 path); [| by apply wpp_ret]. right. by split.
Qed.

(** ** The command line *)

Definition decimal (n : Z) : list Z := dec_bytes (Z.to_nat (format_size_in_decimal n)) n.

Lemma dec_bytes_plain j n : 0 <= n → Forall (λ c, 48 <= c < 58) (dec_bytes j n).
Proof.
  revert n. induction j as [| j IH]; intros n Hn; cbn [dec_bytes]; [constructor |]. apply Forall_app. split; [apply IH, Z.div_pos; lia |].
  apply Forall_cons. split; [| constructor]. pose proof (Z.mod_pos_bound n 10 ltac:(lia)). lia.
Qed.

Lemma formats_decimal fd : 0 <= fd < 2 ^ 31 → formats (ssh_format_string "%di" [FInt fd]) (decimal fd).
Proof.
  intros Hf. eapply formats_spec; [reflexivity | cbn -[u32 format_size_in_decimal]; rewrite u32_id by (unfold is_u32; lia); by rewrite app_nil_r | repeat constructor |].
  unfold decimal. rewrite lenZ_dec_bytes. pose proof (format_size_in_decimal_spec fd ltac:(unfold is_u32; lia)). lia.
Qed.

Lemma decimal_plain fd : 0 <= fd → 0 ∉ decimal fd.
Proof.
  intros Hf Hin. pose proof (dec_bytes_plain (Z.to_nat (format_size_in_decimal fd)) fd Hf) as Hd. rewrite Forall_forall in Hd.
  specialize (Hd 0 Hin). simpl in Hd. lia.
Qed.

Definition helper_word : list Z := cstr "$(helper_fd)".

(** The words of the command line, with the descriptor of the helper. *)
Definition expansion (fd : Z) (arg : list Z) : list Z := if bool_decide (arg = helper_word) then decimal fd else arg.

(** The helper is started at most once. *)
Definition same_helper (fd fd' : Z) : Prop := -1 <= fd' < 2 ^ 31 ∧ (0 <= fd → fd' = fd).

(** The child that is the helper executes its program. *)
Definition helper_path (config : lshd_userauth_config) : list Z := sc_libexec_dir (uc_services config) ++ 47 :: cstr "lshd-pty-helper".

Definition helper_ends (path : list Z) (uid : Z) (e : ending) (k' : os) : Prop :=
  exits e k' ∨ ∃ env, e = Executed path [path] env ∧ getuid k' = uid.

Lemma spawn_helper_wpp path uid gid k :
  wpp safe_faults (helper_ends path uid) (spawn_helper path uid gid) (λ fd _, -1 <= fd < 2 ^ 31) k.
Proof.
  unfold spawn_helper. apply wpp_bind, wpp_call. destruct (socketpair k) as [k1 [[a b] |]] eqn:Hs; [| by apply wpp_ret].
  apply socketpair_fds in Hs as [_ Hb]. apply wpp_bind, wpp_call. destruct (fork k1) as [k2 child].
  destruct (child <? 0); [done |]. destruct (negb (child =? 0)); [change (-1 <= b < 2 ^ 31); lia |].
  assert (∀ (A : Type) (Q : A → os → Prop) k', wpp safe_faults (helper_ends path uid) die Q k') as Hdie by (intros; left; by eexists).
  unfold helper_child. apply wpp_asks.
  apply (wpp_seq _ _ _ _ (λ _ k', getuid k' = uid)).
  { destruct (Z.eqb_spec (getuid k2) uid) as [He | Hne]; cbn [negb]; [by apply wpp_ret |].
    apply must_wpp; [apply Hdie |]. intros k3 _. apply must_wpp; [apply Hdie |]. intros k4 _. apply must_wpp; [apply Hdie |].
    intros k5 Hset. apply wpp_ret. by eapply setuid_getuid. }
  intros [] k3 Huid. apply wpp_asks. eapply wpp_pure_ok; [apply c_assert_true; by rewrite Huid, Z.eqb_refl |].
  apply must_wpp; [apply Hdie |]. intros k4 Hd4. apply must_wpp; [apply Hdie |]. intros k5 Hd5. unfold execl.
  pose proof (dup2_getuid k3 a STDIN_FILENO) as Hu4. pose proof (dup2_getuid k4 a STDOUT_FILENO) as Hu5. rewrite Hd4 in Hu4. rewrite Hd5 in Hu5.
  simpl in Hu4, Hu5. unfold wpp, close, mbind, process_bind, asks. simpl. destruct (execve_ok _ path); [right | left; by eexists].
  eexists. split; [done |]. by rewrite !close_getuid, Hu5, Hu4.
Qed.

Lemma expand_arg_wpp config u fd arg k :
  c_text (sc_libexec_dir (uc_services config)) → -1 <= fd < 2 ^ 31 →
  wpp safe_faults (helper_ends (helper_path config) (lu_uid u)) (expand_arg config u fd arg)
    (λ '(fd', s) k', same_helper fd fd' ∧ (arg = helper_word → 0 <= fd') ∧ s = expansion fd' arg) k.
Proof.
  intros Hl Hf. unfold expand_arg, expansion. fold helper_word. destruct (bool_decide (arg = helper_word)) eqn:Hw.
  2: { apply bool_decide_eq_false in Hw. apply wpp_ret. split; [by split |]. by split. }
  apply (wpp_seq _ _ _ _ (λ fd' _, same_helper fd fd' ∧ 0 <= fd')).
  { destruct (Z.ltb_spec fd 0) as [Hneg | Hpos]; [| apply wpp_ret; split; [by split | done]].
    eapply wpp_pure_ok; [apply libexec_path_ok; [done | text] |]. apply wpp_asks.
    eapply wpp_seq; [apply spawn_helper_wpp |]. intros fd' k1 Hr. cbv beta in Hr. destruct (Z.ltb_spec fd' 0); [left; by eexists |].
    apply wpp_ret. split; [| done]. split; [lia |]. lia. }
  intros fd' k1 [Hsame Hpos]. destruct Hsame as [Hr Hs]. pose proof (formats_decimal fd' ltac:(lia)) as Hfmt.
  destruct (formats_cstring _ _ Hfmt (decimal_plain fd' Hpos)) as (s & d & Hsd & Hd & Hc).
  eapply wpp_pure_ok; [exact Hsd |]. rewrite Hd. eapply wpp_pure_ok; [done |]. apply wpp_ret. by rewrite Hc.
Qed.

Lemma arg_at_holds a l i s : arglist_holds a l → l !! i = Some s → arg_at a (Z.of_nat i) = Ok s.
Proof.
  intros [_ _ _ (rest & Hv & _)] Hi. unfold arg_at. rewrite (proj2 (rd_lookup _ _ (Arg s))); [done |]. split; [lia |].
  rewrite Nat2Z.id, Hv, lookup_app_l; [by rewrite list_lookup_fmap, Hi |]. rewrite length_fmap. by eapply lookup_lt_Some.
Qed.

Lemma expand_args_wpp config u service words : ∀ n i fd args done_args k,
  c_text (sc_libexec_dir (uc_services config)) → -1 <= fd < 2 ^ 31 → arglist_holds (se_args service) words →
  arglist_holds args done_args → length words = (i + n)%nat →
  wpp safe_faults (helper_ends (helper_path config) (lu_uid u)) (expand_args n config u service (Z.of_nat i) fd args)
    (λ args' _, ∃ fd', (0 <= fd → fd' = fd) ∧ arglist_holds args' (done_args ++ (expansion fd' <$> drop i words))) k.
Proof.
  induction n as [| n IH]; intros i fd args done_args k Hl Hf Hw Ha Hlen; cbn [expand_args].
  { apply wpp_ret. exists fd. rewrite drop_ge by lia. split; [done |]. by rewrite app_nil_r. }
  destruct (lookup_lt_is_Some_2 words i) as [w Hi]; [lia |]. eapply wpp_pure_ok; [by apply (arg_at_holds _ words) |].
  eapply wpp_seq; [by apply expand_arg_wpp |]. intros [fd1 s] k1 ([Hr1 Hs1] & Hpos & ->).
  destruct (arglist_push_holds args done_args (expansion fd1 w) Ha) as (args1 & Hp & Ha1). eapply wpp_pure_ok; [exact Hp |].
  replace (Z.of_nat i + 1) with (Z.of_nat (S i)) by lia.
  eapply wpp_weaken; [apply (IH (S i) fd1 args1 _ k1 Hl Hr1 Hw Ha1); lia |]. intros args2 _ (fd2 & Hfd2 & Ha2).
  exists fd2. split; [intros H0f; rewrite Hfd2; [by apply Hs1 | rewrite Hs1; done] |].
  rewrite (drop_S _ _ _ Hi), fmap_cons, cons_middle, app_assoc.
  assert (expansion fd1 w = expansion fd2 w) as <-; [| done]. unfold expansion. case_bool_decide as He; [| done]. by rewrite Hfd2 by auto.
Qed.

Lemma argv_of_holds a l : arglist_holds a l → l ≠ [] → argv_of (al_argv a) = l.
Proof.
  intros [_ _ _ (rest & -> & Hn)] Hne. destruct (Hn Hne) as [t ->]. clear Hn Hne. induction l as [| s l IH]; [done |].
  rewrite fmap_cons. cbn [app argv_of]. by rewrite IH.
Qed.

(** ** The whole program *)

Definition setup_ok (config : lshd_userauth_config) : Prop :=
  config_ok config ∧ c_text (sc_libexec_dir (uc_services config))
  ∧ Forall (λ e, ∃ name args, entry_holds e name args ∧ args ≠ [] ∧ Forall c_text args) (sc_services (uc_services config)).

Definition full_path (config : lshd_userauth_config) (program : list Z) : list Z :=
  if bool_decide (head program = Some 47) then program else sc_libexec_dir (uc_services config) ++ 47 :: program.

(** How the process may end. *)
Inductive lawful_end (config : lshd_userauth_config) (k : os) : ending → os → Prop :=
  | ends_status status k' : lawful_end config k (Exited status) k'
  | ends_service u service k1 name program args fd k2 cname s shell home k' :
      granted config k u service k1 → entry_holds service name (program :: args) →
      lu_name u = Some s → lsh_get_cstring (Some s) = Some cname → lu_shell u = Some shell → lu_home u = Some home →
      getuid k' = lu_uid u →
      lawful_end config k (Executed (full_path config program) (program :: (expansion fd <$> args))
        (service_environment k2 (c_string cname) shell home)) k'
  (** The child that runs the helper of the service. *)
  | ends_helper u service k1 env k' :
      granted config k u service k1 → getuid k' = lu_uid u →
      lawful_end config k (Executed (helper_path config) [helper_path config] env) k'.

Lemma exits_lawful config k e k' : exits e k' → lawful_end config k e k'.
Proof. intros [status ->]. constructor. Qed.

(** The part after [handle_userauth]. *)
Lemma run_service_wpp config k u service k1 E :
  setup_ok config → granted config k u service k1 →
  wpp E (lawful_end config k)
    (program ← pure (arg_at (se_args service) 0);
     args ← pure (arglist_push arglist_init program);
     path ← (if bool_decide (head program = Some 47) then mret program else pure (libexec_path config program));
     args ← expand_args (Z.to_nat (al_argc (se_args service) - 1)) config u service 1 (-1) args;
     UserAuth.start_service u path (argv_of (al_argv args));;
     (service_error "Failed to start service process" : process ())) (λ _ _, False) k1.
Proof.
  intros (_ & Hlib & Hserv) Hg. destruct (granted_user _ _ _ _ _ Hg) as (cname & shell & home & (s & d & Hn & Hd & Hc) & Htc & Hsh & Hts & Hh & Hth & Hin).
  rewrite Forall_forall in Hserv. destruct (Hserv service Hin) as (name & words & He & Hne & Htw). destruct words as [| program words]; [done |].
  pose proof (eh_args _ _ _ He) as Ha. apply Forall_cons in Htw as [Htp _].
  eapply wpp_pure_ok; [by apply (arg_at_holds _ (program :: words) 0) |].
  destruct (arglist_push_holds _ _ program arglist_init_holds) as (args0 & Hp0 & Ha0). eapply wpp_pure_ok; [exact Hp0 |].
  apply (wpp_seq _ _ _ _ (λ path k', path = full_path config program ∧ k' = k1)).
  { unfold full_path. destruct (bool_decide (head program = Some 47)); [by apply wpp_ret |]. apply wpp_pure. by rewrite libexec_path_ok. }
  intros path k' [-> ->]. apply wpp_bind.
  eapply wpp_mono; [eapply (expand_args_wpp config u service (program :: words) _ 1 (-1) args0 [program]); try done |
    by intros f [] | |].
  2: { intros e k' [Hx | (env & -> & Huid)]; [by apply exits_lawful | by eapply ends_helper]. }
  { rewrite (ah_argc _ _ Ha), lenZ_cons. unfold lenZ. simpl. lia. }
  intros args k2 (fd & _ & Hargs). rewrite (argv_of_holds _ _ Hargs) by done. apply wpp_bind.
  eapply wpp_mono; [by eapply (start_service_wpp u _ _ k2 cname shell home); first by exists s, d | by intros f [] | |].
  - intros e k3 [Hx | [-> Huid]]; [by apply exits_lawful |]. rewrite <- Hc. by eapply ends_service.
  - intros [] k3 _. apply service_error_wpp; [by vm_compute | apply exits_lawful].
Qed.


End run.
