(* ===== verification/UserAuthExample.v ===== *)
(** * A login

    A host with one account, and a client that logs in with its password: the
    hypotheses of the theorems on user authentication hold here, and the program
    of the service is executed. *)

From S2P Require Import Prelude Ssh Nettle Atoms LshString Format FormatSpec Wire Parse ParseSpec Sys SshRead ServiceRead Hash Crypto DhExchange Charset Service UserAuth UserAuthSpec UserAuthGrant UserAuthRun.
Local Open Scope Z_scope.

(** ** The host *)

(** The descriptors, and the user id of the process. *)
#[local] Instance house_os : OS := {
  os := script * Z;
  sys_write k d := let '(s, r) := script_write k.1 d in ((s, k.2), r);
  sys_read k n := let '(s, r) := script_read k.1 n in ((s, k.2), r);
  io_readable_p k := @io_readable_p script_os k.1;
  accepted k := sc_accepted k.1;
  delivered k := sc_delivered k.1;
  interrupts k := @interrupts script_os k.1;
}.

#[local] Instance house_os_ok : OSOk.
Proof.
  split.
  - intros [s u] d k' n. simpl. destruct (script_write s d) as [s' r] eqn:Hw. intros [= <- ->]. simpl.
    by apply (@sys_write_ok script_os script_os_ok s).
  - intros [s u] d k' e. simpl. destruct (script_write s d) as [s' r] eqn:Hw. intros [= <- ->]. simpl.
    by apply (@sys_write_err script_os script_os_ok s d).
  - intros [s u] n k' d. simpl. destruct (script_read s n) as [s' r] eqn:Hw. intros [= <- ->]. simpl.
    by apply (@sys_read_ok script_os script_os_ok s n).
  - intros [s u] n k' e. simpl. destruct (script_read s n) as [s' r] eqn:Hw. intros [= <- ->]. simpl.
    by apply (@sys_read_err script_os script_os_ok s n).
Qed.

Definition ann : passwd :=
  mk_passwd (Some (cstr "absecret")) 1000 100 (Some (cstr "/home/ann")) (Some (cstr "/bin/sh")).

(** A hash that keeps the salt and shows the password. *)
#[local] Instance house : Host := {
  getuid k := k.2;
  getpwnam _ n := if bool_decide (n = cstr "ann") then Some ann else None;
  getspnam _ _ := None;
  getenv _ n := if bool_decide (n = cstr "TZ") then Some (cstr "CET") else None;
  today _ := 20000;
  stat _ _ := false;
  crypt p s := if lenZ s <? 2 then None else Some (take 2 s ++ p);
  getgrnam _ _ := None;
  initgroups k _ _ := (k, true);
  setgroups k := (k, true);
  setgid k _ := (k, true);
  setuid k u := ((k.1, u), true);
  chdir k _ := (k, true);
  dup2 k _ _ := (k, true);
  close_fd k _ := k;
  execve_ok _ _ := true;
  environ _ := [cstr "TZ=CET"];
  socketpair k := (k, Some (4, 5));
  fork k := (k, 77);
}.

Ltac text := split; [apply (bool_decide_unpack _); by vm_compute | by vm_compute].

#[local] Instance house_ok : HostOk.
Proof.
  split; simpl.
  - intros k n pw d. case_bool_decide; [| done]. intros [= <-] [= <-]. text.
  - intros k n pw d. case_bool_decide; [| done]. intros [= <-] [= <-]. text.
  - intros k n v. case_bool_decide; [| done]. intros [= <-]. text.
  - by intros k u k' [= <-].
  - done.
  - done.
  - done.
  - by intros k k' a b [= <- <- <-].
Qed.

#[local] Instance utf8_here : Configured := { the_charset := CHARSET_UTF8; HAVE_GETSPNAM := true }.

(** No public keys. *)
#[local] Instance house_keys : UserKeys := {
  nettle_sha1 := ref_md;
  make_ssh_dss_verifier _ := None;
  make_ssh_dsa_sha256_verifier _ := None;
  make_ssh_rsa_verifier _ := None;
  PUBLIC_SPKI_KEY _ := mk_lsh_string 0 [0];
}.

#[local] Instance house_keys_ok : UserKeysOk.
Proof. intros v. split; [done | done | done | by repeat constructor]. Qed.

(** ** The service and the client *)

Definition connection_entry : service_entry :=
  mk_service_entry 14 (cstr "ssh-connection")
    (mk_arglist 10 3 ([Arg (cstr "lshd-connection"); Arg (cstr "--helper-fd"); Arg (cstr "$(helper_fd)"); Null] ++ replicate 6 Fresh)).

Definition house_config : lshd_userauth_config :=
  mk_userauth_config (mk_service_config [connection_entry] (cstr "/usr/libexec") false)
    (mk_lsh_string 4 [1; 2; 3; 4; 0]) true false false.

Lemma connection_entry_holds :
  entry_holds connection_entry (cstr "ssh-connection") [cstr "lshd-connection"; cstr "--helper-fd"; cstr "$(helper_fd)"].
Proof.
  split; [done | done | apply (bool_decide_unpack _); by vm_compute |]. split; [done | done | done |].
  eexists. split; [done |]. intros _. by eexists.
Qed.

Lemma house_config_ok : config_ok house_config.
Proof. split; [| done]. split; [done | done | done | by repeat constructor]. Qed.

Lemma house_setup_ok : setup_ok house_config.
Proof.
  split; [exact house_config_ok |]. split; [text |]. apply Forall_cons. split; [| constructor].
  eexists _, _. split; [exact connection_entry_holds |]. split; [done |]. repeat (apply Forall_cons; split; [text |]). constructor.
Qed.

Definition nobody : lshd_user := mk_user None 0 0 None None None.

Definition login : list Z := request (cstr "ann") (cstr "ssh-connection") (cstr "password") (0 :: wire_string (cstr "secret")).

(** The header arrives in two parts; all of an answer can be written. *)
Definition client : @os house_os :=
  (scripted [Give (take 5 (service_frame 7 login)); Give (take 3 (drop 5 (service_frame 7 login))); Give login; Take 1000], 0).

Example login_runs :
  ∃ k', userauth_main nobody house_config client
    = Ok (k', inl (Executed (cstr "/usr/libexec/lshd-connection") [cstr "lshd-connection"; cstr "--helper-fd"; cstr "5"]
        [cstr "SHELL=/bin/sh"; cstr "HOME=/home/ann"; cstr "USER=ann"; cstr "LOGNAME=ann"; cstr "PATH=/bin:/usr/bin"; cstr "TZ=CET"]))
    ∧ getuid k' = 1000.
Proof. eexists. split; [vm_compute; reflexivity | reflexivity]. Qed.


Definition login_packet : lsh_string := mk_lsh_string (lenZ login) (login ++ [0]).

Lemma login_packet_wf : lsh_string_wf login_packet.
Proof. split; [done | done | done |]. apply (bool_decide_unpack _). by vm_compute. Qed.


Lemma lookup_user_correct_witness :
  ∃ u pw, lookup_user nobody (cstr "ann") false (scripted [], 0) = Ok ((scripted [], 0), inr (u, true))
    ∧ account_enabled (scripted [], 0) false (cstr "ann") u pw.
Proof.
  pose proof (lookup_user_correct nobody (cstr "ann") false (scripted [], 0) (cstr_bytes "ann") ltac:(done)) as Hl.
  assert (local_of name_flags (cstr "ann") = Some (cstr "ann")) as Hloc by (vm_compute; reflexivity).
  rewrite Hloc, decide_False in Hl by (apply (bool_decide_unpack _); vm_compute; exact I).
  assert (∃ u, lookup_user nobody (cstr "ann") false (scripted [], 0) = Ok ((scripted [], 0), inr (u, true))) as [u0 Hrun]
    by (eexists; vm_compute; reflexivity).
  destruct Hl as (u & ok & Hrun' & Hok & _). rewrite Hrun in Hrun'. injection Hrun' as <- <-.
  destruct (Hok eq_refl) as (_ & pw & Hacc). exists u0, pw. split; [exact Hrun | exact Hacc].
Defined.
