(* ===== verification/UserAuthConfig.v ===== *)
(** * The configuration of [lshd-userauth]

    The options of the command line and of the configuration file
    ([src/src/werror.c], [src/src/server.c], [src/src/lshd-userauth.c]).  One
    object is a [werror_config], a [server_config] and an
    [lshd_userauth_config]; the handlers of both tables work on it. *)

From S2P Require Import Prelude Ssh Nettle Atoms LshString Format StringUtil Crypto Service UserAuth Tokenize ServerConfig.
Local Open Scope Z_scope.

(** ** Messages ([werror.c]) *)

(** The flags are -1 as long as they are not set. *)
Record werror_config := mk_werror_config {
  wc_logfile : option lsh_string;
  wc_syslog : Z;
  wc_quiet : Z;
  wc_verbose : Z;
  wc_trace : Z;
  wc_debug : Z;
}.

Definition init_werror_config : werror_config := mk_werror_config None (-1) (-1) (-1) (-1) (-1).

Definition set_logfile f (w : werror_config) := mk_werror_config f (wc_syslog w) (wc_quiet w) (wc_verbose w) (wc_trace w) (wc_debug w).
Definition set_syslog v (w : werror_config) := mk_werror_config (wc_logfile w) v (wc_quiet w) (wc_verbose w) (wc_trace w) (wc_debug w).
Definition set_quiet v (w : werror_config) := mk_werror_config (wc_logfile w) (wc_syslog w) v (wc_verbose w) (wc_trace w) (wc_debug w).
Definition set_verbose v (w : werror_config) := mk_werror_config (wc_logfile w) (wc_syslog w) (wc_quiet w) v (wc_trace w) (wc_debug w).
Definition set_trace v (w : werror_config) := mk_werror_config (wc_logfile w) (wc_syslog w) (wc_quiet w) (wc_verbose w) v (wc_debug w).
Definition set_debug v (w : werror_config) := mk_werror_config (wc_logfile w) (wc_syslog w) (wc_quiet w) (wc_verbose w) (wc_trace w) v.

(** Where messages go, and which. *)
Inductive werror_target : Type := ToStderr | ToSyslog | ToFile (f : lsh_string).

Record werror_state := mk_werror_state {
  quiet_flag : bool;
  verbose_flag : bool;
  trace_flag : bool;
  debug_flag : bool;
  messages_to : werror_target;
}.

Definition werror_start : werror_state := mk_werror_state false false false false ToStderr.

(** Keys of single letters, and of the others. *)
Definition KEY_QUIET := 113.
Definition KEY_VERBOSE := 118.
Definition WERROR_TRACE := -1.
Definition WERROR_DEBUG := -2.
Definition WERROR_LOGFILE := -3.
Definition WERROR_SYSLOG := -4.

(** With [HAVE_SYSLOG]. *)
Definition werror_config_options : list config_option :=
  [mk_config_option WERROR_LOGFILE (cstr "log-file") CONFIG_TYPE_STRING (cstr "File to log messages to.") None;
   mk_config_option WERROR_SYSLOG (cstr "use-syslog") CONFIG_TYPE_BOOL (cstr "Use the syslog facility.") (Some (cstr "no"));
   mk_config_option KEY_QUIET (cstr "quiet") CONFIG_TYPE_BOOL (cstr "Supress warning messages.") (Some (cstr "no"));
   mk_config_option KEY_VERBOSE (cstr "verbose") CONFIG_TYPE_BOOL (cstr "Enable verbose logging") (Some (cstr "yes"));
   mk_config_option WERROR_TRACE (cstr "trace") CONFIG_TYPE_BOOL (cstr "Enable trace messages to the log.") (Some (cstr "no"));
   mk_config_option WERROR_DEBUG (cstr "debug") CONFIG_TYPE_BOOL (cstr "Enable debug messages to the log.") (Some (cstr "no"))].

(** ** The object *)

(** [struct server_config] without the parser, which is a constant of the
    program. *)
Record server_config := mk_server_config {
  sv_werror : werror_config;
  sv_default_file : list Z;
  sv_env_variable : list Z;
  sv_config_file : option (list Z);
  sv_use_example : bool;
}.

Definition init_server_config (default_file env_variable : list Z) : server_config :=
  mk_server_config init_werror_config default_file env_variable None false.

(** [struct lshd_userauth_config]; a flag is -1 as long as it is not set. *)
Record userauth_object := mk_userauth_object {
  uo_super : server_config;
  uo_service_config : service_config;
  uo_session_id : option lsh_string;
  uo_allow_password : Z;
  uo_allow_publickey : Z;
  uo_allow_root_login : Z;
}.

Definition set_super v (o : userauth_object) :=
  mk_userauth_object v (uo_service_config o) (uo_session_id o) (uo_allow_password o) (uo_allow_publickey o) (uo_allow_root_login o).
Definition set_services v (o : userauth_object) :=
  mk_userauth_object (uo_super o) v (uo_session_id o) (uo_allow_password o) (uo_allow_publickey o) (uo_allow_root_login o).
Definition set_session_id v (o : userauth_object) :=
  mk_userauth_object (uo_super o) (uo_service_config o) v (uo_allow_password o) (uo_allow_publickey o) (uo_allow_root_login o).
Definition set_allow_password v (o : userauth_object) :=
  mk_userauth_object (uo_super o) (uo_service_config o) (uo_session_id o) v (uo_allow_publickey o) (uo_allow_root_login o).
Definition set_allow_publickey v (o : userauth_object) :=
  mk_userauth_object (uo_super o) (uo_service_config o) (uo_session_id o) (uo_allow_password o) v (uo_allow_root_login o).
Definition set_allow_root_login v (o : userauth_object) :=
  mk_userauth_object (uo_super o) (uo_service_config o) (uo_session_id o) (uo_allow_password o) (uo_allow_publickey o) v.

Definition set_werror (w : werror_config) (o : userauth_object) : userauth_object :=
  let s := uo_super o in
  set_super (mk_server_config w (sv_default_file s) (sv_env_variable s) (sv_config_file s) (sv_use_example s)) o.

(** ** The tables of the configuration file *)

Definition OPT_SESSION_ID := 512.
Definition OPT_PASSWORD := 513.
Definition OPT_NO_PASSWORD := 514.
Definition OPT_PUBLICKEY := 515.
Definition OPT_NO_PUBLICKEY := 516.
Definition OPT_ROOT_LOGIN := 517.
Definition OPT_NO_ROOT_LOGIN := 518.
Definition OPT_SERVICE := 519.
Definition OPT_ADD_SERVICE := 520.

Definition lshd_userauth_config_options : list config_option :=
  [mk_config_option OPT_SERVICE (cstr "service") CONFIG_TYPE_LIST (cstr "Service to offer.")
     (Some (cstr "ssh-connection = { lshd-connection --helper-fd $(helper_fd) --use-example-config }"));
   mk_config_option OPT_PASSWORD (cstr "allow-password") CONFIG_TYPE_BOOL (cstr "Support for password user authentication") (Some (cstr "no"));
   mk_config_option OPT_PUBLICKEY (cstr "allow-publickey") CONFIG_TYPE_BOOL (cstr "Support for publickey user authentication") (Some (cstr "yes"));
   mk_config_option OPT_ROOT_LOGIN (cstr "allow-root-login") CONFIG_TYPE_BOOL (cstr "Allow the root user to login") (Some (cstr "no"))].

(** What is set already stays. *)
Definition keep_flag (old value : Z) : Z := if old <? 0 then value else old.

Section handlers.
Context `{Malloc} `{NettleMacros} `{NettleBignum}.

Definition werror_config_handler (key value : Z) (data : option (list Z)) (self : werror_config) : result (werror_config * Z) :=
  if key =? WERROR_LOGFILE then
    match wc_logfile self with
    | Some _ => Ok (self, 0)
    | None =>
        d ← deref data;
        s ← ssh_format_string "%ls" [FInt value; FBytes d];
        Ok (set_logfile (Some s) self, 0)
    end
  else if key =? WERROR_SYSLOG then Ok (set_syslog (keep_flag (wc_syslog self) value) self, 0)
  else if key =? KEY_QUIET then Ok (set_quiet (keep_flag (wc_quiet self) value) self, 0)
  else if key =? KEY_VERBOSE then Ok (set_verbose (keep_flag (wc_verbose self) value) self, 0)
  else if key =? WERROR_TRACE then Ok (set_trace (keep_flag (wc_trace self) value) self, 0)
  else if key =? WERROR_DEBUG then Ok (set_debug (keep_flag (wc_debug self) value) self, 0)
  else Ok (self, 0).

(** A pointer to the object. *)
Abbreviation handler := (@config_parser_handler_t userauth_object ()).

Definition werror_handler : handler := λ key value data state self,
  _ ← deref (cs_input state);
  '(w, err) ← werror_config_handler key value data (sv_werror (uo_super self));
  Ok (state, set_werror w self, err).

Definition werror_config_parser : @config_parser userauth_object () := mk_config_parser werror_config_options werror_handler [].

(** [state->child_inputs[0] = &self->super.super] *)
Definition set_child_input (state : @config_parser_state ()) : result config_parser_state :=
  match cs_child_inputs state with
  | [] => Fault OutOfBounds
  | _ :: inputs => Ok (mk_config_state (cs_input state) (Some () :: inputs))
  end.

Definition lshd_userauth_config_handler : handler := λ key value data state self,
  _ ← deref (cs_input state);
  if key =? CONFIG_PARSE_KEY_INIT then
    state ← set_child_input state; Ok (state, self, 0)
  else if key =? CONFIG_PARSE_KEY_END then
    let self := set_allow_password (keep_flag (uo_allow_password self) 0) self in
    let self := set_allow_publickey (keep_flag (uo_allow_publickey self) 0) self in
    let self := set_allow_root_login (keep_flag (uo_allow_root_login self) 0) self in
    Ok (state, self, 0)
  else if key =? OPT_SERVICE then
    d ← deref data;
    '(services, ok) ← service_config_option (uo_service_config self) value d;
    Ok (state, set_services services self, if ok : bool then 0 else EINVAL)
  else if key =? OPT_PASSWORD then Ok (state, set_allow_password (keep_flag (uo_allow_password self) value) self, 0)
  else if key =? OPT_PUBLICKEY then Ok (state, set_allow_publickey (keep_flag (uo_allow_publickey self) value) self, 0)
  else if key =? OPT_ROOT_LOGIN then Ok (state, set_allow_root_login (keep_flag (uo_allow_root_login self) value) self, 0)
  else Ok (state, self, 0).

Definition lshd_userauth_config_parser : @config_parser userauth_object () :=
  mk_config_parser lshd_userauth_config_options lshd_userauth_config_handler [werror_config_parser].

End handlers.

(** ** The command line *)

(** The environment and the files: the value of a variable, the text of a file
    or the number of an error, and whether a log file can be opened. *)
Class Files := {
  env_value : list Z → option (list Z);
  file_text : list Z → Z + list Z;
  log_opens : option (list Z) → bool;
  LIBEXECDIR : list Z;
  FILE_LSHD_CONFIG_DIR : list Z;
}.

(** A call of an argp parser: the new object, a key it does not know, or the
    end of the program. *)
Inductive argp_reply : Type := Parsed (self : userauth_object) | UnknownKey | Ends.

Definition ARGP_KEY_END := 16777217.
Definition ARGP_KEY_INIT := 16777219.

Section command_line.
Context `{Malloc} `{NettleMacros} `{NettleBignum} `{Files}.

Definition make_service_config : option service_config :=
  match env_value (cstr "LSHD_LIBEXEC_DIR") with
  | None => Some (mk_service_config [] LIBEXECDIR false)
  | Some dir => if bool_decide (head dir = Some 47) then Some (mk_service_config [] dir false) else None
  end.

Definition make_lshd_userauth_config : option userauth_object :=
  services ← make_service_config;
  Some (mk_userauth_object (init_server_config (cstr "lshd-userauth.conf") (cstr "LSHD_USERAUTH_CONF")) services None (-1) (-1) (-1)).

(** At the end only the name of the program is set. *)
Definition werror_argp_parser (key : Z) (arg : list Z) (self : userauth_object) : result argp_reply :=
  let w := sv_werror (uo_super self) in
  if key =? ARGP_KEY_END then Ok (Parsed self)
  else if key =? KEY_QUIET then Ok (Parsed (set_werror (set_quiet 1 w) self))
  else if key =? KEY_VERBOSE then Ok (Parsed (set_werror (set_verbose 1 w) self))
  else if key =? WERROR_TRACE then Ok (Parsed (set_werror (set_trace 1 w) self))
  else if key =? WERROR_DEBUG then Ok (Parsed (set_werror (set_debug 1 w) self))
  else if key =? WERROR_LOGFILE then
    match wc_logfile w with
    | Some _ => Ok (Parsed self)
    | None =>
        s ← ssh_format_string "%lz" [FCstr arg];
        Ok (Parsed (set_werror (set_syslog 0 (set_logfile (Some s) w)) self))
    end
  else Ok UnknownKey.

(** The variables of [werror.c], and whether it worked. *)
Definition werror_init (config : werror_config) (st : werror_state) : werror_state * bool :=
  let st := mk_werror_state (quiet_flag st || (0 <? wc_quiet config)) (verbose_flag st || (0 <? wc_verbose config))
              (trace_flag st || (0 <? wc_trace config)) (debug_flag st || (0 <? wc_debug config)) (messages_to st) in
  let set_target target := mk_werror_state (quiet_flag st) (verbose_flag st) (trace_flag st) (debug_flag st) target in
  if 0 <? wc_syslog config then (set_target ToSyslog, true)
  else match wc_logfile config with
  | None => (st, true)
  | Some f => if log_opens (lsh_get_cstring (Some f)) then (set_target (ToFile f), true) else (st, false)
  end.

(** What [lsh_get_cstring] points to, as a C string. *)
Definition cstring_of (s : option lsh_string) : option (list Z) := c_string <$> lsh_get_cstring s.

(** The object, with 0 or a code of [errno.h].  The tokenizer gets the name made
    here, and null for a file that has a name already. *)
Definition server_parse_config_file (file : option (list Z)) (default_file env_file : list Z)
  (parser : @config_parser userauth_object ()) (self : userauth_object) : result (userauth_object * Z) :=
  let file := match file with None => env_value env_file | Some _ => file end in
  '(s, file) ← match file with
      | Some file => Ok (None, Some file)
      | None =>
          let dir := default FILE_LSHD_CONFIG_DIR (env_value (cstr "LSHD_CONFIG_DIR")) in
          s ← ssh_format_string "%lz/%lz" [FCstr dir; FCstr default_file];
          Ok (Some s, cstring_of (Some s))
      end;
  name ← deref file;
  match file_text name with
  | inl errno => Ok (self, errno)
  | inr contents => server_config_parse_string parser (cstring_of s) (lenZ contents) contents (Some ()) self
  end.

Definition OPT_CONFIG_FILE := 512.
Definition OPT_PRINT_EXAMPLE := 513.
Definition OPT_USE_EXAMPLE := 514.

(** Later messages are left out, and so is what [werror_init] has set. *)
Definition server_argp_parser (key : Z) (arg : list Z) (self : userauth_object) : result argp_reply :=
  let super := uo_super self in
  if key =? ARGP_KEY_INIT then Ok (Parsed self)
  else if key =? ARGP_KEY_END then
    if bool_decide (is_Some (sv_config_file super)) && sv_use_example super then Ok Ends
    else
      '(self, err) ←
        (if sv_use_example super then server_config_parse_example lshd_userauth_config_parser (Some ()) self
         else server_parse_config_file (sv_config_file super) (sv_default_file super) (sv_env_variable super)
                lshd_userauth_config_parser self);
      if negb (err =? 0) then Ok Ends
      else if (werror_init (sv_werror (uo_super self)) werror_start).2 then Ok (Parsed self) else Ok Ends
  else if key =? OPT_CONFIG_FILE then
    Ok (Parsed (set_super (mk_server_config (sv_werror super) (sv_default_file super) (sv_env_variable super) (Some arg) (sv_use_example super)) self))
  else if key =? OPT_PRINT_EXAMPLE then Ok Ends
  else if key =? OPT_USE_EXAMPLE then
    Ok (Parsed (set_super (mk_server_config (sv_werror super) (sv_default_file super) (sv_env_variable super) (sv_config_file super) true) self))
  else Ok UnknownKey.

(** The service that is offered if no other is. *)
Fixpoint push_all (e : service_entry) (args : list (list Z)) : result service_entry :=
  match args with
  | [] => Ok e
  | s :: args => e ← push_args e s; push_all e args
  end.

Definition default_args (w : werror_config) : list (list Z) :=
  [cstr "lshd-connection"; cstr "--helper-fd"; cstr "$(helper_fd)"]
  ++ (if 0 <? wc_verbose w then [cstr "-v"] else []) ++ (if 0 <? wc_quiet w then [cstr "-q"] else [])
  ++ (if 0 <? wc_debug w then [cstr "--debug"] else []) ++ (if 0 <? wc_trace w then [cstr "--trace"] else []).

Definition default_service (self : userauth_object) : result userauth_object :=
  match sc_services (uo_service_config self) with
  | _ :: _ => Ok self
  | [] =>
      e ← push_all (make_service_entry (cstr "ssh-connection")) (default_args (sv_werror (uo_super self)));
      _ ← c_assert (0 <? al_argc (se_args e));
      Ok (set_services (add_service (uo_service_config self) e) self)
  end.

(** [ARGP_KEY_END] *)
Definition end_of_options (self : userauth_object) : result argp_reply :=
  match uo_session_id self with
  | None => Ok Ends
  | Some _ =>
      self ← default_service self;
      _ ← c_assert (0 <=? uo_allow_password self);
      _ ← c_assert (0 <=? uo_allow_publickey self);
      _ ← c_assert (0 <=? uo_allow_root_login self);
      if negb (c_true (uo_allow_password self) || c_true (uo_allow_publickey self)) then Ok Ends
      else Ok (Parsed self)
  end.

Definition override_services (self : userauth_object) : userauth_object :=
  let c := uo_service_config self in set_services (mk_service_config (sc_services c) (sc_libexec_dir c) true) self.

Definition service_argument (self : userauth_object) (name : list Z) (argv : list (list Z)) : result argp_reply :=
  r ← service_config_argp (uo_service_config self) name argv;
  Ok (match r with ArgpOk services _ => Parsed (set_services services self) | ArgpError => Ends end).

(** [argv] is what follows the option and its argument. *)
Definition main_argp_parser (key : Z) (arg : list Z) (argv : list (list Z)) (self : userauth_object) : result argp_reply :=
  if key =? ARGP_KEY_INIT then Ok (Parsed self)
  else if key =? ARGP_KEY_END then end_of_options self
  else if key =? OPT_SESSION_ID then
    s ← lsh_string_hex_decode (lenZ arg) arg;
    Ok (match s with None => Ends | Some s => Parsed (set_session_id (Some s) self) end)
  else if key =? OPT_SERVICE then service_argument (override_services self) arg argv
  else if key =? OPT_ADD_SERVICE then service_argument self arg argv
  else if key =? OPT_PASSWORD then Ok (Parsed (set_allow_password 1 self))
  else if key =? OPT_NO_PASSWORD then Ok (Parsed (set_allow_password 0 self))
  else if key =? OPT_PUBLICKEY then Ok (Parsed (set_allow_publickey 1 self))
  else if key =? OPT_NO_PUBLICKEY then Ok (Parsed (set_allow_publickey 0 self))
  else if key =? OPT_ROOT_LOGIN then Ok (Parsed (set_allow_root_login 1 self))
  else if key =? OPT_NO_ROOT_LOGIN then Ok (Parsed (set_allow_root_login 0 self))
  else Ok UnknownKey.

(** The calls that are made for the words of a command line, each with the
    argument of the option and the words after it. *)
Inductive argp_call : Type :=
  | MainCall (key : Z) (arg : list Z) (argv : list (list Z))
  | ServerCall (key : Z) (arg : list Z)
  | WerrorCall (key : Z) (arg : list Z).

Definition argp_dispatch (c : argp_call) (self : userauth_object) : result argp_reply :=
  match c with
  | MainCall key arg argv => main_argp_parser key arg argv self
  | ServerCall key arg => server_argp_parser key arg self
  | WerrorCall key arg => werror_argp_parser key arg self
  end.

(** Anything but a parsed option ends the program. *)
Fixpoint argp_calls (calls : list argp_call) (self : userauth_object) : result (option userauth_object) :=
  match calls with
  | [] => Ok (Some self)
  | c :: calls =>
      r ← argp_dispatch c self;
      match r with
      | Parsed self => argp_calls calls self
      | UnknownKey | Ends => Ok None
      end
  end.

(** Children come first at the end. *)
Definition end_calls : list argp_call := [WerrorCall ARGP_KEY_END []; ServerCall ARGP_KEY_END []; MainCall ARGP_KEY_END [] []].

(** The object that [main] works with, unless the program ends first. *)
Definition userauth_setup (calls : list argp_call) : result (option userauth_object) :=
  match make_lshd_userauth_config with
  | None => Ok None
  | Some self => argp_calls (calls ++ end_calls) self
  end.

End command_line.

(** What the rest of the program reads. *)
Definition config_of (self : userauth_object) (session_id : lsh_string) : lshd_userauth_config :=
  mk_userauth_config (uo_service_config self) session_id
    (c_true (uo_allow_password self)) (c_true (uo_allow_publickey self)) (c_true (uo_allow_root_login self)).

Section example.
Context `{Malloc} `{NettleMacros} `{NettleBignum}.


End example.

