(* ===== verification/UserAuthConfigSafe.v ===== *)
(** * The configuration is good

    Whatever the command line and the configuration file hold, the program ends
    or goes on with a configuration that satisfies what the rest of it needs, in
    which the file has not changed what the command line has set. *)

From S2P Require Import Prelude Ssh Nettle Atoms LshString Format FormatSpec Wire Parse ParseSpec StringUtil Sys SshRead ServiceRead Hash Crypto DhExchange Charset Service UserAuth UserAuthSpec UserAuthGrant UserAuthRun Tokenize ServerConfig ServerConfigSpec ServerConfigSafe ServerConfigName UserAuthConfig.
Local Open Scope Z_scope.

Class FilesOk `{Files} : Prop := {
  env_value_text n v : env_value n = Some v → c_text v;
  file_text_bytes n d : file_text n = inr d → Forall is_byte d ∧ lenZ d < 2 ^ 28;
  file_text_error n e : file_text n = inl e → e ≠ 0;
  LIBEXECDIR_text : c_text LIBEXECDIR;
  CONFIG_DIR_text : c_text FILE_LSHD_CONFIG_DIR;
}.

(** ** Words with NULs *)

(** A word that holds NULs counts as several strings. *)
Fixpoint cut (w : list Z) : list (list Z) :=
  match w with
  | [] => [[]]
  | c :: w =>
      if c =? 0 then [] :: cut w
      else match cut w with s :: l => (c :: s) :: l | [] => [] end
  end.

Lemma cut_cons w : ∃ s l, cut w = s :: l.
Proof. induction w as [| c w (s & l & IH)]; simpl; [by eexists _, _ |]. destruct (c =? 0); [by eexists _, _ |]. rewrite IH. by eexists _, _. Qed.

Lemma cut_octets w : item_octets (cut w) = w ++ [0].
Proof.
  induction w as [| c w IH]; simpl; [done |]. destruct (Z.eqb_spec c 0) as [-> | Hne]; [by rewrite item_octets_cons, IH |].
  destruct (cut_cons w) as (s & l & Hc). rewrite Hc in *. rewrite item_octets_cons in *. simpl. by rewrite IH.
Qed.

Lemma cut_text w : small_word w → Forall c_text (cut w).
Proof.
  intros [Hb Hl]. revert Hl. induction Hb as [| c w Hc Hb IH]; intros Hl; simpl; [by repeat constructor |].
  rewrite lenZ_cons in Hl. specialize (IH ltac:(lia)). destruct (Z.eqb_spec c 0) as [-> | Hne]; [by repeat constructor |].
  destruct (cut_cons w) as (s & l & Hcut). pose proof (cut_octets w) as Ho. rewrite Hcut in *. apply Forall_cons in IH as [[Hs Hsl] HF]. constructor; [| done].
  assert (lenZ s + 1 <= lenZ w + 1) as Hle.
  { rewrite item_octets_cons in Ho. apply (f_equal lenZ) in Ho. rewrite !lenZ_app, lenZ_cons in Ho. change (lenZ [0]) with 1 in Ho.
    pose proof (lenZ_nonneg (item_octets l)). lia. }
  split; [constructor; [unfold is_byte in Hc; lia | done] | rewrite lenZ_cons; lia].
Qed.

Definition items_of (words : list (list Z)) : list (list Z) := concat (cut <$> words).

Lemma item_octets_app l m : item_octets (l ++ m) = item_octets l ++ item_octets m.
Proof. unfold item_octets. by rewrite fmap_app, concat_app. Qed.

Lemma items_octets words : item_octets (items_of words) = item_octets words.
Proof.
  unfold items_of. induction words as [| w words IH]; [done |]. rewrite fmap_cons. cbn [concat]. rewrite item_octets_app, cut_octets, IH, item_octets_cons.
  by rewrite <- app_assoc.
Qed.

Lemma items_text words : Forall small_word words → Forall c_text (items_of words).
Proof. induction 1 as [| w words Hw _ IH]; [constructor |]. unfold items_of. rewrite fmap_cons. cbn [concat]. apply Forall_app. by split; [apply cut_text |]. Qed.

Lemma texts_plain (l : list (list Z)) : Forall c_text l → Forall (λ s, 0 ∉ s) l.
Proof. intros Hl. eapply Forall_impl; [exact Hl |]. apply c_text_plain. Qed.

(** ** Services *)

Definition entry_ok (e : service_entry) : Prop := ∃ name args, entry_holds e name args ∧ args ≠ [] ∧ Forall c_text args.

Definition services_ok (c : service_config) : Prop := Forall entry_ok (sc_services c).

Lemma services_ok_wf c : services_ok c → service_config_wf c.
Proof. intros Hc. eapply Forall_impl; [exact Hc |]. intros e (name & args & He & Hne & _). by exists name, args. Qed.

(** Only the services may change. *)
Definition services_grow (c c' : service_config) : Prop :=
  services_ok c' ∧ sc_libexec_dir c' = sc_libexec_dir c ∧ sc_override_config_file c' = sc_override_config_file c.

Lemma grow_add c e : services_ok c → entry_ok e → services_grow c (add_service c e).
Proof. intros Hc He. split; [by apply Forall_cons |]. done. Qed.

Lemma grow_same c : services_ok c → services_grow c c.
Proof. by intros Hc. Qed.

Section service.
Context `{MallocOk}.

Lemma service_option_ok c x words :
  services_ok c → text_holds x words → words ≠ [] → Forall small_word words →
  ∃ c' ok, service_config_option c (tx_length x) (tx_list x) = Ok (c', ok) ∧ services_grow c c'
    ∧ (sc_override_config_file c = true → c' = c).
Proof.
  intros Hc Hx Hne Hw. destruct (sc_override_config_file c) eqn:Ho.
  { unfold service_config_option. rewrite Ho. exists c, true. split; [done |]. split; [by apply grow_same | done]. }
  pose proof (items_text words Hw) as Ht. pose proof (items_octets words) as Hoct.
  destruct (items_of words) as [| name args] eqn:Hit.
  { destruct words as [| w words]; [done |]. unfold items_of in Hit. rewrite fmap_cons in Hit. cbn [concat] in Hit.
    destruct (cut_cons w) as (s & l & Hcut). by rewrite Hcut in Hit. }
  apply Forall_cons in Ht as [Hn Ha]. rewrite (th_length _ _ Hx), <- Hoct.
  assert (tx_list x = item_octets (name :: args) ++ drop (Z.to_nat (tx_length x)) (tx_list x)) as Hblock.
  { rewrite Hoct, <- (th_words _ _ Hx). unfold slice. rewrite drop_0. by rewrite take_drop. }
  rewrite Hblock. destruct (service_config_option_spec c name args (drop (Z.to_nat (tx_length x)) (tx_list x)) (services_ok_wf c Hc) Ho
    (c_text_plain _ Hn) (texts_plain _ Ha)) as (c' & -> & Hs).
  exists c', (bool_decide (args ≠ [])). split; [done |]. split; [| done]. destruct (decide (args = [])) as [_ | Hargs]; [subst; by apply grow_same |].
  destruct Hs as (e & -> & He). apply grow_add; [done |]. by exists name, args.
Qed.

(** Words of the command line. *)
Lemma command_line_ok c argv : ∀ e name args level,
  services_ok c → Forall c_text argv → entry_holds e name args → Forall c_text args →
  ∃ r, command_line c e level argv = Ok r ∧ ∀ c' rest, r = ArgpOk c' rest → services_grow c c' ∧ sc_services c' ≠ [].
Proof.
  induction argv as [| s argv IH]; intros e name args level Hc Hargv He Ha; cbn [command_line]; [by exists ArgpError |].
  apply Forall_cons in Hargv as [Hs Hargv]. destruct (push_args_holds e name args s He) as (e1 & Hp & He1).
  destruct (bool_decide (s = brace_close) && _).
  - eexists. split; [done |]. intros c' rest. destruct (Z.eqb_spec (al_argc (se_args e)) 0) as [Hz | Hnz]; [done |]. intros [= <- _].
    split; [| done]. apply grow_add; [done |]. exists name, args. split; [done |]. split; [| done]. intros ->. destruct He as [_ _ _ [Hc0 _ _ _]]. done.
  - rewrite Hp, bind_ok_l. eapply IH; [done | done | exact He1 |]. apply Forall_app. split; [done | by apply Forall_singleton].
Qed.

Lemma service_argp_ok c name argv :
  services_ok c → c_text name → Forall c_text argv →
  ∃ r, service_config_argp c name argv = Ok r ∧ ∀ c' rest, r = ArgpOk c' rest → services_grow c c' ∧ sc_services c' ≠ [].
Proof.
  intros Hc Hn Ha. unfold service_config_argp. destruct (service_config_lookup c (lenZ name) name) eqn:Hlook.
  { eexists. split; [done |]. intros c' rest [= <- _]. split; [by apply grow_same |]. intros Hnil. unfold service_config_lookup in Hlook. by rewrite Hnil in Hlook. }
  destruct argv as [| s argv]; [by exists ArgpError |]. apply Forall_cons in Ha as [_ Ha]. destruct (bool_decide (s = brace_open)); [| by exists ArgpError].
  eapply (command_line_ok c argv _ name []); [done | done | | constructor].
  split; [done | done | by apply c_text_plain | apply arglist_init_holds].
Qed.

Lemma push_all_ok l : ∀ e name args,
  entry_holds e name args → ∃ e', push_all e l = Ok e' ∧ entry_holds e' name (args ++ l).
Proof.
  induction l as [| s l IH]; intros e name args He; cbn [push_all]; [exists e; by rewrite app_nil_r |].
  destruct (push_args_holds e name args s He) as (e1 & -> & He1). rewrite bind_ok_l. destruct (IH e1 name _ He1) as (e2 & -> & He2).
  exists e2. by rewrite <- app_assoc in He2.
Qed.

End service.

(** ** The object *)

Record object_ok (o : userauth_object) : Prop := {
  oo_services : services_ok (uo_service_config o);
  oo_libexec : c_text (sc_libexec_dir (uo_service_config o));
  oo_override : sc_override_config_file (uo_service_config o) = true → sc_services (uo_service_config o) ≠ [];
  oo_session s : uo_session_id o = Some s → lsh_string_wf s ∧ ls_length s < 2 ^ 30;
  oo_password : -1 <= uo_allow_password o <= 1;
  oo_publickey : -1 <= uo_allow_publickey o <= 1;
  oo_root_login : -1 <= uo_allow_root_login o <= 1;
}.

(** A flag that is set stays. *)
Definition flag_kept (old new : Z) : Prop := 0 <= old → new = old.

(** What the file may have made of the object of the command line. *)
Record from_file (c o : userauth_object) : Prop := {
  ff_ok : object_ok o;
  ff_session : uo_session_id o = uo_session_id c;
  ff_override : sc_override_config_file (uo_service_config o) = sc_override_config_file (uo_service_config c);
  ff_services : sc_override_config_file (uo_service_config c) = true → uo_service_config o = uo_service_config c;
  ff_password : flag_kept (uo_allow_password c) (uo_allow_password o);
  ff_publickey : flag_kept (uo_allow_publickey c) (uo_allow_publickey o);
  ff_root_login : flag_kept (uo_allow_root_login c) (uo_allow_root_login o);
}.

Lemma from_file_start o : object_ok o → from_file o o.
Proof. intros Ho. by split. Qed.

Lemma keep_flag_range old value : -1 <= old <= 1 → 0 <= value <= 1 → -1 <= keep_flag old value <= 1.
Proof. unfold keep_flag. destruct (Z.ltb_spec old 0); lia. Qed.

Lemma keep_flag_kept c old value : flag_kept c old → flag_kept c (keep_flag old value).
Proof. unfold flag_kept, keep_flag. intros Hk Hc. specialize (Hk Hc). destruct (Z.ltb_spec old 0); lia. Qed.

(** Settings of the object. *)
Lemma from_file_werror c o w : from_file c o → from_file c (set_werror w o).
Proof. intros [[] ? ? ? ? ? ?]. by split; [split |..]. Qed.

Lemma from_file_password c o v : from_file c o → 0 <= v <= 1 → from_file c (set_allow_password (keep_flag (uo_allow_password o) v) o).
Proof. intros [[] ? ? ? ? ? ?] Hv. split; try done; [split; try done; by apply keep_flag_range | by apply keep_flag_kept]. Qed.

Lemma from_file_publickey c o v : from_file c o → 0 <= v <= 1 → from_file c (set_allow_publickey (keep_flag (uo_allow_publickey o) v) o).
Proof. intros [[] ? ? ? ? ? ?] Hv. split; try done; [split; try done; by apply keep_flag_range | by apply keep_flag_kept]. Qed.

Lemma from_file_root_login c o v : from_file c o → 0 <= v <= 1 → from_file c (set_allow_root_login (keep_flag (uo_allow_root_login o) v) o).
Proof. intros [[] ? ? ? ? ? ?] Hv. split; try done; [split; try done; by apply keep_flag_range | by apply keep_flag_kept]. Qed.

Lemma from_file_services c o s :
  from_file c o → services_grow (uo_service_config o) s → (sc_override_config_file (uo_service_config o) = true → s = uo_service_config o) →
  from_file c (set_services s o).
Proof.
  intros [[? ? Hne ? ? ? ?] ? Hov Hs ? ? ?] (Hg & Hl & Ho) Hkeep. split; try done; simpl.
  - split; try done; simpl; [by rewrite Hl |]. rewrite Ho. intros Hover. rewrite (Hkeep Hover). by apply Hne.
  - by rewrite Ho.
  - intros Hc. rewrite <- (Hs Hc). apply Hkeep. by rewrite Hov.
Qed.

(** ** The contract of the handlers *)

Section config.
Context `{MallocOk} `{NettleMacrosOk} `{NettleBignumOk}.

(** The input of every parser is the object. *)
Definition the_object (p : @config_parser userauth_object ()) (input : option ()) : Prop := input = Some ().

Lemma formats_octets (d : list Z) :
  small_word d → formats (ssh_format_string "%ls" [FInt (lenZ d); FBytes d]) d.
Proof.
  intros [Hb Hl]. pose proof (lenZ_nonneg d). eapply formats_spec.
  - unfold spec_format. cbn -[lenZ u32]. rewrite u32_id by (unfold is_u32; lia). rewrite Z.ltb_irrefl. reflexivity.
  - cbn -[lenZ slice]. by rewrite slice_all, app_nil_r.
  - by farg_list.
  - lia.
Qed.

Lemma bool_range o v d : co_type o = CONFIG_TYPE_BOOL → option_input o v d → 0 <= v <= 1.
Proof. unfold option_input. intros ->. lia. Qed.

Ltac bool_example :=
  intros e He; simpl in He;
  first [discriminate He |
         injection He as <-; split; [apply (bool_decide_unpack _); by vm_compute |]; split; [by vm_compute | first [by left | by right]]].

Lemma werror_contract c : parser_contract (from_file c) the_object werror_config_parser.
Proof.
  split.
  - intros cs st Hst Hin Hlen. simpl in Hlen. destruct cs as [input inputs]. simpl in *. rewrite Hin. eexists. split; [reflexivity |].
    split; [by apply from_file_werror |]. split; [done |]. destruct inputs; [constructor | done].
  - intros cs st Hst Hin. destruct cs as [input inputs]. unfold the_object in Hin. simpl in Hin. subst input. eexists. split; [reflexivity |].
    split; [by apply from_file_werror | done].
  - intros o value data cs st Ho Hst Hin Hv. destruct cs as [input inputs]. unfold the_object in Hin. simpl in Hin. subst input.
    assert (∃ w, werror_config_handler (co_key o) value data (sv_werror (uo_super st)) = Ok (w, 0)) as [w Hw].
    { simpl in Ho. repeat (apply elem_of_cons in Ho as [-> | Ho]); [| by eexists.. | by apply not_elem_of_nil in Ho].
      destruct Hv as (arg & -> & -> & Harg). unfold werror_config_handler. simpl. destruct (wc_logfile _); [by eexists |].
      destruct (formats_octets arg Harg) as (s & Hs & _). simpl. rewrite Hs. by eexists. }
    unfold returns. cbn [cp_handler werror_config_parser werror_handler cs_input deref]. unfold werror_handler. cbn [cs_input deref]. rewrite bind_ok_l, Hw, bind_ok_l.
    eexists. split; [reflexivity |]. split; [by apply from_file_werror | done].
  - by repeat constructor.
  - repeat (apply Forall_cons; split; [bool_example |]). constructor.
Qed.

Lemma keep_flag_set v : 0 <= keep_flag v 0.
Proof. unfold keep_flag. destruct (Z.ltb_spec v 0); lia. Qed.

Lemma service_example :
  ∃ name ts r, is_value_list (cstr "ssh-connection = { lshd-connection --helper-fd $(helper_fd) --use-example-config }") name ts r.
Proof.
  set (l := cstr _). assert (Forall is_byte l) as Hb by (apply (bool_decide_unpack _); by vm_compute).
  pose proof (tokenizer_init_reads [] l Hb ltac:(by vm_compute)) as Hrd.
  destruct (parse_value_list_spec _ l Hrd ltac:(by vm_compute)) as (t & x & err & Hrun & r & _ & _ & [(_ & name & ts & Hv & _) | [-> _]]); [by exists name, ts, r |].
  exfalso. assert (∃ t x, parse_value_list (config_tokenizer_init (Some []) (lenZ l) l) = Ok (t, x, 0)) as (t' & x' & Hrun').
  { eexists _, _. vm_compute. reflexivity. }
  rewrite Hrun in Hrun'. discriminate Hrun'.
Qed.

(** The flags are set at the end. *)
Definition flags_set (o : userauth_object) : Prop :=
  0 <= uo_allow_password o ∧ 0 <= uo_allow_publickey o ∧ 0 <= uo_allow_root_login o.

Lemma userauth_contract c : parser_contract (from_file c) the_object lshd_userauth_config_parser.
Proof.
  split.
  - intros cs st Hst Hin Hlen. simpl in Hlen. destruct cs as [input [| i [| j inputs]]]; try done. simpl in *. rewrite Hin. eexists. split; [reflexivity |].
    split; [done |]. split; [done |]. repeat constructor.
  - intros cs st Hst Hin. destruct cs as [input inputs]. unfold the_object in Hin. simpl in Hin. subst input. eexists. split; [reflexivity |].
    split; [| done]. apply (from_file_password c st 0) in Hst; [| lia]. apply (from_file_publickey c _ 0) in Hst; [| lia]. by apply (from_file_root_login c _ 0) in Hst; [| lia].
  - intros o value data cs st Ho Hst Hin Hv. destruct cs as [input inputs]. unfold the_object in Hin. simpl in Hin. subst input.
    simpl in Ho. repeat (apply elem_of_cons in Ho as [-> | Ho]); [| | | | by apply not_elem_of_nil in Ho].
    + destruct Hv as (x & words & -> & -> & Hx & Hne & Hw & _). destruct (service_option_ok _ x words (oo_services _ (ff_ok _ _ Hst)) Hx Hne Hw) as (s & ok & Hs & Hg & Hk).
      unfold returns. cbn -[service_config_option]. rewrite Hs. eexists. split; [reflexivity |]. split; [by apply from_file_services | done].
    + eexists. split; [reflexivity |]. split; [| done]. apply from_file_password; [done | by eapply bool_range; [| exact Hv]].
    + eexists. split; [reflexivity |]. split; [| done]. apply from_file_publickey; [done | by eapply bool_range; [| exact Hv]].
    + eexists. split; [reflexivity |]. split; [| done]. apply from_file_root_login; [done | by eapply bool_range; [| exact Hv]].
  - by repeat constructor.
  - apply Forall_cons. split; [| repeat (apply Forall_cons; split; [bool_example |]); constructor].
    intros e [= <-]. split; [apply (bool_decide_unpack _); by vm_compute |]. split; [by vm_compute |]. apply service_example.
Qed.

Lemma userauth_parsers_ok c : parsers_ok (from_file c) the_object lshd_userauth_config_parser.
Proof. apply Forall_cons. split; [apply userauth_contract |]. apply Forall_cons. split; [apply werror_contract | constructor]. Qed.

Lemma ended_flags c o : ended (from_file c) the_object lshd_userauth_config_parser o → flags_set o.
Proof.
  intros (st & cs & cs' & err & _ & Hin & Hrun). destruct cs as [input inputs]. unfold the_object in Hin. simpl in Hin. subst input.
  injection Hrun as _ <- _. split; [apply keep_flag_set |]. split; apply keep_flag_set.
Qed.

(** ** Reading the file *)

Context `{FilesOk}.

Lemma config_name_ok default_file :
  c_text default_file →
  ∃ s d, ssh_format_string "%lz/%lz" [FCstr (default FILE_LSHD_CONFIG_DIR (env_value (cstr "LSHD_CONFIG_DIR"))); FCstr default_file] = Ok s
    ∧ cstring_of (Some s) = Some d.
Proof.
  intros Hd. set (dir := default _ _).
  assert (c_text dir) as Hdir.
  { unfold dir. destruct (env_value _) as [v |] eqn:Hv; [by eapply env_value_text | apply CONFIG_DIR_text]. }
  destruct (formats_cstring _ _ (formats_pair "%lz/%lz" 47 dir default_file Hdir Hd ltac:(pair_spec)) (plain_pair 47 _ _ Hdir Hd ltac:(done)))
    as (s & d & -> & Hs & _). exists s, (c_string d). split; [done |]. unfold cstring_of. by rewrite Hs.
Qed.

(** The file has a name of its own. *)
Definition file_named (o : userauth_object) : Prop :=
  is_Some (sv_config_file (uo_super o)) ∨ is_Some (env_value (sv_env_variable (uo_super o))).

Definition read_ok (c : userauth_object) (r : result (userauth_object * Z)) : Prop :=
  (∃ o err, r = Ok (o, err) ∧ from_file c o ∧ (err = 0 → flags_set o)) ∨ (file_named c ∧ r = Fault NullPointer).

Lemma parse_file_ok c :
  object_ok c → c_text (sv_default_file (uo_super c)) →
  read_ok c (server_parse_config_file (sv_config_file (uo_super c)) (sv_default_file (uo_super c)) (sv_env_variable (uo_super c)) lshd_userauth_config_parser c).
Proof.
  intros Hc Hd. unfold server_parse_config_file.
  assert (∀ file name, (file = None → file_named c) →
    read_ok c (match file_text name with
               | inl errno => Ok (c, errno)
               | inr contents => server_config_parse_string lshd_userauth_config_parser file (lenZ contents) contents (Some ()) c
               end)) as Hread.
  { intros file name Hnone. destruct (file_text name) as [errno | contents] eqn:Hf.
    { left. exists c, errno. split; [done |]. split; [by apply from_file_start |]. intros ->. by apply file_text_error in Hf. }
    apply file_text_bytes in Hf as [Hb Hl].
    destruct (parse_string_ends (from_file c) the_object lshd_userauth_config_parser file (Some ()) c contents (userauth_parsers_ok c) eq_refl (from_file_start c Hc) Hb Hl)
      as [(o & err & -> & Ho & He) | [Hn ->]]; [left | right; split; [by apply Hnone | done]].
    exists o, err. split; [done |]. split; [done |]. intros Herr. by apply (ended_flags c), He. }
  destruct (sv_config_file (uo_super c)) as [file |] eqn:Hcf.
  { cbn -[cstring_of]. apply Hread. intros _. left. by rewrite Hcf. }
  destruct (env_value (sv_env_variable (uo_super c))) as [file |] eqn:Hev.
  { cbn -[cstring_of]. apply Hread. intros _. right. by rewrite Hev. }
  destruct (config_name_ok _ Hd) as (s & d & -> & Hs). cbn -[cstring_of]. rewrite Hs. cbn -[cstring_of]. by apply Hread.
Qed.

(** ** The command line *)

(** A session id is decoded or refused. *)
Lemma hex_decode_ok pairs hex : ∀ i s,
  Forall is_byte hex → lsh_string_wf s → 0 <= i → Z.even i = true → i + 2 * Z.of_nat pairs <= lenZ hex → i `div` 2 + Z.of_nat pairs <= ls_length s →
  ∃ r, hex_decode_loop pairs hex i s = Ok r ∧ ∀ s', r = Some s' → lsh_string_wf s' ∧ ls_length s' = ls_length s.
Proof.
  intros i s Hb. revert i s. induction pairs as [| pairs IH]; intros i s Hs Hi He Hh Hl; cbn [hex_decode_loop].
  { exists (Some s). split; [done |]. by intros s' [= <-]. }
  assert (∀ j, 0 <= j < lenZ hex → ∃ h, rd hex j = Ok h ∧ is_byte h) as Hrd.
  { intros j Hj. destruct (rd_ok hex j Hj) as [h Hh']. exists h. split; [done |]. apply rd_lookup in Hh' as [_ Hh']. by eapply (Forall_lookup_1 _ _ _ _ Hb). }
  destruct (Hrd i ltac:(lia)) as (h1 & -> & Hb1). destruct (Hrd (i + 1) ltac:(lia)) as (h2 & -> & Hb2). rewrite !bind_ok_l. unfold is_byte in *.
  destruct (Z.leb_spec 128 h1) as [? | Hs1]; [by exists None |]. destruct (Z.leb_spec 128 h2) as [? | Hs2]; [by exists None |]. cbn [orb].
  destruct (rd_ok hex_decode_table h1) as [d1 ->]; [change (lenZ hex_decode_table) with 128; lia |]. rewrite bind_ok_l. destruct (d1 <? 0); [by exists None |].
  destruct (rd_ok hex_decode_table h2) as [d2 ->]; [change (lenZ hex_decode_table) with 128; lia |]. rewrite bind_ok_l. destruct (d2 <? 0); [by exists None |].
  pose proof (Z.div_pos i 2 Hi ltac:(lia)).
  destruct (lsh_string_putc_spec s (i `div` 2) (Z.lor (Z.shiftl d1 4) d2) Hs) as (s1 & -> & Hs1' & Hl1 & _); [lia |]. rewrite bind_ok_l.
  destruct (IH (i + 2) s1) as (r & -> & Hr); [done | lia | by rewrite Z.even_add, He | lia | rewrite Hl1; replace ((i + 2) `div` 2) with (i `div` 2 + 1); [lia |] |].
  { replace (i + 2) with (i + 1 * 2) by lia. rewrite Z.div_add by lia. lia. }
  exists r. split; [done |]. intros s' Hr'. destruct (Hr s' Hr') as [? ?]. split; [done | lia].
Qed.

Lemma session_id_ok arg :
  c_text arg → ∃ r, lsh_string_hex_decode (lenZ arg) arg = Ok r ∧ ∀ s, r = Some s → lsh_string_wf s ∧ ls_length s < 2 ^ 30.
Proof.
  intros Ha. pose proof (c_text_bytes _ Ha) as Hb. destruct Ha as [_ Hl]. pose proof (lenZ_nonneg arg). unfold lsh_string_hex_decode.
  destruct (Z.testbit (lenZ arg) 0); [by exists None |]. pose proof (Z.div_pos (lenZ arg) 2 ltac:(lia) ltac:(lia)).
  pose proof (Z.mul_div_le (lenZ arg) 2 ltac:(lia)).
  assert (lsh_string_wf (lsh_string_alloc (lenZ arg `div` 2))) as Hw by (apply lsh_string_alloc_wf; unfold is_u32; lia).
  destruct (hex_decode_ok (Z.to_nat (lenZ arg `div` 2)) arg 0 _ Hb Hw) as (r & -> & Hr); [lia | done | lia | change (0 `div` 2) with 0; change (ls_length (lsh_string_alloc _)) with (lenZ arg `div` 2); lia |].
  exists r. split; [done |]. intros s Hs. destruct (Hr s Hs) as [? Hls]. split; [done |]. change (ls_length (lsh_string_alloc _)) with (lenZ arg `div` 2) in Hls. lia.
Qed.

(** The command line sets neither the default name of the file nor the
    variable. *)
Record options_ok (o : userauth_object) : Prop := {
  po_object : object_ok o;
  po_default : sv_default_file (uo_super o) = cstr "lshd-userauth.conf";
  po_variable : sv_env_variable (uo_super o) = cstr "LSHD_USERAUTH_CONF";
}.

(** An option and its words; the library calls for the end only at the end. *)
Definition call_ok (c : argp_call) : Prop :=
  match c with
  | MainCall key arg argv => key ≠ ARGP_KEY_END ∧ c_text arg ∧ Forall c_text argv
  | ServerCall key arg | WerrorCall key arg => key ≠ ARGP_KEY_END ∧ c_text arg
  end.

Definition reply_ok (r : argp_reply) : Prop := match r with Parsed o => options_ok o | _ => True end.

Lemma options_ok_services o s :
  options_ok o → services_ok s → c_text (sc_libexec_dir s) → sc_services s ≠ [] → options_ok (set_services s o).
Proof. intros [[] ? ?] Hs Hl Hn. by split; [split |..]. Qed.

Lemma service_argument_ok o s name argv :
  options_ok o → services_ok s → c_text (sc_libexec_dir s) → c_text name → Forall c_text argv →
  returns (service_argument (set_services s o) name argv) reply_ok.
Proof.
  intros Ho Hs0 Hl0 Hn Ha. unfold service_argument. destruct (service_argp_ok s name argv Hs0 Hn Ha) as (r & Hr & Hk).
  change (uo_service_config (set_services s o)) with s. rewrite Hr, bind_ok_l. eexists. split; [done |]. destruct r as [s' rest |]; [| done].
  destruct (Hk s' rest eq_refl) as [(Hs & Hl & _) Hne]. apply (options_ok_services o); [done | done | by rewrite Hl | done].
Qed.

Lemma main_option_ok key arg argv o :
  options_ok o → key ≠ ARGP_KEY_END → c_text arg → Forall c_text argv → returns (main_argp_parser key arg argv o) reply_ok.
Proof.
  intros Ho Hk Ht Ha. unfold main_argp_parser. destruct (key =? ARGP_KEY_INIT); [by eexists |]. destruct (Z.eqb_spec key ARGP_KEY_END); [done |].
  destruct (key =? OPT_SESSION_ID).
  { destruct (session_id_ok arg Ht) as (r & -> & Hr). rewrite bind_ok_l. eexists. split; [done |]. destruct r as [s |]; [| done]. destruct Ho as [[] ? ?].
    by split; [split |..]. }
  destruct (key =? OPT_SERVICE).
  { pose proof (po_object _ Ho) as Hobj. apply service_argument_ok; try done; [exact (oo_services _ Hobj) | exact (oo_libexec _ Hobj)]. }
  destruct (key =? OPT_ADD_SERVICE).
  { pose proof (po_object _ Ho) as Hobj. replace o with (set_services (uo_service_config o) o) by by destruct o.
    apply service_argument_ok; try done; [exact (oo_services _ Hobj) | exact (oo_libexec _ Hobj)]. }
  repeat (destruct (key =? _); [eexists; split; [done |]; destruct Ho as [[] ? ?]; by split; [split |..] |]). by eexists.
Qed.

Lemma options_ok_super o w f e :
  options_ok o →
  options_ok (set_super (mk_server_config w (sv_default_file (uo_super o)) (sv_env_variable (uo_super o)) f e) o).
Proof. intros [[] ? ?]. by split; [split |..]. Qed.

Lemma server_option_ok key arg o : options_ok o → key ≠ ARGP_KEY_END → returns (server_argp_parser key arg o) reply_ok.
Proof.
  intros Ho Hk. unfold server_argp_parser. destruct (key =? ARGP_KEY_INIT); [by eexists |]. destruct (Z.eqb_spec key ARGP_KEY_END); [done |].
  destruct (key =? OPT_CONFIG_FILE); [eexists; split; [done |]; by apply options_ok_super |].
  destruct (key =? OPT_PRINT_EXAMPLE); [by eexists |].
  destruct (key =? OPT_USE_EXAMPLE); [eexists; split; [done |]; by apply options_ok_super |]. by eexists.
Qed.

Lemma formats_argument arg : c_text arg → formats (ssh_format_string "%lz" [FCstr arg]) arg.
Proof.
  intros Ha. pose proof Ha as [_ Hl]. pose proof (lenZ_nonneg arg). eapply formats_spec.
  - unfold spec_format. cbn -[lenZ UINT32_MAX]. unfold UINT32_MAX. rewrite (proj2 (Z.ltb_ge _ (lenZ arg))) by lia. reflexivity.
  - cbn -[lenZ slice]. by rewrite slice_all, app_nil_r.
  - apply Forall_cons. split; [by apply c_text_bytes | constructor].
  - lia.
Qed.

Lemma werror_option_ok key arg o : options_ok o → c_text arg → returns (werror_argp_parser key arg o) reply_ok.
Proof.
  intros Ho Ha. assert (∀ w, options_ok (set_werror w o)) as Hw by (intros w; by apply options_ok_super).
  unfold werror_argp_parser. destruct (key =? ARGP_KEY_END); [by eexists |].
  do 4 (destruct (key =? _); [eexists; split; [done |]; apply Hw |]). destruct (key =? WERROR_LOGFILE); [| by eexists].
  destruct (wc_logfile _); [by eexists |]. destruct (formats_argument arg Ha) as (s & -> & _). rewrite bind_ok_l. eexists. split; [done |]. apply Hw.
Qed.

Lemma dispatch_ok c o : call_ok c → options_ok o → returns (argp_dispatch c o) reply_ok.
Proof.
  destruct c as [key arg argv | key arg | key arg]; simpl; intros Hc Ho.
  - destruct Hc as (Hk & Ha & Hv). by apply main_option_ok.
  - destruct Hc as [Hk _]. by apply server_option_ok.
  - destruct Hc as [_ Ha]. by apply werror_option_ok.
Qed.

Lemma calls_ok calls : ∀ o, Forall call_ok calls → options_ok o →
  ∃ r, argp_calls calls o = Ok r ∧ ∀ o', r = Some o' → options_ok o'.
Proof.
  induction calls as [| c calls IH]; intros o Hc Ho; cbn [argp_calls]; [exists (Some o); split; [done |]; by intros o' [= <-] |].
  apply Forall_cons in Hc as [Hc Hcs]. destruct (dispatch_ok c o Hc Ho) as (r & -> & Hr). rewrite bind_ok_l. destruct r as [o1 | |]; [| by exists None..].
  by apply IH.
Qed.

Lemma calls_app calls more : ∀ o,
  argp_calls (calls ++ more) o = (r ← argp_calls calls o; match r with Some o => argp_calls more o | None => Ok None end).
Proof.
  induction calls as [| c calls IH]; intros o; cbn [app argp_calls]; [done |]. destruct (argp_dispatch c o) as [r |]; [| done]. rewrite !bind_ok_l.
  destruct r; [apply IH | done | done].
Qed.

Lemma make_config_ok o : make_lshd_userauth_config = Some o → options_ok o.
Proof.
  unfold make_lshd_userauth_config. destruct make_service_config as [s |] eqn:Hs; [| done]. intros [= <-].
  assert (s = mk_service_config [] (sc_libexec_dir s) false ∧ c_text (sc_libexec_dir s)) as [-> Hl].
  { unfold make_service_config in Hs. destruct (env_value _) as [dir |] eqn:Hd.
    - case_bool_decide; [| done]. injection Hs as <-. split; [done |]. by eapply env_value_text.
    - injection Hs as <-. split; [done |]. apply LIBEXECDIR_text. }
  split; [| done | done]. split; simpl; try done. constructor.
Qed.

(** ** The end *)

Definition file_read (c : userauth_object) (r : result argp_reply) : Prop :=
  (∃ reply, r = Ok reply ∧ ∀ o, reply = Parsed o → from_file c o ∧ flags_set o) ∨ (file_named c ∧ r = Fault NullPointer).

Lemma server_end_ok c : options_ok c → file_read c (server_argp_parser ARGP_KEY_END [] c).
Proof.
  intros [Hobj Hd Hv]. unfold server_argp_parser. change (ARGP_KEY_END =? ARGP_KEY_INIT) with false. change (ARGP_KEY_END =? ARGP_KEY_END) with true. cbv iota zeta.
  destruct (bool_decide _ && _); [left; by eexists |].
  assert (read_ok c (if sv_use_example (uo_super c) then server_config_parse_example lshd_userauth_config_parser (Some ()) c
    else server_parse_config_file (sv_config_file (uo_super c)) (sv_default_file (uo_super c)) (sv_env_variable (uo_super c)) lshd_userauth_config_parser c)) as Hread.
  { destruct (sv_use_example _).
    - left. destruct (server_config_parse_example_ok (from_file c) the_object lshd_userauth_config_parser (Some ()) c) as (o & err & -> & Ho & He);
        [apply userauth_parsers_ok | done | by apply from_file_start |]. exists o, err. split; [done |]. split; [done |]. intros Herr. by apply (ended_flags c), He.
    - apply parse_file_ok; [done |]. rewrite Hd. split; [apply (bool_decide_unpack _); by vm_compute | by vm_compute]. }
  destruct Hread as [(o & err & -> & Ho & He) | [Hn ->]]; [left | by right]. rewrite bind_ok_l.
  destruct (Z.eqb_spec err 0) as [-> | Hne]; cbn [negb]; [| by eexists]. destruct (werror_init _ _).2; [| by eexists].
  eexists. split; [done |]. intros o' [= <-]. split; [done | by apply He].
Qed.

Lemma default_service_ok c o :
  from_file c o → flags_set o →
  ∃ o', default_service o = Ok o' ∧ from_file c o' ∧ flags_set o' ∧ uo_session_id o' = uo_session_id o.
Proof.
  intros Ho Hf. unfold default_service. destruct (sc_services (uo_service_config o)) as [| e0 l] eqn:Hs; [| by exists o].
  set (args := default_args _). assert (Forall c_text args ∧ args ≠ []) as [Ht Hne].
  { split; [| done]. unfold args, default_args. repeat (apply Forall_app; split);
      repeat match goal with |- context [if ?b then _ else _] => destruct b end;
      repeat (apply Forall_cons; split; [split; [apply (bool_decide_unpack _); by vm_compute | by vm_compute] |]); constructor. }
  destruct (push_all_ok args (make_service_entry (cstr "ssh-connection")) (cstr "ssh-connection") []) as (e & -> & He).
  { split; [done | done | apply (bool_decide_unpack _); by vm_compute | apply arglist_init_holds]. }
  rewrite bind_ok_l. pose proof (ah_argc _ _ (eh_args _ _ _ He)) as Hargc. rewrite c_assert_true, bind_ok_l.
  2: { rewrite Hargc. destruct args as [| a args']; [done |]. cbn [app]. rewrite lenZ_cons. pose proof (lenZ_nonneg args'). lia. }
  eexists. split; [done |]. split; [| done]. apply from_file_services; [done | |].
  - apply grow_add; [apply Ho |]. by exists (cstr "ssh-connection"), args.
  - intros Hov. by destruct (oo_override _ (ff_ok _ _ Ho) Hov).
Qed.

(** What the program goes on with. *)
Record configured (c o : userauth_object) (session_id : lsh_string) : Prop := {
  cd_session : uo_session_id c = Some session_id;
  cd_file : from_file c o;
  cd_flags : flags_set o;
  cd_method : uo_allow_password o = 1 ∨ uo_allow_publickey o = 1;
}.

Lemma main_end_ok c o :
  from_file c o → flags_set o →
  ∃ r, main_argp_parser ARGP_KEY_END [] [] o = Ok r ∧ ∀ o', r = Parsed o' → ∃ s, uo_session_id o' = Some s ∧ configured c o' s.
Proof.
  intros Ho Hf. unfold main_argp_parser. change (ARGP_KEY_END =? ARGP_KEY_INIT) with false. change (ARGP_KEY_END =? ARGP_KEY_END) with true. cbv iota.
  unfold end_of_options. destruct (uo_session_id o) as [s |] eqn:Hs; [| by exists Ends].
  destruct (default_service_ok c o Ho Hf) as (o1 & -> & Ho1 & (Hf1 & Hf2 & Hf3) & Hs1). rewrite bind_ok_l.
  do 3 (rewrite c_assert_true, bind_ok_l by lia). pose proof (oo_password _ (ff_ok _ _ Ho1)). pose proof (oo_publickey _ (ff_ok _ _ Ho1)).
  destruct (c_true (uo_allow_password o1) || c_true (uo_allow_publickey o1)) eqn:Hm; cbn [negb]; [| by exists Ends].
  eexists. split; [done |]. intros o' [= <-]. exists s. split; [congruence |]. split; [rewrite <- (ff_session _ _ Ho1); congruence | done | done |].
  unfold c_true in Hm. lia.
Qed.

(** The rest of the program can work with it. *)
Lemma configured_setup c o s : configured c o s → setup_ok (config_of o s).
Proof.
  intros [Hs Ho _ _]. pose proof (ff_ok _ _ Ho) as Hobj. split; [| split].
  - unfold config_ok. simpl. apply (oo_session _ Hobj). by rewrite (ff_session _ _ Ho).
  - exact (oo_libexec _ Hobj).
  - exact (oo_services _ Hobj).
Qed.


(** ** A message about a named file *)

Definition option_names : list (list Z) := co_name <$> lshd_userauth_config_options ++ werror_config_options.

Lemma find_option_none t w options :
  at_token t (Word w) → w ∉ co_name <$> options → find_option t options = Ok None.
Proof.
  intros Hat. induction options as [| o options IH]; intros Hw; cbn [find_option]; [done |]. rewrite fmap_cons in Hw. apply not_elem_of_cons in Hw as [Hne Hw].
  rewrite (looking_at_word _ _ _ Hat), bind_ok_l, bool_decide_false by done. by apply IH.
Qed.

Lemma userauth_groups c :
  ∃ g1 g2, parser_init lshd_userauth_config_parser (Some ()) c = Ok ([g1; g2], set_werror (sv_werror (uo_super c)) c, 0)
    ∧ cp_options (gr_parser g1) = lshd_userauth_config_options ∧ cp_options (gr_parser g2) = werror_config_options.
Proof. eexists _, _. split; [cbn; reflexivity | done]. Qed.

Lemma unknown_word_null_pointer c text w r :
  Forall is_byte text → lenZ text < 2 ^ 28 → lexes text (Word w) r → w ∉ option_names →
  server_config_parse_string lshd_userauth_config_parser None (lenZ text) text (Some ()) c = Fault NullPointer.
Proof.
  intros Hb Hl Hlex Hw. unfold server_config_parse_string. destruct (userauth_groups c) as (g1 & g2 & -> & Ho1 & Ho2). rewrite bind_ok_l. cbn [negb Z.eqb].
  unfold option_names in Hw. rewrite fmap_app in Hw. apply not_elem_of_app in Hw as [Hw1 Hw2].
  set (t := config_tokenizer_init None (lenZ text) text). destruct (init_wf text Hb ltac:(lia)) as [Hbuf Hrem].
  assert (parse_options (loop_fuel t) [g1; g2] (set_werror (sv_werror (uo_super c)) c) t = Fault NullPointer) as ->; [| done].
  destruct (config_tokenizer_next_spec t Hbuf) as (t' & tok & Hn & _ & Hlex' & Hat).
  change (remaining (ct_buffer t)) with (remaining (simple_buffer_init (lenZ text) text)) in Hlex'. rewrite Hrem in Hlex'.
  destruct (lexes_unique _ _ _ _ _ Hlex Hlex') as [<- _].
  pose proof (same_file config_tokenizer_next _ _ _ (λ f, config_tokenizer_next_file f t) Hn) as Hf.
  assert (parser_parse_option [g1; g2] (set_werror (sv_werror (uo_super c)) c) t' = Fault NullPointer) as Hopt.
  { unfold parser_parse_option. cbn [find_group]. rewrite Ho1, (find_option_none _ _ _ Hat Hw1), bind_ok_l, Ho2, (find_option_none _ _ _ Hat Hw2).
    rewrite !bind_ok_l. unfold werror_at. by rewrite Hf. }
  destruct (loop_fuel t); cbn [parse_options]; rewrite Hn, bind_ok_l; cbn [token_type]; by rewrite Hopt.
Qed.

(** C40: a configuration file that is named by --config-file and starts with a
    word that is no option makes the program use a null pointer: the name for
    messages is the one made for the default file, and there is none. *)
Theorem named_file_null_pointer calls start c name text w r :
  make_lshd_userauth_config = Some start → argp_calls calls start = Ok (Some c) →
  sv_use_example (uo_super c) = false → sv_config_file (uo_super c) = Some name → file_text name = inr text →
  lexes text (Word w) r → w ∉ option_names →
  userauth_setup calls = Fault NullPointer.
Proof.
  intros Hstart Hcalls Hex Hname Htext Hlex Hw. destruct (file_text_bytes _ _ Htext) as [Hb Hl]. unfold userauth_setup. rewrite Hstart, calls_app, Hcalls, bind_ok_l.
  unfold end_calls. cbn [argp_calls argp_dispatch]. change (werror_argp_parser ARGP_KEY_END [] c) with (Ok (Parsed c)). rewrite bind_ok_l.
  unfold server_argp_parser. change (ARGP_KEY_END =? ARGP_KEY_INIT) with false. change (ARGP_KEY_END =? ARGP_KEY_END) with true. cbv iota zeta.
  rewrite Hex, Hname, andb_false_r. unfold server_parse_config_file. rewrite !bind_ok_l. cbn [deref]. rewrite bind_ok_l, Htext.
  change (cstring_of None) with (@None (list Z)). by rewrite (unknown_word_null_pointer c text w r).
Qed.

End config.
