(* ===== verification/UserAuthConfigExample.v ===== *)
(** * A configuration

    A host with a configuration file for [lshd-userauth]: the hypotheses of the
    theorem on the configuration hold, the command line wins over the file, and
    a spelling mistake in a file that was named on the command line is a null
    pointer. *)

From S2P Require Import Prelude Ssh Nettle Atoms LshString Format FormatSpec Wire Parse ParseSpec StringUtil Sys SshRead ServiceRead Hash Crypto DhExchange Charset Service UserAuth UserAuthSpec UserAuthGrant UserAuthRun Tokenize ServerConfig ServerConfigSpec ServerConfigSafe ServerConfigName UserAuthConfig UserAuthConfigSafe.
Local Open Scope Z_scope.

Definition config_text : list Z :=
  cstr "# services" ++ [10]
  ++ cstr "service ssh-connection = { lshd-connection --helper-fd $(helper_fd) }" ++ [10]
  ++ cstr "allow-password = no" ++ [10]
  ++ cstr "allow-publickey = yes # keys" ++ [10].

#[local] Instance house_files : Files := {
  env_value _ := None;
  file_text n :=
    if bool_decide (n = cstr "/etc/lshd/lshd-userauth.conf") then inr config_text
    else if bool_decide (n = cstr "broken.conf") then inr (cstr "alow-password = yes")
    else inl 2;
  log_opens _ := true;
  LIBEXECDIR := cstr "/usr/libexec";
  FILE_LSHD_CONFIG_DIR := cstr "/etc/lshd";
}.

Ltac plain_text := split; [apply (bool_decide_unpack _); by vm_compute | by vm_compute].

#[local] Instance house_files_ok : FilesOk.
Proof.
  split; simpl; try done; try plain_text.
  - intros n d. case_bool_decide; [intros [= <-]; split; [apply (bool_decide_unpack _); by vm_compute | by vm_compute] |].
    case_bool_decide; [| done]. intros [= <-]. split; [apply (bool_decide_unpack _); by vm_compute | by vm_compute].
  - intros n e. case_bool_decide; [done |]. case_bool_decide; [done |]. by intros [= <-].
Qed.

(** [lshd-userauth --session-id 0a0b --allow-password] *)
Definition plain_options : list argp_call := [MainCall OPT_SESSION_ID (cstr "0a0b") []; MainCall OPT_PASSWORD [] []].

Example plain_options_run :
  ∃ o s, userauth_setup plain_options = Ok (Some o) ∧ uo_session_id o = Some s ∧ contents s = [10; 11]
    ∧ uo_allow_password o = 1 ∧ uo_allow_publickey o = 1 ∧ uo_allow_root_login o = 0
    ∧ (se_name <$> sc_services (uo_service_config o)) = [cstr "ssh-connection"].
Proof. eexists _, _. split; [vm_compute; reflexivity |]. by vm_compute. Qed.


(** [lshd-userauth --session-id 0a0b --config-file broken.conf], with a spelling
    mistake in the file. *)
Definition broken_options : list argp_call :=
  [MainCall OPT_SESSION_ID (cstr "0a0b") []; ServerCall OPT_CONFIG_FILE (cstr "broken.conf")].

Lemma named_file_null_pointer_witness : userauth_setup broken_options = Fault NullPointer.
Proof.
  eapply (named_file_null_pointer broken_options _ _ (cstr "broken.conf") (cstr "alow-password = yes") (cstr "alow-password") (cstr " = yes")).
  - reflexivity.
  - vm_compute. reflexivity.
  - reflexivity.
  - reflexivity.
  - reflexivity.
  - apply (lex_word 97 (cstr "low-password") (cstr " = yes")); [done | | by vm_compute].
    repeat (apply Forall_cons; split; [by vm_compute |]). constructor.
  - apply (bool_decide_unpack _). vm_compute. exact I.
Defined.
