(* ===== verification/Connection.v ===== *)
(** * Channel numbers of a connection ([src/src/connection.c])

    A connection keeps two parallel arrays indexed by the local channel
    number: the allocation state of the number and the channel object.
    Numbers are handed out the way Unix hands out file descriptors, the
    smallest free one first; [next_channel] is a hint below which nothing is
    free.  The arrays are reallocated to twice their size when they are full
    and are initialised only as far as [used_channels]. *)

From S2P Require Import Prelude.
Local Open Scope Z_scope.

Inductive channel_alloc_state : Set :=
  | CHANNEL_FREE
  | CHANNEL_ALLOC_SENT_OPEN
  | CHANNEL_ALLOC_RECEIVED_OPEN
  | CHANNEL_ALLOC_ACTIVE.

#[global] Instance channel_alloc_state_eq_dec : EqDecision channel_alloc_state.
Proof. solve_decision. Defined.

(** The address of an object that the garbage collector manages; a null
    pointer is [None]. *)
Definition ptr : Type := nat.

(** An array of [lsh_space_alloc]: a cell that was never written is [None]. *)
Abbreviation array A := (list (option A)) (only parsing).

Definition cell {A} (a : array A) (i : Z) : result A :=
  o ← rd a i;
  match o with
  | Some x => Ok x
  | None => Fault Uninitialised
  end.

Definition set_cell {A} (a : array A) (i : Z) (x : A) : result (array A) :=
  if (i <? 0) || (lenZ a <=? i) then Fault OutOfBounds
  else Ok (<[Z.to_nat i := Some x]> a).

Definition space_alloc {A} (n : Z) : array A := replicate (Z.to_nat n) None.

(** [lsh_space_realloc] to a larger size. *)
Definition space_realloc {A} (a : array A) (n : Z) : array A :=
  a ++ replicate (Z.to_nat n - length a) None.

(** [resource_list]: the flag [alive] and the resources remembered. *)
Record resource_list := mk_resources {
  rl_alive : bool;
  rl_q : list ptr;
}.

Record ssh_connection := mk_connection {
  cn_alive : bool;
  cn_resources : resource_list;
  cn_channels : array (option ptr);
  cn_alloc_state : array channel_alloc_state;
  cn_allocated_channels : Z;
  cn_used_channels : Z;
  cn_next_channel : Z;
  cn_channel_count : Z;
  cn_max_channels : Z;
  cn_pending_close : bool;
  (** Handlers by atom. *)
  cn_global_requests : gmap Z ptr;
  cn_channel_types : gmap Z ptr;
  cn_open_fallback : option ptr;
  cn_forwarded_ports : list ptr;
  cn_pending_global_requests : list ptr;
}.

Definition INITIAL_CHANNELS : Z := 32.
Definition MAX_CHANNELS : Z := 2 ^ 17.

(** ** Operations *)

Definition init_ssh_connection : ssh_connection :=
  {| cn_alive := true;
     cn_resources := mk_resources true [];
     cn_channels := space_alloc INITIAL_CHANNELS;
     cn_alloc_state := space_alloc INITIAL_CHANNELS;
     cn_allocated_channels := INITIAL_CHANNELS;
     cn_used_channels := 0;
     cn_next_channel := 0;
     cn_channel_count := 0;
     cn_max_channels := MAX_CHANNELS;
     cn_pending_close := false;
     cn_global_requests := ∅;
     cn_channel_types := ∅;
     cn_open_fallback := None;
     cn_forwarded_ports := [];
     cn_pending_global_requests := [] |}.

(** The fields the table operations change. *)
Definition with_table (c : ssh_connection) (channels : array (option ptr))
  (alloc_state : array channel_alloc_state) (allocated used next count : Z) : ssh_connection :=
  mk_connection (cn_alive c) (cn_resources c) channels alloc_state allocated used next count
    (cn_max_channels c) (cn_pending_close c) (cn_global_requests c) (cn_channel_types c)
    (cn_open_fallback c) (cn_forwarded_ports c) (cn_pending_global_requests c).

(** [for (i = next_channel; i < used_channels; i++)]: the first free entry,
    or the index at which the loop ends. *)
Fixpoint scan_free (fuel : nat) (alloc_state : array channel_alloc_state) (i used : Z)
  : result (Z * bool) :=
  match fuel with
  | O => Ok (i, false)
  | S fuel =>
      if i <? used then
        s ← cell alloc_state i;
        if bool_decide (s = CHANNEL_FREE) then Ok (i, true)
        else scan_free fuel alloc_state (i + 1) used
      else Ok (i, false)
  end.

(** The label [success]. *)
Definition alloc_success (c : ssh_connection) (type : channel_alloc_state) (i : Z)
  : result (ssh_connection * Z) :=
  alloc_state ← set_cell (cn_alloc_state c) i type;
  Ok (with_table c (cn_channels c) alloc_state (cn_allocated_channels c) (cn_used_channels c)
        (cn_next_channel c) (u32 (cn_channel_count c + 1)), i).

(** Doubling of the arrays. *)
Definition alloc_grow (c : ssh_connection) : ssh_connection :=
  let new_size := u32 (cn_allocated_channels c * 2) in
  with_table c (space_realloc (cn_channels c) new_size) (space_realloc (cn_alloc_state c) new_size)
    new_size (cn_used_channels c) (cn_next_channel c) (cn_channel_count c).

(** Minus one when all numbers are taken. *)
Definition ssh_connection_alloc_channel (c : ssh_connection) (type : channel_alloc_state)
  : result (ssh_connection * Z) :=
  _ ← c_assert (bool_decide (type = CHANNEL_ALLOC_SENT_OPEN)
                || bool_decide (type = CHANNEL_ALLOC_RECEIVED_OPEN));
  '(i, found) ← scan_free (Z.to_nat (cn_used_channels c - cn_next_channel c))
                  (cn_alloc_state c) (cn_next_channel c) (cn_used_channels c);
  if (found : bool) then
    ch ← cell (cn_channels c) i;
    _ ← c_assert (bool_decide (ch = None));
    alloc_success
      (with_table c (cn_channels c) (cn_alloc_state c) (cn_allocated_channels c)
         (cn_used_channels c) (u32 (i + 1)) (cn_channel_count c)) type i
  else if i =? cn_max_channels c then Ok (c, -1)
  else
    let c := if i =? cn_allocated_channels c then alloc_grow c else c in
    channels ← set_cell (cn_channels c) i None;
    alloc_success
      (with_table c channels (cn_alloc_state c) (cn_allocated_channels c)
         (u32 (i + 1)) (u32 (i + 1)) (cn_channel_count c)) type i.

Definition ssh_connection_dealloc_channel (c : ssh_connection) (i : Z) : result ssh_connection :=
  _ ← c_assert (i <? cn_used_channels c);
  _ ← c_assert (c_true (cn_channel_count c));
  s ← cell (cn_alloc_state c) i;
  _ ← c_assert (bool_decide (s ≠ CHANNEL_FREE));
  channels ← set_cell (cn_channels c) i None;
  alloc_state ← set_cell (cn_alloc_state c) i CHANNEL_FREE;
  Ok (with_table c channels alloc_state (cn_allocated_channels c) (cn_used_channels c)
        (if i <? cn_next_channel c then i else cn_next_channel c) (u32 (cn_channel_count c - 1))).

Definition ssh_connection_activate_channel (c : ssh_connection) (i : Z) : result ssh_connection :=
  _ ← c_assert (i <? cn_used_channels c);
  s ← cell (cn_alloc_state c) i;
  _ ← c_assert (bool_decide (s ≠ CHANNEL_FREE));
  ch ← cell (cn_channels c) i;
  _ ← c_assert (bool_decide (ch ≠ None));
  alloc_state ← set_cell (cn_alloc_state c) i CHANNEL_ALLOC_ACTIVE;
  Ok (with_table c (cn_channels c) alloc_state (cn_allocated_channels c) (cn_used_channels c)
        (cn_next_channel c) (cn_channel_count c)).

Definition ssh_connection_lookup_channel (c : ssh_connection) (i : Z) (flag : channel_alloc_state)
  : result (option ptr) :=
  _ ← c_assert (bool_decide (flag ≠ CHANNEL_FREE));
  if i <? cn_used_channels c then
    s ← cell (cn_alloc_state c) i;
    if bool_decide (s = flag) then
      ch ← cell (cn_channels c) i;
      _ ← c_assert (bool_decide (ch ≠ None));
      Ok ch
    else Ok None
  else Ok None.

(** The part of [ssh_connection_register_channel] that stores the channel in
    the table. *)
Definition register_slot (c : ssh_connection) (i : Z) (channel : ptr) : result ssh_connection :=
  _ ← c_assert (i <? cn_used_channels c);
  s ← cell (cn_alloc_state c) i;
  _ ← c_assert (bool_decide (s ≠ CHANNEL_FREE));
  ch ← cell (cn_channels c) i;
  _ ← c_assert (bool_decide (ch = None));
  channels ← set_cell (cn_channels c) i (Some channel);
  Ok (with_table c channels (cn_alloc_state c) (cn_allocated_channels c) (cn_used_channels c)
        (cn_next_channel c) (cn_channel_count c)).

(** ** Arrays initialised up to a point *)

(** The initialised part of an array. *)
Definition holds {A} (a : array A) (l : list A) : Prop := ∃ junk, a = (Some <$> l) ++ junk.

Lemma holds_length {A} (a : array A) l : holds a l → lenZ l <= lenZ a.
Proof. intros [junk ->]. len_lia. Qed.

Lemma holds_cell {A} (a : array A) l i x :
  holds a l → 0 <= i → l !! Z.to_nat i = Some x → cell a i = Ok x.
Proof.
  intros [junk ->] Hi Hx. unfold cell.
  rewrite (proj2 (rd_lookup _ i (Some x))); [done |]. split; [done |].
  by rewrite lookup_app_l, list_lookup_fmap, Hx by (rewrite length_fmap; eauto using lookup_lt_Some).
Qed.

Lemma holds_set {A} (a : array A) l i x :
  holds a l → 0 <= i < lenZ l →
  ∃ a', set_cell a i x = Ok a' ∧ holds a' (<[Z.to_nat i := x]> l) ∧ lenZ a' = lenZ a.
Proof.
  intros Ha Hi. pose proof (holds_length a l Ha). destruct Ha as [junk ->]. unfold set_cell.
  rewrite (proj2 (Z.ltb_ge _ _)) by lia. rewrite (proj2 (Z.leb_gt _ _)) by lia. simpl.
  eexists. split; [done |]. unfold lenZ in *. rewrite length_insert. split; [| done].
  exists junk. by rewrite insert_app_l, list_fmap_insert by (rewrite length_fmap; lia).
Qed.

(** Writing the first cell that is not initialised. *)
Lemma holds_push {A} (a : array A) l x :
  holds a l → lenZ l < lenZ a →
  ∃ a', set_cell a (lenZ l) x = Ok a' ∧ holds a' (l ++ [x]) ∧ lenZ a' = lenZ a.
Proof.
  intros [junk ->] Hi. unfold set_cell. pose proof (lenZ_nonneg l).
  rewrite (proj2 (Z.ltb_ge _ _)) by lia. rewrite (proj2 (Z.leb_gt _ _)) by lia. simpl.
  eexists. split; [done |]. unfold lenZ in *. rewrite length_insert. split; [| done].
  rewrite length_app, length_fmap in Hi. destruct junk as [| y junk]; [simpl in Hi; lia |].
  exists junk. rewrite Nat2Z.id, insert_app_r_alt, length_fmap by (rewrite length_fmap; lia).
  by rewrite Nat.sub_diag, fmap_app, <- app_assoc.
Qed.

Lemma holds_realloc {A} (a : array A) l n : holds a l → holds (space_realloc a n) l.
Proof. intros [junk ->]. eexists. unfold space_realloc. by rewrite <- app_assoc. Qed.

Lemma lenZ_realloc {A} (a : array A) n : lenZ a <= n → lenZ (space_realloc a n) = n.
Proof. unfold space_realloc, lenZ. rewrite length_app, length_replicate. lia. Qed.

(** ** Invariant of the table *)

(** The number of entries in use. *)
Fixpoint busy (st : list channel_alloc_state) : Z :=
  match st with
  | [] => 0
  | CHANNEL_FREE :: st => busy st
  | _ :: st => 1 + busy st
  end.

Definition busy1 (s : channel_alloc_state) : Z := busy [s].

Lemma busy_cons s st : busy (s :: st) = busy1 s + busy st.
Proof. by destruct s. Qed.

Lemma busy_app st st' : busy (st ++ st') = busy st + busy st'.
Proof. induction st as [| s st IH]; [done |]. rewrite <- app_comm_cons, !busy_cons, IH. lia. Qed.

Lemma busy1_range s : 0 <= busy1 s <= 1 ∧ (s ≠ CHANNEL_FREE ↔ busy1 s = 1).
Proof. unfold busy1. destruct s; cbn [busy]; (split; [lia |]); split; try done; by intros []. Qed.

Lemma busy_range st : 0 <= busy st <= lenZ st.
Proof.
  induction st as [| s st IH]; [done |]. rewrite busy_cons, lenZ_cons. pose proof (busy1_range s). lia.
Qed.

Lemma busy_insert st i s s' :
  st !! i = Some s → busy (<[i := s']> st) = busy st - busy1 s + busy1 s'.
Proof.
  intros Hi. rewrite <- (take_drop_middle st i s Hi) at 2. rewrite insert_take_drop by eauto using lookup_lt_Some.
  rewrite !busy_app, !busy_cons. lia.
Qed.

Lemma busy_pos st i s : st !! i = Some s → s ≠ CHANNEL_FREE → 1 <= busy st.
Proof.
  intros Hi Hs. rewrite <- (take_drop_middle st i s Hi), busy_app, busy_cons.
  pose proof (busy_range (take i st)). pose proof (busy_range (drop (S i) st)).
  apply busy1_range in Hs. lia.
Qed.

(** The arrays agree with the lists [st] and [ch] of states and channels,
    [next_channel] is a lower bound of the free numbers, [channel_count] is
    exact, a free number has no channel, and the arrays have room. *)
Record table_wf (c : ssh_connection) (st : list channel_alloc_state) (ch : list (option ptr)) : Prop := {
  tw_states : holds (cn_alloc_state c) st;
  tw_channels : holds (cn_channels c) ch;
  tw_used : lenZ st = cn_used_channels c;
  tw_used' : lenZ ch = cn_used_channels c;
  tw_size : lenZ (cn_alloc_state c) = cn_allocated_channels c;
  tw_size' : lenZ (cn_channels c) = cn_allocated_channels c;
  tw_power : ∃ k, cn_allocated_channels c = INITIAL_CHANNELS * 2 ^ k ∧ 0 <= k <= 12;
  tw_max : cn_max_channels c = MAX_CHANNELS;
  tw_next : 0 <= cn_next_channel c <= cn_used_channels c;
  tw_below i s : (i < Z.to_nat (cn_next_channel c))%nat → st !! i = Some s → s ≠ CHANNEL_FREE;
  tw_count : cn_channel_count c = busy st;
  tw_free i : st !! i = Some CHANNEL_FREE → ch !! i = Some None;
}.

Lemma init_ssh_connection_wf : table_wf init_ssh_connection [] [].
Proof. split; try done; [by eexists.. |]. by exists 0. Qed.

Lemma table_bounds c st ch :
  table_wf c st ch →
  cn_used_channels c <= cn_allocated_channels c ∧ 32 <= cn_allocated_channels c <= MAX_CHANNELS.
Proof.
  intros Hw. pose proof (holds_length _ _ (tw_states _ _ _ Hw)) as Hl. destruct (tw_power _ _ _ Hw) as (k & Hk & Hr).
  rewrite (tw_used _ _ _ Hw), (tw_size _ _ _ Hw) in Hl. split; [done |].
  unfold INITIAL_CHANNELS, MAX_CHANNELS in *. rewrite Hk.
  pose proof (Z.pow_le_mono_r 2 0 k). pose proof (Z.pow_le_mono_r 2 k 12). lia.
Qed.

(** The scan stops at the first free entry, or at the end. *)
Lemma scan_free_spec a st i used :
  holds a st → lenZ st = used → 0 <= i <= used →
  ∃ j found, scan_free (Z.to_nat (used - i)) a i used = Ok (j, found) ∧ i <= j
    ∧ (∀ n s, (Z.to_nat i <= n < Z.to_nat j)%nat → st !! n = Some s → s ≠ CHANNEL_FREE)
    ∧ (if found then st !! Z.to_nat j = Some CHANNEL_FREE else j = used).
Proof.
  intros Ha Hl Hi. remember (Z.to_nat (used - i)) as fuel eqn:Hf. revert i Hi Hf.
  induction fuel as [| fuel IH]; intros i Hi Hf; cbn [scan_free].
  - exists i, false. split_and!; [done | lia | intros; lia | lia].
  - rewrite (proj2 (Z.ltb_lt _ _)) by lia. unfold lenZ in Hl.
    destruct (lookup_lt_is_Some_2 st (Z.to_nat i)) as [s Hs]; [lia |].
    rewrite (holds_cell a st i s Ha) by (done || lia). rewrite bind_ok_l. case_bool_decide as Hfree.
    + exists i, true. subst s. split_and!; [done | lia | intros; lia | done].
    + destruct (IH (i + 1)) as (j & found & -> & Hij & Hb & Hfound); [lia.. |].
      exists j, found. split_and!; [done | lia | | done]. intros n s' Hn Hs'.
      destruct (decide (n = Z.to_nat i)) as [-> |]; [congruence |]. apply (Hb n); [lia | done].
Qed.

(** ** Specifications of the operations *)

(** Storing a state in an initialised cell. *)
Lemma set_state_wf c st ch i s s' :
  table_wf c st ch → 0 <= i → st !! Z.to_nat i = Some s →
  ∃ a, set_cell (cn_alloc_state c) i s' = Ok a ∧ holds a (<[Z.to_nat i := s']> st)
       ∧ lenZ a = lenZ (cn_alloc_state c).
Proof.
  intros Hw Hi Hs. apply holds_set; [apply Hw |]. apply lookup_lt_Some in Hs. unfold lenZ. lia.
Qed.

Lemma set_channel_wf c st ch i o x :
  table_wf c st ch → 0 <= i → ch !! Z.to_nat i = Some o →
  ∃ a, set_cell (cn_channels c) i x = Ok a ∧ holds a (<[Z.to_nat i := x]> ch)
       ∧ lenZ a = lenZ (cn_channels c).
Proof.
  intros Hw Hi Hs. apply holds_set; [apply Hw |]. apply lookup_lt_Some in Hs. unfold lenZ. lia.
Qed.

(** Both arrays have an entry for every number in use. *)
Lemma table_entry c st ch i :
  table_wf c st ch → 0 <= i < cn_used_channels c →
  ∃ s o, st !! Z.to_nat i = Some s ∧ ch !! Z.to_nat i = Some o
    ∧ cell (cn_alloc_state c) i = Ok s ∧ cell (cn_channels c) i = Ok o.
Proof.
  intros Hw Hi. pose proof (tw_used _ _ _ Hw) as Hu. pose proof (tw_used' _ _ _ Hw) as Hu'. unfold lenZ in *.
  destruct (lookup_lt_is_Some_2 st (Z.to_nat i)) as [s Hs]; [lia |].
  destruct (lookup_lt_is_Some_2 ch (Z.to_nat i)) as [o Ho]; [lia |].
  exists s, o. split_and!; [done | done | |].
  - apply (holds_cell _ st); [apply Hw | lia | done].
  - apply (holds_cell _ ch); [apply Hw | lia | done].
Qed.

(** The arrays doubled when they are full. *)
Lemma alloc_grow_wf c st ch :
  table_wf c st ch → cn_used_channels c = cn_allocated_channels c → cn_used_channels c < MAX_CHANNELS →
  table_wf (alloc_grow c) st ch ∧ cn_used_channels (alloc_grow c) < cn_allocated_channels (alloc_grow c).
Proof.
  intros Hw Hu Hm. pose proof (table_bounds _ _ _ Hw) as [_ Hb]. pose proof Hw as [? ? ? ? Hsz Hsz' (k & Hk & Hkr) ? ? ? ? ?].
  assert (u32 (cn_allocated_channels c * 2) = 2 * cn_allocated_channels c) as Hd
    by (rewrite u32_id; unfold is_u32, MAX_CHANNELS in *; lia).
  unfold alloc_grow. rewrite Hd. split; [| simpl; lia].
  split; simpl; try done; try (by apply holds_realloc); try (apply lenZ_realloc; lia).
  exists (k + 1). unfold INITIAL_CHANNELS, MAX_CHANNELS in *. rewrite Z.pow_add_r by lia. split; [lia |].
  split; [lia |]. assert (2 ^ k < 2 ^ 12) as Hp by lia. apply Z.pow_lt_mono_r_iff in Hp; lia.
Qed.

(** A free number below [used_channels] is taken. *)
Lemma alloc_reuse c st ch type i :
  table_wf c st ch → type ≠ CHANNEL_FREE → cn_next_channel c <= i →
  (∀ n s, (Z.to_nat (cn_next_channel c) <= n < Z.to_nat i)%nat → st !! n = Some s → s ≠ CHANNEL_FREE) →
  st !! Z.to_nat i = Some CHANNEL_FREE →
  ∃ c', alloc_success (with_table c (cn_channels c) (cn_alloc_state c) (cn_allocated_channels c)
          (cn_used_channels c) (u32 (i + 1)) (cn_channel_count c)) type i = Ok (c', i)
        ∧ table_wf c' (<[Z.to_nat i := type]> st) ch.
Proof.
  intros Hw Ht Hn Hbelow Hf. pose proof (tw_next _ _ _ Hw) as Hnx.
  pose proof (table_bounds _ _ _ Hw) as [Hb Hb']. pose proof (tw_used _ _ _ Hw) as Hu.
  pose proof (lookup_lt_Some _ _ _ Hf) as Hlt. unfold lenZ in Hu.
  destruct (set_state_wf c st ch i CHANNEL_FREE type) as (a & Ha & Hh & Hl); [done | lia | done |].
  unfold alloc_success. simpl. rewrite Ha, bind_ok_l. eexists. split; [done |].
  assert (u32 (i + 1) = i + 1) as Hi by (apply u32_id; unfold is_u32, MAX_CHANNELS in *; lia).
  pose proof (busy_range st) as Hbr. unfold lenZ in Hbr.
  assert (u32 (busy st + 1) = busy st + 1) as Hc by (apply u32_id; unfold is_u32, MAX_CHANNELS in *; lia).
  destruct Hw as [? ? ? ? ? ? ? ? ? Hbl Hcnt Hfr]. split; simpl; try done.
  - unfold lenZ. rewrite length_insert. lia.
  - lia.
  - rewrite Hi. lia.
  - rewrite Hi. intros n s Hnn Hs. destruct (decide (n = Z.to_nat i)) as [-> | Hne].
    + rewrite list_lookup_insert_eq in Hs by done. congruence.
    + rewrite list_lookup_insert_ne in Hs by done.
      destruct (decide (n < Z.to_nat (cn_next_channel c))%nat); [by apply (Hbl n) |].
      apply (Hbelow n); [lia | done].
  - rewrite Hcnt, Hc. rewrite (busy_insert _ _ _ _ Hf). apply busy1_range in Ht.
    rewrite Ht. unfold busy1. simpl. lia.
  - intros n Hs. apply Hfr. destruct (decide (n = Z.to_nat i)) as [-> | Hne]; [done |].
    by rewrite list_lookup_insert_ne in Hs.
Qed.

(** A new number at the end of the table. *)
Lemma alloc_extend c st ch type :
  table_wf c st ch → type ≠ CHANNEL_FREE → cn_used_channels c < cn_allocated_channels c →
  (∀ n s, st !! n = Some s → s ≠ CHANNEL_FREE) →
  ∃ channels c', set_cell (cn_channels c) (cn_used_channels c) None = Ok channels
    ∧ alloc_success (with_table c channels (cn_alloc_state c) (cn_allocated_channels c)
        (u32 (cn_used_channels c + 1)) (u32 (cn_used_channels c + 1)) (cn_channel_count c))
        type (cn_used_channels c) = Ok (c', cn_used_channels c)
    ∧ table_wf c' (st ++ [type]) (ch ++ [None]).
Proof.
  intros Hw Ht Hroom Hbusy. pose proof (table_bounds _ _ _ Hw) as [Hb Hb'].
  pose proof Hw as [Hst Hch Hu Hu' Hsz Hsz' Hpow Hmax Hnx Hbl Hcnt Hfr].
  destruct (holds_push (cn_channels c) ch None) as (a & Ha & Hh & Hl); [done | lia |].
  destruct (holds_push (cn_alloc_state c) st type) as (b & Hbb & Hhb & Hlb); [done | lia |].
  rewrite Hu' in Ha. rewrite Hu in Hbb. exists a. unfold alloc_success. simpl. rewrite Hbb, bind_ok_l.
  eexists. split; [done |]. split; [done |].
  assert (u32 (cn_used_channels c + 1) = cn_used_channels c + 1) as Hi
    by (apply u32_id; unfold is_u32, MAX_CHANNELS in *; lia).
  pose proof (busy_range st) as Hbr.
  assert (u32 (busy st + 1) = busy st + 1) as Hc by (apply u32_id; unfold is_u32, MAX_CHANNELS in *; lia).
  assert (∀ n s, (st ++ [type]) !! n = Some s → s ≠ CHANNEL_FREE) as Hall.
  { intros n s Hs. apply lookup_snoc_Some in Hs as [[_ Hs] | [_ <-]]; [by apply (Hbusy n) | done]. }
  split; simpl; try done; rewrite ?Hi.
  - rewrite lenZ_app, Hu. done.
  - rewrite lenZ_app, Hu'. done.
  - lia.
  - lia.
  - lia.
  - intros n s _. apply Hall.
  - rewrite Hcnt, Hc, busy_app. apply busy1_range in Ht. unfold busy1 in Ht. lia.
  - intros n Hs. by apply Hall in Hs.
Qed.

(** ** The table as a function of the channel number *)

Definition state_at (st : list channel_alloc_state) (n : nat) : channel_alloc_state :=
  default CHANNEL_FREE (st !! n).
Definition channel_at (ch : list (option ptr)) (n : nat) : option ptr := default None (ch !! n).

(** What the arrays of a connection say of a number. *)
Definition number_state (c : ssh_connection) (n : nat) : channel_alloc_state :=
  if Z.of_nat n <? cn_used_channels c then default CHANNEL_FREE (default None (cn_alloc_state c !! n))
  else CHANNEL_FREE.
Definition number_channel (c : ssh_connection) (n : nat) : option ptr :=
  if Z.of_nat n <? cn_used_channels c then default None (default None (cn_channels c !! n))
  else None.

Definition conn_wf (c : ssh_connection) : Prop := ∃ st ch, table_wf c st ch.

(** Nothing but the table differs. *)
Definition same_but_table (c c' : ssh_connection) : Prop :=
  c' = with_table c (cn_channels c') (cn_alloc_state c') (cn_allocated_channels c')
         (cn_used_channels c') (cn_next_channel c') (cn_channel_count c').

Lemma holds_default {A} (a : array A) l n d :
  holds a l → default d (if Z.of_nat n <? lenZ l then default None (a !! n) else None) = default d (l !! n).
Proof.
  intros [junk ->]. unfold lenZ. case_bool.
  - rewrite lookup_app_l by (rewrite length_fmap; lia). rewrite list_lookup_fmap.
    by destruct (l !! n).
  - by rewrite lookup_ge_None_2 by lia.
Qed.

Lemma number_state_at c st ch n : table_wf c st ch → number_state c n = state_at st n.
Proof.
  intros Hw. unfold state_at. rewrite <- (holds_default (cn_alloc_state c)) by apply Hw.
  rewrite (tw_used _ _ _ Hw). unfold number_state. by case_bool.
Qed.

Lemma number_channel_at c st ch n : table_wf c st ch → number_channel c n = channel_at ch n.
Proof.
  intros Hw. unfold channel_at. rewrite <- (holds_default (cn_channels c)) by apply Hw.
  rewrite (tw_used' _ _ _ Hw). unfold number_channel. by case_bool.
Qed.

Lemma number_busy c n :
  number_state c n ≠ CHANNEL_FREE → 0 <= Z.of_nat n < cn_used_channels c.
Proof. unfold number_state. case_bool; [lia | done]. Qed.

Lemma number_free c n : conn_wf c → number_state c n = CHANNEL_FREE → number_channel c n = None.
Proof.
  intros (st & ch & Hw). rewrite (number_state_at _ _ _ _ Hw), (number_channel_at _ _ _ _ Hw).
  unfold state_at, channel_at. destruct (st !! n) as [s |] eqn:Hs; simpl.
  - intros ->. by rewrite (tw_free _ _ _ Hw n Hs).
  - intros _. rewrite lookup_ge_None_2; [done |]. apply lookup_ge_None in Hs.
    pose proof (tw_used _ _ _ Hw). pose proof (tw_used' _ _ _ Hw). unfold lenZ in *. lia.
Qed.

Lemma number_entry c n :
  conn_wf c → number_state c n ≠ CHANNEL_FREE →
  cell (cn_alloc_state c) (Z.of_nat n) = Ok (number_state c n)
  ∧ cell (cn_channels c) (Z.of_nat n) = Ok (number_channel c n).
Proof.
  intros (st & ch & Hw) Hn. destruct (table_entry c st ch (Z.of_nat n) Hw) as (s & o & Hs & Ho & Hcs & Hco);
    [by apply number_busy |].
  rewrite (number_state_at _ _ _ _ Hw), (number_channel_at _ _ _ _ Hw). unfold state_at, channel_at.
  rewrite Nat2Z.id in Hs, Ho. by rewrite Hs, Ho.
Qed.

Lemma state_at_insert st n s m :
  (n < length st)%nat → state_at (<[n := s]> st) m = if decide (m = n) then s else state_at st m.
Proof.
  intros Hn. unfold state_at. case_decide as Hd.
  - subst m. by rewrite list_lookup_insert_eq.
  - by rewrite list_lookup_insert_ne by done.
Qed.

Lemma channel_at_insert ch n x m :
  (n < length ch)%nat → channel_at (<[n := x]> ch) m = if decide (m = n) then x else channel_at ch m.
Proof.
  intros Hn. unfold channel_at. case_decide as Hd.
  - subst m. by rewrite list_lookup_insert_eq.
  - by rewrite list_lookup_insert_ne by done.
Qed.

Lemma state_at_snoc st s m :
  state_at (st ++ [s]) m = if decide (m = length st) then s else state_at st m.
Proof.
  unfold state_at. case_decide as Hd.
  - subst m. by rewrite lookup_app_r, Nat.sub_diag by lia.
  - destruct (decide (m < length st)%nat).
    + by rewrite lookup_app_l by lia.
    + rewrite !lookup_ge_None_2; [done | lia | rewrite length_app; simpl; lia].
Qed.

Lemma channel_at_snoc ch m : channel_at (ch ++ [None]) m = channel_at ch m.
Proof.
  unfold channel_at. destruct (decide (m < length ch)%nat).
  - by rewrite lookup_app_l by lia.
  - rewrite (lookup_ge_None_2 ch) by lia. rewrite lookup_app_r by lia.
    by destruct (m - length ch)%nat.
Qed.

(** ** Contracts of the operations *)

(** What a successful allocation of [n] does. *)
Record allocated (c c' : ssh_connection) (type : channel_alloc_state) (n : nat) : Prop := {
  al_wf : conn_wf c';
  al_was_free : number_state c n = CHANNEL_FREE;
  al_least m : (m < n)%nat → number_state c m ≠ CHANNEL_FREE;
  al_range : Z.of_nat n < MAX_CHANNELS;
  al_state m : number_state c' m = if decide (m = n) then type else number_state c m;
  al_channel m : number_channel c' m = number_channel c m;
  al_rest : same_but_table c c';
}.

Lemma state_busy c st ch m n :
  table_wf c st ch → (∀ k s, (k < n)%nat → st !! k = Some s → s ≠ CHANNEL_FREE) →
  (n <= length st)%nat → (m < n)%nat → number_state c m ≠ CHANNEL_FREE.
Proof.
  intros Hw Hb Hn Hm. rewrite (number_state_at _ _ _ _ Hw). unfold state_at.
  destruct (lookup_lt_is_Some_2 st m) as [s Hs]; [lia |]. rewrite Hs. by apply (Hb m).
Qed.

Lemma allocated_reuse c st ch c' type i :
  table_wf c st ch → table_wf c' (<[i := type]> st) ch → same_but_table c c' →
  st !! i = Some CHANNEL_FREE → (∀ n s, (n < i)%nat → st !! n = Some s → s ≠ CHANNEL_FREE) →
  allocated c c' type i.
Proof.
  intros Hw Hw' Hsame Hf Hbelow. pose proof (lookup_lt_Some _ _ _ Hf) as Hlt.
  pose proof (table_bounds _ _ _ Hw) as Hb. pose proof (tw_used _ _ _ Hw) as Hu. unfold lenZ in Hu. split.
  - by eexists _, _.
  - rewrite (number_state_at _ _ _ _ Hw). unfold state_at. by rewrite Hf.
  - intros m Hm. apply (state_busy c st ch m i); [done | done | lia | done].
  - lia.
  - intros m. rewrite (number_state_at _ _ _ _ Hw'), (number_state_at _ _ _ _ Hw). by apply state_at_insert.
  - intros m. by rewrite (number_channel_at _ _ _ _ Hw'), (number_channel_at _ _ _ _ Hw).
  - done.
Qed.

Lemma allocated_extend c st ch c' type :
  table_wf c st ch → table_wf c' (st ++ [type]) (ch ++ [None]) → same_but_table c c' →
  (∀ n s, st !! n = Some s → s ≠ CHANNEL_FREE) → cn_used_channels c < MAX_CHANNELS →
  allocated c c' type (length st).
Proof.
  intros Hw Hw' Hsame Hall Hm. pose proof (tw_used _ _ _ Hw) as Hu. unfold lenZ in Hu. split.
  - by eexists _, _.
  - rewrite (number_state_at _ _ _ _ Hw). unfold state_at. by rewrite lookup_ge_None_2.
  - intros m Hlt. apply (state_busy c st ch m (length st)); [done | | done | done]. intros n s _. apply Hall.
  - lia.
  - intros m. rewrite (number_state_at _ _ _ _ Hw'), (number_state_at _ _ _ _ Hw). apply state_at_snoc.
  - intros m. rewrite (number_channel_at _ _ _ _ Hw'), (number_channel_at _ _ _ _ Hw). apply channel_at_snoc.
  - done.
Qed.

(** Room is made when the arrays are full. *)
Lemma alloc_room c st ch :
  table_wf c st ch → cn_used_channels c < MAX_CHANNELS →
  let c1 := if cn_used_channels c =? cn_allocated_channels c then alloc_grow c else c in
  table_wf c1 st ch ∧ cn_used_channels c1 < cn_allocated_channels c1 ∧ same_but_table c c1
  ∧ cn_used_channels c1 = cn_used_channels c.
Proof.
  intros Hw Hm c1. unfold c1. pose proof (table_bounds _ _ _ Hw) as [Hb _].
  destruct (Z.eqb_spec (cn_used_channels c) (cn_allocated_channels c)).
  - by destruct (alloc_grow_wf c st ch).
  - split_and!; [done | lia | by destruct c | done].
Qed.

Lemma alloc_channel_spec c type :
  conn_wf c → type = CHANNEL_ALLOC_SENT_OPEN ∨ type = CHANNEL_ALLOC_RECEIVED_OPEN →
  (∃ c' n, ssh_connection_alloc_channel c type = Ok (c', Z.of_nat n) ∧ allocated c c' type n)
  ∨ (ssh_connection_alloc_channel c type = Ok (c, -1)
     ∧ ∀ n, Z.of_nat n < MAX_CHANNELS → number_state c n ≠ CHANNEL_FREE).
Proof.
  intros (st & ch & Hw) Ht. assert (type ≠ CHANNEL_FREE) as Hnf by (by destruct Ht; subst).
  unfold ssh_connection_alloc_channel.
  rewrite c_assert_true by (destruct Ht; subst type; done). rewrite bind_ok_l.
  pose proof (tw_next _ _ _ Hw) as Hnx. pose proof (tw_used _ _ _ Hw) as Hu. unfold lenZ in Hu.
  pose proof (tw_max _ _ _ Hw) as Hmax. pose proof (table_bounds _ _ _ Hw) as [Hb Hb'].
  destruct (scan_free_spec (cn_alloc_state c) st (cn_next_channel c) (cn_used_channels c))
    as (i & found & -> & Hi & Hbetween & Hf); [apply Hw | done | lia |].
  assert (∀ n s, (n < Z.to_nat i)%nat → st !! n = Some s → s ≠ CHANNEL_FREE) as Hbelow.
  { intros n s Hn Hs. destruct (decide (n < Z.to_nat (cn_next_channel c))%nat) as [Hlt |].
    - by apply (tw_below _ _ _ Hw n).
    - apply (Hbetween n); [lia | done]. }
  rewrite bind_ok_l. cbv beta iota. destruct found.
  - left. destruct (table_entry c st ch i Hw) as (s & o & Hs & Ho & _ & ->).
    { apply lookup_lt_Some in Hf. lia. }
    rewrite bind_ok_l. rewrite (tw_free _ _ _ Hw _ Hf) in Ho. injection Ho as <-.
    rewrite c_assert_true by done. rewrite bind_ok_l.
    destruct (alloc_reuse c st ch type i) as (c' & Hc' & Hw'); [done.. |]. rewrite Hc'.
    exists c', (Z.to_nat i). rewrite Z2Nat.id by lia. split; [done |].
    apply (allocated_reuse c st ch); [done | done | | done | done].
    unfold alloc_success in Hc'. ok_inv. done.
  - subst i. destruct (Z.eqb_spec (cn_used_channels c) (cn_max_channels c)) as [Hfull | Hnot].
    { right. split; [done |]. intros n Hn. apply (state_busy c st ch n (length st)); [done | | done | lia].
      intros k s Hk. apply Hbelow. lia. }
    left. destruct (alloc_room c st ch) as (Hw1 & Hroom & Hsame & Hu1); [done | lia |].
    set (c1 := if cn_used_channels c =? cn_allocated_channels c then alloc_grow c else c) in *.
    assert (∀ n s, st !! n = Some s → s ≠ CHANNEL_FREE) as Hall.
    { intros n s Hs. apply (Hbelow n); [| done]. apply lookup_lt_Some in Hs. lia. }
    destruct (alloc_extend c1 st ch type) as (channels & c' & Hset & Hok & Hw'); [done.. |].
    rewrite <- Hu1, Hset, bind_ok_l, Hok. exists c', (length st). rewrite Hu1, <- Hu. split; [done |].
    apply (allocated_extend c st ch); [done | done | | done | lia].
    unfold alloc_success in Hok. ok_inv. unfold same_but_table in *. by rewrite Hsame.
Qed.

(** Changing the state of one number that is in use; the count follows. *)
Lemma table_set_state c st ch a n s s' next count :
  table_wf c st ch → st !! n = Some s → holds a (<[n := s']> st) → lenZ a = lenZ (cn_alloc_state c) →
  count = busy st - busy1 s + busy1 s' → 0 <= next <= cn_used_channels c →
  (∀ m, (m < Z.to_nat next)%nat → (m < Z.to_nat (cn_next_channel c))%nat ∧ (m = n → s' ≠ CHANNEL_FREE)) →
  (s' = CHANNEL_FREE → ch !! n = Some None) →
  table_wf (with_table c (cn_channels c) a (cn_allocated_channels c) (cn_used_channels c) next count)
    (<[n := s']> st) ch.
Proof.
  intros [? ? Hu ? Hsz ? ? ? ? Hbl Hcnt Hfr] Hs Ha Hl Hc Hn Hnext Hf.
  pose proof (lookup_lt_Some _ _ _ Hs) as Hlt. split; simpl; try done.
  - unfold lenZ in *. by rewrite length_insert.
  - congruence.
  - intros m sm Hm Hsm. destruct (Hnext m Hm) as [Hm' Hne]. destruct (decide (m = n)) as [-> | Hd].
    + rewrite list_lookup_insert_eq in Hsm by done. injection Hsm as <-. by apply Hne.
    + rewrite list_lookup_insert_ne in Hsm by done. by apply (Hbl m).
  - by rewrite (busy_insert _ _ _ _ Hs).
  - intros m Hsm. destruct (decide (m = n)) as [-> | Hd].
    + rewrite list_lookup_insert_eq in Hsm by done. injection Hsm as ->. by apply Hf.
    + rewrite list_lookup_insert_ne in Hsm by done. by apply Hfr.
Qed.

(** Changing the channel of one number. *)
Lemma table_set_channel c st ch a n s x :
  table_wf c st ch → holds a (<[n := x]> ch) → lenZ a = lenZ (cn_channels c) →
  st !! n = Some s → s ≠ CHANNEL_FREE ∨ x = None →
  table_wf (with_table c a (cn_alloc_state c) (cn_allocated_channels c) (cn_used_channels c)
              (cn_next_channel c) (cn_channel_count c)) st (<[n := x]> ch).
Proof.
  intros [? ? Hu Hu' Hsz Hsz' ? ? ? Hbl Hcnt Hfr] Ha Hl Hs Hx. split; simpl; try done.
  - unfold lenZ in *. by rewrite length_insert.
  - congruence.
  - intros m Hm. destruct (decide (m = n)) as [-> | Hd].
    + destruct Hx as [Hne | ->]; [congruence |]. apply list_lookup_insert_eq.
      apply lookup_lt_Some in Hs. unfold lenZ in *. lia.
    + rewrite list_lookup_insert_ne by done. by apply Hfr.
Qed.

(** A number changed: its state, its channel, and nothing else. *)
Record renumbered (c c' : ssh_connection) (n : nat) (s : channel_alloc_state) (x : option ptr) : Prop := {
  rn_wf : conn_wf c';
  rn_state m : number_state c' m = if decide (m = n) then s else number_state c m;
  rn_channel m : number_channel c' m = if decide (m = n) then x else number_channel c m;
  rn_rest : same_but_table c c';
}.

Lemma renumbered_intro c c' st ch n s x :
  table_wf c st ch → table_wf c' (<[n := s]> st) (<[n := x]> ch) → same_but_table c c' →
  (n < length st)%nat → renumbered c c' n s x.
Proof.
  intros Hw Hw' Hsame Hn. pose proof (tw_used _ _ _ Hw). pose proof (tw_used' _ _ _ Hw). unfold lenZ in *. split.
  - by eexists _, _.
  - intros m. rewrite (number_state_at _ _ _ _ Hw'), (number_state_at _ _ _ _ Hw). by apply state_at_insert.
  - intros m. rewrite (number_channel_at _ _ _ _ Hw'), (number_channel_at _ _ _ _ Hw).
    apply channel_at_insert. lia.
  - done.
Qed.

(** The entries of a number in use, as list elements. *)
Lemma busy_lookup c st ch n :
  table_wf c st ch → number_state c n ≠ CHANNEL_FREE →
  st !! n = Some (number_state c n) ∧ ch !! n = Some (number_channel c n).
Proof.
  intros Hw Hn. destruct (table_entry c st ch (Z.of_nat n) Hw) as (s & o & Hs & Ho & _);
    [by apply number_busy |]. rewrite Nat2Z.id in Hs, Ho.
  rewrite (number_state_at _ _ _ _ Hw), (number_channel_at _ _ _ _ Hw). unfold state_at, channel_at.
  by rewrite Hs, Ho.
Qed.

Lemma dealloc_channel_spec c n :
  conn_wf c → number_state c n ≠ CHANNEL_FREE →
  ∃ c', ssh_connection_dealloc_channel c (Z.of_nat n) = Ok c' ∧ renumbered c c' n CHANNEL_FREE None
        ∧ cn_channel_count c' = cn_channel_count c - 1.
Proof.
  intros Hc Hn. destruct (number_entry c n Hc Hn) as [Hcs _]. destruct Hc as (st & ch & Hw).
  destruct (busy_lookup c st ch n Hw Hn) as [Hs Ho]. pose proof (number_busy c n Hn) as Hr.
  pose proof (busy_pos st n _ Hs Hn) as Hpos. pose proof (busy_range st) as Hbr.
  pose proof (table_bounds _ _ _ Hw) as [Hb Hb']. pose proof (tw_used _ _ _ Hw) as Hu.
  pose proof (tw_count _ _ _ Hw) as Hcnt. pose proof (tw_next _ _ _ Hw) as Hnx.
  unfold ssh_connection_dealloc_channel. rewrite Hcs.
  pass_assert.
  pass_assert_with ltac:(unfold c_true; lia). rewrite ?bind_ok_l.
  pass_assert_with ltac:(by apply bool_decide_eq_true).
  destruct (set_channel_wf c st ch (Z.of_nat n) (number_channel c n) None Hw) as (a & -> & Ha & Hla);
    [lia | by rewrite Nat2Z.id |].
  destruct (set_state_wf c st ch (Z.of_nat n) (number_state c n) CHANNEL_FREE Hw) as (b & -> & Hbb & Hlb);
    [lia | by rewrite Nat2Z.id |].
  rewrite !bind_ok_l. rewrite Nat2Z.id in Ha, Hbb. eexists. split; [done |]. simpl.
  assert (u32 (cn_channel_count c - 1) = busy st - 1) as Hu1
    by (rewrite Hcnt; apply u32_id; unfold is_u32, MAX_CHANNELS in *; lia).
  rewrite Hu1. split; [| lia].
  apply (renumbered_intro c _ st ch); [done | | done | by eapply lookup_lt_Some].
  pose proof (table_set_channel c st ch a n _ None Hw Ha Hla Hs (or_intror eq_refl)) as Hw1.
  apply (table_set_state _ st _ b n (number_state c n) CHANNEL_FREE _ _ Hw1); simpl; try done.
  - apply busy1_range in Hn. change (busy1 CHANNEL_FREE) with 0. lia.
  - case_bool; lia.
  - intros m Hm. case_bool_in Hm; split; lia.
  - intros _. apply list_lookup_insert_eq. apply lookup_lt_Some in Ho. done.
Qed.

Lemma activate_channel_spec c n p :
  conn_wf c → number_state c n ≠ CHANNEL_FREE → number_channel c n = Some p →
  ∃ c', ssh_connection_activate_channel c (Z.of_nat n) = Ok c'
        ∧ renumbered c c' n CHANNEL_ALLOC_ACTIVE (Some p)
        ∧ cn_channel_count c' = cn_channel_count c.
Proof.
  intros Hc Hn Hp. destruct (number_entry c n Hc Hn) as [Hcs Hco]. destruct Hc as (st & ch & Hw).
  destruct (busy_lookup c st ch n Hw Hn) as [Hs Ho]. pose proof (number_busy c n Hn) as Hr.
  unfold ssh_connection_activate_channel. rewrite Hcs, Hco, Hp.
  pass_assert. rewrite ?bind_ok_l.
  pass_assert_with ltac:(by apply bool_decide_eq_true). rewrite ?bind_ok_l.
  destruct (set_state_wf c st ch (Z.of_nat n) (number_state c n) CHANNEL_ALLOC_ACTIVE Hw) as (b & -> & Hbb & Hlb);
    [lia | by rewrite Nat2Z.id |].
  rewrite !bind_ok_l. rewrite Nat2Z.id in Hbb. eexists. split; [done |]. simpl. split; [| done].
  apply (renumbered_intro c _ st ch); [done | | done | by eapply lookup_lt_Some].
  rewrite (list_insert_id ch n (Some p)) by (by rewrite Ho, Hp).
  apply (table_set_state _ st _ b n (number_state c n) CHANNEL_ALLOC_ACTIVE _ _ Hw); simpl; try done.
  - rewrite (tw_count _ _ _ Hw). apply busy1_range in Hn. change (busy1 CHANNEL_ALLOC_ACTIVE) with 1. lia.
  - apply Hw.
Qed.

Lemma register_slot_spec c n p :
  conn_wf c → number_state c n ≠ CHANNEL_FREE → number_channel c n = None →
  ∃ c', register_slot c (Z.of_nat n) p = Ok c' ∧ renumbered c c' n (number_state c n) (Some p)
        ∧ cn_channel_count c' = cn_channel_count c.
Proof.
  intros Hc Hn Hp. destruct (number_entry c n Hc Hn) as [Hcs Hco]. destruct Hc as (st & ch & Hw).
  destruct (busy_lookup c st ch n Hw Hn) as [Hs Ho]. pose proof (number_busy c n Hn) as Hr.
  unfold register_slot. rewrite Hcs, Hco, Hp.
  pass_assert. rewrite ?bind_ok_l.
  pass_assert_with ltac:(by apply bool_decide_eq_true). rewrite ?bind_ok_l.
  destruct (set_channel_wf c st ch (Z.of_nat n) (number_channel c n) (Some p) Hw) as (a & -> & Ha & Hla);
    [lia | by rewrite Nat2Z.id |].
  rewrite !bind_ok_l. rewrite Nat2Z.id in Ha. eexists. split; [done |]. simpl. split; [| done].
  apply (renumbered_intro c _ st ch); [done | | done | by eapply lookup_lt_Some].
  rewrite (list_insert_id st n (number_state c n)) by done.
  apply (table_set_channel c st ch a n _ (Some p) Hw Ha Hla Hs). by left.
Qed.

(** Looking up any number a peer may send. *)
Lemma lookup_channel_spec c i flag :
  conn_wf c → 0 <= i → flag ≠ CHANNEL_FREE →
  (number_state c (Z.to_nat i) = flag → number_channel c (Z.to_nat i) ≠ None) →
  ssh_connection_lookup_channel c i flag
  = Ok (if bool_decide (number_state c (Z.to_nat i) = flag) then number_channel c (Z.to_nat i) else None).
Proof.
  intros Hc Hi Hf Hlive. unfold ssh_connection_lookup_channel.
  pass_assert_with ltac:(by apply bool_decide_eq_true).
  destruct (Z.ltb_spec i (cn_used_channels c)) as [Hlt | Hge].
  - destruct Hc as (st & ch & Hw). destruct (table_entry c st ch i Hw) as (s & o & Hs & Ho & -> & ->); [lia |].
    rewrite (number_state_at _ _ _ _ Hw), (number_channel_at _ _ _ _ Hw) in *. unfold state_at, channel_at in *.
    rewrite Hs, Ho in *. simpl in *. case_bool_decide as Hd; [| done].
    rewrite c_assert_true; [done |]. apply bool_decide_eq_true. by apply Hlive.
  - rewrite bool_decide_eq_false_2; [done |].
    unfold number_state. rewrite (proj2 (Z.ltb_ge _ _)) by lia. done.
Qed.

(** ** Refinement to the file-descriptor discipline *)

Definition numbers_in_use (c : ssh_connection) : gset nat :=
  list_to_set (filter (λ n, number_state c n ≠ CHANNEL_FREE) (seq 0 (Z.to_nat (cn_used_channels c)))).

Lemma elem_of_in_use c n : n ∈ numbers_in_use c ↔ number_state c n ≠ CHANNEL_FREE.
Proof.
  unfold numbers_in_use. rewrite elem_of_list_to_set, list_elem_of_filter, elem_of_seq.
  split; [by intros [? _] |]. intros Hn. split; [done |]. pose proof (number_busy c n Hn). lia.
Qed.

Lemma busy_filter st k :
  busy st = lenZ (filter (λ n, state_at (replicate k CHANNEL_FREE ++ st) n ≠ CHANNEL_FREE) (seq k (length st))).
Proof.
  revert k. induction st as [| s st IH]; intros k; [done |].
  assert (state_at (replicate k CHANNEL_FREE ++ s :: st) k = s) as Hk.
  { unfold state_at. by rewrite lookup_app_r, length_replicate, Nat.sub_diag by (rewrite length_replicate; lia). }
  assert (lenZ (filter (λ n, state_at (replicate k CHANNEL_FREE ++ s :: st) n ≠ CHANNEL_FREE)
    (seq (S k) (length st))) = busy st) as Htl.
  { rewrite (IH (S k)). f_equal. apply filter_ext_Forall, Forall_forall. intros n Hn.
    apply elem_of_seq in Hn. unfold state_at.
    rewrite !lookup_app_r by (rewrite length_replicate; lia). rewrite !length_replicate.
    replace (n - k)%nat with (S (n - S k)) by lia. done. }
  cbn [length seq]. rewrite filter_cons, Hk, busy_cons.
  pose proof (busy1_range s) as [Hr Hs]. case_decide as Hd.
  - rewrite lenZ_cons, Htl. apply Hs in Hd. lia.
  - rewrite Htl. assert (busy1 s ≠ 1) by tauto. lia.
Qed.

Lemma count_in_use c : conn_wf c → cn_channel_count c = Z.of_nat (size (numbers_in_use c)).
Proof.
  intros (st & ch & Hw). rewrite (tw_count _ _ _ Hw), (busy_filter st 0). unfold numbers_in_use.
  rewrite size_list_to_set by apply NoDup_filter, NoDup_seq. unfold lenZ. f_equal.
  pose proof (tw_used _ _ _ Hw) as Hu. unfold lenZ in Hu. rewrite <- Hu, Nat2Z.id. f_equal.
  apply list_filter_iff. intros n. by rewrite (number_state_at _ _ _ _ Hw).
Qed.

(** The abstract allocator: a set of numbers in use, from which the smallest
    number that is missing is taken. *)
Definition smallest_free (used : gset nat) (n : nat) : Prop :=
  (n ∉ used) ∧ ∀ m, (m < n)%nat → m ∈ used.

(** Sequences of operations on the table, with the set of numbers that were
    allocated and not released since. *)
Inductive table_run : ssh_connection → gset nat → Prop :=
  | run_init : table_run init_ssh_connection ∅
  | run_alloc c used type c' i :
      table_run c used → type = CHANNEL_ALLOC_SENT_OPEN ∨ type = CHANNEL_ALLOC_RECEIVED_OPEN →
      ssh_connection_alloc_channel c type = Ok (c', i) →
      table_run c' (if i =? -1 then used else {[Z.to_nat i]} ∪ used)
  | run_dealloc c used c' n :
      table_run c used → n ∈ used → ssh_connection_dealloc_channel c (Z.of_nat n) = Ok c' →
      table_run c' (used ∖ {[n]})
  | run_register c used c' n p :
      table_run c used → n ∈ used → number_channel c n = None →
      register_slot c (Z.of_nat n) p = Ok c' → table_run c' used
  | run_activate c used c' n p :
      table_run c used → n ∈ used → number_channel c n = Some p →
      ssh_connection_activate_channel c (Z.of_nat n) = Ok c' → table_run c' used.

Lemma table_run_spec c used : table_run c used → conn_wf c ∧ numbers_in_use c = used.
Proof.
  induction 1 as [| c used type c' i _ [Hc Hu] Ht He | c used c' n _ [Hc Hu] Hn He
    | c used c' n p _ [Hc Hu] Hn Hp He | c used c' n p _ [Hc Hu] Hn Hp He]; rewrite <- ?Hu in *.
  - split; [| done]. eexists _, _. apply init_ssh_connection_wf.
  - destruct (alloc_channel_spec c type Hc Ht) as [(c1 & n & Ha & Hal) | [Ha _]]; rewrite Ha in He; ok_inv; [| done].
    rewrite (proj2 (Z.eqb_neq _ _)), Nat2Z.id by lia. split; [apply Hal |].
    apply set_eq. intros m. rewrite elem_of_union, elem_of_singleton, !elem_of_in_use, (al_state _ _ _ _ Hal).
    case_decide; [| tauto]. split; [by left |]. by destruct Ht as [-> | ->].
  - apply elem_of_in_use in Hn. destruct (dealloc_channel_spec c n Hc Hn) as (c1 & Hd & Hr & _).
    rewrite Hd in He. ok_inv. split; [apply Hr |].
    apply set_eq. intros m. rewrite elem_of_difference, elem_of_singleton, !elem_of_in_use, (rn_state _ _ _ _ _ Hr).
    case_decide; tauto.
  - apply elem_of_in_use in Hn. destruct (register_slot_spec c n p Hc Hn Hp) as (c1 & Hd & Hr & _).
    rewrite Hd in He. ok_inv. split; [apply Hr |].
    apply set_eq. intros m. rewrite !elem_of_in_use, (rn_state _ _ _ _ _ Hr). case_decide; naive_solver.
  - apply elem_of_in_use in Hn. destruct (activate_channel_spec c n p Hc Hn Hp) as (c1 & Hd & Hr & _).
    rewrite Hd in He. ok_inv. split; [apply Hr |].
    apply set_eq. intros m. rewrite !elem_of_in_use, (rn_state _ _ _ _ _ Hr). case_decide; naive_solver.
Qed.

(** C19: channel numbers are managed like Unix file descriptors.  After any
    sequence of allocations, releases, registrations and activations the
    count kept by the connection is the number of numbers in use, and the
    next allocation returns: the smallest number not in use, or -1 exactly
    when all [MAX_CHANNELS] numbers are taken; and releasing any number in
    use succeeds.  No assertion fails and no cell is read before it is
    written, whatever the growth of the arrays. *)
Theorem channel_numbers_refine c used type n :
  table_run c used → type = CHANNEL_ALLOC_SENT_OPEN ∨ type = CHANNEL_ALLOC_RECEIVED_OPEN →
  cn_channel_count c = Z.of_nat (size used)
  ∧ ((∃ c' m, ssh_connection_alloc_channel c type = Ok (c', Z.of_nat m) ∧ smallest_free used m
              ∧ Z.of_nat m < MAX_CHANNELS)
     ∨ ssh_connection_alloc_channel c type = Ok (c, -1)
       ∧ ∀ m, Z.of_nat m < MAX_CHANNELS → m ∈ used)
  ∧ (n ∈ used → ∃ c', ssh_connection_dealloc_channel c (Z.of_nat n) = Ok c').
Proof.
  intros Hrun Ht. destruct (table_run_spec c used Hrun) as [Hc <-]. split; [by apply count_in_use |]. split.
  - destruct (alloc_channel_spec c type Hc Ht) as [(c' & m & -> & Hal) | [-> Hall]].
    + left. exists c', m. split; [done |]. split; [| apply Hal]. split.
      * rewrite elem_of_in_use, (al_was_free _ _ _ _ Hal). naive_solver.
      * intros k Hk. apply elem_of_in_use, (al_least _ _ _ _ Hal k Hk).
    + right. split; [done |]. intros m Hm. by apply elem_of_in_use, Hall.
  - rewrite elem_of_in_use. intros Hn. destruct (dealloc_channel_spec c n Hc Hn) as (c' & ? & _). eauto.
Qed.

(** Three numbers taken, the middle one released: it is the next one. *)
Definition sample_alloc (c : ssh_connection) : ssh_connection :=
  match ssh_connection_alloc_channel c CHANNEL_ALLOC_SENT_OPEN with Ok (c', _) => c' | Fault _ => c end.
Definition sample_table : ssh_connection :=
  let c := sample_alloc (sample_alloc (sample_alloc init_ssh_connection)) in
  match ssh_connection_dealloc_channel c 1 with Ok c' => c' | Fault _ => c end.

Lemma sample_table_run : table_run sample_table (({[2%nat]} ∪ ({[1%nat]} ∪ ({[0%nat]} ∪ ∅))) ∖ {[1%nat]}).
Proof.
  apply (run_dealloc (sample_alloc (sample_alloc (sample_alloc init_ssh_connection))));
    [| set_solver | by vm_compute].
  apply (run_alloc (sample_alloc (sample_alloc init_ssh_connection)) _ CHANNEL_ALLOC_SENT_OPEN _ 2);
    [| by left | by vm_compute].
  apply (run_alloc (sample_alloc init_ssh_connection) _ CHANNEL_ALLOC_SENT_OPEN _ 1); [| by left | by vm_compute].
  apply (run_alloc init_ssh_connection _ CHANNEL_ALLOC_SENT_OPEN _ 0); [apply run_init | by left | by vm_compute].
Qed.

Lemma sample_set : let used : gset nat := ({[2%nat]} ∪ ({[1%nat]} ∪ ({[0%nat]} ∪ ∅))) ∖ {[1%nat]} in
  (0%nat ∈ used) ∧ (1%nat ∉ used).
Proof. split; set_solver. Qed.

Lemma channel_numbers_refine_witness :
  cn_channel_count sample_table = 2
  ∧ ∃ c', ssh_connection_alloc_channel sample_table CHANNEL_ALLOC_SENT_OPEN = Ok (c', 1).
Proof.
  destruct (channel_numbers_refine _ _ CHANNEL_ALLOC_SENT_OPEN 0%nat sample_table_run) as (Hcnt & Hal & _);
    [by left |].
  split; [by rewrite Hcnt |]. destruct sample_set as [H0 H1].
  destruct Hal as [(c' & m & He & [Hfree Hleast] & _) | [_ Hall]].
  - exists c'. rewrite He. do 2 f_equal. destruct m as [| [| m]]; [destruct (Hfree H0) | reflexivity |].
    exfalso. apply H1, Hleast. lia.
  - exfalso. by apply H1, Hall.
Defined.
