(* ===== verification/Channel.v ===== *)
(** * Channels ([src/src/channel.c], with [channel.h] and the callbacks of
      [connection.c])

    A world is one end of a connection: the connection object, the heap of
    channel objects it refers to, and the state of the program around it
    (the transport below, the sessions and forwardings above).  That program
    is reached through function pointers; they are the operations of the
    class [Methods], which may change the whole world.  A message handler is
    a function from a world and the rest of a packet to a world. *)

From S2P Require Import Prelude Ssh Nettle Atoms LshString Format Parse Connection.
Local Open Scope Z_scope.

Inductive channel_event : Set :=
  | CHANNEL_EVENT_CONFIRM
  | CHANNEL_EVENT_DENY
  | CHANNEL_EVENT_EOF
  | CHANNEL_EVENT_CLOSE
  | CHANNEL_EVENT_SUCCESS
  | CHANNEL_EVENT_FAILURE
  | CHANNEL_EVENT_STOP
  | CHANNEL_EVENT_START.

#[global] Instance channel_event_eq_dec : EqDecision channel_event.
Proof. solve_decision. Defined.

(** The methods [receive] and [send_adjust] may be null; [kill] and [event]
    never are.  [ch_connection] says whether the back pointer is set. *)
Record ssh_channel := mk_channel {
  ch_alive : bool;
  ch_connection : bool;
  ch_local_channel_number : Z;
  ch_remote_channel_number : Z;
  ch_rec_window_size : Z;
  ch_rec_max_packet : Z;
  ch_send_window_size : Z;
  ch_send_max_packet : Z;
  ch_request_types : option (gmap Z ptr);
  ch_request_fallback : option ptr;
  ch_flags : Z;
  ch_sources : Z;
  ch_sinks : Z;
  ch_receive : bool;
  ch_send_adjust : bool;
  ch_pending_requests : Z;
}.

Definition set_flags (ch : ssh_channel) (flags : Z) : ssh_channel :=
  mk_channel (ch_alive ch) (ch_connection ch) (ch_local_channel_number ch)
    (ch_remote_channel_number ch) (ch_rec_window_size ch) (ch_rec_max_packet ch)
    (ch_send_window_size ch) (ch_send_max_packet ch) (ch_request_types ch)
    (ch_request_fallback ch) flags (ch_sources ch) (ch_sinks ch) (ch_receive ch)
    (ch_send_adjust ch) (ch_pending_requests ch).

Definition set_receive_limits (ch : ssh_channel) (window max_packet : Z) : ssh_channel :=
  mk_channel (ch_alive ch) (ch_connection ch) (ch_local_channel_number ch)
    (ch_remote_channel_number ch) window max_packet
    (ch_send_window_size ch) (ch_send_max_packet ch) (ch_request_types ch)
    (ch_request_fallback ch) (ch_flags ch) (ch_sources ch) (ch_sinks ch) (ch_receive ch)
    (ch_send_adjust ch) (ch_pending_requests ch).

Definition set_send (ch : ssh_channel) (remote window max_packet : Z) : ssh_channel :=
  mk_channel (ch_alive ch) (ch_connection ch) (ch_local_channel_number ch)
    remote (ch_rec_window_size ch) (ch_rec_max_packet ch)
    window max_packet (ch_request_types ch)
    (ch_request_fallback ch) (ch_flags ch) (ch_sources ch) (ch_sinks ch) (ch_receive ch)
    (ch_send_adjust ch) (ch_pending_requests ch).

Definition set_link (ch : ssh_channel) (connection : bool) (local : Z) : ssh_channel :=
  mk_channel (ch_alive ch) connection local
    (ch_remote_channel_number ch) (ch_rec_window_size ch) (ch_rec_max_packet ch)
    (ch_send_window_size ch) (ch_send_max_packet ch) (ch_request_types ch)
    (ch_request_fallback ch) (ch_flags ch) (ch_sources ch) (ch_sinks ch) (ch_receive ch)
    (ch_send_adjust ch) (ch_pending_requests ch).

Definition set_pending (ch : ssh_channel) (pending : Z) : ssh_channel :=
  mk_channel (ch_alive ch) (ch_connection ch) (ch_local_channel_number ch)
    (ch_remote_channel_number ch) (ch_rec_window_size ch) (ch_rec_max_packet ch)
    (ch_send_window_size ch) (ch_send_max_packet ch) (ch_request_types ch)
    (ch_request_fallback ch) (ch_flags ch) (ch_sources ch) (ch_sinks ch) (ch_receive ch)
    (ch_send_adjust ch) pending.

(** [channel->flags & mask] as a truth value. *)
Definition flagged (ch : ssh_channel) (mask : Z) : bool := c_true (Z.land (ch_flags ch) mask).
Definition add_flag (ch : ssh_channel) (flag : Z) : ssh_channel :=
  set_flags ch (Z.lor (ch_flags ch) flag).

(** Fields that are not set keep what the fresh object [ch] had. *)
Definition init_channel (ch : ssh_channel) : ssh_channel :=
  {| ch_alive := true;
     ch_connection := false;
     ch_local_channel_number := ch_local_channel_number ch;
     ch_remote_channel_number := ch_remote_channel_number ch;
     ch_rec_window_size := ch_rec_window_size ch;
     ch_rec_max_packet := ch_rec_max_packet ch;
     ch_send_window_size := ch_send_window_size ch;
     ch_send_max_packet := ch_send_max_packet ch;
     ch_request_types := None;
     ch_request_fallback := None;
     ch_flags := 0;
     ch_sources := 0;
     ch_sinks := 0;
     ch_receive := false;
     ch_send_adjust := false;
     ch_pending_requests := 0 |}.

Record request_info := mk_request {
  rq_type_data : list Z;
  rq_type : Z;
  rq_want_reply : Z;
}.

(** The connection of an open request is the one at hand. *)
Record channel_open_info := mk_open_info {
  oi_local_channel_number : Z;
  oi_type_data : list Z;
  oi_type : Z;
  oi_remote_channel_number : Z;
  oi_send_window_size : Z;
  oi_send_max_packet : Z;
}.

(** ** Worlds and methods *)

Record world (E : Type) := mk_world {
  w_conn : ssh_connection;
  w_heap : gmap ptr ssh_channel;
  w_env : E;
}.
Arguments mk_world {E} _ _ _.
Arguments w_conn {E} _.
Arguments w_heap {E} _.
Arguments w_env {E} _.

(** The function pointers: those of the connection ([write], [disconnect],
    [kill]), of a channel ([kill], [event], [receive], [send_adjust]), and
    the handlers registered for requests, channel types and replies. *)
Class Methods (E : Type) := {
  m_write : lsh_string → world E → result (world E);
  m_disconnect : Z → string → world E → result (world E);
  m_kill_connection : world E → result (world E);
  m_kill_channel : ptr → world E → result (world E);
  m_event : ptr → channel_event → world E → result (world E);
  m_receive : ptr → Z → list Z → world E → result (world E);
  m_send_adjust : ptr → Z → world E → result (world E);
  m_channel_request : ptr → ptr → request_info → simple_buffer → world E → result (world E);
  m_global_request : ptr → request_info → simple_buffer → world E → result (world E);
  m_channel_open : ptr → channel_open_info → simple_buffer → world E → result (world E);
  m_request_done : ptr → Z → world E → result (world E);
}.

Definition with_conn {E} (w : world E) (c : ssh_connection) : world E :=
  mk_world c (w_heap w) (w_env w).
Definition with_channel {E} (w : world E) (p : ptr) (ch : ssh_channel) : world E :=
  mk_world (w_conn w) (<[p := ch]> (w_heap w)) (w_env w).

(** Following a pointer to a channel. *)
Definition get_channel {E} (w : world E) (p : ptr) : result ssh_channel :=
  match w_heap w !! p with
  | Some ch => Ok ch
  | None => Fault NullPointer
  end.

Definition with_resources (c : ssh_connection) (r : resource_list) : ssh_connection :=
  mk_connection (cn_alive c) r (cn_channels c) (cn_alloc_state c) (cn_allocated_channels c)
    (cn_used_channels c) (cn_next_channel c) (cn_channel_count c) (cn_max_channels c)
    (cn_pending_close c) (cn_global_requests c) (cn_channel_types c) (cn_open_fallback c)
    (cn_forwarded_ports c) (cn_pending_global_requests c).
Definition with_pending_close (c : ssh_connection) : ssh_connection :=
  mk_connection (cn_alive c) (cn_resources c) (cn_channels c) (cn_alloc_state c)
    (cn_allocated_channels c) (cn_used_channels c) (cn_next_channel c) (cn_channel_count c)
    (cn_max_channels c) true (cn_global_requests c) (cn_channel_types c) (cn_open_fallback c)
    (cn_forwarded_ports c) (cn_pending_global_requests c).
Definition with_pending_requests (c : ssh_connection) (q : list ptr) : ssh_connection :=
  mk_connection (cn_alive c) (cn_resources c) (cn_channels c) (cn_alloc_state c)
    (cn_allocated_channels c) (cn_used_channels c) (cn_next_channel c) (cn_channel_count c)
    (cn_max_channels c) (cn_pending_close c) (cn_global_requests c) (cn_channel_types c)
    (cn_open_fallback c) (cn_forwarded_ports c) q.

Section channel.
Context `{Malloc} `{NettleMacros} `{NettleBignum} `{AtomTable}.
Context {E : Type} `{!Methods E}.

(** ** Messages *)

Definition format_global_failure : result lsh_string :=
  ssh_format_string "%c" [FInt SSH_MSG_REQUEST_FAILURE].
Definition format_global_success : result lsh_string :=
  ssh_format_string "%c" [FInt SSH_MSG_REQUEST_SUCCESS].

Definition check_rec_max_packet (ch : ssh_channel) : ssh_channel :=
  if SSH_MAX_DATA_SIZE <? ch_rec_max_packet ch
  then set_receive_limits ch (ch_rec_window_size ch) SSH_MAX_DATA_SIZE
  else ch.

(** A fixed part and a part given by the caller, each measured, then written
    into one string. *)
Definition format_two (f1 : string) (args1 : list farg) (f2 : string) (args2 : list farg)
  : result lsh_string :=
  l1 ← ssh_vformat_length f1 args1;
  l2 ← ssh_vformat_length f2 args2;
  let packet := lsh_string_alloc (u32 (l1 + l2)) in
  '(packet, _) ← ssh_vformat_write f1 packet 0 args1;
  '(packet, _) ← ssh_vformat_write f2 packet l1 args2;
  Ok packet.

Definition format_open_confirmation (ch : ssh_channel) (f : string) (args : list farg)
  : result (ssh_channel * lsh_string) :=
  let ch := check_rec_max_packet ch in
  packet ← format_two "%c%i%i%i%i"
    [FInt SSH_MSG_CHANNEL_OPEN_CONFIRMATION; FInt (ch_remote_channel_number ch);
     FInt (ch_local_channel_number ch); FInt (ch_rec_window_size ch);
     FInt (ch_rec_max_packet ch)] f args;
  Ok (ch, packet).

Definition format_open_failure (channel reason : Z) (msg language : list Z) : result lsh_string :=
  ssh_format_string "%c%i%i%z%z"
    [FInt SSH_MSG_CHANNEL_OPEN_FAILURE; FInt channel; FInt reason; FCstr msg; FCstr language].

Definition format_channel_success (channel : Z) : result lsh_string :=
  ssh_format_string "%c%i" [FInt SSH_MSG_CHANNEL_SUCCESS; FInt channel].

Definition format_channel_failure (channel : Z) : result lsh_string :=
  ssh_format_string "%c%i" [FInt SSH_MSG_CHANNEL_FAILURE; FInt channel].

Definition format_channel_data (number length : Z) (data : list Z) : result lsh_string :=
  ssh_format_string "%c%i%s" [FInt SSH_MSG_CHANNEL_DATA; FInt number; FInt length; FBytes data].

Definition format_channel_extended_data (number type length : Z) (data : list Z)
  : result lsh_string :=
  ssh_format_string "%c%i%i%s"
    [FInt SSH_MSG_CHANNEL_EXTENDED_DATA; FInt number; FInt type; FInt length; FBytes data].

Definition format_channel_window_adjust (number add : Z) : result lsh_string :=
  ssh_format_string "%c%i%i" [FInt SSH_MSG_CHANNEL_WINDOW_ADJUST; FInt number; FInt add].

Definition format_channel_close (ch : ssh_channel) : result lsh_string :=
  ssh_format_string "%c%i" [FInt SSH_MSG_CHANNEL_CLOSE; FInt (ch_remote_channel_number ch)].

Definition format_channel_eof (number : Z) : result lsh_string :=
  ssh_format_string "%c%i" [FInt SSH_MSG_CHANNEL_EOF; FInt number].

(** [SSH_CONNECTION_WRITE (connection, packet)], with the packet made first. *)
Definition connection_write (w : world E) (packet : result lsh_string) : result (world E) :=
  s ← packet; m_write s w.

(** [SSH_CONNECTION_WRITE (channel->connection, packet)] *)
Definition channel_write (w : world E) (p : ptr) (packet : result lsh_string) : result (world E) :=
  ch ← get_channel w p;
  if ch_connection ch then connection_write w packet else Fault NullPointer.

Definition SSH_CONNECTION_ERROR (w : world E) (msg : string) : result (world E) :=
  m_disconnect SSH_DISCONNECT_PROTOCOL_ERROR msg w.

(** ** Channel objects *)

Definition channel_finished (w : world E) (p : ptr) : result (world E) :=
  ch ← get_channel w p;
  if negb (ch_alive ch) then Ok w
  else
    let connection := ch_connection ch in
    w ← m_kill_channel p w;
    ch ← get_channel w p;
    let w := with_channel w p (set_link ch false (ch_local_channel_number ch)) in
    if negb connection then Fault NullPointer
    else
      c ← ssh_connection_dealloc_channel (w_conn w) (ch_local_channel_number ch);
      let w := with_conn w c in
      if cn_pending_close (w_conn w) && negb (c_true (cn_channel_count (w_conn w)))
      then m_kill_connection w
      else Ok w.

Definition send_window_adjust (w : world E) (p : ptr) (add : Z) : result (world E) :=
  ch ← get_channel w p;
  let ch := set_receive_limits ch (u32 (ch_rec_window_size ch + add)) (ch_rec_max_packet ch) in
  let w := with_channel w p ch in
  channel_write w p (format_channel_window_adjust (ch_remote_channel_number ch) add).

Definition channel_adjust_rec_window (w : world E) (p : ptr) (written : Z) : result (world E) :=
  ch ← get_channel w p;
  if c_true written
     && negb (flagged ch (Z.lor (Z.lor CHANNEL_RECEIVED_EOF CHANNEL_RECEIVED_CLOSE) CHANNEL_SENT_CLOSE))
  then send_window_adjust w p written
  else Ok w.

Definition channel_start_receive (w : world E) (p : ptr) (initial_window_size : Z)
  : result (world E) :=
  ch ← get_channel w p;
  if ch_rec_window_size ch <? initial_window_size
  then send_window_adjust w p (initial_window_size - ch_rec_window_size ch)
  else Ok w.

Definition channel_close (w : world E) (p : ptr) : result (world E) :=
  ch ← get_channel w p;
  if flagged ch CHANNEL_SENT_CLOSE then Ok w
  else
    let w := with_channel w p (add_flag ch CHANNEL_SENT_CLOSE) in
    w ← channel_write w p (format_channel_close ch);
    ch ← get_channel w p;
    if flagged ch CHANNEL_RECEIVED_CLOSE then channel_finished w p else Ok w.

Definition channel_maybe_close (w : world E) (p : ptr) : result (world E) :=
  ch ← get_channel w p;
  if negb (flagged ch CHANNEL_SENT_CLOSE)
     && flagged ch CHANNEL_SENT_EOF
     && (flagged ch CHANNEL_NO_WAIT_FOR_EOF
         || (flagged ch CHANNEL_RECEIVED_EOF && negb (c_true (ch_sinks ch))))
  then channel_close w p
  else Ok w.

Definition channel_eof (w : world E) (p : ptr) : result (world E) :=
  ch ← get_channel w p;
  if flagged ch (Z.lor (Z.lor CHANNEL_SENT_EOF CHANNEL_SENT_CLOSE) CHANNEL_RECEIVED_CLOSE) then Ok w
  else
    let w := with_channel w p (add_flag ch CHANNEL_SENT_EOF) in
    w ← channel_write w p (format_channel_eof (ch_remote_channel_number ch));
    channel_maybe_close w p.

(** ** Requests and replies *)

Definition global_request_reply (w : world E) (info : option request_info) (result : Z)
  : Prelude.result (world E) :=
  if match info with None => true | Some i => c_true (rq_want_reply i) end then
    connection_write w (if c_true result then format_global_success else format_global_failure)
  else Ok w.

Definition channel_request_reply (w : world E) (p : ptr) (info : request_info) (result : Z)
  : Prelude.result (world E) :=
  if c_true (rq_want_reply info) then
    ch ← get_channel w p;
    channel_write w p
      (if c_true result then format_channel_success (ch_remote_channel_number ch)
       else format_channel_failure (ch_remote_channel_number ch))
  else Ok w.

(** The conditions [parse_... (buffer, ...) && ...] of the handlers. *)
Definition parse_request : parser (list Z * Z) :=
  parse_then parse_string parse_boolean.

(** The branch of each handler for a message that parses is a function of
    its own. *)
Definition global_requested (w : world E) (type_data : list Z) (want_reply : Z) (b : simple_buffer) : result (world E) :=
  let type := lookup_atom type_data in
  let req := if c_true type then cn_global_requests (w_conn w) !! type else None in
  match req with
  | Some h => m_global_request h (mk_request type_data type want_reply) b w
  | None => connection_write w format_global_failure
  end.

Definition handle_global_request (w : world E) (b : simple_buffer) : result (world E) :=
  '(b, r) ← parse_request b;
  match r with
  | Some (type_data, want_reply) => global_requested w type_data want_reply b
  | None => SSH_CONNECTION_ERROR w "Invalid SSH_MSG_GLOBAL_REQUEST message."
  end.

(** [handle_global_success] and [handle_global_failure] differ in the result
    they report and in the text. *)
Definition global_reply (w : world E) (result : Z) : Prelude.result (world E) :=
  match cn_pending_global_requests (w_conn w) with
  | [] => Ok w
  | state :: rest => m_request_done state result (with_conn w (with_pending_requests (w_conn w) rest))
  end.

Definition handle_global_success (w : world E) (b : simple_buffer) : result (world E) :=
  '(_, r) ← parse_eod b;
  match r with
  | None => SSH_CONNECTION_ERROR w "Invalid GLOBAL_REQUEST_SUCCESS message."
  | Some _ => global_reply w 1
  end.

Definition handle_global_failure (w : world E) (b : simple_buffer) : result (world E) :=
  '(_, r) ← parse_eod b;
  match r with
  | None => SSH_CONNECTION_ERROR w "Invalid GLOBAL_REQUEST_FAILURE message."
  | Some _ => global_reply w 0
  end.

Definition parse_channel_request : parser (Z * (list Z * Z)) :=
  parse_then parse_uint32 parse_request.

Definition channel_requested (w : world E) (channel_number : Z) (type_data : list Z)
  (want_reply : Z) (b : simple_buffer) : result (world E) :=
  channel ← ssh_connection_lookup_channel (w_conn w) channel_number CHANNEL_ALLOC_ACTIVE;
  match channel with
  | Some p =>
      ch ← get_channel w p;
      let type := lookup_atom type_data in
      let info := mk_request type_data type want_reply in
      let req :=
        match ch_request_types ch with
        | Some types => if c_true type then types !! type else None
        | None => None
        end in
      match (match req with Some h => Some h | None => ch_request_fallback ch end) with
      | Some h => m_channel_request h p info b w
      | None => channel_request_reply w p info 0
      end
  | None => SSH_CONNECTION_ERROR w "Invalid SSH_MSG_CHANNEL_REQUEST message."
  end.

Definition handle_channel_request (w : world E) (b : simple_buffer) : result (world E) :=
  '(b, r) ← parse_channel_request b;
  match r with
  | Some (channel_number, (type_data, want_reply)) => channel_requested w channel_number type_data want_reply b
  | None => SSH_CONNECTION_ERROR w "Invalid SSH_MSG_CHANNEL_REQUEST message."
  end.

(** ** Opening *)

(** [remember_resource (connection->resources, &channel->super)] *)
Definition remember_resource (w : world E) (p : ptr) : result (world E) :=
  let self := cn_resources (w_conn w) in
  if negb (rl_alive self) then m_kill_channel p w
  else Ok (with_conn w (with_resources (w_conn w) (mk_resources (rl_alive self) (p :: rl_q self)))).

Definition ssh_connection_register_channel (w : world E) (local_channel_number : Z) (p : ptr)
  : result (world E) :=
  c ← register_slot (w_conn w) local_channel_number p;
  let w := with_conn w c in
  ch ← get_channel w p;
  let w := with_channel w p (set_link ch true local_channel_number) in
  remember_resource w p.

(** The three assertions shared by [channel_open_confirm] and
    [channel_open_deny]. *)
Definition assert_reserved (w : world E) (i : Z) : result () :=
  _ ← c_assert (i <? cn_used_channels (w_conn w));
  s ← cell (cn_alloc_state (w_conn w)) i;
  _ ← c_assert (bool_decide (s = CHANNEL_ALLOC_RECEIVED_OPEN));
  ch ← cell (cn_channels (w_conn w)) i;
  c_assert (bool_decide (ch = None)).

Definition channel_open_confirm (w : world E) (info : channel_open_info) (p : ptr)
  : result (world E) :=
  _ ← assert_reserved w (oi_local_channel_number info);
  ch ← get_channel w p;
  let w := with_channel w p
    (set_send ch (oi_remote_channel_number info) (oi_send_window_size info) (oi_send_max_packet info)) in
  w ← ssh_connection_register_channel w (oi_local_channel_number info) p;
  c ← ssh_connection_activate_channel (w_conn w) (oi_local_channel_number info);
  let w := with_conn w c in
  ch ← get_channel w p;
  '(ch, packet) ← format_open_confirmation ch "" [];
  m_write packet (with_channel w p ch).

Definition channel_open_deny (w : world E) (info : channel_open_info) (error : Z) (msg : list Z)
  : result (world E) :=
  _ ← assert_reserved w (oi_local_channel_number info);
  c ← ssh_connection_dealloc_channel (w_conn w) (oi_local_channel_number info);
  connection_write (with_conn w c)
    (format_open_failure (oi_remote_channel_number info) error msg []).

Definition parse_open_fields : parser (list Z * (Z * (Z * Z))) :=
  parse_then parse_string (parse_then parse_uint32 (parse_then parse_uint32 parse_uint32)).

Definition parse_channel_open : parser channel_open_info :=
  '(type_data, (remote, (window, max))) ← parse_open_fields;
  mret {| oi_local_channel_number := 0;
          oi_type_data := type_data;
          oi_type := lookup_atom type_data;
          oi_remote_channel_number := remote;
          oi_send_window_size := window;
          oi_send_max_packet := if SSH_MAX_PACKET <? max then SSH_MAX_PACKET else max |}.

(** The branch of [handle_channel_open] with a parsed request. *)
Definition open_requested (w : world E) (info : channel_open_info) (b : simple_buffer)
  : result (world E) :=
  let deny reason msg :=
    connection_write w (format_open_failure (oi_remote_channel_number info) reason (cstr msg) []) in
  if cn_pending_close (w_conn w) then
    deny SSH_OPEN_ADMINISTRATIVELY_PROHIBITED "Waiting for channels to close."
  else
    let open := if c_true (oi_type info) then cn_channel_types (w_conn w) !! oi_type info else None in
    match (match open with Some o => Some o | None => cn_open_fallback (w_conn w) end) with
    | None => deny SSH_OPEN_UNKNOWN_CHANNEL_TYPE "Unknown channel type"
    | Some o =>
        '(c, local_number) ← ssh_connection_alloc_channel (w_conn w) CHANNEL_ALLOC_RECEIVED_OPEN;
        if local_number <? 0 then
          connection_write (with_conn w c)
            (format_open_failure (oi_remote_channel_number info) SSH_OPEN_RESOURCE_SHORTAGE
               (cstr "Channel limit exceeded.") [])
        else
          m_channel_open o
            (mk_open_info local_number (oi_type_data info) (oi_type info)
               (oi_remote_channel_number info) (oi_send_window_size info) (oi_send_max_packet info))
            b (with_conn w c)
    end.

Definition handle_channel_open (w : world E) (b : simple_buffer) : result (world E) :=
  '(b, r) ← parse_channel_open b;
  match r with
  | Some info => open_requested w info b
  | None => SSH_CONNECTION_ERROR w "Invalid SSH_MSG_CHANNEL_OPEN message."
  end.

Definition parse_open_confirm : parser (Z * (Z * (Z * Z))) :=
  parse_then parse_uint32 (parse_then parse_uint32 (parse_then parse_uint32 (parse_last parse_uint32))).

Definition open_confirmed (w : world E) (local remote window_size max_packet : Z) : result (world E) :=
  channel ← ssh_connection_lookup_channel (w_conn w) local CHANNEL_ALLOC_SENT_OPEN;
  match channel with
  | Some p =>
      ch ← get_channel w p;
      let max_packet := if SSH_MAX_DATA_SIZE <? max_packet then SSH_MAX_DATA_SIZE else max_packet in
      let w := with_channel w p (set_send ch remote window_size max_packet) in
      c ← ssh_connection_activate_channel (w_conn w) local;
      m_event p CHANNEL_EVENT_CONFIRM (with_conn w c)
  | None => SSH_CONNECTION_ERROR w "Unexpected CHANNEL_OPEN_CONFIRMATION."
  end.

Definition handle_open_confirm (w : world E) (b : simple_buffer) : result (world E) :=
  '(_, r) ← parse_open_confirm b;
  match r with
  | Some (local, (remote, (window_size, max_packet))) => open_confirmed w local remote window_size max_packet
  | None => SSH_CONNECTION_ERROR w "Invalid CHANNEL_OPEN_CONFIRMATION message."
  end.

Definition parse_open_failure : parser (Z * (Z * (list Z * list Z))) :=
  parse_then parse_uint32 (parse_then parse_uint32 (parse_then parse_string (parse_last parse_string))).

Definition open_failed (w : world E) (channel_number : Z) : result (world E) :=
  channel ← ssh_connection_lookup_channel (w_conn w) channel_number CHANNEL_ALLOC_SENT_OPEN;
  match channel with
  | Some p => w ← m_event p CHANNEL_EVENT_DENY w; channel_finished w p
  | None => Ok w
  end.

Definition handle_open_failure (w : world E) (b : simple_buffer) : result (world E) :=
  '(_, r) ← parse_open_failure b;
  match r with
  | Some (channel_number, _) => open_failed w channel_number
  | None => SSH_CONNECTION_ERROR w "Invalid CHANNEL_OPEN_FAILURE message."
  end.

(** ** Data *)

Definition parse_number2 : parser (Z * Z) :=
  parse_then parse_uint32 (parse_last parse_uint32).

Definition window_adjusted (w : world E) (channel_number size : Z) : result (world E) :=
  channel ← ssh_connection_lookup_channel (w_conn w) channel_number CHANNEL_ALLOC_ACTIVE;
  match channel with
  | Some p =>
      ch ← get_channel w p;
      if flagged ch CHANNEL_RECEIVED_CLOSE then
        SSH_CONNECTION_ERROR w "Unexpected CHANNEL_WINDOW_ADJUST"
      else if flagged ch (Z.lor CHANNEL_SENT_CLOSE CHANNEL_SENT_EOF) then Ok w
      else
        let window := u32 (ch_send_window_size ch + size) in
        let w := with_channel w p
          (set_send ch (ch_remote_channel_number ch) window (ch_send_max_packet ch)) in
        if c_true window && ch_send_adjust ch then m_send_adjust p size w else Ok w
  | None => SSH_CONNECTION_ERROR w "Unexpected CHANNEL_WINDOW_ADJUST"
  end.

Definition handle_adjust_window (w : world E) (b : simple_buffer) : result (world E) :=
  '(_, r) ← parse_number2 b;
  match r with
  | Some (channel_number, size) => window_adjusted w channel_number size
  | None => SSH_CONNECTION_ERROR w "Invalid CHANNEL_WINDOW_ADJUST message."
  end.

(** The length of the data that is accepted. *)
Definition accepted_length (ch : ssh_channel) (length : Z) : Z :=
  let length := if ch_rec_max_packet ch <? length then ch_rec_max_packet ch else length in
  if ch_rec_window_size ch <? length then ch_rec_window_size ch else length.

(** Zero when the channel takes no data; the callers only log that. *)
Definition receive_data_common (w : world E) (p : ptr) (type length : Z) (data : list Z)
  : result (world E * Z) :=
  ch ← get_channel w p;
  if ch_receive ch && negb (flagged ch (Z.lor CHANNEL_RECEIVED_EOF CHANNEL_RECEIVED_CLOSE)) then
    if flagged ch CHANNEL_SENT_CLOSE then Ok (w, 1)
    else
      let length := accepted_length ch length in
      if negb (c_true length) then Ok (w, 1)
      else
        let w := with_channel w p
          (set_receive_limits ch (u32 (ch_rec_window_size ch - length)) (ch_rec_max_packet ch)) in
        w ← m_receive p type (slice 0 length data) w;
        Ok (w, 1)
  else Ok (w, 0).

Definition parse_data : parser (Z * list Z) :=
  parse_then parse_uint32 (parse_last parse_string).

Definition data_received (w : world E) (channel_number : Z) (data : list Z) : result (world E) :=
  channel ← ssh_connection_lookup_channel (w_conn w) channel_number CHANNEL_ALLOC_ACTIVE;
  match channel with
  | Some p => '(w, _) ← receive_data_common w p CHANNEL_DATA (lenZ data) data; Ok w
  | None => Ok w
  end.

Definition handle_channel_data (w : world E) (b : simple_buffer) : result (world E) :=
  '(_, r) ← parse_data b;
  match r with
  | Some (channel_number, data) => data_received w channel_number data
  | None => SSH_CONNECTION_ERROR w "Invalid CHANNEL_DATA message."
  end.

Definition parse_extended_data : parser (Z * (Z * list Z)) :=
  parse_then parse_uint32 (parse_then parse_uint32 (parse_last parse_string)).

Definition extended_data_received (w : world E) (channel_number type : Z) (data : list Z) : result (world E) :=
  channel ← ssh_connection_lookup_channel (w_conn w) channel_number CHANNEL_ALLOC_ACTIVE;
  match channel with
  | Some p =>
      if negb (type =? SSH_EXTENDED_DATA_STDERR) then Ok w
      else '(w, _) ← receive_data_common w p CHANNEL_STDERR_DATA (lenZ data) data; Ok w
  | None => Ok w
  end.

Definition handle_channel_extended_data (w : world E) (b : simple_buffer) : result (world E) :=
  '(_, r) ← parse_extended_data b;
  match r with
  | Some (channel_number, (type, data)) => extended_data_received w channel_number type data
  | None => SSH_CONNECTION_ERROR w "Invalid CHANNEL_EXTENDED_DATA message."
  end.

(** ** End of file and close *)

Definition parse_number : parser Z :=
  parse_last parse_uint32.

Definition eof_received (w : world E) (channel_number : Z) : result (world E) :=
  channel ← ssh_connection_lookup_channel (w_conn w) channel_number CHANNEL_ALLOC_ACTIVE;
  match channel with
  | Some p =>
      ch ← get_channel w p;
      if flagged ch (Z.lor CHANNEL_RECEIVED_EOF CHANNEL_RECEIVED_CLOSE) then
        SSH_CONNECTION_ERROR w "Received EOF on channel on closed channel."
      else
        w ← m_event p CHANNEL_EVENT_EOF (with_channel w p (add_flag ch CHANNEL_RECEIVED_EOF));
        channel_maybe_close w p
  | None => SSH_CONNECTION_ERROR w "EOF on non-existant channel"
  end.

Definition handle_channel_eof (w : world E) (b : simple_buffer) : result (world E) :=
  '(_, r) ← parse_number b;
  match r with
  | Some channel_number => eof_received w channel_number
  | None => SSH_CONNECTION_ERROR w "Invalid CHANNEL_EOF message"
  end.

Definition close_received (w : world E) (channel_number : Z) : result (world E) :=
  channel ← ssh_connection_lookup_channel (w_conn w) channel_number CHANNEL_ALLOC_ACTIVE;
  match channel with
  | Some p =>
      ch ← get_channel w p;
      if flagged ch CHANNEL_RECEIVED_CLOSE then
        SSH_CONNECTION_ERROR w "Receiving multiple CLOSE on channel."
      else
        w ← m_event p CHANNEL_EVENT_CLOSE (with_channel w p (add_flag ch CHANNEL_RECEIVED_CLOSE));
        ch ← get_channel w p;
        if flagged ch CHANNEL_SENT_CLOSE then channel_finished w p else channel_close w p
  | None => SSH_CONNECTION_ERROR w "CLOSE on non-existant channel"
  end.

Definition handle_channel_close (w : world E) (b : simple_buffer) : result (world E) :=
  '(_, r) ← parse_number b;
  match r with
  | Some channel_number => close_received w channel_number
  | None => SSH_CONNECTION_ERROR w "Invalid CHANNEL_CLOSE message"
  end.

(** ** Replies to channel requests *)

Definition request_replied (w : world E) (channel_number : Z) (event : channel_event) (msg : string)
  : result (world E) :=
  channel ← ssh_connection_lookup_channel (w_conn w) channel_number CHANNEL_ALLOC_ACTIVE;
  match channel with
  | Some p =>
      ch ← get_channel w p;
      if negb (c_true (ch_pending_requests ch)) then Ok w
      else m_event p event (with_channel w p (set_pending ch (u32 (ch_pending_requests ch - 1))))
  | None => SSH_CONNECTION_ERROR w msg
  end.

Definition channel_reply (w : world E) (b : simple_buffer) (event : channel_event) (msg : string)
  : result (world E) :=
  '(_, r) ← parse_number b;
  match r with
  | Some channel_number => request_replied w channel_number event msg
  | None => SSH_CONNECTION_ERROR w msg
  end.

Definition handle_channel_success (w : world E) (b : simple_buffer) : result (world E) :=
  channel_reply w b CHANNEL_EVENT_SUCCESS "Invalid CHANNEL_SUCCESS message".

Definition handle_channel_failure (w : world E) (b : simple_buffer) : result (world E) :=
  channel_reply w b CHANNEL_EVENT_FAILURE "Invalid CHANNEL_FAILURE message.".

(** ** Dispatch *)

Definition message_handler (msg : Z) : option (world E → simple_buffer → result (world E)) :=
  if msg =? SSH_MSG_GLOBAL_REQUEST then Some handle_global_request
  else if msg =? SSH_MSG_REQUEST_SUCCESS then Some handle_global_success
  else if msg =? SSH_MSG_REQUEST_FAILURE then Some handle_global_failure
  else if msg =? SSH_MSG_CHANNEL_OPEN then Some handle_channel_open
  else if msg =? SSH_MSG_CHANNEL_OPEN_CONFIRMATION then Some handle_open_confirm
  else if msg =? SSH_MSG_CHANNEL_OPEN_FAILURE then Some handle_open_failure
  else if msg =? SSH_MSG_CHANNEL_WINDOW_ADJUST then Some handle_adjust_window
  else if msg =? SSH_MSG_CHANNEL_DATA then Some handle_channel_data
  else if msg =? SSH_MSG_CHANNEL_EXTENDED_DATA then Some handle_channel_extended_data
  else if msg =? SSH_MSG_CHANNEL_EOF then Some handle_channel_eof
  else if msg =? SSH_MSG_CHANNEL_CLOSE then Some handle_channel_close
  else if msg =? SSH_MSG_CHANNEL_REQUEST then Some handle_channel_request
  else if msg =? SSH_MSG_CHANNEL_SUCCESS then Some handle_channel_success
  else if msg =? SSH_MSG_CHANNEL_FAILURE then Some handle_channel_failure
  else None.

(** Zero for a message number that is not implemented. *)
Definition channel_packet_handler (w : world E) (length : Z) (packet : list Z)
  : result (world E * Z) :=
  '(b, msg) ← parse_uint8 (simple_buffer_init length packet);
  match msg with
  | None => c_fatal
  | Some msg =>
      match message_handler msg with
      | None => Ok (w, 0)
      | Some handle => w ← handle w b; Ok (w, 1)
      end
  end.

(** ** Sending *)

Definition channel_transmit_data (w : world E) (p : ptr) (length : Z) (data : list Z)
  : result (world E) :=
  ch ← get_channel w p;
  _ ← c_assert (length <=? ch_send_window_size ch);
  _ ← c_assert (length <=? ch_send_max_packet ch);
  let w := with_channel w p
    (set_send ch (ch_remote_channel_number ch) (u32 (ch_send_window_size ch - length)) (ch_send_max_packet ch)) in
  channel_write w p (format_channel_data (ch_remote_channel_number ch) length data).

Definition channel_transmit_extended (w : world E) (p : ptr) (type length : Z) (data : list Z)
  : result (world E) :=
  ch ← get_channel w p;
  _ ← c_assert (length <=? ch_send_window_size ch);
  _ ← c_assert (length <=? ch_send_max_packet ch);
  let w := with_channel w p
    (set_send ch (ch_remote_channel_number ch) (u32 (ch_send_window_size ch - length)) (ch_send_max_packet ch)) in
  channel_write w p (format_channel_extended_data (ch_remote_channel_number ch) type length data).

(** Zero when all channel numbers are taken. *)
Definition channel_open_new_type (w : world E) (p : ptr) (type_length : Z) (type : list Z)
  (f : string) (args : list farg) : result (world E * Z) :=
  '(c, index) ← ssh_connection_alloc_channel (w_conn w) CHANNEL_ALLOC_SENT_OPEN;
  let w := with_conn w c in
  if index <? 0 then Ok (w, 0)
  else
    w ← ssh_connection_register_channel w index p;
    ch ← get_channel w p;
    let ch := check_rec_max_packet ch in
    let w := with_channel w p ch in
    request ← format_two "%c%s%i%i%i"
      [FInt SSH_MSG_CHANNEL_OPEN; FInt type_length; FBytes type; FInt (ch_local_channel_number ch);
       FInt (ch_rec_window_size ch); FInt (ch_rec_max_packet ch)] f args;
    w ← m_write request w;
    Ok (w, 1).

Definition channel_send_request (w : world E) (p : ptr) (type_length : Z) (type : list Z)
  (want_reply : Z) (f : string) (args : list farg) : result (world E * Z) :=
  ch ← get_channel w p;
  if flagged ch CHANNEL_SENT_CLOSE then Ok (w, 0)
  else
    w ← channel_write w p (format_two "%c%i%s%c"
      [FInt SSH_MSG_CHANNEL_REQUEST; FInt (ch_remote_channel_number ch); FInt type_length;
       FBytes type; FInt want_reply] f args);
    if c_true want_reply then
      ch ← get_channel w p;
      Ok (with_channel w p (set_pending ch (u32 (ch_pending_requests ch + 1))), 1)
    else Ok (w, 1).

Definition channel_send_global_request (w : world E) (type : Z) (state : option ptr)
  (f : string) (args : list farg) : result (world E) :=
  let want_reply := c_int (bool_decide (state ≠ None)) in
  w ← connection_write w (format_two "%c%a%c"
    [FInt SSH_MSG_GLOBAL_REQUEST; FInt type; FInt want_reply] f args);
  match state with
  | Some s =>
      Ok (with_conn w (with_pending_requests (w_conn w) (cn_pending_global_requests (w_conn w) ++ [s])))
  | None => Ok w
  end.

(** ** Operations on all channels ([connection.c]) *)

Definition ssh_connection_pending_close (w : world E) : result (world E) :=
  let w := with_conn w (with_pending_close (w_conn w)) in
  if negb (c_true (cn_channel_count (w_conn w))) then m_kill_connection w else Ok w.

(** [used_channels] is read again in every round, since [f] may open
    channels; [max_channels] rounds suffice. *)
Fixpoint foreach_loop (fuel : nat) (f : ptr → world E → result (world E)) (i : Z) (w : world E)
  : result (world E) :=
  match fuel with
  | O => Fault NonTermination
  | S fuel =>
      if i <? cn_used_channels (w_conn w) then
        s ← cell (cn_alloc_state (w_conn w)) i;
        w ← (if bool_decide (s = CHANNEL_ALLOC_ACTIVE) then
               channel ← cell (cn_channels (w_conn w)) i;
               match channel with
               | Some p => f p w
               | None => Fault AssertFailed
               end
             else Ok w);
        foreach_loop fuel f (i + 1) w
      else Ok w
  end.

Definition ssh_connection_foreach (w : world E) (f : ptr → world E → result (world E))
  : result (world E) :=
  foreach_loop (S (Z.to_nat (cn_max_channels (w_conn w)))) f 0 w.

Definition send_stop (p : ptr) (w : world E) : result (world E) := m_event p CHANNEL_EVENT_STOP w.
Definition send_start (p : ptr) (w : world E) : result (world E) := m_event p CHANNEL_EVENT_START w.

Definition ssh_connection_stop_channels (w : world E) : result (world E) :=
  ssh_connection_foreach w send_stop.
Definition ssh_connection_start_channels (w : world E) : result (world E) :=
  ssh_connection_foreach w send_start.

End channel.
