(* ===== verification/ChannelFormat.v ===== *)
(** * Layout of the connection protocol messages

    What the formatting functions of [channel.c] write, as octets. *)

From S2P Require Import Prelude Ssh Nettle Atoms LshString Format FormatSpec Wire Parse Connection Channel.
Local Open Scope Z_scope.

Section formats.
Context `{MallocOk} `{NettleMacrosOk} `{NettleBignumOk} `{AtomTableOk}.

Lemma format_channel_data_spec n d :
  is_u32 n → Forall is_byte d → lenZ d < 2 ^ 32 - 9 →
  formats (format_channel_data n (lenZ d) d) (SSH_MSG_CHANNEL_DATA :: be32 n ++ wire_string d).
Proof.
  intros Hn Hd Hl. pose proof (lenZ_nonneg d). eapply formats_spec.
  - unfold spec_format. cbn -[be32 u32 u8]. rewrite (u32_id (lenZ d)) by len_lia.
    by rewrite (proj2 (Z.ltb_ge _ _)) by lia.
  - cbn -[be32]. unfold with_header. by rewrite (u32_id n), slice_all, !app_nil_r.
  - by repeat constructor.
  - rewrite lenZ_cons, lenZ_app, lenZ_wire_string, lenZ_be32. lia.
Qed.

Lemma format_channel_extended_data_spec n type d :
  is_u32 n → is_u32 type → Forall is_byte d → lenZ d < 2 ^ 32 - 13 →
  formats (format_channel_extended_data n type (lenZ d) d)
    (SSH_MSG_CHANNEL_EXTENDED_DATA :: be32 n ++ be32 type ++ wire_string d).
Proof.
  intros Hn Ht Hd Hl. pose proof (lenZ_nonneg d). eapply formats_spec.
  - unfold spec_format. cbn -[be32 u32 u8]. rewrite (u32_id (lenZ d)) by len_lia.
    by rewrite (proj2 (Z.ltb_ge _ _)) by lia.
  - cbn -[be32]. unfold with_header. by rewrite (u32_id n), (u32_id type), slice_all, !app_nil_r.
  - by repeat constructor.
  - rewrite lenZ_cons, !lenZ_app, lenZ_wire_string, !lenZ_be32. lia.
Qed.

Lemma format_open_failure_spec n reason msg lang :
  is_u32 n → is_u32 reason → Forall is_byte msg → Forall is_byte lang → lenZ msg + lenZ lang < 2 ^ 31 →
  formats (format_open_failure n reason msg lang)
    (SSH_MSG_CHANNEL_OPEN_FAILURE :: be32 n ++ be32 reason ++ wire_string msg ++ wire_string lang).
Proof.
  intros Hn Hr Hm Hg Hl. pose proof (lenZ_nonneg msg). pose proof (lenZ_nonneg lang). eapply formats_spec.
  - unfold spec_format. cbn -[be32 u32 u8 UINT32_MAX]. unfold UINT32_MAX.
    rewrite (proj2 (Z.ltb_ge _ (lenZ msg))) by lia. cbn -[be32 u32 u8].
    by rewrite (proj2 (Z.ltb_ge _ (lenZ lang))) by lia.
  - cbn -[be32]. unfold with_header. by rewrite (u32_id n), (u32_id reason), !slice_all, !app_nil_r.
  - by repeat constructor.
  - rewrite lenZ_cons, !lenZ_app, !lenZ_wire_string, !lenZ_be32. lia.
Qed.

(** The two parts of a message with a tail given by the caller. *)
Lemma format_two_spec f1 args1 ps1 bs1 f2 args2 ps2 bs2 :
  spec_format f1 args1 = Some ps1 → pbytes ps1 = Some bs1 → Forall farg_ok args1 →
  spec_format f2 args2 = Some ps2 → pbytes ps2 = Some bs2 → Forall farg_ok args2 →
  lenZ bs1 + lenZ bs2 < 2 ^ 32 →
  formats (format_two f1 args1 f2 args2) (bs1 ++ bs2).
Proof.
  intros Hs1 Hb1 Ha1 Hs2 Hb2 Ha2 Hl. pose proof (lenZ_nonneg bs1). pose proof (lenZ_nonneg bs2).
  assert (∀ f args ps bs, spec_format f args = Some ps → pbytes ps = Some bs → psize ps = lenZ bs) as Hps.
  { intros f args ps bs Hs Hb. pose proof (psize_nonneg_loop _ _ _ _ Hs).
    destruct (fill_pbytes 0 ps bs (replicate (Z.to_nat (psize ps)) 0)) as [? _]; auto; [lia |].
    rewrite lenZ_replicate. lia. }
  pose proof (Hps _ _ _ _ Hs1 Hb1) as Hp1. pose proof (Hps _ _ _ _ Hs2 Hb2) as Hp2.
  unfold formats, format_two.
  rewrite (ssh_vformat_length_spec _ _ _ Hs1 Ha1), (ssh_vformat_length_spec _ _ _ Hs2 Ha2) by lia.
  rewrite !bind_ok_l, Hp1, Hp2. cbv zeta. rewrite u32_id by len_lia.
  assert (lsh_string_wf (lsh_string_alloc (lenZ bs1 + lenZ bs2))) as Hw by (apply lsh_string_alloc_wf; len_lia).
  destruct (ssh_vformat_write_spec f1 args1 ps1 _ 0 Hs1 Ha1 Hw) as (s1 & -> & Hw1 & Hl1 & Hc1); [lia | simpl; lia |].
  rewrite bind_ok_l.
  destruct (ssh_vformat_write_spec f2 args2 ps2 s1 (lenZ bs1) Hs2 Ha2 Hw1) as (s2 & -> & Hw2 & Hl2 & Hc2);
    [lia | rewrite Hl1; simpl; lia |].
  rewrite bind_ok_l. apply returns_ok. split; [done |]. rewrite Hc2.
  pose proof (lenZ_contents _ Hw1) as Hlc1. pose proof (lenZ_contents _ Hw) as Hlc. rewrite Hl1 in Hlc1. simpl in *.
  destruct (fill_pbytes (lenZ bs1) ps2 bs2 (contents s1)) as [_ ->]; [done | lia | lia |].
  destruct (fill_pbytes 0 ps1 bs1 (contents (lsh_string_alloc (lenZ bs1 + lenZ bs2)))) as [_ Hf]; [done | lia | lia |].
  rewrite Hc1, Hf. rewrite <- (Z.add_0_l (lenZ bs1)) at 1. rewrite splice_splice by lia.
  apply splice_whole. rewrite lenZ_app. lia.
Qed.

Lemma format_empty_spec : spec_format "" [] = Some [] ∧ pbytes [] = Some [].
Proof. done. Qed.

Lemma format_open_confirmation_spec ch :
  is_u32 (ch_remote_channel_number ch) → is_u32 (ch_local_channel_number ch) →
  is_u32 (ch_rec_window_size ch) → is_u32 (ch_rec_max_packet ch) →
  returns (format_open_confirmation ch "" []) (λ '(ch', s), ch' = check_rec_max_packet ch ∧ lsh_string_wf s
    ∧ contents s = SSH_MSG_CHANNEL_OPEN_CONFIRMATION :: be32 (ch_remote_channel_number ch)
        ++ be32 (ch_local_channel_number ch) ++ be32 (ch_rec_window_size ch)
        ++ be32 (Z.min (ch_rec_max_packet ch) SSH_MAX_DATA_SIZE)).
Proof.
  intros Hr Hl Hw Hm. unfold format_open_confirmation.
  assert (ch_remote_channel_number (check_rec_max_packet ch) = ch_remote_channel_number ch
    ∧ ch_local_channel_number (check_rec_max_packet ch) = ch_local_channel_number ch
    ∧ ch_rec_window_size (check_rec_max_packet ch) = ch_rec_window_size ch
    ∧ ch_rec_max_packet (check_rec_max_packet ch) = Z.min (ch_rec_max_packet ch) SSH_MAX_DATA_SIZE) as (-> & -> & -> & ->).
  { unfold check_rec_max_packet. case_bool; simpl; split_and!; try done; lia. }
  assert (is_u32 (Z.min (ch_rec_max_packet ch) SSH_MAX_DATA_SIZE)) as Hmin
    by (unfold is_u32, SSH_MAX_DATA_SIZE, SSH_MAX_PACKET, SSH_CHANNEL_MAX_PACKET_FUZZ in *; lia).
  eapply returns_bind.
  - eapply format_two_spec; [done | | by repeat constructor | apply format_empty_spec | apply format_empty_spec | done |].
    + cbn -[be32]. by rewrite !u32_id.
    + autorewrite with lsh. done.
  - intros s [Hs Hc]. apply returns_ok. split; [done |]. split; [done |]. by rewrite Hc, !app_nil_r.
Qed.

End formats.
