(* ===== verification/ChannelSpec.v ===== *)
(** * Invariant of the connection layer, and its contract with the program
      around it

    The connection layer and its callbacks call each other.  What one may
    rely on across a call of the other is: the invariant [world_wf], and
    [evolves], the ways in which channels may change.  [MethodsOk] states
    that the methods keep to this; the lemmas here show that the functions
    of [channel.c] do as well, so that methods may be built from them. *)

From S2P Require Import Prelude Ssh Nettle Atoms LshString Format FormatSpec Wire Parse ParseSpec Connection Channel ChannelFormat.
Local Open Scope Z_scope.

(** ** Flags *)

Definition subflags (f f' : Z) : Prop := ∀ i, 0 <= i → Z.testbit f i = true → Z.testbit f' i = true.

#[global] Instance subflags_preorder : PreOrder subflags.
Proof. split; [by intros f i | intros f g h Hfg Hgh i Hi Hf; auto]. Qed.

Lemma flagged_mono ch ch' mask :
  subflags (ch_flags ch) (ch_flags ch') → flagged ch mask = true → flagged ch' mask = true.
Proof.
  intros Hsub. unfold flagged, c_true. rewrite !negb_true_iff, !Z.eqb_neq. intros Hf H0. apply Hf.
  apply Z.bits_inj'. intros i Hi. rewrite Z.bits_0. apply (f_equal (λ z, Z.testbit z i)) in H0.
  rewrite Z.land_spec in *. rewrite Z.bits_0 in H0.
  destruct (Z.testbit (ch_flags ch) i) eqn:Hb; [| done]. by rewrite (Hsub i Hi Hb) in H0.
Qed.

Lemma add_flag_sub ch flag : subflags (ch_flags ch) (ch_flags (add_flag ch flag)).
Proof. intros i Hi Hb. simpl. by rewrite Z.lor_spec, Hb. Qed.

Lemma add_flag_same ch flag : flag ≠ 0 → flagged (add_flag ch flag) flag = true.
Proof.
  intros Hf. unfold flagged, c_true. simpl.
  replace (Z.land (Z.lor (ch_flags ch) flag) flag) with flag.
  - by rewrite negb_true_iff, Z.eqb_neq.
  - apply Z.bits_inj'. intros i _. rewrite Z.land_spec, Z.lor_spec. by destruct (Z.testbit (ch_flags ch) i), (Z.testbit flag i).
Qed.

Lemma add_flag_other ch flag mask : Z.land flag mask = 0 → flagged (add_flag ch flag) mask = flagged ch mask.
Proof. intros Hf. unfold flagged. simpl. by rewrite Z.land_lor_distr_l, Hf, Z.lor_0_r. Qed.

(** ** Invariant *)

Record channel_ok (ch : ssh_channel) : Prop := {
  co_local : is_u32 (ch_local_channel_number ch);
  co_remote : is_u32 (ch_remote_channel_number ch);
  co_rec_window : is_u32 (ch_rec_window_size ch);
  co_rec_max : is_u32 (ch_rec_max_packet ch);
  co_send_window : is_u32 (ch_send_window_size ch);
  co_send_max : is_u32 (ch_send_max_packet ch);
}.

(** The table is well formed; a number that is open or being opened by us has
    a channel; and the back pointers of the channels agree with the table. *)
Record world_wf {E} (w : world E) : Prop := {
  wf_conn : conn_wf (w_conn w);
  wf_live n :
    number_state (w_conn w) n = CHANNEL_ALLOC_SENT_OPEN ∨ number_state (w_conn w) n = CHANNEL_ALLOC_ACTIVE →
    number_channel (w_conn w) n ≠ None;
  wf_slot n p :
    number_channel (w_conn w) n = Some p →
    ∃ ch, w_heap w !! p = Some ch ∧ ch_connection ch = true ∧ ch_local_channel_number ch = Z.of_nat n;
  wf_linked p ch :
    w_heap w !! p = Some ch → ch_connection ch = true →
    number_channel (w_conn w) (Z.to_nat (ch_local_channel_number ch)) = Some p;
  wf_heap p ch : w_heap w !! p = Some ch → channel_ok ch;
}.

(** ** What may happen to a channel during a call

    It is not revived, flags are not cleared, and a channel in the table
    stays there under its number unless the close handshake has ended. *)

Record follows (ch ch' : ssh_channel) : Prop := {
  fo_alive : ch_alive ch' = true → ch_alive ch = true;
  fo_flags : subflags (ch_flags ch) (ch_flags ch');
  fo_link : ch_connection ch = true →
    (ch_connection ch' = true ∧ ch_local_channel_number ch' = ch_local_channel_number ch)
    ∨ (ch_alive ch' = false ∧ flagged ch' CHANNEL_SENT_CLOSE = true);
}.

#[global] Instance follows_preorder : PreOrder follows.
Proof.
  split.
  - intros ch. split; [done | done | by left].
  - intros a b c [Hab1 Hab2 Hab3] [Hbc1 Hbc2 Hbc3]. split; [auto | by transitivity (ch_flags b) |].
    intros Ha. destruct (Hab3 Ha) as [[Hb Hl] | [Hd Hf]].
    + destruct (Hbc3 Hb) as [[Hc Hl'] | Hc]; [left | by right]. split; [done | congruence].
    + right. split; [| by apply (flagged_mono b)]. destruct (ch_alive c) eqn:Hc; [| done].
      rewrite Hbc1 in Hd; done.
Qed.

Definition evolves {E} (w w' : world E) : Prop :=
  ∀ p ch, w_heap w !! p = Some ch → ∃ ch', w_heap w' !! p = Some ch' ∧ follows ch ch'.

#[global] Instance evolves_preorder {E} : PreOrder (@evolves E).
Proof.
  split.
  - intros w p ch Hp. exists ch. split; [done | reflexivity].
  - intros a b c Hab Hbc p ch Hp. destruct (Hab p ch Hp) as (ch1 & Hp1 & H1).
    destruct (Hbc p ch1 Hp1) as (ch2 & Hp2 & H2). exists ch2. split; [done |]. by transitivity ch1.
Qed.

(** A call that returns in a well-formed world, having kept to the rules. *)
Definition steps {E} (w : world E) (r : result (world E)) : Prop :=
  returns r (λ w', world_wf w' ∧ evolves w w').

Lemma steps_bind {E} (w : world E) (m : result (world E)) (k : world E → result (world E)) :
  steps w m → (∀ w', world_wf w' → evolves w w' → steps w' (k w')) → steps w (m ≫= k).
Proof.
  intros Hm Hk. eapply returns_bind; [exact Hm |]. intros w' [Hw' He].
  eapply returns_weaken; [by apply Hk |]. intros w2 [Hw2 He2]. split; [done |]. by transitivity w'.
Qed.

Lemma steps_ok {E} (w : world E) : world_wf w → steps w (Ok w).
Proof. intros Hw. by apply returns_ok. Qed.

(** Starting after an update that keeps to the rules. *)
Lemma steps_after {E} (w w' : world E) r : evolves w w' → steps w' r → steps w r.
Proof.
  intros He Hs. eapply returns_weaken; [exact Hs |]. intros w2 [Hw2 He2]. split; [done |]. by transitivity w'.
Qed.

(** The number an open request was given. *)
Definition reserved {E} (w : world E) (info : channel_open_info) : Prop :=
  ∃ n, oi_local_channel_number info = Z.of_nat n
    ∧ number_state (w_conn w) n = CHANNEL_ALLOC_RECEIVED_OPEN ∧ number_channel (w_conn w) n = None.

Record info_ok (info : channel_open_info) : Prop := {
  io_local : is_u32 (oi_local_channel_number info);
  io_remote : is_u32 (oi_remote_channel_number info);
  io_window : is_u32 (oi_send_window_size info);
  io_max : is_u32 (oi_send_max_packet info) ∧ oi_send_max_packet info <= SSH_MAX_PACKET;
}.

(** ** The contract of the methods *)

Class MethodsOk (E : Type) `{!Methods E} : Prop := {
  write_ok w s : world_wf w → lsh_string_wf s → steps w (m_write s w);
  disconnect_ok w reason msg : world_wf w → steps w (m_disconnect reason msg w);
  kill_connection_ok w : world_wf w → steps w (m_kill_connection w);
  (** [kill] marks the channel dead and leaves it in the table. *)
  kill_channel_ok w p ch :
    world_wf w → w_heap w !! p = Some ch →
    returns (m_kill_channel p w) (λ w', world_wf w' ∧ evolves w w' ∧
      ∃ ch', w_heap w' !! p = Some ch' ∧ ch_alive ch' = false
             ∧ ch_connection ch' = ch_connection ch
             ∧ ch_local_channel_number ch' = ch_local_channel_number ch);
  event_ok w p ch event : world_wf w → w_heap w !! p = Some ch → steps w (m_event p event w);
  receive_ok w p ch type data :
    world_wf w → w_heap w !! p = Some ch → Forall is_byte data → steps w (m_receive p type data w);
  send_adjust_ok w p ch increment :
    world_wf w → w_heap w !! p = Some ch → steps w (m_send_adjust p increment w);
  channel_request_ok w h p ch info b :
    world_wf w → w_heap w !! p = Some ch → buffer_wf b → steps w (m_channel_request h p info b w);
  global_request_ok w h info b :
    world_wf w → buffer_wf b → steps w (m_global_request h info b w);
  channel_open_ok w h info b :
    world_wf w → reserved w info → info_ok info → buffer_wf b → steps w (m_channel_open h info b w);
  request_done_ok w s result : world_wf w → steps w (m_request_done s result w);
}.

(** ** Updates *)

Section updates.
Context {E : Type}.
Implicit Types w : world E.

Lemma get_channel_ok w p ch : w_heap w !! p = Some ch → get_channel w p = Ok ch.
Proof. unfold get_channel. by intros ->. Qed.

Lemma with_channel_lookup w p ch : w_heap (with_channel w p ch) !! p = Some ch.
Proof. apply lookup_insert_eq. Qed.

(** Changing fields other than the link. *)
Lemma update_wf w p ch ch' :
  world_wf w → w_heap w !! p = Some ch → ch_connection ch' = ch_connection ch →
  ch_local_channel_number ch' = ch_local_channel_number ch → channel_ok ch' →
  world_wf (with_channel w p ch').
Proof.
  intros [Hc Hlive Hslot Hlink Hheap] Hp Hcn Hln Hok. split; simpl; [done | done | | |].
  - intros n q Hq. destruct (Hslot n q Hq) as (chq & Hhq & Hcq & Hlq).
    destruct (decide (q = p)) as [-> | Hne].
    + rewrite Hp in Hhq. injection Hhq as <-. exists ch'. rewrite lookup_insert_eq. split; [done |]. split; congruence.
    + exists chq. by rewrite lookup_insert_ne by done.
  - intros q chq Hq Hcq. destruct (decide (q = p)) as [-> | Hne].
    + rewrite lookup_insert_eq in Hq. injection Hq as <-. rewrite Hln. apply (Hlink p ch Hp). congruence.
    + rewrite lookup_insert_ne in Hq by done. by apply Hlink.
  - intros q chq Hq. destruct (decide (q = p)) as [-> | Hne].
    + rewrite lookup_insert_eq in Hq. by injection Hq as <-.
    + rewrite lookup_insert_ne in Hq by done. by apply (Hheap q).
Qed.

Lemma update_evolves w p ch ch' :
  w_heap w !! p = Some ch → follows ch ch' → evolves w (with_channel w p ch').
Proof.
  intros Hp Hf q chq Hq. simpl. destruct (decide (q = p)) as [-> | Hne].
  - rewrite Hp in Hq. injection Hq as <-. exists ch'. by rewrite lookup_insert_eq.
  - exists chq. rewrite lookup_insert_ne by done. split; [done | reflexivity].
Qed.

(** The connection changed, but not its table. *)
Lemma conn_fields_wf w c :
  world_wf w → conn_wf c → (∀ n, number_state c n = number_state (w_conn w) n) →
  (∀ n, number_channel c n = number_channel (w_conn w) n) → world_wf (with_conn w c).
Proof.
  intros [Hc Hlive Hslot Hlink Hheap] Hcw Hs Hch. split; simpl; [done | | | | done].
  - intros n. rewrite Hs, Hch. apply Hlive.
  - intros n p. rewrite Hch. apply Hslot.
  - intros p ch Hp Hcn. rewrite Hch. by apply Hlink.
Qed.

Lemma with_resources_wf w r : world_wf w → world_wf (with_conn w (with_resources (w_conn w) r)).
Proof.
  intros Hw. apply conn_fields_wf; [done | | done | done].
  destruct (wf_conn _ Hw) as (st & ch & []). exists st, ch. by split.
Qed.

Lemma with_pending_close_wf w : world_wf w → world_wf (with_conn w (with_pending_close (w_conn w))).
Proof.
  intros Hw. apply conn_fields_wf; [done | | done | done].
  destruct (wf_conn _ Hw) as (st & ch & []). exists st, ch. by split.
Qed.

Lemma with_pending_requests_wf w q : world_wf w → world_wf (with_conn w (with_pending_requests (w_conn w) q)).
Proof.
  intros Hw. apply conn_fields_wf; [done | | done | done].
  destruct (wf_conn _ Hw) as (st & ch & []). exists st, ch. by split.
Qed.

Lemma with_conn_evolves w c : evolves w (with_conn w c).
Proof. intros p ch Hp. exists ch. split; [done | reflexivity]. Qed.

(** The number of a linked channel is in use. *)
Lemma linked_busy w p ch :
  world_wf w → w_heap w !! p = Some ch → ch_connection ch = true →
  number_state (w_conn w) (Z.to_nat (ch_local_channel_number ch)) ≠ CHANNEL_FREE.
Proof.
  intros Hw Hp Hc Hfree. pose proof (wf_linked _ Hw p ch Hp Hc) as Hn.
  rewrite (number_free _ _ (wf_conn _ Hw) Hfree) in Hn. done.
Qed.

(** A linked channel leaves the table. *)
Lemma detach_wf w p ch c n :
  world_wf w → w_heap w !! p = Some ch → ch_connection ch = true → ch_local_channel_number ch = Z.of_nat n →
  renumbered (w_conn w) c n CHANNEL_FREE None →
  world_wf (with_conn (with_channel w p (set_link ch false (Z.of_nat n))) c).
Proof.
  intros [Hc Hlive Hslot Hlink Hheap] Hp Hcn Hn [Hcw Hrs Hrc _]. split; simpl; [done | | | |].
  - intros m. rewrite Hrs, Hrc. case_decide; [by intros [|] | apply Hlive].
  - intros m q. rewrite Hrc. case_decide as Hd; [done |]. intros Hq.
    destruct (Hslot m q Hq) as (chq & Hhq & Hcq & Hlq). exists chq.
    rewrite lookup_insert_ne; [done |]. intros <-. rewrite Hp in Hhq. injection Hhq as <-. lia.
  - intros q chq Hq Hcq. destruct (decide (q = p)) as [-> | Hne].
    + rewrite lookup_insert_eq in Hq. injection Hq as <-. done.
    + rewrite lookup_insert_ne in Hq by done. rewrite Hrc. case_decide as Hd; [| by apply Hlink].
      pose proof (Hlink q chq Hq Hcq) as Hl. rewrite Hd in Hl.
      pose proof (Hlink p ch Hp Hcn) as Hl'. rewrite Hn, Nat2Z.id in Hl'. congruence.
  - intros q chq Hq. destruct (decide (q = p)) as [-> | Hne].
    + rewrite lookup_insert_eq in Hq. injection Hq as <-. destruct (Hheap p ch Hp). split; try done. by rewrite <- Hn.
    + rewrite lookup_insert_ne in Hq by done. by apply (Hheap q).
Qed.

(** A channel enters the table under a number that had none. *)
Lemma attach_wf w p ch c n st :
  world_wf w → w_heap w !! p = Some ch → ch_connection ch = false →
  Z.of_nat n < MAX_CHANNELS → number_channel (w_conn w) n = None → conn_wf c →
  (∀ m, number_state c m = if decide (m = n) then st else number_state (w_conn w) m) →
  (∀ m, number_channel c m = if decide (m = n) then Some p else number_channel (w_conn w) m) →
  world_wf (with_channel (with_conn w c) p (set_link ch true (Z.of_nat n))).
Proof.
  intros [Hc Hlive Hslot Hlink Hheap] Hp Hcn Hmax Hnone Hcw Hrs Hrc. split; simpl; [done | | | |].
  - intros m. rewrite Hrs, Hrc. case_decide as Hd; [done | apply Hlive].
  - intros m q. rewrite Hrc. case_decide as Hd.
    + intros [= <-]. exists (set_link ch true (Z.of_nat n)). rewrite lookup_insert_eq. by subst m.
    + intros Hq. destruct (Hslot m q Hq) as (chq & Hhq & Hcq & Hlq). exists chq.
      rewrite lookup_insert_ne; [done |]. intros <-. congruence.
  - intros q chq Hq Hcq. destruct (decide (q = p)) as [-> | Hne].
    + rewrite lookup_insert_eq in Hq. injection Hq as <-. simpl. rewrite Nat2Z.id, Hrc. by case_decide.
    + rewrite lookup_insert_ne in Hq by done. rewrite Hrc. case_decide as Hd; [| by apply Hlink].
      pose proof (Hlink q chq Hq Hcq) as Hl. rewrite Hd in Hl. congruence.
  - intros q chq Hq. destruct (decide (q = p)) as [-> | Hne].
    + rewrite lookup_insert_eq in Hq. injection Hq as <-. destruct (Hheap p ch Hp). split; try done.
      unfold is_u32, MAX_CHANNELS in *. simpl. lia.
    + rewrite lookup_insert_ne in Hq by done. by apply (Hheap q).
Qed.

End updates.

(** ** The functions of [channel.c] keep to the rules *)

Section api.
Context `{MallocOk} `{NettleMacrosOk} `{NettleBignumOk} `{AtomTableOk}.
Context {E : Type} `{HM : !Methods E} `{!MethodsOk E}.
Implicit Types w : world E.

Lemma set_link_ok ch b n : channel_ok ch → is_u32 n → channel_ok (set_link ch b n).
Proof. intros [] ?. by split. Qed.
Lemma set_flags_ok ch f : channel_ok ch → channel_ok (set_flags ch f).
Proof. intros []. by split. Qed.
Lemma set_receive_ok ch n m : channel_ok ch → is_u32 n → is_u32 m → channel_ok (set_receive_limits ch n m).
Proof. intros [] ? ?. by split. Qed.
Lemma set_send_ok ch r n m : channel_ok ch → is_u32 r → is_u32 n → is_u32 m → channel_ok (set_send ch r n m).
Proof. intros [] ? ? ?. by split. Qed.
Lemma set_pending_ok ch n : channel_ok ch → channel_ok (set_pending ch n).
Proof. intros []. by split. Qed.

Lemma add_flag_follows ch flag : follows ch (add_flag ch flag).
Proof. split; [done | apply add_flag_sub | by left]. Qed.
Lemma set_receive_follows ch n m : follows ch (set_receive_limits ch n m).
Proof. split; [done | done | by left]. Qed.
Lemma set_send_follows ch r n m : follows ch (set_send ch r n m).
Proof. split; [done | done | by left]. Qed.
Lemma set_pending_follows ch n : follows ch (set_pending ch n).
Proof. split; [done | done | by left]. Qed.
Lemma check_max_follows ch : follows ch (check_rec_max_packet ch).
Proof. unfold check_rec_max_packet. case_bool; [apply set_receive_follows | reflexivity]. Qed.

(** Continue after an update of one channel. *)
Lemma steps_update w p ch ch' r :
  world_wf w → w_heap w !! p = Some ch → ch_connection ch' = ch_connection ch →
  ch_local_channel_number ch' = ch_local_channel_number ch → channel_ok ch' → follows ch ch' →
  (world_wf (with_channel w p ch') → steps (with_channel w p ch') r) → steps w r.
Proof.
  intros Hw Hp Hc Hl Hok Hf Hr. eapply steps_after; [by apply (update_evolves w p ch) |].
  apply Hr. by apply (update_wf w p ch).
Qed.

Lemma connection_write_steps w m bs : world_wf w → formats m bs → steps w (connection_write w m).
Proof. intros Hw (s & -> & Hs & _). unfold connection_write. rewrite bind_ok_l. by apply write_ok. Qed.

Lemma channel_write_steps w p ch m bs :
  world_wf w → w_heap w !! p = Some ch → ch_connection ch = true → formats m bs → steps w (channel_write w p m).
Proof.
  intros Hw Hp Hc Hm. unfold channel_write. rewrite (get_channel_ok w p ch Hp), bind_ok_l, Hc.
  by apply (connection_write_steps w m bs).
Qed.

Lemma channel_finished_spec w p ch :
  world_wf w → w_heap w !! p = Some ch → (ch_alive ch = true → ch_connection ch = true) →
  returns (channel_finished w p) (λ w', world_wf w' ∧ (flagged ch CHANNEL_SENT_CLOSE = true → evolves w w')).
Proof.
  intros Hw Hp Hlinked. unfold channel_finished. rewrite (get_channel_ok w p ch Hp), bind_ok_l.
  destruct (ch_alive ch) eqn:Ha; simpl; [| by apply returns_ok]. rewrite (Hlinked eq_refl).
  eapply returns_bind; [by apply (kill_channel_ok w p ch) |].
  intros w1 (Hw1 & He1 & ch1 & Hp1 & Hd1 & Hc1 & Hl1). rewrite (get_channel_ok w1 p ch1 Hp1), bind_ok_l. simpl.
  rewrite (Hlinked eq_refl) in Hc1. pose proof (wf_heap _ Hw1 p ch1 Hp1) as Hok1.
  destruct (Z_of_nat_complete (ch_local_channel_number ch1)) as [n Hn]; [apply Hok1 |].
  pose proof (linked_busy w1 p ch1 Hw1 Hp1 Hc1) as Hbusy. rewrite Hn, Nat2Z.id in Hbusy.
  destruct (dealloc_channel_spec (w_conn w1) n (wf_conn _ Hw1) Hbusy) as (c & Hdealloc & Hr & _).
  rewrite Hn. rewrite Hdealloc, bind_ok_l.
  pose proof (detach_wf w1 p ch1 c n Hw1 Hp1 Hc1 Hn Hr) as Hw2. set (w2 := with_conn _ _) in *.
  assert (flagged ch CHANNEL_SENT_CLOSE = true → evolves w w2) as He2.
  { intros Hf. transitivity w1; [done |]. destruct (He1 p ch Hp) as (ch1' & Hp1' & Hfo).
    rewrite Hp1 in Hp1'. injection Hp1' as <-.
    apply (update_evolves w1 p ch1 _ Hp1). split; [done | done |]. intros _. right. split; [done |].
    by apply (flagged_mono ch), Hf; apply Hfo. }
  case_bool; [| by apply returns_ok].
  eapply returns_weaken; [by apply kill_connection_ok |]. intros w3 [Hw3 He3]. split; [done |].
  intros Hf. transitivity w2; [by apply He2 | done].
Qed.

Lemma channel_finished_steps w p ch :
  world_wf w → w_heap w !! p = Some ch → (ch_alive ch = true → ch_connection ch = true) →
  flagged ch CHANNEL_SENT_CLOSE = true → steps w (channel_finished w p).
Proof.
  intros Hw Hp Hl Hf. eapply returns_weaken; [by apply (channel_finished_spec w p ch) |].
  intros w' [Hw' He]. split; [done | by apply He].
Qed.

Lemma send_window_adjust_steps w p ch add :
  world_wf w → w_heap w !! p = Some ch → ch_connection ch = true → is_u32 add →
  steps w (send_window_adjust w p add).
Proof.
  intros Hw Hp Hc Hadd. unfold send_window_adjust. rewrite (get_channel_ok w p ch Hp), bind_ok_l. cbv zeta.
  pose proof (wf_heap _ Hw p ch Hp) as Hok. apply (steps_update w p ch (set_receive_limits ch (u32 (ch_rec_window_size ch + add)) (ch_rec_max_packet ch)));
    [done.. | | |].
  - apply set_receive_ok; [done | apply u32_range | apply Hok].
  - apply set_receive_follows.
  - intros Hw1. eapply channel_write_steps; [done | apply with_channel_lookup | done |].
    apply formats_number2; [done | apply Hok | done].
Qed.

Lemma channel_adjust_rec_window_steps w p ch written :
  world_wf w → w_heap w !! p = Some ch → is_u32 written →
  (flagged ch (Z.lor (Z.lor CHANNEL_RECEIVED_EOF CHANNEL_RECEIVED_CLOSE) CHANNEL_SENT_CLOSE) = false →
   ch_connection ch = true) →
  steps w (channel_adjust_rec_window w p written).
Proof.
  intros Hw Hp Hu Hc. unfold channel_adjust_rec_window. rewrite (get_channel_ok w p ch Hp), bind_ok_l.
  case_bool; [| by apply steps_ok]. apply andb_true_iff in Heqb as [_ Hf]. apply negb_true_iff in Hf.
  apply (send_window_adjust_steps w p ch); auto.
Qed.

Lemma channel_start_receive_steps w p ch size :
  world_wf w → w_heap w !! p = Some ch → ch_connection ch = true → is_u32 size →
  steps w (channel_start_receive w p size).
Proof.
  intros Hw Hp Hc Hs. unfold channel_start_receive. rewrite (get_channel_ok w p ch Hp), bind_ok_l.
  case_bool; [| by apply steps_ok]. apply (send_window_adjust_steps w p ch); [done.. |].
  pose proof (co_rec_window _ (wf_heap _ Hw p ch Hp)). unfold is_u32 in *. lia.
Qed.

Lemma channel_close_steps w p ch :
  world_wf w → w_heap w !! p = Some ch →
  (flagged ch CHANNEL_SENT_CLOSE = false → ch_connection ch = true) →
  steps w (channel_close w p).
Proof.
  intros Hw Hp Hc. unfold channel_close. rewrite (get_channel_ok w p ch Hp), bind_ok_l.
  destruct (flagged ch CHANNEL_SENT_CLOSE) eqn:Hf; [by apply steps_ok |]. specialize (Hc eq_refl).
  pose proof (wf_heap _ Hw p ch Hp) as Hok.
  apply (steps_update w p ch (add_flag ch CHANNEL_SENT_CLOSE)); [done.. | by apply set_flags_ok | apply add_flag_follows |].
  intros Hw1. set (ch1 := add_flag ch _) in *. set (w1 := with_channel w p ch1) in *.
  assert (w_heap w1 !! p = Some ch1) as Hp1 by apply with_channel_lookup.
  apply steps_bind.
  - apply (channel_write_steps w1 p ch1 _ (SSH_MSG_CHANNEL_CLOSE :: be32 (ch_remote_channel_number ch))); [done.. |].
    apply formats_number; [done | apply Hok].
  - intros w2 Hw2 He2. destruct (He2 p ch1 Hp1) as (ch2 & Hp2 & [Hal Hsub Hlink]).
    rewrite (get_channel_ok w2 p ch2 Hp2), bind_ok_l. case_bool; [| by apply steps_ok].
    apply (channel_finished_steps w2 p ch2); [done | done | |].
    + intros Hal2. destruct (Hlink Hc) as [[Hc2 _] | [Hd _]]; [done | congruence].
    + apply (flagged_mono ch1); [done |]. by apply add_flag_same.
Qed.

Lemma channel_maybe_close_steps w p ch :
  world_wf w → w_heap w !! p = Some ch →
  (flagged ch CHANNEL_SENT_CLOSE = false → ch_connection ch = true) →
  steps w (channel_maybe_close w p).
Proof.
  intros Hw Hp Hc. unfold channel_maybe_close. rewrite (get_channel_ok w p ch Hp), bind_ok_l.
  case_bool; [by apply (channel_close_steps w p ch) | by apply steps_ok].
Qed.

(** A linked channel after a call: still linked, unless it was closed. *)
Lemma link_after w w' p ch :
  evolves w w' → w_heap w !! p = Some ch → ch_connection ch = true →
  ∃ ch', w_heap w' !! p = Some ch' ∧ subflags (ch_flags ch) (ch_flags ch')
    ∧ (ch_alive ch' = true → ch_connection ch' = true)
    ∧ (flagged ch' CHANNEL_SENT_CLOSE = false → ch_connection ch' = true).
Proof.
  intros He Hp Hc. destruct (He p ch Hp) as (ch' & Hp' & [_ Hsub Hlink]). exists ch'.
  destruct (Hlink Hc) as [[Hc' _] | [Hd Hf]]; [done |]. split_and!; [done | done | congruence | congruence].
Qed.

Lemma channel_eof_steps w p ch :
  world_wf w → w_heap w !! p = Some ch → ch_connection ch = true → steps w (channel_eof w p).
Proof.
  intros Hw Hp Hc. unfold channel_eof. rewrite (get_channel_ok w p ch Hp), bind_ok_l.
  case_bool; [by apply steps_ok |]. pose proof (wf_heap _ Hw p ch Hp) as Hok.
  apply (steps_update w p ch (add_flag ch CHANNEL_SENT_EOF)); [done.. | by apply set_flags_ok | apply add_flag_follows |].
  intros Hw1. set (ch1 := add_flag ch _) in *. set (w1 := with_channel w p ch1) in *.
  assert (w_heap w1 !! p = Some ch1) as Hp1 by apply with_channel_lookup.
  apply steps_bind.
  - apply (channel_write_steps w1 p ch1 _ (SSH_MSG_CHANNEL_EOF :: be32 (ch_remote_channel_number ch))); [done.. |].
    apply formats_number; [done | apply Hok].
  - intros w2 Hw2 He2. destruct (link_after w1 w2 p ch1 He2 Hp1 Hc) as (ch2 & Hp2 & _ & _ & Hc2).
    by apply (channel_maybe_close_steps w2 p ch2).
Qed.

(** ** Looking up the channel of a message *)

Definition channel_in w (n : Z) (flag : channel_alloc_state) : option ptr :=
  if bool_decide (number_state (w_conn w) (Z.to_nat n) = flag)
  then number_channel (w_conn w) (Z.to_nat n) else None.

Lemma lookup_in w n flag :
  world_wf w → 0 <= n → flag = CHANNEL_ALLOC_SENT_OPEN ∨ flag = CHANNEL_ALLOC_ACTIVE →
  ssh_connection_lookup_channel (w_conn w) n flag = Ok (channel_in w n flag).
Proof.
  intros Hw Hn Hf. apply lookup_channel_spec; [apply Hw | done | by destruct Hf; subst |].
  intros Hs. apply (wf_live _ Hw). rewrite Hs. destruct Hf as [-> | ->]; auto.
Qed.

Lemma channel_in_slot w n flag p :
  world_wf w → 0 <= n → channel_in w n flag = Some p →
  number_state (w_conn w) (Z.to_nat n) = flag ∧ number_channel (w_conn w) (Z.to_nat n) = Some p
  ∧ ∃ ch, w_heap w !! p = Some ch ∧ ch_connection ch = true ∧ ch_local_channel_number ch = n ∧ channel_ok ch.
Proof.
  intros Hw Hn. unfold channel_in. case_bool_decide as Hs; [| done]. intros Hp. split_and!; [done | done |].
  destruct (wf_slot _ Hw _ _ Hp) as (ch & Hh & Hc & Hl). exists ch. rewrite Z2Nat.id in Hl by done.
  split_and!; [done | done | done | by apply (wf_heap _ Hw p)].
Qed.

(** The start of every branch that looks up an active channel: nothing is
    done, or the channel is there. *)
Lemma with_active w n (found : ptr → result (world E)) (missing : result (world E)) :
  world_wf w → 0 <= n → (steps w missing) →
  (∀ p ch, w_heap w !! p = Some ch → ch_connection ch = true → channel_ok ch → steps w (found p)) →
  steps w (channel ← ssh_connection_lookup_channel (w_conn w) n CHANNEL_ALLOC_ACTIVE;
           match channel with Some p => found p | None => missing end).
Proof.
  intros Hw Hn Hm Hf. rewrite lookup_in, bind_ok_l by auto.
  destruct (channel_in w n CHANNEL_ALLOC_ACTIVE) as [p |] eqn:Hp; [| done].
  destruct (channel_in_slot w n _ p Hw Hn Hp) as (_ & _ & ch & Hh & Hc & _ & Hok). by apply (Hf p ch).
Qed.

Lemma connection_error_steps w msg : world_wf w → steps w (SSH_CONNECTION_ERROR w msg).
Proof. intros Hw. by apply disconnect_ok. Qed.

(** ** Replies *)

Lemma global_request_reply_steps w info result :
  world_wf w → steps w (global_request_reply w info result).
Proof.
  intros Hw. unfold global_request_reply. case_bool; [| by apply steps_ok].
  case_bool; eapply connection_write_steps; [done | by apply formats_byte | done | by apply formats_byte].
Qed.

Lemma channel_request_reply_steps w p ch info result :
  world_wf w → w_heap w !! p = Some ch → ch_connection ch = true →
  steps w (channel_request_reply w p info result).
Proof.
  intros Hw Hp Hc. pose proof (wf_heap _ Hw p ch Hp) as Hok. unfold channel_request_reply.
  case_bool; [| by apply steps_ok]. rewrite (get_channel_ok w p ch Hp), bind_ok_l.
  case_bool; eapply channel_write_steps; [done | done | done | | done | done | done |];
    (apply formats_number; [done | apply Hok]).
Qed.

Lemma global_reply_steps w result : world_wf w → steps w (global_reply w result).
Proof.
  intros Hw. unfold global_reply. destruct (cn_pending_global_requests (w_conn w)) as [| s rest]; [by apply steps_ok |].
  eapply steps_after; [apply with_conn_evolves |]. by apply request_done_ok, with_pending_requests_wf.
Qed.

(** ** Messages about an active channel *)

Lemma global_requested_steps w type want_reply b :
  world_wf w → buffer_wf b → steps w (global_requested w type want_reply b).
Proof.
  intros Hw Hb. unfold global_requested. cbv zeta.
  destruct (if c_true _ then _ else None) as [h |]; [by apply global_request_ok |].
  eapply connection_write_steps; [done | by apply formats_byte].
Qed.

Lemma channel_requested_steps w n type want_reply b :
  world_wf w → 0 <= n → buffer_wf b → steps w (channel_requested w n type want_reply b).
Proof.
  intros Hw Hn Hb. apply with_active; [done | done | by apply connection_error_steps |].
  intros p ch Hp Hc Hok. rewrite (get_channel_ok w p ch Hp), bind_ok_l. cbv zeta.
  destruct (match _ with Some h => Some h | None => _ end) as [h |].
  - by apply (channel_request_ok w h p ch).
  - by apply (channel_request_reply_steps w p ch).
Qed.

Lemma window_adjusted_steps w n size :
  world_wf w → 0 <= n → steps w (window_adjusted w n size).
Proof.
  intros Hw Hn. apply with_active; [done | done | by apply connection_error_steps |].
  intros p ch Hp Hc Hok. rewrite (get_channel_ok w p ch Hp), bind_ok_l.
  case_bool; [by apply connection_error_steps |]. case_bool; [by apply steps_ok |]. cbv zeta.
  apply (steps_update w p ch (set_send ch (ch_remote_channel_number ch)
    (u32 (ch_send_window_size ch + size)) (ch_send_max_packet ch))); [done.. | | apply set_send_follows |].
  - apply set_send_ok; [done | apply Hok | apply u32_range | apply Hok].
  - intros Hw1. case_bool; [| by apply steps_ok]. eapply send_adjust_ok; [done | apply with_channel_lookup].
Qed.

Lemma accepted_length_range ch length :
  channel_ok ch → 0 <= length →
  0 <= accepted_length ch length <= length
  ∧ accepted_length ch length = Z.min length (Z.min (ch_rec_max_packet ch) (ch_rec_window_size ch)).
Proof.
  intros [_ _ [Hw _] [Hm _] _ _] Hl. unfold accepted_length.
  destruct (Z.ltb_spec (ch_rec_max_packet ch) length), (Z.ltb_spec (ch_rec_window_size ch) length); try lia;
    match goal with |- context [if ?b then _ else _] => destruct b eqn:? end; lia.
Qed.

Lemma slice_bytes (d : list Z) n : Forall is_byte d → Forall is_byte (slice 0 n d).
Proof. intros Hd. unfold slice. by apply Forall_take, Forall_drop. Qed.

Lemma receive_data_steps w p ch type d :
  world_wf w → w_heap w !! p = Some ch → Forall is_byte d →
  steps w ('(w, _) ← receive_data_common w p type (lenZ d) d; Ok w).
Proof.
  intros Hw Hp Hd. pose proof (wf_heap _ Hw p ch Hp) as Hok. unfold receive_data_common.
  rewrite (get_channel_ok w p ch Hp), bind_ok_l. case_bool; [| by apply steps_ok].
  case_bool; [by apply steps_ok |]. cbv zeta. case_bool; [by apply steps_ok |].
  set (n := accepted_length ch (lenZ d)). rewrite bind_assoc.
  apply (steps_update w p ch (set_receive_limits ch (u32 (ch_rec_window_size ch - n)) (ch_rec_max_packet ch)));
    [done.. | | apply set_receive_follows |].
  - apply set_receive_ok; [done | apply u32_range | apply Hok].
  - intros Hw1. apply steps_bind.
    + eapply receive_ok; [done | apply with_channel_lookup | by apply slice_bytes].
    + intros w2 Hw2 _. by apply steps_ok.
Qed.

Lemma data_received_steps w n d :
  world_wf w → 0 <= n → Forall is_byte d → steps w (data_received w n d).
Proof.
  intros Hw Hn Hd. apply with_active; [done | done | by apply steps_ok |].
  intros p ch Hp _ _. by apply (receive_data_steps w p ch).
Qed.

Lemma extended_data_received_steps w n type d :
  world_wf w → 0 <= n → Forall is_byte d → steps w (extended_data_received w n type d).
Proof.
  intros Hw Hn Hd. apply with_active; [done | done | by apply steps_ok |].
  intros p ch Hp _ _. case_bool; [by apply steps_ok |]. by apply (receive_data_steps w p ch).
Qed.

Lemma eof_received_steps w n : world_wf w → 0 <= n → steps w (eof_received w n).
Proof.
  intros Hw Hn. apply with_active; [done | done | by apply connection_error_steps |].
  intros p ch Hp Hc Hok. rewrite (get_channel_ok w p ch Hp), bind_ok_l.
  case_bool; [by apply connection_error_steps |].
  apply (steps_update w p ch (add_flag ch CHANNEL_RECEIVED_EOF));
    [done.. | by apply set_flags_ok | apply add_flag_follows |].
  intros Hw1. apply steps_bind; [eapply event_ok; [done | apply with_channel_lookup] |].
  intros w2 Hw2 He2.
  destruct (link_after _ w2 p (add_flag ch CHANNEL_RECEIVED_EOF) He2 (with_channel_lookup _ _ _) Hc)
    as (ch2 & Hp2 & _ & _ & Hc2).
  by apply (channel_maybe_close_steps w2 p ch2).
Qed.

Lemma close_received_steps w n : world_wf w → 0 <= n → steps w (close_received w n).
Proof.
  intros Hw Hn. apply with_active; [done | done | by apply connection_error_steps |].
  intros p ch Hp Hc Hok. rewrite (get_channel_ok w p ch Hp), bind_ok_l.
  case_bool; [by apply connection_error_steps |].
  apply (steps_update w p ch (add_flag ch CHANNEL_RECEIVED_CLOSE));
    [done.. | by apply set_flags_ok | apply add_flag_follows |].
  intros Hw1. apply steps_bind; [eapply event_ok; [done | apply with_channel_lookup] |].
  intros w2 Hw2 He2.
  destruct (link_after _ w2 p (add_flag ch CHANNEL_RECEIVED_CLOSE) He2 (with_channel_lookup _ _ _) Hc)
    as (ch2 & Hp2 & _ & Hal2 & Hc2).
  rewrite (get_channel_ok w2 p ch2 Hp2), bind_ok_l.
  destruct (flagged ch2 CHANNEL_SENT_CLOSE) eqn:Hf.
  - by apply (channel_finished_steps w2 p ch2).
  - apply (channel_close_steps w2 p ch2); [done | done |]. intros _. by apply Hc2.
Qed.

Lemma request_replied_steps w n event msg :
  world_wf w → 0 <= n → steps w (request_replied w n event msg).
Proof.
  intros Hw Hn. apply with_active; [done | done | by apply connection_error_steps |].
  intros p ch Hp Hc Hok. rewrite (get_channel_ok w p ch Hp), bind_ok_l.
  case_bool; [by apply steps_ok |].
  apply (steps_update w p ch (set_pending ch (u32 (ch_pending_requests ch - 1))));
    [done.. | by apply set_pending_ok | apply set_pending_follows |].
  intros Hw1. eapply event_ok; [done | apply with_channel_lookup].
Qed.

(** ** Opening *)

Lemma busy_below_max w n : world_wf w → number_state (w_conn w) n ≠ CHANNEL_FREE → Z.of_nat n < MAX_CHANNELS.
Proof.
  intros Hw Hn. destruct (wf_conn _ Hw) as (st & ch & Ht). pose proof (table_bounds _ _ _ Ht).
  pose proof (number_busy _ _ Hn). lia.
Qed.

(** A channel stored in a slot and linked: it is in the table afterwards, even
    if [kill] was called because the connection is going away. *)
Lemma link_channel_spec w w0 c n p ch st :
  world_wf w → w_heap w !! p = Some ch → ch_connection ch = false → w_heap w0 = w_heap w →
  Z.of_nat n < MAX_CHANNELS → number_channel (w_conn w) n = None → conn_wf c →
  (∀ m, number_state c m = if decide (m = n) then st else number_state (w_conn w) m) →
  (∀ m, number_channel c m = if decide (m = n) then Some p else number_channel (w_conn w) m) →
  register_slot (w_conn w0) (Z.of_nat n) p = Ok c → w_env w0 = w_env w →
  returns (ssh_connection_register_channel w0 (Z.of_nat n) p) (λ w', world_wf w' ∧ evolves w w' ∧
    number_channel (w_conn w') n = Some p ∧
    ∃ ch', w_heap w' !! p = Some ch' ∧ ch_connection ch' = true ∧ ch_local_channel_number ch' = Z.of_nat n).
Proof.
  intros Hw Hp Hc Hheap Hmax Hnone Hcw Hrs Hrc Hreg Henv. unfold ssh_connection_register_channel.
  rewrite Hreg, bind_ok_l. cbv zeta. rewrite (get_channel_ok (with_conn w0 c) p ch) by (simpl; by rewrite Hheap).
  rewrite bind_ok_l. set (ch1 := set_link ch true (Z.of_nat n)).
  replace (with_channel (with_conn w0 c) p ch1) with (with_channel (with_conn w c) p ch1)
    by (unfold with_channel, with_conn; simpl; by rewrite Hheap, Henv).
  pose proof (attach_wf w p ch c n st Hw Hp Hc Hmax Hnone Hcw Hrs Hrc) as Hw1.
  set (w1 := with_channel (with_conn w c) p ch1) in *.
  assert (w_heap w1 !! p = Some ch1) as Hp1 by apply with_channel_lookup.
  assert (evolves w w1) as He1.
  { apply (update_evolves (with_conn w c) p ch ch1 Hp). split; [done | done | by rewrite Hc]. }
  assert (∀ w' ch', world_wf w' → w_heap w' !! p = Some ch' → ch_connection ch' = true →
    ch_local_channel_number ch' = Z.of_nat n → number_channel (w_conn w') n = Some p) as Hnum.
  { intros w' ch' Hw' Hp' Hc' Hl'. rewrite <- (Nat2Z.id n), <- Hl'. by apply (wf_linked _ Hw'). }
  unfold remember_resource. cbv zeta. case_bool.
  - eapply returns_weaken; [by apply (kill_channel_ok w1 p ch1) |].
    intros w2 (Hw2 & He2 & ch2 & Hp2 & _ & Hc2 & Hl2).
    split_and!; [done | by transitivity w1 | by apply (Hnum w2 ch2) | by exists ch2].
  - apply returns_ok. split_and!; [by apply with_resources_wf | done | by apply (Hnum w1 ch1) | by exists ch1].
Qed.

Lemma register_channel_spec w n p ch :
  world_wf w → w_heap w !! p = Some ch → ch_connection ch = false →
  number_state (w_conn w) n ≠ CHANNEL_FREE → number_channel (w_conn w) n = None →
  returns (ssh_connection_register_channel w (Z.of_nat n) p) (λ w', world_wf w' ∧ evolves w w' ∧
    number_channel (w_conn w') n = Some p ∧
    ∃ ch', w_heap w' !! p = Some ch' ∧ ch_connection ch' = true ∧ ch_local_channel_number ch' = Z.of_nat n).
Proof.
  intros Hw Hp Hc Hn Hnone.
  destruct (register_slot_spec (w_conn w) n p (wf_conn _ Hw) Hn Hnone) as (c & Hreg & [Hcw Hrs Hrc _] & _).
  apply (link_channel_spec w w c n p ch (number_state (w_conn w) n)); try done. by apply (busy_below_max w).
Qed.

(** Activating a number that has a channel. *)
Lemma activate_wf w n p c :
  world_wf w → number_channel (w_conn w) n = Some p →
  renumbered (w_conn w) c n CHANNEL_ALLOC_ACTIVE (Some p) → world_wf (with_conn w c).
Proof.
  intros [Hc Hlive Hslot Hlink Hheap] Hp [Hcw Hrs Hrc _].
  assert (∀ m, number_channel c m = number_channel (w_conn w) m) as Hsame.
  { intros m. rewrite Hrc. case_decide; congruence. }
  split; simpl; [done | | | | done].
  - intros m. rewrite Hrs, Hsame. case_decide; [by subst; rewrite Hp | apply Hlive].
  - intros m q. rewrite Hsame. apply Hslot.
  - intros q ch Hq Hcn. rewrite Hsame. by apply Hlink.
Qed.

Lemma activate_spec w n p :
  world_wf w → number_channel (w_conn w) n = Some p →
  ∃ c, ssh_connection_activate_channel (w_conn w) (Z.of_nat n) = Ok c ∧ world_wf (with_conn w c).
Proof.
  intros Hw Hp.
  assert (number_state (w_conn w) n ≠ CHANNEL_FREE) as Hn.
  { intros Hfree. by rewrite (number_free _ _ (wf_conn _ Hw) Hfree) in Hp. }
  destruct (activate_channel_spec (w_conn w) n p (wf_conn _ Hw) Hn Hp) as (c & -> & Hr & _).
  exists c. split; [done |]. by apply (activate_wf w n p).
Qed.

Lemma assert_reserved_ok w n :
  world_wf w → number_state (w_conn w) n = CHANNEL_ALLOC_RECEIVED_OPEN →
  number_channel (w_conn w) n = None → assert_reserved w (Z.of_nat n) = Ok ().
Proof.
  intros Hw Hs Hc. assert (number_state (w_conn w) n ≠ CHANNEL_FREE) as Hn by congruence.
  destruct (number_entry _ n (wf_conn _ Hw) Hn) as [Hcs Hco]. pose proof (number_busy _ n Hn).
  unfold assert_reserved. rewrite Hcs, Hco, Hs, Hc. pass_assert. rewrite !bind_ok_l. done.
Qed.

Lemma check_max_ok ch : channel_ok ch → channel_ok (check_rec_max_packet ch).
Proof.
  intros Hok. unfold check_rec_max_packet. case_bool; [| done]. apply set_receive_ok; [done | apply Hok |].
  by unfold is_u32.
Qed.

Lemma check_max_link ch :
  ch_connection (check_rec_max_packet ch) = ch_connection ch
  ∧ ch_local_channel_number (check_rec_max_packet ch) = ch_local_channel_number ch.
Proof. unfold check_rec_max_packet. by case_bool. Qed.

Lemma channel_open_confirm_steps w info p ch :
  world_wf w → reserved w info → info_ok info → w_heap w !! p = Some ch → ch_connection ch = false →
  steps w (channel_open_confirm w info p).
Proof.
  intros Hw (n & Hn & Hs & Hnone) [_ Hir Hiw [Him _]] Hp Hc. unfold channel_open_confirm. rewrite Hn.
  rewrite (assert_reserved_ok w n Hw Hs Hnone), bind_ok_l, (get_channel_ok w p ch Hp), bind_ok_l. cbv zeta.
  set (ch1 := set_send ch _ _ _).
  apply (steps_update w p ch ch1); [done.. | | apply set_send_follows |].
  { apply set_send_ok; [by apply (wf_heap _ Hw p) | done..]. }
  intros Hw1. set (w1 := with_channel w p ch1) in *.
  eapply returns_bind.
  { apply (register_channel_spec w1 n p ch1); [done | apply with_channel_lookup | done | | done].
    change (w_conn w1) with (w_conn w). by rewrite Hs. }
  intros w2 (Hw2 & He2 & Hn2 & ch2 & Hp2 & Hc2 & Hl2).
  destruct (activate_spec w2 n p Hw2 Hn2) as (c & -> & Hw3). rewrite bind_ok_l.
  rewrite (get_channel_ok (with_conn w2 c) p ch2 Hp2), bind_ok_l.
  pose proof (wf_heap _ Hw2 p ch2 Hp2) as Hok2. eapply returns_bind.
  { apply (format_open_confirmation_spec ch2); apply Hok2. }
  intros [ch3 s] (-> & Hsw & _). destruct (check_max_link ch2) as [Hcl Hcl'].
  eapply returns_weaken.
  - apply (steps_update (with_conn w2 c) p ch2 (check_rec_max_packet ch2)); [done.. | by apply check_max_ok
      | apply check_max_follows |]. intros Hw4. by apply write_ok.
  - intros w5 [Hw5 He5]. split; [done |]. transitivity w2; [done | exact He5].
Qed.

Lemma channel_open_deny_steps w info error msg :
  world_wf w → reserved w info → info_ok info → is_u32 error → Forall is_byte msg → lenZ msg < 2 ^ 31 →
  steps w (channel_open_deny w info error msg).
Proof.
  intros Hw (n & Hn & Hs & Hnone) [_ Hir _ _] He Hm Hl. unfold channel_open_deny. rewrite Hn.
  rewrite (assert_reserved_ok w n Hw Hs Hnone), bind_ok_l.
  destruct (dealloc_channel_spec (w_conn w) n (wf_conn _ Hw)) as (c & -> & Hr & _); [by rewrite Hs |].
  rewrite bind_ok_l. eapply steps_after; [apply with_conn_evolves |].
  eapply connection_write_steps.
  - destruct Hr as [Hcw Hrs Hrc _]. destruct Hw as [_ Hlive Hslot Hlink Hheap].
    assert (∀ m, number_channel c m = number_channel (w_conn w) m) as Hsame.
    { intros m. rewrite Hrc. case_decide; congruence. }
    split; simpl; [done | | | | done].
    + intros m. rewrite Hrs, Hsame. case_decide; [by intros [|] | apply Hlive].
    + intros m q. rewrite Hsame. apply Hslot.
    + intros q ch Hq Hcn. rewrite Hsame. by apply Hlink.
  - apply format_open_failure_spec; [done | done | done | done |]. rewrite lenZ_nil. lia.
Qed.

(** Allocating a number without a channel, for a request of the peer. *)
Lemma alloc_received_wf w c n :
  world_wf w → allocated (w_conn w) c CHANNEL_ALLOC_RECEIVED_OPEN n →
  world_wf (with_conn w c) ∧ number_state c n = CHANNEL_ALLOC_RECEIVED_OPEN ∧ number_channel c n = None.
Proof.
  intros Hw [Hcw Hfree _ _ Hst Hch _]. split_and!.
  - destruct Hw as [Hc Hlive Hslot Hlink Hheap]. split; simpl; [done | | | | done].
    + intros m. rewrite Hst, Hch. case_decide; [by intros [|] | apply Hlive].
    + intros m q. rewrite Hch. apply Hslot.
    + intros q ch Hq Hcn. rewrite Hch. by apply Hlink.
  - rewrite Hst. by case_decide.
  - rewrite Hch. by apply number_free; [apply Hw |].
Qed.

Lemma open_requested_steps w info b :
  world_wf w → info_ok info → buffer_wf b → steps w (open_requested w info b).
Proof.
  intros Hw [Hil Hir Hiw Him] Hb. unfold open_requested. cbv zeta.
  assert (∀ reason msg, is_u32 reason → lenZ (cstr msg) < 2 ^ 30 →
    steps w (connection_write w (format_open_failure (oi_remote_channel_number info) reason (cstr msg) []))) as Hdeny.
  { intros reason msg Hr Hm. eapply connection_write_steps; [done |].
    apply format_open_failure_spec; [done | done | apply cstr_bytes | done |]. rewrite lenZ_nil. lia. }
  case_bool; [apply Hdeny; by vm_compute |].
  destruct (match _ with Some o => Some o | None => _ end) as [o |]; [| apply Hdeny; by vm_compute].
  destruct (alloc_channel_spec (w_conn w) CHANNEL_ALLOC_RECEIVED_OPEN (wf_conn _ Hw) (or_intror eq_refl))
    as [(c & n & -> & Hal) | [-> _]]; rewrite bind_ok_l; cbv beta iota zeta.
  - rewrite (proj2 (Z.ltb_ge _ _)) by lia.
    destruct (alloc_received_wf w c n Hw Hal) as (Hw1 & Hs1 & Hc1).
    eapply steps_after; [apply with_conn_evolves |]. apply channel_open_ok; [done | by exists n | | done].
    pose proof (al_range _ _ _ _ Hal). split; try done. unfold is_u32, MAX_CHANNELS in *. simpl. lia.
  - change (-1 <? 0) with true. cbv iota.
    replace (with_conn w (w_conn w)) with w by (by destruct w). apply Hdeny; by vm_compute.
Qed.

Lemma open_confirmed_steps w local remote window max :
  world_wf w → 0 <= local → is_u32 remote → is_u32 window → is_u32 max →
  steps w (open_confirmed w local remote window max).
Proof.
  intros Hw Hl Hr Hwin Hmax. unfold open_confirmed. rewrite lookup_in, bind_ok_l by auto.
  destruct (channel_in w local CHANNEL_ALLOC_SENT_OPEN) as [p |] eqn:Hp; [| by apply connection_error_steps].
  destruct (channel_in_slot w local _ p Hw Hl Hp) as (Hs & Hn & ch & Hh & Hc & Hloc & Hok).
  rewrite (get_channel_ok w p ch Hh), bind_ok_l. cbv zeta. set (max' := if SSH_MAX_DATA_SIZE <? max then SSH_MAX_DATA_SIZE else max).
  assert (is_u32 max') by (unfold max'; case_bool; [by unfold is_u32 | done]).
  apply (steps_update w p ch (set_send ch remote window max')); [done.. | by apply set_send_ok
    | apply set_send_follows |].
  intros Hw1. set (w1 := with_channel w p _) in *. rewrite <- (Z2Nat.id local) by done.
  destruct (activate_spec w1 (Z.to_nat local) p Hw1 Hn) as (c & -> & Hw2). rewrite bind_ok_l.
  eapply steps_after; [apply with_conn_evolves |]. eapply event_ok; [done | apply with_channel_lookup].
Qed.

(** The one handler that may take a channel out of the table without a close
    handshake. *)
Lemma open_failed_wf w n : world_wf w → 0 <= n → returns (open_failed w n) world_wf.
Proof.
  intros Hw Hn. unfold open_failed. rewrite lookup_in, bind_ok_l by auto.
  destruct (channel_in w n CHANNEL_ALLOC_SENT_OPEN) as [p |] eqn:Hp; [| by apply returns_ok].
  destruct (channel_in_slot w n _ p Hw Hn Hp) as (_ & _ & ch & Hh & Hc & _ & _).
  eapply returns_bind; [by apply (event_ok w p ch) |]. intros w1 [Hw1 He1].
  destruct (link_after w w1 p ch He1 Hh Hc) as (ch1 & Hp1 & _ & Hal & _).
  eapply returns_weaken; [by apply (channel_finished_spec w1 p ch1) |]. by intros w2 [Hw2 _].
Qed.

(** ** Sending *)

(** The assertions hold when the caller respects the window and the packet
    limit. *)
Lemma channel_transmit_data_steps w p ch d :
  world_wf w → w_heap w !! p = Some ch → ch_connection ch = true → Forall is_byte d →
  lenZ d <= ch_send_window_size ch → lenZ d <= ch_send_max_packet ch → lenZ d < 2 ^ 31 →
  steps w (channel_transmit_data w p (lenZ d) d).
Proof.
  intros Hw Hp Hc Hd Hlw Hlm Hl. pose proof (wf_heap _ Hw p ch Hp) as Hok. unfold channel_transmit_data.
  rewrite (get_channel_ok w p ch Hp), bind_ok_l. do 2 pass_assert. cbv zeta.
  apply (steps_update w p ch (set_send ch (ch_remote_channel_number ch)
    (u32 (ch_send_window_size ch - lenZ d)) (ch_send_max_packet ch))); [done.. | | apply set_send_follows |].
  - apply set_send_ok; [done | apply Hok | apply u32_range | apply Hok].
  - intros Hw1. eapply channel_write_steps; [done | apply with_channel_lookup | done |].
    apply format_channel_data_spec; [apply Hok | done | lia].
Qed.

Lemma channel_transmit_extended_steps w p ch type d :
  world_wf w → w_heap w !! p = Some ch → ch_connection ch = true → is_u32 type → Forall is_byte d →
  lenZ d <= ch_send_window_size ch → lenZ d <= ch_send_max_packet ch → lenZ d < 2 ^ 31 →
  steps w (channel_transmit_extended w p type (lenZ d) d).
Proof.
  intros Hw Hp Hc Ht Hd Hlw Hlm Hl. pose proof (wf_heap _ Hw p ch Hp) as Hok. unfold channel_transmit_extended.
  rewrite (get_channel_ok w p ch Hp), bind_ok_l. do 2 pass_assert. cbv zeta.
  apply (steps_update w p ch (set_send ch (ch_remote_channel_number ch)
    (u32 (ch_send_window_size ch - lenZ d)) (ch_send_max_packet ch))); [done.. | | apply set_send_follows |].
  - apply set_send_ok; [done | apply Hok | apply u32_range | apply Hok].
  - intros Hw1. eapply channel_write_steps; [done | apply with_channel_lookup | done |].
    apply format_channel_extended_data_spec; [apply Hok | done | done | lia].
Qed.

(** A tail of arguments that a caller may append to a message. *)
Definition tail_bytes (f : string) (args : list farg) (bs : list Z) : Prop :=
  (∃ ps, spec_format f args = Some ps ∧ pbytes ps = Some bs) ∧ Forall farg_ok args ∧ lenZ bs < 2 ^ 30.

Lemma format_request_spec n type want_reply f args bs :
  is_u32 n → Forall is_byte type → lenZ type < 2 ^ 30 → is_byte want_reply → tail_bytes f args bs →
  formats (format_two "%c%i%s%c" [FInt SSH_MSG_CHANNEL_REQUEST; FInt n; FInt (lenZ type); FBytes type;
             FInt want_reply] f args)
    ((SSH_MSG_CHANNEL_REQUEST :: be32 n ++ wire_string type ++ [want_reply]) ++ bs).
Proof.
  intros Hn Ht Hl Hr [(ps & Hs & Hb) [Ha Hlb]]. pose proof (lenZ_nonneg type).
  eapply format_two_spec; [| | by repeat constructor | exact Hs | exact Hb | exact Ha |].
  - unfold spec_format. cbn -[be32 u32 u8]. rewrite (u32_id (lenZ type)) by len_lia.
    by rewrite (proj2 (Z.ltb_ge _ _)) by lia.
  - cbn -[be32]. unfold with_header, wire_string.
    by rewrite (u32_id n), slice_all, (u8_id want_reply).
  - rewrite lenZ_cons, !lenZ_app, lenZ_wire_string, lenZ_be32. change (lenZ [want_reply]) with 1. lia.
Qed.

Lemma channel_send_request_steps w p ch type want_reply f args bs :
  world_wf w → w_heap w !! p = Some ch → (flagged ch CHANNEL_SENT_CLOSE = false → ch_connection ch = true) →
  Forall is_byte type → lenZ type < 2 ^ 30 → is_byte want_reply → tail_bytes f args bs →
  returns (channel_send_request w p (lenZ type) type want_reply f args)
    (λ '(w', r), world_wf w' ∧ evolves w w' ∧ r = c_int (negb (flagged ch CHANNEL_SENT_CLOSE))).
Proof.
  intros Hw Hp Hc Ht Hl Hr Hb. pose proof (wf_heap _ Hw p ch Hp) as Hok. unfold channel_send_request.
  rewrite (get_channel_ok w p ch Hp), bind_ok_l.
  destruct (flagged ch CHANNEL_SENT_CLOSE) eqn:Hf; [by apply returns_ok |].
  eapply returns_bind.
  { eapply (channel_write_steps w p ch); [done | done | by apply Hc | by apply format_request_spec; [apply Hok | ..]]. }
  intros w1 [Hw1 He1]. destruct (He1 p ch Hp) as (ch1 & Hp1 & _). case_bool; [| by apply returns_ok].
  rewrite (get_channel_ok w1 p ch1 Hp1), bind_ok_l. apply returns_ok. split_and!; [| | done].
  - apply (update_wf w1 p ch1); [done.. |]. by apply set_pending_ok, (wf_heap _ Hw1 p).
  - transitivity w1; [done |]. apply (update_evolves w1 p ch1); [done | apply set_pending_follows].
Qed.

Lemma format_global_request_spec type name want_reply f args bs :
  valid_atom type → get_atom_name type = Ok name → is_byte want_reply → tail_bytes f args bs →
  formats (format_two "%c%a%c" [FInt SSH_MSG_GLOBAL_REQUEST; FInt type; FInt want_reply] f args)
    ((SSH_MSG_GLOBAL_REQUEST :: wire_string name ++ [want_reply]) ++ bs).
Proof.
  intros Hv Hname Hr [(ps & Hs & Hb) [Ha Hlb]]. destruct (get_atom_valid type Hv) as (name' & Hn' & _ & Hok & _).
  rewrite Hname in Hn'. injection Hn' as <-. destruct Hok as (_ & _ & Hlen).
  eapply format_two_spec; [| | by repeat constructor | exact Hs | exact Hb | exact Ha |].
  - unfold spec_format. cbn -[be32 u32 u8]. rewrite (proj2 (Z.eqb_neq _ _)) by (unfold valid_atom in Hv; lia).
    simpl. by rewrite Hname.
  - cbn -[be32]. unfold with_header, wire_string. by rewrite (u8_id want_reply).
  - rewrite lenZ_cons, !lenZ_app, lenZ_wire_string. change (lenZ [want_reply]) with 1. lia.
Qed.

Lemma channel_send_global_request_steps w type state f args bs :
  world_wf w → valid_atom type → tail_bytes f args bs →
  steps w (channel_send_global_request w type state f args).
Proof.
  intros Hw Hv Hb. destruct (get_atom_valid type Hv) as (name & Hn & _).
  unfold channel_send_global_request. cbv zeta. apply steps_bind.
  - eapply connection_write_steps; [done |]. eapply format_global_request_spec; [done | done | | done].
    by destruct state.
  - intros w1 Hw1 He1. destruct state as [s |]; [| by apply steps_ok].
    apply returns_ok. split; [by apply with_pending_requests_wf | apply with_conn_evolves].
Qed.

Lemma format_open_spec type local window max f args bs :
  Forall is_byte type → lenZ type < 2 ^ 30 → is_u32 local → is_u32 window → is_u32 max → tail_bytes f args bs →
  formats (format_two "%c%s%i%i%i" [FInt SSH_MSG_CHANNEL_OPEN; FInt (lenZ type); FBytes type; FInt local;
             FInt window; FInt max] f args)
    ((SSH_MSG_CHANNEL_OPEN :: wire_string type ++ be32 local ++ be32 window ++ be32 max) ++ bs).
Proof.
  intros Ht Hl Hlo Hw Hm [(ps & Hs & Hb) [Ha Hlb]]. pose proof (lenZ_nonneg type).
  eapply format_two_spec; [| | by repeat constructor | exact Hs | exact Hb | exact Ha |].
  - unfold spec_format. cbn -[be32 u32 u8]. rewrite (u32_id (lenZ type)) by len_lia.
    by rewrite (proj2 (Z.ltb_ge _ _)) by lia.
  - cbn -[be32]. unfold with_header, wire_string.
    by rewrite slice_all, (u32_id local), (u32_id window), (u32_id max), ?app_nil_r.
  - rewrite lenZ_cons, !lenZ_app, lenZ_wire_string, !lenZ_be32. lia.
Qed.

(** Between allocation and registration the new number has no channel; the
    invariant holds again afterwards. *)
Lemma open_register_spec w c n p ch :
  world_wf w → allocated (w_conn w) c CHANNEL_ALLOC_SENT_OPEN n →
  w_heap w !! p = Some ch → ch_connection ch = false →
  returns (ssh_connection_register_channel (with_conn w c) (Z.of_nat n) p) (λ w', world_wf w' ∧ evolves w w' ∧
    number_channel (w_conn w') n = Some p ∧
    ∃ ch', w_heap w' !! p = Some ch' ∧ ch_connection ch' = true ∧ ch_local_channel_number ch' = Z.of_nat n).
Proof.
  intros Hw Hal Hp Hc. pose proof Hal as [Hcw Hfree _ Hmax Hst Hch _].
  assert (number_state c n = CHANNEL_ALLOC_SENT_OPEN) as Hsn by (rewrite Hst; by case_decide).
  assert (number_channel c n = None) as Hnone by (rewrite Hch; apply number_free; [apply Hw | done]).
  destruct (register_slot_spec c n p Hcw) as (c' & Hreg & [Hcw' Hrs Hrc _] & _); [by rewrite Hsn | done |].
  apply (link_channel_spec w (with_conn w c) c' n p ch CHANNEL_ALLOC_SENT_OPEN); try done.
  - by rewrite <- Hch.
  - intros m. rewrite Hrs, Hsn, Hst. by case_decide.
  - intros m. by rewrite Hrc, Hch.
Qed.

Lemma channel_open_new_type_steps w p ch type f args bs :
  world_wf w → w_heap w !! p = Some ch → ch_connection ch = false →
  Forall is_byte type → lenZ type < 2 ^ 30 → tail_bytes f args bs →
  returns (channel_open_new_type w p (lenZ type) type f args)
    (λ '(w', r), world_wf w' ∧ evolves w w'
       ∧ (r = 1 ∨ r = 0 ∧ ∀ n, Z.of_nat n < MAX_CHANNELS → number_state (w_conn w) n ≠ CHANNEL_FREE)).
Proof.
  intros Hw Hp Hc Ht Hl Hb. unfold channel_open_new_type.
  destruct (alloc_channel_spec (w_conn w) CHANNEL_ALLOC_SENT_OPEN (wf_conn _ Hw) (or_introl eq_refl))
    as [(c & n & -> & Hal) | [-> Hall]]; rewrite bind_ok_l; cbv beta iota zeta.
  2: { change (-1 <? 0) with true. cbv iota. apply returns_ok.
       replace (with_conn w (w_conn w)) with w by (by destruct w). split_and!; [done | done | by right]. }
  rewrite (proj2 (Z.ltb_ge _ _)) by lia.
  eapply returns_bind; [by apply (open_register_spec w c n p ch) |].
  intros w1 (Hw1 & He1 & _ & ch1 & Hp1 & Hc1 & Hl1). rewrite (get_channel_ok w1 p ch1 Hp1), bind_ok_l.
  pose proof (check_max_ok ch1 (wf_heap _ Hw1 p ch1 Hp1)) as Hok. destruct (check_max_link ch1) as [Hcl Hcl'].
  assert (world_wf (with_channel w1 p (check_rec_max_packet ch1))) as Hw2 by (by apply (update_wf w1 p ch1)).
  eapply returns_bind; [eapply format_open_spec; [done | done | apply Hok | apply Hok | apply Hok | done] |].
  intros s [Hs _]. eapply returns_bind; [by apply write_ok |]. intros w3 [Hw3 He3].
  apply returns_ok. split_and!; [done | | by left]. transitivity w1; [done |].
  etransitivity; [| exact He3]. apply (update_evolves w1 p ch1); [done | apply check_max_follows].
Qed.

(** ** All channels *)

Lemma pending_close_steps w : world_wf w → steps w (ssh_connection_pending_close w).
Proof.
  intros Hw. unfold ssh_connection_pending_close. cbv zeta.
  eapply steps_after; [apply (with_conn_evolves w) |]. pose proof (with_pending_close_wf w Hw).
  case_bool; [by apply kill_connection_ok | by apply steps_ok].
Qed.

(** The fuel suffices: the index never passes [max_channels]. *)
Lemma foreach_loop_steps fuel f i w :
  (∀ w p ch, world_wf w → w_heap w !! p = Some ch → ch_connection ch = true → steps w (f p w)) →
  world_wf w → 0 <= i <= MAX_CHANNELS → MAX_CHANNELS < i + Z.of_nat fuel → steps w (foreach_loop fuel f i w).
Proof.
  intros Hf. revert i w. induction fuel as [| fuel IH]; intros i w Hw Hi Hfuel; cbn [foreach_loop].
  - lia.
  - destruct (Z.ltb_spec i (cn_used_channels (w_conn w))) as [Hlt | Hge]; [| by apply steps_ok].
    destruct (wf_conn _ Hw) as (st & chs & Ht).
    destruct (table_entry _ _ _ i Ht) as (s & o & Hs & Ho & -> & Hco); [lia |]. rewrite bind_ok_l.
    pose proof (table_bounds _ _ _ Ht).
    apply steps_bind; [| intros w1 Hw1 _; apply IH; [done | lia | lia]].
    case_bool_decide as Hact; [| by apply steps_ok]. rewrite Hco, bind_ok_l.
    assert (number_state (w_conn w) (Z.to_nat i) = CHANNEL_ALLOC_ACTIVE) as Hsi
      by (rewrite (number_state_at _ _ _ _ Ht); unfold state_at; by rewrite Hs).
    assert (number_channel (w_conn w) (Z.to_nat i) = o) as Hoi
      by (rewrite (number_channel_at _ _ _ _ Ht); unfold channel_at; by rewrite Ho).
    destruct o as [p |]; [| by destruct (wf_live _ Hw (Z.to_nat i)); auto].
    destruct (wf_slot _ Hw _ _ Hoi) as (ch & Hp & Hc & _). by apply (Hf w p ch).
Qed.

Lemma stop_channels_steps w : world_wf w → steps w (ssh_connection_stop_channels w).
Proof.
  intros Hw. unfold ssh_connection_stop_channels, ssh_connection_foreach.
  destruct (wf_conn _ Hw) as (st & ch & Ht). rewrite (tw_max _ _ _ Ht).
  apply foreach_loop_steps; [| done | unfold MAX_CHANNELS; lia | unfold MAX_CHANNELS; lia].
  intros w1 p ch1 Hw1 Hp1 _. by apply (event_ok w1 p ch1).
Qed.

Lemma start_channels_steps w : world_wf w → steps w (ssh_connection_start_channels w).
Proof.
  intros Hw. unfold ssh_connection_start_channels, ssh_connection_foreach.
  destruct (wf_conn _ Hw) as (st & ch & Ht). rewrite (tw_max _ _ _ Ht).
  apply foreach_loop_steps; [| done | unfold MAX_CHANNELS; lia | unfold MAX_CHANNELS; lia].
  intros w1 p ch1 Hw1 Hp1 _. by apply (event_ok w1 p ch1).
Qed.

End api.
