(* ===== verification/ChannelEnv.v ===== *)
(** * Programs around the connection layer

    Two instances of [Methods] that keep to the contract [MethodsOk].  The
    first only records what is asked of it.  The second is a small session
    server on top of it, whose methods call back into [channel.c]: it
    confirms every channel, returns the window for all data it receives,
    answers end of file with end of file, and refuses all requests. *)

From S2P Require Import Prelude Ssh Nettle Atoms LshString Format FormatSpec Wire Parse ParseSpec Connection Channel ChannelFormat ChannelSpec.
Local Open Scope Z_scope.

(** ** Recording *)

Inductive effect : Type :=
  | Wrote (packet : list Z)
  | Disconnected (reason : Z) (msg : string)
  | Killed
  | Event (p : ptr) (event : channel_event)
  | Received (p : ptr) (type : Z) (data : list Z)
  | MaySend (p : ptr) (increment : Z)
  | Requested (h p : ptr) (info : request_info)
  | GlobalRequested (h : ptr) (info : request_info)
  | OpenRequested (h : ptr) (info : channel_open_info)
  | Replied (s : ptr) (result : Z).

Definition record (e : effect) (w : world (list effect)) : result (world (list effect)) :=
  Ok (mk_world (w_conn w) (w_heap w) (w_env w ++ [e])).

Definition set_alive (ch : ssh_channel) (alive : bool) : ssh_channel :=
  mk_channel alive (ch_connection ch) (ch_local_channel_number ch)
    (ch_remote_channel_number ch) (ch_rec_window_size ch) (ch_rec_max_packet ch)
    (ch_send_window_size ch) (ch_send_max_packet ch) (ch_request_types ch)
    (ch_request_fallback ch) (ch_flags ch) (ch_sources ch) (ch_sinks ch) (ch_receive ch)
    (ch_send_adjust ch) (ch_pending_requests ch).

#[export] Instance recorder : Methods (list effect) := {|
  m_write s := record (Wrote (contents s));
  m_disconnect reason msg := record (Disconnected reason msg);
  m_kill_connection := record Killed;
  m_kill_channel p w := ch ← get_channel w p; Ok (with_channel w p (set_alive ch false));
  m_event p event := record (Event p event);
  m_receive p type data := record (Received p type data);
  m_send_adjust p increment := record (MaySend p increment);
  m_channel_request h p info _ := record (Requested h p info);
  m_global_request h info _ := record (GlobalRequested h info);
  m_channel_open h info _ := record (OpenRequested h info);
  m_request_done s result := record (Replied s result);
|}.

Lemma record_steps e w : world_wf w → steps w (record e w).
Proof.
  intros [Hc Hl Hs Hk Hh]. apply returns_ok. split; [by split |].
  intros p ch Hp. exists ch. split; [done | reflexivity].
Qed.

#[export] Instance recorder_ok : MethodsOk (list effect).
Proof.
  split; intros; try by apply record_steps.
  unfold m_kill_channel, recorder. rewrite (get_channel_ok w p ch) by done. apply returns_ok.
  pose proof (wf_heap _ H p ch H0) as Hok. split_and!.
  - apply (update_wf w p ch); try done. by destruct Hok.
  - apply (update_evolves w p ch); [done |]. split; [done | done | by left].
  - eexists. split; [apply with_channel_lookup | done].
Qed.

(** ** A session server *)

Section server.
Context `{MallocOk} `{NettleMacrosOk} `{NettleBignumOk} `{AtomTableOk}.

(** A channel object at an unused address; its numbers are what the server
    chooses to advertise. *)
Definition new_channel : ssh_channel :=
  let ch := init_channel (mk_channel false false 0 0 100000 SSH_MAX_PACKET 0 0 None None 0 0 0 false false 0) in
  mk_channel (ch_alive ch) (ch_connection ch) (ch_local_channel_number ch)
    (ch_remote_channel_number ch) (ch_rec_window_size ch) (ch_rec_max_packet ch)
    (ch_send_window_size ch) (ch_send_max_packet ch) (ch_request_types ch)
    (ch_request_fallback ch) (ch_flags ch) 1 0 true true (ch_pending_requests ch).

Definition server_open (info : channel_open_info) (w : world (list effect)) : result (world (list effect)) :=
  let p := fresh (dom (w_heap w)) in
  channel_open_confirm (with_channel w p new_channel) info p.

Definition server : Methods (list effect) := {|
  m_write := m_write;
  m_disconnect := m_disconnect;
  m_kill_connection := m_kill_connection;
  m_kill_channel := m_kill_channel;
  m_event p event w :=
    w ← record (Event p event) w;
    ch ← get_channel w p;
    if bool_decide (event = CHANNEL_EVENT_EOF) && ch_connection ch then channel_eof w p else Ok w;
  m_receive p type data w :=
    w ← record (Received p type data) w;
    ch ← get_channel w p;
    if ch_connection ch && (lenZ data <? 2 ^ 31) then channel_adjust_rec_window w p (lenZ data) else Ok w;
  m_send_adjust := m_send_adjust;
  m_channel_request h p info b w :=
    ch ← get_channel w p;
    if ch_connection ch then channel_request_reply w p info 0 else Ok w;
  m_global_request h info b w := global_request_reply w (Some info) 0;
  m_channel_open h info b w := server_open info w;
  m_request_done := m_request_done;
|}.

(** A new object is no part of the table. *)
Lemma new_channel_wf (w : world (list effect)) p :
  world_wf w → w_heap w !! p = None →
  world_wf (with_channel w p new_channel) ∧ evolves w (with_channel w p new_channel).
Proof.
  intros [Hc Hl Hs Hk Hh] Hp. split.
  - split; simpl; [done | done | | |].
    + intros n q Hq. destruct (Hs n q Hq) as (ch & Hq' & Hc'). exists ch.
      rewrite lookup_insert_ne; [done |]. intros <-. congruence.
    + intros q ch Hq Hcn. destruct (decide (q = p)) as [-> | Hne].
      * rewrite lookup_insert_eq in Hq. by injection Hq as <-.
      * rewrite lookup_insert_ne in Hq by done. by apply Hk.
    + intros q ch Hq. destruct (decide (q = p)) as [-> | Hne].
      * rewrite lookup_insert_eq in Hq. injection Hq as <-. by split.
      * rewrite lookup_insert_ne in Hq by done. by apply (Hh q).
  - intros q ch Hq. exists ch. simpl. rewrite lookup_insert_ne by congruence. split; [done | reflexivity].
Qed.

Lemma server_ok : @MethodsOk (list effect) server.
Proof.
  split; try apply recorder_ok.
  - intros w p ch event Hw Hp. apply steps_bind; [by apply record_steps |]. intros w1 Hw1 He1.
    destruct (He1 p ch Hp) as (ch1 & Hp1 & _). rewrite (get_channel_ok w1 p ch1 Hp1), bind_ok_l.
    case_bool; [| by apply steps_ok]. apply andb_true_iff in Heqb as [_ Hc]. by apply (channel_eof_steps w1 p ch1).
  - intros w p ch type data Hw Hp Hd. apply steps_bind; [by apply record_steps |]. intros w1 Hw1 He1.
    destruct (He1 p ch Hp) as (ch1 & Hp1 & _). rewrite (get_channel_ok w1 p ch1 Hp1), bind_ok_l.
    case_bool; [| by apply steps_ok]. apply andb_true_iff in Heqb as [Hc Hl].
    apply (channel_adjust_rec_window_steps w1 p ch1); [done | done | len_lia | done].
  - intros w h p ch info b Hw Hp Hb. simpl. rewrite (get_channel_ok w p ch Hp), bind_ok_l.
    case_bool; [| by apply steps_ok]. by apply (channel_request_reply_steps w p ch).
  - intros w h info b Hw Hb. by apply global_request_reply_steps.
  - intros w h info b Hw Hr Hi Hb. simpl. unfold server_open.
    destruct (new_channel_wf w (fresh (dom (w_heap w))) Hw) as [Hw1 He1]; [by apply not_elem_of_dom, is_fresh |].
    eapply steps_after; [exact He1 |].
    eapply (channel_open_confirm_steps _ info); [done | exact Hr | done | apply with_channel_lookup | done].
Qed.

End server.

(** ** An initial world *)

Definition fresh_world {E} (e : E) : world E := mk_world init_ssh_connection ∅ e.

Lemma init_numbers n :
  number_state init_ssh_connection n = CHANNEL_FREE ∧ number_channel init_ssh_connection n = None.
Proof. unfold number_state, number_channel. simpl. by rewrite (proj2 (Z.ltb_ge _ _)) by lia. Qed.

Lemma fresh_world_wf {E} (e : E) : world_wf (fresh_world e).
Proof.
  split; simpl.
  - eexists _, _. apply init_ssh_connection_wf.
  - intros n. destruct (init_numbers n) as [-> _]. by intros [|].
  - intros n p. by destruct (init_numbers n) as [_ ->].
  - intros p ch Hp. by rewrite lookup_empty in Hp.
  - intros p ch Hp. by rewrite lookup_empty in Hp.
Qed.
