(* ===== verification/ChannelHandler.v ===== *)
(** * Messages of the connection protocol, and their dispatch

    The messages of RFC 4254 as data, their layout, and the proof that
    [channel_packet_handler] decodes a packet and acts on the message in it,
    for every packet whatever its octets; and that it is safe. *)

From S2P Require Import Prelude Ssh Nettle Atoms LshString Format FormatSpec Wire Parse ParseSpec Connection Channel ChannelFormat ChannelSpec ChannelEnv.
Local Open Scope Z_scope.

Inductive message : Type :=
  | GlobalRequest (type : list Z) (want_reply : Z)
  | RequestSuccess
  | RequestFailure
  | ChannelOpen (type : list Z) (remote window max : Z)
  | OpenConfirmation (local remote window max : Z)
  | OpenFailure (n reason : Z) (msg language : list Z)
  | WindowAdjust (n size : Z)
  | ChannelData (n : Z) (d : list Z)
  | ExtendedData (n type : Z) (d : list Z)
  | ChannelEof (n : Z)
  | ChannelClose (n : Z)
  | ChannelRequest (n : Z) (type : list Z) (want_reply : Z)
  | ChannelSuccess (n : Z)
  | ChannelFailure (n : Z).

Definition number_of (m : message) : Z :=
  match m with
  | GlobalRequest _ _ => SSH_MSG_GLOBAL_REQUEST
  | RequestSuccess => SSH_MSG_REQUEST_SUCCESS
  | RequestFailure => SSH_MSG_REQUEST_FAILURE
  | ChannelOpen _ _ _ _ => SSH_MSG_CHANNEL_OPEN
  | OpenConfirmation _ _ _ _ => SSH_MSG_CHANNEL_OPEN_CONFIRMATION
  | OpenFailure _ _ _ _ => SSH_MSG_CHANNEL_OPEN_FAILURE
  | WindowAdjust _ _ => SSH_MSG_CHANNEL_WINDOW_ADJUST
  | ChannelData _ _ => SSH_MSG_CHANNEL_DATA
  | ExtendedData _ _ _ => SSH_MSG_CHANNEL_EXTENDED_DATA
  | ChannelEof _ => SSH_MSG_CHANNEL_EOF
  | ChannelClose _ => SSH_MSG_CHANNEL_CLOSE
  | ChannelRequest _ _ _ => SSH_MSG_CHANNEL_REQUEST
  | ChannelSuccess _ => SSH_MSG_CHANNEL_SUCCESS
  | ChannelFailure _ => SSH_MSG_CHANNEL_FAILURE
  end.

Definition fields (m : message) : list Z :=
  match m with
  | GlobalRequest type want_reply => wire_string type ++ [want_reply]
  | RequestSuccess | RequestFailure => []
  | ChannelOpen type remote window max => wire_string type ++ be32 remote ++ be32 window ++ be32 max
  | OpenConfirmation local remote window max => be32 local ++ be32 remote ++ be32 window ++ be32 max
  | OpenFailure n reason msg language => be32 n ++ be32 reason ++ wire_string msg ++ wire_string language
  | WindowAdjust n size => be32 n ++ be32 size
  | ChannelData n d => be32 n ++ wire_string d
  | ExtendedData n type d => be32 n ++ be32 type ++ wire_string d
  | ChannelEof n | ChannelClose n | ChannelSuccess n | ChannelFailure n => be32 n
  | ChannelRequest n type want_reply => be32 n ++ wire_string type ++ [want_reply]
  end.

Definition encode (m : message) : list Z := number_of m :: fields m.

(** Some messages carry further fields, left to the handler of the request. *)
Definition open_ended (m : message) : bool :=
  match m with
  | GlobalRequest _ _ | ChannelOpen _ _ _ _ | ChannelRequest _ _ _ => true
  | _ => false
  end.

Definition string_ok (d : list Z) : Prop := Forall is_byte d ∧ is_u32 (lenZ d).

Definition message_ok (m : message) : Prop :=
  match m with
  | GlobalRequest type want_reply => string_ok type ∧ is_byte want_reply
  | RequestSuccess | RequestFailure => True
  | ChannelOpen type remote window max => string_ok type ∧ is_u32 remote ∧ is_u32 window ∧ is_u32 max
  | OpenConfirmation local remote window max => is_u32 local ∧ is_u32 remote ∧ is_u32 window ∧ is_u32 max
  | OpenFailure n reason msg language => is_u32 n ∧ is_u32 reason ∧ string_ok msg ∧ string_ok language
  | WindowAdjust n size => is_u32 n ∧ is_u32 size
  | ChannelData n d => is_u32 n ∧ string_ok d
  | ExtendedData n type d => is_u32 n ∧ is_u32 type ∧ string_ok d
  | ChannelEof n | ChannelClose n | ChannelSuccess n | ChannelFailure n => is_u32 n
  | ChannelRequest n type want_reply => is_u32 n ∧ string_ok type ∧ is_byte want_reply
  end.

(** ** The parsers read these layouts *)

Section parsers.
Context `{MallocOk} `{NettleMacrosOk} `{NettleBignumOk} `{AtomTableOk}.

#[export] Instance eod_whole : Whole parse_eod (λ _, []) (λ _, True).
Proof.
  split.
  - intros [] b _ Hwf Hr. rewrite parse_eod_spec, bool_decide_eq_true_2 by done. eauto.
  - intros b Hwf. rewrite parse_eod_spec by done. eexists _, _. split_and!; [done | done |].
    intros v. by case_bool_decide.
Qed.

End parsers.

(** ** What is done with a message *)

Section dispatch.
Context `{MallocOk} `{NettleMacrosOk} `{NettleBignumOk} `{AtomTableOk}.
Context {E : Type} `{HM : !Methods E}.
Implicit Types w : world E.

(** [b] is what is left of the packet after the fields of the message. *)
Definition act w (m : message) (b : simple_buffer) : result (world E) :=
  match m with
  | GlobalRequest type want_reply => global_requested w type want_reply b
  | RequestSuccess => global_reply w 1
  | RequestFailure => global_reply w 0
  | ChannelOpen type remote window max =>
      open_requested w (mk_open_info 0 type (lookup_atom type) remote window (Z.min max SSH_MAX_PACKET)) b
  | OpenConfirmation local remote window max => open_confirmed w local remote window max
  | OpenFailure n _ _ _ => open_failed w n
  | WindowAdjust n size => window_adjusted w n size
  | ChannelData n d => data_received w n d
  | ExtendedData n type d => extended_data_received w n type d
  | ChannelEof n => eof_received w n
  | ChannelClose n => close_received w n
  | ChannelRequest n type want_reply => channel_requested w n type want_reply b
  | ChannelSuccess n => request_replied w n CHANNEL_EVENT_SUCCESS "Invalid CHANNEL_SUCCESS message"
  | ChannelFailure n => request_replied w n CHANNEL_EVENT_FAILURE "Invalid CHANNEL_FAILURE message."
  end.

(** The text sent when the fields of a message are malformed. *)
Definition malformed (number : Z) : string :=
  if number =? SSH_MSG_GLOBAL_REQUEST then "Invalid SSH_MSG_GLOBAL_REQUEST message."
  else if number =? SSH_MSG_REQUEST_SUCCESS then "Invalid GLOBAL_REQUEST_SUCCESS message."
  else if number =? SSH_MSG_REQUEST_FAILURE then "Invalid GLOBAL_REQUEST_FAILURE message."
  else if number =? SSH_MSG_CHANNEL_OPEN then "Invalid SSH_MSG_CHANNEL_OPEN message."
  else if number =? SSH_MSG_CHANNEL_OPEN_CONFIRMATION then "Invalid CHANNEL_OPEN_CONFIRMATION message."
  else if number =? SSH_MSG_CHANNEL_OPEN_FAILURE then "Invalid CHANNEL_OPEN_FAILURE message."
  else if number =? SSH_MSG_CHANNEL_WINDOW_ADJUST then "Invalid CHANNEL_WINDOW_ADJUST message."
  else if number =? SSH_MSG_CHANNEL_DATA then "Invalid CHANNEL_DATA message."
  else if number =? SSH_MSG_CHANNEL_EXTENDED_DATA then "Invalid CHANNEL_EXTENDED_DATA message."
  else if number =? SSH_MSG_CHANNEL_EOF then "Invalid CHANNEL_EOF message"
  else if number =? SSH_MSG_CHANNEL_CLOSE then "Invalid CHANNEL_CLOSE message"
  else if number =? SSH_MSG_CHANNEL_REQUEST then "Invalid SSH_MSG_CHANNEL_REQUEST message."
  else if number =? SSH_MSG_CHANNEL_SUCCESS then "Invalid CHANNEL_SUCCESS message"
  else "Invalid CHANNEL_FAILURE message.".

(** Octets that a message accounts for: all of them, unless it may carry
    further fields. *)
Definition tail_ok (m : message) (tl : list Z) : Prop := open_ended m = false → tl = [].

(** The handler [h] of message number [c] decodes the fields in [b] and acts
    on the message, or reports them as malformed. *)
Definition decodes (c : Z) (h : world E → simple_buffer → result (world E)) : Prop :=
  ∀ w b, buffer_wf b →
  (∃ m b', number_of m = c ∧ message_ok m ∧ buffer_wf b' ∧ tail_ok m (remaining b')
     ∧ remaining b = fields m ++ remaining b' ∧ h w b = act w m b')
  ∨ (h w b = SSH_CONNECTION_ERROR w (malformed c)
     ∧ ∀ m tl, number_of m = c → message_ok m → tail_ok m tl → remaining b ≠ fields m ++ tl).

(** Messages that fill the packet. *)
Lemma whole_decodes {A} (p : parser A) enc ok (mk : A → message) c h :
  Whole p enc ok →
  (∀ v, ok v → message_ok (mk v) ∧ number_of (mk v) = c ∧ open_ended (mk v) = false ∧ fields (mk v) = enc v) →
  (∀ m, number_of m = c → message_ok m → ∃ v, m = mk v ∧ ok v) →
  (∀ w b b', p b = Ok (b', None) → h w b = SSH_CONNECTION_ERROR w (malformed c)) →
  (∀ w b b' v, p b = Ok (b', Some v) → h w b = act w (mk v) b') →
  decodes c h.
Proof.
  intros Hp Hmk Hinv Hnone Hsome w b Hwf.
  destruct (whole_exact (p := p) b Hwf) as (b1 & r & Hb1 & Hw1 & Hv). destruct r as [v |].
  - left. destruct (Hv v eq_refl) as [Hok Hr]. destruct (Hmk v Hok) as (Hm & Hn & Ho & Hf).
    destruct (whole_reads v b Hok Hwf Hr) as (b2 & Hb2 & Hw2 & Hr2). rewrite Hb1 in Hb2. injection Hb2 as <-.
    exists (mk v), b1. split_and!; [done | done | done | by intros _ | by rewrite Hr2, app_nil_r, Hf |].
    by apply Hsome.
  - right. split; [by apply (Hnone w b b1) |]. intros m tl Hn Hm Ht. destruct (Hinv m Hn Hm) as (v & -> & Hok).
    destruct (Hmk v Hok) as (_ & _ & Ho & Hf). rewrite (Ht Ho), app_nil_r, Hf.
    by apply (whole_refuses p enc ok b b1).
Qed.

(** Messages that leave the rest of the packet to a handler. *)
Lemma codec_decodes {A} (p : parser A) enc ok (mk : A → message) c h :
  Codec p enc ok →
  (∀ v, ok v → message_ok (mk v) ∧ number_of (mk v) = c ∧ open_ended (mk v) = true ∧ fields (mk v) = enc v) →
  (∀ m, number_of m = c → message_ok m → ∃ v, m = mk v ∧ ok v) →
  (∀ w b b', p b = Ok (b', None) → h w b = SSH_CONNECTION_ERROR w (malformed c)) →
  (∀ w b b' v, p b = Ok (b', Some v) → h w b = act w (mk v) b') →
  decodes c h.
Proof.
  intros Hp Hmk Hinv Hnone Hsome w b Hwf.
  destruct (codec_exact (p := p) b Hwf) as (b1 & r & Hb1 & Hw1 & Hs1 & Hv). destruct r as [v |].
  - left. destruct (Hv v eq_refl) as [Hok Hr]. destruct (Hmk v Hok) as (Hm & Hn & Ho & Hf).
    exists (mk v), b1. split_and!; [done | done | done | | by rewrite Hf | by apply Hsome].
    intros Hc. congruence.
  - right. split; [by apply (Hnone w b b1) |]. intros m tl Hn Hm Ht. destruct (Hinv m Hn Hm) as (v & -> & Hok).
    destruct (Hmk v Hok) as (_ & _ & Ho & Hf). rewrite Hf. by apply (codec_refuses p enc ok b b1).
Qed.

(** The side conditions are computations on the constructors. *)
Ltac message_fields := intros; repeat match goal with v : _ * _ |- _ => destruct v end; simpl in *; tauto || done.
Ltac message_inversion :=
  let m := fresh in intros m ? ?; destruct m; try done; simpl in *.
Lemma handle_global_request_decodes : decodes SSH_MSG_GLOBAL_REQUEST handle_global_request.
Proof.
  apply (codec_decodes parse_request _ _ (λ v, GlobalRequest v.1 v.2) _ _ _).
  - message_fields.
  - message_inversion; by exists (type, want_reply).
  - intros w b b' Hp. unfold handle_global_request. by rewrite Hp.
  - intros w b b' [type want_reply] Hp. unfold handle_global_request. by rewrite Hp.
Qed.

Lemma handle_global_success_decodes : decodes SSH_MSG_REQUEST_SUCCESS handle_global_success.
Proof.
  apply (whole_decodes parse_eod _ _ (λ _, RequestSuccess) _ _ _).
  - message_fields.
  - message_inversion; by exists ().
  - intros w b b' Hp. unfold handle_global_success. by rewrite Hp.
  - intros w b b' v Hp. unfold handle_global_success. by rewrite Hp.
Qed.

Lemma handle_global_failure_decodes : decodes SSH_MSG_REQUEST_FAILURE handle_global_failure.
Proof.
  apply (whole_decodes parse_eod _ _ (λ _, RequestFailure) _ _ _).
  - message_fields.
  - message_inversion; by exists ().
  - intros w b b' Hp. unfold handle_global_failure. by rewrite Hp.
  - intros w b b' v Hp. unfold handle_global_failure. by rewrite Hp.
Qed.

Lemma handle_channel_request_decodes : decodes SSH_MSG_CHANNEL_REQUEST handle_channel_request.
Proof.
  apply (codec_decodes parse_channel_request _ _ (λ v, ChannelRequest v.1 v.2.1 v.2.2) _ _ _).
  - message_fields.
  - message_inversion; by exists (n, (type, want_reply)).
  - intros w b b' Hp. unfold handle_channel_request. by rewrite Hp.
  - intros w b b' [n [type want_reply]] Hp. unfold handle_channel_request. by rewrite Hp.
Qed.

Lemma handle_open_confirm_decodes : decodes SSH_MSG_CHANNEL_OPEN_CONFIRMATION handle_open_confirm.
Proof.
  apply (whole_decodes parse_open_confirm _ _ (λ v, OpenConfirmation v.1 v.2.1 v.2.2.1 v.2.2.2) _ _ _).
  - message_fields.
  - message_inversion; by exists (local, (remote, (window, max))).
  - intros w b b' Hp. unfold handle_open_confirm. by rewrite Hp.
  - intros w b b' [l [r [win mx]]] Hp. unfold handle_open_confirm. by rewrite Hp.
Qed.

Lemma handle_open_failure_decodes : decodes SSH_MSG_CHANNEL_OPEN_FAILURE handle_open_failure.
Proof.
  apply (whole_decodes parse_open_failure _ _ (λ v, OpenFailure v.1 v.2.1 v.2.2.1 v.2.2.2) _ _ _).
  - message_fields.
  - message_inversion; by exists (n, (reason, (msg, language))).
  - intros w b b' Hp. unfold handle_open_failure. by rewrite Hp.
  - intros w b b' [n [r [msg lang]]] Hp. unfold handle_open_failure. by rewrite Hp.
Qed.

Lemma handle_adjust_window_decodes : decodes SSH_MSG_CHANNEL_WINDOW_ADJUST handle_adjust_window.
Proof.
  apply (whole_decodes parse_number2 _ _ (λ v, WindowAdjust v.1 v.2) _ _ _).
  - message_fields.
  - message_inversion; by exists (n, size).
  - intros w b b' Hp. unfold handle_adjust_window. by rewrite Hp.
  - intros w b b' [n size] Hp. unfold handle_adjust_window. by rewrite Hp.
Qed.

Lemma handle_channel_data_decodes : decodes SSH_MSG_CHANNEL_DATA handle_channel_data.
Proof.
  apply (whole_decodes parse_data _ _ (λ v, ChannelData v.1 v.2) _ _ _).
  - message_fields.
  - message_inversion; by exists (n, d).
  - intros w b b' Hp. unfold handle_channel_data. by rewrite Hp.
  - intros w b b' [n d] Hp. unfold handle_channel_data. by rewrite Hp.
Qed.

Lemma handle_channel_extended_data_decodes : decodes SSH_MSG_CHANNEL_EXTENDED_DATA handle_channel_extended_data.
Proof.
  apply (whole_decodes parse_extended_data _ _ (λ v, ExtendedData v.1 v.2.1 v.2.2) _ _ _).
  - message_fields.
  - message_inversion; by exists (n, (type, d)).
  - intros w b b' Hp. unfold handle_channel_extended_data. by rewrite Hp.
  - intros w b b' [n [type d]] Hp. unfold handle_channel_extended_data. by rewrite Hp.
Qed.

Lemma handle_channel_eof_decodes : decodes SSH_MSG_CHANNEL_EOF handle_channel_eof.
Proof.
  apply (whole_decodes parse_number _ _ (ChannelEof) _ _ _).
  - message_fields.
  - message_inversion; by exists n.
  - intros w b b' Hp. unfold handle_channel_eof. by rewrite Hp.
  - intros w b b' n Hp. unfold handle_channel_eof. by rewrite Hp.
Qed.

Lemma handle_channel_close_decodes : decodes SSH_MSG_CHANNEL_CLOSE handle_channel_close.
Proof.
  apply (whole_decodes parse_number _ _ (ChannelClose) _ _ _).
  - message_fields.
  - message_inversion; by exists n.
  - intros w b b' Hp. unfold handle_channel_close. by rewrite Hp.
  - intros w b b' n Hp. unfold handle_channel_close. by rewrite Hp.
Qed.

Lemma handle_channel_success_decodes : decodes SSH_MSG_CHANNEL_SUCCESS handle_channel_success.
Proof.
  apply (whole_decodes parse_number _ _ (ChannelSuccess) _ _ _).
  - message_fields.
  - message_inversion; by exists n.
  - intros w b b' Hp. unfold handle_channel_success, channel_reply. by rewrite Hp.
  - intros w b b' n Hp. unfold handle_channel_success, channel_reply. by rewrite Hp.
Qed.

Lemma handle_channel_failure_decodes : decodes SSH_MSG_CHANNEL_FAILURE handle_channel_failure.
Proof.
  apply (whole_decodes parse_number _ _ (ChannelFailure) _ _ _).
  - message_fields.
  - message_inversion; by exists n.
  - intros w b b' Hp. unfold handle_channel_failure, channel_reply. by rewrite Hp.
  - intros w b b' n Hp. unfold handle_channel_failure, channel_reply. by rewrite Hp.
Qed.

(** [parse_channel_open] limits the packet size. *)
Lemma handle_channel_open_decodes : decodes SSH_MSG_CHANNEL_OPEN handle_channel_open.
Proof.
  apply (codec_decodes parse_open_fields _ _ (λ v, ChannelOpen v.1 v.2.1 v.2.2.1 v.2.2.2) _ _ _).
  - message_fields.
  - message_inversion; by exists (type, (remote, (window, max))).
  - intros w b b' Hp. unfold handle_channel_open, parse_channel_open, mbind at 2, parser_bind. by rewrite Hp.
  - intros w b b' [type [remote [window max]]] Hp.
    unfold handle_channel_open, parse_channel_open, mbind at 2, parser_bind. rewrite Hp. simpl.
    replace (if SSH_MAX_PACKET <? max then SSH_MAX_PACKET else max) with (Z.min max SSH_MAX_PACKET); [done |].
    destruct (Z.ltb_spec SSH_MAX_PACKET max); lia.
Qed.

Ltac message_numbers := unfold SSH_MSG_GLOBAL_REQUEST, SSH_MSG_REQUEST_SUCCESS, SSH_MSG_REQUEST_FAILURE, SSH_MSG_CHANNEL_OPEN,
  SSH_MSG_CHANNEL_OPEN_CONFIRMATION, SSH_MSG_CHANNEL_OPEN_FAILURE, SSH_MSG_CHANNEL_WINDOW_ADJUST, SSH_MSG_CHANNEL_DATA,
  SSH_MSG_CHANNEL_EXTENDED_DATA, SSH_MSG_CHANNEL_EOF, SSH_MSG_CHANNEL_CLOSE, SSH_MSG_CHANNEL_REQUEST,
  SSH_MSG_CHANNEL_SUCCESS, SSH_MSG_CHANNEL_FAILURE in *; lia.

Definition implemented (c : Z) : Prop := 80 <= c <= 82 ∨ 90 <= c <= 100.

Lemma message_handler_decodes c :
  match message_handler c with
  | Some h => implemented c ∧ decodes c h
  | None => ¬ implemented c
  end.
Proof.
  unfold message_handler, implemented.
  repeat match goal with |- context [if ?c =? ?n then _ else _] =>
    destruct (Z.eqb_spec c n) as [-> |]; [split; [message_numbers |] |] end.
  - apply handle_global_request_decodes.
  - apply handle_global_success_decodes.
  - apply handle_global_failure_decodes.
  - apply handle_channel_open_decodes.
  - apply handle_open_confirm_decodes.
  - apply handle_open_failure_decodes.
  - apply handle_adjust_window_decodes.
  - apply handle_channel_data_decodes.
  - apply handle_channel_extended_data_decodes.
  - apply handle_channel_eof_decodes.
  - apply handle_channel_close_decodes.
  - apply handle_channel_request_decodes.
  - apply handle_channel_success_decodes.
  - apply handle_channel_failure_decodes.
  - message_numbers.
Qed.

(** The message number is read first. *)
Lemma packet_number c rest :
  Forall is_byte (c :: rest) → lenZ (c :: rest) < 2 ^ 32 →
  ∃ b, parse_uint8 (simple_buffer_init (lenZ (c :: rest)) (c :: rest)) = Ok (b, Some c)
       ∧ buffer_wf b ∧ remaining b = rest.
Proof.
  intros Hb Hl. destruct (init_wf (c :: rest) Hb Hl) as [Hwf Hr].
  apply (codec_reads (p := parse_uint8) c _ rest); [by inversion Hb | done | done].
Qed.


(** ** Safety *)

Context `{!MethodsOk E}.

Lemma act_wf w m b :
  world_wf w → message_ok m → buffer_wf b → returns (act w m b) world_wf.
Proof.
  intros Hw Hm Hb.
  assert (∀ r, steps w r → returns r world_wf) as Hs.
  { intros r Hr. eapply returns_weaken; [exact Hr |]. by intros w' [? _]. }
  destruct m; simpl in *; [apply Hs.. | | apply Hs | apply Hs | apply Hs | apply Hs | apply Hs | apply Hs | apply Hs | apply Hs].
  - by apply global_requested_steps.
  - by apply global_reply_steps.
  - by apply global_reply_steps.
  - destruct Hm as (_ & Hr & Hwin & Hmax). apply open_requested_steps; [done | | done].
    split; simpl; [done | done | done |]. unfold is_u32, SSH_MAX_PACKET in *. lia.
  - destruct Hm as ([Hl _] & Hr & Hwin & Hmax). by apply open_confirmed_steps.
  - destruct Hm as ([Hl _] & _). by apply open_failed_wf.
  - destruct Hm as [[Hl _] _]. by apply window_adjusted_steps.
  - destruct Hm as [[Hl _] [Hd _]]. by apply data_received_steps.
  - destruct Hm as ([Hl _] & _ & Hd & _). by apply extended_data_received_steps.
  - destruct Hm as [Hl _]. by apply eof_received_steps.
  - destruct Hm as [Hl _]. by apply close_received_steps.
  - destruct Hm as ([Hl _] & _). by apply channel_requested_steps.
  - destruct Hm as [Hl _]. by apply request_replied_steps.
  - destruct Hm as [Hl _]. by apply request_replied_steps.
Qed.

Lemma packet_handler_wf w packet :
  world_wf w → Forall is_byte packet → 0 < lenZ packet < 2 ^ 32 →
  returns (channel_packet_handler w (lenZ packet) packet) (λ '(w', r), world_wf w' ∧ (r = 0 ∨ r = 1)).
Proof.
  intros Hw Hb Hl. destruct packet as [| c rest]; [by destruct Hl |].
  destruct (packet_number c rest Hb) as (b & Hp & Hwf & Hr); [lia |].
  unfold channel_packet_handler. rewrite Hp, bind_ok_l.
  pose proof (message_handler_decodes c) as Hh. destruct (message_handler c) as [h |]; [| by apply returns_ok; auto].
  destruct Hh as [_ Hdec]. eapply (returns_bind _ _ world_wf); [| intros w' Hw'; by apply returns_ok; auto].
  destruct (Hdec w b Hwf) as [(m & b' & _ & Hm & Hwf' & _ & _ & ->) | [-> _]]; [by apply act_wf |].
  eapply returns_weaken; [by apply connection_error_steps |]. by intros w' [? _].
Qed.

(** A session: the packets a peer sends, one after the other. *)
Fixpoint handle_packets w (packets : list (list Z)) : result (world E) :=
  match packets with
  | [] => Ok w
  | packet :: packets =>
      '(w, _) ← channel_packet_handler w (lenZ packet) packet;
      handle_packets w packets
  end.

(** C14: no peer can make the connection layer fault.  From any well-formed
    world, and with methods that keep to their contract, every sequence of
    non-empty packets is handled to the end: no assertion fails, no null or
    dangling channel is used, nothing uninitialised or outside the packet is
    read, and the world stays well formed. *)
Theorem handle_packets_safe w packets :
  world_wf w → Forall (λ packet, Forall is_byte packet ∧ 0 < lenZ packet < 2 ^ 32) packets →
  ∃ w', handle_packets w packets = Ok w' ∧ world_wf w'.
Proof.
  intros Hw Hp. revert w Hw. induction Hp as [| packet packets [Hb Hl] _ IH]; intros w Hw; [by exists w |].
  simpl. destruct (packet_handler_wf w packet Hw Hb Hl) as ([w1 r] & -> & Hw1 & _). rewrite bind_ok_l. by apply IH.
Qed.

End dispatch.

(** ** Instances *)

(** A server that offers channels of type 46, "session": the peer opens one,
    sends data and end of file, then garbage. *)
Definition session_world : world (list effect) :=
  with_conn (fresh_world [])
    (mk_connection true (mk_resources true []) (space_alloc INITIAL_CHANNELS) (space_alloc INITIAL_CHANNELS)
       INITIAL_CHANNELS 0 0 0 MAX_CHANNELS false ∅ {[ 46 := 1%nat ]} None [] []).

Lemma session_world_wf : world_wf session_world.
Proof.
  apply conn_fields_wf; [apply fresh_world_wf | | done | done].
  destruct init_ssh_connection_wf. exists [], []. by split.
Qed.

Definition session_packets : list (list Z) :=
  [ encode (ChannelOpen (cstr "session") 7 1000 1000);
    encode (ChannelData 0 [104; 105]);
    encode (ChannelEof 0);
    [94; 0; 0] ].

Lemma session_packets_ok : Forall (λ packet, Forall is_byte packet ∧ 0 < lenZ packet < 2 ^ 32) session_packets.
Proof.
  repeat (apply Forall_cons; split; [split; [by apply (bool_decide_unpack _); vm_compute | by vm_compute] |]).
  constructor.
Qed.

Lemma handle_packets_safe_witness :
  ∃ w', handle_packets (HM := server) session_world session_packets = Ok w' ∧ world_wf w'.
Proof. apply (handle_packets_safe (MethodsOk0 := server_ok)); [apply session_world_wf | apply session_packets_ok]. Defined.

