(* ===== verification/ChannelFlow.v ===== *)
(** * Flow control between the two ends of a channel

    Two ends of a connection, each running [channel.c], joined by two queues
    of packets.  One end sends data with [channel_transmit_data]; the other
    receives it through [channel_packet_handler] and returns window space
    with [channel_adjust_rec_window] for what its application consumed. *)

From S2P Require Import Prelude Ssh Nettle Atoms LshString Format FormatSpec Wire Parse ParseSpec Connection Channel ChannelFormat ChannelSpec ChannelEnv ChannelHandler.
Local Open Scope Z_scope.

(** ** An end of the connection

    Packets written are queued for the peer, data received is collected. *)

Record endpoint := mk_endpoint {
  ep_out : list (list Z);
  ep_got : list Z;
}.

Definition with_env {E} (w : world E) (e : E) : world E := mk_world (w_conn w) (w_heap w) e.

Definition push_out (packet : list Z) (w : world endpoint) : world endpoint :=
  with_env w (mk_endpoint (ep_out (w_env w) ++ [packet]) (ep_got (w_env w))).
Definition push_got (data : list Z) (w : world endpoint) : world endpoint :=
  with_env w (mk_endpoint (ep_out (w_env w)) (ep_got (w_env w) ++ data)).
Definition set_queue (w : world endpoint) (out : list (list Z)) : world endpoint :=
  with_env w (mk_endpoint out (ep_got (w_env w))).

#[export] Instance endpoint_methods : Methods endpoint := {|
  m_write s w := Ok (push_out (contents s) w);
  m_disconnect _ _ w := Ok w;
  m_kill_connection w := Ok w;
  m_kill_channel p w := ch ← get_channel w p; Ok (with_channel w p (set_alive ch false));
  m_event _ _ w := Ok w;
  m_receive _ _ data w := Ok (push_got data w);
  m_send_adjust _ _ w := Ok w;
  m_channel_request _ _ _ _ w := Ok w;
  m_global_request _ _ _ w := Ok w;
  m_channel_open _ _ _ w := Ok w;
  m_request_done _ _ w := Ok w;
|}.

Lemma with_env_id {E} (w : world E) : with_env w (w_env w) = w.
Proof. by destruct w. Qed.

Lemma with_env_wf {E} (w : world E) e : world_wf w → world_wf (with_env w e).
Proof. intros [Hc Hl Hs Hk Hh]. by split. Qed.

(** An active channel that neither side has begun to close. *)
Record open_channel (w : world endpoint) (p : ptr) (ch : ssh_channel) : Prop := {
  oc_wf : world_wf w;
  oc_heap : w_heap w !! p = Some ch;
  oc_link : ch_connection ch = true;
  oc_active : number_state (w_conn w) (Z.to_nat (ch_local_channel_number ch)) = CHANNEL_ALLOC_ACTIVE;
  oc_flags : ch_flags ch = 0;
}.

Lemma open_channel_ok w p ch : open_channel w p ch → channel_ok ch.
Proof. intros Ho. apply (wf_heap _ (oc_wf _ _ _ Ho) p), Ho. Qed.

Lemma open_channel_in w p ch :
  open_channel w p ch → channel_in w (ch_local_channel_number ch) CHANNEL_ALLOC_ACTIVE = Some p.
Proof.
  intros [Hw Hp Hc Ha _]. unfold channel_in. rewrite bool_decide_eq_true_2 by done. by apply (wf_linked _ Hw).
Qed.

(** Updates of the window sizes and the queues keep the channel open. *)
Lemma open_channel_update w p ch ch' e :
  open_channel w p ch → ch_connection ch' = ch_connection ch →
  ch_local_channel_number ch' = ch_local_channel_number ch → ch_flags ch' = ch_flags ch → channel_ok ch' →
  open_channel (with_env (with_channel w p ch') e) p ch'.
Proof.
  intros [Hw Hp Hc Ha Hf] Hc' Hl' Hf' Hok. split.
  - by apply with_env_wf, (update_wf w p ch).
  - apply with_channel_lookup.
  - congruence.
  - simpl. by rewrite Hl'.
  - congruence.
Qed.

Lemma open_channel_env w p ch e : open_channel w p ch → open_channel (with_env w e) p ch.
Proof. intros [Hw ? ? ? ?]. split; try done. by apply with_env_wf. Qed.

Section flow.
Context `{MallocOk} `{NettleMacrosOk} `{NettleBignumOk} `{AtomTableOk}.

Lemma flagged_none ch mask : ch_flags ch = 0 → flagged ch mask = false.
Proof. unfold flagged. intros ->. by rewrite Z.land_0_l. Qed.

(** ** The four operations, exactly *)

Definition sent_on (ch : ssh_channel) (n : Z) : ssh_channel :=
  set_send ch (ch_remote_channel_number ch) (ch_send_window_size ch - n) (ch_send_max_packet ch).

Lemma transmit_exact w p ch d :
  open_channel w p ch → Forall is_byte d → lenZ d <= ch_send_window_size ch →
  lenZ d <= ch_send_max_packet ch → lenZ d < 2 ^ 31 →
  channel_transmit_data w p (lenZ d) d
  = Ok (push_out (encode (ChannelData (ch_remote_channel_number ch) d)) (with_channel w p (sent_on ch (lenZ d)))).
Proof.
  intros Ho Hd Hlw Hlm Hl. pose proof (open_channel_ok _ _ _ Ho) as Hok. destruct Ho as [Hw Hp Hc _ _].
  unfold channel_transmit_data. rewrite (get_channel_ok w p ch Hp), bind_ok_l. do 2 pass_assert. cbv zeta.
  rewrite u32_id by (destruct Hok as [_ _ _ _ Hsw _]; len_lia).
  unfold channel_write. rewrite (get_channel_ok _ p _ (with_channel_lookup _ _ _)), bind_ok_l.
  simpl ch_connection. rewrite Hc. unfold connection_write.
  destruct (format_channel_data_spec (ch_remote_channel_number ch) d) as (s & -> & _ & Hs); [apply Hok | done | lia |].
  rewrite bind_ok_l. simpl m_write. by rewrite Hs.
Qed.

Lemma transmit_returns w p ch d w' :
  open_channel w p ch → channel_transmit_data w p (lenZ d) d = Ok w' →
  lenZ d <= ch_send_window_size ch ∧ lenZ d <= ch_send_max_packet ch.
Proof.
  intros Ho. unfold channel_transmit_data. rewrite (get_channel_ok w p ch (oc_heap _ _ _ Ho)), bind_ok_l.
  intros Ht. ok_inv. lia.
Qed.

(** Delivery of one message. *)
Lemma deliver_data w n d :
  is_u32 n → string_ok d → lenZ d < 2 ^ 31 →
  channel_packet_handler w (lenZ (encode (ChannelData n d))) (encode (ChannelData n d))
  = (w' ← data_received w n d; Ok (w', 1)).
Proof.
  intros Hn Hd Hl. destruct (packet_number SSH_MSG_CHANNEL_DATA (be32 n ++ wire_string d)) as (b & Hb & Hwf & Hr).
  { apply Forall_cons; split; [done |]. unfold wire_string. rewrite !Forall_app.
    split_and!; [apply be_bytes_bytes | apply be_bytes_bytes | apply Hd]. }
  { rewrite lenZ_cons, lenZ_app, lenZ_wire_string, lenZ_be32. lia. }
  change (encode (ChannelData n d)) with (SSH_MSG_CHANNEL_DATA :: be32 n ++ wire_string d).
  unfold channel_packet_handler. rewrite Hb, bind_ok_l.
  change (message_handler SSH_MSG_CHANNEL_DATA) with (Some (handle_channel_data (E := endpoint))). cbv iota.
  unfold handle_channel_data.
  destruct (whole_reads (p := parse_data) (n, d) b) as (b2 & Hb2 & _); [done | done | done |].
  by rewrite Hb2, bind_ok_l.
Qed.

Lemma deliver_adjust w n size :
  is_u32 n → is_u32 size →
  channel_packet_handler w (lenZ (encode (WindowAdjust n size))) (encode (WindowAdjust n size))
  = (w' ← window_adjusted w n size; Ok (w', 1)).
Proof.
  intros Hn Hs. destruct (packet_number SSH_MSG_CHANNEL_WINDOW_ADJUST (be32 n ++ be32 size)) as (b & Hb & Hwf & Hr).
  { apply Forall_cons; split; [done |]. rewrite Forall_app. split; apply be_bytes_bytes. }
  { rewrite lenZ_cons, lenZ_app, !lenZ_be32. lia. }
  change (encode (WindowAdjust n size)) with (SSH_MSG_CHANNEL_WINDOW_ADJUST :: be32 n ++ be32 size).
  unfold channel_packet_handler. rewrite Hb, bind_ok_l.
  change (message_handler SSH_MSG_CHANNEL_WINDOW_ADJUST) with (Some (handle_adjust_window (E := endpoint))). cbv iota.
  unfold handle_adjust_window.
  destruct (whole_reads (p := parse_number2) (n, size) b) as (b2 & Hb2 & _); [done | done | done |].
  by rewrite Hb2, bind_ok_l.
Qed.

Definition received_on (ch : ssh_channel) (n : Z) : ssh_channel :=
  set_receive_limits ch (ch_rec_window_size ch - n) (ch_rec_max_packet ch).

(** Data within the window and the packet limit is delivered in full. *)
Lemma received_exact w p ch d :
  open_channel w p ch → ch_receive ch = true →
  lenZ d <= ch_rec_window_size ch → lenZ d <= ch_rec_max_packet ch →
  data_received w (ch_local_channel_number ch) d
  = Ok (if lenZ d =? 0 then w else push_got d (with_channel w p (received_on ch (lenZ d)))).
Proof.
  intros Ho Hrec Hlw Hlm. pose proof (open_channel_ok _ _ _ Ho) as Hok. pose proof (open_channel_in _ _ _ Ho) as Hin.
  destruct Ho as [Hw Hp Hc Ha Hf]. pose proof (lenZ_nonneg d).
  unfold data_received. rewrite lookup_in, bind_ok_l, Hin by (auto; apply Hok).
  unfold receive_data_common. rewrite (get_channel_ok w p ch Hp), bind_ok_l, Hrec, !flagged_none by done. simpl negb. cbv iota.
  simpl andb. cbv iota.
  destruct (accepted_length_range ch (lenZ d) Hok) as [_ ->]; [done |].
  replace (Z.min _ _) with (lenZ d) by lia. unfold c_true.
  destruct (Z.eqb_spec (lenZ d) 0); simpl negb; cbv iota; [done |].
  rewrite u32_id by (destruct Hok as [_ _ Hrw _ _ _]; unfold is_u32 in *; lia).
  rewrite slice_all. done.
Qed.

Definition adjusted_by (ch : ssh_channel) (n : Z) : ssh_channel :=
  set_receive_limits ch (ch_rec_window_size ch + n) (ch_rec_max_packet ch).

Lemma adjust_exact w p ch n :
  open_channel w p ch → 0 < n → ch_rec_window_size ch + n < 2 ^ 32 →
  channel_adjust_rec_window w p n
  = Ok (push_out (encode (WindowAdjust (ch_remote_channel_number ch) n)) (with_channel w p (adjusted_by ch n))).
Proof.
  intros Ho Hn Hl. pose proof (open_channel_ok _ _ _ Ho) as Hok. destruct Ho as [Hw Hp Hc _ Hf].
  unfold channel_adjust_rec_window. rewrite (get_channel_ok w p ch Hp), bind_ok_l, flagged_none by done.
  unfold c_true. rewrite (proj2 (Z.eqb_neq _ _)) by lia. simpl negb. simpl andb. cbv iota.
  unfold send_window_adjust. rewrite (get_channel_ok w p ch Hp), bind_ok_l. cbv zeta.
  rewrite u32_id by (destruct Hok as [_ _ Hrw _ _ _]; unfold is_u32 in *; lia).
  unfold channel_write. rewrite (get_channel_ok _ p _ (with_channel_lookup _ _ _)), bind_ok_l.
  simpl ch_connection. rewrite Hc. unfold connection_write, format_channel_window_adjust.
  destruct (formats_number2 SSH_MSG_CHANNEL_WINDOW_ADJUST (ch_remote_channel_number ch) n) as (s & Hs & _ & Hcs);
    [done | apply Hok | destruct Hok as [_ _ Hrw _ _ _]; unfold is_u32 in *; lia |].
  simpl ch_remote_channel_number. rewrite Hs, bind_ok_l. simpl m_write. by rewrite Hcs.
Qed.

Definition credited (ch : ssh_channel) (n : Z) : ssh_channel :=
  set_send ch (ch_remote_channel_number ch) (ch_send_window_size ch + n) (ch_send_max_packet ch).

Lemma credited_exact w p ch n :
  open_channel w p ch → 0 <= n → ch_send_window_size ch + n < 2 ^ 32 →
  window_adjusted w (ch_local_channel_number ch) n = Ok (with_channel w p (credited ch n)).
Proof.
  intros Ho Hn Hl. pose proof (open_channel_ok _ _ _ Ho) as Hok. pose proof (open_channel_in _ _ _ Ho) as Hin.
  destruct Ho as [Hw Hp Hc Ha Hf].
  unfold window_adjusted. rewrite lookup_in, bind_ok_l, Hin by (auto; apply Hok).
  rewrite (get_channel_ok w p ch Hp), bind_ok_l, !flagged_none by done. cbv zeta.
  rewrite u32_id by (destruct Hok as [_ _ _ _ Hsw _]; unfold is_u32 in *; lia).
  by destruct (c_true _ && _).
Qed.

(** ** The two ends together *)

(** The sending end, the receiving end, all the data handed to
    [channel_transmit_data], and how much the receiving application holds
    without having returned the window for it. *)
Record flow := mk_flow {
  fl_a : world endpoint;
  fl_b : world endpoint;
  fl_sent : list Z;
  fl_held : Z;
}.

Inductive flow_step (pa pb : ptr) : flow → flow → Prop :=
  | flow_transmit a b sent held d a' :
      Forall is_byte d → lenZ d < 2 ^ 31 → channel_transmit_data a pa (lenZ d) d = Ok a' →
      flow_step pa pb (mk_flow a b sent held) (mk_flow a' b (sent ++ d) held)
  | flow_data_arrives a b sent held packet rest b' r :
      ep_out (w_env a) = packet :: rest →
      channel_packet_handler b (lenZ packet) packet = Ok (b', r) →
      flow_step pa pb (mk_flow a b sent held)
        (mk_flow (set_queue a rest) b' sent (held + (lenZ (ep_got (w_env b')) - lenZ (ep_got (w_env b)))))
  | flow_consume a b sent held n b' :
      0 < n <= held → channel_adjust_rec_window b pb n = Ok b' →
      flow_step pa pb (mk_flow a b sent held) (mk_flow a b' sent (held - n))
  | flow_adjust_arrives a b sent held packet rest a' r :
      ep_out (w_env b) = packet :: rest →
      channel_packet_handler a (lenZ packet) packet = Ok (a', r) →
      flow_step pa pb (mk_flow a b sent held) (mk_flow a' (set_queue b rest) sent held).

Fixpoint sumZ (l : list Z) : Z := match l with [] => 0 | x :: l => x + sumZ l end.

Lemma sumZ_app l k : sumZ (l ++ k) = sumZ l + sumZ k.
Proof. induction l; simpl; lia. Qed.

Lemma sumZ_nonneg l : Forall (λ n, 0 <= n) l → 0 <= sumZ l.
Proof. induction 1; simpl; lia. Qed.

(** [ds] is the data in flight to the receiver, [ns] the window space in
    flight to the sender. *)
Record flow_inv (size : Z) (pa pb : ptr) (s : flow) (ca cb : ssh_channel) (ds : list (list Z)) (ns : list Z)
  : Prop := {
  fi_a : open_channel (fl_a s) pa ca;
  fi_b : open_channel (fl_b s) pb cb;
  fi_size : size < 2 ^ 32;
  fi_receive : ch_receive cb = true;
  fi_remote : ch_remote_channel_number ca = ch_local_channel_number cb;
  fi_remote' : ch_remote_channel_number cb = ch_local_channel_number ca;
  fi_max : ch_send_max_packet ca <= ch_rec_max_packet cb;
  fi_data : ep_out (w_env (fl_a s)) = (λ d, encode (ChannelData (ch_local_channel_number cb) d)) <$> ds;
  fi_data_ok : Forall (λ d, Forall is_byte d ∧ lenZ d < 2 ^ 31 ∧ lenZ d <= ch_rec_max_packet cb) ds;
  fi_space : ep_out (w_env (fl_b s)) = (λ n, encode (WindowAdjust (ch_local_channel_number ca) n)) <$> ns;
  fi_space_ok : Forall (λ n, 0 <= n) ns;
  fi_lossless : ep_got (w_env (fl_b s)) ++ concat ds = fl_sent s;
  fi_window : ch_send_window_size ca + lenZ (concat ds) + sumZ ns = ch_rec_window_size cb;
  fi_total : ch_rec_window_size cb + fl_held s = size;
  fi_held : 0 <= fl_held s;
}.

Lemma concat_snoc {A} (l : list (list A)) x : concat (l ++ [x]) = concat l ++ x.
Proof. by rewrite concat_app, concat_cons, concat_nil, app_nil_r. Qed.

Lemma inv_transmit size pa pb a b sent held ca cb ds ns d a' :
  flow_inv size pa pb (mk_flow a b sent held) ca cb ds ns →
  Forall is_byte d → lenZ d < 2 ^ 31 → channel_transmit_data a pa (lenZ d) d = Ok a' →
  flow_inv size pa pb (mk_flow a' b (sent ++ d) held) (sent_on ca (lenZ d)) cb (ds ++ [d]) ns.
Proof.
  intros [Ha Hb Hsz Hrec Hr Hr' Hmax Hd Hdok Hs Hsok Hlo Hwin Htot Hheld] Hbd Hl Ht. simpl in *.
  destruct (transmit_returns a pa ca d a' Ha Ht) as [Hlw Hlm].
  rewrite (transmit_exact a pa ca d Ha Hbd Hlw Hlm Hl) in Ht. injection Ht as <-.
  pose proof (open_channel_ok _ _ _ Ha) as [? ? ? ? Hsw ?]. pose proof (lenZ_nonneg d).
  split; simpl; try done.
  - apply (open_channel_update a pa ca); try done. split; try done. simpl. unfold is_u32 in *. lia.
  - by rewrite Hd, fmap_app, Hr.
  - apply Forall_app. split; [done |]. apply Forall_singleton. split_and!; [done | done | lia].
  - by rewrite concat_snoc, app_assoc, Hlo.
  - rewrite concat_snoc, lenZ_app. lia.
Qed.

Lemma inv_data_arrives size pa pb a b sent held ca cb d ds ns :
  flow_inv size pa pb (mk_flow a b sent held) ca cb (d :: ds) ns →
  ∃ b' cb', let packet := encode (ChannelData (ch_local_channel_number cb) d) in
    channel_packet_handler b (lenZ packet) packet = Ok (b', 1)
    ∧ ep_got (w_env b') = ep_got (w_env b) ++ d
    ∧ flow_inv size pa pb (mk_flow (set_queue a ((λ d, encode (ChannelData (ch_local_channel_number cb) d)) <$> ds))
        b' sent (held + lenZ d)) ca cb' ds ns
    ∧ ch_local_channel_number cb' = ch_local_channel_number cb.
Proof.
  intros [Ha Hb Hsz Hrec Hr Hr' Hmax Hd Hdok Hs Hsok Hlo Hwin Htot Hheld]. simpl in *.
  apply Forall_cons in Hdok as [(Hbd & Hl & Hlm) Hdok]. rewrite lenZ_app in Hwin.
  pose proof (sumZ_nonneg ns Hsok). pose proof (lenZ_nonneg (concat ds)). pose proof (lenZ_nonneg d).
  pose proof (open_channel_ok _ _ _ Ha) as Hoka. pose proof (open_channel_ok _ _ _ Hb) as Hokb.
  assert (lenZ d <= ch_rec_window_size cb) as Hlw by (destruct Hoka as [_ _ _ _ [Hsw _] _]; lia).
  assert (channel_packet_handler b (lenZ (encode (ChannelData (ch_local_channel_number cb) d)))
    (encode (ChannelData (ch_local_channel_number cb) d))
    = Ok (if lenZ d =? 0 then b else push_got d (with_channel b pb (received_on cb (lenZ d))), 1)) as Hh.
  { rewrite deliver_data; [| apply Hokb | split; [done | len_lia] | done].
    by rewrite (received_exact b pb cb d Hb Hrec Hlw Hlm), bind_ok_l. }
  destruct (Z.eqb_spec (lenZ d) 0) as [Hz | Hne].
  - assert (d = []) as -> by (destruct d; [done | rewrite lenZ_cons in Hz; pose proof (lenZ_nonneg d); lia]).
    exists b, cb. split_and!; [done | by rewrite app_nil_r | | done]. rewrite lenZ_nil, Z.add_0_r.
    split; simpl; try done. by apply open_channel_env.
  - exists (push_got d (with_channel b pb (received_on cb (lenZ d)))), (received_on cb (lenZ d)).
    split_and!; [done | done | | done]. split; simpl; try done.
    + by apply open_channel_env.
    + apply (open_channel_update b pb cb); try done. destruct Hokb as [? ? Hrw ? ? ?]. split; try done.
      simpl. unfold is_u32 in *. lia.
    + by rewrite <- app_assoc.
    + lia.
    + lia.
    + lia.
Qed.

Lemma inv_consume size pa pb a b sent held ca cb ds ns n b' :
  flow_inv size pa pb (mk_flow a b sent held) ca cb ds ns →
  0 < n <= held → channel_adjust_rec_window b pb n = Ok b' →
  flow_inv size pa pb (mk_flow a b' sent (held - n)) ca (adjusted_by cb n) ds (ns ++ [n]).
Proof.
  intros [Ha Hb Hsz Hrec Hr Hr' Hmax Hd Hdok Hs Hsok Hlo Hwin Htot Hheld] Hn Hadj. simpl in *.
  rewrite (adjust_exact b pb cb n Hb) in Hadj by lia. injection Hadj as <-.
  pose proof (open_channel_ok _ _ _ Hb) as [? ? Hrw ? ? ?]. split; simpl; try done.
  - apply (open_channel_update b pb cb); try done. split; try done. simpl. unfold is_u32 in *. lia.
  - by rewrite Hs, fmap_app, Hr'.
  - apply Forall_app. split; [done |]. apply Forall_singleton. lia.
  - rewrite sumZ_app. simpl. lia.
  - lia.
  - lia.
Qed.

Lemma inv_adjust_arrives size pa pb a b sent held ca cb ds n ns :
  flow_inv size pa pb (mk_flow a b sent held) ca cb ds (n :: ns) →
  ∃ a', let packet := encode (WindowAdjust (ch_local_channel_number ca) n) in
    channel_packet_handler a (lenZ packet) packet = Ok (a', 1)
    ∧ flow_inv size pa pb (mk_flow a' (set_queue b ((λ n, encode (WindowAdjust (ch_local_channel_number ca) n)) <$> ns))
        sent held) (credited ca n) cb ds ns.
Proof.
  intros [Ha Hb Hsz Hrec Hr Hr' Hmax Hd Hdok Hs Hsok Hlo Hwin Htot Hheld]. simpl in *.
  apply Forall_cons in Hsok as [Hn Hsok]. pose proof (sumZ_nonneg ns Hsok). pose proof (lenZ_nonneg (concat ds)).
  pose proof (open_channel_ok _ _ _ Ha) as Hoka. pose proof Hoka as [Hl ? ? ? [Hsw ?] ?].
  pose proof (open_channel_ok _ _ _ Hb) as [? ? Hrw ? ? ?].
  exists (with_channel a pa (credited ca n)). cbv zeta.
  rewrite deliver_adjust; [| done | unfold is_u32 in *; lia].
  rewrite (credited_exact a pa ca n Ha) by lia. split; [done |]. split; simpl; try done.
  - rewrite <- (with_env_id (with_channel a pa (credited ca n))).
    apply (open_channel_update a pa ca); try done. split; try done. simpl. unfold is_u32. lia.
  - by apply open_channel_env.
  - lia.
Qed.

Lemma flow_step_inv size pa pb s s' ca cb ds ns :
  flow_inv size pa pb s ca cb ds ns → flow_step pa pb s s' →
  ∃ ca' cb' ds' ns', flow_inv size pa pb s' ca' cb' ds' ns'.
Proof.
  intros Hi Hs. destruct Hs as [a b sent held d a' Hd Hl Ht | a b sent held packet rest b' r Hq Hh
    | a b sent held n b' Hn Hadj | a b sent held packet rest a' r Hq Hh].
  - eexists _, _, _, _. by apply (inv_transmit size pa pb a b sent held ca cb ds ns d a').
  - pose proof (fi_data _ _ _ _ _ _ _ _ Hi) as Hq'. simpl in Hq'. rewrite Hq in Hq'.
    destruct ds as [| d ds]; [done |]. injection Hq' as -> ->.
    destruct (inv_data_arrives _ _ _ _ _ _ _ _ _ _ _ _ Hi) as (b1 & cb1 & Hh1 & Hg & Hi1 & _).
    cbv zeta in Hh1. rewrite Hh1 in Hh. injection Hh as <- <-. rewrite Hg, lenZ_app.
    replace (lenZ _ + lenZ d - lenZ _) with (lenZ d) by lia. by eexists _, _, _, _.
  - eexists _, _, _, _. by apply (inv_consume size pa pb a b sent held ca cb ds ns n b').
  - pose proof (fi_space _ _ _ _ _ _ _ _ Hi) as Hq'. simpl in Hq'. rewrite Hq in Hq'.
    destruct ns as [| n ns]; [done |]. injection Hq' as -> ->.
    destruct (inv_adjust_arrives _ _ _ _ _ _ _ _ _ _ _ _ Hi) as (a1 & Hh1 & Hi1).
    cbv zeta in Hh1. rewrite Hh1 in Hh. injection Hh as <- <-. by eexists _, _, _, _.
Qed.

Lemma flow_run_inv size pa pb s s' :
  rtc (flow_step pa pb) s s' → (∃ ca cb ds ns, flow_inv size pa pb s ca cb ds ns) →
  ∃ ca cb ds ns, flow_inv size pa pb s' ca cb ds ns.
Proof.
  induction 1 as [s | s s1 s2 Hstep _ IH]; [done |]. intros (ca & cb & ds & ns & Hi).
  apply IH. by apply (flow_step_inv size pa pb s s1 ca cb ds ns).
Qed.

(** The state after the opening handshake: nothing in flight, and the sender
    knows the receiver's window and packet limit. *)
Definition flow_start (size : Z) (pa pb : ptr) (s : flow) : Prop :=
  ∃ ca cb, open_channel (fl_a s) pa ca ∧ open_channel (fl_b s) pb cb ∧ ch_receive cb = true
    ∧ ch_remote_channel_number ca = ch_local_channel_number cb
    ∧ ch_remote_channel_number cb = ch_local_channel_number ca
    ∧ ch_send_max_packet ca <= ch_rec_max_packet cb
    ∧ ch_send_window_size ca = size ∧ ch_rec_window_size cb = size
    ∧ w_env (fl_a s) = mk_endpoint [] [] ∧ w_env (fl_b s) = mk_endpoint [] []
    ∧ fl_sent s = [] ∧ fl_held s = 0.

Lemma flow_reachable size pa pb s0 s :
  flow_start size pa pb s0 → rtc (flow_step pa pb) s0 s →
  ∃ ca cb ds ns, flow_inv size pa pb s ca cb ds ns.
Proof.
  intros (ca & cb & Ha & Hb & Hrec & Hr & Hr' & Hmax & Hsa & Hsb & Hea & Heb & Hsent & Hheld) Hrun.
  apply (flow_run_inv size pa pb s0); [done |]. exists ca, cb, [], [].
  pose proof (open_channel_ok _ _ _ Hb) as [? ? [? ?] ? ? ?].
  split; rewrite ?Hea, ?Heb, ?Hsent, ?Hheld; try done; simpl; rewrite ?lenZ_nil; lia.
Qed.

(** C15: flow control is sound between two ends that both run this code.
    However sending, arrival of data, consumption and arrival of window
    adjustments are interleaved: the data received so far followed by the
    data in flight is exactly the data sent (so the branch that truncates
    data to the window is never taken); the sender's window, the data in
    flight and the window space in flight add up to the receiver's window;
    that window and what the application holds add up to the initial window;
    and the next packet in either queue is always accepted. *)
Theorem channel_flow_lossless size pa pb s0 s :
  flow_start size pa pb s0 → rtc (flow_step pa pb) s0 s →
  ∃ ca cb ds ns,
    w_heap (fl_a s) !! pa = Some ca ∧ w_heap (fl_b s) !! pb = Some cb
    ∧ ep_got (w_env (fl_b s)) ++ concat ds = fl_sent s
    ∧ ep_out (w_env (fl_a s)) = (λ d, encode (ChannelData (ch_local_channel_number cb) d)) <$> ds
    ∧ ep_out (w_env (fl_b s)) = (λ n, encode (WindowAdjust (ch_local_channel_number ca) n)) <$> ns
    ∧ ch_send_window_size ca + lenZ (concat ds) + sumZ ns = ch_rec_window_size cb
    ∧ ch_rec_window_size cb + fl_held s = size
    ∧ (∀ packet rest, ep_out (w_env (fl_a s)) = packet :: rest →
         ∃ b', channel_packet_handler (fl_b s) (lenZ packet) packet = Ok (b', 1)
               ∧ ∃ d, head ds = Some d ∧ ep_got (w_env b') = ep_got (w_env (fl_b s)) ++ d)
    ∧ (∀ packet rest, ep_out (w_env (fl_b s)) = packet :: rest →
         ∃ a', channel_packet_handler (fl_a s) (lenZ packet) packet = Ok (a', 1)).
Proof.
  intros H0' Hrun. destruct (flow_reachable size pa pb s0 s H0' Hrun) as (ca & cb & ds & ns & Hi).
  exists ca, cb, ds, ns. destruct s as [a b sent held].
  pose proof Hi as [Ha Hb _ _ _ _ _ Hd _ Hs _ Hlo Hwin Htot _]. simpl in *.
  split_and!; [apply Ha | apply Hb | done | done | done | done | done | |].
  - intros packet rest Hq. rewrite Hd in Hq. destruct ds as [| d ds]; [done |]. injection Hq as <- <-.
    destruct (inv_data_arrives _ _ _ _ _ _ _ _ _ _ _ _ Hi) as (b1 & cb1 & Hh & Hg & _). eauto.
  - intros packet rest Hq. rewrite Hs in Hq. destruct ns as [| n ns]; [done |]. injection Hq as <- <-.
    destruct (inv_adjust_arrives _ _ _ _ _ _ _ _ _ _ _ _ Hi) as (a1 & Hh & _). eauto.
Qed.

End flow.

(** ** Instances *)

(** A connection with one active channel, number 0, at address 1. *)
Definition one_alloc : ssh_connection := sample_alloc init_ssh_connection.
Definition one_registered : ssh_connection :=
  match register_slot one_alloc 0 1%nat with Ok c => c | Fault _ => one_alloc end.
Definition one_active : ssh_connection :=
  match ssh_connection_activate_channel one_registered 0 with Ok c => c | Fault _ => one_registered end.

Lemma one_active_run : table_run one_active ({[0%nat]} ∪ ∅).
Proof.
  apply (run_activate one_registered _ _ 0 1%nat); [| set_solver | done | by vm_compute].
  apply (run_register one_alloc _ _ 0 1%nat); [| set_solver | done | by vm_compute].
  apply (run_alloc init_ssh_connection _ CHANNEL_ALLOC_SENT_OPEN _ 0); [apply run_init | by left | by vm_compute].
Qed.

Definition one_world {E} (ch : ssh_channel) (e : E) : world E := mk_world one_active {[ 1%nat := ch ]} e.

Lemma one_active_numbers n :
  conn_wf one_active
  ∧ (n ≠ 0%nat → number_state one_active n = CHANNEL_FREE ∧ number_channel one_active n = None).
Proof.
  destruct (table_run_spec _ _ one_active_run) as [Hc Hu]. split; [done |]. intros Hn.
  assert (number_state one_active n = CHANNEL_FREE) as Hf.
  { destruct (decide (number_state one_active n = CHANNEL_FREE)) as [Hd | Hd]; [done |].
    apply elem_of_in_use in Hd. rewrite Hu, union_empty_r_L, elem_of_singleton in Hd. done. }
  split; [done | by apply number_free].
Qed.

Lemma one_world_wf {E} ch (e : E) :
  ch_connection ch = true → ch_local_channel_number ch = 0 → channel_ok ch → world_wf (one_world ch e).
Proof.
  intros Hc Hl Hok. split; simpl.
  - apply (one_active_numbers 0).
  - intros [| n]; [done |]. destruct (one_active_numbers (S n)) as [_ [-> _]]; [done |]. by intros [|].
  - intros [| n] p; [| by destruct (one_active_numbers (S n)) as [_ [_ ->]]].
    change (number_channel one_active 0) with (Some 1%nat). intros [= <-]. exists ch. by rewrite lookup_singleton_eq.
  - intros p ch' Hp _. apply lookup_singleton_Some in Hp as [<- <-]. by rewrite Hl.
  - intros p ch' Hp. apply lookup_singleton_Some in Hp as [<- <-]. done.
Qed.

(** A channel with windows of [rec] and [send] octets. *)
Definition one_channel (rec send : Z) : ssh_channel :=
  mk_channel true true 0 0 rec 1000 send 1000 None None 0 0 0 true false 0.

Lemma one_channel_open rec send e :
  is_u32 rec → is_u32 send → open_channel (one_world (one_channel rec send) e) 1%nat (one_channel rec send).
Proof.
  intros Hr Hs. split; [| apply lookup_singleton_eq | done | done | done].
  apply one_world_wf; [done | done |]. by split.
Qed.

(** A window of three octets; two are sent. *)
Definition flow0 : flow :=
  mk_flow (one_world (one_channel 0 3) (mk_endpoint [] [])) (one_world (one_channel 3 0) (mk_endpoint [] [])) [] 0.

Lemma flow0_start : flow_start 3 1%nat 1%nat flow0.
Proof.
  exists (one_channel 0 3), (one_channel 3 0). split_and!; try done; by apply one_channel_open.
Qed.

Definition flow1 : flow :=
  mk_flow (push_out (encode (ChannelData 0 [104; 105]))
             (with_channel (fl_a flow0) 1%nat (sent_on (one_channel 0 3) 2))) (fl_b flow0) [104; 105] 0.

Lemma flow1_run : rtc (flow_step 1%nat 1%nat) flow0 flow1.
Proof.
  apply rtc_once, (flow_transmit 1%nat 1%nat (fl_a flow0) (fl_b flow0) [] 0 [104; 105]);
    [by repeat constructor | done |].
  apply (transmit_exact (fl_a flow0) 1%nat (one_channel 0 3) [104; 105]);
    [by apply one_channel_open | by repeat constructor | done | done | done].
Qed.

Lemma channel_flow_lossless_witness :
  ∃ ca ds, w_heap (fl_a flow1) !! 1%nat = Some ca ∧ concat ds = [104; 105]
    ∧ ch_send_window_size ca + lenZ (concat ds) <= 3.
Proof.
  destruct (channel_flow_lossless 3 1%nat 1%nat flow0 flow1 flow0_start flow1_run)
    as (ca & cb & ds & ns & Ha & Hb & Hlo & _ & Hs & Hwin & Htot & _). simpl in Hlo, Hs, Hwin, Htot.
  exists ca, ds. split_and!; [done | done |]. destruct ns as [| n ns]; [| done].
  change (sumZ []) with 0 in Hwin. change (fl_held flow1) with 0 in Htot. lia.
Defined.
